(* ===== verification/_CoqProject ===== *)
-Q . S2P
Prelude.v
CLib.v
CText.v
Interval.v
Truth.v
Timeval.v
PinSet.v
Policy.v
Memory.v
SizeText.v
Message.v
Hash.v
HashTable.v
IOBuf.v
Latency.v
LatencySpec.v
LatencySum.v
LatencyDump.v
SumLatencies.v
RPC.v
Wire.v
RpcSetup.v
PinTable.v
Pincushion.v
PinLive.v
PincushionMain.v
DblList.v
Reactor.v
ReactorSpec.v
OrdTree.v
RBTree.v
RBShape.v
RBChain.v
RBPath.v
RBInv.v
RBInsert.v
RBRemove.v
RBProps.v
Eviction.v
StoreData.v
StatsText.v
Store.v
StoreInv.v
StoreInval.v
StorePut.v
StoreProps.v
StoreBuffer.v
StoreTrace.v
Registry.v
Stats.v
Marshal.v
Server.v
ServerMain.v
CommitMap.v
DBStatus.v
DBTags.v
DBInval.v
Snapshots.v
Validity.v
Invald.v
Client.v
InvaldSetup.v
Indexes.v
ClientParse.v
ClientInv.v
ClientSteps.v
ClientTrace.v
Answers.v
System.v
ClientKeys.v
PhpMarshal.v
Php.v
PhpKeys.v
PhpRuns.v
PhpTrace.v
PhpRequests.v
