(* ===== verification/Prelude.v ===== *)
(** * TxCache: a verification development

    TxCache is a transactional cache for applications on a modified PostgreSQL.
    Read-only transactions see one snapshot of the database although most of what
    they read comes from cache servers.  This development models its parts as Rocq
    definitions, proves each part against its contract, and puts the contracts
    together: what a transaction sees, from the database and from the cache, holds
    at one pin.

    ** The program and how its parts interact

    A client (src/client) runs cacheable functions.  It asks a cache server
    (src/server) for a result, over RPC (src/lib/rpc*.c), with the range of
    snapshots its transaction may still run at.  On a miss it queries the database,
    which reports over which range of commits the result is valid, and with which
    tags later changes of it will be announced; the client puts the result into the
    cache with that interval and those tags.  Snapshots are named by pins; the
    pincushion (src/pincushion) lends pins that the database keeps, and has them
    unpinned when they are no longer used.  The database queues the tags of what
    every commit changes; the invalidation daemon (src/invald) takes them and sends them to the
    cache servers, which close the intervals of what is affected.  The servers are
    event loops around [select] (src/lib/reactor.c).  PHP programs reach the client
    through an extension (src/phpclient) that wraps functions: it makes the key from
    the function's name and arguments, and stores what the function returns and prints.

    ** Which file models what

    Foundations.
    - Prelude.v (this file): outcomes of C code as [res], its monad and tactics, the
      hint database [txc], lemmas on lists, maps and sums.
    - CLib.v, CText.v: integers at their width, byte strings, [strcmp], [memcmp],
      [sscanf], [snprintf] and the like, as far as the sources use them.
    - Truth.v: what it means for a value, an interval and tags to be right for a
      history of the database.

    src/lib.
    - Interval.v (interval.h), Timeval.v (timeval.h), Memory.v (memory.h), PinSet.v
      (pinset.c): the pin set keeps its array and its two representations; SizeText.v
      (memory.c): sizes as text; Message.v (message.c): log lines, the choice of
      files to debug, dumps of data.
    - IOBuf.v (iobuf.c, iobuf-getput.h): buffers with addresses; RPC.v (rpc.c, rpcs.c,
      rpcc.c): framing and dispatch, with the results of socket calls as
      arguments; Wire.v: what stubs and handlers share; RpcSetup.v: listening,
      accepting, connecting and pairing, and what stays open when they fail.
    - Latency.v (latency.c, latency.h): distributions of latencies and nested
      measurement, with the clock as arguments; LatencySpec.v, LatencySum.v and
      LatencyDump.v: what they count, sum, write and print; SumLatencies.v
      (src/support/sumlatencies.c): the tool that sums the files of all processes.
    - Hash.v (lookup3.c), HashTable.v (tmpl/hashtable-impl.h), DblList.v
      (tmpl/dbllist.h): links in memory, refined to maps and sequences.
    - Reactor.v (reactor.c): the event loop, its callbacks as programs that add, mark
      and close entries; ReactorSpec.v: what a turn of it does.
    - OrdTree.v: the contract of the ordered trees, on sequences.  RBTree.v
      (tmpl/rbtree-impl.h): the trees on nodes in memory; RBShape.v, RBChain.v,
      RBPath.v, RBInv.v, RBInsert.v, RBRemove.v and RBProps.v prove that they meet
      it, and Indexes.v that the trees of the store and the client are instances.

    src/server.
    - Eviction.v (evictionpolicy.c): the policy table as a type class with its laws;
      LRU is an instance.
    - StoreData.v and Store.v (store.c, storevset.c, lookuppolicy.c): entries are
      addresses in [heap], each index of the code a field of [Store_t], each function a
      definition of its name.  The field [room] says whether the allocations succeed
      whose failure the code does not report; the others are arguments.  StatsText.v:
      the text of the statistics, which a failed eviction prints.  StoreInv.v,
      StoreInval.v, StorePut.v, StoreProps.v: invariant and behaviour; StoreTrace.v:
      consistency over sequences of calls; StoreBuffer.v: what the buffer of
      invalidations misses.  Registry.v: the registration of policies; Stats.v: when
      the statistics fit.
    - Marshal.v (marshal.c): dumping and loading the store.
    - Server.v (server.c, proxy.c): the request handlers and the stubs; ServerMain.v
      (server.c): statistics, signals, start-up, and the process behind its
      connections.

    src/pincushion.  PinTable.v (pintable.c), Pincushion.v (pincushion.c, proxy.c);
    PinLive.v: runs of the pincushion without end; PincushionMain.v (pincushion.c,
    checkdb.c): signals, start-up, the settings of the database.

    src/client.  Policy.v (policy.c), Client.v (client.c); ClientParse.v: the parsers
    against the text of DBStatus.v; ClientInv.v, ClientSteps.v, ClientTrace.v:
    transactions see a snapshot; ClientKeys.v: frames keep their keys.

    src/phpclient.  PhpMarshal.v (marshal.c): values, with the functions of the Zend
    engine as a class and its laws; Php.v (txcache.c): the functions of the extension,
    with the user function as an argument of [txcache_wrap]; PhpKeys.v: keys and data;
    PhpRuns.v, PhpTrace.v: programs that call the extension, with and without the
    cache; PhpRequests.v: connections across requests.

    src/pgsql, the modifications of the database.  CommitMap.v (xstamp.c),
    Snapshots.v (ssnap.c, utility.c, xact.c), Validity.v (valint.c, tqual.c, the
    executor's part), DBTags.v, DBInval.v and DBStatus.v (inval.c, pquery.c).  Answers.v:
    the database meets what the client's theorems assume of it.

    src/invald.  Invald.v (invald.c): the loop over the announcements; InvaldSetup.v:
    the nodes file, which the clients read as well.

    System.v puts clients, cache servers and the stream of messages together.

    ** What the theorems show

    - Consistency: [System_consistent] (everything a transaction saw holds at every
      pin it has left, in the runs in which late puts find their invalidation in the
      buffer and early ones do not step over a message), from
      [Client_sees_snapshot], [Client_puts_truthful] and [Store_consistent].
    - Programs: [wraps_transparent] (a PHP program with wrapped calls returns and prints
      what it would without a cache, at every pin it has left, when its queries return
      rows and its functions keep the conventions), [cache_key_injective],
      [Marshal_roundtrip].
    - The database: [invisible_iff], [query_valid_over], [changes_affect_scans],
      [CommitMap_refines_log], and [database_meets_contract], which discharges the
      client's assumptions for sequential scans.  They are about transactions that
      take stamps; what happens with the others is [quiet_rows].  [invald_forwards]:
      the daemon sends every node the bytes of one message per announcement, in order.
    - The pincushion: [lent_pins_stay] (a lent pin stays in the table, and nothing
      queues it to be unpinned), [table_invariant], [pins_are_unpinned] (no wakeup is lost: with a fair event
      loop and database every queued pin is unpinned), [remote_request].
    - The store: [Store_safe] (the invariant holds after every sequence of calls, and
      no call faults that has room), the specifications of its operations, [Store_dump_load],
      [remote_lookup] and [remote_updates] for calls over the wire, and
      [server_serves]: of acceptable requests on a connection, in whatever pieces,
      the server's process serves each once and in order.
      [Store_DumpStats_bounds]: when the statistics fit their buffer.
    - The library: refinements to maps, sets, sequences and logs
      ([HT_refines_map], [PinSet_refines_set], [RB_refines_sequences],
      [VSet_is_tree]), [RB_Find_steps], [hash_alignment_independent], the round
      trips of [IOBuf_put_get] and [RPC_delivery], [LRU_evicts_least_recently_used],
      [policies_choose_member], [Memory_size_roundtrip], and [Reactor_Loop_serves]: the event loop never
      touches freed memory and implements a specification without lists and freeing.
    - Measurement: [Latency_refines_clocks] (nested measurements are a stack of stop
      watches),
      [latencies_add_up] (through the files and the tool nothing is lost or counted
      twice).
    - Where the code does not do what it means to do, a theorem or lemma has the
      failing run: [Store_buffer_misses], [extended_reply_wrong], [changes_missed],
      [aborted_call_forgotten], [RB_Insert_loses_root], [eager_use_after_free],
      [memcached_mode_stays], [DebugEnabled_three], [first_policy_twice],
      [signal_in_signal], [blank_line_misread], [reinserted_while_queued],
      [quiet_rows], [SaveSnapshot_full], [failed_eviction_prints],
      [iterator_position_stale], [ended_while_paused] and others; the theorems above
      have hypotheses that exclude these runs.

    ** Conventions

    [Fault] is an abort ([Assert], [Panic]), an error report of the database, or
    undefined behaviour (a null or freed pointer, an index out of bounds).  Theorems
    that say a call returns [Ok] exclude all of them.  The results of the operating
    system and of the C library's allocator are arguments ([malloc], [realloc],
    [select], [recv], [send], [write], clocks, [rand]), with hypotheses only where the code
    relies on their documentation.

    Loops that are not structural have fuel, taken from the data they walk: one more
    than the number of nodes, entries or bytes there (for the commit map its
    capacity; 1024 for the loops over the pin table, which holds fewer pins; twice the
    number of nodes for releasing a tree, which rotates on the way).  The theorems show that it is enough, as
    they show a result and not [NoFuel].  Only the event loop runs forever;
    its theorem is about any number of turns.

    ** Not modelled

    - The rest of PostgreSQL: only what the modifications add or change is under
      verification.  Making a snapshot and the visibility of tuples on disk are
      contracts; subtransactions and prepared transactions are ids that commit without
      a stamp.  Locks are held throughout the operations that take them, which are
      atomic here.  Of the executor, sequential scans; index scans and aggregates are
      not followed through Validity.v.
    - Command lines and [main], printing of the pin table, of pin sets and of the
      client's statistics: input and output only.  The system calls that open
      connections and files are arguments.  Messages to the log are not part of
      the models of the functions that write them.  Only the extension's calls of the
      latency library are part of its caller's model.
    - Conversions of doubles, but for the percentages of the statistics; [hashbig]
      (not called on little-endian machines); the text forms of pins and times.
    - The Zend engine, which is a parameter, the RUBiS benchmark, and the tests: clients
      of the interfaces that are modelled.
    - Eager mode of the event loop, which only the client's test turns on, is modelled,
      but the theorem about the loop is for the mode the servers use. *)

From stdpp Require Export base numbers list sorting gmap sets strings.
From Stdlib Require Export ZArith Lia.

#[global] Open Scope Z_scope.

(** ** Outcomes of C code

    A call either returns, or stops the process: [Assert] and [Panic] of
    [lib/message.h] abort, and the remaining constructors name the undefined
    behaviours the sources can reach.  [ErrorReport] is [ereport(ERROR, ...)] of
    the database, which aborts the transaction.  [OutOfMemory] is an allocation that fails
    where the code does not report it: it goes on with NULL or a damaged structure, which
    is not followed further.  [NoFuel] is only produced by a fuelled
    loop whose bound was too small. *)

Inductive fault : Type :=
| AssertFail
| PanicCall
| NullDeref
| OutOfBounds
| DivByZero
| ErrorReport
| OutOfMemory
| NoFuel.

Inductive res (A : Type) : Type :=
| Ok (a : A)
| Fault (f : fault).

Arguments Ok {A} a.
Arguments Fault {A} f.

#[global] Instance res_ret : MRet res := fun A a => Ok a.
#[global] Instance res_bind : MBind res := fun A B f m =>
  match m with
  | Ok a => f a
  | Fault e => Fault e
  end.

#[global] Instance fault_eq_dec : EqDecision fault.
Proof. solve_decision. Defined.

#[global] Instance res_eq_dec {A} `{EqDecision A} : EqDecision (res A).
Proof. solve_decision. Defined.

(** [Assert(b)] of [lib/message.h], active in every build. *)
Definition Assert (b : bool) : res unit :=
  if b then Ok tt else Fault AssertFail.

(** Dereference of a pointer known to be either NULL or valid. *)
Definition deref {A} (o : option A) : res A :=
  match o with
  | Some a => Ok a
  | None => Fault NullDeref
  end.

(** ** Inversion of successful runs *)

Lemma bind_Ok {A B} (m : res A) (f : A -> res B) b :
  (m ≫= f) = Ok b <-> exists a, m = Ok a /\ f a = Ok b.
Proof. destruct m; cbn; naive_solver. Qed.

(** As a rewrite rule, so that evaluation steps over one call and leaves the
    next one folded. *)
Lemma bind_ret_l {A B} (a : A) (f : A -> res B) : (Ok a ≫= f) = f a.
Proof. reflexivity. Qed.

Lemma Assert_Ok b u : Assert b = Ok u <-> b = true /\ u = tt.
Proof. destruct b, u; cbn; naive_solver. Qed.

Lemma deref_Ok {A} (o : option A) a : deref o = Ok a <-> o = Some a.
Proof. destruct o; cbn; naive_solver. Qed.

Lemma Ok_inj {A} (a b : A) : Ok a = Ok b <-> a = b.
Proof. naive_solver. Qed.

(** [res_inv] turns [(x ← m; k) = Ok b] hypotheses into the equations of the
    individual steps. *)
Ltac res_inv :=
  repeat match goal with
  | H : (_ ≫= _) = Ok _ |- _ => apply bind_Ok in H; destruct H as (? & ? & H)
  | H : Assert _ = Ok _ |- _ => apply Assert_Ok in H; destruct H as [H ?]
  | H : deref _ = Ok _ |- _ => apply deref_Ok in H
  | H : Ok _ = Ok _ |- _ => injection H as H; try subst
  | H : Fault _ = Ok _ |- _ => discriminate H
  | H : mret _ = Ok _ |- _ => injection H as H; try subst
  | H : (_, _) = (_, _) |- _ => injection H as H; try subst
  | u : unit |- _ => destruct u
  end.

(** ** Hints

    [autorewrite with txc] evaluates over the steps of a run that are known;
    [eauto with txc] has the laws by which invariants pass to smaller intervals,
    longer logs and the like, which each component adds to it. *)

Create HintDb txc.

#[export] Hint Rewrite @bind_ret_l : txc.

(** Step over the known outcomes [E] of the calls of a run. *)
Tactic Notation "run" := autorewrite with txc.
Tactic Notation "run" constr(E) := rewrite E; autorewrite with txc.

(** ** Evaluation of runs *)

Definition get {A} (d : A) (r : res A) : A := match r with Ok a => a | Fault _ => d end.

Definition no_fault {A} (r : res A) : bool := match r with Ok _ => true | Fault _ => false end.

Lemma get_Ok {A} (d : A) (r : res A) : no_fault r = true -> r = Ok (get d r).
Proof. by destruct r. Qed.

Lemma get_pair {A B} (d : A * B) (r : res (A * B)) (b : B) :
  no_fault r = true -> (get d r).2 = b -> r = Ok ((get d r).1, b).
Proof. destruct r as [[a b']|]; [|done]. by intros _ <-. Qed.

(** ** Booleans and integers *)

(** [bools] rewrites boolean tests in the context and the goal to the
    propositions they decide. *)
Ltac bools :=
  repeat match goal with
  | H : _ && _ = true |- _ => apply andb_true_iff in H; destruct H
  | H : _ && _ = false |- _ => apply andb_false_iff in H
  | H : _ || _ = true |- _ => apply orb_true_iff in H
  | H : _ || _ = false |- _ => apply orb_false_iff in H; destruct H
  | H : negb _ = true |- _ => apply negb_true_iff in H
  | H : negb _ = false |- _ => apply negb_false_iff in H
  | H : (_ =? _) = true |- _ => apply Z.eqb_eq in H
  | H : (_ =? _) = false |- _ => apply Z.eqb_neq in H
  | H : (_ <? _) = true |- _ => apply Z.ltb_lt in H
  | H : (_ <? _) = false |- _ => apply Z.ltb_ge in H
  | H : (_ <=? _) = true |- _ => apply Z.leb_le in H
  | H : (_ <=? _) = false |- _ => apply Z.leb_gt in H
  | H : bool_decide _ = true |- _ => apply bool_decide_eq_true in H
  | H : bool_decide _ = false |- _ => apply bool_decide_eq_false in H
  end.

(** Case split on the boolean scrutinee of an [if] in the goal. *)
Ltac case_if :=
  match goal with
  | |- context [if ?b then _ else _] => let E := fresh "E" in destruct b eqn:E
  end.

(** ** Lists *)

Lemma StronglySorted_filter {A} (R : A -> A -> Prop) (P : A -> Prop)
    `{forall x, Decision (P x)} (l : list A) :
  StronglySorted R l -> StronglySorted R (filter P l).
Proof.
  induction l as [|a l IH]; [done|].
  intros [Hs HF]%StronglySorted_inv. rewrite filter_cons.
  case_decide; [|auto]. constructor; [auto|].
  rewrite Forall_forall in HF |- *. intros x [_ Hx]%list_elem_of_filter. auto.
Qed.

Lemma filter_ext_in {A} (P Q : A -> Prop) `{!forall x, Decision (P x)}
    `{!forall x, Decision (Q x)} (l : list A) :
  (forall x, x ∈ l -> P x <-> Q x) -> filter P l = filter Q l.
Proof.
  induction l as [|a l IH]; intros Hl; [done|]. rewrite !filter_cons.
  pose proof (Hl a ltac:(by left)). rewrite IH by (intros x Hx; apply Hl; by right).
  case_decide; case_decide; tauto.
Qed.

Lemma filter_id {A} (P : A -> Prop) `{!forall x, Decision (P x)} (l : list A) :
  (forall x, x ∈ l -> P x) -> filter P l = l.
Proof.
  induction l as [|a l IH]; intros Hl; [done|].
  rewrite filter_cons_True by (apply Hl; by left). f_equal. apply IH.
  intros x Hx. apply Hl. by right.
Qed.

Lemma filter_none {A} (P : A -> Prop) `{!forall x, Decision (P x)} (l : list A) :
  Forall (fun x => ~ P x) l -> filter P l = [].
Proof. induction 1 as [|x l Hx _ IH]; [done|]. by rewrite filter_cons_False. Qed.

Lemma StronglySorted_impl {A} (R S : A -> A -> Prop) (l : list A) :
  (forall x y, R x y -> S x y) -> StronglySorted R l -> StronglySorted S l.
Proof. intros H. induction 1 as [|x l _ IH Hx]; constructor; [done|]. eapply Forall_impl; [exact Hx|]. auto. Qed.

Lemma StronglySorted_mid {A} (R : A -> A -> Prop) (l1 l2 l3 : list A) :
  StronglySorted R (l1 ++ l2 ++ l3) -> StronglySorted R (l1 ++ l3).
Proof.
  rewrite !StronglySorted_app. intros (H1 & H2 & H3 & H4 & H5). split_and!; [|done..].
  intros x y Hx Hy. apply H1; [done|]. apply elem_of_app. by right.
Qed.

#[export] Hint Resolve StronglySorted_filter StronglySorted_impl StronglySorted_mid : txc.

(** ** Sums *)

Fixpoint Zsum (l : list Z) : Z :=
  match l with
  | [] => 0
  | x :: l => x + Zsum l
  end.

Lemma Zsum_app l1 l2 : Zsum (l1 ++ l2) = Zsum l1 + Zsum l2.
Proof. induction l1 as [|x l1 IH]; cbn; [done|]. rewrite IH. lia. Qed.

#[global] Instance Zsum_perm : Proper ((≡ₚ) ==> (=)) Zsum.
Proof. induction 1; cbn; lia. Qed.

Lemma Zsum_nonneg l : Forall (fun x => 0 <= x) l -> 0 <= Zsum l.
Proof. induction 1; cbn; lia. Qed.

(** Accumulating modulo [m] computes the sum as long as it fits. *)
Lemma fold_left_mod {A} (f : A -> Z) (m : Z) (l : list A) (acc : Z) :
  Forall (fun a => 0 <= f a) l -> 0 <= acc -> acc + Zsum (map f l) < m ->
  fold_left (fun n a => (n + f a) mod m) l acc = acc + Zsum (map f l).
Proof.
  intros Hl. revert acc. induction Hl as [|a l Ha Hl IH]; intros acc Hacc; cbn; [lia|].
  intros Hm. assert (0 <= Zsum (map f l)) by (apply Zsum_nonneg; by apply Forall_map).
  rewrite Z.mod_small by lia. rewrite IH; lia.
Qed.

(** Sums over the values of a finite map. *)
Definition msum `{Countable K} {A} (f : K -> A -> Z) (m : gmap K A) : Z :=
  Zsum (map (fun p => f p.1 p.2) (map_to_list m)).

Section Msum.

Context `{Countable K} {A : Type} (f : K -> A -> Z).

Lemma msum_empty : msum f ∅ = 0.
Proof. unfold msum. by rewrite map_to_list_empty. Qed.

Lemma msum_insert m k a : m !! k = None -> msum f (<[k := a]> m) = f k a + msum f m.
Proof. intros Hk. unfold msum. by rewrite map_to_list_insert. Qed.

Lemma msum_delete m k a : m !! k = Some a -> msum f m = f k a + msum f (delete k m).
Proof.
  intros Hk. rewrite <- msum_insert by apply lookup_delete_eq.
  by rewrite insert_delete_id.
Qed.

Lemma msum_update m k a b :
  m !! k = Some a -> f k b = f k a -> msum f (<[k := b]> m) = msum f m.
Proof.
  intros Hk Hf. rewrite <- insert_delete_eq, msum_insert by apply lookup_delete_eq.
  rewrite Hf. symmetry. by apply msum_delete.
Qed.

Lemma msum_nonneg m : (forall k a, m !! k = Some a -> 0 <= f k a) -> 0 <= msum f m.
Proof.
  intros Hf. apply Zsum_nonneg, Forall_map, Forall_forall.
  intros [k a] Hin%elem_of_map_to_list. by apply Hf.
Qed.

Lemma msum_zero m : (forall k a, m !! k = Some a -> f k a = 0) -> msum f m = 0.
Proof.
  induction m as [|k a m Hk IH] using map_ind; intros Hf; [apply msum_empty|].
  rewrite msum_insert by done. rewrite (Hf k a) by apply lookup_insert_eq. rewrite IH; [done|].
  intros k' a' Hk'. apply Hf. rewrite lookup_insert_ne; [done|]. by intros <-; rewrite Hk in Hk'.
Qed.

Lemma msum_le m k a :
  (forall k a, m !! k = Some a -> 0 <= f k a) -> m !! k = Some a -> f k a <= msum f m.
Proof.
  intros Hf Hk. rewrite (msum_delete m k a Hk).
  enough (0 <= msum f (delete k m)) by lia. apply msum_nonneg.
  intros k' a' [? ?]%lookup_delete_Some. by apply Hf.
Qed.

Lemma msum_subseteq m m' :
  (forall k a, m' !! k = Some a -> 0 <= f k a) -> m ⊆ m' -> msum f m <= msum f m'.
Proof.
  revert m'. induction m as [|k a m Hk IH] using map_ind; intros m' Hf Hs.
  - rewrite msum_empty. by apply msum_nonneg.
  - assert (Hk' : m' !! k = Some a) by (apply (lookup_weaken _ _ _ _ (lookup_insert_eq m k a) Hs)).
    rewrite msum_insert, (msum_delete m' k a Hk') by done.
    enough (msum f m <= msum f (delete k m')) by lia. apply IH.
    + intros x b [_ Hx]%lookup_delete_Some. by apply Hf.
    + rewrite <- (delete_insert_id m k a Hk). by apply delete_mono.
Qed.

Lemma msum_fmap (g : A -> A) m :
  (forall k a, m !! k = Some a -> f k (g a) = f k a) -> msum f (g <$> m) = msum f m.
Proof.
  intros Hg. unfold msum. rewrite map_to_list_fmap, map_map. f_equal.
  apply map_ext_in. intros [k a] Hin. cbn. apply Hg.
  apply elem_of_map_to_list. by apply list_elem_of_In.
Qed.

End Msum.
