(* ===== verification/CLib.v ===== *)
(** * Machine integers, byte strings and the C string functions

    What the sources use of C and its library: integers at their width,
    little-endian storage of integers (the build targets of the cache are
    little-endian; the sources mark the places with "XXX Byte order"), and
    [strcmp], [strncmp] and [memcmp] on byte strings.  A C string is the list
    of its bytes before the terminating NUL; a byte is a [Z] in [0, 256). *)

From S2P Require Import Prelude.

(** ** Integers at their width *)

Definition u8 (x : Z) : Z := x mod 2 ^ 8.
Definition u32 (x : Z) : Z := x mod 2 ^ 32.
Definition u64 (x : Z) : Z := x mod 2 ^ 64.

(** Reinterpretation of an unsigned value as a two's complement one. *)
Definition signed (w x : Z) : Z :=
  let y := x mod 2 ^ w in if y <? 2 ^ (w - 1) then y else y - 2 ^ w.

Definition s8 (x : Z) : Z := signed 8 x.
Definition s32 (x : Z) : Z := signed 32 x.
Definition s64 (x : Z) : Z := signed 64 x.

(** ** Little-endian storage *)

Definition byte_ok (b : Z) : Prop := 0 <= b < 256.

Fixpoint le_bytes (n : nat) (x : Z) : list Z :=
  match n with
  | O => []
  | S n => x mod 256 :: le_bytes n (x / 256)
  end.

Fixpoint le_val (l : list Z) : Z :=
  match l with
  | [] => 0
  | b :: l => b + 256 * le_val l
  end.

(** ** C strings *)

(** The sign of [strcmp]'s result; callers only test it against zero. *)
Fixpoint strcmp (a b : list Z) : Z :=
  match a, b with
  | [], [] => 0
  | [], _ :: _ => -1
  | _ :: _, [] => 1
  | x :: a, y :: b => if x <? y then -1 else if y <? x then 1 else strcmp a b
  end.

Fixpoint strncmp (a b : list Z) (n : nat) {struct n} : Z :=
  match n with
  | O => 0
  | S n =>
    match a, b with
    | [], [] => 0
    | [], _ :: _ => -1
    | _ :: _, [] => 1
    | x :: a, y :: b => if x <? y then -1 else if y <? x then 1 else strncmp a b n
    end
  end.

Definition strlen (s : list Z) : Z := Z.of_nat (length s).

(** [memcmp(a, b, len) == 0] for blocks of equal length. *)
Definition mem_eqb (a b : list Z) : bool := bool_decide (a = b).

(** Byte string of a Rocq string literal, for concrete inputs. *)
Fixpoint str (s : string) : list Z :=
  match s with
  | EmptyString => []
  | String c s => Z.of_N (Ascii.N_of_ascii c) :: str s
  end.

(** ** Lemmas on integers *)

Lemma signed_range w x :
  0 < w -> - 2 ^ (w - 1) <= signed w x < 2 ^ (w - 1).
Proof.
  intros Hw. unfold signed.
  assert (E : 2 ^ w = 2 * 2 ^ (w - 1)).
  { rewrite <- Z.pow_succ_r by lia. f_equal; lia. }
  pose proof (Z.pow_pos_nonneg 2 (w - 1) ltac:(lia) ltac:(lia)).
  pose proof (Z.mod_pos_bound x (2 ^ w) ltac:(lia)).
  cbn zeta. destruct (Z.ltb_spec (x mod 2 ^ w) (2 ^ (w - 1))); lia.
Qed.

Lemma signed_mod w x : 0 <= w -> signed w (x mod 2 ^ w) = signed w x.
Proof.
  intros Hw. unfold signed. rewrite Z.mod_mod; [done|].
  pose proof (Z.pow_pos_nonneg 2 w); lia.
Qed.

Lemma signed_id w x :
  0 < w -> - 2 ^ (w - 1) <= x < 2 ^ (w - 1) -> signed w x = x.
Proof.
  intros Hw Hx. unfold signed.
  assert (E : 2 ^ w = 2 * 2 ^ (w - 1)).
  { rewrite <- Z.pow_succ_r by lia. f_equal; lia. }
  cbn zeta. destruct (decide (0 <= x)).
  - rewrite Z.mod_small by lia. destruct (Z.ltb_spec x (2 ^ (w - 1))); lia.
  - assert (Em : x mod 2 ^ w = x + 2 ^ w).
    { symmetry. apply (Z.mod_unique_pos _ _ (-1)); lia. }
    rewrite Em. destruct (Z.ltb_spec (x + 2 ^ w) (2 ^ (w - 1))); lia.
Qed.

(** Storing a [uint32_t] through an [int32_t] and reading it back. *)
Lemma u32_s32 x : u32 (s32 x) = u32 x.
Proof.
  unfold u32, s32, signed. cbn zeta.
  destruct (_ <? _).
  - apply Z.mod_mod; lia.
  - rewrite Zminus_mod, Z_mod_same_full, Z.sub_0_r, !Z.mod_mod; lia.
Qed.

Lemma u64_s64 x : u64 (s64 x) = u64 x.
Proof.
  unfold u64, s64, signed. cbn zeta. destruct (_ <? _); [apply Z.mod_mod; lia|].
  rewrite Zminus_mod, Z_mod_same_full, Z.sub_0_r, !Z.mod_mod; lia.
Qed.

Lemma u32_small x : 0 <= x < 2 ^ 32 -> u32 x = x.
Proof. apply Z.mod_small. Qed.

Lemma u64_small x : 0 <= x < 2 ^ 64 -> u64 x = x.
Proof. apply Z.mod_small. Qed.

Lemma s32_small x : - 2 ^ 31 <= x < 2 ^ 31 -> s32 x = x.
Proof. intros Hx. apply signed_id; [lia|exact Hx]. Qed.

Lemma s64_small x : - 2 ^ 63 <= x < 2 ^ 63 -> s64 x = x.
Proof. intros Hx. apply signed_id; [lia|exact Hx]. Qed.

Lemma s8_small x : - 2 ^ 7 <= x < 2 ^ 7 -> s8 x = x.
Proof. intros Hx. apply signed_id; [lia|exact Hx]. Qed.

(** ** Lemmas on little-endian storage *)

Lemma length_le_bytes n x : length (le_bytes n x) = n.
Proof. revert x; induction n; intros; cbn; auto. Qed.

Lemma le_bytes_ok n x : Forall byte_ok (le_bytes n x).
Proof.
  revert x; induction n; intros; cbn; constructor; auto.
  apply Z.mod_pos_bound; lia.
Qed.

Lemma le_val_bytes n x : le_val (le_bytes n x) = x mod 256 ^ Z.of_nat n.
Proof.
  revert x; induction n as [|n IH]; intros x.
  - cbn. by rewrite Z.mod_1_r.
  - cbn [le_bytes le_val]. rewrite IH, Nat2Z.inj_succ, Z.pow_succ_r by lia.
    rewrite (Z.rem_mul_r x 256); [lia|lia|apply Z.pow_pos_nonneg; lia].
Qed.

Lemma le_bytes_mod n x : le_bytes n (x mod 256 ^ Z.of_nat n) = le_bytes n x.
Proof.
  revert x; induction n as [|n IH]; intros x; [done|].
  cbn [le_bytes]. rewrite Nat2Z.inj_succ, Z.pow_succ_r by lia.
  rewrite (Z.rem_mul_r x 256); [|lia|apply Z.pow_pos_nonneg; lia].
  f_equal.
  - rewrite (Z.mul_comm 256), Z_mod_plus_full. apply Z.mod_mod; lia.
  - rewrite (Z.mul_comm 256), Z.div_add, (Z.div_small (x mod 256)) by
      (try apply Z.mod_pos_bound; lia).
    by rewrite Z.add_0_l, IH.
Qed.

Lemma le_bytes_s64 x : le_bytes 8 (s64 x) = le_bytes 8 x.
Proof. rewrite <- (le_bytes_mod 8 (s64 x)), <- (le_bytes_mod 8 x). f_equal. apply u64_s64. Qed.

(** ** Lemmas on C strings *)

Lemma strcmp_refl a : strcmp a a = 0.
Proof. induction a; cbn; [done|]. by rewrite Z.ltb_irrefl. Qed.

Lemma strcmp_eq a b : strcmp a b = 0 <-> a = b.
Proof.
  split; [|intros ->; apply strcmp_refl].
  revert b; induction a as [|x a IH]; intros [|y b]; cbn; try done.
  destruct (Z.ltb_spec x y); [done|]. destruct (Z.ltb_spec y x); [done|].
  intros E. f_equal; [lia|auto].
Qed.

Lemma strcmp_antisym a b : strcmp b a = - strcmp a b.
Proof.
  revert b; induction a as [|x a IH]; intros [|y b]; cbn; try done.
  destruct (Z.ltb_spec x y), (Z.ltb_spec y x); try lia. apply IH.
Qed.

Lemma strcmp_range a b : -1 <= strcmp a b <= 1.
Proof.
  revert b; induction a as [|x a IH]; intros [|y b]; cbn; try lia.
  destruct (x <? y); [lia|]. destruct (y <? x); [lia|]. apply IH.
Qed.

Lemma strcmp_lt_trans a b c : strcmp a b < 0 -> strcmp b c < 0 -> strcmp a c < 0.
Proof.
  revert b c; induction a as [|x a IH]; intros [|y b] [|z c]; cbn; try lia.
  destruct (Z.ltb_spec x y), (Z.ltb_spec y x), (Z.ltb_spec y z), (Z.ltb_spec z y),
    (Z.ltb_spec x z), (Z.ltb_spec z x); try lia. intros. by apply (IH b).
Qed.

(** [strncmp(a, p, strlen(p)) == 0] tests that [p] is a prefix of [a]. *)
Lemma strncmp_prefix a p : strncmp a p (length p) = 0 <-> p `prefix_of` a.
Proof.
  revert a; induction p as [|y p IH]; intros a; cbn.
  - split; [intros _; apply prefix_nil|done].
  - destruct a as [|x a].
    + split; [done|]. by intros ?%prefix_nil_not.
    + destruct (Z.ltb_spec x y) as [Hl|].
      { split; [done|]. intros ?%prefix_cons_inv_1; lia. }
      destruct (Z.ltb_spec y x) as [Hl|].
      { split; [done|]. intros ?%prefix_cons_inv_1; lia. }
      assert (x = y) as -> by lia. rewrite IH. split.
      * apply prefix_cons.
      * apply prefix_cons_inv_2.
Qed.

Lemma strncmp_sym a b n : strncmp a b n = 0 <-> strncmp b a n = 0.
Proof.
  revert a b; induction n as [|n IH]; intros [|x a] [|y b]; cbn; try done.
  destruct (Z.ltb_spec x y), (Z.ltb_spec y x); try lia; auto.
Qed.

(** A prefix precedes its extensions. *)
Lemma strcmp_prefix p a : p `prefix_of` a -> strcmp a p >= 0.
Proof.
  revert a; induction p as [|x p IH]; intros a.
  - intros _. destruct a; cbn; lia.
  - destruct a as [|y a]; [by intros ?%prefix_nil_not|].
    intros Hp. pose proof (prefix_cons_inv_1 _ _ _ _ Hp). subst y.
    cbn. rewrite Z.ltb_irrefl. apply IH. by eapply prefix_cons_inv_2.
Qed.

(** Extensions of [p] are contiguous in [strcmp] order, starting at [p]. *)
Lemma strcmp_prefix_convex p a b :
  strcmp p a <= 0 -> strcmp a b <= 0 -> p `prefix_of` b -> p `prefix_of` a.
Proof.
  revert a b; induction p as [|x p IH]; intros a b; [intros; apply prefix_nil|].
  intros H1 H2 Hp. destruct b as [|z b]; [by apply prefix_nil_not in Hp|].
  pose proof (prefix_cons_inv_1 _ _ _ _ Hp). subst z.
  apply prefix_cons_inv_2 in Hp.
  destruct a as [|y a]; cbn in *; [lia|].
  destruct (Z.ltb_spec x y), (Z.ltb_spec y x); try lia.
  assert (x = y) as -> by lia. apply prefix_cons. eauto.
Qed.
