(* ===== verification/CText.v ===== *)
(** * Text functions of the C library

    The part of [sscanf], [sprintf], [strsep] and [strtol] that the sources use
    on the status strings of the database and on SQL text.  Strings are lists of
    bytes without the final NUL. *)

From S2P Require Import Prelude CLib.

(** ** Characters *)

Definition isspace (c : Z) : bool := (c =? 32) || ((9 <=? c) && (c <=? 13)).
Definition isdigit (c : Z) : bool := (48 <=? c) && (c <=? 57).

Fixpoint skip_spaces (s : list Z) : list Z :=
  match s with
  | c :: s' => if isspace c then skip_spaces s' else s
  | [] => []
  end.

(** ** Numbers in *)

(** The longest run of digits: its value on top of [acc], and the rest. *)
Fixpoint scan_digits (acc : Z) (s : list Z) : Z * list Z :=
  match s with
  | c :: s' => if isdigit c then scan_digits (10 * acc + (c - 48)) s' else (acc, s)
  | [] => (acc, [])
  end.

(** White space, an optional sign, at least one digit: the sign, the value and
    the rest. *)
Definition scan_number (s : list Z) : option (bool * Z * list Z) :=
  let s := skip_spaces s in
  let '(neg, s) :=
    match s with
    | c :: s' => if c =? 45 then (true, s') else if c =? 43 then (false, s') else (false, s)
    | [] => (false, [])
    end in
  match s with
  | c :: _ => if isdigit c then let '(v, rest) := scan_digits 0 s in Some (neg, v, rest) else None
  | [] => None
  end.

(** [%u]: [strtoul], which saturates, stored in 32 bits. *)
Definition conv_u (neg : bool) (v : Z) : Z :=
  if 2 ^ 64 <=? v then u32 (2 ^ 64 - 1) else u32 (if neg then - v else v).

(** [%lld]: [strtoll], which saturates. *)
Definition conv_lld (neg : bool) (v : Z) : Z :=
  if neg then Z.max (- v) (- 2 ^ 63) else Z.min v (2 ^ 63 - 1).

(** [strtol(s, NULL, 10)]; 0 without digits. *)
Definition strtol (s : list Z) : Z :=
  match scan_number s with
  | Some (neg, v, _) => conv_lld neg v
  | None => 0
  end.

(** ** [sscanf] *)

Inductive directive : Type := DSpace | DLit (c : Z) | DU | DLld | DN.

Fixpoint parse_format (f : list Z) : list directive :=
  match f with
  | 37 :: 117 :: f => DU :: parse_format f
  | 37 :: 110 :: f => DN :: parse_format f
  | 37 :: 108 :: 108 :: 100 :: f => DLld :: parse_format f
  | c :: f => (if isspace c then DSpace else DLit c) :: parse_format f
  | [] => []
  end.

(** The values that were assigned, in order, and the offset stored by [%n];
    [pos] bytes have been consumed.  The number of conversions that [sscanf]
    returns is the length of the list. *)
Fixpoint scanf_from (f : list directive) (s : list Z) (pos : Z) : list Z * option Z :=
  match f with
  | [] => ([], None)
  | DSpace :: f =>
    let s' := skip_spaces s in
    scanf_from f s' (pos + (strlen s - strlen s'))
  | DLit c :: f =>
    match s with
    | d :: s' => if d =? c then scanf_from f s' (pos + 1) else ([], None)
    | [] => ([], None)
    end
  | DU :: f =>
    match scan_number s with
    | Some (neg, v, s') =>
      let '(vs, n) := scanf_from f s' (pos + (strlen s - strlen s')) in (conv_u neg v :: vs, n)
    | None => ([], None)
    end
  | DLld :: f =>
    match scan_number s with
    | Some (neg, v, s') =>
      let '(vs, n) := scanf_from f s' (pos + (strlen s - strlen s')) in (conv_lld neg v :: vs, n)
    | None => ([], None)
    end
  | DN :: f => let '(vs, _) := scanf_from f s pos in (vs, Some pos)
  end.

Definition sscanf (s format : list Z) : list Z * option Z := scanf_from (parse_format format) s 0.

(** ** [strsep] *)

(** The token up to the next [delim], and the new value of the string pointer,
    NULL after the last token. *)
Fixpoint strsep (s : list Z) (delim : Z) : list Z * option (list Z) :=
  match s with
  | [] => ([], None)
  | c :: s => if c =? delim then ([], Some s) else let '(tok, rest) := strsep s delim in (c :: tok, rest)
  end.

(** ** Numbers out *)

Fixpoint digits (fuel : nat) (n : Z) : list Z :=
  match fuel with
  | O => []
  | S fuel => if n <? 10 then [n + 48] else digits fuel (n / 10) ++ [n mod 10 + 48]
  end.

(** [%u] of a [uint32_t] and [%d] of a [uint32_t] argument, which is read as an
    [int]. *)
Definition fmt_u (n : Z) : list Z := digits 10 (u32 n).
Definition fmt_d (n : Z) : list Z :=
  let i := s32 n in
  if i <? 0 then 45 :: digits 10 (- i) else digits 10 i.

(** [%lld] of a value that is not negative. *)
Definition fmt_lld (n : Z) : list Z := digits 20 n.

(** ** Columns *)

(** [%5ld] and [%-18s] with their widths as arguments. *)
Definition pad_left (w : nat) (s : list Z) : list Z := replicate (w - length s) 32 ++ s.
Definition pad_right (w : nat) (s : list Z) : list Z := s ++ replicate (w - length s) 32.

Definition fmt_ld (n : Z) : list Z := if n <? 0 then 45 :: digits 19 (- n) else digits 19 n.
Definition fmt_lu (n : Z) : list Z := digits 20 n.

(** ** Lemmas *)

Lemma digits_length fuel n : (length (digits fuel n) <= fuel)%nat.
Proof.
  revert n. induction fuel as [|fuel IH]; intros n; cbn [digits length]; [lia|].
  case_if; cbn [length]; [lia|]. rewrite length_app. cbn. specialize (IH (n / 10)). lia.
Qed.

Lemma digits_digit fuel n : 0 <= n -> Forall (fun c => isdigit c = true) (digits fuel n).
Proof.
  revert n. induction fuel as [|fuel IH]; intros n Hn; cbn [digits]; [constructor|].
  assert (Hd : forall x, 0 <= x < 10 -> isdigit (x + 48) = true).
  { intros x Hx. unfold isdigit. rewrite andb_true_iff, !Z.leb_le. lia. }
  case_if; bools.
  - constructor; [apply Hd; lia|constructor].
  - apply Forall_app. split; [apply IH; apply Z.div_pos; lia|].
    constructor; [apply Hd, Z.mod_pos_bound; lia|constructor].
Qed.

Lemma digits_nonempty fuel n : (0 < fuel)%nat -> digits fuel n <> [].
Proof. destruct fuel; [lia|]. intros _. cbn. case_if; [done|]. by intros [_ ?]%app_nil. Qed.

(** The first byte is not a digit. *)
Definition no_digit (s : list Z) : Prop :=
  match s with c :: _ => isdigit c = false | [] => True end.

Lemma scan_digits_stop acc s : no_digit s -> scan_digits acc s = (acc, s).
Proof. destruct s as [|c s]; cbn; [done|]. by intros ->. Qed.

Lemma scan_digits_app acc l s :
  Forall (fun c => isdigit c = true) l -> scan_digits acc (l ++ s) = scan_digits (scan_digits acc l).1 s.
Proof.
  revert acc. induction l as [|c l IH]; intros acc Hl; [done|].
  apply Forall_cons in Hl as [Hc Hl]. cbn. rewrite Hc. by apply IH.
Qed.

(** Printing and reading a number. *)
Lemma scan_digits_digits fuel n :
  0 <= n < 10 ^ Z.of_nat fuel -> (scan_digits 0 (digits fuel n)).1 = n.
Proof.
  revert n. induction fuel as [|fuel IH]; intros n Hn; cbn [digits]; [cbn in *; lia|].
  case_if; bools.
  - cbn. unfold isdigit. rewrite (proj2 (Z.leb_le _ _)), (proj2 (Z.leb_le (n + 48) 57)) by lia.
    cbn. lia.
  - rewrite Nat2Z.inj_succ, Z.pow_succ_r in Hn by lia.
    assert (0 <= n / 10) by (apply Z.div_pos; lia).
    rewrite scan_digits_app by (by apply digits_digit). rewrite IH.
    + pose proof (Z.mod_pos_bound n 10 ltac:(lia)). cbn. unfold isdigit.
      rewrite (proj2 (Z.leb_le _ _)), (proj2 (Z.leb_le (n mod 10 + 48) 57)) by lia.
      cbn. pose proof (Z.div_mod n 10 ltac:(lia)). lia.
    + split; [done|]. apply Z.div_lt_upper_bound; lia.
Qed.

Lemma isdigit_bounds c : isdigit c = true -> 48 <= c <= 57.
Proof. unfold isdigit. rewrite andb_true_iff, !Z.leb_le. done. Qed.

(** A printed number, behind any white space, is read back. *)
Lemma scan_number_digits fuel n s :
  (0 < fuel)%nat -> 0 <= n < 10 ^ Z.of_nat fuel -> no_digit s ->
  scan_number (digits fuel n ++ s) = Some (false, n, s).
Proof.
  intros Hf Hn Hs. pose proof (digits_digit fuel n ltac:(lia)) as Hd.
  pose proof (digits_nonempty fuel n Hf) as Hne.
  assert (Hr : scan_digits 0 (digits fuel n ++ s) = (n, s)).
  { rewrite scan_digits_app, scan_digits_digits by done. by apply scan_digits_stop. }
  destruct (digits fuel n) as [|c l]; [done|]. apply Forall_cons in Hd as [Hc _].
  pose proof (isdigit_bounds c Hc). cbn [app] in *. unfold scan_number. cbn [skip_spaces].
  assert (isspace c = false) as ->.
  { unfold isspace. rewrite orb_false_iff, andb_false_iff, Z.eqb_neq, !Z.leb_gt. lia. }
  rewrite (proj2 (Z.eqb_neq c 45)), (proj2 (Z.eqb_neq c 43)) by lia. by rewrite Hc, Hr.
Qed.

Lemma skip_spaces_length s : strlen (skip_spaces s) <= strlen s.
Proof.
  unfold strlen. induction s as [|c s IH]; cbn [skip_spaces]; [done|].
  case_if; cbn [length]; lia.
Qed.

Lemma strsep_length s d tok rest :
  strsep s d = (tok, Some rest) -> (length rest < length s)%nat.
Proof.
  revert tok. induction s as [|c s IH]; intros tok; cbn; [done|]. case_if.
  - intros [= _ <-]. lia.
  - destruct (strsep s d) as [t r] eqn:E'. intros [= _ ->]. specialize (IH t eq_refl). lia.
Qed.

(** ** Widths *)

Lemma digits_width fuel n : forall k, (0 < k)%nat -> n < 10 ^ Z.of_nat k -> (length (digits fuel n) <= k)%nat.
Proof.
  revert n. induction fuel as [|fuel IH]; intros n k Hk Hn; cbn [digits length]; [lia|].
  case_if; [cbn; lia|]. destruct k as [|[|k]]; [lia|change (10 ^ Z.of_nat 1) with 10 in Hn; lia|].
  rewrite length_app. cbn [length]. enough (length (digits fuel (n / 10)) <= S k)%nat by lia.
  apply IH; [lia|]. apply Z.div_lt_upper_bound; [lia|].
  rewrite <- Z.pow_succ_r by lia. by replace (Z.succ (Z.of_nat (S k))) with (Z.of_nat (S (S k))) by lia.
Qed.

Lemma length_pad_left w s : length (pad_left w s) = Nat.max w (length s).
Proof. unfold pad_left. rewrite length_app, length_replicate. lia. Qed.

Lemma length_pad_right w s : length (pad_right w s) = Nat.max w (length s).
Proof. unfold pad_right. rewrite length_app, length_replicate. lia. Qed.

Lemma fmt_ld_width n k : (0 < k)%nat -> 0 <= n < 10 ^ Z.of_nat k -> (length (fmt_ld n) <= k)%nat.
Proof. intros Hk Hn. unfold fmt_ld. case_if; [lia|]. apply digits_width; [done|apply Hn]. Qed.

Lemma length_fmt_lu n : (1 <= length (fmt_lu n) <= 20)%nat.
Proof.
  unfold fmt_lu. pose proof (digits_length 20 n). pose proof (digits_nonempty 20 n ltac:(lia)).
  destruct (digits 20 n); [done|cbn in *; lia].
Qed.
