(* ===== verification/Interval.v ===== *)
(** * Validity intervals (src/lib/interval.h)

    A pin is a database snapshot timestamp, a [uint32_t] with three reserved
    values.  An interval [[lower, upper)] says over which pins a value is valid;
    the [stillValid] flag extends its upper bound to the current time.  The
    operations are read as operations on the set of covered pins. *)

From S2P Require Import Prelude CLib.

(** ** Data and operations *)

(** [pin_t], and the reserved pins. *)
Definition PIN_INVALID : Z := 0.
Definition PIN_NEG_INF : Z := 1.
Definition PIN_MIN : Z := 2.
Definition PIN_INF : Z := 2 ^ 32 - 1.

Definition PIN_SPECIAL (p : Z) : bool :=
  (p =? PIN_INVALID) || (p =? PIN_NEG_INF) || (p =? PIN_INF).

Record interval_t : Type := Interval {
  lower : Z;
  upper : Z;
  stillValid : bool
}.

#[global] Instance interval_eq_dec : EqDecision interval_t.
Proof. solve_decision. Defined.

Definition set_lower (l : Z) (i : interval_t) : interval_t :=
  Interval l (upper i) (stillValid i).
Definition set_upper (u : Z) (i : interval_t) : interval_t :=
  Interval (lower i) u (stillValid i).
Definition set_stillValid (b : bool) (i : interval_t) : interval_t :=
  Interval (lower i) (upper i) b.

(** The [MAX] macro. *)
Definition MAX (x y : Z) : Z := if x <? y then y else x.

Definition Interval_AssertValid (a : interval_t) : res unit :=
  Assert (negb (lower a =? PIN_INVALID));;
  Assert (negb (upper a =? PIN_INVALID));;
  Assert (negb (lower a =? PIN_INF));;
  Assert (negb (upper a =? PIN_NEG_INF));;
  Assert ((lower a =? PIN_NEG_INF) || (upper a =? PIN_INF) || (lower a <? upper a)).

Definition Interval_Overlaps (a b : interval_t) (now : Z) : res bool :=
  Interval_AssertValid a;;
  Interval_AssertValid b;;
  if (lower a =? PIN_NEG_INF) || (lower a <? lower b) then
    let aUpper := if stillValid a then MAX (upper a) now else upper a in
    Ok ((upper a =? PIN_INF) || (lower b <? aUpper))
  else
    let bUpper := if stillValid b then MAX (upper b) now else upper b in
    Ok ((upper b =? PIN_INF) || (lower a <? bUpper)).

Definition Interval_Intersect (a b : interval_t) (now : Z) : res interval_t :=
  o ← Interval_Overlaps a b now;
  Assert o;;
  let a := if stillValid a then set_upper (MAX (upper a) now) a else a in
  let b := if stillValid b then set_upper (MAX (upper b) now) b else b in
  let r := set_stillValid (stillValid a && stillValid b) a in
  let r := if lower a <? lower b then set_lower (lower b) r else r in
  let r := if upper b <? upper a then set_upper (upper b) r else r in
  Ok r.

(** ** Meaning *)

(** A value of type [pin_t]. *)
Definition pin_ok (p : Z) : Prop := 0 <= p <= PIN_INF.

(** The intervals the assertions of [Interval_AssertValid] let through, for
    bounds of type [pin_t]. *)
Definition interval_ok (i : interval_t) : Prop :=
  PIN_NEG_INF <= lower i < upper i /\ upper i <= PIN_INF.

#[global] Instance interval_ok_dec i : Decision (interval_ok i).
Proof. unfold interval_ok. apply _. Defined.

(** The upper bound at time [now]. *)
Definition eff_upper (now : Z) (i : interval_t) : Z :=
  if stillValid i then Z.max (upper i) now else upper i.

(** The pins an interval covers at time [now]. *)
Definition covers (now : Z) (i : interval_t) (t : Z) : Prop :=
  lower i <= t < eff_upper now i.

(** ** Lemmas *)

Lemma MAX_max x y : MAX x y = Z.max x y.
Proof. unfold MAX. destruct (Z.ltb_spec x y); lia. Qed.

Lemma PIN_SPECIAL_false p :
  PIN_SPECIAL p = false <-> p <> PIN_INVALID /\ p <> PIN_NEG_INF /\ p <> PIN_INF.
Proof. unfold PIN_SPECIAL. rewrite !orb_false_iff, !Z.eqb_neq. tauto. Qed.

Lemma AssertValid_Ok i :
  pin_ok (lower i) -> pin_ok (upper i) ->
  Interval_AssertValid i = Ok tt <-> interval_ok i.
Proof.
  unfold Interval_AssertValid, interval_ok, pin_ok, PIN_INVALID, PIN_NEG_INF.
  intros Hl Hu. split.
  - intros H. res_inv. bools. intuition (bools; lia).
  - intros [H1 H2].
    repeat match goal with
    | |- context [?x =? ?y] => destruct (Z.eqb_spec x y); try lia; cbn
    | |- context [?x <? ?y] => destruct (Z.ltb_spec x y); try lia; cbn
    end; try done.
Qed.

Lemma interval_ok_assert i : interval_ok i -> Interval_AssertValid i = Ok tt.
Proof.
  intros H. apply AssertValid_Ok; [..|done];
    unfold interval_ok, pin_ok, PIN_NEG_INF in *; lia.
Qed.

(** The overlap test decides whether the larger lower bound is below the
    smaller effective upper bound. *)
Lemma Overlaps_eq a b now :
  interval_ok a -> interval_ok b ->
  Interval_Overlaps a b now =
  Ok (Z.max (lower a) (lower b) <? Z.min (eff_upper now a) (eff_upper now b)).
Proof.
  intros Ha Hb. unfold Interval_Overlaps.
  rewrite !interval_ok_assert by done. cbn.
  unfold interval_ok, PIN_NEG_INF, eff_upper in *. rewrite !MAX_max.
  destruct (Z.eqb_spec (lower a) 1), (Z.ltb_spec (lower a) (lower b)); cbn;
    f_equal; apply eq_bool_prop_intro; rewrite ?Is_true_true, ?orb_true_iff,
    ?Z.eqb_eq, ?Z.ltb_lt; destruct (stillValid a), (stillValid b); lia.
Qed.

Lemma Overlaps_true_iff a b now :
  interval_ok a -> interval_ok b ->
  Interval_Overlaps a b now = Ok true <->
  (exists t, covers now a t /\ covers now b t).
Proof.
  intros Ha Hb. rewrite Overlaps_eq by done. rewrite Ok_inj, Z.ltb_lt.
  unfold covers. split; [|intros (t & ? & ?); lia].
  intros H. exists (Z.max (lower a) (lower b)). lia.
Qed.

Lemma Intersect_Ok a b now :
  interval_ok a -> interval_ok b -> (exists t, covers now a t /\ covers now b t) ->
  Interval_Intersect a b now =
  Ok (Interval (Z.max (lower a) (lower b))
               (Z.min (eff_upper now a) (eff_upper now b))
               (stillValid a && stillValid b)).
Proof.
  intros Ha Hb Ht. unfold Interval_Intersect.
  rewrite (proj2 (Overlaps_true_iff a b now Ha Hb) Ht). cbn.
  unfold eff_upper. destruct a as [la ua [|]], b as [lb ub [|]]; cbn;
    rewrite ?MAX_max; unfold set_lower, set_upper, set_stillValid; cbn;
    repeat case_if; bools; cbn in *; do 2 f_equal; lia.
Qed.

(** ** Properties *)

(** For valid intervals, [Interval_Overlaps] never asserts and answers
    true exactly when some pin is covered by both intervals at time [now]. *)
Lemma Interval_Overlaps_spec a b now :
  interval_ok a -> interval_ok b ->
  exists r, Interval_Overlaps a b now = Ok r /\
    (r = true <-> exists t, covers now a t /\ covers now b t).
Proof.
  intros Ha Hb. eexists; split; [by apply Overlaps_eq|].
  by rewrite <- (Overlaps_true_iff a b now Ha Hb), Overlaps_eq, Ok_inj.
Qed.

(** [Interval_Intersect] of overlapping valid intervals returns a valid
    interval that covers, at time [now], exactly the pins both cover; as time
    advances it never covers a pin that one of the two does not. *)
Theorem Interval_Intersect_spec a b now :
  interval_ok a -> interval_ok b -> now <= PIN_INF ->
  (exists t, covers now a t /\ covers now b t) ->
  exists r, Interval_Intersect a b now = Ok r /\ interval_ok r /\
    (forall t, covers now r t <-> covers now a t /\ covers now b t) /\
    (forall later t, now <= later -> covers later r t ->
                     covers later a t /\ covers later b t).
Proof.
  intros Ha Hb Hn Ht. rewrite Intersect_Ok by done. eexists; split; [done|].
  destruct Ht as (t0 & Ht1 & Ht2).
  unfold interval_ok, covers, eff_upper in *. cbn in *.
  destruct a as [la ua [|]], b as [lb ub [|]]; cbn in *;
    (split; [lia|split; intros; lia]).
Qed.
