(* ===== verification/Truth.v ===== *)
(** * What it means for a cached value to be right

    The database is seen as a relation between keys, values and pins, and a
    stream of invalidation messages.  A still-valid value promises to stay the
    value of its key until the stream has a message that affects one of its tags.
    This is the vocabulary in which the client's obligations and the store's
    guarantees are stated. *)

From S2P Require Import Prelude CLib Interval.

Definition COLON : Z := 58.

(** Tags form a tree: a tag that ends in a colon is an inner node.  A message
    for [tg] affects [tg] itself, its descendants and its ancestors. *)
Definition ends_in_colon (t : list Z) : bool := bool_decide (last t = Some COLON).

Definition affects (tg t : list Z) : bool :=
  bool_decide (tg `prefix_of` t) ||
  (ends_in_colon t && bool_decide (t `prefix_of` tg)).

(** Whether a message affects a value with these tags. *)
Definition hits_tags (msg tags : list (list Z)) : bool :=
  existsb (fun t => existsb (fun tg => affects tg t) msg) tags.

(** No message of the stream after [a], up to [b], affects the tags. *)
Definition quiet (log : list (Z * list (list Z))) (a b : Z) (tags : list (list Z)) : Prop :=
  forall ts msg, (ts, msg) ∈ log -> a < ts <= b -> hits_tags msg tags = false.

(** A fact [P] about the database, stated with an interval and tags: it holds at
    the pins of the interval, and, when the interval is still valid, after it for
    as long as no message affects the tags. *)
Definition valid_over (log : list (Z * list (list Z))) (P : Z -> Prop) (i : interval_t)
    (tags : list (list Z)) : Prop :=
  (forall t, lower i <= t < upper i -> P t) /\
  (stillValid i = true -> forall t, upper i <= t -> quiet log (upper i - 1) t tags -> P t).

(** A fact about every pin.  An interval without an end is only stated with such
    a fact: nothing that was read from the database is in it. *)
Definition always (P : Z -> Prop) : Prop := forall t, PIN_NEG_INF <= t < PIN_INF -> P t.

(** What the client promises of a value it puts: [V k d t] is that [d] is the
    value of [k] at pin [t]. *)
Definition truthful (V : list Z -> list Z -> Z -> Prop) (log : list (Z * list (list Z)))
    (k : list Z) (i : interval_t) (d : list Z) (tags : list (list Z)) : Prop :=
  valid_over log (V k d) i tags.

(** ** Lemmas *)

Lemma quiet_none log now t tags : t <= now -> quiet log now t tags.
Proof. intros Ht ts msg _ H. lia. Qed.

Lemma hits_tags_mono msg tags tags' :
  (forall t, t ∈ tags -> t ∈ tags') -> hits_tags msg tags' = false -> hits_tags msg tags = false.
Proof.
  intros Hs H. apply not_true_is_false. intros Ht. apply existsb_exists in Ht as (t & Hin & Ht).
  assert (E : hits_tags msg tags' = true).
  { apply existsb_exists. exists t. split; [|done]. apply list_elem_of_In, Hs. by apply list_elem_of_In. }
  congruence.
Qed.

Lemma hits_tags_more msg msg' tags :
  (forall t, t ∈ msg -> t ∈ msg') -> hits_tags msg tags = true -> hits_tags msg' tags = true.
Proof.
  intros Hs H. apply existsb_exists in H as (t & Ht & (tg & Htg & H)%existsb_exists). apply existsb_exists. exists t.
  split; [done|]. apply existsb_exists. exists tg. split; [|done]. by apply list_elem_of_In, Hs, list_elem_of_In.
Qed.

(** Quiet over a longer time and more tags is quiet over less. *)
Lemma quiet_mono log a a' b tags tags' :
  a' <= a -> (forall t, t ∈ tags -> t ∈ tags') -> quiet log a' b tags' -> quiet log a b tags.
Proof.
  intros Ha Hs H ts msg Hin Hts. eapply hits_tags_mono; [done|]. apply (H ts msg Hin). lia.
Qed.

Lemma valid_over_tags log P i tags tags' :
  (forall t, t ∈ tags -> t ∈ tags') -> valid_over log P i tags -> valid_over log P i tags'.
Proof.
  intros Hs [H1 H2]. split; [done|]. intros S t Ht Hq. apply (H2 S t Ht).
  by eapply quiet_mono.
Qed.

(** A shorter interval, closed or as open as the longer one. *)
Lemma valid_over_shrink log P i tags lo up sv :
  valid_over log P i tags -> lower i <= lo -> up <= upper i -> lo <= up ->
  (sv = true -> stillValid i = true) ->
  valid_over log P (Interval lo up sv) tags.
Proof.
  intros [H1 H2] Hl Hu Hlu Hsv. split; cbn.
  - intros t Ht. apply H1. lia.
  - intros S t Ht Hq. destruct (Z.lt_ge_cases t (upper i)) as [Hlt|Hge].
    + apply H1. lia.
    + apply (H2 (Hsv S) t Hge). eapply quiet_mono; [|done|exact Hq]. lia.
Qed.

Lemma valid_over_all log P i tags :
  (forall t, P t) -> valid_over log P i tags.
Proof. intros H. by split; intros; apply H. Qed.

#[export] Hint Resolve quiet_none quiet_mono hits_tags_mono hits_tags_more valid_over_tags valid_over_shrink : txc.
