(* ===== verification/Timeval.v ===== *)
(** * Wall-clock times (src/lib/timeval.h and the macros of <sys/time.h>)

    [timeval_sub] and [timeval_lessthan] of the sources, and the [timersub] and
    [timercmp] macros the pin table uses, on normalised [struct timeval]s. *)

From S2P Require Import Prelude CLib.

Record timeval : Type := Timeval {
  tv_sec : Z;
  tv_usec : Z
}.

#[global] Instance timeval_eq_dec : EqDecision timeval.
Proof. solve_decision. Defined.

Definition timeval_sub (a b : timeval) : timeval :=
  if tv_usec a <? tv_usec b then
    Timeval (tv_sec a - tv_sec b - 1) (tv_usec a + 1000000 - tv_usec b)
  else
    Timeval (tv_sec a - tv_sec b) (tv_usec a - tv_usec b).

Definition timeval_lessthan (a b : timeval) : bool :=
  (tv_sec a <? tv_sec b) || ((tv_sec a =? tv_sec b) && (tv_usec a <? tv_usec b)).

(** [timersub(a, b, result)] of <sys/time.h>. *)
Definition timersub (a b : timeval) : timeval :=
  let sec := tv_sec a - tv_sec b in
  let usec := tv_usec a - tv_usec b in
  if usec <? 0 then Timeval (sec - 1) (usec + 1000000) else Timeval sec usec.

(** [timercmp(a, b, <)] and [timercmp(a, b, ==)] of <sys/time.h>. *)
Definition timer_lt (a b : timeval) : bool :=
  if tv_sec a =? tv_sec b then tv_usec a <? tv_usec b else tv_sec a <? tv_sec b.

Definition timer_eq (a b : timeval) : bool :=
  if tv_sec a =? tv_sec b then tv_usec a =? tv_usec b else false.

(** ** Meaning: microseconds since the epoch *)

Definition tv_ok (a : timeval) : Prop := 0 <= tv_usec a < 1000000.

Definition usecs (a : timeval) : Z := tv_sec a * 1000000 + tv_usec a.

(** ** Lemmas *)

Lemma timer_lt_usecs a b :
  tv_ok a -> tv_ok b -> timer_lt a b = (usecs a <? usecs b).
Proof.
  unfold tv_ok, timer_lt, usecs. intros Ha Hb.
  destruct (Z.eqb_spec (tv_sec a) (tv_sec b)); apply eq_bool_prop_intro;
    rewrite !Is_true_true, !Z.ltb_lt; nia.
Qed.

Lemma timer_eq_usecs a b :
  tv_ok a -> tv_ok b -> timer_eq a b = (usecs a =? usecs b).
Proof.
  unfold tv_ok, timer_eq, usecs. intros Ha Hb.
  destruct (Z.eqb_spec (tv_sec a) (tv_sec b)); apply eq_bool_prop_intro;
    rewrite ?Is_true_true, ?Is_true_false, ?Z.eqb_eq; [nia|].
  split; [done|]. intros. nia.
Qed.

Lemma timersub_ok a b : tv_ok a -> tv_ok b -> tv_ok (timersub a b).
Proof.
  unfold tv_ok, timersub. intros. cbn zeta.
  destruct (Z.ltb_spec (tv_usec a - tv_usec b) 0); cbn; lia.
Qed.

Lemma timersub_usecs a b : usecs (timersub a b) = usecs a - usecs b.
Proof.
  unfold timersub, usecs. cbn zeta.
  destruct (Z.ltb_spec (tv_usec a - tv_usec b) 0); cbn; lia.
Qed.

(** ** Properties *)

(** On normalised times the source's [timeval_sub] and [timeval_lessthan]
    are subtraction and comparison of the microseconds they denote, the
    difference is normalised again, and they agree with the <sys/time.h>
    macros used elsewhere. *)
Lemma timeval_arith a b :
  tv_ok a -> tv_ok b ->
  usecs (timeval_sub a b) = usecs a - usecs b /\ tv_ok (timeval_sub a b) /\
  timeval_sub a b = timersub a b /\
  timeval_lessthan a b = timer_lt a b /\
  (timeval_lessthan a b = true <-> usecs a < usecs b).
Proof.
  intros Ha Hb.
  assert (E : timeval_sub a b = timersub a b).
  { unfold timeval_sub, timersub. cbn zeta.
    destruct (Z.ltb_spec (tv_usec a) (tv_usec b)),
      (Z.ltb_spec (tv_usec a - tv_usec b) 0); try lia; f_equal; lia. }
  assert (E2 : timeval_lessthan a b = timer_lt a b).
  { unfold timeval_lessthan, timer_lt.
    destruct (Z.ltb_spec (tv_sec a) (tv_sec b)), (Z.eqb_spec (tv_sec a) (tv_sec b));
      cbn; try done; lia. }
  rewrite E2, E, timersub_usecs, timer_lt_usecs, Z.ltb_lt by done.
  split_and!; try done. by apply timersub_ok.
Qed.
