(* ===== verification/PinSet.v ===== *)
(** * Pin sets (src/lib/pinset.c, src/lib/pinset.h)

    The set of pins a read-only transaction may still run at, plus the star,
    which stands for the present.  Two or more pins live in a heap array of
    which [firstPin .. firstPin + nPins) is the live part; a single pin is kept
    inline in [onePin].  The model keeps the pointers: a pointer is the object
    it points into and an offset. *)

From S2P Require Import Prelude CLib Interval Timeval.

(** ** Data *)

Record PinStamp_t : Type := PinStamp {
  pin : Z;
  tv : timeval
}.

#[global] Instance PinStamp_eq_dec : EqDecision PinStamp_t.
Proof. solve_decision. Defined.

(** The objects a [PinStamp_t *] can point into: nothing, the array [pins], the
    field [onePin], and a by-value argument of the caller. *)
Inductive pbase : Type := BNull | BArr | BOne | BArg.

Record pptr : Type := PPtr { base : pbase; off : Z }.

Definition PNULL : pptr := PPtr BNull 0.
Definition padd (p : pptr) (n : Z) : pptr := PPtr (base p) (off p + n).

Record PinSet_t : Type := PinSet {
  pins : option (list PinStamp_t);
  firstPin : pptr;
  onePin : PinStamp_t;
  nPins : Z;
  andStar : bool
}.

Definition PINSTAMP_INVALID : PinStamp_t := PinStamp PIN_INVALID (Timeval 0 0).

(** The Makefile's default build. *)
Definition PARANOID : bool := true.

(** [*p], where [arg] is the by-value argument in scope. *)
Definition pload (ps : PinSet_t) (arg : PinStamp_t) (p : pptr) : res PinStamp_t :=
  match base p with
  | BNull => Fault NullDeref
  | BArr =>
    match pins ps with
    | None => Fault NullDeref
    | Some l =>
      if off p <? 0 then Fault OutOfBounds
      else match l !! Z.to_nat (off p) with
           | Some x => Ok x
           | None => Fault OutOfBounds
           end
    end
  | BOne => if off p =? 0 then Ok (onePin ps) else Fault OutOfBounds
  | BArg => if off p =? 0 then Ok arg else Fault OutOfBounds
  end.

#[global] Arguments pload : simpl never.

Definition is_null (p : pptr) : bool :=
  match base p with BNull => true | _ => false end.

Definition no_arg : PinStamp_t := PINSTAMP_INVALID.

(** ** Operations *)

(** The order scan of [PinSetAssertValid]: [n] iterations from index [i]. *)
Fixpoint PinSetAssertOrder (ps : PinSet_t) (i : Z) (n : nat) : res unit :=
  match n with
  | O => Ok tt
  | S n =>
    x ← pload ps no_arg (PPtr BArr i);
    Assert (negb (pin x =? PIN_INVALID));;
    y ← pload ps no_arg (PPtr BArr (i + 1));
    if pin y <? pin x then Fault PanicCall else PinSetAssertOrder ps (i + 1) n
  end.

Definition PinSetAssertValid (ps : PinSet_t) : res unit :=
  if PARANOID then
    if nPins ps =? 0 then
      Assert (bool_decide (pins ps = None));;
      Assert (is_null (firstPin ps));;
      Assert (pin (onePin ps) =? PIN_INVALID)
    else if nPins ps =? 1 then
      Assert (bool_decide (pins ps = None));;
      Assert (is_null (firstPin ps));;
      Assert (negb (pin (onePin ps) =? PIN_INVALID))
    else
      Assert (bool_decide (pins ps <> None));;
      Assert (negb (is_null (firstPin ps)));;
      Assert (0 <=? off (firstPin ps));;
      Assert (pin (onePin ps) =? PIN_INVALID);;
      PinSetAssertOrder ps 0 (Z.to_nat (nPins ps - 1));;
      x ← pload ps no_arg (PPtr BArr (nPins ps - 1));
      Assert (negb (pin x =? PIN_INVALID))
  else Ok tt.

#[global] Arguments PinSetAssertValid : simpl never.

Definition PinSetUpdate (ps : PinSet_t) (arg : PinStamp_t)
    (first : pptr) (n : Z) (star : bool) : res PinSet_t :=
  Assert (0 <=? n);;
  ps' ← (if n <=? 1 then
           one ← (if n =? 0 then Ok PINSTAMP_INVALID else pload ps arg first);
           Ok (PinSet None PNULL one n star)
         else Ok (PinSet (pins ps) first PINSTAMP_INVALID n star));
  PinSetAssertValid ps';;
  Ok ps'.

Definition PinSet_Init (ps : PinSet_t) (arr : option (list PinStamp_t))
    (n : Z) (star : bool) : res (PinSet_t * bool) :=
  Assert ((0 <? n) || star);;
  let ps := PinSet arr (firstPin ps) (onePin ps) (nPins ps) (andStar ps) in
  let first := match arr with None => PNULL | Some _ => PPtr BArr 0 end in
  ps' ← PinSetUpdate ps no_arg first n star;
  Ok (ps', true).

Definition PinSet_Release (ps : PinSet_t) : res PinSet_t :=
  PinSetUpdate ps no_arg PNULL 0 false.

Definition PinSetFirstPin (ps : PinSet_t) : pptr :=
  if nPins ps =? 1 then PPtr BOne 0 else firstPin ps.

Definition PinSet_GetPins (ps : PinSet_t) : pptr * Z :=
  (PinSetFirstPin ps, nPins ps).

(** [while (first <= last && last->pin >= interval.upper) --last;] *)
Fixpoint DropLast (ps : PinSet_t) (first last : pptr) (u : Z) (fuel : nat) : res pptr :=
  match fuel with
  | O => Fault NoFuel
  | S fuel =>
    if off first <=? off last then
      x ← pload ps no_arg last;
      if u <=? pin x then DropLast ps first (padd last (-1)) u fuel else Ok last
    else Ok last
  end.

(** [while (first <= last && first->pin < interval.lower) ++first;] *)
Fixpoint DropFirst (ps : PinSet_t) (first last : pptr) (l : Z) (fuel : nat) : res pptr :=
  match fuel with
  | O => Fault NoFuel
  | S fuel =>
    if off first <=? off last then
      x ← pload ps no_arg first;
      if pin x <? l then DropFirst ps (padd first 1) last l fuel else Ok first
    else Ok first
  end.

Definition PinSet_IntersectWith (ps : PinSet_t) (iv : interval_t) : res PinSet_t :=
  let first := PinSetFirstPin ps in
  let last := padd first (nPins ps - 1) in
  let fuel := S (Z.to_nat (nPins ps)) in
  '(first, last) ←
    (if is_null first then Ok (first, last)
     else last ← DropLast ps first last (upper iv) fuel;
          first ← DropFirst ps first last (lower iv) fuel;
          Ok (first, last));
  let n := off last - off first + 1 in
  Assert (andStar ps || (0 <? n));;
  PinSetUpdate ps no_arg first n (andStar ps && (upper iv =? PIN_INF)).

(** [while (cur < end && cur->pin < pin) ++cur;] followed by the test. *)
Fixpoint ContainsLoop (ps : PinSet_t) (cur : pptr) (fin p : Z) (fuel : nat) : res bool :=
  match fuel with
  | O => Fault NoFuel
  | S fuel =>
    if off cur <? fin then
      x ← pload ps no_arg cur;
      if pin x <? p then ContainsLoop ps (padd cur 1) fin p fuel
      else Ok (pin x =? p)
    else Ok false
  end.

Definition PinSet_Contains (ps : PinSet_t) (p : Z) : res bool :=
  if p =? PIN_INF then Ok (andStar ps)
  else if p =? PIN_INVALID then Ok false
  else
    let cur := PinSetFirstPin ps in
    ContainsLoop ps cur (off cur + nPins ps) p (S (Z.to_nat (nPins ps))).

Definition PinSet_ReifyStar (ps : PinSet_t) (real : PinStamp_t) : res PinSet_t :=
  Assert (andStar ps);;
  PinSetUpdate ps real (PPtr BArg 0) 1 false.

Definition PinSet_JustStar (ps : PinSet_t) : bool :=
  (nPins ps =? 0) && andStar ps.

Definition PinSet_BoundsWithoutStar (ps : PinSet_t) : res interval_t :=
  Assert (0 <? nPins ps);;
  lo ← pload ps no_arg (PinSetFirstPin ps);
  hi ← pload ps no_arg (padd (PinSetFirstPin ps) (nPins ps - 1));
  Ok (Interval (pin lo) (u32 (pin hi + 1)) false).

(** ** Meaning *)

(** The pins of the set, without the star. *)
Definition pin_list (ps : PinSet_t) : list PinStamp_t :=
  if nPins ps =? 0 then []
  else if nPins ps =? 1 then [onePin ps]
  else match pins ps with
       | Some l => take (Z.to_nat (nPins ps)) (drop (Z.to_nat (off (firstPin ps))) l)
       | None => []
       end.

Definition pin_le (x y : PinStamp_t) : Prop := pin x <= pin y.

(** An array of pins as the pincushion sends it: in numeric order, no pin
    invalid. *)
Definition pins_ok (l : list PinStamp_t) : Prop :=
  StronglySorted pin_le l /\ Forall (fun x => pin x <> PIN_INVALID) l.

(** The representation invariant. *)
Definition pinset_ok (ps : PinSet_t) : Prop :=
  (nPins ps = 0 /\ pins ps = None /\ firstPin ps = PNULL /\
     pin (onePin ps) = PIN_INVALID) \/
  (nPins ps = 1 /\ pins ps = None /\ firstPin ps = PNULL /\
     pin (onePin ps) <> PIN_INVALID) \/
  (2 <= nPins ps /\ pin (onePin ps) = PIN_INVALID /\
     exists l o, pins ps = Some l /\ firstPin ps = PPtr BArr o /\ 0 <= o /\
       o + nPins ps <= Z.of_nat (length l) /\ pins_ok l).

(** ** The contract

    A pin set is a list of pins in order, and whether the star is in it. *)

Inductive pinset_op : Type :=
| OpIntersect (iv : interval_t)
| OpReify (real : PinStamp_t)
| OpContains (p : Z)
| OpBounds
| OpJustStar.

Inductive pinset_answer : Type := ADone | ABool (b : bool) | AInterval (iv : interval_t).

Definition set_step (o : pinset_op) (l : list PinStamp_t) (star : bool) :
    res (list PinStamp_t * bool * pinset_answer) :=
  match o with
  | OpIntersect iv =>
    let keep := filter (fun x => lower iv <= pin x < upper iv) l in
    if star || bool_decide (keep <> []) then Ok (keep, star && (upper iv =? PIN_INF), ADone)
    else Fault AssertFail
  | OpReify real =>
    if star && negb (pin real =? PIN_INVALID) then Ok ([real], false, ADone) else Fault AssertFail
  | OpContains p =>
    Ok (l, star, ABool (if p =? PIN_INF then star else existsb (fun x => pin x =? p) l))
  | OpBounds =>
    match l, last l with
    | lo :: _, Some hi => Ok (l, star, AInterval (Interval (pin lo) (u32 (pin hi + 1)) false))
    | _, _ => Fault AssertFail
    end
  | OpJustStar => Ok (l, star, ABool (bool_decide (l = []) && star))
  end.

Definition pinset_step (o : pinset_op) (ps : PinSet_t) : res (PinSet_t * pinset_answer) :=
  match o with
  | OpIntersect iv => ps ← PinSet_IntersectWith ps iv; Ok (ps, ADone)
  | OpReify real => ps ← PinSet_ReifyStar ps real; Ok (ps, ADone)
  | OpContains p => b ← PinSet_Contains ps p; Ok (ps, ABool b)
  | OpBounds => iv ← PinSet_BoundsWithoutStar ps; Ok (ps, AInterval iv)
  | OpJustStar => Ok (ps, ABool (PinSet_JustStar ps))
  end.

(** The answers of a sequence of operations, up to the first that aborts. *)
Fixpoint set_run (ops : list pinset_op) (l : list PinStamp_t) (star : bool) : res (list pinset_answer) :=
  match ops with
  | [] => Ok []
  | o :: ops =>
    '(l, star, a) ← set_step o l star;
    rest ← set_run ops l star;
    Ok (a :: rest)
  end.

Fixpoint pinset_run (ops : list pinset_op) (ps : PinSet_t) : res (list pinset_answer) :=
  match ops with
  | [] => Ok []
  | o :: ops =>
    '(ps, a) ← pinset_step o ps;
    rest ← pinset_run ops ps;
    Ok (a :: rest)
  end.

(** ** Lemmas *)

Lemma pinset_ok_nonneg ps : pinset_ok ps -> 0 <= nPins ps.
Proof. intros [H|[H|H]]; lia. Qed.

Lemma pload_arr ps a l i x :
  pins ps = Some l -> l !! i = Some x -> pload ps a (PPtr BArr (Z.of_nat i)) = Ok x.
Proof.
  intros Hl Hx. unfold pload; cbn. rewrite Hl, Nat2Z.id, Hx.
  by destruct (Z.ltb_spec (Z.of_nat i) 0); [lia|].
Qed.

Lemma length_pin_list ps : pinset_ok ps -> Z.of_nat (length (pin_list ps)) = nPins ps.
Proof.
  unfold pin_list. intros [(->&_)|[(->&_)|(H&_&l&o&->&->&Ho&Hlen&_)]]; [done..|].
  destruct (Z.eqb_spec (nPins ps) 0), (Z.eqb_spec (nPins ps) 1); try lia.
  cbn. rewrite length_take, length_drop. lia.
Qed.

(** Reading the live part through [PinSetFirstPin]. *)
Lemma pload_first ps a i x :
  pinset_ok ps -> pin_list ps !! i = Some x ->
  pload ps a (padd (PinSetFirstPin ps) (Z.of_nat i)) = Ok x.
Proof.
  unfold pin_list, PinSetFirstPin.
  intros [(->&_)|[(->&_)|(H&_&l&o&Hl&Hf&Ho&Hlen&_)]]; cbn.
  - by rewrite lookup_nil.
  - destruct i as [|[]]; cbn; try done. by intros [= <-].
  - rewrite Hl, Hf.
    destruct (Z.eqb_spec (nPins ps) 0), (Z.eqb_spec (nPins ps) 1); try lia.
    unfold padd; cbn [base off]. intros Hx. apply lookup_take_Some in Hx as [Hx _].
    rewrite lookup_drop in Hx.
    replace (o + Z.of_nat i) with (Z.of_nat (Z.to_nat o + i)) by lia.
    by eapply pload_arr.
Qed.

Lemma pins_ok_sublist l i n : pins_ok l -> pins_ok (take n (drop i l)).
Proof.
  intros [Hs Hf]. split.
  - rewrite <- (take_drop i l) in Hs. apply StronglySorted_app_1_r in Hs.
    rewrite <- (take_drop n (drop i l)) in Hs. by apply StronglySorted_app_1_l in Hs.
  - by apply Forall_take, Forall_drop.
Qed.

Lemma pin_list_ok ps : pinset_ok ps -> pins_ok (pin_list ps).
Proof.
  unfold pin_list. intros [(->&_)|[(->&_&_&Hp)|(H&_&l&o&->&->&Ho&Hlen&Hok)]]; cbn.
  - split; constructor.
  - split; repeat constructor; done.
  - destruct (Z.eqb_spec (nPins ps) 0), (Z.eqb_spec (nPins ps) 1); try lia.
    by apply pins_ok_sublist.
Qed.

Lemma pins_ok_le l i j x y :
  pins_ok l -> l !! i = Some x -> l !! j = Some y -> (i <= j)%nat -> pin x <= pin y.
Proof.
  intros [Hs _] Hi Hj Hij. destruct (decide (i = j)) as [->|Hne].
  { rewrite Hi in Hj. injection Hj as ->. lia. }
  rewrite <- (take_drop j l) in Hs, Hi.
  assert (i < length (take j l))%nat.
  { rewrite length_take. apply lookup_lt_Some in Hj. lia. }
  rewrite lookup_app_l in Hi by done.
  eapply (StronglySorted_app_1_elem_of _ _ _ x y) in Hs; [done| |].
  - by eapply list_elem_of_lookup_2.
  - apply list_elem_of_lookup. exists 0%nat. by rewrite lookup_drop, Nat.add_0_r.
Qed.

Lemma AssertOrder_ok ps l n i :
  pins ps = Some l -> pins_ok l -> (i + n < length l)%nat ->
  PinSetAssertOrder ps (Z.of_nat i) n = Ok tt.
Proof.
  intros Hl Hok. revert i; induction n as [|n IH]; intros i Hi; [done|].
  destruct (lookup_lt_is_Some_2 l i) as [x Hx]; [lia|].
  destruct (lookup_lt_is_Some_2 l (S i)) as [y Hy]; [lia|].
  cbn [PinSetAssertOrder]. rewrite (pload_arr ps no_arg l _ x Hl Hx). cbn.
  destruct (Z.eqb_spec (pin x) PIN_INVALID) as [E|_].
  { destruct Hok as [_ Hf]. rewrite Forall_lookup in Hf. by destruct (Hf i x Hx). }
  cbn. replace (Z.of_nat i + 1) with (Z.of_nat (S i)) by lia.
  rewrite (pload_arr ps no_arg l _ y Hl Hy). cbn.
  pose proof (pins_ok_le _ _ _ _ _ Hok Hx Hy).
  destruct (Z.ltb_spec (pin y) (pin x)); [lia|]. apply IH. lia.
Qed.

(** The paranoid checks accept every set that satisfies the invariant. *)
Lemma AssertValid_ok ps : pinset_ok ps -> PinSetAssertValid ps = Ok tt.
Proof.
  unfold PinSetAssertValid, PARANOID.
  intros [(->&->&->&->)|[(->&->&->&Hp)|(H&H1&l&o&Hl&Hf&Ho&Hlen&Hok)]]; [done|..].
  - cbn. by destruct (Z.eqb_spec (pin (onePin ps)) PIN_INVALID).
  - destruct (Z.eqb_spec (nPins ps) 0), (Z.eqb_spec (nPins ps) 1); try lia.
    rewrite Hf, H1. rewrite bool_decide_true by (by rewrite Hl). cbn.
    destruct (Z.leb_spec 0 o); [cbn|lia].
    rewrite (AssertOrder_ok ps l _ 0 Hl Hok) by lia. cbn.
    destruct (lookup_lt_is_Some_2 l (Z.to_nat (nPins ps - 1))) as [x Hx]; [lia|].
    replace (nPins ps - 1) with (Z.of_nat (Z.to_nat (nPins ps - 1))) by lia.
    rewrite (pload_arr ps no_arg l _ x Hl Hx). cbn.
    destruct (Z.eqb_spec (pin x) PIN_INVALID) as [E|_]; [|done].
    destruct Hok as [_ Hok]. rewrite Forall_lookup in Hok. by destruct (Hok _ x Hx).
Qed.

Lemma padd_padd p i j : padd (padd p i) j = padd p (i + j).
Proof. unfold padd; cbn. f_equal. lia. Qed.

Lemma DropLast_spec ps u i j fuel :
  pinset_ok ps -> (i <= j <= length (pin_list ps))%nat -> (j - i < fuel)%nat ->
  exists j', (i <= j' <= j)%nat /\
    DropLast ps (padd (PinSetFirstPin ps) (Z.of_nat i))
      (padd (PinSetFirstPin ps) (Z.of_nat j - 1)) u fuel =
      Ok (padd (PinSetFirstPin ps) (Z.of_nat j' - 1)) /\
    (forall k x, (j' <= k < j)%nat -> pin_list ps !! k = Some x -> u <= pin x) /\
    (forall k x, (i <= k < j')%nat -> pin_list ps !! k = Some x -> pin x < u).
Proof.
  intros Hok. revert j; induction fuel as [|fuel IH]; intros j Hij Hf; [lia|].
  cbn [DropLast]. destruct (Z.leb_spec (off (padd (PinSetFirstPin ps) (Z.of_nat i)))
    (off (padd (PinSetFirstPin ps) (Z.of_nat j - 1)))) as [Hle|Hle]; cbn in Hle.
  2:{ exists j. split_and!; [lia..|done| |]; intros; lia. }
  destruct j as [|j]; [lia|].
  destruct (lookup_lt_is_Some_2 (pin_list ps) j) as [x Hx]; [lia|].
  replace (Z.of_nat (S j) - 1) with (Z.of_nat j) by lia.
  rewrite (pload_first ps no_arg j x Hok Hx). cbn.
  destruct (Z.leb_spec u (pin x)) as [Hu|Hu].
  - destruct (IH j) as (j' & Hj' & Heq & H1 & H2); [lia..|].
    exists j'. rewrite padd_padd. split_and!; [lia..|exact Heq| |done].
    intros k y Hk Hy. destruct (decide (k = j)) as [->|]; [|by apply (H1 k y); [lia|]].
    rewrite Hx in Hy. by injection Hy as <-.
  - exists (S j). split_and!; [lia..| | |].
    + do 3 f_equal. lia.
    + intros; lia.
    + intros k y Hk Hy.
      pose proof (pins_ok_le _ _ _ _ _ (pin_list_ok _ Hok) Hy Hx). lia.
Qed.

Lemma DropFirst_spec ps l i j fuel :
  pinset_ok ps -> (i <= j <= length (pin_list ps))%nat -> (j - i < fuel)%nat ->
  exists i', (i <= i' <= j)%nat /\
    DropFirst ps (padd (PinSetFirstPin ps) (Z.of_nat i))
      (padd (PinSetFirstPin ps) (Z.of_nat j - 1)) l fuel =
      Ok (padd (PinSetFirstPin ps) (Z.of_nat i')) /\
    (forall k x, (i <= k < i')%nat -> pin_list ps !! k = Some x -> pin x < l) /\
    (forall k x, (i' <= k < j)%nat -> pin_list ps !! k = Some x -> l <= pin x).
Proof.
  intros Hok. revert i; induction fuel as [|fuel IH]; intros i Hij Hf; [lia|].
  cbn [DropFirst]. destruct (Z.leb_spec (off (padd (PinSetFirstPin ps) (Z.of_nat i)))
    (off (padd (PinSetFirstPin ps) (Z.of_nat j - 1)))) as [Hle|Hle]; cbn in Hle.
  2:{ exists i. split_and!; [lia..|done| |]; intros; lia. }
  destruct (lookup_lt_is_Some_2 (pin_list ps) i) as [x Hx]; [lia|].
  rewrite (pload_first ps no_arg i x Hok Hx). cbn.
  destruct (Z.ltb_spec (pin x) l) as [Hu|Hu].
  - destruct (IH (S i)) as (i' & Hi' & Heq & H1 & H2); [lia..|].
    exists i'. rewrite padd_padd.
    replace (Z.of_nat i + 1) with (Z.of_nat (S i)) by lia.
    split_and!; [lia..|exact Heq| |done].
    intros k y Hk Hy. destruct (decide (k = i)) as [->|]; [|by apply (H1 k y); [lia|]].
    rewrite Hx in Hy. by injection Hy as <-.
  - exists i. split_and!; [lia..|done| |].
    + intros; lia.
    + intros k y Hk Hy.
      pose proof (pins_ok_le _ _ _ _ _ (pin_list_ok _ Hok) Hx Hy). lia.
Qed.

(** A filter that keeps exactly the positions of one segment. *)
Lemma filter_segment {A} (P : A -> Prop) `{forall x, Decision (P x)} (l : list A) i j :
  (i <= j <= length l)%nat ->
  (forall k x, l !! k = Some x -> P x <-> (i <= k < j)%nat) ->
  filter P l = take (j - i) (drop i l).
Proof.
  revert i j; induction l as [|a l IH]; intros i j Hij Hk.
  { rewrite drop_nil, take_nil. done. }
  cbn in Hij. rewrite filter_cons. destruct i as [|i].
  - rewrite drop_0, Nat.sub_0_r. destruct j as [|j].
    + rewrite decide_False by (rewrite (Hk 0%nat a eq_refl); lia). cbn.
      rewrite (IH 0%nat 0%nat); [done|lia|]. intros k x Hx.
      rewrite (Hk (S k) x Hx). lia.
    + rewrite decide_True by (rewrite (Hk 0%nat a eq_refl); lia).
      cbn. f_equal. rewrite (IH 0%nat j), drop_0, Nat.sub_0_r; [done|lia|].
      intros k x Hx. rewrite (Hk (S k) x Hx). lia.
  - rewrite decide_False by (rewrite (Hk 0%nat a eq_refl); lia).
    destruct j as [|j]; [lia|]. cbn. rewrite (IH i j); [done|lia|].
    intros k x Hx. rewrite (Hk (S k) x Hx). lia.
Qed.

(** [PinSetUpdate] on a part of the live pins. *)
Lemma Update_sublist ps arg i n star :
  pinset_ok ps -> (i + n <= length (pin_list ps))%nat ->
  exists ps', PinSetUpdate ps arg (padd (PinSetFirstPin ps) (Z.of_nat i)) (Z.of_nat n) star
              = Ok ps' /\ pinset_ok ps' /\
    pin_list ps' = take n (drop i (pin_list ps)) /\ andStar ps' = star.
Proof.
  intros Hok Hn. unfold PinSetUpdate.
  destruct (Z.leb_spec 0 (Z.of_nat n)); [|lia]. cbn [Assert mbind res_bind].
  destruct n as [|[|n]].
  - eexists; split_and!; try done. by left.
  - destruct (lookup_lt_is_Some_2 (pin_list ps) i) as [x Hx]; [lia|].
    change (Z.of_nat 1) with 1. change (1 <=? 1) with true. change (1 =? 0) with false.
    rewrite (pload_first ps arg i x Hok Hx). cbn.
    assert (Hx0 : pin x <> PIN_INVALID).
    { destruct (pin_list_ok ps Hok) as [_ Hf]. rewrite Forall_lookup in Hf. eauto. }
    set (ps' := PinSet None PNULL x 1 star).
    assert (pinset_ok ps') by (right; left; done).
    exists ps'. rewrite AssertValid_ok by done. split_and!; try done.
    cbn. rewrite (drop_S _ x i) by done. cbn. by rewrite take_0.
  - destruct (Z.leb_spec (Z.of_nat (S (S n))) 1); [lia|]. cbn [mbind res_bind].
    pose proof (length_pin_list ps Hok) as Hlen.
    destruct Hok as [Hok|[Hok|(H2&H1&l&o&Hl&Hf&Ho&Hlo&Hok)]]; [lia..|].
    unfold PinSetFirstPin in *. destruct (Z.eqb_spec (nPins ps) 1); [lia|].
    rewrite Hf, Hl. unfold padd; cbn [base off].
    set (ps' := PinSet _ _ _ _ _).
    assert (pinset_ok ps').
    { right; right. cbn. split_and!; [lia|done|]. eexists l, _. split_and!; try done; lia. }
    exists ps'. rewrite AssertValid_ok by done. split_and!; try done.
    unfold pin_list. destruct (Z.eqb_spec (nPins ps) 0), (Z.eqb_spec (nPins ps) 1); try lia.
    rewrite Hl, Hf. unfold ps'; cbn [nPins pins firstPin off].
    destruct (Z.eqb_spec (Z.of_nat (S (S n))) 0), (Z.eqb_spec (Z.of_nat (S (S n))) 1); try lia.
    rewrite Nat2Z.id, skipn_firstn_comm, drop_drop, take_take.
    f_equal; [|f_equal; lia]. unfold pin_list in Hn.
    destruct (Z.eqb_spec (nPins ps) 0), (Z.eqb_spec (nPins ps) 1); try lia.
    rewrite Hl, Hf, length_take, length_drop in Hn. lia.
Qed.

Lemma Contains_loop ps p i fuel :
  pinset_ok ps -> (i <= length (pin_list ps))%nat ->
  (length (pin_list ps) - i < fuel)%nat ->
  exists b, ContainsLoop ps (padd (PinSetFirstPin ps) (Z.of_nat i))
      (off (PinSetFirstPin ps) + nPins ps) p fuel = Ok b /\
    (b = true <-> exists k x, (i <= k)%nat /\ pin_list ps !! k = Some x /\ pin x = p).
Proof.
  intros Hok. pose proof (length_pin_list ps Hok) as Hlen.
  revert i; induction fuel as [|fuel IH]; intros i Hi Hf; [lia|].
  cbn [ContainsLoop]. destruct (Z.ltb_spec (off (padd (PinSetFirstPin ps) (Z.of_nat i)))
    (off (PinSetFirstPin ps) + nPins ps)) as [Hl|Hl]; cbn in Hl.
  2:{ exists false. split; [done|]. split; [done|].
      intros (k & x & Hk & Hx & _). apply lookup_lt_Some in Hx. lia. }
  destruct (lookup_lt_is_Some_2 (pin_list ps) i) as [x Hx]; [lia|].
  rewrite (pload_first ps no_arg i x Hok Hx). cbn.
  destruct (Z.ltb_spec (pin x) p) as [Hp|Hp].
  - rewrite padd_padd. replace (Z.of_nat i + 1) with (Z.of_nat (S i)) by lia.
    destruct (IH (S i)) as (b & -> & Hb); [lia..|]. exists b. split; [done|].
    rewrite Hb. split; intros (k & y & Hk & Hy & E); exists k, y; split_and!; try done; [lia|].
    destruct (decide (k = i)) as [->|]; [|lia]. rewrite Hx in Hy. injection Hy as <-. lia.
  - eexists; split; [done|]. rewrite Z.eqb_eq. split.
    + intros E. by exists i, x.
    + intros (k & y & Hk & Hy & E).
      pose proof (pins_ok_le _ _ _ _ _ (pin_list_ok _ Hok) Hx Hy Hk). lia.
Qed.

Lemma padd_0 p : padd p 0 = p.
Proof. destruct p; unfold padd; cbn. f_equal; lia. Qed.

(** The two scans of [PinSet_IntersectWith] delimit the pins inside [iv]. *)
Lemma Intersect_segment ps iv :
  pinset_ok ps ->
  exists i n, (i + n <= length (pin_list ps))%nat /\
    (if is_null (PinSetFirstPin ps)
     then Ok (PinSetFirstPin ps, padd (PinSetFirstPin ps) (nPins ps - 1))
     else last ← DropLast ps (PinSetFirstPin ps) (padd (PinSetFirstPin ps) (nPins ps - 1))
                   (upper iv) (S (Z.to_nat (nPins ps)));
          first ← DropFirst ps (PinSetFirstPin ps) last (lower iv) (S (Z.to_nat (nPins ps)));
          Ok (first, last)) =
      Ok (padd (PinSetFirstPin ps) (Z.of_nat i),
          padd (PinSetFirstPin ps) (Z.of_nat (i + n) - 1)) /\
    filter (fun x => lower iv <= pin x < upper iv) (pin_list ps) =
      take n (drop i (pin_list ps)).
Proof.
  intros Hok. pose proof (length_pin_list ps Hok) as Hlen.
  destruct (is_null (PinSetFirstPin ps)) eqn:Hnull.
  - assert (Hn : nPins ps = 0).
    { destruct Hok as [Hok|[(H1&_)|(H2&_&l&o&_&Hf&_)]]; [naive_solver|..];
        unfold PinSetFirstPin in Hnull.
      - by rewrite H1 in Hnull.
      - destruct (Z.eqb_spec (nPins ps) 1); [lia|]. by rewrite Hf in Hnull. }
    exists 0%nat, 0%nat. assert (Hnil : pin_list ps = []).
    { apply length_zero_iff_nil. lia. }
    by rewrite Hn, padd_0, Hnil.
  - destruct (DropLast_spec ps (upper iv) 0 (length (pin_list ps))
      (S (Z.to_nat (nPins ps)))) as (j' & Hj & E1 & HA & HB); [done|lia..|].
    destruct (DropFirst_spec ps (lower iv) 0 j' (S (Z.to_nat (nPins ps))))
      as (i' & Hi & E2 & HC & HD); [done|lia..|].
    exists i', (j' - i')%nat. change (Z.of_nat 0) with 0 in E1, E2.
    rewrite padd_0, Hlen in E1. rewrite padd_0 in E2.
    rewrite E1. cbn [mbind res_bind]. rewrite E2. cbn [mbind res_bind].
    split_and!; [lia|do 3 f_equal; lia|]. apply filter_segment; [lia|].
    intros k x Hx. pose proof (lookup_lt_Some _ _ _ Hx).
    destruct (decide (i' <= k)%nat), (decide (k < j')%nat);
      [|pose proof (HA k x ltac:(lia) Hx)|pose proof (HC k x ltac:(lia) Hx)
      |pose proof (HC k x ltac:(lia) Hx)]; try lia.
    split; [lia|]. intros _. split; [eapply (HD k)|eapply (HB k)]; try done; lia.
Qed.

(** ** Properties *)

(** [PinSet_Init] accepts an ordered array of valid pins whose length is [n],
    establishes the invariant and yields exactly those pins and the star. *)
Lemma PinSet_Init_ok ps l star :
  pins_ok l -> l <> [] \/ star = true ->
  exists ps', PinSet_Init ps (Some l) (Z.of_nat (length l)) star = Ok (ps', true) /\
    pinset_ok ps' /\ pin_list ps' = l /\ andStar ps' = star.
Proof.
  intros Hok Hne. unfold PinSet_Init, PinSetUpdate.
  assert (((0 <? Z.of_nat (length l)) || star) = true) as ->.
  { destruct Hne as [H| ->]; [|apply orb_true_r]. destruct l; [done|]. done. }
  cbn [Assert mbind res_bind pins].
  destruct (Z.leb_spec 0 (Z.of_nat (length l))); [cbn [Assert mbind res_bind]|lia].
  destruct l as [|x [|y l]].
  - eexists; split_and!; try done. by left.
  - destruct Hok as [_ Hf]. apply Forall_inv in Hf as Hx.
    change (Z.of_nat (length [x])) with 1. change (1 <=? 1) with true.
    change (1 =? 0) with false.
    match goal with |- context [pload ?a ?b ?c] => change (pload a b c) with (Ok x) end.
    cbn.
    set (ps' := PinSet None PNULL x 1 star).
    assert (pinset_ok ps') by (right; left; done).
    exists ps'. rewrite AssertValid_ok by done. done.
  - destruct (Z.leb_spec (Z.of_nat (length (x :: y :: l))) 1); [cbn in *; lia|].
    cbn [mbind res_bind]. set (ps' := PinSet _ _ _ _ _).
    assert (pinset_ok ps').
    { right; right. cbn. split_and!; [lia|done|].
      eexists _, 0. split_and!; try done; cbn; lia. }
    exists ps'. rewrite AssertValid_ok by done. split_and!; try done.
    unfold pin_list, ps'; cbn [nPins pins firstPin off].
    destruct (Z.eqb_spec (Z.of_nat (length (x :: y :: l))) 0); [lia|].
    destruct (Z.eqb_spec (Z.of_nat (length (x :: y :: l))) 1); [lia|].
    rewrite Nat2Z.id, drop_0. apply take_ge. lia.
Qed.

Ltac pins_ok_tac :=
  split; repeat first [apply SSorted_nil | apply SSorted_cons | apply Forall_nil_2
                      | apply Forall_cons_2]; unfold pin_le, PIN_INVALID; cbn; lia.

Definition ex_pin (p : Z) : PinStamp_t := PinStamp p (Timeval p 0).

(** A pin set [{5, 9, *}]. *)
Definition ex_set : PinSet_t :=
  PinSet (Some [ex_pin 5; ex_pin 9]) (PPtr BArr 0) PINSTAMP_INVALID 2 true.

Lemma ex_set_ok : pinset_ok ex_set.
Proof.
  right; right. cbn. split_and!; [lia|done|].
  eexists _, 0. split_and!; try done. pins_ok_tac.
Qed.

(** [PinSet_IntersectWith] keeps exactly the pins inside the interval, in order,
    and the star exactly when the interval reaches infinity; it asserts exactly
    when no pin is left and the set had no star. *)
Lemma PinSet_IntersectWith_ok ps iv :
  pinset_ok ps ->
  let keep := filter (fun x => lower iv <= pin x < upper iv) (pin_list ps) in
  if andStar ps || bool_decide (keep <> []) then
    exists ps', PinSet_IntersectWith ps iv = Ok ps' /\ pinset_ok ps' /\
      pin_list ps' = keep /\ andStar ps' = andStar ps && (upper iv =? PIN_INF)
  else PinSet_IntersectWith ps iv = Fault AssertFail.
Proof.
  intros Hok keep. unfold PinSet_IntersectWith.
  destruct (Intersect_segment ps iv Hok) as (i & n & Hin & -> & Hkeep).
  fold keep in Hkeep. cbn [mbind res_bind fst snd].
  replace (off (padd (PinSetFirstPin ps) (Z.of_nat (i + n) - 1)) -
    off (padd (PinSetFirstPin ps) (Z.of_nat i)) + 1) with (Z.of_nat n) by (cbn; lia).
  assert (E : (0 <? Z.of_nat n) = bool_decide (keep <> [])).
  { assert (Hl : length keep = n) by (rewrite Hkeep, length_take, length_drop; lia).
    clearbody keep. destruct (Z.ltb_spec 0 (Z.of_nat n)); case_bool_decide as Hk;
      try done; destruct keep; cbn in *; try done; try lia. }
  rewrite E. destruct (andStar ps || bool_decide (keep <> [])); [|done].
  cbn [Assert mbind res_bind]. rewrite Hkeep. by apply Update_sublist.
Qed.

(** Membership: of the star for [PIN_INF], of the live pins for every other pin. *)
Lemma PinSet_Contains_ok ps p :
  pinset_ok ps ->
  exists b, PinSet_Contains ps p = Ok b /\
    (b = true <-> if decide (p = PIN_INF) then andStar ps = true
                  else exists x, x ∈ pin_list ps /\ pin x = p).
Proof.
  intros Hok. unfold PinSet_Contains.
  destruct (Z.eqb_spec p PIN_INF) as [->|Hinf].
  { eexists. split; [done|]. by destruct (decide _). }
  rewrite decide_False by done. destruct (Z.eqb_spec p PIN_INVALID) as [->|Hp].
  - eexists. split; [done|]. split; [done|]. intros (x & Hx & E).
    destruct (pin_list_ok ps Hok) as [_ Hf]. rewrite Forall_forall in Hf.
    by destruct (Hf x Hx).
  - pose proof (length_pin_list ps Hok).
    destruct (Contains_loop ps p 0 (S (Z.to_nat (nPins ps)))) as (b & Hb & Hiff);
      [done|lia..|].
    change (Z.of_nat 0) with 0 in Hb. rewrite padd_0 in Hb.
    exists b. split; [done|]. rewrite Hiff. setoid_rewrite list_elem_of_lookup.
    split; [intros (k & x & _ & ? & ?)|intros (x & [k ?] & ?)]; eauto 6 with lia.
Qed.

(** The bounds run from the first pin to just past the last. *)
Lemma PinSet_Bounds_eq ps lo hi l :
  pinset_ok ps -> pin_list ps = lo :: l -> last (pin_list ps) = Some hi ->
  PinSet_BoundsWithoutStar ps = Ok (Interval (pin lo) (u32 (pin hi + 1)) false).
Proof.
  intros Hok Hl Hhi. pose proof (length_pin_list ps Hok) as Hlen.
  assert (Hlo : pin_list ps !! 0%nat = Some lo) by (by rewrite Hl).
  rewrite last_lookup in Hhi. rewrite Hl in Hlen. cbn in Hlen.
  unfold PinSet_BoundsWithoutStar. rewrite (proj2 (Z.ltb_lt _ _)) by lia.
  cbn [Assert mbind res_bind].
  pose proof (pload_first ps no_arg 0 lo Hok Hlo) as E. cbn in E. rewrite padd_0 in E.
  rewrite E. cbn [mbind res_bind].
  replace (nPins ps - 1) with (Z.of_nat (Nat.pred (length (pin_list ps)))) by (rewrite Hl; cbn; lia).
  by rewrite (pload_first ps no_arg _ hi Hok Hhi).
Qed.

Lemma PinSet_Bounds_ok ps :
  pinset_ok ps -> pin_list ps <> [] ->
  Forall (fun x => pin_ok (pin x) /\ pin x < PIN_INF) (pin_list ps) ->
  exists iv, PinSet_BoundsWithoutStar ps = Ok iv /\ interval_ok iv /\
    (forall now x, x ∈ pin_list ps -> covers now iv (pin x)) /\ stillValid iv = false.
Proof.
  intros Hok Hne Hr. destruct (pin_list ps) as [|lo l] eqn:Hl; [done|].
  destruct (last (lo :: l)) as [hi|] eqn:Hhi; [|by apply last_None in Hhi].
  rewrite (PinSet_Bounds_eq ps lo hi l Hok Hl) by (by rewrite Hl).
  assert (Inhi : hi ∈ lo :: l) by (apply last_Some_elem_of in Hhi; done).
  rewrite Forall_forall in Hr. pose proof (Hr hi Inhi). pose proof (Hr lo ltac:(by left)).
  destruct (pin_list_ok ps Hok) as [Hs Hf]. rewrite Hl in Hs, Hf.
  apply Forall_inv in Hf as Nlo.
  assert (Hle : forall x, x ∈ lo :: l -> pin lo <= pin x <= pin hi).
  { intros x [k Hx]%list_elem_of_lookup. rewrite last_lookup in Hhi.
    pose proof (lookup_lt_Some _ _ _ Hx). cbn [length Nat.pred] in *. split.
    - by apply (pins_ok_le (lo :: l) 0 k lo x); [..|lia].
    - by apply (pins_ok_le (lo :: l) k (length l) x hi); [..|lia]. }
  unfold pin_ok, PIN_INF, PIN_INVALID in *. rewrite u32_small by lia.
  eexists. split; [done|]. unfold interval_ok, covers, eff_upper, PIN_NEG_INF, PIN_INF; cbn.
  pose proof (Hle hi Inhi). split_and!; [lia..| |done]. intros _ x Hx. specialize (Hle x Hx). lia.
Qed.

(** [PinSet_ReifyStar] leaves exactly the pin that was created. *)
Lemma PinSet_ReifyStar_ok ps real :
  pinset_ok ps -> pin real <> PIN_INVALID ->
  if andStar ps then
    exists ps', PinSet_ReifyStar ps real = Ok ps' /\ pinset_ok ps' /\
      pin_list ps' = [real] /\ andStar ps' = false
  else PinSet_ReifyStar ps real = Fault AssertFail.
Proof.
  intros Hok Hr. unfold PinSet_ReifyStar. destruct (andStar ps); [|done].
  change (PinSetUpdate ps real (PPtr BArg 0) 1 false) with
    (PinSetAssertValid (PinSet None PNULL real 1 false);;
     Ok (PinSet None PNULL real 1 false)).
  assert (pinset_ok (PinSet None PNULL real 1 false)) by (right; left; done).
  rewrite AssertValid_ok by done. cbn. eauto 10.
Qed.

Lemma step_ok o ps :
  pinset_ok ps ->
  match set_step o (pin_list ps) (andStar ps) with
  | Ok (l, star, a) => exists ps', pinset_step o ps = Ok (ps', a) /\ pinset_ok ps' /\
      pin_list ps' = l /\ andStar ps' = star
  | Fault f => pinset_step o ps = Fault f
  end.
Proof.
  intros Hok. destruct o as [iv|real|p| |]; cbn [set_step pinset_step].
  - pose proof (PinSet_IntersectWith_ok ps iv Hok) as H. cbv zeta in *.
    destruct (andStar ps || _); [|by rewrite H]. destruct H as (ps' & -> & H). by exists ps'.
  - destruct (Z.eqb_spec (pin real) PIN_INVALID) as [E|E].
    + rewrite andb_false_r. unfold PinSet_ReifyStar. destruct (andStar ps); [|done].
      change (PinSetUpdate ps real (PPtr BArg 0) 1 false) with
        (PinSetAssertValid (PinSet None PNULL real 1 false);;
         Ok (PinSet None PNULL real 1 false)).
      unfold PinSetAssertValid. cbn [PARANOID nPins pins firstPin onePin]. by rewrite E.
    + rewrite andb_true_r. pose proof (PinSet_ReifyStar_ok ps real Hok E) as H.
      destruct (andStar ps); [|by rewrite H]. destruct H as (ps' & -> & H). by exists ps'.
  - destruct (PinSet_Contains_ok ps p Hok) as (b & -> & Hb). exists ps. split_and!; try done.
    cbn. do 3 f_equal. destruct (Z.eqb_spec p PIN_INF) as [->|Hp].
    + rewrite decide_True in Hb by done. destruct b, (andStar ps); intuition done.
    + rewrite decide_False in Hb by done. apply eq_bool_prop_intro.
      rewrite !Is_true_true, Hb, existsb_exists.
      split; intros (x & Hx & E); exists x; rewrite ?list_elem_of_In, ?Z.eqb_eq in *; done.
  - destruct (pin_list ps) as [|lo l] eqn:Hl.
    + pose proof (length_pin_list ps Hok) as Hn. rewrite Hl in Hn. cbn in Hn.
      unfold PinSet_BoundsWithoutStar. by rewrite <- Hn.
    + destruct (last (lo :: l)) as [hi|] eqn:Hhi; [|by apply last_None in Hhi].
      exists ps. rewrite (PinSet_Bounds_eq ps lo hi l Hok Hl) by (by rewrite Hl). done.
  - exists ps. split_and!; try done. do 3 f_equal. unfold PinSet_JustStar. f_equal.
    pose proof (length_pin_list ps Hok) as Hn. destruct (pin_list ps); cbn in Hn.
    + by rewrite <- Hn.
    + rewrite (proj2 (Z.eqb_neq _ _)) by lia. done.
Qed.

Lemma pinset_run_ok ops ps :
  pinset_ok ps -> pinset_run ops ps = set_run ops (pin_list ps) (andStar ps).
Proof.
  revert ps. induction ops as [|o ops IH]; intros ps Hok; [done|]. cbn [pinset_run set_run].
  pose proof (step_ok o ps Hok) as H. destruct (set_step o _ _) as [[[l star] a]|f].
  - destruct H as (ps' & -> & Hok' & <- & <-). rewrite !bind_ret_l. by rewrite (IH ps' Hok').
  - by rewrite H.
Qed.

(** C35: The pin set implements a list of pins and a star.  Built from an ordered
    array of valid pins, any sequence of intersections, reifications of the star,
    membership tests and bound queries gives the answers, and the aborts, that
    the operations have on the list. *)
Theorem PinSet_refines_set ps0 l star ops :
  pins_ok l -> l <> [] \/ star = true ->
  exists ps, PinSet_Init ps0 (Some l) (Z.of_nat (length l)) star = Ok (ps, true) /\
    pinset_run ops ps = set_run ops l star.
Proof.
  intros Hl Hne. destruct (PinSet_Init_ok ps0 l star Hl Hne) as (ps & Hi & Hok & <- & <-).
  exists ps. split; [done|]. by apply pinset_run_ok.
Qed.

Lemma PinSet_refines_set_witness :
  exists ps, PinSet_Init ex_set (Some [ex_pin 5; ex_pin 9; ex_pin 12]) 3 true = Ok (ps, true) /\
    pinset_run [OpBounds; OpIntersect (Interval 6 12 true); OpContains 9; OpContains 5; OpBounds;
      OpJustStar; OpReify (ex_pin 20)] ps = Fault AssertFail /\
    pinset_run [OpBounds; OpIntersect (Interval 6 12 true); OpContains 9; OpContains 5; OpBounds] ps =
      Ok [AInterval (Interval 5 13 false); ADone; ABool true; ABool false; AInterval (Interval 9 10 false)].
Proof.
  assert (Hl : pins_ok [ex_pin 5; ex_pin 9; ex_pin 12]) by pins_ok_tac.
  destruct (PinSet_refines_set ex_set _ true [OpBounds; OpIntersect (Interval 6 12 true); OpContains 9;
    OpContains 5; OpBounds; OpJustStar; OpReify (ex_pin 20)] Hl (or_intror eq_refl)) as (ps & Hi & H1).
  destruct (PinSet_refines_set ex_set _ true [OpBounds; OpIntersect (Interval 6 12 true); OpContains 9;
    OpContains 5; OpBounds] Hl (or_intror eq_refl)) as (ps' & Hi' & H2).
  exists ps. split; [exact Hi|]. split; [rewrite H1; vm_compute; reflexivity|].
  rewrite Hi in Hi'. injection Hi' as <-. rewrite H2. vm_compute. reflexivity.
Defined.

(** The assertion of [PinSet_IntersectWith] looks at the star the set had
    before the intersection, so a set with a star can silently become empty:
    [{5, 9, *}] intersected with [[6, 8)], which overlaps the bounds [[5, 10)]
    the cache was asked for, leaves no pin and no star, and asking for its
    bounds then aborts. *)
Theorem PinSet_Intersect_can_empty :
  exists ps', PinSet_BoundsWithoutStar ex_set = Ok (Interval 5 10 false) /\
    Interval_Overlaps (Interval 6 8 false) (Interval 5 10 false) 0 = Ok true /\
    PinSet_IntersectWith ex_set (Interval 6 8 false) = Ok ps' /\
    pin_list ps' = [] /\ andStar ps' = false /\
    PinSet_JustStar ps' = false /\
    PinSet_BoundsWithoutStar ps' = Fault AssertFail.
Proof. exists (PinSet None PNULL PINSTAMP_INVALID 0 false). repeat split. Qed.
