(* ===== verification/Policy.v ===== *)
(** * Pin policies (src/client/policy.c)

    A policy chooses, for the next query of a transaction, one of the pins the
    transaction may still run at, or the present.  The interface between the
    client and its policies is the class [ChoosesMember]: a policy returns a
    member of the pin set. *)

From S2P Require Import Prelude CLib Interval Timeval PinSet.

(** ** Operations *)

(** What a policy asks of the system: [gettimeofday], [None] when it fails, and
    [rand()]. *)
Record choose_env : Type := ChooseEnv {
  ce_now : option timeval;
  ce_rand : Z
}.

(** A policy's [fn] and [name]; the registry's [next] is in [Client]. *)
Record ClientPolicyChoosePin_t : Type := ClientPolicy {
  fn : choose_env -> PinSet_t -> res Z;
  name : list Z
}.

Definition ChooseLargestBoundedPin (e : choose_env) (ps : PinSet_t) : res Z :=
  if PinSet_JustStar ps then Ok PIN_INF
  else b ← PinSet_BoundsWithoutStar ps; Ok (u32 (upper b - 1)).

Definition ChooseLargestPin (e : choose_env) (ps : PinSet_t) : res Z :=
  if andStar ps then Ok PIN_INF
  else b ← PinSet_BoundsWithoutStar ps; Ok (u32 (upper b - 1)).

(** [PIN_INF] when the transaction should run in the present, and otherwise
    [PIN_INVALID]. *)
Definition ChooseVariety (e : choose_env) (ps : PinSet_t) (secsMin secsMax : Z) : res Z :=
  if PinSet_JustStar ps then Ok PIN_INF
  else if andStar ps then
    let '(pins, nPins) := PinSet_GetPins ps in
    let secs := if secsMax =? secsMin then secsMin
                else Z.rem (ce_rand e) (secsMax - secsMin + 1) + secsMin in
    match ce_now e with
    | None => Fault PanicCall
    | Some now =>
      let bound := Timeval (tv_sec now - secs) (tv_usec now) in
      latest ← pload ps no_arg (padd pins (nPins - 1));
      if timeval_lessthan (tv latest) bound then Ok PIN_INF else Ok PIN_INVALID
    end
  else Ok PIN_INVALID.

Definition ChooseMiddlePinWithVariety5 (e : choose_env) (ps : PinSet_t) : res Z :=
  variety ← ChooseVariety e ps 5 5;
  if negb (variety =? PIN_INVALID) then Ok variety
  else
    let '(pins, nPins) := PinSet_GetPins ps in
    x ← pload ps no_arg (padd pins (Z.quot nPins 2));
    Ok (pin x).

Definition ChooseLatestBoundedPinWithVariety5 (e : choose_env) (ps : PinSet_t) : res Z :=
  variety ← ChooseVariety e ps 5 5;
  if negb (variety =? PIN_INVALID) then Ok variety
  else
    let '(pins, nPins) := PinSet_GetPins ps in
    x ← pload ps no_arg (padd pins (nPins - 1));
    Ok (pin x).

Definition ChooseLatestBoundedPinWithVariety5To20 (e : choose_env) (ps : PinSet_t) : res Z :=
  variety ← ChooseVariety e ps 5 20;
  if negb (variety =? PIN_INVALID) then Ok variety
  else
    let '(pins, nPins) := PinSet_GetPins ps in
    x ← pload ps no_arg (padd pins (nPins - 1));
    Ok (pin x).

Definition Policy_LargestBoundedPin : ClientPolicyChoosePin_t :=
  ClientPolicy ChooseLargestBoundedPin (str "largest bounded pin").
Definition Policy_LargestPin : ClientPolicyChoosePin_t :=
  ClientPolicy ChooseLargestPin (str "largest pin").
Definition Policy_MiddlePinWithVariety5 : ClientPolicyChoosePin_t :=
  ClientPolicy ChooseMiddlePinWithVariety5 (str "middle pin with variety (5 secs)").
Definition Policy_LatestBoundedPinWithVariety5 : ClientPolicyChoosePin_t :=
  ClientPolicy ChooseLatestBoundedPinWithVariety5 (str "latest bounded pin with variety (5 secs)").
Definition Policy_LatestBoundedPinWithVariety5To20 : ClientPolicyChoosePin_t :=
  ClientPolicy ChooseLatestBoundedPinWithVariety5To20 (str "latest bounded pin with variety (5 to 20 secs)").

(** The policies of this file, in the order of their definitions. *)
Definition policies : list ClientPolicyChoosePin_t :=
  [Policy_LargestBoundedPin; Policy_LargestPin; Policy_MiddlePinWithVariety5;
   Policy_LatestBoundedPinWithVariety5; Policy_LatestBoundedPinWithVariety5To20].

(** ** Meaning *)

(** The pins of a set are snapshots, not reserved values. *)
Definition real_pins (ps : PinSet_t) : Prop :=
  Forall (fun x => pin_ok (pin x) /\ pin x < PIN_INF) (pin_list ps).

(** The set has a pin or the star. *)
Definition inhabited_set (ps : PinSet_t) : Prop := pin_list ps <> [] \/ andStar ps = true.

(** [p] is a pin of the set, or stands for its star. *)
Definition member (ps : PinSet_t) (p : Z) : Prop :=
  if decide (p = PIN_INF) then andStar ps = true else exists x, x ∈ pin_list ps /\ pin x = p.

(** What the client relies on. *)
Class ChoosesMember (f : choose_env -> PinSet_t -> res Z) : Prop :=
  chooses_member e ps : is_Some (ce_now e) -> pinset_ok ps -> real_pins ps -> inhabited_set ps ->
    exists p, f e ps = Ok p /\ p <> PIN_INVALID /\ member ps p.

(** ** Lemmas *)

Lemma member_star ps : andStar ps = true -> member ps PIN_INF.
Proof. intros H. unfold member. by rewrite decide_True. Qed.

Lemma member_pin ps x : real_pins ps -> x ∈ pin_list ps -> member ps (pin x).
Proof.
  intros Hr Hx. unfold real_pins in Hr. rewrite Forall_forall in Hr. specialize (Hr x Hx).
  unfold member. rewrite decide_False by lia. by exists x.
Qed.

Lemma pin_valid ps x : pinset_ok ps -> x ∈ pin_list ps -> pin x <> PIN_INVALID.
Proof. intros Hok Hx. destruct (pin_list_ok ps Hok) as [_ Hf]. rewrite Forall_forall in Hf. auto. Qed.

Lemma JustStar_iff ps : pinset_ok ps -> PinSet_JustStar ps = bool_decide (pin_list ps = []) && andStar ps.
Proof.
  intros Hok. unfold PinSet_JustStar. f_equal. pose proof (length_pin_list ps Hok).
  destruct (pin_list ps); cbn in *.
  - by rewrite (proj2 (Z.eqb_eq _ _)).
  - rewrite (proj2 (Z.eqb_neq _ _)) by lia. done.
Qed.

(** A set that is not just the star has a pin. *)
Lemma not_JustStar ps :
  pinset_ok ps -> inhabited_set ps -> PinSet_JustStar ps = false -> pin_list ps <> [].
Proof.
  intros Hok Hi HJ E. rewrite JustStar_iff, E in HJ by done. cbn in HJ.
  destruct Hi as [?|Hi]; [done|]. by rewrite Hi in HJ.
Qed.

(** Reading the pin at an index of the live part. *)
Lemma read_pin ps i :
  pinset_ok ps -> 0 <= i < nPins ps ->
  exists x, pload ps no_arg (padd (PinSetFirstPin ps) i) = Ok x /\ x ∈ pin_list ps.
Proof.
  intros Hok Hi. pose proof (length_pin_list ps Hok).
  destruct (lookup_lt_is_Some_2 (pin_list ps) (Z.to_nat i)) as [x Hx]; [lia|].
  exists x. split; [|by eapply list_elem_of_lookup_2].
  rewrite <- (pload_first ps no_arg _ x Hok Hx). do 2 f_equal. lia.
Qed.

Lemma nPins_pos ps : pinset_ok ps -> pin_list ps <> [] -> 0 < nPins ps.
Proof. intros Hok Hne. rewrite <- length_pin_list by done. destruct (pin_list ps); [done|cbn; lia]. Qed.

Lemma largest_member ps :
  pinset_ok ps -> real_pins ps -> pin_list ps <> [] ->
  exists p, (b ← PinSet_BoundsWithoutStar ps; Ok (u32 (upper b - 1))) = Ok p /\
    p <> PIN_INVALID /\ member ps p.
Proof.
  intros Hok Hr Hne. destruct (pin_list ps) as [|lo l] eqn:Hl; [done|].
  destruct (last (lo :: l)) as [hi|] eqn:Hhi; [|by apply last_None in Hhi].
  assert (Inhi : hi ∈ pin_list ps) by (rewrite Hl; by apply last_Some_elem_of).
  rewrite (PinSet_Bounds_eq ps lo hi l Hok Hl) by (by rewrite Hl). rewrite bind_ret_l. cbn [upper].
  pose proof Hr as Hr'. unfold real_pins in Hr'. rewrite Forall_forall in Hr'. specialize (Hr' hi Inhi).
  unfold pin_ok, PIN_INF in Hr'. rewrite (u32_small (pin hi + 1)) by lia.
  rewrite u32_small by lia. replace (pin hi + 1 - 1) with (pin hi) by lia.
  exists (pin hi). split_and!; [done|by eapply pin_valid|by apply member_pin].
Qed.

(** [ChooseVariety] answers the star, when it is in the set, or nothing. *)
Lemma Variety_ok e ps a b :
  is_Some (ce_now e) -> pinset_ok ps -> inhabited_set ps ->
  (ChooseVariety e ps a b = Ok PIN_INF /\ andStar ps = true) \/
  (ChooseVariety e ps a b = Ok PIN_INVALID /\ pin_list ps <> []).
Proof.
  intros [now Hnow] Hok Hi. unfold ChooseVariety.
  destruct (PinSet_JustStar ps) eqn:HJ.
  { left. split; [done|]. by apply andb_true_iff in HJ as [_ ?]. }
  pose proof (not_JustStar ps Hok Hi HJ) as Hne. pose proof (nPins_pos ps Hok Hne).
  destruct (andStar ps); [|by right]. unfold PinSet_GetPins. rewrite Hnow.
  destruct (read_pin ps (nPins ps - 1) Hok ltac:(lia)) as (x & -> & _). rewrite bind_ret_l.
  case_if; [by left|by right].
Qed.

(** The variety policies fall back on the pin at an index. *)
Lemma variety_member e ps a b i :
  is_Some (ce_now e) -> pinset_ok ps -> real_pins ps -> inhabited_set ps ->
  (0 < nPins ps -> 0 <= i < nPins ps) ->
  exists p, (variety ← ChooseVariety e ps a b;
    if negb (variety =? PIN_INVALID) then Ok variety
    else x ← pload ps no_arg (padd (PinSetFirstPin ps) i); Ok (pin x)) = Ok p /\
    p <> PIN_INVALID /\ member ps p.
Proof.
  intros Hn Hok Hr Hi Hidx. destruct (Variety_ok e ps a b Hn Hok Hi) as [[-> Hs]|[-> Hne]]; rewrite bind_ret_l.
  - exists PIN_INF. split_and!; [done|done|by apply member_star].
  - destruct (read_pin ps i Hok (Hidx (nPins_pos ps Hok Hne))) as (x & Hx & Hin). cbn [negb Z.eqb PIN_INVALID].
    rewrite Hx, bind_ret_l. exists (pin x). split_and!; [done|by eapply pin_valid|by apply member_pin].
Qed.

#[global] Instance ChooseLargestBoundedPin_member : ChoosesMember ChooseLargestBoundedPin.
Proof.
  intros e ps _ Hok Hr Hi. unfold ChooseLargestBoundedPin. destruct (PinSet_JustStar ps) eqn:HJ.
  - exists PIN_INF. split_and!; [done|done|]. apply member_star. by apply andb_true_iff in HJ as [_ ?].
  - apply largest_member; [done|done|]. by apply not_JustStar.
Qed.

#[global] Instance ChooseLargestPin_member : ChoosesMember ChooseLargestPin.
Proof.
  intros e ps _ Hok Hr Hi. unfold ChooseLargestPin. destruct (andStar ps) eqn:Hs.
  - exists PIN_INF. split_and!; [done|done|by apply member_star].
  - apply largest_member; [done|done|]. destruct Hi as [?|Hi]; [done|]. by rewrite Hs in Hi.
Qed.

#[global] Instance ChooseMiddlePinWithVariety5_member : ChoosesMember ChooseMiddlePinWithVariety5.
Proof.
  intros e ps Hn Hok Hr Hi. apply (variety_member e ps 5 5 (Z.quot (nPins ps) 2)); try done.
  intros Hp. split; [apply Z.quot_pos; lia|apply Z.quot_lt; lia].
Qed.

#[global] Instance ChooseLatestBoundedPinWithVariety5_member : ChoosesMember ChooseLatestBoundedPinWithVariety5.
Proof. intros e ps Hn Hok Hr Hi. apply (variety_member e ps 5 5 (nPins ps - 1)); try done. lia. Qed.

#[global] Instance ChooseLatestBoundedPinWithVariety5To20_member :
  ChoosesMember ChooseLatestBoundedPinWithVariety5To20.
Proof. intros e ps Hn Hok Hr Hi. apply (variety_member e ps 5 20 (nPins ps - 1)); try done. lia. Qed.

(** ** Properties *)

(** Every pin policy returns a pin of the pin set, or the star when the
    star is in it, whatever the clock and the random numbers say; no policy
    reads outside the set or returns the invalid pin. *)
Lemma policies_choose_member p e ps :
  p ∈ policies -> is_Some (ce_now e) -> pinset_ok ps -> real_pins ps -> inhabited_set ps ->
  exists c, fn p e ps = Ok c /\ c <> PIN_INVALID /\ member ps c.
Proof.
  intros Hp. unfold policies in Hp. rewrite !elem_of_cons, elem_of_nil in Hp.
  destruct Hp as [->|[->|[->|[->|[->|[]]]]]]; cbn [fn]; apply chooses_member.
Qed.
