(* ===== verification/Memory.v ===== *)
(** * Allocation sizes (src/lib/memory.h)

    The estimate of what [malloc] really takes for an object, by which the
    store accounts for its entries. *)

From S2P Require Import Prelude CLib.

(** The [MALLOC_SIZE] macro, on a [size_t]. *)
Definition MALLOC_SIZE (size : Z) : Z :=
  if size <=? 24 then 32 else u64 (Z.lor (u64 (size + 7)) 15 + 1).

(** ** Lemmas *)

Lemma lor_15 x : Z.lor x 15 = x / 16 * 16 + 15.
Proof.
  assert (E : Z.land (Z.ldiff x 15) 15 = 0).
  { apply Z.bits_inj'. intros n _. rewrite Z.land_spec, Z.ldiff_spec, Z.bits_0.
    by destruct (Z.testbit x n), (Z.testbit 15 n). }
  transitivity (Z.lor (Z.ldiff x 15) 15).
  - apply Z.bits_inj'. intros n _. rewrite !Z.lor_spec, Z.ldiff_spec.
    by destruct (Z.testbit x n), (Z.testbit 15 n).
  - rewrite <- Z.lxor_lor, <- Z.add_nocarry_lxor by done. f_equal.
    change 15 with (Z.ones 4). rewrite Z.ldiff_ones_r by lia.
    by rewrite Z.shiftl_mul_pow2, Z.shiftr_div_pow2 by lia.
Qed.

Lemma MALLOC_SIZE_nonneg n : 0 <= MALLOC_SIZE n.
Proof.
  unfold MALLOC_SIZE, u64. destruct (n <=? 24); [lia|].
  pose proof (Z.mod_pos_bound (Z.lor ((n + 7) mod 2 ^ 64) 15 + 1) (2 ^ 64)). lia.
Qed.

Lemma MALLOC_SIZE_eq n :
  24 < n < 2 ^ 64 - 32 -> MALLOC_SIZE n = (n + 7) / 16 * 16 + 16.
Proof.
  intros Hn. unfold MALLOC_SIZE. destruct (Z.leb_spec n 24); [lia|].
  rewrite (u64_small (n + 7)), lor_15 by lia.
  rewrite u64_small; [lia|]. pose proof (Z.div_mod (n + 7) 16).
  pose proof (Z.mod_pos_bound (n + 7) 16). lia.
Qed.

Lemma MALLOC_SIZE_pos n : 0 <= n < 2 ^ 64 - 32 -> 32 <= MALLOC_SIZE n <= n + 32.
Proof.
  intros Hn. destruct (decide (n <= 24)) as [H|H].
  - unfold MALLOC_SIZE. destruct (Z.leb_spec n 24); lia.
  - rewrite MALLOC_SIZE_eq by lia. pose proof (Z.div_mod (n + 7) 16).
    pose proof (Z.mod_pos_bound (n + 7) 16). lia.
Qed.

(** ** Properties *)

(** [MALLOC_SIZE] is what the comment beside it says: 32 up to 24 bytes,
    and above that the size plus the 8-byte header rounded up to the next
    multiple of 16; it never under-reports the object. *)
Lemma MALLOC_SIZE_spec n :
  0 <= n < 2 ^ 64 - 32 ->
  MALLOC_SIZE n mod 16 = 0 /\ n + 8 <= MALLOC_SIZE n /\
  (if n <=? 24 then MALLOC_SIZE n = 32 else MALLOC_SIZE n < n + 8 + 16).
Proof.
  intros Hn. destruct (Z.leb_spec n 24) as [H|H].
  - unfold MALLOC_SIZE. destruct (Z.leb_spec n 24); [|lia]. split_and!; try done. lia.
  - rewrite MALLOC_SIZE_eq by lia. pose proof (Z.div_mod (n + 7) 16).
    pose proof (Z.mod_pos_bound (n + 7) 16). split_and!; [|lia..].
    replace ((n + 7) / 16 * 16 + 16) with (((n + 7) / 16 + 1) * 16) by lia.
    apply Z.mod_mul; lia.
Qed.
