(* ===== verification/SizeText.v ===== *)
(** * Sizes as text (src/lib/memory.c)

    Sizes are written with the largest binary suffix that keeps them exact, and
    read back with suffixes and sums; [strtoull] is that of the C library with
    base 0. *)

From S2P Require Import Prelude CLib CText.

(** ** [strtoull(s, &end, 0)] *)

Definition digit_value (c : Z) : Z :=
  if (48 <=? c) && (c <=? 57) then c - 48
  else if (97 <=? c) && (c <=? 122) then c - 87
  else if (65 <=? c) && (c <=? 90) then c - 55
  else 36.

(** The longest run of digits of a base: its value on top of [acc], and the
    rest. *)
Fixpoint scan_base (base acc : Z) (s : list Z) : Z * list Z :=
  match s with
  | c :: s' => if digit_value c <? base then scan_base base (base * acc + digit_value c) s' else (acc, s)
  | [] => (acc, [])
  end.

Definition starts_digit (base : Z) (s : list Z) : bool :=
  match s with c :: _ => digit_value c <? base | [] => false end.

(** The base, and the text from its first digit on: [0x] counts as a prefix
    only before a digit. *)
Definition detect_base (s : list Z) : Z * list Z :=
  match s with
  | 48 :: x :: s' =>
    if ((x =? 120) || (x =? 88)) && starts_digit 16 s' then (16, s') else (8, s)
  | 48 :: _ => (8, s)
  | _ => (10, s)
  end.

(** The value, which saturates, and where the text goes on; without digits, 0 and
    the text itself. *)
Definition strtoull (s : list Z) : Z * list Z :=
  let s1 := skip_spaces s in
  let '(neg, s1) :=
    match s1 with
    | c :: s2 => if c =? 45 then (true, s2) else if c =? 43 then (false, s2) else (false, s1)
    | [] => (false, [])
    end in
  let '(base, s1) := detect_base s1 in
  if negb (starts_digit base s1) then (0, s)
  else
    let '(v, rest) := scan_base base 0 s1 in
    (if 2 ^ 64 <=? v then 2 ^ 64 - 1 else if (neg : bool) then u64 (- v) else v, rest).

(** ** Sizes *)

Definition MEMORY_FMTSIZE_BUF : Z := 22.

(** The text in [buf], which has to have room for it and its NUL. *)
Definition Memory_FmtSize (n : Z) : list Z :=
  let '(n, suffix) := if Z.land n 1023 =? 0 then (Z.shiftr n 10, [75]) else (n, []) in
  let '(n, suffix) := if Z.land n 1023 =? 0 then (Z.shiftr n 10, [77]) else (n, suffix) in
  let '(n, suffix) := if Z.land n 1023 =? 0 then (Z.shiftr n 10, [71]) else (n, suffix) in
  digits 20 n ++ suffix.

Definition shl10 (v : Z) : Z := u64 (Z.shiftl v 10).

(** The value and the rest of the text; the cases of the [switch] fall through. *)
Definition Memory_ReadSize1 (s : list Z) : Z * list Z :=
  let '(v, rest) := strtoull s in
  match rest with
  | c :: rest' =>
    if (c =? 71) || (c =? 103) then (shl10 (shl10 (shl10 v)), rest')
    else if (c =? 77) || (c =? 109) then (shl10 (shl10 v), rest')
    else if (c =? 75) || (c =? 107) then (shl10 v, rest')
    else (v, rest)
  | [] => (v, rest)
  end.

(** The [do ... while (more)] loop. *)
Fixpoint ReadSizeLoop (fuel : nat) (ret : Z) (s : list Z) : res (Z * list Z) :=
  match fuel with
  | O => Fault NoFuel
  | S fuel =>
    let '(v, rest) := Memory_ReadSize1 s in
    let ret := u64 (ret + v) in
    match rest with
    | 43 :: c :: rest' => ReadSizeLoop fuel ret (c :: rest')
    | _ => Ok (ret, rest)
    end
  end.

Definition Memory_ReadSize (s : list Z) : res (Z * list Z) := ReadSizeLoop (S (length s)) 0 s.

(** ** Lemmas *)

Lemma digit_value_digit c : isdigit c = true -> digit_value c = c - 48 /\ digit_value c <? 10 = true.
Proof.
  intros Hc. pose proof (isdigit_bounds c Hc). unfold digit_value, isdigit in *. rewrite Hc.
  split; [done|]. apply Z.ltb_lt. lia.
Qed.

(** Text after a number that does not belong to it. *)
Definition ends_number (s : list Z) : Prop :=
  match s with c :: _ => c = 43 \/ c = 71 \/ c = 75 \/ c = 77 | [] => True end.

Lemma ends_number_stop base s acc : base <= 10 -> ends_number s -> scan_base base acc s = (acc, s).
Proof.
  intros Hb Hs. destruct s as [|c s]; [done|]. cbn [scan_base].
  rewrite (proj2 (Z.ltb_ge (digit_value c) base)); [done|].
  destruct Hs as [-> | [-> | [-> | ->]]]; cbn; lia.
Qed.

Lemma scan_base_digits l : forall acc s, Forall (fun c => isdigit c = true) l -> ends_number s ->
  scan_base 10 acc (l ++ s) = ((scan_digits acc l).1, s).
Proof.
  induction l as [|c l IH]; intros acc s Hl Hs; cbn [app scan_base scan_digits].
  { by apply ends_number_stop. }
  apply Forall_cons in Hl as [Hc Hl]. destruct (digit_value_digit c Hc) as [Ev ->]. rewrite Hc, Ev. by apply IH.
Qed.

Lemma digits_first fuel n : (0 < fuel)%nat -> 0 < n < 10 ^ Z.of_nat fuel ->
  exists c l, digits fuel n = c :: l /\ 49 <= c <= 57.
Proof.
  revert n. induction fuel as [|fuel IH]; intros n Hf Hn; [lia|]. cbn [digits].
  destruct (Z.ltb_spec n 10); [exists (n + 48), []; split; [done|lia]|].
  rewrite Nat2Z.inj_succ, Z.pow_succ_r in Hn by lia.
  destruct (IH (n / 10)) as (c & l & -> & Hc).
  - destruct fuel; [cbn in Hn; lia|lia].
  - split; [apply Z.div_str_pos; lia|apply Z.div_lt_upper_bound; lia].
  - by exists c, (l ++ [n mod 10 + 48]).
Qed.

(** A number of the C library is read back up to a suffix or a sign. *)
Lemma strtoull_digits n s : 0 <= n < 2 ^ 64 -> ends_number s -> strtoull (digits 20 n ++ s) = (n, s).
Proof.
  intros Hn Hs. assert (Hn' : n < 10 ^ Z.of_nat 20) by (change (10 ^ Z.of_nat 20) with (10 ^ 20); lia).
  destruct (decide (n = 0)) as [->|Hnz].
  { destruct s as [|c s]; [done|]. destruct Hs as [-> | [-> | [-> | ->]]]; reflexivity. }
  destruct (digits_first 20 n) as (c & l & E & Hc); [lia|lia|].
  pose proof (digits_digit 20 n ltac:(lia)) as Hd. pose proof (scan_digits_digits 20 n ltac:(lia)) as Hv.
  rewrite E in *. unfold strtoull. cbn [app skip_spaces].
  assert (isspace c = false) as -> by (unfold isspace; rewrite orb_false_iff, andb_false_iff, Z.eqb_neq, !Z.leb_gt; lia).
  rewrite (proj2 (Z.eqb_neq c 45)), (proj2 (Z.eqb_neq c 43)) by lia.
  assert (detect_base (c :: l ++ s) = (10, c :: l ++ s)) as ->.
  { unfold detect_base. destruct (decide (c = 48)); [lia|]. destruct c as [|p|p]; [done| |done].
    do 6 (destruct p as [p|p|]; try done). }
  pose proof (scan_base_digits (c :: l) 0 s Hd Hs) as Es. apply Forall_cons in Hd as [Hc' _].
  destruct (digit_value_digit c Hc') as [_ Hlt]. cbn [starts_digit]. rewrite Hlt. cbn [negb].
  change (c :: l ++ s) with ((c :: l) ++ s). rewrite Es, Hv. rewrite (proj2 (Z.leb_gt _ _)) by lia. done.
Qed.

(** A text of [k] suffixes. *)
Definition suffix_text (k : nat) : list Z := nth k [[]; [75]; [77]; [71]] [].

Lemma FmtSize_form n : 0 <= n ->
  exists m k, Memory_FmtSize n = digits 20 m ++ suffix_text k /\ (k <= 3)%nat /\ 0 <= m /\
    n = m * 1024 ^ Z.of_nat k.
Proof.
  intros Hn. unfold Memory_FmtSize.
  assert (D : forall x, Z.land x 1023 = x mod 1024) by (intros x; change 1024 with (2 ^ 10); by rewrite <- Z.land_ones).
  assert (S : forall x, 0 <= x -> x mod 1024 = 0 -> 0 <= Z.shiftr x 10 /\ x = Z.shiftr x 10 * 1024).
  { intros x Hx Hm. rewrite Z.shiftr_div_pow2 by lia. change (2 ^ 10) with 1024.
    split; [apply Z.div_pos; lia|]. pose proof (Z.div_mod x 1024 ltac:(lia)). lia. }
  rewrite !D. destruct (Z.eqb_spec (n mod 1024) 0) as [E1|E1].
  2: { rewrite !D, (proj2 (Z.eqb_neq _ _)) by done. cbn match. rewrite D, (proj2 (Z.eqb_neq _ _)) by done.
       exists n, 0%nat. cbn. split_and!; done || lia. }
  destruct (S n Hn E1) as [H1 Ha]. rewrite !D. destruct (Z.eqb_spec (Z.shiftr n 10 mod 1024) 0) as [E2|E2].
  2: { rewrite D, (proj2 (Z.eqb_neq _ _)) by done. exists (Z.shiftr n 10), 1%nat. cbn. split_and!; done || lia. }
  destruct (S _ H1 E2) as [H2 Hb]. rewrite D. destruct (Z.eqb_spec (Z.shiftr (Z.shiftr n 10) 10 mod 1024) 0) as [E3|E3].
  - destruct (S _ H2 E3) as [H3 Hc]. eexists _, 3%nat. split; [reflexivity|]. change (1024 ^ Z.of_nat 3) with (1024 * 1024 * 1024). lia.
  - eexists _, 2%nat. split; [reflexivity|]. change (1024 ^ Z.of_nat 2) with (1024 * 1024). lia.
Qed.

Lemma shl10_small v : 0 <= v -> v * 1024 < 2 ^ 64 -> shl10 v = v * 1024.
Proof. intros H1 H2. unfold shl10. rewrite Z.shiftl_mul_pow2 by lia. apply u64_small. lia. Qed.

(** Text that may follow a size. *)
Definition ends_size (s : list Z) : Prop := match s with c :: _ => c = 43 | [] => True end.

Lemma ReadSize1_FmtSize n s : 0 <= n < 2 ^ 64 -> ends_size s -> Memory_ReadSize1 (Memory_FmtSize n ++ s) = (n, s).
Proof.
  intros Hn Hs. destruct (FmtSize_form n) as (m & k & -> & Hk & Hm & En); [lia|].
  assert (Hm64 : m < 2 ^ 64).
  { pose proof (Z.pow_pos_nonneg 1024 (Z.of_nat k) ltac:(lia) ltac:(lia)). nia. }
  unfold Memory_ReadSize1. rewrite <- app_assoc.
  assert (Hends : ends_number (suffix_text k ++ s)).
  { destruct k as [|[|[|[|k]]]]; cbn; auto; [|lia]. destruct s as [|c s]; [done|]. cbn in *. auto. }
  rewrite strtoull_digits by (lia || done).
  destruct k as [|[|[|[|k]]]]; [| | | |lia]; cbn [suffix_text nth app].
  - replace n with m by (rewrite En; cbn; lia). destruct s as [|c s]; [done|]. cbn [ends_size] in Hs. by subst c.
  - cbn [Z.eqb Pos.eqb orb]. change (1024 ^ Z.of_nat 1) with 1024 in En. rewrite shl10_small by lia. by rewrite En.
  - cbn [Z.eqb Pos.eqb orb]. change (1024 ^ Z.of_nat 2) with (1024 * 1024) in En.
    rewrite (shl10_small m), (shl10_small (m * 1024)) by lia. f_equal. lia.
  - cbn [Z.eqb Pos.eqb orb]. change (1024 ^ Z.of_nat 3) with (1024 * 1024 * 1024) in En.
    rewrite (shl10_small m), (shl10_small (m * 1024)), (shl10_small (m * 1024 * 1024)) by lia. f_equal. lia.
Qed.

Lemma FmtSize_length n : (1 <= length (Memory_FmtSize n) <= 21)%nat.
Proof.
  assert (B : forall m k, (1 <= length (digits 20 m ++ suffix_text k) <= 21)%nat).
  { intros m k. rewrite length_app. pose proof (digits_length 20 m). pose proof (digits_nonempty 20 m ltac:(lia)).
    assert (length (suffix_text k) <= 1)%nat by (destruct k as [|[|[|[|[|k]]]]]; cbn; lia).
    destruct (digits 20 m); [done|cbn [length] in *; lia]. }
  unfold Memory_FmtSize. repeat case_if;
    [apply (B _ 3%nat)|apply (B _ 2%nat)|apply (B _ 3%nat)|apply (B _ 1%nat)|apply (B _ 3%nat)|apply (B _ 2%nat)|
     apply (B _ 3%nat)|apply (B _ 0%nat)].
Qed.

(** Sizes joined by [+]. *)
Fixpoint sum_text (n : Z) (ns : list Z) : list Z :=
  match ns with
  | [] => Memory_FmtSize n
  | m :: ns => Memory_FmtSize n ++ 43 :: sum_text m ns
  end.

Lemma ReadSizeLoop_sum ns : forall fuel n ret, Forall (fun m => 0 <= m < 2 ^ 64) (n :: ns) ->
  (length ns < fuel)%nat -> ReadSizeLoop fuel ret (sum_text n ns) = Ok (foldl (fun a m => u64 (a + m)) ret (n :: ns), []).
Proof.
  induction ns as [|m ns IH]; intros fuel n ret HF Hf; apply Forall_cons in HF as [Hn HF];
    (destruct fuel as [|fuel]; [cbn in Hf; lia|]); cbn [sum_text ReadSizeLoop foldl].
  - rewrite <- (app_nil_r (Memory_FmtSize n)), ReadSize1_FmtSize by done. done.
  - rewrite ReadSize1_FmtSize by done.
    assert (Hne : exists c l, sum_text m ns = c :: l).
    { assert (Hl : (0 < length (sum_text m ns))%nat).
      { pose proof (FmtSize_length m). destruct ns; cbn [sum_text]; [lia|rewrite length_app; lia]. }
      destruct (sum_text m ns) as [|c l]; [cbn in Hl; lia|eauto]. }
    destruct Hne as (c & l & E). rewrite E. cbn match. rewrite <- E. apply IH; [done|cbn in Hf; lia].
Qed.

Lemma sum_text_length n ns : (length ns < length (sum_text n ns))%nat.
Proof.
  revert n. induction ns as [|m ns IH]; intros n; cbn [sum_text length]; [pose proof (FmtSize_length n); lia|].
  rewrite length_app. cbn [length]. specialize (IH m). lia.
Qed.

(** ** Properties *)

(** Sizes survive being written and read.  Every [size_t] is written in at
    most [MEMORY_FMTSIZE_BUF] bytes with its NUL, [Memory_ReadSize] reads the text
    back to the same number and to its end, and it reads a sum of such texts as
    the sum of the numbers modulo [2 ^ 64]. *)
Lemma Memory_size_roundtrip n ns : Forall (fun m => 0 <= m < 2 ^ 64) (n :: ns) ->
  Z.of_nat (length (Memory_FmtSize n)) + 1 <= MEMORY_FMTSIZE_BUF /\
  Memory_ReadSize (Memory_FmtSize n) = Ok (n, []) /\
  Memory_ReadSize (sum_text n ns) = Ok (foldl (fun a m => u64 (a + m)) 0 (n :: ns), []).
Proof.
  intros HF. assert (Hn : 0 <= n < 2 ^ 64) by (by apply Forall_cons in HF as [? _]).
  pose proof (FmtSize_length n). split_and!.
  - unfold MEMORY_FMTSIZE_BUF. lia.
  - unfold Memory_ReadSize. rewrite (ReadSizeLoop_sum [] _ n 0); [cbn; by rewrite u64_small| |cbn; lia].
    apply Forall_cons_2; [exact Hn|apply Forall_nil_2].
  - apply ReadSizeLoop_sum; [done|]. pose proof (sum_text_length n ns). lia.
Qed.

Lemma Memory_size_example :
  Memory_ReadSize (str "3M+1K+17") = Ok (3 * 2 ^ 20 + 2 ^ 10 + 17, []) /\ Memory_FmtSize (2 ^ 30) = str "1G".
Proof.
  destruct (Memory_size_roundtrip (3 * 2 ^ 20) [1024; 17]) as (_ & _ & E); [repeat constructor; lia|].
  split; [exact E|reflexivity].
Defined.
