(* ===== verification/Message.v ===== *)
(** * Messages (src/lib/message.c)

    The text of a log line, the choice of the files whose debugging messages are
    printed, deferred frees, and the printing of data.  Characters are bytes;
    [fnmatch] and the text of the caller's arguments are parameters. *)

From S2P Require Import Prelude CLib CText.

(** ** Log lines *)

Definition MSG_PANIC : Z := 0.
Definition MSG_WARNING : Z := 1.
Definition MSG_NOTICE : Z := 2.
Definition MSG_DEBUG : Z := 3.
Definition MSG_NUM_TYPES : Z := 4.
Definition MSG_PERROR : Z := 2 ^ 16.

(** [%0wd] of a number that is not negative. *)
Definition pad_zero (w : nat) (n : Z) : list Z := replicate (w - length (digits 10 n)) 48 ++ digits 10 n.

(** The fields of [struct tm] and the microseconds. *)
Record moment : Type := Moment {
  tm_year : Z;
  tm_mon : Z;
  tm_mday : Z;
  tm_hour : Z;
  tm_min : Z;
  tm_sec : Z;
  tv_usec : Z
}.

(** The prefix and the color of each type. *)
Definition desc (type : Z) : list Z * option (list Z) :=
  if type =? MSG_PANIC then (str "PANIC", Some (str "1;31"))
  else if type =? MSG_WARNING then (str "!", Some (str "1;33"))
  else if type =? MSG_NOTICE then (str "*", None)
  else if type =? MSG_DEBUG then (str " ", Some (str "22;37"))
  else (str "<Invalid message type>", None).

(** What follows the last slash, if there is one. *)
Fixpoint basename (s : list Z) : option (list Z) :=
  match s with
  | [] => None
  | c :: s => match basename s with Some b => Some b | None => if c =? 47 then Some s else None end
  end.

(** The position in the source, cut by [snprintf] to 31 characters. *)
Definition filepos (fname : list Z) (line : Z) : list Z :=
  take 31 ([40] ++ default fname (basename fname) ++ [58] ++ fmt_d line ++ [41; 58]).

Definition timestamp (now : moment) (pid : Z) : list Z :=
  pad_zero 4 (1900 + tm_year now) ++ pad_zero 2 (tm_mon now) ++ pad_zero 2 (tm_mday now) ++ [45] ++
  pad_zero 2 (tm_hour now) ++ pad_zero 2 (tm_min now) ++ pad_zero 2 (tm_sec now) ++ [45] ++
  pad_zero 4 (tv_usec now / 100) ++ [32] ++ pad_zero 5 pid ++ [32].

(** [where] is the file, the line and the function, if the message has them;
    [text] is what [vfprintf] writes, [err] the text of [errno]. *)
Definition _Message_VA (type : Z) (haveColor : bool) (now : option moment) (pid : Z)
    (where_ : option (list Z * Z * list Z)) (text err : list Z) : list Z :=
  let nDesc := Z.min (Z.land type (Z.lnot MSG_PERROR)) MSG_NUM_TYPES in
  let '(prefix, color) := desc nDesc in
  let color := if haveColor then color else None in
  match color with Some c => [27; 91] ++ c ++ [109] | None => [] end ++
  match now with Some now => timestamp now pid | None => [] end ++
  prefix ++ [32] ++
  match where_ with
  | Some (fname, line, func) => pad_right 15 func ++ [32] ++ pad_right 19 (filepos fname line) ++ [32]
  | None => []
  end ++
  text ++ (if negb (Z.land type MSG_PERROR =? 0) then [58; 32] ++ err else []) ++
  match color with Some _ => [27; 91; 48; 109] | None => [] end ++ [10].

(** ** Deferred frees *)

Definition MAX_DEFERRED_FREES : nat := 16.

(** The pointers of [deferredFrees]; 0 is NULL. *)
Definition Message_DFree (frees : list Z) (buf : Z) : res (list Z * Z) :=
  if negb (buf =? 0) then
    if (length frees =? MAX_DEFERRED_FREES)%nat then Fault PanicCall
    else Ok (frees ++ [buf], buf)
  else Ok (frees, buf).

(** The pointers left, and those freed. *)
Definition Message_DoFrees (frees : list Z) : list Z * list Z := ([], frees).

(** ** Debugging messages *)

Definition is_sep (c : Z) : bool := (c =? 44) || (c =? 32).

(** The string at the start of a buffer that ends in a NUL. *)
Fixpoint upto_nul (buf : list Z) : list Z :=
  match buf with
  | [] => []
  | c :: buf => if c =? 0 then [] else c :: upto_nul buf
  end.

(** The second loop over [buf].  [strlen] is evaluated again on every turn, and
    [patOut] stays 1; an entry of [pats] that is not written yet is [None]. *)
Fixpoint CutLoop (fuel i : nat) (buf : list Z) (pats : list (option nat)) : res (list Z * list (option nat)) :=
  match fuel with
  | O => Fault NoFuel
  | S fuel =>
    if (i <? length (upto_nul buf))%nat then
      c ← deref (buf !! i);
      if is_sep c then CutLoop fuel (S i) (<[i := 0]> buf) (<[1%nat := Some (S i)]> pats)
      else CutLoop fuel (S i) buf pats
    else Ok (buf, pats)
  end.

(** The first call, with the value of [DEBUG] and whether the allocations
    succeed. *)
Definition ParseDebug (env : option (list Z)) (alloc : bool) : res (option (list Z * list (option nat))) :=
  match env with
  | None | Some [] => Ok None
  | Some env =>
    if negb alloc then Fault PanicCall
    else
      let nPats := S (length (filter (fun c => is_sep c = true) env)) in
      r ← CutLoop (S (length env)) 0 (env ++ [0]) (Some O :: replicate (nPats - 1) None);
      Ok (Some r)
  end.

(** ** Data *)

(** In the C locale. *)
Definition isprint (c : Z) : bool := (32 <=? c) && (c <=? 126).

Definition printable (c : Z) : Z := if isprint c then c else 46.

Definition hex_digit (n : Z) : Z := if n <? 10 then n + 48 else n + 87.

(** [%02x] of a byte and [%08x] of an [int] that is not negative. *)
Definition fmt_02x (b : Z) : list Z := [hex_digit (b / 16); hex_digit (b mod 16)].
Definition fmt_08x (n : Z) : list Z :=
  fmt_02x (n / 2 ^ 24) ++ fmt_02x (n / 2 ^ 16 mod 256) ++ fmt_02x (n / 2 ^ 8 mod 256) ++ fmt_02x (n mod 256).

Definition HEX_BUF : nat := 80.

(** Text written at [out], with [nul] bytes behind it. *)
Definition hex_put (nul : nat) (out text : list Z) : res (list Z) :=
  if (length out + length text + nul <=? HEX_BUF)%nat then Ok (out ++ text) else Fault OutOfBounds.

Fixpoint HexColumns (offsets : list nat) (data : list Z) (base : nat) (out : list Z) : res (list Z) :=
  match offsets with
  | [] => Ok out
  | o :: offsets =>
    out ← (if (o =? 8)%nat then hex_put 0 out [32] else Ok out);
    out ← hex_put 1 out (match data !! (base + o)%nat with None => [32; 32; 32] | Some d => 32 :: fmt_02x d end);
    HexColumns offsets data base out
  end.

Fixpoint HexChars (offsets : list nat) (data : list Z) (base : nat) (out : list Z) : res (list Z) :=
  match offsets with
  | [] => Ok out
  | o :: offsets =>
    match data !! (base + o)%nat with
    | None => Ok out
    | Some d => out ← hex_put 0 out [printable d]; HexChars offsets data base out
    end
  end.

Definition HexLine (data : list Z) (base : nat) : res (list Z) :=
  out ← hex_put 1 [] (fmt_08x (Z.of_nat base));
  out ← HexColumns (seq 0 16) data base out;
  out ← hex_put 1 out [32; 124];
  out ← HexChars (seq 0 16) data base out;
  hex_put 1 out [124].

(** The lines of a dump, from [base] on. *)
Fixpoint HexLoop (fuel : nat) (data : list Z) (base : nat) : res (list (list Z)) :=
  match fuel with
  | O => Fault NoFuel
  | S fuel =>
    if (base <? length data)%nat then
      line ← HexLine data base;
      lines ← HexLoop fuel data (base + 16);
      Ok (line :: lines)
    else Ok []
  end.

Definition _Message_Hexdump (data : list Z) : res (list (list Z)) := HexLoop (S (length data)) data 0.

(** [blobmax] is 32 or the number in [BLOBMAX]; [malloc] is whether there is
    memory.  The buffer has [plen + 3] bytes, as a [size_t]. *)
Definition Message_FmtBlob (data : list Z) (blobmax : Z) (malloc : bool) : res (option (list Z)) :=
  let len := Z.of_nat (length data) in
  let plen := if blobmax <? len then blobmax else len in
  let room := u64 (plen + 3) in
  if (2 ^ 63 <=? room) || negb malloc then Ok None
  else
    let shown := map (fun c => printable (s8 c)) (take (Z.to_nat plen) data) in
    let text := [124] ++ shown ++ [if negb (len =? plen) then 62 else 124] in
    if Z.of_nat (length text) <? room then Ok (Some text) else Fault OutOfBounds.

Section Debug.

Context (fnmatch : list Z -> list Z -> bool).

Definition negated (pat : list Z) : bool := match pat with c :: _ => c =? 94 | [] => false end.

(** Whether a pattern matches the name of a file or its last part. *)
Definition file_matches (pat fname : list Z) : bool :=
  let pat := if negated pat then tl pat else pat in
  fnmatch pat fname || match basename fname with Some b => fnmatch pat b | None => false end.

Fixpoint PatLoop (buf : list Z) (pats : list (option nat)) (fname : list Z) (result : bool) : res bool :=
  match pats with
  | [] => Ok result
  | None :: _ => Fault OutOfBounds
  | Some o :: pats =>
    let pat := upto_nul (drop o buf) in
    PatLoop buf pats fname (if file_matches pat fname then negb (negated pat) else result)
  end.

Definition _Message_DebugEnabled (st : option (list Z * list (option nat))) (fname : list Z) : res bool :=
  match st with
  | None => Ok false
  | Some (buf, pats) =>
    let pat0 := upto_nul buf in
    PatLoop buf pats fname (bool_decide (pat0 = str "all") || negated pat0)
  end.

(** The meaning of a list of patterns: the last one that matches decides; without
    one, [all] or a negated first pattern enables the file. *)
Definition patterns_enable (pats : list (list Z)) (fname : list Z) : bool :=
  foldl (fun r pat => if file_matches pat fname then negb (negated pat) else r)
    (match pats with p :: _ => bool_decide (p = str "all") || negated p | [] => false end) pats.

End Debug.

(** ** Lemmas on patterns *)

Definition plain (s : list Z) : Prop := Forall (fun c => c <> 0 /\ is_sep c = false) s.

Lemma upto_nul_app s rest : Forall (fun c => c <> 0) s -> upto_nul (s ++ 0 :: rest) = s.
Proof.
  induction 1 as [|c s Hc _ IH]; [done|]. cbn [app upto_nul]. rewrite (proj2 (Z.eqb_neq c 0)) by done. by rewrite IH.
Qed.

Lemma plain_nul s : plain s -> Forall (fun c => c <> 0) s.
Proof. intros H. eapply Forall_impl; [exact H|]. by intros c [? _]. Qed.

(** The turns up to the first separator. *)
Lemma CutLoop_plain n : forall i fuel buf pats,
  (n <= fuel)%nat -> (i + n <= length (upto_nul buf))%nat -> plain (take n (drop i buf)) ->
  CutLoop fuel i buf pats = CutLoop (fuel - n) (i + n) buf pats.
Proof.
  induction n as [|n IH]; intros i fuel buf pats Hf Hl Hp; [by rewrite Nat.sub_0_r, Nat.add_0_r|].
  destruct fuel as [|fuel]; [lia|]. cbn [CutLoop]. rewrite (proj2 (Nat.ltb_lt _ _)) by lia.
  assert (Hb : (length (upto_nul buf) <= length buf)%nat).
  { clear. induction buf as [|c buf IH]; cbn [upto_nul]; [done|]. case_if; cbn [length]; lia. }
  destruct (lookup_lt_is_Some_2 buf i ltac:(lia)) as [c Hc]. rewrite Hc. cbn [deref mbind res_bind].
  rewrite (drop_S buf c i Hc) in Hp. cbn [take] in Hp. apply Forall_cons in Hp as [[_ ->] Hp].
  rewrite (IH (S i) fuel buf pats) by (lia || done). by rewrite Nat.add_succ_comm, Nat.sub_succ.
Qed.

Lemma no_seps s : plain s -> filter (fun c => is_sep c = true) s = [].
Proof.
  induction 1 as [|c s [_ Hc] _ IH]; [done|]. rewrite filter_cons, decide_False by (by rewrite Hc). done.
Qed.

Lemma Parse_one s : plain s -> s <> [] -> ParseDebug (Some s) true = Ok (Some (s ++ [0], [Some O])).
Proof.
  intros Hs Hne. destruct s as [|c s]; [done|]. unfold ParseDebug. cbn [negb]. rewrite (no_seps _ Hs). cbn [length replicate Nat.sub].
  pose proof (upto_nul_app (c :: s) [] (plain_nul _ Hs)) as Eu.
  rewrite (CutLoop_plain (length (c :: s)) 0); [|cbn [length]; lia|rewrite Eu; lia|by rewrite drop_0, take_app_length].
  replace (S (S (length s)) - length (c :: s))%nat with 1%nat by (cbn; lia). cbn [CutLoop Nat.add].
  rewrite Eu, (proj2 (Nat.ltb_ge _ _)) by lia. done.
Qed.

(** After the first separator the text is cut there, and the loop ends. *)
Lemma Parse_more a c b : plain a -> is_sep c = true -> Forall (fun c => c <> 0) b ->
  ParseDebug (Some (a ++ c :: b)) true =
  Ok (Some (a ++ 0 :: b ++ [0], Some O :: Some (S (length a)) :: replicate (length (filter (fun c => is_sep c = true) b)) None)).
Proof.
  intros Ha Hc Hb. unfold ParseDebug. destruct (a ++ c :: b) as [|x l] eqn:El; [by destruct a|]. rewrite <- El. clear x l El.
  assert (Hc0 : c <> 0) by (intros ->; done). cbn [negb].
  rewrite filter_app, (no_seps _ Ha), filter_cons, decide_True by done. cbn [app length Nat.sub replicate].
  set (pats := Some O :: None :: _). rewrite <- app_assoc. cbn [app].
  assert (Eu : upto_nul (a ++ c :: b ++ [0]) = a ++ c :: b).
  { change (a ++ c :: b ++ [0]) with (a ++ (c :: b) ++ [0]). rewrite app_assoc. apply upto_nul_app.
    apply Forall_app. split; [by apply plain_nul|by constructor]. }
  rewrite (CutLoop_plain (length a) 0);
    [|rewrite length_app; lia|rewrite Eu, length_app; lia|by rewrite drop_0, take_app_length].
  rewrite length_app. cbn [length Nat.add]. replace (S (length a + S (length b)) - length a)%nat with (S (S (length b))) by lia.
  remember (S (length b)) as f eqn:Ef. cbn [CutLoop]. rewrite Eu, (proj2 (Nat.ltb_lt _ _)) by (rewrite length_app; cbn; lia).
  rewrite list_lookup_middle by done. cbn [deref mbind res_bind]. rewrite Hc.
  assert (Ei : <[length a:=0]> (a ++ c :: b ++ [0]) = a ++ 0 :: b ++ [0]) by by rewrite insert_app_r_alt, Nat.sub_diag by lia.
  rewrite Ei, Ef. cbn [CutLoop]. replace (upto_nul (a ++ 0 :: b ++ [0])) with a by (symmetry; by apply upto_nul_app, plain_nul).
  rewrite (proj2 (Nat.ltb_ge _ _)) by lia. done.
Qed.

Lemma drop_second a b : drop (S (length a)) (a ++ 0 :: b) = b.
Proof. rewrite drop_app_ge by lia. by replace (S (length a) - length a)%nat with 1%nat by lia. Qed.

(** One or two patterns mean what they should. *)
Lemma DebugEnabled_one fnmatch s fname : plain s -> s <> [] ->
  (st ← ParseDebug (Some s) true; _Message_DebugEnabled fnmatch st fname) = Ok (patterns_enable fnmatch [s] fname).
Proof.
  intros Hs Hne. rewrite (Parse_one s Hs Hne). cbn [mbind res_bind _Message_DebugEnabled PatLoop].
  rewrite drop_0, (upto_nul_app s [] (plain_nul _ Hs)). done.
Qed.

Lemma DebugEnabled_two fnmatch a c b fname : plain a -> is_sep c = true -> plain b ->
  (st ← ParseDebug (Some (a ++ c :: b)) true; _Message_DebugEnabled fnmatch st fname) =
  Ok (patterns_enable fnmatch [a; b] fname).
Proof.
  intros Ha Hc Hb. rewrite (Parse_more a c b Ha Hc (plain_nul _ Hb)), (no_seps b Hb).
  cbn [length replicate mbind res_bind _Message_DebugEnabled PatLoop].
  rewrite drop_0, (upto_nul_app a _ (plain_nul _ Ha)), drop_second, (upto_nul_app b [] (plain_nul _ Hb)). done.
Qed.

(** From the third pattern on nothing is stored: the pattern that is used is
    whatever the allocated memory holds. *)
Lemma DebugEnabled_three fnmatch a c b d rest fname : plain a -> is_sep c = true -> plain b -> is_sep d = true ->
  Forall (fun c => c <> 0) rest ->
  (st ← ParseDebug (Some (a ++ c :: b ++ d :: rest)) true; _Message_DebugEnabled fnmatch st fname) = Fault OutOfBounds.
Proof.
  intros Ha Hc Hb Hd Hr. rewrite (Parse_more a c (b ++ d :: rest) Ha Hc).
  - rewrite filter_app, (no_seps b Hb), filter_cons, decide_True by done. done.
  - apply Forall_app. split; [by apply plain_nul|]. constructor; [by intros ->|done].
Qed.

(** ** Deferred frees *)

Definition DFreeAll (frees : list Z) (bufs : list Z) : res (list Z) :=
  foldl (fun r b => r ← r; '(r, _) ← Message_DFree r b; Ok r) (Ok frees) bufs.

(** Up to 16 buffers between two messages are each freed once, in order; one more
    is a panic. *)
Lemma DFree_ok bufs : forall frees, Forall (fun b => b <> 0) bufs -> (length frees <= MAX_DEFERRED_FREES)%nat ->
  DFreeAll frees bufs =
  if (length frees + length bufs <=? MAX_DEFERRED_FREES)%nat then Ok (frees ++ bufs) else Fault PanicCall.
Proof.
  unfold DFreeAll. induction bufs as [|b bufs IH]; intros frees Hb Hl; cbn [foldl length].
  { rewrite (proj2 (Nat.leb_le _ _)) by lia. by rewrite app_nil_r. }
  apply Forall_cons in Hb as [H0 Hb]. cbn [mbind res_bind]. unfold Message_DFree at 2.
  rewrite (proj2 (Z.eqb_neq b 0)) by done. cbn [negb].
  destruct (Nat.eqb_spec (length frees) MAX_DEFERRED_FREES) as [E|E].
  - rewrite (proj2 (Nat.leb_gt _ _)) by lia. cbn [mbind res_bind]. clear. by induction bufs.
  - cbn [mbind res_bind]. rewrite IH by (done || rewrite length_app; cbn; lia). rewrite length_app, <- app_assoc. cbn [length app].
    by rewrite <- Nat.add_assoc.
Qed.

Lemma DoFrees_all bufs : Forall (fun b => b <> 0) bufs -> (length bufs <= MAX_DEFERRED_FREES)%nat ->
  (frees ← DFreeAll [] bufs; Ok (Message_DoFrees frees)) = Ok ([], bufs).
Proof.
  intros Hb Hl. rewrite DFree_ok by (done || cbn; lia). cbn [length]. by rewrite (proj2 (Nat.leb_le _ _)).
Qed.

(** ** Log lines *)

(** The position never overruns its buffer. *)
Lemma filepos_length fname line : (length (filepos fname line) < 32)%nat.
Proof. unfold filepos. rewrite length_take. lia. Qed.

(** The month is printed as [struct tm] counts it, from 0. *)
Lemma timestamp_month :
  timestamp (Moment 126 10 15 9 5 7 123400) 77 = str "20261015-090507-1234 00077 ".
Proof. reflexivity. Qed.

(** ** Dumps of data *)

(** A line shows the address, two halves of eight bytes, and the characters. *)
Definition hex_half (bytes : list Z) : list Z := pad_right 24 (concat (map (fun d => 32 :: fmt_02x d) bytes)).

Definition hex_line (base : nat) (chunk : list Z) : list Z :=
  fmt_08x (Z.of_nat base) ++ hex_half (take 8 chunk) ++ [32] ++ hex_half (drop 8 chunk) ++ [32; 124] ++
  map printable chunk ++ [124].

Definition chunk_at (data : list Z) (base : nat) : list Z := take 16 (drop base data).

Lemma chunk_lookup data base o : (o < 16)%nat -> data !! (base + o)%nat = chunk_at data base !! o.
Proof. intros Ho. unfold chunk_at. by rewrite lookup_take_lt, lookup_drop by lia. Qed.

Lemma HexColumns_chunk offsets data base : forall out, Forall (fun o => (o < 16)%nat) offsets ->
  HexColumns offsets data base out = HexColumns offsets (chunk_at data base) 0 out.
Proof.
  induction offsets as [|o offsets IH]; intros out HF; [done|]. apply Forall_cons in HF as [Ho HF]. cbn [HexColumns].
  rewrite (chunk_lookup data base o Ho). cbn [Nat.add]. destruct (if (o =? 8)%nat then _ else _) as [out1|]; [|done].
  cbn [mbind res_bind]. destruct (hex_put 1 out1 _) as [out2|]; [|done]. cbn [mbind res_bind]. by apply IH.
Qed.

Lemma HexChars_chunk offsets data base : forall out, Forall (fun o => (o < 16)%nat) offsets ->
  HexChars offsets data base out = HexChars offsets (chunk_at data base) 0 out.
Proof.
  induction offsets as [|o offsets IH]; intros out HF; [done|]. apply Forall_cons in HF as [Ho HF]. cbn [HexChars].
  rewrite (chunk_lookup data base o Ho). cbn [Nat.add]. destruct (chunk_at data base !! o) as [d|]; [|done].
  destruct (hex_put 0 out _) as [out2|]; [|done]. cbn [mbind res_bind]. by apply IH.
Qed.

Lemma HexLine_chunk (addr chunk : list Z) : length addr = 8%nat -> (length chunk <= 16)%nat ->
  (out ← hex_put 1 [] addr; out ← HexColumns (seq 0 16) chunk 0 out; out ← hex_put 1 out [32; 124];
   out ← HexChars (seq 0 16) chunk 0 out; hex_put 1 out [124]) =
  Ok (addr ++ hex_half (take 8 chunk) ++ [32] ++ hex_half (drop 8 chunk) ++ [32; 124] ++ map printable chunk ++ [124]).
Proof.
  intros Ha Hc. do 9 (destruct addr as [|? addr]; try (cbn in Ha; lia)).
  do 17 (destruct chunk as [|? chunk]; [reflexivity|]). cbn in Hc. lia.
Qed.

(** A line of the dump shows the next sixteen bytes and stays in its buffer. *)
Lemma HexLine_ok data base : HexLine data base = Ok (hex_line base (chunk_at data base)).
Proof.
  unfold HexLine. assert (HF : Forall (fun o => (o < 16)%nat) (seq 0 16)).
  { apply Forall_forall. intros o Ho. apply elem_of_seq in Ho. lia. }
  unfold hex_line. rewrite <- (HexLine_chunk (fmt_08x (Z.of_nat base)) (chunk_at data base)).
  - destruct (hex_put 1 [] _) as [o1|]; [|done]. cbn [mbind res_bind]. rewrite HexColumns_chunk by done.
    destruct (HexColumns _ _ _ o1) as [o2|]; [|done]. cbn [mbind res_bind].
    destruct (hex_put 1 o2 _) as [o3|]; [|done]. cbn [mbind res_bind]. by rewrite HexChars_chunk.
  - done.
  - unfold chunk_at. rewrite length_take. lia.
Qed.

Lemma HexLoop_ok data n : forall fuel i, (n < fuel)%nat -> (length data <= 16 * (i + n))%nat ->
  (n = 0 \/ 16 * (i + n - 1) < length data)%nat ->
  HexLoop fuel data (16 * i) = Ok (map (fun i => hex_line (16 * i) (chunk_at data (16 * i))) (seq i n)).
Proof.
  induction n as [|n IH]; intros fuel i Hf Hl Hn; (destruct fuel as [|fuel]; [lia|]); cbn [HexLoop seq map].
  - by rewrite (proj2 (Nat.ltb_ge _ _)) by lia.
  - rewrite (proj2 (Nat.ltb_lt _ _)) by lia. rewrite HexLine_ok, bind_ret_l.
    replace (16 * i + 16)%nat with (16 * S i)%nat by lia. rewrite (IH fuel (S i)) by lia. done.
Qed.

(** The dump is one such line per sixteen bytes, in order. *)
Lemma Hexdump_ok data :
  _Message_Hexdump data =
  Ok (map (fun i => hex_line (16 * i) (chunk_at data (16 * i))) (seq 0 ((length data + 15) / 16))).
Proof.
  unfold _Message_Hexdump. pose proof (Nat.div_mod_eq (length data + 15) 16) as E.
  pose proof (Nat.mod_upper_bound (length data + 15) 16 ltac:(lia)).
  apply (HexLoop_ok data ((length data + 15) / 16) _ 0); lia.
Qed.

(** The bytes can be read back from the text. *)
Definition hex_value (c : Z) : Z := if c <? 58 then c - 48 else c - 87.

Lemma fmt_02x_value b : 0 <= b < 256 ->
  exists x y, fmt_02x b = [x; y] /\ 16 * hex_value x + hex_value y = b.
Proof.
  intros Hb. eexists _, _. split; [reflexivity|].
  assert (V : forall n, 0 <= n < 16 -> hex_value (hex_digit n) = n).
  { intros n Hn. unfold hex_value, hex_digit. destruct (Z.ltb_spec n 10); case_if; bools; lia. }
  rewrite !V; [|apply Z.mod_pos_bound; lia|].
  - pose proof (Z.div_mod b 16 ltac:(lia)). lia.
  - split; [apply Z.div_pos; lia|apply Z.div_lt_upper_bound; lia].
Qed.

(** A blob is shown up to [blobmax] characters, with a mark where it is cut. *)
Lemma FmtBlob_ok data blobmax : 0 <= blobmax < 2 ^ 31 -> Z.of_nat (length data) < 2 ^ 31 ->
  Message_FmtBlob data blobmax true =
  Ok (Some ([124] ++ map (fun c => printable (s8 c)) (take (Z.to_nat blobmax) data) ++
    [if Z.of_nat (length data) <=? blobmax then 124 else 62])).
Proof.
  intros Hb Hl. unfold Message_FmtBlob. cbn [negb]. set (len := Z.of_nat (length data)) in *.
  destruct (Z.ltb_spec blobmax len).
  - rewrite u64_small by lia. rewrite (proj2 (Z.leb_gt _ _)) by lia. cbn [orb].
    rewrite (proj2 (Z.eqb_neq len blobmax)), (proj2 (Z.leb_gt len blobmax)) by lia. cbn [negb].
    rewrite (proj2 (Z.ltb_lt _ _)); [done|]. rewrite !length_app, length_map, length_take. cbn. lia.
  - rewrite u64_small by lia. rewrite (proj2 (Z.leb_gt _ _)) by lia. cbn [orb].
    rewrite Z.eqb_refl, (proj2 (Z.leb_le len blobmax)) by lia. cbn [negb].
    rewrite !take_ge by lia. rewrite (proj2 (Z.ltb_lt _ _)); [done|]. rewrite !length_app, length_map. cbn. lia.
Qed.

(** With [BLOBMAX] at -1, -2 or -3 the text is longer than its buffer. *)
Lemma FmtBlob_negative data blobmax : -3 <= blobmax < 0 -> Message_FmtBlob data blobmax true = Fault OutOfBounds.
Proof.
  intros Hb. unfold Message_FmtBlob. cbn [negb]. rewrite (proj2 (Z.ltb_lt blobmax _)) by lia. rewrite u64_small by lia.
  rewrite (proj2 (Z.leb_gt _ _)) by lia. cbn [orb]. replace (Z.to_nat blobmax) with 0%nat by lia. rewrite take_0.
  rewrite (proj2 (Z.ltb_ge _ _)); [done|]. cbn. lia.
Qed.
