(* ===== verification/Hash.v ===== *)
(** * The hash function (src/lib/lookup3.c)

    [hashlittle] reads its key in 32-bit, 16-bit or 8-bit units, according to the
    alignment of the pointer.  Keys arrive unaligned in request buffers and are
    kept in aligned blocks of their own, so the three ways of reading have to
    give the same value: each equals a reference definition on the key's bytes. *)

From S2P Require Import Prelude CLib.

(** ** Mixing *)

Definition rot (x k : Z) : Z := Z.lor (u32 (Z.shiftl x k)) (Z.shiftr x (32 - k)).

Definition mix (a b c : Z) : Z * Z * Z :=
  let a := u32 (a - c) in let a := Z.lxor a (rot c 4) in let c := u32 (c + b) in
  let b := u32 (b - a) in let b := Z.lxor b (rot a 6) in let a := u32 (a + c) in
  let c := u32 (c - b) in let c := Z.lxor c (rot b 8) in let b := u32 (b + a) in
  let a := u32 (a - c) in let a := Z.lxor a (rot c 16) in let c := u32 (c + b) in
  let b := u32 (b - a) in let b := Z.lxor b (rot a 19) in let a := u32 (a + c) in
  let c := u32 (c - b) in let c := Z.lxor c (rot b 4) in let b := u32 (b + a) in
  (a, b, c).

Definition final (a b c : Z) : Z :=
  let c := Z.lxor c b in let c := u32 (c - rot b 14) in
  let a := Z.lxor a c in let a := u32 (a - rot c 11) in
  let b := Z.lxor b a in let b := u32 (b - rot a 25) in
  let c := Z.lxor c b in let c := u32 (c - rot b 16) in
  let a := Z.lxor a c in let a := u32 (a - rot c 4) in
  let b := Z.lxor b a in let b := u32 (b - rot a 14) in
  let c := Z.lxor c b in u32 (c - rot b 24).

#[global] Arguments mix : simpl never.
#[global] Arguments final : simpl never.

(** ** Reads *)

(** An [n]-byte little-endian unsigned read at byte offset [off] of the memory
    from the pointer on. *)
Definition rd (n : nat) (k : list Z) (off : nat) : res Z :=
  if (off + n <=? length k)%nat then Ok (le_val (take n (drop off k))) else Fault OutOfBounds.

Definition rd32 (k : list Z) (i : nat) : res Z := rd 4 k (4 * i).
Definition rd16 (k : list Z) (i : nat) : res Z := rd 2 k (2 * i).
Definition rd8 (k : list Z) (i : nat) : res Z := rd 1 k i.

(** [(uint32_t)x << n] *)
Definition shl (x n : Z) : Z := u32 (Z.shiftl x n).

(** [x += y] *)
Definition plus32 (x y : Z) : Z := u32 (x + y).

(** ** 32-bit reads *)

Fixpoint Blocks32 (fuel : nat) (k : list Z) (len a b c : Z) : res (list Z * Z * (Z * Z * Z)) :=
  match fuel with
  | O => Fault NoFuel
  | S fuel =>
    if 12 <? len then
      x ← rd32 k 0; y ← rd32 k 1; z ← rd32 k 2;
      let '(a, b, c) := mix (plus32 a x) (plus32 b y) (plus32 c z) in
      Blocks32 fuel (drop 12 k) (len - 12) a b c
    else Ok (k, len, (a, b, c))
  end.

Definition Tail32 (k : list Z) (len a b c : Z) : res (Z * Z * Z) :=
  match len with
  | 12 => z ← rd32 k 2; y ← rd32 k 1; x ← rd32 k 0;
          Ok (plus32 a x, plus32 b y, plus32 c z)
  | 11 => z ← rd32 k 2; y ← rd32 k 1; x ← rd32 k 0;
          Ok (plus32 a x, plus32 b y, plus32 c (Z.land z 0xffffff))
  | 10 => z ← rd32 k 2; y ← rd32 k 1; x ← rd32 k 0;
          Ok (plus32 a x, plus32 b y, plus32 c (Z.land z 0xffff))
  | 9 => z ← rd32 k 2; y ← rd32 k 1; x ← rd32 k 0;
          Ok (plus32 a x, plus32 b y, plus32 c (Z.land z 0xff))
  | 8 => y ← rd32 k 1; x ← rd32 k 0;
          Ok (plus32 a x, plus32 b y, c)
  | 7 => y ← rd32 k 1; x ← rd32 k 0;
          Ok (plus32 a x, plus32 b (Z.land y 0xffffff), c)
  | 6 => y ← rd32 k 1; x ← rd32 k 0;
          Ok (plus32 a x, plus32 b (Z.land y 0xffff), c)
  | 5 => y ← rd32 k 1; x ← rd32 k 0;
          Ok (plus32 a x, plus32 b (Z.land y 0xff), c)
  | 4 => x ← rd32 k 0;
          Ok (plus32 a x, b, c)
  | 3 => x ← rd32 k 0;
          Ok (plus32 a (Z.land x 0xffffff), b, c)
  | 2 => x ← rd32 k 0;
          Ok (plus32 a (Z.land x 0xffff), b, c)
  | 1 => x ← rd32 k 0;
          Ok (plus32 a (Z.land x 0xff), b, c)
  | _ => Ok (a, b, c)
  end.

(** ** 16-bit reads *)

Definition pair16 (k : list Z) (i : nat) : res Z :=
  lo ← rd16 k i; hi ← rd16 k (i + 1); Ok (u32 (lo + shl hi 16)).

Fixpoint Blocks16 (fuel : nat) (k : list Z) (len a b c : Z) : res (list Z * Z * (Z * Z * Z)) :=
  match fuel with
  | O => Fault NoFuel
  | S fuel =>
    if 12 <? len then
      x ← pair16 k 0; y ← pair16 k 2; z ← pair16 k 4;
      let '(a, b, c) := mix (plus32 a x) (plus32 b y) (plus32 c z) in
      Blocks16 fuel (drop 12 k) (len - 12) a b c
    else Ok (k, len, (a, b, c))
  end.

Definition Tail16 (k : list Z) (len a b c : Z) : res (Z * Z * Z) :=
  match len with
  | 12 => z ← pair16 k 4; y ← pair16 k 2; x ← pair16 k 0;
          Ok (plus32 a x, plus32 b y, plus32 c z)
  | 11 => h ← rd8 k 10; let c := plus32 c (shl h 16) in
          z ← rd16 k 4; y ← pair16 k 2; x ← pair16 k 0;
          Ok (plus32 a x, plus32 b y, plus32 c z)
  | 10 => z ← rd16 k 4; y ← pair16 k 2; x ← pair16 k 0;
          Ok (plus32 a x, plus32 b y, plus32 c z)
  | 9 => z ← rd8 k 8; let c := plus32 c z in
         y ← pair16 k 2; x ← pair16 k 0; Ok (plus32 a x, plus32 b y, c)
  | 8 => y ← pair16 k 2; x ← pair16 k 0; Ok (plus32 a x, plus32 b y, c)
  | 7 => h ← rd8 k 6; let b := plus32 b (shl h 16) in
         y ← rd16 k 2; x ← pair16 k 0; Ok (plus32 a x, plus32 b y, c)
  | 6 => y ← rd16 k 2; x ← pair16 k 0; Ok (plus32 a x, plus32 b y, c)
  | 5 => y ← rd8 k 4; let b := plus32 b y in x ← pair16 k 0; Ok (plus32 a x, b, c)
  | 4 => x ← pair16 k 0; Ok (plus32 a x, b, c)
  | 3 => h ← rd8 k 2; let a := plus32 a (shl h 16) in x ← rd16 k 0; Ok (plus32 a x, b, c)
  | 2 => x ← rd16 k 0; Ok (plus32 a x, b, c)
  | 1 => x ← rd8 k 0; Ok (plus32 a x, b, c)
  | _ => Ok (a, b, c)
  end.

(** ** 8-bit reads *)

(** [w += (uint32_t)k[i] << n] *)
Definition add8 (k : list Z) (w : Z) (i : nat) (n : Z) : res Z :=
  x ← rd8 k i; Ok (plus32 w (shl x n)).

Fixpoint Blocks8 (fuel : nat) (k : list Z) (len a b c : Z) : res (list Z * Z * (Z * Z * Z)) :=
  match fuel with
  | O => Fault NoFuel
  | S fuel =>
    if 12 <? len then
      a ← add8 k a 0 0; a ← add8 k a 1 8; a ← add8 k a 2 16; a ← add8 k a 3 24;
      b ← add8 k b 4 0; b ← add8 k b 5 8; b ← add8 k b 6 16; b ← add8 k b 7 24;
      c ← add8 k c 8 0; c ← add8 k c 9 8; c ← add8 k c 10 16; c ← add8 k c 11 24;
      let '(a, b, c) := mix a b c in
      Blocks8 fuel (drop 12 k) (len - 12) a b c
    else Ok (k, len, (a, b, c))
  end.

(** All the case labels fall through: label [n] is reached when [len] is at
    least [n]. *)
Definition case8 (n : Z) (k : list Z) (len w : Z) (i : nat) (s : Z) : res Z :=
  if n <=? len then add8 k w i s else Ok w.

Definition Tail8 (k : list Z) (len a b c : Z) : res (Z * Z * Z) :=
  c ← case8 12 k len c 11 24; c ← case8 11 k len c 10 16;
  c ← case8 10 k len c 9 8; c ← case8 9 k len c 8 0;
  b ← case8 8 k len b 7 24; b ← case8 7 k len b 6 16;
  b ← case8 6 k len b 5 8; b ← case8 5 k len b 4 0;
  a ← case8 4 k len a 3 24; a ← case8 3 k len a 2 16;
  a ← case8 2 k len a 1 8; a ← case8 1 k len a 0 0;
  Ok (a, b, c).

(** ** The function *)

Definition finish (tail : list Z -> Z -> Z -> Z -> Z -> res (Z * Z * Z))
    (r : list Z * Z * (Z * Z * Z)) : res Z :=
  let '(k, len, (a, b, c)) := r in
  if len =? 0 then Ok c
  else '(a, b, c) ← tail k len a b c; Ok (final a b c).

(** [addr] is the pointer, [k] the memory it points to. *)
Definition hashlittle (addr : Z) (k : list Z) (length initval : Z) : res Z :=
  let s := u32 (0xdeadbeef + u32 length + initval) in
  let fuel := S (Z.to_nat length) in
  if Z.land addr 3 =? 0 then r ← Blocks32 fuel k length s s s; finish Tail32 r
  else if Z.land addr 1 =? 0 then r ← Blocks16 fuel k length s s s; finish Tail16 r
  else r ← Blocks8 fuel k length s s s; finish Tail8 r.

(** The build is little-endian. *)
Definition hash (addr : Z) (k : list Z) (length initval : Z) : res Z :=
  hashlittle addr k length initval.

(** ** Table sizes (src/lib/hash.h) *)

Definition hashsize (n : Z) : Z := u32 (Z.shiftl 1 n).
Definition hashmask (n : Z) : Z := u32 (hashsize n - 1).

(** ** Reference *)

Definition word (k : list Z) (i : nat) : Z := le_val (take 4 (drop (4 * i) k)).

Definition absorb (k : list Z) (s : Z * Z * Z) : Z * Z * Z :=
  let '(a, b, c) := s in
  (plus32 a (word k 0), plus32 b (word k 1), plus32 c (word k 2)).

Fixpoint hash_blocks (fuel : nat) (k : list Z) (s : Z * Z * Z) : Z :=
  match fuel with
  | O => 0
  | S fuel =>
    if (12 <? length k)%nat then
      let '(a, b, c) := absorb k s in hash_blocks fuel (drop 12 k) (mix a b c)
    else
      match k with
      | [] => s.2
      | _ => let '(a, b, c) := absorb k s in final a b c
      end
  end.

(** The hash of a byte string: words of four bytes, the last ones padded with
    zeros. *)
Definition hash_of (key : list Z) (initval : Z) : Z :=
  let s := u32 (0xdeadbeef + u32 (Z.of_nat (length key)) + initval) in
  hash_blocks (S (length key)) key (s, s, s).

(** ** Lemmas *)

(** The byte at offset [i], zero past the end. *)
Definition byte_at (k : list Z) (i : nat) : Z := le_val (take 1 (drop i k)).

Lemma byte_at_lookup k i : byte_at k i = default 0 (k !! i).
Proof.
  unfold byte_at. destruct (k !! i) as [x|] eqn:E.
  - rewrite (drop_S _ _ _ E), firstn_cons, take_0. cbn [le_val from_option id]. unfold id. lia.
  - by rewrite drop_ge by (by apply lookup_ge_None).
Qed.

Lemma byte_at_take k n i : byte_at (take n k) i = if (i <? n)%nat then byte_at k i else 0.
Proof.
  rewrite !byte_at_lookup. destruct (Nat.ltb_spec i n).
  - by rewrite lookup_take_lt.
  - by rewrite lookup_take_ge.
Qed.

Lemma byte_at_range k i : Forall byte_ok k -> 0 <= byte_at k i < 256.
Proof.
  intros Hk. rewrite byte_at_lookup. destruct (k !! i) as [x|] eqn:E; [|done].
  rewrite Forall_lookup in Hk. exact (Hk i x E).
Qed.

(** Little-endian values, byte by byte. *)
Lemma le_val_bytes_at n k o :
  le_val (take (S n) (drop o k)) = byte_at k o + 256 * le_val (take n (drop (S o) k)).
Proof.
  rewrite byte_at_lookup. destruct (k !! o) as [x|] eqn:E.
  - by rewrite (drop_S _ _ _ E).
  - apply lookup_ge_None in E. by rewrite !drop_ge, !take_nil by lia.
Qed.

Lemma word_bytes k i :
  word k i = byte_at k (4 * i) + 2 ^ 8 * byte_at k (4 * i + 1) +
             2 ^ 16 * byte_at k (4 * i + 2) + 2 ^ 24 * byte_at k (4 * i + 3).
Proof.
  unfold word. rewrite !le_val_bytes_at, take_0. cbn [le_val].
  replace (4 * i + 1)%nat with (S (4 * i)) by lia.
  replace (4 * i + 2)%nat with (S (S (4 * i))) by lia.
  replace (4 * i + 3)%nat with (S (S (S (4 * i)))) by lia. lia.
Qed.

Lemma rd32_ok k i : (4 * i + 4 <= length k)%nat -> rd32 k i = Ok (word k i).
Proof. intros H. unfold rd32, rd. by rewrite (proj2 (Nat.leb_le _ _) H). Qed.

Lemma rd16_ok k i :
  (2 * i + 2 <= length k)%nat -> rd16 k i = Ok (byte_at k (2 * i) + 2 ^ 8 * byte_at k (2 * i + 1)).
Proof.
  intros H. unfold rd16, rd. rewrite (proj2 (Nat.leb_le _ _) H), !le_val_bytes_at, take_0.
  cbn [le_val]. replace (2 * i + 1)%nat with (S (2 * i)) by lia. f_equal. lia.
Qed.

Lemma rd8_ok k i : (i + 1 <= length k)%nat -> rd8 k i = Ok (byte_at k i).
Proof. intros H. unfold rd8, rd. by rewrite (proj2 (Nat.leb_le _ _) H). Qed.

(** ** Arithmetic modulo 2^32 *)

(** Congruence modulo 2^32, under which sums are rewritten. *)
Definition eq32 (x y : Z) : Prop := u32 x = u32 y.

#[global] Instance eq32_equiv : Equivalence eq32.
Proof. unfold eq32. split; red; congruence. Qed.

#[global] Instance eq32_add : Proper (eq32 ==> eq32 ==> eq32) Z.add.
Proof.
  unfold eq32, u32. intros x x' Hx y y' Hy. rewrite Zplus_mod, Hx, Hy. symmetry. apply Zplus_mod.
Qed.

Lemma eq32_u32 x : eq32 (u32 x) x.
Proof. apply Z.mod_mod. lia. Qed.

Definition in32 (x : Z) : Prop := 0 <= x < 2 ^ 32.

Lemma u32_in x : in32 (u32 x).
Proof. apply Z.mod_pos_bound. lia. Qed.

Lemma in32_log x : in32 x <-> 0 <= x /\ Z.log2 x < 32.
Proof.
  unfold in32. split; intros [H1 H2]; (split; [done|]).
  - destruct (decide (x = 0)) as [->|]; [done|]. apply Z.log2_lt_pow2; lia.
  - destruct (decide (x = 0)) as [->|]; [done|]. apply Z.log2_lt_pow2; lia.
Qed.

Lemma lxor_in x y : in32 x -> in32 y -> in32 (Z.lxor x y).
Proof.
  rewrite !in32_log. intros [H1 H2] [H3 H4]. split; [by apply Z.lxor_nonneg|].
  pose proof (Z.log2_lxor x y H1 H3). lia.
Qed.

Lemma rot_in x k : in32 x -> 0 <= 32 - k -> in32 (rot x k).
Proof.
  intros Hx Hk. unfold rot. assert (Hs : in32 (Z.shiftr x (32 - k))).
  { unfold in32 in *. rewrite Z.shiftr_div_pow2 by done.
    pose proof (Z.pow_pos_nonneg 2 (32 - k) ltac:(lia) Hk).
    split; [apply Z.div_pos; lia|]. apply Z.div_lt_upper_bound; nia. }
  pose proof (u32_in (Z.shiftl x k)) as Hu. rewrite in32_log in Hs, Hu |- *.
  destruct Hs as [H1 H2], Hu as [H3 H4]. split; [by apply Z.lor_nonneg|].
  rewrite Z.log2_lor by done. lia.
Qed.

Definition state_in (s : Z * Z * Z) : Prop := in32 s.1.1 /\ in32 s.1.2 /\ in32 s.2.

Lemma mix_in a b c : in32 c -> state_in (mix a b c).
Proof.
  intros Hc. unfold mix. split_and!; cbn [fst snd];
    repeat first [apply u32_in | apply lxor_in | apply rot_in; [|lia] | done].
Qed.

(** ** The last block *)

Lemma absorb_bytes k a b c :
  absorb k (a, b, c) = (plus32 a (word k 0), plus32 b (word k 1), plus32 c (word k 2)).
Proof. reflexivity. Qed.

Lemma land_low x y n : 0 <= n -> 0 <= x < 2 ^ n -> Z.land (x + 2 ^ n * y) (Z.ones n) = x.
Proof.
  intros Hn Hx. rewrite Z.land_ones by done. rewrite (Z.mul_comm (2 ^ n)), Z_mod_plus_full.
  by apply Z.mod_small.
Qed.

(** Normal form of a column: the sum of its bytes, taken modulo 2^32 once. *)
Ltac norm32 :=
  unfold plus32, shl; rewrite ?Z.shiftl_mul_pow2 by lia;
  match goal with |- u32 ?x = u32 ?y => change (eq32 x y); rewrite ?eq32_u32; unfold eq32 | _ => idtac end.

Lemma tail_column k n i w :
  in32 w -> plus32 w (word (take n k) i) =
  u32 (w + (if (4 * i <? n)%nat then byte_at k (4 * i) else 0) +
       2 ^ 8 * (if (4 * i + 1 <? n)%nat then byte_at k (4 * i + 1) else 0) +
       2 ^ 16 * (if (4 * i + 2 <? n)%nat then byte_at k (4 * i + 2) else 0) +
       2 ^ 24 * (if (4 * i + 3 <? n)%nat then byte_at k (4 * i + 3) else 0)).
Proof. intros _. unfold plus32. rewrite word_bytes, !byte_at_take. f_equal. lia. Qed.

Lemma in32_u32 w : in32 w -> u32 w = w.
Proof. apply Z.mod_small. Qed.

(** The three tails agree with absorbing the zero-padded last block. *)
Definition tail_ok (tail : list Z -> Z -> Z -> Z -> Z -> res (Z * Z * Z)) (need : nat -> nat) : Prop :=
  forall k n a b c, Forall byte_ok k -> (1 <= n <= 12)%nat -> (need n <= length k)%nat ->
    state_in (a, b, c) -> tail k (Z.of_nat n) a b c = Ok (absorb (take n k) (a, b, c)).

Definition round4 (n : nat) : nat := (4 * ((n + 3) / 4))%nat.

(** A key: its address, the memory from there on, its length. *)
Record keyref : Type := KeyRef {
  kr_addr : Z;
  kr_mem : list Z;
  kr_len : nat
}.

Definition kbytes (k : keyref) : list Z := take (kr_len k) (kr_mem k).

(** The hash function may read to the end of the last word. *)
Definition keyref_ok (k : keyref) : Prop :=
  Forall byte_ok (kr_mem k) /\ (round4 (kr_len k) <= length (kr_mem k))%nat.

Lemma upto12 n : (1 <= n <= 12)%nat ->
  (n = 1 \/ n = 2 \/ n = 3 \/ n = 4 \/ n = 5 \/ n = 6 \/ n = 7 \/ n = 8 \/ n = 9 \/
   n = 10 \/ n = 11 \/ n = 12)%nat.
Proof. lia. Qed.

(** Case split on the length of the block. *)
Ltac tail_cases Hn := apply upto12 in Hn; repeat (destruct Hn as [->|Hn]); [..|subst].

(** Evaluates a column of the reference: the comparisons are closed. *)
Ltac columns :=
  rewrite absorb_bytes, !tail_column by done;
  cbn [Nat.mul Nat.add Nat.ltb Nat.leb];
  rewrite ?Z.add_0_r, ?Z.mul_0_r, ?Z.add_0_r.

(** Selects the case of the code. *)
Ltac select_case f :=
  match goal with |- context [Z.of_nat ?n] =>
    let v := eval vm_compute in (Z.of_nat n) in change (Z.of_nat n) with v
  end; cbv beta match delta [f].

(** Evaluates the reads, then compares the columns byte by byte. *)
Ltac reads :=
  rewrite ?rd32_ok, ?rd16_ok, ?rd8_ok by (cbn; lia); rewrite ?bind_ret_l; cbv zeta.

Ltac compare_columns :=
  do 2 f_equal; [f_equal|..]; rewrite ?in32_u32 by done; try done; norm32; f_equal; cbn [Nat.mul Nat.add]; lia.

Lemma Tail32_ok : tail_ok Tail32 round4.
Proof.
  intros k n a b c Hk Hn Hlen (Ha & Hb & Hc). cbn [fst snd] in *.
  assert (HB : forall i, 0 <= byte_at k i < 256) by (intros; by apply byte_at_range).
  assert (M1 : forall i, Z.land (word k i) 0xff = byte_at k (4 * i)).
  { intros i. rewrite word_bytes. change 0xff with (Z.ones 8).
    rewrite <- (land_low (byte_at k (4 * i)) (byte_at k (4 * i + 1) + 2 ^ 8 * byte_at k (4 * i + 2) +
      2 ^ 16 * byte_at k (4 * i + 3)) 8) at 2 by (auto; lia).
    f_equal. lia. }
  assert (M2 : forall i, Z.land (word k i) 0xffff = byte_at k (4 * i) + 2 ^ 8 * byte_at k (4 * i + 1)).
  { intros i. rewrite word_bytes. change 0xffff with (Z.ones 16).
    rewrite <- (land_low (byte_at k (4 * i) + 2 ^ 8 * byte_at k (4 * i + 1))
      (byte_at k (4 * i + 2) + 2 ^ 8 * byte_at k (4 * i + 3)) 16) at 2;
      [f_equal; lia|lia|]. pose proof (HB (4 * i)%nat). pose proof (HB (4 * i + 1)%nat). lia. }
  assert (M3 : forall i, Z.land (word k i) 0xffffff = byte_at k (4 * i) + 2 ^ 8 * byte_at k (4 * i + 1) +
    2 ^ 16 * byte_at k (4 * i + 2)).
  { intros i. rewrite word_bytes. change 0xffffff with (Z.ones 24).
    rewrite <- (land_low (byte_at k (4 * i) + 2 ^ 8 * byte_at k (4 * i + 1) + 2 ^ 16 * byte_at k (4 * i + 2))
      (byte_at k (4 * i + 3)) 24) at 2; [f_equal; lia|lia|].
    pose proof (HB (4 * i)%nat). pose proof (HB (4 * i + 1)%nat). pose proof (HB (4 * i + 2)%nat). lia. }
  tail_cases Hn; unfold round4 in Hlen; cbn in Hlen; columns; select_case Tail32; reads;
    rewrite ?M1, ?M2, ?M3, ?word_bytes; compare_columns.
Qed.

Lemma pair16_ok k i :
  Forall byte_ok k -> (2 * i + 4 <= length k)%nat ->
  pair16 k i = Ok (byte_at k (2 * i) + 2 ^ 8 * byte_at k (2 * i + 1) +
    2 ^ 16 * byte_at k (2 * i + 2) + 2 ^ 24 * byte_at k (2 * i + 3)).
Proof.
  intros Hk Hlen. unfold pair16. rewrite !rd16_ok, !bind_ret_l by lia. f_equal. unfold shl. rewrite Z.shiftl_mul_pow2 by lia.
  replace (2 * (i + 1))%nat with (2 * i + 2)%nat by lia.
  replace (2 * i + 2 + 1)%nat with (2 * i + 3)%nat by lia.
  pose proof (byte_at_range k (2 * i) Hk). pose proof (byte_at_range k (2 * i + 1) Hk).
  pose proof (byte_at_range k (2 * i + 2) Hk). pose proof (byte_at_range k (2 * i + 3) Hk).
  rewrite (u32_small ((byte_at k (2 * i + 2) + 2 ^ 8 * byte_at k (2 * i + 3)) * 2 ^ 16)) by lia.
  rewrite u32_small; lia.
Qed.

Lemma Tail16_ok : tail_ok Tail16 (fun n => n).
Proof.
  intros k n a b c Hk Hn Hlen (Ha & Hb & Hc). cbn [fst snd] in *.
  tail_cases Hn; columns; select_case Tail16; rewrite ?pair16_ok by (done || cbn; lia); reads;
    compare_columns.
Qed.

Lemma add8_ok k w i n : (i + 1 <= length k)%nat -> add8 k w i n = Ok (plus32 w (shl (byte_at k i) n)).
Proof. intros Hi. unfold add8. by rewrite rd8_ok, bind_ret_l. Qed.

Lemma Tail8_ok : tail_ok Tail8 (fun n => n).
Proof.
  intros k n a b c Hk Hn Hlen (Ha & Hb & Hc). cbn [fst snd] in *.
  tail_cases Hn; columns; unfold Tail8, case8;
    (match goal with |- context [Z.of_nat ?n] =>
       let v := eval vm_compute in (Z.of_nat n) in change (Z.of_nat n) with v end);
    cbn [Z.leb Z.compare Pos.compare Pos.compare_cont]; repeat first [rewrite bind_ret_l | rewrite add8_ok by lia];
    compare_columns.
Qed.

(** ** Whole keys *)

(** A block of twelve bytes, read in either way, is absorbed. *)
Lemma Blocks_step k :
  Forall byte_ok k -> (12 <= length k)%nat ->
  rd32 k 0 = Ok (word k 0) /\ rd32 k 1 = Ok (word k 1) /\ rd32 k 2 = Ok (word k 2) /\
  pair16 k 0 = Ok (word k 0) /\ pair16 k 2 = Ok (word k 1) /\ pair16 k 4 = Ok (word k 2).
Proof.
  intros Hk Hlen. rewrite !rd32_ok, !pair16_ok by (done || lia). rewrite !word_bytes. done.
Qed.

Lemma add8_word k w i :
  plus32 (plus32 (plus32 (plus32 w (shl (byte_at k (4 * i)) 0)) (shl (byte_at k (4 * i + 1)) 8))
    (shl (byte_at k (4 * i + 2)) 16)) (shl (byte_at k (4 * i + 3)) 24) = plus32 w (word k i).
Proof. rewrite word_bytes. norm32. f_equal. lia. Qed.

Section Path.

Variable blocks : nat -> list Z -> Z -> Z -> Z -> Z -> res (list Z * Z * (Z * Z * Z)).
Variable tail : list Z -> Z -> Z -> Z -> Z -> res (Z * Z * Z).
Variable need : nat -> nat.

Hypothesis blocks_stop : forall fuel k len a b c,
  len <= 12 -> blocks (S fuel) k len a b c = Ok (k, len, (a, b, c)).
Hypothesis blocks_step : forall fuel k len a b c,
  Forall byte_ok k -> (12 <= length k)%nat -> 12 < len ->
  blocks (S fuel) k len a b c =
  let '(a, b, c) := mix (plus32 a (word k 0)) (plus32 b (word k 1)) (plus32 c (word k 2)) in
  blocks fuel (drop 12 k) (len - 12) a b c.
Hypothesis tail_absorbs : tail_ok tail need.
Hypothesis need_ge : forall n, (n <= need n)%nat.
Hypothesis need_drop : forall n, (12 <= n)%nat -> need n = (12 + need (n - 12))%nat.

(** Reading the key in any of the three ways computes the reference. *)
Lemma path_ok fuel k n a b c :
  Forall byte_ok k -> (need n <= length k)%nat -> (n < fuel)%nat -> state_in (a, b, c) ->
  (r ← blocks fuel k (Z.of_nat n) a b c; finish tail r) =
  Ok (hash_blocks fuel (take n k) (a, b, c)).
Proof.
  revert k n a b c. induction fuel as [|fuel IH]; intros k n a b c Hk Hn Hf Hs; [lia|].
  pose proof (need_ge n). cbn [hash_blocks]. rewrite length_take_le by lia.
  destruct (Nat.ltb_spec 12 n) as [Hgt|Hle].
  - rewrite blocks_step by (done || lia).
    replace (absorb (take n k) (a, b, c)) with (absorb k (a, b, c)).
    2:{ unfold absorb, word. rewrite !skipn_firstn_comm, !take_take. repeat f_equal; lia. }
    unfold absorb. pose proof (mix_in (plus32 a (word k 0)) (plus32 b (word k 1))
      (plus32 c (word k 2)) (u32_in _)) as Hm.
    destruct (mix _ _ _) as [[a' b'] c'] eqn:E.
    replace (Z.of_nat n - 12) with (Z.of_nat (n - 12)) by lia.
    rewrite IH; [|by apply Forall_drop| |lia|done].
    + by rewrite skipn_firstn_comm.
    + rewrite length_drop. rewrite need_drop in Hn by lia. lia.
  - rewrite blocks_stop by lia. rewrite bind_ret_l. unfold finish.
    destruct (Z.eqb_spec (Z.of_nat n) 0) as [E|E].
    + assert (n = 0)%nat as -> by lia. by rewrite take_0.
    + rewrite (tail_absorbs k n a b c) by (done || lia). rewrite bind_ret_l.
      destruct (absorb (take n k) (a, b, c)) as [[a' b'] c'].
      destruct (take n k) eqn:E'; [|done].
      apply (f_equal length) in E'. rewrite length_take_le in E' by lia. cbn in E'. lia.
Qed.

End Path.

Lemma round4_ge n : (n <= round4 n)%nat.
Proof.
  unfold round4. pose proof (Nat.div_mod (n + 3) 4 ltac:(lia)).
  pose proof (Nat.mod_upper_bound (n + 3) 4 ltac:(lia)). lia.
Qed.

Lemma round4_drop n : (12 <= n)%nat -> round4 n = (12 + round4 (n - 12))%nat.
Proof.
  intros Hn. unfold round4. replace (n + 3)%nat with ((n - 12 + 3) + 3 * 4)%nat by lia.
  rewrite Nat.div_add by lia. lia.
Qed.

Lemma hash_ok addr k n initval :
  Forall byte_ok k -> (round4 n <= length k)%nat ->
  hash addr k (Z.of_nat n) initval = Ok (hash_of (take n k) initval).
Proof.
  intros Hk Hn. unfold hash, hashlittle, hash_of. pose proof (round4_ge n).
  rewrite length_take_le by lia. rewrite Nat2Z.id. set (s := u32 (_ + initval)).
  assert (Hs : state_in (s, s, s)) by (split_and!; apply u32_in).
  assert (Hg : forall n : nat, (n <= n)%nat) by lia.
  assert (Hd : forall n, (12 <= n)%nat -> n = (12 + (n - 12))%nat) by lia.
  destruct (_ =? 0); [|destruct (_ =? 0)].
  - apply (path_ok Blocks32 Tail32 round4); try done;
      [..|apply Tail32_ok|apply round4_ge|apply round4_drop|lia].
    + intros fuel k0 len a b c Hl. cbn. by rewrite (proj2 (Z.ltb_ge _ _) Hl).
    + intros fuel k0 len a b c Hk0 Hl Hlen. cbn [Blocks32]. rewrite (proj2 (Z.ltb_lt _ _) Hlen).
      destruct (Blocks_step k0 Hk0 Hl) as (-> & -> & -> & _). done.
  - apply (path_ok Blocks16 Tail16 (fun n => n)); try done; [..|apply Tail16_ok|lia|lia].
    + intros fuel k0 len a b c Hl. cbn. by rewrite (proj2 (Z.ltb_ge _ _) Hl).
    + intros fuel k0 len a b c Hk0 Hl Hlen. cbn [Blocks16]. rewrite (proj2 (Z.ltb_lt _ _) Hlen).
      destruct (Blocks_step k0 Hk0 Hl) as (_ & _ & _ & -> & -> & ->). done.
  - apply (path_ok Blocks8 Tail8 (fun n => n)); try done; [..|apply Tail8_ok|lia|lia].
    + intros fuel k0 len a b c Hl. cbn. by rewrite (proj2 (Z.ltb_ge _ _) Hl).
    + intros fuel k0 len a b c Hk0 Hl Hlen. cbn [Blocks8]. rewrite (proj2 (Z.ltb_lt _ _) Hlen).
      repeat first [rewrite bind_ret_l | rewrite add8_ok by lia].
      by rewrite <- (add8_word k0 a 0), <- (add8_word k0 b 1), <- (add8_word k0 c 2).
Qed.

Lemma hashsize_pow n : 0 <= n < 32 -> hashsize n = 2 ^ n.
Proof.
  intros Hn. unfold hashsize. rewrite Z.shiftl_mul_pow2, Z.mul_1_l by lia. apply u32_small.
  split; [apply Z.pow_nonneg; lia|]. apply Z.pow_lt_mono_r; lia.
Qed.

(** [h & hashmask(n)] is a bucket number. *)
Lemma hashmask_land h n : 0 <= n < 32 -> Z.land h (hashmask n) = h mod 2 ^ n.
Proof.
  intros Hn. unfold hashmask. rewrite hashsize_pow by lia.
  rewrite u32_small.
  - replace (2 ^ n - 1) with (Z.ones n) by (rewrite Z.ones_equiv; lia). apply Z.land_ones. lia.
  - pose proof (Z.pow_pos_nonneg 2 n). pose proof (Z.pow_lt_mono_r 2 n 32). lia.
Qed.

(** ** Property *)

(** C34: whatever the alignment of the pointer, [hash] of a key is the same
    function of the key's bytes and the seed; bytes after the key that share
    its last word do not matter. *)
Theorem hash_alignment_independent addr k n initval :
  Forall byte_ok k -> (round4 n <= length k)%nat ->
  hash addr k (Z.of_nat n) initval = Ok (hash_of (take n k) initval).
Proof. apply hash_ok. Qed.

Lemma hash_alignment_independent_witness :
  hash 1001 (str "foo/1xyzabcdefgh") (Z.of_nat 13) 7 = Ok (hash_of (str "foo/1xyzabcde") 7).
Proof.
  apply (hash_alignment_independent 1001 (str "foo/1xyzabcdefgh") 13 7); [|cbn; lia].
  repeat constructor; unfold byte_ok; cbn; lia.
Defined.

(** The published test value of the function. *)
Example hash_of_published :
  hash_of (str "Four score and seven years ago") 0 = 0x17770551 /\
  hash 4096 (str "Four score and seven years ago..") 30 1 = Ok 0xcd628161.
Proof. split; vm_compute; reflexivity. Qed.
