(* ===== verification/HashTable.v ===== *)
(** * Hash tables (src/lib/tmpl/hashtable-impl.h, hashtable-decl.h)

    Chained hash tables whose links live inside the values: a value is an
    address, [links] is the memory of the link fields, a chain is a singly linked
    list with a pointer back to the pointer that points to the value.  The table
    doubles when it is three quarters full.  The table implements a finite map
    from keys to values, through any number of expansions. *)

From S2P Require Import Prelude CLib Memory Hash.

(** ** Data *)

(** What [pprev] points to: a bucket, or the [next] field of a value. *)
Inductive link_ptr : Type := PBucket (i : nat) | PNext (v : Z).

Record HT_Link_t : Type := HTLink {
  next : Z;
  pprev : link_ptr;
  key : keyref
}.

Record HT_t : Type := HT {
  self : Z;
  power : Z;
  count : Z;
  buckets : list Z;
  links : gmap Z HT_Link_t
}.

Record HT_Iter_t : Type := HTIter {
  it_bucket : nat;
  it_next : Z
}.

Definition HT_INITIAL_POWER : Z := 10.

(** ** Operations *)

(** [None] when the allocation of the buckets fails. *)
Definition HT_Init (self : Z) (calloc_ok : bool) (mem : gmap Z HT_Link_t) : option HT_t :=
  if calloc_ok
  then Some (HT self HT_INITIAL_POWER 0 (replicate (Z.to_nat (hashsize HT_INITIAL_POWER)) 0) mem)
  else None.

Definition HT_GetBucket (ht : HT_t) (k : keyref) : res nat :=
  let seed := u32 (self ht) in
  h ← hash (kr_addr k) (kr_mem k) (Z.of_nat (kr_len k)) seed;
  let nBucket := s32 (Z.land h (hashmask (power ht))) in
  if nBucket <? 0 then Fault OutOfBounds else Ok (Z.to_nat nBucket).

(** [*bucket] *)
Definition load (ht : HT_t) (i : nat) : res Z :=
  match buckets ht !! i with Some p => Ok p | None => Fault OutOfBounds end.

Definition HT_KeyCmp (link : HT_Link_t) (k : keyref) : bool :=
  (kr_len (key link) =? kr_len k)%nat && mem_eqb (kbytes (key link)) (kbytes k).

(** Follow the chain from [link]. *)
Fixpoint GetLoop (fuel : nat) (ht : HT_t) (link : Z) (k : keyref) : res (option Z) :=
  match fuel with
  | O => Fault NoFuel
  | S fuel =>
    if link =? 0 then Ok None
    else
      l ← deref (links ht !! link);
      if HT_KeyCmp l k then Ok (Some link) else GetLoop fuel ht (next l) k
  end.

(** A chain has at most one turn per value in memory, and one to stop. *)
Definition HT_Get (ht : HT_t) (k : keyref) : res (option Z) :=
  i ← HT_GetBucket ht k;
  link ← load ht i;
  GetLoop (S (size (links ht))) ht link k.

(** The lines that put [value] at the front of bucket [i], the same in
    [HT_Insert] and [HT_Expand]. *)
Definition LinkIn (ht : HT_t) (i : nat) (value : Z) (k : keyref) : res HT_t :=
  head ← load ht i;
  ls ← (if head =? 0 then Ok (links ht)
        else h ← deref (links ht !! head);
             Ok (<[head := HTLink (next h) (PNext value) (key h)]> (links ht)));
  Ok (HT (self ht) (power ht) (count ht) (<[i := value]> (buckets ht))
        (<[value := HTLink head (PBucket i) k]> ls)).

Fixpoint ExpandChain (fuel : nat) (ht : HT_t) (link : Z) : res HT_t :=
  match fuel with
  | O => Fault NoFuel
  | S fuel =>
    if link =? 0 then Ok ht
    else
      l ← deref (links ht !! link);
      i ← HT_GetBucket ht (key l);
      ht ← LinkIn ht i link (key l);
      ExpandChain fuel ht (next l)
  end.

Fixpoint ExpandLoop (ht : HT_t) (old : list Z) : res HT_t :=
  match old with
  | [] => Ok ht
  | link :: old =>
    ht ← ExpandChain (S (size (links ht))) ht link;
    ExpandLoop ht old
  end.

Definition HT_Expand (ht : HT_t) (calloc_ok : bool) : res HT_t :=
  let old := buckets ht in
  if negb calloc_ok then Fault PanicCall
  else
    let new := replicate (Z.to_nat (hashsize (power ht + 1))) 0 in
    ExpandLoop (HT (self ht) (power ht + 1) (count ht) new (links ht)) old.

(** With [PARANOID]; [calloc_ok] is the outcome of the allocation in [HT_Expand]. *)
Definition HT_Insert (ht : HT_t) (value : Z) (k : keyref) (calloc_ok : bool) : res HT_t :=
  i ← HT_GetBucket ht k;
  link ← load ht i;
  found ← GetLoop (S (size (links ht))) ht link k;
  match found with
  | Some _ => Fault PanicCall
  | None =>
    ht ← LinkIn ht i value k;
    let ht := HT (self ht) (power ht) (count ht + 1) (buckets ht) (links ht) in
    if hashsize (power ht) * 3 <? count ht * 4 then HT_Expand ht calloc_ok else Ok ht
  end.

Definition HT_Unlink (ht : HT_t) (value : Z) : res HT_t :=
  l ← deref (links ht !! value);
  match pprev l with
  | PBucket i =>
    load ht i;;
    Ok (HT (self ht) (power ht) (count ht - 1) (<[i := next l]> (buckets ht)) (links ht))
  | PNext v =>
    p ← deref (links ht !! v);
    Ok (HT (self ht) (power ht) (count ht - 1) (buckets ht)
          (<[v := HTLink (next l) (pprev p) (key p)]> (links ht)))
  end.

(** The buckets are freed; a table that is not empty is refused. *)
Definition HT_Release (ht : HT_t) : res HT_t :=
  if negb (count ht =? 0) then Fault PanicCall
  else Ok (HT (self ht) (power ht) 0 [] (links ht)).

(** The number of elements and the footprint; [sizes] are those of the table,
    of a pointer and of a value. *)
Definition HT_Size (ht : HT_t) (sizeof_ht sizeof_ptr sizeof_value : Z) : Z * Z :=
  (count ht, u64 (sizeof_ht + hashsize (power ht) * sizeof_ptr + count ht * MALLOC_SIZE sizeof_value)).

(** [while ( !( *bucket) && bucket < end) ++bucket;] reads before it compares. *)
Fixpoint IterScan (fuel : nat) (ht : HT_t) (i : nat) : res nat :=
  match fuel with
  | O => Fault NoFuel
  | S fuel =>
    p ← load ht i;
    if (p =? 0) && (Z.of_nat i <? hashsize (power ht)) then IterScan fuel ht (i + 1) else Ok i
  end.

Definition HT_Iter (ht : HT_t) : res HT_Iter_t :=
  i ← IterScan (S (length (buckets ht))) ht 0;
  if Z.of_nat i =? hashsize (power ht) then Ok (HTIter i 0)
  else p ← load ht i; Ok (HTIter i p).

(** [do { ++bucket; } while (bucket < end && !( *bucket));] *)
Fixpoint NextBucket (fuel : nat) (ht : HT_t) (i : nat) : res nat :=
  match fuel with
  | O => Fault NoFuel
  | S fuel =>
    let i := (i + 1)%nat in
    if Z.of_nat i <? hashsize (power ht) then
      p ← load ht i;
      if p =? 0 then NextBucket fuel ht i else Ok i
    else Ok i
  end.

Definition HT_IterNext (ht : HT_t) (iter : HT_Iter_t) : res (HT_Iter_t * option Z) :=
  let res := it_next iter in
  if res =? 0 then Ok (iter, None)
  else
    l ← deref (links ht !! res);
    if next l =? 0 then
      i ← NextBucket (S (length (buckets ht))) ht (it_bucket iter);
      n ← (if Z.of_nat i <? hashsize (power ht) then load ht i else Ok 0);
      Ok (HTIter i n, Some res)
    else Ok (HTIter (it_bucket iter) (next l), Some res).

(** The loop of the clients: [HT_IterNext] until it returns NULL. *)
Fixpoint IterAll (fuel : nat) (ht : HT_t) (iter : HT_Iter_t) : res (list Z) :=
  match fuel with
  | O => Fault NoFuel
  | S fuel =>
    '(iter, v) ← HT_IterNext ht iter;
    match v with
    | None => Ok []
    | Some v => vs ← IterAll fuel ht iter; Ok (v :: vs)
    end
  end.

(** [Store_ClearStats] of server/store.c, on the table of the class statistics. *)
Fixpoint ClearLoop (fuel : nat) (classStats : HT_t) (it : HT_Iter_t) : res HT_t :=
  match fuel with
  | O => Fault NoFuel
  | S fuel =>
    '(it, stats) ← HT_IterNext classStats it;
    match stats with
    | None => Ok classStats
    | Some stats =>
      classStats ← HT_Unlink classStats stats;
      ClearLoop fuel classStats it
    end
  end.

Definition ClearStats (fuel : nat) (classStats : HT_t) : res HT_t :=
  it ← HT_Iter classStats;
  ClearLoop fuel classStats it.

(** ** Meaning *)

(** The bucket of a key. *)
Definition home (self power : Z) (k : keyref) : nat :=
  Z.to_nat (hash_of (kbytes k) (u32 self) mod 2 ^ power).

(** The chain from pointer [p], which is stored at [pp]. *)
Fixpoint chain (ls : gmap Z HT_Link_t) (pp : link_ptr) (p : Z) (l : list Z) : Prop :=
  match l with
  | [] => p = 0
  | x :: l => p = x /\ x <> 0 /\
      exists lk, ls !! x = Some lk /\ pprev lk = pp /\ chain ls (PNext x) (next lk) l
  end.

(** [cs] are the chains of the buckets. *)
Record chains_ok (t : HT_t) (cs : list (list Z)) : Prop := {
  co_power : 0 <= power t < 31;
  co_length : length (buckets t) = Z.to_nat (2 ^ power t);
  co_chains : length cs = length (buckets t);
  co_chain i l p : cs !! i = Some l -> buckets t !! i = Some p -> chain (links t) (PBucket i) p l;
  co_nodup : NoDup (concat cs);
  co_home i l x lk : cs !! i = Some l -> x ∈ l -> links t !! x = Some lk ->
    keyref_ok (key lk) /\ home (self t) (power t) (key lk) = i
}.

(** The key bytes of the value at [x]. *)
Definition key_of (t : HT_t) (x : Z) : option (list Z) := kbytes ∘ key <$> links t !! x.

Record is_table (t : HT_t) (cs : list (list Z)) : Prop := {
  it_chains : chains_ok t cs;
  it_keys x y : x ∈ concat cs -> y ∈ concat cs -> key_of t x = key_of t y -> x = y;
  it_count : count t = Z.of_nat (length (concat cs))
}.

(** ** The contract: a finite map from the bytes of keys to values *)

Inductive op : Type :=
| InsertOp (value : Z) (k : keyref)
| GetOp (k : keyref)
| SizeOp.

Inductive answer : Type := Inserted | Found (value : option Z) | Count (n : Z).

Fixpoint table_run (ht : HT_t) (ops : list op) : res (list answer) :=
  match ops with
  | [] => Ok []
  | InsertOp value k :: ops =>
    ht ← HT_Insert ht value k true;
    rest ← table_run ht ops;
    Ok (Inserted :: rest)
  | GetOp k :: ops =>
    v ← HT_Get ht k;
    rest ← table_run ht ops;
    Ok (Found v :: rest)
  | SizeOp :: ops =>
    rest ← table_run ht ops;
    Ok (Count (HT_Size ht 16 8 0).1 :: rest)
  end.

(** The same calls on a map; a key that is present stops the process. *)
Fixpoint map_run (m : gmap (list Z) Z) (ops : list op) : res (list answer) :=
  match ops with
  | [] => Ok []
  | InsertOp value k :: ops =>
    match m !! kbytes k with
    | Some _ => Fault PanicCall
    | None => rest ← map_run (<[kbytes k := value]> m) ops; Ok (Inserted :: rest)
    end
  | GetOp k :: ops => rest ← map_run m ops; Ok (Found (m !! kbytes k) :: rest)
  | SizeOp :: ops => rest ← map_run m ops; Ok (Count (Z.of_nat (size m)) :: rest)
  end.

(** The values that are inserted, and the keys of the calls. *)
Definition op_values (ops : list op) : list Z :=
  omap (fun o => match o with InsertOp v _ => Some v | _ => None end) ops.

Definition op_ok (o : op) : Prop :=
  match o with
  | InsertOp v k => v <> 0 /\ keyref_ok k
  | GetOp k => keyref_ok k
  | SizeOp => True
  end.

(** ** Chains *)

Lemma chain_in ls pp p l x : chain ls pp p l -> x ∈ l -> x <> 0 /\ is_Some (ls !! x).
Proof.
  revert pp p. induction l as [|y l IH]; intros pp p; [by intros _ ?%elem_of_nil|].
  cbn. intros (-> & Hne & lk & Hlk & _ & Hc) [->|Hx]%elem_of_cons; [by rewrite Hlk|].
  by eapply IH.
Qed.

(** Chains only depend on the links of their values. *)
Lemma chain_ext ls ls' pp p l :
  (forall x, x ∈ l -> ls' !! x = ls !! x) -> chain ls pp p l -> chain ls' pp p l.
Proof.
  revert pp p. induction l as [|y l IH]; intros pp p Hx; [done|]. cbn.
  intros (-> & Hne & lk & Hlk & Hp & Hc). split_and!; [done|done|]. exists lk.
  rewrite Hx by (by left). split_and!; [done|done|]. apply IH; [|done]. intros z Hz. apply Hx. by right.
Qed.

Lemma concat_lookup {A} (cs : list (list A)) i l x : cs !! i = Some l -> x ∈ l -> x ∈ concat cs.
Proof.
  intros Hi Hx. apply list_elem_of_In, in_concat. exists l. split.
  - apply list_elem_of_In. by eapply list_elem_of_lookup_2.
  - by apply list_elem_of_In.
Qed.

Lemma concat_elem {A} (cs : list (list A)) x : x ∈ concat cs -> exists i l, cs !! i = Some l /\ x ∈ l.
Proof.
  intros Hx%list_elem_of_In. apply in_concat in Hx as (l & Hl & Hx).
  apply list_elem_of_In, list_elem_of_lookup in Hl as [i Hi]. exists i, l.
  split; [done|]. by apply list_elem_of_In.
Qed.

Lemma concat_replicate_nil {A} n : concat (replicate n (@nil A)) = [].
Proof. by induction n. Qed.

(** The rest of the chains, when one is set aside. *)
Lemma concat_insert {A} (cs : list (list A)) i l l' :
  cs !! i = Some l -> exists r, concat cs ≡ₚ l ++ r /\ concat (<[i := l']> cs) ≡ₚ l' ++ r.
Proof.
  intros Hi. exists (concat (take i cs) ++ concat (drop (S i) cs)).
  assert (i < length cs)%nat by (by eapply lookup_lt_Some). split.
  - rewrite <- (take_drop_middle cs i l Hi) at 1. rewrite concat_app. cbn.
    rewrite !(assoc_L (++)). f_equiv. apply Permutation_app_comm.
  - rewrite insert_take_drop by done. rewrite concat_app. cbn.
    rewrite !(assoc_L (++)). f_equiv. apply Permutation_app_comm.
Qed.

Lemma concat_disjoint {A} (cs : list (list A)) i j l l' x :
  NoDup (concat cs) -> cs !! i = Some l -> cs !! j = Some l' -> i <> j -> x ∈ l -> x ∉ l'.
Proof.
  intros Hn Hi Hj Hne Hx Hx'. destruct (concat_insert cs i l [] Hi) as (r & E1 & E2).
  rewrite E1 in Hn. apply NoDup_app in Hn as (_ & Hd & _). apply (Hd x Hx).
  assert (Hin : x ∈ concat (<[i := []]> cs)).
  { eapply concat_lookup; [rewrite list_lookup_insert_ne by done; exact Hj|done]. }
  by rewrite E2 in Hin.
Qed.

(** ** Lookup *)

Lemma GetBucket_ok t k :
  0 <= power t < 31 -> keyref_ok k -> HT_GetBucket t k = Ok (home (self t) (power t) k).
Proof.
  intros Hp [Hk1 Hk2]. unfold HT_GetBucket, home. rewrite hash_ok by done. rewrite bind_ret_l.
  fold (kbytes k). rewrite hashmask_land by lia.
  assert (0 < 2 ^ power t) by (apply Z.pow_pos_nonneg; lia).
  assert (2 ^ power t < 2 ^ 31) by (apply Z.pow_lt_mono_r; lia).
  pose proof (Z.mod_pos_bound (hash_of (kbytes k) (u32 (self t))) (2 ^ power t)).
  cbv zeta. rewrite s32_small by lia. by rewrite (proj2 (Z.ltb_ge _ _)) by lia.
Qed.

Lemma home_lt t cs k : chains_ok t cs -> (home (self t) (power t) k < length (buckets t))%nat.
Proof.
  intros HC. rewrite (co_length _ _ HC). pose proof (co_power _ _ HC). unfold home.
  assert (0 < 2 ^ power t) by (apply Z.pow_pos_nonneg; lia).
  pose proof (Z.mod_pos_bound (hash_of (kbytes k) (u32 (self t))) (2 ^ power t)). lia.
Qed.

(** A bucket, with its pointer and its chain. *)
Lemma bucket_ok t cs i :
  chains_ok t cs -> (i < length (buckets t))%nat ->
  exists p l, load t i = Ok p /\ buckets t !! i = Some p /\ cs !! i = Some l /\
    chain (links t) (PBucket i) p l.
Proof.
  intros HC Hi. destruct (lookup_lt_is_Some_2 (buckets t) i Hi) as [p Hp].
  destruct (lookup_lt_is_Some_2 cs i) as [l Hl]; [by rewrite (co_chains _ _ HC)|].
  exists p, l. unfold load. rewrite Hp. split_and!; try done. by apply (co_chain _ _ HC i).
Qed.

Lemma KeyCmp_ok lk k : keyref_ok (key lk) -> keyref_ok k ->
  HT_KeyCmp lk k = true <-> kbytes (key lk) = kbytes k.
Proof.
  intros [_ H1] [_ H2]. unfold HT_KeyCmp, mem_eqb. rewrite andb_true_iff, Nat.eqb_eq, bool_decide_eq_true.
  split; [tauto|]. intros E. split; [|done]. apply (f_equal length) in E. unfold kbytes in E.
  pose proof (round4_ge (kr_len k)). pose proof (round4_ge (kr_len (key lk))).
  rewrite !length_take_le in E by lia. done.
Qed.

Lemma GetLoop_ok t fuel pp p l k :
  chain (links t) pp p l -> (length l < fuel)%nat -> keyref_ok k ->
  (forall x lk, x ∈ l -> links t !! x = Some lk -> keyref_ok (key lk)) ->
  exists r, GetLoop fuel t p k = Ok r /\
    match r with
    | Some x => x ∈ l /\ key_of t x = Some (kbytes k)
    | None => forall x, x ∈ l -> key_of t x <> Some (kbytes k)
    end.
Proof.
  intros Hc Hf Hk. revert pp p fuel Hc Hf. induction l as [|x l IH]; intros pp p [|fuel] Hc Hf Hok; cbn in Hf; try lia.
  - cbn in Hc. subst p. exists None. split; [done|]. by intros x ?%elem_of_nil.
  - destruct Hc as (-> & Hne & lk & Hlk & Hp & Hc). cbn [GetLoop].
    rewrite (proj2 (Z.eqb_neq x 0)) by done. rewrite Hlk. cbn [deref]. rewrite bind_ret_l.
    pose proof (KeyCmp_ok lk k (Hok x lk ltac:(by left) Hlk) Hk) as HK.
    destruct (HT_KeyCmp lk k).
    + exists (Some x). split; [done|]. split; [by left|]. unfold key_of. rewrite Hlk. cbn.
      f_equal. by apply HK.
    + destruct (IH (PNext x) (next lk) fuel) as (r & -> & Hr); [done|lia|intros; eapply Hok; [by right|done]|].
      exists r. split; [done|]. destruct r as [y|].
      * split; [right|]; apply Hr.
      * intros y [->|Hy]%elem_of_cons; [|by apply Hr]. unfold key_of. rewrite Hlk. cbn.
        intros [= E]. by apply HK in E.
Qed.

(** Chains are short enough for the fuel. *)
Lemma chain_size ls pp p l : chain ls pp p l -> NoDup l -> (length l <= size ls)%nat.
Proof.
  intros Hc Hn. rewrite <- (size_dom (D := gset Z)), <- (size_list_to_set (C := gset Z) l Hn).
  apply subseteq_size. intros x. rewrite elem_of_list_to_set, elem_of_dom. intros Hx. by eapply chain_in.
Qed.

Lemma chain_nodup t cs i l : chains_ok t cs -> cs !! i = Some l -> NoDup l.
Proof.
  intros HC Hi. destruct (concat_insert cs i l [] Hi) as (r & E & _).
  pose proof (co_nodup _ _ HC) as Hn. rewrite E in Hn. apply NoDup_app in Hn. apply Hn.
Qed.

(** The search in the bucket of the key finds the value with the key. *)
Lemma search_ok t cs k :
  chains_ok t cs -> keyref_ok k ->
  exists p r, load t (home (self t) (power t) k) = Ok p /\
    GetLoop (S (size (links t))) t p k = Ok r /\
    match r with
    | Some x => x ∈ concat cs /\ key_of t x = Some (kbytes k)
    | None => forall x, x ∈ concat cs -> key_of t x <> Some (kbytes k)
    end.
Proof.
  intros HC Hk. destruct (bucket_ok t cs _ HC (home_lt t cs k HC)) as (p & l & Hld & _ & Hl & Hc).
  pose proof (chain_size _ _ _ _ Hc (chain_nodup _ _ _ _ HC Hl)).
  destruct (GetLoop_ok t (S (size (links t))) (PBucket (home (self t) (power t) k)) p l k) as (r & Hr & Hspec);
    [done|lia|done|intros; by eapply (co_home _ _ HC)|].
  exists p, r. split_and!; [done|done|]. destruct r as [x|].
  - split; [|apply Hspec]. eapply concat_lookup; [done|apply Hspec].
  - intros x Hx Hkx. destruct (concat_elem _ _ Hx) as (j & l' & Hj & Hx').
    unfold key_of in Hkx. destruct (links t !! x) as [lk|] eqn:Hlk; [|done]. cbn in Hkx.
    destruct (co_home _ _ HC j l' x lk Hj Hx' Hlk) as [_ Hh].
    injection Hkx as Hkx. unfold home in Hl, Hh. rewrite Hkx in Hh. rewrite Hh, Hj in Hl.
    injection Hl as ->. apply (Hspec x Hx'). unfold key_of. rewrite Hlk. cbn. by f_equal.
Qed.

(** ** Linking a value in *)

Definition same_keys (t t' : HT_t) : Prop :=
  forall x, key <$> links t' !! x = key <$> links t !! x.

Definition same_shape (t t' : HT_t) : Prop :=
  self t' = self t /\ power t' = power t /\ count t' = count t.

(** The write to the [pprev] of the first value of the chain. *)
Lemma repoint_ok ls pp pp' p l :
  chain ls pp p l -> NoDup l ->
  exists ls', (if p =? 0 then Ok ls
       else h ← deref (ls !! p); Ok (<[p := HTLink (next h) pp' (key h)]> ls)) = Ok ls' /\
    chain ls' pp' p l /\ (forall x, key <$> ls' !! x = key <$> ls !! x) /\
    (forall x, x ∉ l -> ls' !! x = ls !! x).
Proof.
  destruct l as [|y l]; cbn [chain].
  - intros -> _. exists ls. by rewrite Z.eqb_refl.
  - intros (-> & Hne & lk & Hlk & _ & Hc) [Hy Hn]%NoDup_cons.
    rewrite (proj2 (Z.eqb_neq y 0)), Hlk by done. cbn [deref]. rewrite bind_ret_l.
    eexists. split; [done|]. split_and!.
    + done.
    + done.
    + eexists. rewrite lookup_insert_eq. split_and!; [done|done|]. eapply chain_ext; [|done].
      intros x Hx. apply lookup_insert_ne. by intros ->.
    + intros x. destruct (decide (x = y)) as [->|]; [by rewrite lookup_insert_eq, Hlk|].
      by rewrite lookup_insert_ne.
    + intros x Hx. apply lookup_insert_ne. intros ->. apply Hx. by left.
Qed.

Lemma LinkIn_ok t cs value k :
  chains_ok t cs -> value <> 0 -> value ∉ concat cs -> keyref_ok k ->
  exists t' cs', LinkIn t (home (self t) (power t) k) value k = Ok t' /\ chains_ok t' cs' /\
    concat cs' ≡ₚ value :: concat cs /\ same_shape t t' /\
    key <$> links t' !! value = Some k /\
    (forall x, x <> value -> key <$> links t' !! x = key <$> links t !! x) /\
    (forall x, x ∉ value :: concat cs -> links t' !! x = links t !! x).
Proof.
  intros HC Hv0 Hv Hk. set (i := home (self t) (power t) k).
  destruct (bucket_ok t cs i HC (home_lt t cs k HC)) as (p & l & Hld & Hp & Hl & Hc).
  pose proof (chain_nodup _ _ _ _ HC Hl) as Hn.
  assert (Hvl : forall j l', cs !! j = Some l' -> value ∉ l').
  { intros j l' Hj Hx. apply Hv. by eapply concat_lookup. }
  destruct (repoint_ok (links t) _ (PNext value) p l Hc Hn) as (ls & Hls & Hc' & Hkeys & Hoth).
  unfold LinkIn. rewrite Hld, bind_ret_l, Hls, bind_ret_l.
  destruct (concat_insert cs i l (value :: l) Hl) as (r & E1 & E2).
  eexists _, (<[i := value :: l]> cs). split; [done|]. cbn [links self power count].
  assert (Hlt : (i < length cs)%nat) by (by eapply lookup_lt_Some).
  assert (Hperm : concat (<[i := value :: l]> cs) ≡ₚ value :: concat cs) by (by rewrite E1, E2).
  assert (Hk' : forall x, x <> value ->
    key <$> <[value := HTLink p (PBucket i) k]> ls !! x = key <$> links t !! x).
  { intros x Hx. by rewrite lookup_insert_ne, Hkeys by done. }
  split_and!; [|done|done|by rewrite lookup_insert_eq|done|].
  2:{ intros x Hx. rewrite lookup_insert_ne by (intros ->; apply Hx; by left). apply Hoth.
      intros Hx'. apply Hx. right. by eapply concat_lookup. }
  constructor; cbn [power self buckets links].
  - apply HC.
  - rewrite length_insert. apply HC.
  - rewrite !length_insert. apply HC.
  - intros j l' q Hj Hq. destruct (decide (j = i)) as [->|Hji].
    + rewrite list_lookup_insert_eq in Hj by done. rewrite list_lookup_insert_eq in Hq
        by (by rewrite <- (co_chains _ _ HC)). injection Hj as <-. injection Hq as <-.
      cbn [chain]. split_and!; [done|done|]. eexists. rewrite lookup_insert_eq.
      split_and!; [done|done|]. cbn [next]. eapply chain_ext; [|done].
      intros x Hx. apply lookup_insert_ne. intros ->. by apply (Hvl i l).
    + rewrite list_lookup_insert_ne in Hj by done. rewrite list_lookup_insert_ne in Hq by done. eapply chain_ext; [|by apply (co_chain _ _ HC)].
      intros x Hx. rewrite lookup_insert_ne by (intros ->; by apply (Hvl j l')). apply Hoth.
      apply (concat_disjoint cs j i l' l x); try done. apply HC.
  - rewrite Hperm. constructor; [done|]. apply HC.
  - intros j l' x lk Hj Hx Hlk. destruct (decide (x = value)) as [->|Hxv].
    + rewrite lookup_insert_eq in Hlk. injection Hlk as <-. cbn [key]. split; [done|].
      destruct (decide (j = i)) as [|Hji]; [done|]. rewrite list_lookup_insert_ne in Hj by done.
      by destruct (Hvl j l' Hj).
    + specialize (Hk' x Hxv). rewrite Hlk in Hk'. cbn in Hk'. symmetry in Hk'.
      apply fmap_Some in Hk' as (lk0 & Hlk0 & ->).
      destruct (decide (j = i)) as [->|Hji].
      * rewrite list_lookup_insert_eq in Hj by done. injection Hj as <-.
        apply elem_of_cons in Hx as [|Hx]; [done|]. by apply (co_home _ _ HC i l x).
      * rewrite list_lookup_insert_ne in Hj by done. by apply (co_home _ _ HC j l' x).
Qed.

(** ** Growing *)

Lemma ExpandChain_ok fuel t cs pp p l :
  chains_ok t cs -> chain (links t) pp p l -> NoDup (l ++ concat cs) -> (length l < fuel)%nat ->
  (forall x lk, x ∈ l -> links t !! x = Some lk -> keyref_ok (key lk)) ->
  exists t' cs', ExpandChain fuel t p = Ok t' /\ chains_ok t' cs' /\
    concat cs' ≡ₚ l ++ concat cs /\ same_shape t t' /\ same_keys t t' /\
    (forall x, x ∉ l ++ concat cs -> links t' !! x = links t !! x).
Proof.
  revert t cs pp p fuel. induction l as [|y l IH]; intros t cs pp p [|fuel] HC Hc Hn Hf Hk; cbn in Hf; try lia.
  - cbn in Hc. subst p. exists t, cs. done.
  - destruct Hc as (-> & Hne & lk & Hlk & _ & Hc). cbn [ExpandChain].
    rewrite (proj2 (Z.eqb_neq y 0)), Hlk by done. cbn [deref]. rewrite bind_ret_l.
    pose proof (Hk y lk ltac:(by left) Hlk) as Hky.
    rewrite GetBucket_ok by (try apply HC; done). rewrite bind_ret_l.
    cbn in Hn. apply NoDup_cons in Hn as [Hy Hn]. rewrite elem_of_app in Hy.
    destruct (LinkIn_ok t cs y (key lk)) as (t1 & cs1 & -> & HC1 & Hp1 & Hs1 & Hv1 & Hk1 & Ho1); try done; [tauto|].
    rewrite bind_ret_l.
    assert (Hl1 : forall x, x ∈ l -> links t1 !! x = links t !! x).
    { intros x Hx. apply Ho1. intros [->|Hx']%elem_of_cons; [tauto|].
      apply NoDup_app in Hn as (_ & Hd & _). by apply (Hd x). }
    destruct (IH t1 cs1 (PNext y) (next lk) fuel) as (t2 & cs2 & -> & HC2 & Hp2 & Hs2 & Hk2 & Ho2).
    + done.
    + by eapply chain_ext.
    + rewrite Hp1, <- Permutation_middle. constructor; [|done]. rewrite elem_of_app. tauto.
    + lia.
    + intros x lk' Hx. rewrite (Hl1 x Hx). apply Hk. by right.
    + exists t2, cs2. split; [done|]. split; [done|].
      split; [by rewrite Hp2, Hp1, <- Permutation_middle|].
      split; [unfold same_shape in *; intuition congruence|]. split.
      * intros x. rewrite Hk2. destruct (decide (x = y)) as [->|]; [by rewrite Hv1, Hlk|by apply Hk1].
      * intros x Hx. rewrite !elem_of_app, elem_of_cons in Hx.
        rewrite Ho2, Ho1; [done|rewrite elem_of_cons; tauto|].
        rewrite elem_of_app, Hp1, elem_of_cons. tauto.
Qed.

Lemma ExpandLoop_ok t cs old ocs :
  chains_ok t cs -> Forall2 (fun p l => exists pp, chain (links t) pp p l) old ocs ->
  NoDup (concat ocs ++ concat cs) ->
  (forall x lk, x ∈ concat ocs -> links t !! x = Some lk -> keyref_ok (key lk)) ->
  exists t' cs', ExpandLoop t old = Ok t' /\ chains_ok t' cs' /\
    concat cs' ≡ₚ concat ocs ++ concat cs /\ same_shape t t' /\ same_keys t t'.
Proof.
  intros HC HF. revert t cs ocs HC HF. induction old as [|p old IH]; intros t cs ocs HC HF Hn Hk.
  - apply Forall2_nil_inv_l in HF as ->. exists t, cs. done.
  - apply Forall2_cons_inv_l in HF as (l & ocs' & [pp Hc] & HF & ->). cbn [concat] in *.
    rewrite <- (assoc_L (++)) in Hn. pose proof (NoDup_app l (concat ocs' ++ concat cs)) as HN.
    apply HN in Hn as (Hn1 & Hd & Hn2). clear HN.
    assert (Hd' : forall x, x ∈ l -> x ∉ concat ocs' /\ x ∉ concat cs).
    { intros x Hx. specialize (Hd x Hx). rewrite elem_of_app in Hd. tauto. }
    cbn [ExpandLoop]. pose proof (chain_size _ _ _ _ Hc Hn1).
    destruct (ExpandChain_ok (S (size (links t))) t cs pp p l)
      as (t1 & cs1 & -> & HC1 & Hp1 & Hs1 & Hk1 & Ho1); try done; [|lia| |].
    + apply NoDup_app. split_and!; [done|intros x Hx; by apply Hd'|]. by apply NoDup_app in Hn2 as (_ & _ & ?).
    + intros x lk Hx. apply Hk. rewrite elem_of_app. by left.
    + rewrite bind_ret_l.
      assert (Hsame : forall x, x ∈ concat ocs' -> links t1 !! x = links t !! x).
      { intros x Hx. apply Ho1. rewrite elem_of_app. intros [Hx'|Hx']; [by destruct (Hd' x Hx')|].
        apply NoDup_app in Hn2 as (_ & Hd2 & _). by apply (Hd2 x). }
      destruct (IH t1 cs1 ocs') as (t2 & cs2 & -> & HC2 & Hp2 & Hs2 & Hk2).
      * done.
      * apply Forall2_same_length_lookup. split; [exact (Forall2_length _ _ _ HF)|].
        intros j q l' Hq Hl'. destruct (Forall2_lookup_lr _ _ _ _ _ _ HF Hq Hl') as [pp' Hc'].
        exists pp'. eapply chain_ext; [|done]. intros x Hx. apply Hsame. by eapply concat_lookup.
      * rewrite Hp1. rewrite (Permutation_app_comm l), (assoc_L (++)), (Permutation_app_comm _ l).
        apply NoDup_app. split_and!; [done|done|done].
      * intros x lk Hx. rewrite (Hsame x Hx). apply Hk. rewrite elem_of_app. by right.
      * exists t2, cs2. split; [done|]. split; [done|]. split.
        { rewrite Hp2, Hp1. rewrite (assoc_L (++)), (Permutation_app_comm (concat ocs')). done. }
        split; [unfold same_shape in *; intuition congruence|]. intros x. by rewrite Hk2, Hk1.
Qed.

Lemma chains_ok_empty s pw c ls :
  0 <= pw < 31 ->
  chains_ok (HT s pw c (replicate (Z.to_nat (hashsize pw)) 0) ls) (replicate (Z.to_nat (hashsize pw)) []).
Proof.
  intros Hp. rewrite hashsize_pow by lia. constructor; cbn.
  - done.
  - by rewrite length_replicate.
  - by rewrite !length_replicate.
  - intros i l p [-> _]%lookup_replicate [-> _]%lookup_replicate. done.
  - rewrite concat_replicate_nil. constructor.
  - intros i l x lk [-> _]%lookup_replicate Hx. by apply elem_of_nil in Hx.
Qed.

Lemma HT_Expand_ok t cs :
  chains_ok t cs -> power t < 30 ->
  exists t' cs', HT_Expand t true = Ok t' /\ chains_ok t' cs' /\ concat cs' ≡ₚ concat cs /\
    self t' = self t /\ power t' = power t + 1 /\ count t' = count t /\ same_keys t t'.
Proof.
  intros HC Hp. pose proof (co_power _ _ HC). unfold HT_Expand. cbn [negb]. cbv zeta.
  destruct (ExpandLoop_ok (HT (self t) (power t + 1) (count t)
      (replicate (Z.to_nat (hashsize (power t + 1))) 0) (links t))
      (replicate (Z.to_nat (hashsize (power t + 1))) []) (buckets t) cs)
    as (t' & cs' & -> & HC' & Hp' & Hs & Hk).
  - apply chains_ok_empty. lia.
  - apply Forall2_same_length_lookup. split; [symmetry; apply HC|].
    intros i p l Hi Hl. exists (PBucket i). by apply (co_chain _ _ HC).
  - rewrite concat_replicate_nil, app_nil_r. apply HC.
  - cbn. intros x lk Hx Hlk. destruct (concat_elem _ _ Hx) as (i & l & Hi & Hx').
    by eapply (co_home _ _ HC).
  - exists t', cs'. split; [done|]. split; [done|]. rewrite concat_replicate_nil, app_nil_r in Hp'.
    unfold same_shape in Hs. cbn in Hs. intuition.
Qed.

(** ** The table as a finite map *)

(** The values of the table are those of [m], each under its own key. *)
Definition represents (t : HT_t) (m : gmap (list Z) Z) : Prop :=
  exists cs, is_table t cs /\
    forall kb x, m !! kb = Some x <-> x ∈ concat cs /\ key_of t x = Some kb.

(** The table has grown only as far as it had to. *)
Definition grown (t : HT_t) : Prop :=
  power t = HT_INITIAL_POWER \/ HT_INITIAL_POWER < power t /\ 3 * 2 ^ (power t - 1) < 4 * count t.

Lemma same_keys_key_of t t' : same_keys t t' -> forall x, key_of t' x = key_of t x.
Proof. intros H x. unfold key_of. by rewrite !option_fmap_compose, H. Qed.

Lemma grown_power t : grown t -> count t < 2 ^ 28 -> power t < 30.
Proof.
  intros [->|[Hp Hg]] Hc; [unfold HT_INITIAL_POWER; lia|].
  destruct (Z_lt_ge_dec (power t) 30) as [|H]; [done|].
  assert (2 ^ 29 <= 2 ^ (power t - 1)) by (apply Z.pow_le_mono_r; lia). lia.
Qed.

Lemma is_table_perm t t' cs cs' :
  is_table t cs -> chains_ok t' cs' -> concat cs' ≡ₚ concat cs -> count t' = count t -> same_keys t t' ->
  is_table t' cs'.
Proof.
  intros HT HC Hp Hc Hk. constructor; [done| |].
  - intros x y. rewrite !Hp, !(same_keys_key_of t t' Hk). apply (it_keys _ _ HT).
  - rewrite Hp, Hc. apply (it_count _ _ HT).
Qed.

Lemma represents_perm (t t' : HT_t) (cs cs' : list (list Z)) (m : gmap (list Z) Z) :
  (forall kb x, m !! kb = Some x <-> x ∈ concat cs /\ key_of t x = Some kb) ->
  is_table t' cs' -> concat cs' ≡ₚ concat cs -> same_keys t t' -> represents t' m.
Proof.
  intros Hm HT Hp Hk. exists cs'. split; [done|]. intros kb x.
  by rewrite Hp, (same_keys_key_of t t' Hk).
Qed.

Lemma HT_Init_ok s mem : exists t, HT_Init s true mem = Some t /\ represents t ∅ /\ grown t /\ count t = 0.
Proof.
  eexists. split; [reflexivity|]. split_and!; [|by left|done].
  eexists. split.
  - constructor; [apply chains_ok_empty; unfold HT_INITIAL_POWER; lia| |];
      rewrite concat_replicate_nil; [|done]. by intros x y ?%elem_of_nil.
  - intros kb x. rewrite concat_replicate_nil, lookup_empty. split; [done|].
    by intros [?%elem_of_nil _].
Qed.

Lemma HT_Get_ok t m k : represents t m -> keyref_ok k -> HT_Get t k = Ok (m !! kbytes k).
Proof.
  intros (cs & HT & Hm) Hk. pose proof (it_chains _ _ HT) as HC. unfold HT_Get.
  rewrite GetBucket_ok by (try apply HC; done). rewrite bind_ret_l.
  destruct (search_ok t cs k HC Hk) as (p & r & -> & Hr & Hs). rewrite bind_ret_l, Hr. f_equal.
  destruct r as [x|].
  - symmetry. by apply Hm.
  - destruct (m !! kbytes k) as [x|] eqn:E; [|done]. apply Hm in E as [Hx E]. by destruct (Hs x).
Qed.

(** Linking a value under a new key adds it to the map. *)
Lemma add_ok (t t' : HT_t) (cs cs' : list (list Z)) (m : gmap (list Z) Z) v k :
  is_table t cs -> (forall kb x, m !! kb = Some x <-> x ∈ concat cs /\ key_of t x = Some kb) ->
  m !! kbytes k = None -> v ∉ concat cs -> chains_ok t' cs' -> concat cs' ≡ₚ v :: concat cs ->
  count t' = count t + 1 -> key <$> links t' !! v = Some k ->
  (forall x, x <> v -> key <$> links t' !! x = key <$> links t !! x) ->
  is_table t' cs' /\
  forall kb x, <[kbytes k := v]> m !! kb = Some x <-> x ∈ concat cs' /\ key_of t' x = Some kb.
Proof.
  intros HT Hm Hnew Hv HC' Hp Hc Hkv Hk.
  assert (Hkv' : key_of t' v = Some (kbytes k)) by (unfold key_of; by rewrite option_fmap_compose, Hkv).
  assert (Hk' : forall x, x <> v -> key_of t' x = key_of t x).
  { intros x Hx. unfold key_of. by rewrite !option_fmap_compose, Hk. }
  assert (Hdiff : forall x, x ∈ concat cs -> key_of t x <> Some (kbytes k)).
  { intros x Hx E. assert (Hs : m !! kbytes k = Some x) by (by apply Hm). by rewrite Hnew in Hs. }
  assert (Hne : forall x, x ∈ concat cs -> x <> v) by (by intros x Hx ->). split.
  - constructor; [done| |].
    + intros x y. rewrite !Hp, !elem_of_cons. intros [->|Hx] [->|Hy]; [done| | |].
      * rewrite Hkv', Hk' by auto. intros E. by destruct (Hdiff y).
      * rewrite Hkv', Hk' by auto. intros E. by destruct (Hdiff x).
      * rewrite !Hk' by auto. by apply HT.
    + rewrite Hp, Hc, (it_count _ _ HT). cbn. lia.
  - intros kb x. rewrite Hp, elem_of_cons, lookup_insert_Some. destruct (decide (x = v)) as [->|Hxv].
    + rewrite Hkv'. split; [|naive_solver]. intros [[-> _]|[_ [Hx _]%Hm]]; [|done]. split; [by left|done].
    + rewrite Hk' by done. split; [|].
      * intros [[_ ->]|[_ H%Hm]]; [done|]. naive_solver.
      * intros [[->|Hx] E]; [done|]. right. split; [|by apply Hm]. intros <-. by apply (Hdiff x).
Qed.

Lemma HT_Insert_ok t m v k :
  represents t m -> grown t -> count t + 1 < 2 ^ 28 -> keyref_ok k -> v <> 0 ->
  (forall kb, m !! kb <> Some v) ->
  match m !! kbytes k with
  | Some _ => HT_Insert t v k true = Fault PanicCall
  | None => exists t', HT_Insert t v k true = Ok t' /\
      represents t' (<[kbytes k := v]> m) /\ grown t' /\ count t' = count t + 1
  end.
Proof.
  intros (cs & HTb & Hm) Hg Hc Hk Hv0 Hv. pose proof (it_chains _ _ HTb) as HC.
  unfold HT_Insert. rewrite GetBucket_ok by (try apply HC; done). rewrite bind_ret_l.
  destruct (search_ok t cs k HC Hk) as (p & r & -> & Hr & Hs). rewrite bind_ret_l, Hr, bind_ret_l.
  destruct r as [x|]; [rewrite (proj2 (Hm (kbytes k) x)) by done; done|].
  destruct (m !! kbytes k) as [x|] eqn:E; [by apply Hm in E as [Hx ?]; destruct (Hs x)|].
  assert (Hvc : v ∉ concat cs).
  { intros Hx. destruct (concat_elem _ _ Hx) as (i & l & Hi & Hx').
    destruct (bucket_ok t cs i HC) as (q & l' & _ & _ & Hl' & Hch).
    { rewrite <- (co_chains _ _ HC). by eapply lookup_lt_Some. }
    rewrite Hi in Hl'. injection Hl' as <-. destruct (chain_in _ _ _ _ v Hch Hx') as [_ [lk Hlk]].
    apply (Hv (kbytes (key lk))), Hm. split; [done|]. unfold key_of. by rewrite Hlk. }
  destruct (LinkIn_ok t cs v k HC Hv0 Hvc Hk) as (t1 & cs1 & -> & HC1 & Hp1 & (Hs1 & Hs2 & Hs3) & Hkv & Hk1 & _).
  rewrite bind_ret_l. cbn [power count].
  set (t2 := HT (self t1) (power t1) (count t1 + 1) (buckets t1) (links t1)).
  destruct (add_ok t t2 cs cs1 m v k HTb Hm E Hvc) as [HT2 Hm2]; try done.
  { by destruct HC1; constructor. }
  { cbn. lia. }
  rewrite hashsize_pow by (rewrite Hs2; pose proof (co_power _ _ HC); lia).
  case_if.
  - apply Z.ltb_lt in E0. assert (Hpw : power t2 < 30).
    { cbn. rewrite Hs2. apply grown_power; [done|lia]. }
    destruct (HT_Expand_ok t2 cs1 (it_chains _ _ HT2) Hpw) as (t3 & cs3 & -> & HC3 & Hp3 & _ & Hpow & Hcnt & Hk3).
    exists t3. split; [done|]. pose proof (co_power _ _ HC).
    assert (HT_INITIAL_POWER <= power t) by (destruct Hg as [->|[? _]]; lia).
    split_and!; [eapply represents_perm; [done|by eapply is_table_perm|done|done]| |cbn in Hcnt; lia].
    right. rewrite Hpow, Hcnt. cbn [power count t2] in *.
    replace (power t1 + 1 - 1) with (power t1) by lia. rewrite Hs2 in *. lia.
  - exists t2. split; [done|]. split; [by exists cs1|]. split; [|cbn; lia].
    destruct Hg as [Hg|[Hg1 Hg2]]; [left; cbn; lia|right; cbn; rewrite Hs2; split; [done|lia]].
Qed.

(** ** Iteration *)

Lemma chain_nil ls pp p l : chain ls pp p l -> p = 0 <-> l = [].
Proof. destruct l; cbn; [tauto|]. intros (-> & ? & _). split; [tauto|done]. Qed.

Lemma hashsize_length t cs : chains_ok t cs -> hashsize (power t) = Z.of_nat (length (buckets t)).
Proof.
  intros HC. pose proof (co_power _ _ HC). rewrite hashsize_pow, (co_length _ _ HC) by lia.
  assert (0 < 2 ^ power t) by (apply Z.pow_pos_nonneg; lia). lia.
Qed.

Lemma drop_S_app {A} (cs : list (list A)) i l : cs !! i = Some l -> concat (drop i cs) = l ++ concat (drop (S i) cs).
Proof. intros Hi. by rewrite (drop_S cs l i Hi). Qed.

(** The next bucket that is not empty, or the end of the table. *)
Lemma NextBucket_ok t cs fuel i :
  chains_ok t cs -> (length (buckets t) - i < fuel)%nat -> (i < length (buckets t))%nat ->
  exists j p l pp, NextBucket fuel t i = Ok j /\
    (if Z.of_nat j <? hashsize (power t) then load t j else Ok 0) = Ok p /\
    chain (links t) pp p l /\ concat (drop (S i) cs) = l ++ concat (drop (S j) cs) /\
    (l = [] -> concat (drop (S i) cs) = []).
Proof.
  intros HC. rewrite (hashsize_length t cs HC).
  revert i. induction fuel as [|fuel IH]; intros i Hf Hi; [lia|]. cbn [NextBucket]. cbv zeta.
  rewrite (hashsize_length t cs HC). replace (i + 1)%nat with (S i) by lia.
  destruct (Z.of_nat (S i) <? Z.of_nat (length (buckets t))) eqn:E.
  - apply Z.ltb_lt in E. destruct (bucket_ok t cs (S i) HC ltac:(lia)) as (p & l & Hld & _ & Hl & Hc).
    rewrite Hld, bind_ret_l. pose proof (chain_nil _ _ _ _ Hc) as H0.
    rewrite (drop_S_app cs (S i) l Hl). destruct (p =? 0) eqn:Ep.
    + apply Z.eqb_eq in Ep. apply H0 in Ep as ->. cbn [app].
      destruct (IH (S i) ltac:(lia) ltac:(lia)) as (j & q & l' & pp & Hr). by exists j, q, l', pp.
    + apply Z.eqb_neq in Ep. exists (S i), p, l, (PBucket (S i)).
      rewrite (proj2 (Z.ltb_lt _ _)) by lia. split_and!; [done|done|done|done|tauto].
  - apply Z.ltb_ge in E. exists (S i), 0, [], (PBucket 0).
    rewrite (proj2 (Z.ltb_ge _ _)) by lia.
    rewrite !(drop_ge cs) by (rewrite (co_chains _ _ HC); lia). done.
Qed.

Lemma IterAll_ok t cs fuel i pp p l :
  chains_ok t cs -> chain (links t) pp p l -> (i < length (buckets t))%nat \/ l = [] ->
  (l = [] -> concat (drop (S i) cs) = []) ->
  (length (l ++ concat (drop (S i) cs)) < fuel)%nat ->
  IterAll fuel t (HTIter i p) = Ok (l ++ concat (drop (S i) cs)).
Proof.
  intros HC. revert i pp p l. induction fuel as [|fuel IH]; intros i pp p l Hc Hi He Hf; [lia|].
  cbn [IterAll]. unfold HT_IterNext at 1. cbn [it_next it_bucket]. destruct l as [|y l].
  - cbn in Hc. subst p. cbn. by rewrite He.
  - destruct Hi as [Hi|]; [|done]. destruct Hc as (-> & Hne & lk & Hlk & _ & Hc). cbv zeta.
    rewrite (proj2 (Z.eqb_neq y 0)), Hlk by done. cbn [deref]. rewrite bind_ret_l.
    pose proof (chain_nil _ _ _ _ Hc) as H0. cbn in Hf. rewrite length_app in Hf.
    destruct (next lk =? 0) eqn:En.
    + apply Z.eqb_eq in En. apply H0 in En as ->.
      destruct (NextBucket_ok t cs (S (length (buckets t))) i HC ltac:(lia) Hi)
        as (j & q & l' & pp' & -> & Hq & Hc' & Ej & Ee).
      rewrite bind_ret_l, Hq, !bind_ret_l. cbn [app length] in *. rewrite Ej in *.
      rewrite length_app in Hf. erewrite (IH j pp' q l'); [done|done| | |].
      * destruct (Z.of_nat j <? hashsize (power t)) eqn:Ejl.
        -- left. apply Z.ltb_lt in Ejl. rewrite (hashsize_length t cs HC) in Ejl. lia.
        -- right. injection Hq as <-. by apply (chain_nil _ _ _ _ Hc').
      * intros ->. by apply Ee.
      * rewrite length_app. lia.
    + apply Z.eqb_neq in En. rewrite !bind_ret_l.
      erewrite (IH i (PNext y) (next lk) l); [done|done|by left|tauto|]. rewrite length_app. lia.
Qed.

Lemma IterScan_ok t cs fuel i :
  chains_ok t cs -> (length (buckets t) - i < fuel)%nat -> (i <= length (buckets t))%nat ->
  match concat (drop i cs) with
  | [] => IterScan fuel t i = Fault OutOfBounds
  | _ => exists j p l, IterScan fuel t i = Ok j /\ (j < length (buckets t))%nat /\ load t j = Ok p /\
      l <> [] /\ chain (links t) (PBucket j) p l /\ concat (drop i cs) = l ++ concat (drop (S j) cs)
  end.
Proof.
  intros HC. revert i. induction fuel as [|fuel IH]; intros i Hf Hi; [lia|]. cbn [IterScan].
  destruct (decide (i = length (buckets t))) as [->|Hlt].
  - rewrite drop_ge by (by rewrite (co_chains _ _ HC)). cbn [concat]. unfold load.
    by rewrite lookup_ge_None_2.
  - destruct (bucket_ok t cs i HC ltac:(lia)) as (p & l & Hld & _ & Hl & Hc).
    rewrite Hld, bind_ret_l, (drop_S_app cs i l Hl), (hashsize_length t cs HC).
    pose proof (chain_nil _ _ _ _ Hc) as H0. rewrite (proj2 (Z.ltb_lt (Z.of_nat i) _)), andb_true_r by lia.
    destruct (p =? 0) eqn:Ep.
    + apply Z.eqb_eq in Ep. apply H0 in Ep as ->. cbn [app]. replace (i + 1)%nat with (S i) by lia.
      apply IH; lia.
    + apply Z.eqb_neq in Ep. destruct l as [|y l]; [tauto|]. cbn [app].
      exists i, p, (y :: l). split_and!; try done. lia.
Qed.

Lemma HT_Iter_ok t cs :
  chains_ok t cs ->
  match concat cs with
  | [] => HT_Iter t = Fault OutOfBounds
  | _ => exists it, HT_Iter t = Ok it /\ IterAll (S (length (concat cs))) t it = Ok (concat cs)
  end.
Proof.
  intros HC. pose proof (IterScan_ok t cs (S (length (buckets t))) 0 HC ltac:(lia) ltac:(lia)) as H.
  rewrite drop_0 in H. unfold HT_Iter. destruct (concat cs) as [|x xs] eqn:E; [by rewrite H|].
  destruct H as (j & p & l & -> & Hj & Hld & Hne & Hc & Ej). rewrite bind_ret_l.
  rewrite (hashsize_length t cs HC), (proj2 (Z.eqb_neq _ _)) by lia. rewrite Hld, bind_ret_l.
  exists (HTIter j p). split; [done|]. rewrite Ej. eapply IterAll_ok; [done|done|by left|done|lia].
Qed.

(** ** Theorems *)

Lemma represents_values (t : HT_t) (m : gmap (list Z) Z) (cs : list (list Z)) :
  is_table t cs -> (forall kb x, m !! kb = Some x <-> x ∈ concat cs /\ key_of t x = Some kb) ->
  concat cs ≡ₚ (map_to_list m).*2.
Proof.
  intros HT Hm. pose proof (it_chains _ _ HT) as HC. apply NoDup_Permutation.
  - apply HC.
  - apply NoDup_fmap_2_strong; [|apply NoDup_map_to_list].
    intros [k1 x1] [k2 x2] H1%elem_of_map_to_list H2%elem_of_map_to_list. cbn. intros ->.
    apply Hm in H1 as [_ H1]. apply Hm in H2 as [_ H2]. congruence.
  - intros x. rewrite list_elem_of_fmap. split.
    + intros Hx. destruct (concat_elem _ _ Hx) as (i & l & Hi & Hx').
      destruct (bucket_ok t cs i HC) as (p & l' & _ & _ & Hl & Hc).
      { rewrite <- (co_chains _ _ HC). by eapply lookup_lt_Some. }
      rewrite Hi in Hl. injection Hl as <-. destruct (chain_in _ _ _ _ x Hc Hx') as [_ [lk Hlk]].
      exists (kbytes (key lk), x). split; [done|]. apply elem_of_map_to_list, Hm. split; [done|].
      unfold key_of. by rewrite Hlk.
    + intros ([kb y] & -> & Hin%elem_of_map_to_list). by apply Hm in Hin as [? _].
Qed.

Lemma represents_size t m : represents t m -> count t = Z.of_nat (size m).
Proof.
  intros (cs & HT & Hm). rewrite (it_count _ _ HT), (represents_values t m cs HT Hm).
  by rewrite length_fmap, length_map_to_list.
Qed.

Lemma table_run_ok ops t m :
  represents t m -> grown t -> count t + Z.of_nat (length ops) < 2 ^ 28 -> Forall op_ok ops ->
  NoDup (op_values ops) -> (forall kb v, v ∈ op_values ops -> m !! kb <> Some v) ->
  table_run t ops = map_run m ops.
Proof.
  revert t m. induction ops as [|o ops IH]; intros t m Hr Hg Hc Hok Hn Hf; [done|].
  apply Forall_cons in Hok as [Ho Hok]. cbn [length] in Hc. rewrite Nat2Z.inj_succ in Hc.
  destruct o as [v k|k|]; cbn [table_run map_run] in *.
  - cbn in Hn, Hf. apply NoDup_cons in Hn as [Hv Hn].
    pose proof (HT_Insert_ok t m v k Hr Hg ltac:(lia) (proj2 Ho) (proj1 Ho)) as HI.
    specialize (HI ltac:(intros kb; apply Hf; by left)).
    destruct (m !! kbytes k); [by rewrite HI|]. destruct HI as (t' & -> & Hr' & Hg' & Hc').
    rewrite bind_ret_l, (IH t' (<[kbytes k := v]> m)); try done; [lia|].
    intros kb w Hw [[_ ->]|[_ H]]%lookup_insert_Some; [done|]. apply (Hf kb w); [by right|done].
  - rewrite (HT_Get_ok t m k Hr Ho), bind_ret_l. rewrite (IH t m); try done. lia.
  - rewrite (IH t m) by (done || lia). cbn. by rewrite (represents_size t m Hr).
Qed.

(** C33: The hash table is a finite map.  From [HT_Init], any sequence of fewer
    than 2^28 inserts, lookups and size queries, with any number of expansions
    in between and whatever the hash values of the keys, gives the answers that
    the same calls give on a map from key bytes to values, including the panic
    of an insert whose key is present; values have distinct addresses, and keys
    may be read to the end of their last word. *)
Theorem HT_refines_map self mem ops :
  Forall op_ok ops -> NoDup (op_values ops) -> Z.of_nat (length ops) < 2 ^ 28 ->
  exists ht, HT_Init self true mem = Some ht /\ table_run ht ops = map_run ∅ ops.
Proof.
  intros Hok Hn Hl. destruct (HT_Init_ok self mem) as (t & Ht & Hr & Hg & Hc). exists t.
  split; [done|]. apply table_run_ok; try done. lia.
Qed.

Definition ex_k (b : Z) : keyref := KeyRef 4096 [b; 0; 0; 0] 1.

(** Keys 69 and 118 share a bucket. *)
Lemma HT_refines_map_witness :
  exists ht, HT_Init 4096 true ∅ = Some ht /\
    table_run ht [InsertOp 16 (ex_k 69); InsertOp 32 (ex_k 118); GetOp (ex_k 69); SizeOp; GetOp (ex_k 70)] =
      Ok [Inserted; Inserted; Found (Some 16); Count 2; Found None].
Proof.
  apply (HT_refines_map 4096 ∅ [InsertOp 16 (ex_k 69); InsertOp 32 (ex_k 118); GetOp (ex_k 69); SizeOp; GetOp (ex_k 70)]).
  - unfold keyref_ok, op_ok. cbn. repeat constructor; lia.
  - apply (bool_decide_unpack _). vm_compute. exact I.
  - reflexivity.
Defined.

(** Iterating over a table that is not empty returns each of its values
    once and then stops; on an empty table [HT_Iter] reads the word behind the
    bucket array. *)
Lemma HT_Iter_spec t m :
  represents t m ->
  if decide (m = ∅) then HT_Iter t = Fault OutOfBounds
  else exists it vs, HT_Iter t = Ok it /\ IterAll (S (size m)) t it = Ok vs /\ vs ≡ₚ (map_to_list m).*2.
Proof.
  intros (cs & HT & Hm). pose proof (represents_values t m cs HT Hm) as Hp.
  pose proof (HT_Iter_ok t cs (it_chains _ _ HT)) as HI.
  assert (Hsz : length (concat cs) = size m) by (by rewrite Hp, length_fmap, length_map_to_list).
  case_decide as Hem.
  - subst m. rewrite map_size_empty in Hsz. by destruct (concat cs).
  - destruct (concat cs) as [|x xs] eqn:E.
    + cbn in Hsz. symmetry in Hsz. by apply map_size_empty_inv in Hsz.
    + rewrite <- E in *. destruct HI as (it & Hit & Hall). exists it, (concat cs).
      by rewrite <- Hsz.
Qed.

Definition ex_table (ops : list (Z * keyref)) : res HT_t :=
  match HT_Init 4096 true ∅ with
  | Some t => foldl (fun t o => t ← t; HT_Insert t o.1 o.2 true) (Ok t) ops
  | None => Fault NullDeref
  end.

(** [HT_Unlink] leaves the back pointer of the next value of the chain on
    the value that is gone, so [Store_ClearStats] does not empty the table when
    two of its keys share a bucket: the count is 0, and the older of the two
    values is still found. *)
Lemma ClearStats_leaves_value :
  (t ← ex_table [(16, ex_k 69); (32, ex_k 118)];
   t ← ClearStats 10 t;
   a ← HT_Get t (ex_k 69);
   b ← HT_Get t (ex_k 118);
   Ok (count t, a, b)) = Ok (0, Some 16, None).
Proof. vm_compute. reflexivity. Qed.
