(* ===== verification/IOBuf.v ===== *)
(** * I/O buffers (src/lib/iobuf.c, src/lib/iobuf.h, src/lib/iobuf-getput.h)

    FIFO buffers for serialised data.  As in the sources, [buf], [pos], [limit]
    and [capacity] are addresses (64-bit, 0 for NULL) and pointer arithmetic
    wraps at 64 bits.  [io_mem] holds the bytes stored at [buf .. limit); the
    bytes between [limit] and [capacity] are indeterminate and not represented.
    The results of [malloc] and [realloc] are a parameter. *)

From S2P Require Import Prelude CLib.

(** ** Data *)

Definition NESTED_OFFSET_NONE : Z := 2 ^ 32 - 1.
Definition EINVAL : Z := 22.
Definition ENOMEM : Z := 12.
Definition DEFAULT_SIZE : Z := 256.

Record IOBuf_t : Type := IOBuf {
  io_buf : Z;
  io_pos : Z;
  io_limit : Z;
  io_capacity : Z;
  io_error : Z;
  io_nestedOffset : Z;
  io_nestedBound : Z;
  io_fileBacked : bool;
  io_mem : list Z
}.

Definition IOBUF_NULL : IOBuf_t :=
  IOBuf 0 0 0 0 EINVAL NESTED_OFFSET_NONE NESTED_OFFSET_NONE false [].

Definition set_pos (p : Z) (b : IOBuf_t) : IOBuf_t :=
  IOBuf (io_buf b) p (io_limit b) (io_capacity b) (io_error b)
    (io_nestedOffset b) (io_nestedBound b) (io_fileBacked b) (io_mem b).

Definition set_nestedOffset (o : Z) (b : IOBuf_t) : IOBuf_t :=
  IOBuf (io_buf b) (io_pos b) (io_limit b) (io_capacity b) (io_error b)
    o (io_nestedBound b) (io_fileBacked b) (io_mem b).

Definition set_mem (m : list Z) (b : IOBuf_t) : IOBuf_t :=
  IOBuf (io_buf b) (io_pos b) (io_limit b) (io_capacity b) (io_error b)
    (io_nestedOffset b) (io_nestedBound b) (io_fileBacked b) m.

(** The [n] bytes stored at address [p]. *)
Definition read_mem (b : IOBuf_t) (p n : Z) : res (list Z) :=
  if (io_buf b <=? p) && (p + n <=? io_limit b) then
    Ok (take (Z.to_nat n) (drop (Z.to_nat (p - io_buf b)) (io_mem b)))
  else Fault OutOfBounds.

(** ** Creation *)

(** [addr] is what [malloc] returned. *)
Definition IOBuf_Init (addr : Z) : IOBuf_t * bool :=
  if addr =? 0 then (IOBUF_NULL, false)
  else (IOBuf addr addr addr (addr + DEFAULT_SIZE) 0
          NESTED_OFFSET_NONE NESTED_OFFSET_NONE false [], true).

(** A view of [len] bytes at [addr]; [bytes] are the ones that lie there. *)
Definition IOBuf_InitView (addr len : Z) (bytes : list Z) : IOBuf_t * bool :=
  (IOBuf addr addr (u64 (addr + len)) 0 0
     NESTED_OFFSET_NONE NESTED_OFFSET_NONE false bytes, true).

(** [munmap_ok] is the outcome of [munmap] for a file-backed buffer. *)
Definition IOBuf_Release (munmap_ok : bool) (b : IOBuf_t) : res IOBuf_t :=
  if io_fileBacked b then
    if munmap_ok then Ok IOBUF_NULL else Fault PanicCall
  else Ok IOBUF_NULL.

(** ** Positions *)

Definition IOBuf_Error (b : IOBuf_t) : Z := io_error b.

Definition IOBuf_GetPos (b : IOBuf_t) : Z :=
  if negb (io_error b =? 0) then 0 else u32 (io_pos b - io_buf b).

Definition IOBuf_GetLimit (b : IOBuf_t) : Z :=
  if negb (io_error b =? 0) then 0 else u32 (io_limit b - io_buf b).

Definition IOBuf_SetPos (b : IOBuf_t) (p : Z) : res IOBuf_t :=
  let b := set_pos (u64 (io_buf b + u32 p)) b in
  if io_limit b <? io_pos b then Fault PanicCall else Ok b.

Definition IOBuf_Skip (b : IOBuf_t) (count : Z) : res IOBuf_t :=
  IOBuf_SetPos b (u32 (IOBuf_GetPos b + u32 count)).

(** ** Writing *)

Section Writing.

(** [realloc p n]: the address [realloc(p, n)] returns, 0 on failure. *)
Context (realloc : Z -> Z -> Z).

(** [while (newSize < goal) newSize *= 2;] *)
Fixpoint GrowSize (newSize goal : Z) (fuel : nat) : res Z :=
  match fuel with
  | O => Fault NoFuel
  | S fuel =>
    if newSize <? goal then GrowSize (u64 (newSize * 2)) goal fuel else Ok newSize
  end.

(** Returns the buffer and the reserved address, 0 for NULL. *)
Definition IOBuf_Reserve (b : IOBuf_t) (count : Z) : res (IOBuf_t * Z) :=
  if io_capacity b =? 0 then Fault PanicCall
  else if negb (io_error b =? 0) then Ok (b, 0)
  else if io_capacity b <? u64 (io_limit b + count) then
    let curSize := io_capacity b - io_buf b in
    let goal := u64 (io_limit b - io_buf b + count) in
    newSize ← GrowSize (u64 (curSize * 2)) goal 64;
    let newBuf := realloc (io_buf b) newSize in
    if newBuf =? 0 then
      Ok (IOBuf 0 (io_pos b) (io_limit b) (io_capacity b) ENOMEM
            (io_nestedOffset b) (io_nestedBound b) (io_fileBacked b) [], 0)
    else
      let b' := IOBuf newBuf (io_pos b - io_buf b + newBuf)
                  (io_limit b - io_buf b + newBuf) (newBuf + newSize) (io_error b)
                  (io_nestedOffset b) (io_nestedBound b) (io_fileBacked b) (io_mem b) in
      Ok (b', io_limit b')
  else Ok (b, io_limit b).

(** [written] are the bytes the caller has stored at the limit; the C function
    receives their number. *)
Definition IOBuf_MoveLimit (b : IOBuf_t) (written : list Z) : res IOBuf_t :=
  let count := Z.of_nat (length written) in
  if io_capacity b =? 0 then Fault PanicCall
  else if negb (io_error b =? 0) then Ok b
  else if io_capacity b <? u64 (io_limit b + count) then Fault PanicCall
  else Ok (IOBuf (io_buf b) (io_pos b) (io_limit b + count) (io_capacity b) (io_error b)
             (io_nestedOffset b) (io_nestedBound b) (io_fileBacked b) (io_mem b ++ written)).

Definition IOBuf_Shift (b : IOBuf_t) : res IOBuf_t :=
  '(b, _) ← IOBuf_Reserve b 0;
  if negb (io_nestedOffset b =? NESTED_OFFSET_NONE) then Fault PanicCall
  else
    let consumed := io_pos b - io_buf b in
    Ok (IOBuf (io_buf b) (io_buf b) (io_limit b - consumed) (io_capacity b) (io_error b)
          (io_nestedOffset b) (io_nestedBound b) (io_fileBacked b)
          (drop (Z.to_nat consumed) (io_mem b))).

Definition IOBuf_PutBytes (b : IOBuf_t) (bytes : list Z) : res IOBuf_t :=
  '(b, dest) ← IOBuf_Reserve b (Z.of_nat (length bytes));
  if dest =? 0 then Ok b else IOBuf_MoveLimit b bytes.

Definition IOBuf_PutInt8 (b : IOBuf_t) (x : Z) : res IOBuf_t :=
  IOBuf_PutBytes b (le_bytes 1 x).

Definition IOBuf_PutInt32 (b : IOBuf_t) (x : Z) : res IOBuf_t :=
  IOBuf_PutBytes b (le_bytes 4 x).

Definition IOBuf_PutInt64 (b : IOBuf_t) (x : Z) : res IOBuf_t :=
  IOBuf_PutBytes b (le_bytes 8 x).

(** A [double] is its 64 bits. *)
Definition IOBuf_PutDouble (b : IOBuf_t) (x : Z) : res IOBuf_t :=
  IOBuf_PutBytes b (le_bytes 8 x).

Definition IOBuf_PutBuf (b : IOBuf_t) (data : list Z) : res IOBuf_t :=
  b ← IOBuf_PutInt32 b (s32 (Z.of_nat (length data)));
  IOBuf_PutBytes b data.

(** A C string is put with its terminating NUL. *)
Definition IOBuf_PutString (b : IOBuf_t) (s : list Z) : res IOBuf_t :=
  IOBuf_PutBuf b (s ++ [0]).

Definition IOBuf_InNested (b : IOBuf_t) : bool :=
  negb (io_nestedOffset b =? NESTED_OFFSET_NONE).

Definition IOBuf_BeginNested (b : IOBuf_t) : res IOBuf_t :=
  let startOffset := IOBuf_GetLimit b in
  b ← IOBuf_PutInt32 b (s32 (io_nestedOffset b));
  Ok (set_nestedOffset startOffset b).

Definition IOBuf_PokeInt32 (b : IOBuf_t) (offset x : Z) : res IOBuf_t :=
  Assert (negb (io_capacity b =? 0));;
  Assert (io_buf b + offset + 4 <=? io_limit b);;
  let o := Z.to_nat offset in
  Ok (set_mem (take o (io_mem b) ++ le_bytes 4 x ++ drop (o + 4) (io_mem b)) b).

(** ** Reading *)

(** Returns the buffer and the address of the bytes, [None] for NULL. *)
Definition IOBuf_TryGetBytes (b : IOBuf_t) (count : Z) : res (IOBuf_t * option Z) :=
  if negb (io_error b =? 0) then Fault PanicCall
  else if negb (io_nestedBound b =? NESTED_OFFSET_NONE) &&
          (io_nestedBound b <? u64 (io_pos b - io_buf b + count)) then Fault PanicCall
  else if io_limit b <? u64 (io_pos b + count) then Ok (b, None)
  else Ok (set_pos (u64 (io_pos b + count)) b, Some (io_pos b)).

(** The [TRY_GET] macro at a type of [n] bytes read by [conv]. *)
Definition TRY_GET (conv : Z -> Z) (n : Z) (b : IOBuf_t) : res (IOBuf_t * option Z) :=
  '(b, p) ← IOBuf_TryGetBytes b n;
  match p with
  | None => Ok (b, None)
  | Some p => bytes ← read_mem b p n; Ok (b, Some (conv (le_val bytes)))
  end.

Definition IOBuf_TryGetInt8 : IOBuf_t -> res (IOBuf_t * option Z) := TRY_GET s8 1.
Definition IOBuf_TryGetInt32 : IOBuf_t -> res (IOBuf_t * option Z) := TRY_GET s32 4.
Definition IOBuf_TryGetInt64 : IOBuf_t -> res (IOBuf_t * option Z) := TRY_GET s64 8.

Definition IOBuf_TryGetDouble : IOBuf_t -> res (IOBuf_t * option Z) := TRY_GET u64 8.

(** The [GET] macro: a failed try panics. *)
Definition GET {A} (try : IOBuf_t -> res (IOBuf_t * option A)) (b : IOBuf_t) :
    res (IOBuf_t * A) :=
  '(b, x) ← try b;
  match x with
  | None => Fault PanicCall
  | Some x => Ok (b, x)
  end.

Definition IOBuf_GetInt8 : IOBuf_t -> res (IOBuf_t * Z) := GET IOBuf_TryGetInt8.
Definition IOBuf_GetInt32 : IOBuf_t -> res (IOBuf_t * Z) := GET IOBuf_TryGetInt32.
Definition IOBuf_GetInt64 : IOBuf_t -> res (IOBuf_t * Z) := GET IOBuf_TryGetInt64.
Definition IOBuf_GetDouble : IOBuf_t -> res (IOBuf_t * Z) := GET IOBuf_TryGetDouble.

(** Returns the address and the [size_t] count. *)
Definition IOBuf_TryGetBuf (b : IOBuf_t) : res (IOBuf_t * option (Z * Z)) :=
  let pos := s32 (IOBuf_GetPos b) in
  '(b, xcount) ← IOBuf_TryGetInt32 b;
  match xcount with
  | None => b ← IOBuf_SetPos b pos; Ok (b, None)
  | Some xcount =>
    '(b, r) ← IOBuf_TryGetBytes b (u64 xcount);
    match r with
    | None => b ← IOBuf_SetPos b pos; Ok (b, None)
    | Some r => Ok (b, Some (r, u64 xcount))
    end
  end.

Definition IOBuf_GetBuf : IOBuf_t -> res (IOBuf_t * (Z * Z)) := GET IOBuf_TryGetBuf.

(** The address of the string; [res[count - 1]] is read at a wrapping address. *)
Definition IOBuf_TryGetString (b : IOBuf_t) : res (IOBuf_t * option Z) :=
  '(b, r) ← IOBuf_TryGetBuf b;
  match r with
  | None => Ok (b, None)
  | Some (p, count) =>
    last ← read_mem b (u64 (p + u64 (count - 1))) 1;
    if bool_decide (last = [0]) then Ok (b, Some p) else Fault PanicCall
  end.

Definition IOBuf_GetString : IOBuf_t -> res (IOBuf_t * Z) := GET IOBuf_TryGetString.

Definition IOBuf_GetEOB (b : IOBuf_t) : res unit :=
  if u32 (IOBuf_GetLimit b - IOBuf_GetPos b) =? 0 then Ok tt else Fault PanicCall.

(** The count, and the address [IOBuf_TryGetBytes(buf, 0)] returns. *)
Definition IOBuf_PeekRest (b : IOBuf_t) : res (IOBuf_t * Z * option Z) :=
  '(b', p) ← IOBuf_TryGetBytes b 0;
  Ok (b', u64 (io_limit b - io_pos b), p).

Definition IOBuf_EndNested (b : IOBuf_t) : res IOBuf_t :=
  if negb (IOBuf_InNested b) then Fault PanicCall
  else
    let pos := IOBuf_GetPos b in
    let startOffset := io_nestedOffset b in
    let endOffset := IOBuf_GetLimit b in
    b ← IOBuf_SetPos b startOffset;
    '(b, parent) ← IOBuf_GetInt32 b;
    let b := set_nestedOffset (u32 parent) b in
    b ← IOBuf_PokeInt32 b startOffset (s32 (u32 (u32 (endOffset - startOffset) - 4)));
    IOBuf_SetPos b pos.

(** The bytes of the buffer from [p] on, at most [count]. *)
Definition mem_from (b : IOBuf_t) (p count : Z) : list Z :=
  take (Z.to_nat (Z.min count (io_limit b - p)))
    (drop (Z.to_nat (p - io_buf b)) (io_mem b)).

(** The view of a nested buffer shares the memory of its parent. *)
Definition IOBuf_TryGetNested (b : IOBuf_t) : res (IOBuf_t * option IOBuf_t) :=
  '(b, r) ← IOBuf_TryGetBuf b;
  match r with
  | None => Ok (b, None)
  | Some (p, count) => Ok (b, Some (IOBuf_InitView p count (mem_from b p count)).1)
  end.

(** The C string at address [p]: its bytes up to the first NUL. *)
Fixpoint until_nul (l : list Z) : list Z :=
  match l with
  | [] => []
  | x :: l => if x =? 0 then [] else x :: until_nul l
  end.

Definition cstr_at (b : IOBuf_t) (p : Z) : list Z :=
  until_nul (drop (Z.to_nat (p - io_buf b)) (io_mem b)).

End Writing.

#[global] Arguments read_mem : simpl never.
#[global] Arguments IOBuf_SetPos : simpl never.
#[global] Arguments IOBuf_TryGetBytes : simpl never.
#[global] Arguments TRY_GET : simpl never.
#[global] Arguments IOBuf_TryGetBuf : simpl never.
#[global] Arguments IOBuf_Reserve : simpl never.
#[global] Arguments IOBuf_MoveLimit : simpl never.
#[global] Arguments IOBuf_PutBytes : simpl never.

(** ** Meaning *)

(** The bytes not yet read. *)
Definition unread (b : IOBuf_t) : list Z :=
  drop (Z.to_nat (io_pos b - io_buf b)) (io_mem b).

(** Stored bytes. *)
Definition io_len (b : IOBuf_t) : Z := Z.of_nat (length (io_mem b)).

(** A buffer that can be read: no error, positions in order inside the user
    half of the address space, less than 4 GB of data. *)
Definition io_ok (b : IOBuf_t) : Prop :=
  io_error b = 0 /\ 0 < io_buf b /\ io_buf b <= io_pos b <= io_limit b /\
  io_limit b < 2 ^ 63 /\ io_limit b - io_buf b = io_len b /\ io_len b < 2 ^ 32 /\
  io_nestedBound b = NESTED_OFFSET_NONE.

(** A buffer that can be written as well. *)
Definition io_wr (b : IOBuf_t) : Prop :=
  io_ok b /\ io_buf b < io_capacity b /\ io_limit b <= io_capacity b /\
  io_capacity b - io_buf b <= 2 ^ 33 /\ io_capacity b < 2 ^ 63.

(** The buffer after [n] bytes have been consumed. *)
Definition advance (n : Z) (b : IOBuf_t) : IOBuf_t := set_pos (io_pos b + n) b.

(** [b'] is [b] with [bytes] appended; positions are unchanged as offsets. *)
Definition extends (b : IOBuf_t) (bytes : list Z) (b' : IOBuf_t) : Prop :=
  io_wr b' /\ io_mem b' = io_mem b ++ bytes /\
  io_pos b' - io_buf b' = io_pos b - io_buf b /\
  io_nestedOffset b' = io_nestedOffset b.

(** ** Lemmas: reading *)

Lemma advance_0 b : advance 0 b = b.
Proof. destruct b; unfold advance, set_pos; cbn. f_equal; lia. Qed.

Lemma advance_advance m n b : advance m (advance n b) = advance (n + m) b.
Proof. unfold advance, set_pos; cbn. f_equal; lia. Qed.

Lemma unread_len b : io_ok b -> Z.of_nat (length (unread b)) = io_limit b - io_pos b.
Proof.
  intros (_&_&Hp&_&Hl&_). unfold unread, io_len in *. rewrite length_drop. lia.
Qed.

Lemma unread_advance n b :
  io_ok b -> 0 <= n -> unread (advance n b) = drop (Z.to_nat n) (unread b).
Proof.
  intros (_&_&Hp&_) Hn. unfold unread, advance; cbn. rewrite drop_drop. f_equal; lia.
Qed.

Lemma advance_ok n b :
  io_ok b -> 0 <= n <= Z.of_nat (length (unread b)) -> io_ok (advance n b).
Proof.
  intros H Hn. rewrite unread_len in Hn by done.
  destruct H as (?&?&?&?&?&?&?). unfold io_ok, advance, io_len in *; cbn. lia.
Qed.

Lemma TryGetBytes_ok b n :
  io_ok b -> 0 <= n <= Z.of_nat (length (unread b)) ->
  IOBuf_TryGetBytes b n = Ok (advance n b, Some (io_pos b)).
Proof.
  intros H Hn. rewrite unread_len in Hn by done.
  destruct H as (He&?&?&?&?&?&Hb). unfold IOBuf_TryGetBytes.
  rewrite He, Hb, !Z.eqb_refl. cbn. rewrite u64_small by lia.
  destruct (Z.ltb_spec (io_limit b) (io_pos b + n)); [lia|done].
Qed.

Lemma TryGetBytes_short b n :
  io_ok b -> Z.of_nat (length (unread b)) < n < 2 ^ 62 ->
  IOBuf_TryGetBytes b n = Ok (b, None).
Proof.
  intros H Hn. rewrite unread_len in Hn by done.
  destruct H as (He&?&?&?&?&?&Hb). unfold IOBuf_TryGetBytes.
  rewrite He, Hb, !Z.eqb_refl. cbn. rewrite u64_small by lia.
  destruct (Z.ltb_spec (io_limit b) (io_pos b + n)); [done|lia].
Qed.

(** Reading back [bytes] found [i] bytes after the read position. *)
Lemma read_mem_unread b i bytes pre rest k :
  io_ok b -> unread b = pre ++ bytes ++ rest -> Z.of_nat (length pre) = i ->
  read_mem (advance k b) (io_pos b + i) (Z.of_nat (length bytes)) = Ok bytes.
Proof.
  intros H Hu Hi. pose proof (unread_len b H) as Hl.
  rewrite Hu, !length_app in Hl. destruct H as (?&?&?&?&?&?&?).
  unfold read_mem, advance; cbn.
  destruct (Z.leb_spec (io_buf b) (io_pos b + i)); [|lia].
  destruct (Z.leb_spec (io_pos b + i + Z.of_nat (length bytes)) (io_limit b)); [|lia].
  cbn. f_equal. rewrite Nat2Z.id.
  replace (Z.to_nat (io_pos b + i - io_buf b)) with
    (Z.to_nat (io_pos b - io_buf b) + length pre)%nat by lia.
  rewrite <- drop_drop. fold (unread b). rewrite Hu, drop_app_length.
  apply take_app_length.
Qed.

Lemma TRY_GET_ok conv n b x rest :
  io_ok b -> unread b = le_bytes n x ++ rest ->
  TRY_GET conv (Z.of_nat n) b =
  Ok (advance (Z.of_nat n) b, Some (conv (x mod 256 ^ Z.of_nat n))).
Proof.
  intros H Hu. unfold TRY_GET. rewrite TryGetBytes_ok; [|done|].
  2:{ rewrite Hu, length_app, length_le_bytes. lia. }
  cbn. replace (io_pos b) with (io_pos b + 0) at 1 by lia.
  pose proof (read_mem_unread b 0 (le_bytes n x) [] rest (Z.of_nat n) H Hu eq_refl) as E.
  rewrite length_le_bytes in E. rewrite E. cbn. by rewrite le_val_bytes.
Qed.

Lemma TRY_GET_short conv n b :
  io_ok b -> Z.of_nat (length (unread b)) < n < 2 ^ 62 -> TRY_GET conv n b = Ok (b, None).
Proof. intros H Hn. unfold TRY_GET. by rewrite TryGetBytes_short. Qed.

Lemma TryGetInt8_ok b x rest :
  io_ok b -> unread b = le_bytes 1 x ++ rest ->
  IOBuf_TryGetInt8 b = Ok (advance 1 b, Some (s8 x)).
Proof.
  intros H Hu. pose proof (TRY_GET_ok s8 1 b x rest H Hu) as E.
  unfold IOBuf_TryGetInt8. change (Z.of_nat 1) with 1 in E. rewrite E.
  change (256 ^ 1) with (2 ^ 8). unfold s8. by rewrite (signed_mod 8 x).
Qed.

Lemma TryGetInt32_ok b x rest :
  io_ok b -> unread b = le_bytes 4 x ++ rest ->
  IOBuf_TryGetInt32 b = Ok (advance 4 b, Some (s32 x)).
Proof.
  intros H Hu. pose proof (TRY_GET_ok s32 4 b x rest H Hu) as E.
  unfold IOBuf_TryGetInt32. change (Z.of_nat 4) with 4 in E. rewrite E.
  change (256 ^ 4) with (2 ^ 32). unfold s32. by rewrite (signed_mod 32 x).
Qed.

Lemma TryGetInt64_ok b x rest :
  io_ok b -> unread b = le_bytes 8 x ++ rest ->
  IOBuf_TryGetInt64 b = Ok (advance 8 b, Some (s64 x)).
Proof.
  intros H Hu. pose proof (TRY_GET_ok s64 8 b x rest H Hu) as E.
  unfold IOBuf_TryGetInt64. change (Z.of_nat 8) with 8 in E. rewrite E.
  change (256 ^ 8) with (2 ^ 64). unfold s64. by rewrite (signed_mod 64 x).
Qed.

(** Going back to a position taken with [IOBuf_GetPos], as a signed [int]. *)
Lemma SetPos_back b n :
  io_ok b -> IOBuf_SetPos (advance n b) (s32 (IOBuf_GetPos b)) = Ok b.
Proof.
  intros (He&?&?&?&?&?&?). unfold IOBuf_SetPos, IOBuf_GetPos.
  rewrite He, Z.eqb_refl. cbn [negb]. rewrite u32_s32.
  change (io_buf (advance n b)) with (io_buf b).
  rewrite (u32_small (io_pos b - io_buf b)), u32_small, u64_small by lia.
  replace (io_buf b + (io_pos b - io_buf b)) with (io_pos b) by lia.
  unfold advance, set_pos; cbn. destruct (Z.ltb_spec (io_limit b) (io_pos b)); [lia|].
  by destruct b.
Qed.

Lemma TryGetBuf_ok b data rest :
  io_ok b -> Z.of_nat (length data) < 2 ^ 31 ->
  unread b = le_bytes 4 (Z.of_nat (length data)) ++ data ++ rest ->
  IOBuf_TryGetBuf b =
  Ok (advance (4 + Z.of_nat (length data)) b,
      Some (io_pos b + 4, Z.of_nat (length data))).
Proof.
  intros H Hd Hu. unfold IOBuf_TryGetBuf. rewrite (TryGetInt32_ok b _ _ H Hu). cbn.
  rewrite s32_small, u64_small by lia.
  assert (H4 : io_ok (advance 4 b)).
  { apply advance_ok; [done|]. rewrite Hu, !length_app, length_le_bytes. lia. }
  rewrite TryGetBytes_ok; [|done|].
  - cbn. by rewrite advance_advance.
  - rewrite unread_advance, Hu, drop_app_length', length_app by
      (rewrite ?length_le_bytes; done || lia). lia.
Qed.

(** On an incomplete length or incomplete contents nothing is consumed. *)
Lemma TryGetBuf_short b n rest :
  io_ok b -> 0 <= n < 2 ^ 31 ->
  (length (unread b) < 4)%nat \/
  (unread b = le_bytes 4 n ++ rest /\ Z.of_nat (length rest) < n) ->
  IOBuf_TryGetBuf b = Ok (b, None).
Proof.
  intros H Hn Hs. unfold IOBuf_TryGetBuf. destruct Hs as [Hs|[Hu Hr]].
  - unfold IOBuf_TryGetInt32. rewrite TRY_GET_short by (done || lia). cbn.
    rewrite <- (advance_0 b) at 1. by rewrite SetPos_back.
  - rewrite (TryGetInt32_ok b _ _ H Hu). cbn.
    rewrite (s32_small n), u64_small by lia.
    assert (H4 : io_ok (advance 4 b)).
    { apply advance_ok; [done|]. rewrite Hu, !length_app, length_le_bytes. lia. }
    rewrite TryGetBytes_short; [|done|].
    + cbn. by rewrite SetPos_back.
    + rewrite unread_advance, Hu, drop_app_length' by
        (rewrite ?length_le_bytes; done || lia). lia.
Qed.

Lemma TryGetString_ok b s rest :
  io_ok b -> Z.of_nat (length s) < 2 ^ 31 - 1 ->
  unread b = le_bytes 4 (Z.of_nat (length (s ++ [0]))) ++ (s ++ [0]) ++ rest ->
  IOBuf_TryGetString b =
  Ok (advance (4 + Z.of_nat (length (s ++ [0]))) b, Some (io_pos b + 4)).
Proof.
  intros H Hd Hu. unfold IOBuf_TryGetString.
  pose proof (unread_len b H) as Hl. rewrite Hu, !length_app, length_le_bytes in Hl.
  cbn [length] in Hl.
  assert (Hlen : Z.of_nat (length (s ++ [0])) = Z.of_nat (length s) + 1)
    by (rewrite length_app; cbn; lia).
  rewrite (TryGetBuf_ok b (s ++ [0]) rest) by (done || lia). cbn [mbind res_bind].
  pose proof H as (_&?&?&?&_). rewrite Hlen.
  rewrite (u64_small (_ - 1)), u64_small by lia.
  replace (io_pos b + 4 + (Z.of_nat (length s) + 1 - 1)) with
    (io_pos b + (4 + Z.of_nat (length s))) by lia.
  rewrite (read_mem_unread b _ [0] (le_bytes 4 (Z.of_nat (length (s ++ [0]))) ++ s) rest);
    [done|done| |].
  - rewrite Hu, <- !app_assoc. done.
  - rewrite length_app, length_le_bytes. lia.
Qed.

Lemma until_nul_app s rest : Forall (fun x => x <> 0) s -> until_nul (s ++ 0 :: rest) = s.
Proof.
  induction 1 as [|x s Hx _ IH]; cbn; [done|].
  destruct (Z.eqb_spec x 0); [done|]. by rewrite IH.
Qed.

(** The string the reader sees at the returned address. *)
Lemma cstr_at_unread b i pre s rest k :
  io_ok b -> unread b = pre ++ (s ++ [0]) ++ rest -> Z.of_nat (length pre) = i ->
  Forall (fun x => x <> 0) s -> cstr_at (advance k b) (io_pos b + i) = s.
Proof.
  intros (_&_&?&_) Hu Hi Hs. unfold cstr_at, advance; cbn.
  replace (Z.to_nat (io_pos b + i - io_buf b)) with
    (Z.to_nat (io_pos b - io_buf b) + length pre)%nat by lia.
  rewrite <- drop_drop. fold (unread b). rewrite Hu, drop_app_length, <- app_assoc.
  by apply until_nul_app.
Qed.

Lemma TryGetNested_ok b data rest :
  io_ok b -> Z.of_nat (length data) < 2 ^ 31 ->
  unread b = le_bytes 4 (Z.of_nat (length data)) ++ data ++ rest ->
  exists v, IOBuf_TryGetNested b =
    Ok (advance (4 + Z.of_nat (length data)) b, Some v) /\ io_ok v /\ unread v = data.
Proof.
  intros H Hd Hu. unfold IOBuf_TryGetNested.
  rewrite (TryGetBuf_ok b data rest H Hd Hu). cbn [mbind res_bind].
  eexists. split; [done|].
  pose proof (unread_len b H) as Hl. rewrite Hu, !length_app, length_le_bytes in Hl.
  assert (Hm : mem_from (advance (4 + Z.of_nat (length data)) b) (io_pos b + 4)
                 (Z.of_nat (length data)) = data).
  { unfold mem_from, advance; cbn. destruct H as (_&_&?&_).
    replace (Z.min (Z.of_nat (length data)) (io_limit b - (io_pos b + 4)))
      with (Z.of_nat (length data)) by lia.
    replace (Z.to_nat (io_pos b + 4 - io_buf b)) with
      (Z.to_nat (io_pos b - io_buf b) + length (le_bytes 4 (Z.of_nat (length data))))%nat
      by (rewrite length_le_bytes; lia).
    rewrite <- drop_drop. fold (unread b).
    by rewrite Hu, drop_app_length, Nat2Z.id, take_app_length. }
  rewrite Hm. destruct H as (?&?&?&?&?&?&?). split.
  - unfold io_ok, io_len; cbn. rewrite u64_small by lia. split_and!; try done; lia.
  - unfold unread; cbn. by rewrite Z.sub_diag, drop_0.
Qed.

(** ** Lemmas: writing *)

Lemma GrowSize_ok s g fuel :
  0 < s <= 2 ^ 40 -> g <= 2 ^ 40 -> g <= s * 2 ^ Z.of_nat fuel ->
  exists s', GrowSize s g (S fuel) = Ok s' /\ g <= s' /\ s <= s' /\
    (s' = s \/ s' < 2 * g).
Proof.
  revert s; induction fuel as [|fuel IH]; intros s Hs Hg Hf.
  - cbn [GrowSize]. change (Z.of_nat 0) with 0 in Hf. rewrite Z.pow_0_r in Hf.
    destruct (Z.ltb_spec s g); [lia|]. exists s. split_and!; try done; lia.
  - remember (S fuel) as f eqn:Ef. cbn [GrowSize].
    destruct (Z.ltb_spec s g); [|exists s; split_and!; try done; lia].
    rewrite u64_small by lia. rewrite Ef, Nat2Z.inj_succ, Z.pow_succ_r in Hf by lia.
    subst f. destruct (decide (s * 2 <= 2 ^ 40)).
    + destruct (IH (s * 2)) as (s' & -> & ?); [lia..|]. exists s'. split; [done|]. lia.
    + destruct fuel; cbn [GrowSize]; destruct (Z.ltb_spec (s * 2) g); try lia;
        exists (s * 2); (split; [done|lia]).
Qed.

Lemma extends_nil b : io_wr b -> extends b [] b.
Proof. intros H. split_and!; try done. by rewrite app_nil_r. Qed.

Lemma extends_app b x b' y b'' :
  extends b x b' -> extends b' y b'' -> extends b (x ++ y) b''.
Proof.
  intros (_&Hm&Hp&Hn) (Hw&Hm'&Hp'&Hn'). split; [exact Hw|].
  rewrite Hm', Hm, app_assoc. split_and!; congruence.
Qed.

Lemma extends_len b x b' :
  extends b x b' -> io_len b' = io_len b + Z.of_nat (length x).
Proof. intros (_&Hm&_). unfold io_len. rewrite Hm, length_app. lia. Qed.

Lemma extends_unread b x b' :
  io_ok b -> extends b x b' -> unread b' = unread b ++ x.
Proof.
  intros (_&_&?&_&?&_) (_&Hm&Hp&_). unfold unread, io_len in *. rewrite Hp, Hm.
  rewrite drop_app_le; [done|lia].
Qed.

Section WritingFacts.

Context (realloc : Z -> Z -> Z).

(** [realloc] finds room inside the user address space. *)
Hypothesis realloc_fits :
  forall p n, 0 < n <= 2 ^ 33 -> 0 < realloc p n /\ realloc p n + n < 2 ^ 63.

Lemma Reserve_ok b count :
  io_wr b -> 0 <= count -> io_len b + count < 2 ^ 32 ->
  exists b', IOBuf_Reserve realloc b count = Ok (b', io_limit b') /\ extends b [] b' /\
    io_limit b' + count <= io_capacity b'.
Proof.
  intros ((He&Hb&Hp&Hl&Hm&Hn&Hnb)&Hc&Hlc&Hcb&Hc63) H0 Hlen. unfold IOBuf_Reserve.
  destruct (Z.eqb_spec (io_capacity b) 0); [lia|]. rewrite He, Z.eqb_refl. cbn [negb].
  rewrite u64_small by lia.
  destruct (Z.ltb_spec (io_capacity b) (io_limit b + count)) as [Hg|Hg].
  - rewrite !(u64_small (_ * 2)), u64_small by lia.
    destruct (GrowSize_ok ((io_capacity b - io_buf b) * 2) (io_limit b - io_buf b + count) 63)
      as (s' & -> & Hs'); [nia|lia|nia|]. cbn [mbind res_bind].
    destruct (realloc_fits (io_buf b) s') as [Hr1 Hr2]; [lia|].
    set (nb := realloc (io_buf b) s') in *.
    destruct (Z.eqb_spec nb 0); [lia|]. eexists; split; [done|].
    unfold extends, io_wr, io_ok, io_len in *; cbn. rewrite app_nil_r.
    split_and!; try done; lia.
  - exists b. split; [done|]. unfold extends, io_wr, io_ok, io_len in *.
    rewrite app_nil_r. split_and!; try done; lia.
Qed.

Lemma MoveLimit_ok b bytes :
  io_wr b -> io_len b + Z.of_nat (length bytes) < 2 ^ 32 ->
  io_limit b + Z.of_nat (length bytes) <= io_capacity b ->
  exists b', IOBuf_MoveLimit b bytes = Ok b' /\ extends b bytes b'.
Proof.
  intros ((He&Hb&Hp&Hl&Hm&Hn&Hnb)&Hc&Hlc&Hcb&Hc63) Hlen Hcap. unfold IOBuf_MoveLimit.
  destruct (Z.eqb_spec (io_capacity b) 0); [lia|].
  rewrite He, Z.eqb_refl. cbn [negb]. rewrite u64_small by lia.
  destruct (Z.ltb_spec (io_capacity b) (io_limit b + Z.of_nat (length bytes))); [lia|].
  eexists; split; [done|]. unfold extends, io_wr, io_ok, io_len in *; cbn.
  rewrite length_app. split_and!; try done; lia.
Qed.

Lemma PutBytes_ok b bytes :
  io_wr b -> io_len b + Z.of_nat (length bytes) < 2 ^ 32 ->
  exists b', IOBuf_PutBytes realloc b bytes = Ok b' /\ extends b bytes b'.
Proof.
  intros H Hlen. unfold IOBuf_PutBytes.
  destruct (Reserve_ok b (Z.of_nat (length bytes)) H ltac:(lia) Hlen)
    as (b1 & -> & E1 & Hc). cbn [mbind res_bind].
  pose proof (extends_len _ _ _ E1) as L1. cbn in L1.
  destruct (proj1 E1) as ((_&?&?&_)&_).
  destruct (Z.eqb_spec (io_limit b1) 0); [lia|].
  destruct (MoveLimit_ok b1 bytes (proj1 E1) ltac:(lia) Hc) as (b2 & -> & E2).
  exists b2. split; [done|]. by apply (extends_app b [] b1 bytes b2).
Qed.

Lemma PutInt8_ok b x :
  io_wr b -> io_len b + 1 < 2 ^ 32 ->
  exists b', IOBuf_PutInt8 realloc b x = Ok b' /\ extends b (le_bytes 1 x) b'.
Proof. intros. apply PutBytes_ok; [done|]. rewrite length_le_bytes. lia. Qed.

Lemma PutInt32_ok b x :
  io_wr b -> io_len b + 4 < 2 ^ 32 ->
  exists b', IOBuf_PutInt32 realloc b x = Ok b' /\ extends b (le_bytes 4 x) b'.
Proof. intros. apply PutBytes_ok; [done|]. rewrite length_le_bytes. lia. Qed.

Lemma PutInt64_ok b x :
  io_wr b -> io_len b + 8 < 2 ^ 32 ->
  exists b', IOBuf_PutInt64 realloc b x = Ok b' /\ extends b (le_bytes 8 x) b'.
Proof. intros. apply PutBytes_ok; [done|]. rewrite length_le_bytes. lia. Qed.

(** What [IOBuf_PutBuf] stores. *)
Lemma PutBuf_ok b data :
  io_wr b -> Z.of_nat (length data) < 2 ^ 31 ->
  io_len b + 4 + Z.of_nat (length data) < 2 ^ 32 ->
  exists b', IOBuf_PutBuf realloc b data = Ok b' /\
    extends b (le_bytes 4 (Z.of_nat (length data)) ++ data) b'.
Proof.
  intros Hb Hd Hl. unfold IOBuf_PutBuf. rewrite s32_small by lia.
  destruct (PutInt32_ok b (Z.of_nat (length data))) as (b1 & -> & E1); [done|lia|].
  cbn [mbind res_bind]. pose proof (extends_len _ _ _ E1) as L1.
  rewrite length_le_bytes in L1.
  destruct (PutBytes_ok b1 data) as (b2 & -> & E2); [apply E1|lia|].
  exists b2. split; [done|]. by eapply extends_app.
Qed.

Lemma Shift_ok b :
  io_wr b -> io_nestedOffset b = NESTED_OFFSET_NONE ->
  exists b', IOBuf_Shift realloc b = Ok b' /\ io_wr b' /\ unread b' = unread b /\
    io_mem b' = unread b /\ io_pos b' = io_buf b' /\
    io_nestedOffset b' = NESTED_OFFSET_NONE.
Proof.
  intros ((He&Hb&Hp&Hl&Hm&Hn&Hnb)&Hc&Hlc&Hcb&Hc63) HN.
  unfold IOBuf_Shift, IOBuf_Reserve.
  destruct (Z.eqb_spec (io_capacity b) 0); [lia|]. rewrite He, Z.eqb_refl. cbn [negb].
  rewrite u64_small by lia. destruct (Z.ltb_spec (io_capacity b) (io_limit b + 0)); [lia|].
  cbn [mbind res_bind]. rewrite HN, Z.eqb_refl. cbn [negb].
  eexists; split; [done|]. unfold io_wr, io_ok, io_len, unread in *; cbn.
  rewrite Z.sub_diag, drop_0, length_drop. split_and!; try done; lia.
Qed.

End WritingFacts.

(** ** Messages as sequences of fields *)

(** One value handed to a Put function, or returned by the Get function of the
    same type. *)
Inductive field : Type :=
| F8 (x : Z)
| F32 (x : Z)
| F64 (x : Z)
| FBuf (l : list Z)
| FStr (s : list Z).

Definition put_field (realloc : Z -> Z -> Z) (b : IOBuf_t) (f : field) : res IOBuf_t :=
  match f with
  | F8 x => IOBuf_PutInt8 realloc b x
  | F32 x => IOBuf_PutInt32 realloc b x
  | F64 x => IOBuf_PutInt64 realloc b x
  | FBuf l => IOBuf_PutBuf realloc b l
  | FStr s => IOBuf_PutString realloc b s
  end.

Fixpoint put_fields (realloc : Z -> Z -> Z) (b : IOBuf_t) (fs : list field) : res IOBuf_t :=
  match fs with
  | [] => Ok b
  | f :: fs => b ← put_field realloc b f; put_fields realloc b fs
  end.

(** Reads a value of the same type as [f]; for buffers and strings the bytes at
    the returned address. *)
Definition get_field (b : IOBuf_t) (f : field) : res (IOBuf_t * field) :=
  match f with
  | F8 _ => '(b, x) ← IOBuf_GetInt8 b; Ok (b, F8 x)
  | F32 _ => '(b, x) ← IOBuf_GetInt32 b; Ok (b, F32 x)
  | F64 _ => '(b, x) ← IOBuf_GetInt64 b; Ok (b, F64 x)
  | FBuf _ => '(b, pn) ← IOBuf_GetBuf b; Ok (b, FBuf (mem_from b pn.1 pn.2))
  | FStr _ => '(b, p) ← IOBuf_GetString b; Ok (b, FStr (cstr_at b p))
  end.

Fixpoint get_fields (b : IOBuf_t) (fs : list field) : res (IOBuf_t * list field) :=
  match fs with
  | [] => Ok (b, [])
  | f :: fs =>
    '(b, x) ← get_field b f;
    '(b, xs) ← get_fields b fs;
    Ok (b, x :: xs)
  end.

(** The bytes a field occupies. *)
Definition enc (f : field) : list Z :=
  match f with
  | F8 x => le_bytes 1 x
  | F32 x => le_bytes 4 x
  | F64 x => le_bytes 8 x
  | FBuf l => le_bytes 4 (Z.of_nat (length l)) ++ l
  | FStr s => le_bytes 4 (Z.of_nat (length (s ++ [0]))) ++ s ++ [0]
  end.

Definition enc_all (fs : list field) : list Z := concat (map enc fs).

(** Integers in range, buffers of [int32_t] length, strings without NUL. *)
Definition field_ok (f : field) : Prop :=
  match f with
  | F8 x => - 2 ^ 7 <= x < 2 ^ 7
  | F32 x => - 2 ^ 31 <= x < 2 ^ 31
  | F64 x => - 2 ^ 63 <= x < 2 ^ 63
  | FBuf l => Z.of_nat (length l) < 2 ^ 31
  | FStr s => Z.of_nat (length s) < 2 ^ 31 - 1 /\ Forall (fun x => x <> 0) s
  end.

Lemma mem_from_unread b pre data rest k :
  io_ok b -> unread b = pre ++ data ++ rest ->
  mem_from (advance k b) (io_pos b + Z.of_nat (length pre)) (Z.of_nat (length data)) = data.
Proof.
  intros H Hu. pose proof (unread_len b H) as Hl. rewrite Hu, !length_app in Hl.
  unfold mem_from, advance; cbn. destruct H as (_&_&?&_).
  replace (Z.min _ _) with (Z.of_nat (length data)) by lia.
  replace (Z.to_nat (io_pos b + _ - io_buf b)) with
    (Z.to_nat (io_pos b - io_buf b) + length pre)%nat by lia.
  rewrite <- drop_drop. fold (unread b).
  by rewrite Hu, drop_app_length, Nat2Z.id, take_app_length.
Qed.

Lemma get_field_ok b f rest :
  io_ok b -> field_ok f -> unread b = enc f ++ rest ->
  get_field b f = Ok (advance (Z.of_nat (length (enc f))) b, f).
Proof.
  intros H Hf Hu. destruct f as [x|x|x|l|s]; cbn [get_field enc field_ok] in *.
  - unfold IOBuf_GetInt8, GET. rewrite (TryGetInt8_ok b x rest H Hu), s8_small by done. done.
  - unfold IOBuf_GetInt32, GET. rewrite (TryGetInt32_ok b x rest H Hu), s32_small by done. done.
  - unfold IOBuf_GetInt64, GET. rewrite (TryGetInt64_ok b x rest H Hu), s64_small by done. done.
  - rewrite <- app_assoc in Hu. unfold IOBuf_GetBuf, GET.
    rewrite (TryGetBuf_ok b l rest H Hf Hu), length_app, length_le_bytes, Nat2Z.inj_add.
    cbn [mbind res_bind fst snd].
    pose proof (mem_from_unread b _ _ _ (4 + Z.of_nat (length l)) H Hu) as E.
    rewrite length_le_bytes in E. change (Z.of_nat 4) with 4 in *. by rewrite E.
  - destruct Hf as [Hf Hs]. rewrite <- app_assoc in Hu. unfold IOBuf_GetString, GET.
    rewrite (TryGetString_ok b s rest H Hf Hu).
    rewrite (length_app (le_bytes _ _)), length_le_bytes, Nat2Z.inj_add.
    cbn [mbind res_bind]. change (Z.of_nat 4) with 4.
    by rewrite (cstr_at_unread b 4 _ s rest _ H Hu).
Qed.

Lemma get_fields_ok b fs rest :
  io_ok b -> Forall field_ok fs -> unread b = enc_all fs ++ rest ->
  get_fields b fs = Ok (advance (Z.of_nat (length (enc_all fs))) b, fs).
Proof.
  intros H Hf. revert b H. induction Hf as [|f fs Hf _ IH]; intros b H Hu; cbn [get_fields].
  { by rewrite advance_0. }
  cbn in Hu. unfold enc_all in *; cbn [map concat] in *. rewrite <- app_assoc in Hu.
  rewrite (get_field_ok b f _ H Hf Hu). cbn [mbind res_bind].
  assert (length (enc f) <= length (unread b))%nat by (rewrite Hu, length_app; lia).
  rewrite IH.
  - cbn. rewrite advance_advance, length_app, Nat2Z.inj_add. done.
  - apply advance_ok; [done|lia].
  - by rewrite unread_advance, Hu, Nat2Z.id, drop_app_length by (done || lia).
Qed.

(** ** Lemmas: nested buffers *)

Lemma GetLimit_ok b : io_ok b -> IOBuf_GetLimit b = io_len b.
Proof.
  intros (He&_&_&_&Hm&?&_). unfold IOBuf_GetLimit. rewrite He, Z.eqb_refl.
  cbn. rewrite Hm. apply u32_small. unfold io_len in *. lia.
Qed.

Lemma SetPos_ok b o :
  io_ok b -> 0 <= o <= io_len b -> IOBuf_SetPos b o = Ok (set_pos (io_buf b + o) b).
Proof.
  intros (He&?&?&?&?&?&?) Ho. unfold IOBuf_SetPos.
  rewrite u32_small, u64_small by lia. cbn.
  destruct (Z.ltb_spec (io_limit b) (io_buf b + o)); [lia|done].
Qed.

Lemma set_pos_wr b o : io_wr b -> 0 <= o <= io_len b -> io_wr (set_pos (io_buf b + o) b).
Proof.
  intros ((?&?&?&?&?&?&?)&?) Ho. split; [|done].
  unfold io_ok, io_len in *; cbn. split_and!; try done; lia.
Qed.

Lemma PokeInt32_ok b pre old body x :
  io_wr b -> io_mem b = pre ++ le_bytes 4 old ++ body ->
  IOBuf_PokeInt32 b (Z.of_nat (length pre)) x =
  Ok (set_mem (pre ++ le_bytes 4 x ++ body) b).
Proof.
  intros ((?&?&?&?&Hl&?&?)&?&?&?&?) Hm. unfold IOBuf_PokeInt32, io_len in *.
  rewrite Hm, !length_app, length_le_bytes in Hl.
  destruct (Z.eqb_spec (io_capacity b) 0); [lia|].
  destruct (Z.leb_spec (io_buf b + Z.of_nat (length pre) + 4) (io_limit b)); [|lia].
  cbn [negb Assert mbind res_bind]. rewrite Nat2Z.id, Hm, take_app_length.
  rewrite <- drop_drop, drop_app_length, drop_app_length'; [done|].
  by rewrite length_le_bytes.
Qed.

Lemma EndNested_ok b pre parent body :
  io_wr b -> io_mem b = pre ++ le_bytes 4 (s32 parent) ++ body ->
  io_nestedOffset b = Z.of_nat (length pre) -> 0 <= parent < 2 ^ 32 ->
  Z.of_nat (length body) < 2 ^ 31 ->
  exists b', IOBuf_EndNested b = Ok b' /\ io_wr b' /\
    io_mem b' = pre ++ le_bytes 4 (Z.of_nat (length body)) ++ body /\
    io_pos b' - io_buf b' = io_pos b - io_buf b /\ io_nestedOffset b' = parent.
Proof.
  intros H Hm HN Hpar Hb. pose proof H as ((He&H0&Hp&H63&Hl&H32&Hnb)&Hc).
  assert (L : io_len b = Z.of_nat (length pre) + 4 + Z.of_nat (length body)).
  { unfold io_len. rewrite Hm, !length_app, length_le_bytes. lia. }
  unfold IOBuf_EndNested, IOBuf_InNested, NESTED_OFFSET_NONE. rewrite HN.
  destruct (Z.eqb_spec (Z.of_nat (length pre)) (2 ^ 32 - 1)); [lia|]. cbn [negb].
  rewrite SetPos_ok by (apply H || lia). cbn [mbind res_bind].
  set (bA := set_pos _ b). assert (OA : io_ok bA).
  { unfold io_ok, io_len in *; cbn. split_and!; try done; lia. }
  assert (UA : unread bA = le_bytes 4 (s32 parent) ++ body).
  { unfold unread, bA; cbn. replace (Z.to_nat _) with (length pre) by lia.
    by rewrite Hm, drop_app_length. }
  unfold IOBuf_GetInt32, GET. rewrite (TryGetInt32_ok bA _ _ OA UA). cbn [mbind res_bind].
  rewrite !u32_s32, (u32_small parent) by done.
  rewrite GetLimit_ok, L by apply H.
  replace (Z.of_nat (length pre) + 4 + Z.of_nat (length body) - Z.of_nat (length pre))
    with (4 + Z.of_nat (length body)) by lia.
  rewrite (u32_small (4 + _)), Z.add_simpl_l, u32_small, s32_small by lia.
  set (bB := set_nestedOffset parent (advance 4 bA)).
  assert (WB : io_wr bB).
  { split; [|exact Hc]. unfold io_ok, io_len in *; cbn. split_and!; try done; lia. }
  rewrite (PokeInt32_ok bB pre (s32 parent) body) by done. cbn [mbind res_bind].
  set (bC := set_mem _ bB).
  assert (LC : io_len bC = io_len b).
  { unfold io_len, bC; cbn. by rewrite Hm, !length_app, !length_le_bytes. }
  assert (WC : io_wr bC).
  { destruct WB as [(?&?&?&?&?&?&?) ?]. split; [|done].
    unfold io_ok. rewrite LC. cbn in *. split_and!; try done; lia. }
  assert (EP : IOBuf_GetPos b = io_pos b - io_buf b).
  { unfold IOBuf_GetPos. rewrite He. cbn. apply u32_small. lia. }
  rewrite EP, SetPos_ok by (apply WC || (rewrite LC; lia)).
  eexists. split; [done|]. split; [apply set_pos_wr; [done|rewrite LC; lia]|].
  split_and!; cbn; [done|lia|done].
Qed.

Section FieldFacts.

Context (realloc : Z -> Z -> Z).

Hypothesis realloc_fits :
  forall p n, 0 < n <= 2 ^ 33 -> 0 < realloc p n /\ realloc p n + n < 2 ^ 63.

Lemma put_field_ok b f :
  io_wr b -> field_ok f -> io_len b + Z.of_nat (length (enc f)) < 2 ^ 32 ->
  exists b', put_field realloc b f = Ok b' /\ extends b (enc f) b'.
Proof.
  intros H Hf Hl. destruct f as [x|x|x|l|s]; cbn [put_field enc field_ok] in *.
  - apply PutInt8_ok; [done..|]. rewrite length_le_bytes in Hl. lia.
  - apply PutInt32_ok; [done..|]. rewrite length_le_bytes in Hl. lia.
  - apply PutInt64_ok; [done..|]. rewrite length_le_bytes in Hl. lia.
  - rewrite length_app, length_le_bytes in Hl. apply PutBuf_ok; (done || lia).
  - destruct Hf as [Hf _]. unfold IOBuf_PutString.
    rewrite (length_app (le_bytes _ _)), length_le_bytes in Hl.
    apply PutBuf_ok; [done..| |lia]. rewrite length_app; cbn; lia.
Qed.

Lemma put_fields_ok b fs :
  io_wr b -> Forall field_ok fs -> io_len b + Z.of_nat (length (enc_all fs)) < 2 ^ 32 ->
  exists b', put_fields realloc b fs = Ok b' /\ extends b (enc_all fs) b'.
Proof.
  intros H Hf. revert b H. induction Hf as [|f fs Hf _ IH]; intros b H Hl; cbn [put_fields].
  { exists b. split; [done|]. by apply extends_nil. }
  unfold enc_all in *; cbn [map concat] in *. rewrite length_app in Hl.
  destruct (put_field_ok b f) as (b1 & -> & E1); [done|done|lia|]. cbn [mbind res_bind].
  pose proof (extends_len _ _ _ E1).
  destruct (IH b1) as (b2 & -> & E2); [apply E1|lia|].
  exists b2. split; [done|]. by eapply extends_app.
Qed.

(** Between [IOBuf_BeginNested] and [IOBuf_EndNested] the buffer holds the
    parent offset, then the contents; closing replaces the parent offset by
    the length of the contents. *)
Lemma Nested_ok b fs :
  io_wr b -> 0 <= io_nestedOffset b < 2 ^ 32 -> Forall field_ok fs ->
  io_len b + 4 + Z.of_nat (length (enc_all fs)) < 2 ^ 32 ->
  Z.of_nat (length (enc_all fs)) < 2 ^ 31 ->
  exists b', (b1 ← IOBuf_BeginNested realloc b;
              b2 ← put_fields realloc b1 fs;
              IOBuf_EndNested b2) = Ok b' /\
    extends b (enc (FBuf (enc_all fs))) b'.
Proof.
  intros H HN Hf Hl Hb. unfold IOBuf_BeginNested.
  destruct (PutInt32_ok realloc realloc_fits b (s32 (io_nestedOffset b)))
    as (b1 & -> & E1); [done|lia|]. cbn [mbind res_bind].
  pose proof (extends_len _ _ _ E1) as L1. rewrite length_le_bytes in L1.
  rewrite GetLimit_ok by apply H. set (bn := set_nestedOffset (io_len b) b1).
  destruct (put_fields_ok bn fs) as (b2 & -> & (W2&M2&P2&N2)); [exact (proj1 E1)|done| |].
  { change (io_len bn) with (io_len b1). lia. }
  cbn [mbind res_bind]. destruct E1 as (W1&M1&P1&N1). cbn in M2, P2, N2.
  rewrite M1, <- app_assoc in M2.
  destruct (EndNested_ok b2 (io_mem b) (io_nestedOffset b) (enc_all fs))
    as (b' & -> & W' & M' & P' & N'); try done.
  exists b'. split; [done|]. split; [done|]. split_and!; [done|lia|done].
Qed.

End FieldFacts.

Lemma GetEOB_ok b : io_ok b -> unread b = [] -> IOBuf_GetEOB b = Ok tt.
Proof.
  intros O U. pose proof (unread_len b O) as L. rewrite U in L. cbn in L.
  destruct O as (He&?&?&?&?&?&?). unfold IOBuf_GetEOB, IOBuf_GetLimit, IOBuf_GetPos.
  rewrite He, Z.eqb_refl. cbn [negb].
  replace (io_pos b) with (io_limit b) by lia. by rewrite Z.sub_diag.
Qed.

(** A negative length moves the position back. *)
Lemma TryGetBuf_neg b k rest :
  io_ok b -> 0 < k < 2 ^ 31 -> k <= io_pos b + 4 -> unread b = le_bytes 4 (- k) ++ rest ->
  IOBuf_TryGetBuf b = Ok (advance (4 - k) b, Some (io_pos b + 4, 2 ^ 64 - k)).
Proof.
  intros H Hk Hp Hu. unfold IOBuf_TryGetBuf. rewrite (TryGetInt32_ok b _ _ H Hu).
  cbn [mbind res_bind]. rewrite s32_small by lia.
  replace (u64 (- k)) with (2 ^ 64 - k).
  2:{ unfold u64. rewrite <- (Z_mod_plus_full (- k) 1), Z.mod_small; lia. }
  pose proof (unread_len b H) as Hl. rewrite Hu, length_app, length_le_bytes in Hl.
  destruct H as (He&?&?&?&?&?&Hnb). unfold IOBuf_TryGetBytes, advance; cbn.
  rewrite He, Hnb, !Z.eqb_refl. cbn [negb andb].
  assert (E : u64 (io_pos b + 4 + (2 ^ 64 - k)) = io_pos b + (4 - k)).
  { unfold u64. replace (io_pos b + 4 + (2 ^ 64 - k)) with (io_pos b + (4 - k) + 1 * 2 ^ 64)
      by lia. rewrite Z_mod_plus_full. apply Z.mod_small. lia. }
  rewrite E. destruct (Z.ltb_spec (io_limit b) (io_pos b + (4 - k))); [lia|done].
Qed.

(** ** Whole buffers *)

Lemma enc_all_app fs gs : enc_all (fs ++ gs) = enc_all fs ++ enc_all gs.
Proof. unfold enc_all. by rewrite map_app, concat_app. Qed.

Lemma unread_next b pre rest :
  io_ok b -> unread b = pre ++ rest ->
  io_ok (advance (Z.of_nat (length pre)) b) /\ unread (advance (Z.of_nat (length pre)) b) = rest.
Proof.
  intros Hb Hu. split; [apply advance_ok; [done|rewrite Hu, length_app; lia]|].
  rewrite unread_advance by (done || lia). by rewrite Nat2Z.id, Hu, drop_app_length.
Qed.

(** A buffer with nothing in it. *)
Definition empty_buf (b : IOBuf_t) : Prop :=
  io_wr b /\ io_mem b = [] /\ io_pos b = io_buf b /\ io_nestedOffset b = NESTED_OFFSET_NONE.

Lemma Init_empty addr : 0 < addr -> addr + DEFAULT_SIZE < 2 ^ 63 -> empty_buf (IOBuf_Init addr).1.
Proof.
  intros H0 H1. unfold IOBuf_Init, DEFAULT_SIZE in *. rewrite (proj2 (Z.eqb_neq addr 0)) by lia.
  unfold empty_buf, io_wr, io_ok, io_len. cbn. split_and!; done || lia.
Qed.

(** Peeking at all of an unread buffer, skipping it and shifting leaves an empty
    one. *)
Lemma Drain_ok (realloc : Z -> Z -> Z) b :
  (forall p n, 0 < n <= 2 ^ 33 -> 0 < realloc p n /\ realloc p n + n < 2 ^ 63) ->
  io_wr b -> io_pos b = io_buf b -> io_nestedOffset b = NESTED_OFFSET_NONE ->
  IOBuf_PeekRest b = Ok (b, io_len b, Some (io_pos b)) /\ mem_from b (io_pos b) (io_len b) = io_mem b /\
  exists b1 b2, IOBuf_Skip b (io_len b) = Ok b1 /\ IOBuf_Shift realloc b1 = Ok b2 /\ empty_buf b2.
Proof.
  intros Hr Hw Hp HN. pose proof Hw as [Hok Hc]. pose proof Hok as (He & Hb & _ & Hl63 & Hlen & Hl32 & Hnb).
  assert (Hu : unread b = io_mem b) by (unfold unread; by rewrite Hp, Z.sub_diag).
  split_and!.
  - unfold IOBuf_PeekRest. rewrite (TryGetBytes_ok b 0) by (done || lia). rewrite bind_ret_l, advance_0.
    rewrite u64_small by (unfold io_len in *; lia). by rewrite Hp, Hlen.
  - pose proof (mem_from_unread b [] (io_mem b) [] 0 Hok) as E. cbn in E.
    rewrite advance_0, Z.add_0_r in E. apply E. by rewrite app_nil_r.
  - exists (set_pos (io_buf b + io_len b) b).
    destruct (Shift_ok realloc (set_pos (io_buf b + io_len b) b)) as (b2 & E2 & W2 & _ & M2 & P2 & N2).
    { apply set_pos_wr; [done|unfold io_len; lia]. }
    { done. }
    exists b2. split; [|split; [done|split_and!; [done| |done|done]]].
    + unfold IOBuf_Skip, IOBuf_GetPos. rewrite He, Hp, Z.sub_diag. cbn [Z.eqb negb]. change (u32 0) with 0.
      unfold io_len in *. rewrite Z.add_0_l, !(u32_small (Z.of_nat (length (io_mem b)))) by lia.
      apply SetPos_ok; [done|unfold io_len; lia].
    + rewrite M2. unfold unread. cbn. apply drop_ge. unfold io_len in *. lia.
Qed.

(** ** Properties *)

(** An allocator for concrete runs: every block is placed at address 4096. *)
Definition ex_realloc (p n : Z) : Z := 4096.

Lemma ex_realloc_fits p n :
  0 < n <= 2 ^ 33 -> 0 < ex_realloc p n /\ ex_realloc p n + n < 2 ^ 63.
Proof. unfold ex_realloc. lia. Qed.

Definition ex_buf : IOBuf_t := (IOBuf_Init 4096).1.

Lemma ex_buf_wr : io_wr ex_buf.
Proof. repeat split; vm_compute; done. Qed.

(** Whatever sequence of integers, byte buffers and strings is put into a
    drained writable buffer, growing it as often as needed, the Get functions
    of the same types return the same values in the same order, consume exactly
    what was put, and [IOBuf_GetEOB] then accepts the buffer. *)
Lemma IOBuf_put_get (realloc : Z -> Z -> Z) b fs :
  (forall p n, 0 < n <= 2 ^ 33 -> 0 < realloc p n /\ realloc p n + n < 2 ^ 63) ->
  io_wr b -> unread b = [] -> Forall field_ok fs ->
  io_len b + Z.of_nat (length (enc_all fs)) < 2 ^ 32 ->
  exists b1 b2, put_fields realloc b fs = Ok b1 /\ get_fields b1 fs = Ok (b2, fs) /\
    unread b2 = [] /\ IOBuf_GetEOB b2 = Ok tt.
Proof.
  intros Hr Hw Hu Hf Hl.
  destruct (put_fields_ok realloc Hr b fs Hw Hf Hl) as (b1 & -> & E).
  pose proof (extends_unread b _ b1 (proj1 Hw) E) as U1. rewrite Hu in U1. cbn in U1.
  assert (O1 : io_ok b1) by apply E.
  assert (U1' : unread b1 = enc_all fs ++ []) by (by rewrite app_nil_r).
  exists b1, (advance (Z.of_nat (length (enc_all fs))) b1).
  rewrite (get_fields_ok b1 fs [] O1 Hf U1'). split_and!; try done.
  - rewrite unread_advance, U1, Nat2Z.id, drop_all by (done || lia). done.
  - apply GetEOB_ok.
    + apply advance_ok; [done|]. pose proof (unread_len b1 O1). rewrite U1 in *. lia.
    + rewrite unread_advance, U1, Nat2Z.id, drop_all by (done || lia). done.
Qed.

Definition ex_fields : list field :=
  [F8 1; FBuf (str "key"); F32 (-7); FStr (str "tag:"); F64 (2 ^ 40)].

(** Putting fields between [IOBuf_BeginNested] and [IOBuf_EndNested]
    appends one length-prefixed block, restores the enclosing nesting level, and
    [IOBuf_TryGetNested] returns a view that holds exactly the fields' bytes. *)
Lemma IOBuf_nested_roundtrip (realloc : Z -> Z -> Z) b fs :
  (forall p n, 0 < n <= 2 ^ 33 -> 0 < realloc p n /\ realloc p n + n < 2 ^ 63) ->
  io_wr b -> unread b = [] -> 0 <= io_nestedOffset b < 2 ^ 32 -> Forall field_ok fs ->
  io_len b + 4 + Z.of_nat (length (enc_all fs)) < 2 ^ 32 ->
  Z.of_nat (length (enc_all fs)) < 2 ^ 31 ->
  exists b' b'' v,
    (b1 ← IOBuf_BeginNested realloc b;
     b2 ← put_fields realloc b1 fs;
     IOBuf_EndNested b2) = Ok b' /\
    io_nestedOffset b' = io_nestedOffset b /\
    IOBuf_TryGetNested b' = Ok (b'', Some v) /\ unread b'' = [] /\
    get_fields v fs = Ok (advance (Z.of_nat (length (enc_all fs))) v, fs).
Proof.
  intros Hr Hw Hu HN Hf Hl Hb.
  destruct (Nested_ok realloc Hr b fs Hw HN Hf Hl Hb) as (b' & -> & E).
  pose proof (extends_unread b _ b' (proj1 Hw) E) as U. rewrite Hu in U. cbn in U.
  assert (O : io_ok b') by apply E.
  assert (U' : unread b' = le_bytes 4 (Z.of_nat (length (enc_all fs))) ++ enc_all fs ++ [])
    by (by rewrite app_nil_r).
  destruct (TryGetNested_ok b' (enc_all fs) [] O Hb U') as (v & Hv & Ov & Uv).
  exists b', (advance (4 + Z.of_nat (length (enc_all fs))) b'), v. split_and!; try done.
  - apply E.
  - rewrite unread_advance, U by (done || lia). apply drop_ge.
    cbn [length]. lia.
  - apply (get_fields_ok v fs []); [done..|]. by rewrite app_nil_r.
Qed.

(** The length prefix of a buffer is a signed integer that is converted to
    [size_t] unchecked: a buffer announced with length -4 is accepted although
    only its prefix is there, and reading it moves the read position back to
    the start of the prefix, so the same four bytes are read for ever. *)
Theorem IOBuf_TryGetBuf_negative_length b rest :
  io_ok b -> unread b = le_bytes 4 (-4) ++ rest ->
  IOBuf_TryGetBuf b = Ok (b, Some (io_pos b + 4, 2 ^ 64 - 4)).
Proof.
  intros H Hu. pose proof H as (_&?&?&_).
  rewrite (TryGetBuf_neg b 4 rest) by (done || lia).
  by rewrite advance_0.
Qed.
