(* ===== verification/Latency.v ===== *)
(** * Latency statistics (src/lib/latency.c, latency.h)

    A latency collects how long the runs of some piece of code take, per kind of
    run: minimum, maximum, total, number, and a histogram by powers of two.  The
    running measurements of a latency form a stack of frames, which live with the
    callers; a frame is an address and [lat_frames] is the memory of the frames.  The
    results of [clock_gettime] are arguments; it succeeds. *)

From S2P Require Import Prelude CLib CText IOBuf.

(** ** Data *)

Definition LATENCY_MAX_DIST : Z := 127.
Definition LATENCY_DIST_POOL_SIZE : Z := 5.
Definition LATENCY_HISTOGRAM_WIDTH : Z := 50.
Definition LATENCY_NUM_BUCKETS : Z := 65.

Record timespec : Type := Timespec { ts_sec : Z; ts_nsec : Z }.

Record Latency_Frame_t : Type := LFrame {
  fr_start : timespec;
  fr_accum : Z;
  fr_parent : Z
}.

Record Latency_Dist_t : Type := Dist {
  d_min : Z;
  d_max : Z;
  d_total : Z;
  d_count : Z;
  d_buckets : list Z;
  d_type : Z
}.

(** [l_dists] points into the pool. *)
Record Latency_t : Type := Latency {
  l_name : list Z;
  l_dists : list (option nat);
  l_distPool : list Latency_Dist_t;
  l_distPoolNext : Z;
  l_bottom : Z
}.

Definition set_l_dists (x : list (option nat)) (l : Latency_t) : Latency_t :=
  Latency (l_name l) x (l_distPool l) (l_distPoolNext l) (l_bottom l).
Definition set_l_distPool (x : list Latency_Dist_t) (l : Latency_t) : Latency_t :=
  Latency (l_name l) (l_dists l) x (l_distPoolNext l) (l_bottom l).
Definition set_l_distPoolNext (x : Z) (l : Latency_t) : Latency_t :=
  Latency (l_name l) (l_dists l) (l_distPool l) x (l_bottom l).
Definition set_l_bottom (x : Z) (l : Latency_t) : Latency_t :=
  Latency (l_name l) (l_dists l) (l_distPool l) (l_distPoolNext l) x.

(** Elements of arrays: an index outside is a fault. *)
Definition at_index {A} (l : list A) (i : Z) : res A :=
  if 0 <=? i then
    match l !! Z.to_nat i with Some x => Ok x | None => Fault OutOfBounds end
  else Fault OutOfBounds.

Definition put_index {A} (l : list A) (i : Z) (x : A) : res (list A) :=
  at_index l i;; Ok (<[Z.to_nat i := x]> l).

(** [1 << n] in a type with [w] value bits. *)
Definition shl1 (w n : Z) : res Z := if (0 <=? n) && (n <? w) then Ok (2 ^ n) else Fault OutOfBounds.

(** ** Operations *)

Definition fresh_dist : Latency_Dist_t := Dist (2 ^ 64 - 1) 0 0 0 (replicate 65 0) 0.

Definition LatencyInit (name : list Z) : Latency_t :=
  Latency name (replicate 127 None) (replicate 5 fresh_dist) 0 0.

(** [val >>= 1; while (val) { val >>= 1; ++bucket; }]; a value has 64 bits. *)
Fixpoint HistBucketLoop (fuel : nat) (val bucket : Z) : res Z :=
  match fuel with
  | O => Fault NoFuel
  | S fuel => if val =? 0 then Ok bucket else HistBucketLoop fuel (Z.shiftr val 1) (bucket + 1)
  end.

(** The distribution of a type, taken from the pool when it is new. *)
Definition FindDist (l : Latency_t) (type : Z) : res (Latency_t * nat) :=
  p ← at_index (l_dists l) type;
  match p with
  | Some i => Ok (l, i)
  | None =>
    if l_distPoolNext l =? LATENCY_DIST_POOL_SIZE then Fault PanicCall
    else
      let i := Z.to_nat (l_distPoolNext l) in
      d ← at_index (l_distPool l) (l_distPoolNext l);
      dists ← put_index (l_dists l) type (Some i);
      let d := Dist (d_min d) (d_max d) (d_total d) (d_count d) (d_buckets d) type in
      Ok (set_l_distPoolNext (l_distPoolNext l + 1)
            (set_l_distPool (<[i := d]> (l_distPool l)) (set_l_dists dists l)), i)
  end.

(** Returns the place of the distribution in the pool. *)
Definition LatencyAddHist (l : Latency_t) (type val count : Z) : res (Latency_t * nat) :=
  '(l, i) ← FindDist l type;
  d ← deref (l_distPool l !! i);
  bucket ← HistBucketLoop 65 (Z.shiftr val 1) 0;
  Assert (bucket <? LATENCY_NUM_BUCKETS);;
  n ← at_index (d_buckets d) bucket;
  buckets ← put_index (d_buckets d) bucket (u32 (n + count));
  let d := Dist (d_min d) (d_max d) (d_total d) (d_count d) buckets (d_type d) in
  Ok (set_l_distPool (<[i := d]> (l_distPool l)) l, i).

Definition LatencyAdd (l : Latency_t) (type val : Z) : res Latency_t :=
  '(l, i) ← LatencyAddHist l type val 1;
  d ← deref (l_distPool l !! i);
  let d := Dist (if val <? d_min d then val else d_min d) (if d_max d <? val then val else d_max d)
             (u64 (d_total d + val)) (u64 (d_count d + 1)) (d_buckets d) (d_type d) in
  Ok (set_l_distPool (<[i := d]> (l_distPool l)) l).

(** *** Measuring *)

Notation lat_frames := (gmap Z Latency_Frame_t) (only parsing).

(** [now] is the time [clock_gettime] gives. *)
Definition Latency_Resume (l : Latency_t) (m : lat_frames) (now : timespec) : res lat_frames :=
  fr ← deref (m !! l_bottom l);
  Ok (<[l_bottom l := LFrame now (fr_accum fr) (fr_parent fr)]> m).

Definition Latency_Pause (l : Latency_t) (m : lat_frames) (now : timespec) : res lat_frames :=
  fr ← deref (m !! l_bottom l);
  let start := fr_start fr in
  let delta := u64 (ts_sec now - ts_sec start) in
  let delta := u64 (delta * 1000000000) in
  let delta :=
    if ts_nsec now <? ts_nsec start then
      u64 (u64 (delta - 1000000000) + (ts_nsec now + 1000000000 - ts_nsec start))
    else u64 (delta + (ts_nsec now - ts_nsec start)) in
  Ok (<[l_bottom l := LFrame start (u64 (fr_accum fr + delta)) (fr_parent fr)]> m).

(** The frame [fr] is memory of the caller. *)
Definition Latency_StartRec (l : Latency_t) (m : lat_frames) (fr : Z) (now : timespec) :
    res (Latency_t * lat_frames) :=
  x ← deref (m !! fr);
  let m := <[fr := LFrame (fr_start x) 0 (l_bottom l)]> m in
  let l := set_l_bottom fr l in
  m ← Latency_Resume l m now;
  Ok (l, m).

(** [Latency_EndRecType] up to the flush. *)
Definition EndFrame (l : Latency_t) (m : lat_frames) (fr type : Z) (now : timespec) :
    res (Latency_t * lat_frames) :=
  m ← Latency_Pause l m now;
  Assert (l_bottom l =? fr);;
  x ← deref (m !! fr);
  l ← LatencyAdd (set_l_bottom (fr_parent x) l) type (fr_accum x);
  Ok (l, m).

(** *** Sums *)

(** [d->buckets[b]] for [b] from [b] on. *)
Fixpoint SumBuckets (dest : Latency_t) (type b : Z) (buckets : list Z) : res Latency_t :=
  match buckets with
  | [] => Ok dest
  | n :: buckets =>
    if n =? 0 then SumBuckets dest type (b + 1) buckets
    else
      val ← shl1 63 b;
      '(dest, _) ← LatencyAddHist dest type val n;
      SumBuckets dest type (b + 1) buckets
  end.

Fixpoint SumHists (dest summand : Latency_t) (fuel : nat) (i : Z) : res Latency_t :=
  match fuel with
  | O => Fault NoFuel
  | S fuel =>
    if i <? l_distPoolNext summand then
      d ← at_index (l_distPool summand) i;
      dest ← SumBuckets dest (d_type d) 0 (d_buckets d);
      SumHists dest summand fuel (i + 1)
    else Ok dest
  end.

Fixpoint SumDists (dest summand : Latency_t) (types : list (option nat * option nat)) : res Latency_t :=
  match types with
  | [] => Ok dest
  | (_, None) :: types => SumDists dest summand types
  | (dd, Some si) :: types =>
    ds ← deref (l_distPool summand !! si);
    i ← deref dd;
    d ← deref (l_distPool dest !! i);
    let d := Dist (if d_min ds <? d_min d then d_min ds else d_min d)
               (if d_max d <? d_max ds then d_max ds else d_max d)
               (u64 (d_total d + d_total ds)) (u64 (d_count d + d_count ds)) (d_buckets d) (d_type d) in
    SumDists (set_l_distPool (<[i := d]> (l_distPool dest)) dest) summand types
  end.

(** The second loop does not change [dists]. *)
Definition Latency_Sum (dest summand : Latency_t) : res Latency_t :=
  dest ← SumHists dest summand 6 0;
  SumDists dest summand (zip (l_dists dest) (l_dists summand)).

(** *** Files *)

Definition dist_fields (d : Latency_Dist_t) : list field :=
  [F8 (d_type d); F64 (s64 (d_min d)); F64 (s64 (d_max d)); F64 (s64 (d_total d)); F64 (s64 (d_count d))] ++
  map (fun n => F32 (s32 n)) (d_buckets d).

Section Files.

Context (realloc : Z -> Z -> Z).

Fixpoint PutDists (fuel : nat) (l : Latency_t) (i : Z) (b : IOBuf_t) : res IOBuf_t :=
  match fuel with
  | O => Fault NoFuel
  | S fuel =>
    if i <? l_distPoolNext l then
      d ← at_index (l_distPool l) i;
      b ← put_fields realloc b (dist_fields d);
      PutDists fuel l (i + 1) b
    else Ok b
  end.

Definition Latency_Put (l : Latency_t) (b : IOBuf_t) : res IOBuf_t :=
  b ← IOBuf_PutString realloc b (l_name l);
  b ← IOBuf_PutInt32 realloc b (l_distPoolNext l);
  PutDists 6 l 0 b.

Fixpoint GetBuckets (n : nat) (b : IOBuf_t) : res (IOBuf_t * list Z) :=
  match n with
  | O => Ok (b, [])
  | S n => '(b, x) ← IOBuf_GetInt32 b; '(b, xs) ← GetBuckets n b; Ok (b, u32 x :: xs)
  end.

(** The numbers of a distribution. *)
Definition GetDist (type : Z) (b : IOBuf_t) : res (IOBuf_t * Latency_Dist_t) :=
  '(b, min) ← IOBuf_GetInt64 b;
  '(b, max) ← IOBuf_GetInt64 b;
  '(b, total) ← IOBuf_GetInt64 b;
  '(b, count) ← IOBuf_GetInt64 b;
  '(b, buckets) ← GetBuckets 65 b;
  Ok (b, Dist (u64 min) (u64 max) (u64 total) (u64 count) buckets type).

Fixpoint GetDists (fuel : nat) (l : Latency_t) (i : Z) (b : IOBuf_t) : res (Latency_t * IOBuf_t) :=
  match fuel with
  | O => Fault NoFuel
  | S fuel =>
    if i <? l_distPoolNext l then
      '(b, type) ← IOBuf_GetInt8 b;
      at_index (l_distPool l) i;;
      dists ← put_index (l_dists l) type (Some (Z.to_nat i));
      '(b, d) ← GetDist type b;
      pool ← put_index (l_distPool l) i d;
      GetDists fuel (set_l_distPool pool (set_l_dists dists l)) (i + 1) b
    else Ok (l, b)
  end.

(** [None]: no further latency in the buffer. *)
Definition Latency_TryGet (b : IOBuf_t) : res (IOBuf_t * option Latency_t) :=
  '(b, name) ← IOBuf_TryGetString b;
  match name with
  | None => Ok (b, None)
  | Some p =>
    let l := LatencyInit (cstr_at b p) in
    '(b, n) ← IOBuf_GetInt32 b;
    '(l, b) ← GetDists 6 (set_l_distPoolNext n l) 0 b;
    Ok (b, Some l)
  end.

(** *** All latencies of a process *)

(** [g_next] is the field [next] of the latencies, [g_stats] the file of this
    process under /tmp/stats. *)
Record lat_global : Type := LatGlobal {
  g_lats : gmap Z Latency_t;
  g_head : Z;
  g_next : gmap Z Z;
  g_frames : gmap Z Latency_Frame_t;
  g_lastFlush : timespec;
  g_stats : list Z
}.

Definition _Latency_Init (g : lat_global) (l : Z) (name : list Z) : lat_global :=
  LatGlobal (<[l := LatencyInit name]> (g_lats g)) l (<[l := g_head g]> (g_next g)) (g_frames g)
    (g_lastFlush g) (g_stats g).

Fixpoint LatFlushLoop (fuel : nat) (g : lat_global) (l : Z) (b : IOBuf_t) : res IOBuf_t :=
  match fuel with
  | O => Fault NoFuel
  | S fuel =>
    if l =? 0 then Ok b
    else
      x ← deref (g_lats g !! l);
      b ← Latency_Put x b;
      LatFlushLoop fuel g (default 0 (g_next g !! l)) b
  end.

(** [addr] is what [malloc] returns for the buffer: [inited] stays false, so the
    buffer is initialized every time and the old one is leaked.  [opened]: whether
    the file can be opened. *)
Definition Latency_Flush (g : lat_global) (addr : Z) (opened : bool) : res lat_global :=
  let b := (IOBuf_Init addr).1 in
  b ← LatFlushLoop (S (size (g_lats g))) g (g_head g) b;
  if negb opened then Fault PanicCall
  else
    '(b, count, p) ← IOBuf_PeekRest b;
    p ← deref p;
    let data := mem_from b p count in
    b ← IOBuf_Skip b count;
    IOBuf_Shift realloc b;;
    Ok (LatGlobal (g_lats g) (g_head g) (g_next g) (g_frames g) (g_lastFlush g) data).

Definition LatencyMaybeFlush (g : lat_global) (now : timespec) (addr : Z) (opened : bool) : res lat_global :=
  if negb (ts_sec now =? ts_sec (g_lastFlush g)) then
    Latency_Flush (LatGlobal (g_lats g) (g_head g) (g_next g) (g_frames g) now (g_stats g)) addr opened
  else Ok g.

(** [l] is the address of the latency; the clock is read twice. *)
Definition Latency_EndRecType (g : lat_global) (l fr type : Z) (now now' : timespec) (addr : Z) (opened : bool) :
    res lat_global :=
  x ← deref (g_lats g !! l);
  '(x, m) ← EndFrame x (g_frames g) fr type now;
  LatencyMaybeFlush (LatGlobal (<[l := x]> (g_lats g)) (g_head g) (g_next g) m (g_lastFlush g) (g_stats g))
    now' addr opened.

Definition Latency_EndRec (g : lat_global) (l fr : Z) (now now' : timespec) (addr : Z) (opened : bool) : res lat_global :=
  Latency_EndRecType g l fr 61 now now' addr opened.

(** [defaultFrame] is where the frame inside a latency lies. *)
Definition Latency_Start (defaultFrame : Z -> Z) (g : lat_global) (l : Z) (now : timespec) : res lat_global :=
  x ← deref (g_lats g !! l);
  '(x, m) ← Latency_StartRec x (g_frames g) (defaultFrame l) now;
  Ok (LatGlobal (<[l := x]> (g_lats g)) (g_head g) (g_next g) m (g_lastFlush g) (g_stats g)).

Definition Latency_EndType (defaultFrame : Z -> Z) (g : lat_global) (l type : Z) (now now' : timespec) (addr : Z)
    (opened : bool) : res lat_global :=
  Latency_EndRecType g l (defaultFrame l) type now now' addr opened.

Definition Latency_End (defaultFrame : Z -> Z) (g : lat_global) (l : Z) (now now' : timespec) (addr : Z) (opened : bool) :
    res lat_global :=
  Latency_EndRec g l (defaultFrame l) now now' addr opened.

End Files.

(** *** Printing *)

(** [LatencyFmtNS]: at most four digits and a unit, except for seconds. *)
Fixpoint FmtNSLoop (ns : Z) (units : list (list Z)) : list Z :=
  match units with
  | [] => []
  | [u] => digits 20 ns ++ [32] ++ u
  | u :: units => if 10000 <=? ns then FmtNSLoop (ns / 1000) units else digits 20 ns ++ [32] ++ u
  end.

Definition LatencyFmtNS (ns : Z) : list Z := FmtNSLoop ns [str "ns"; str "us"; str "ms"; str "s"].

(** [%10s] *)
Definition pad10 (s : list Z) : list Z := replicate (10 - length s) 32 ++ s.

(** The loop that finds the median; 65 when it finds none. *)
Fixpoint MedianLoop (buckets : list Z) (accum half medianBucket : Z) : Z :=
  match buckets with
  | [] => medianBucket
  | n :: buckets =>
    let accum := u64 (accum + n) in
    if half <=? accum then medianBucket else MedianLoop buckets accum half (medianBucket + 1)
  end.

Definition DistLine (l : Latency_t) (type : Z) (d : Latency_Dist_t) : res (list Z) :=
  let median := MedianLoop (d_buckets d) 0 (d_count d / 2) 0 in
  if d_count d =? 0 then Fault DivByZero
  else
    mid ← shl1 64 median;
    Ok (str "LATENCY " ++ l_name l ++ (if type =? 61 then [] else [47; type]) ++ str ": " ++
        LatencyFmtNS (d_min d) ++ str " " ++ LatencyFmtNS (d_total d / d_count d) ++ str "/" ++
        LatencyFmtNS mid ++ str " " ++ LatencyFmtNS (d_max d) ++ str " (" ++
        digits 20 (d_count d) ++ str " samples, " ++ LatencyFmtNS (d_total d) ++ str " total)").

(** The first loop: a line per used type, and the used types in order, which the
    code links through [nextTypes]. *)
Fixpoint DumpDists (l : Latency_t) (dists : list (option nat)) (type : Z) : res (list (list Z) * list Z) :=
  match dists with
  | [] => Ok ([], [])
  | None :: dists => DumpDists l dists (type + 1)
  | Some i :: dists =>
    d ← deref (l_distPool l !! i);
    line ← DistLine l type d;
    '(lines, types) ← DumpDists l dists (type + 1);
    Ok (line :: lines, type :: types)
  end.

(** Bucket [i] of the first [distPoolNext] distributions together. *)
Definition bucket_total (l : Latency_t) (i : nat) : Z :=
  foldl (fun total d => u64 (total + default 0 (d_buckets d !! i))) 0 (take (Z.to_nat (l_distPoolNext l)) (l_distPool l)).

Definition largestCount (l : Latency_t) : Z :=
  foldl (fun m i => if m <? bucket_total l i then bucket_total l i else m) LATENCY_HISTOGRAM_WIDTH (seq 0 65).

(** [for (; pos < goal; ++pos) bar[pos] = type;]: [bar] has 51 bytes, and [goal]
    is an [int]. *)
Fixpoint BarLoop (fuel : nat) (bar : list Z) (goal type : Z) : res (list Z) :=
  match fuel with
  | O => Fault OutOfBounds
  | S fuel =>
    if Z.of_nat (length bar) <? goal then BarLoop fuel (bar ++ [type]) goal type else Ok bar
  end.

(** The bar of bucket [i]. *)
Fixpoint BarTypes (l : Latency_t) (types : list Z) (i : nat) (largest total : Z) (bar : list Z) : res (list Z) :=
  match types with
  | [] => Ok bar
  | type :: types =>
    p ← at_index (l_dists l) type;
    match p with
    | None => BarTypes l types i largest total bar
    | Some pi =>
      d ← deref (l_distPool l !! pi);
      n ← at_index (d_buckets d) (Z.of_nat i);
      let total := u64 (total + n) in
      let goal := s32 (u64 (total * LATENCY_HISTOGRAM_WIDTH) / largest) in
      bar ← BarLoop (52 - length bar) bar goal type;
      BarTypes l types i largest total bar
    end
  end.

(** The labels without bars between two bars. *)
Fixpoint GapLines (fuel : nat) (lastPrinted i : Z) : res (list (list Z)) :=
  match fuel with
  | O => Fault NoFuel
  | S fuel =>
    if lastPrinted <? i then
      val ← shl1 64 lastPrinted;
      lines ← GapLines fuel (lastPrinted + 1) i;
      Ok ((pad10 (LatencyFmtNS val) ++ str " |") :: lines)
    else Ok []
  end.

Fixpoint BarLines (l : Latency_t) (types : list Z) (largest : Z) (is' : list nat) (lastPrinted : Z) : res (list (list Z)) :=
  match is' with
  | [] => Ok []
  | i :: is' =>
    bar ← BarTypes l types i largest 0 [];
    if bool_decide (bar = []) then BarLines l types largest is' lastPrinted
    else
      if (length bar <=? 50)%nat then
        gap ← (if lastPrinted <? Z.of_nat i - 3 then Ok [pad10 (str "...") ++ str " |"]
               else GapLines 66 (lastPrinted + 1) (Z.of_nat i));
        val ← shl1 64 (Z.of_nat i);
        lines ← BarLines l types largest is' (Z.of_nat i);
        Ok (gap ++ (pad10 (LatencyFmtNS val) ++ str " | " ++ bar) :: lines)
      else Fault OutOfBounds
  end.

(** The lines that are printed. *)
Definition Latency_Dump (l : Latency_t) : res (list (list Z)) :=
  if l_distPoolNext l =? 0 then Ok []
  else
    '(lines, types) ← DumpDists l (l_dists l) 0;
    bars ← BarLines l types (largestCount l) (seq 0 65) LATENCY_NUM_BUCKETS;
    Ok (lines ++ bars).

Fixpoint LatencyMapDump (fuel : nat) (g : lat_global) (l : Z) : res (list (list Z)) :=
  match fuel with
  | O => Fault NoFuel
  | S fuel =>
    if l =? 0 then Ok []
    else
      x ← deref (g_lats g !! l);
      lines ← Latency_Dump x;
      rest ← LatencyMapDump fuel g (default 0 (g_next g !! l));
      Ok (lines ++ rest)
  end.

Definition Latency_DumpAll (g : lat_global) : res (list (list Z)) :=
  LatencyMapDump (S (size (g_lats g))) g (g_head g).
