(* ===== verification/LatencySpec.v ===== *)
(** * What latency statistics tell

    A latency is a summary of the samples it was given: per type the minimum, the
    maximum, the total, the number and the histogram.  Measuring refines a stack of
    stop watches; the sum of two latencies summarises the samples of both; and what
    is written to a file is what is read. *)

From S2P Require Import Prelude CLib CText IOBuf Latency.

(** ** Pools of distributions *)

Definition empty_dist (t : Z) : Latency_Dist_t := Dist (2 ^ 64 - 1) 0 0 0 (replicate 65 0) t.

Definition set_dist (t : Z) (d : Latency_Dist_t) (f : Z -> Latency_Dist_t) : Z -> Latency_Dist_t :=
  fun t' => if t' =? t then d else f t'.

(** The pool of [l] holds the distributions [f] of the types [ts], in this
    order. *)
Record pooled (l : Latency_t) (ts : list Z) (f : Z -> Latency_Dist_t) : Prop := {
  pl_nodup : NoDup ts;
  pl_few : (length ts <= 5)%nat;
  pl_range : Forall (fun t => 0 <= t < LATENCY_MAX_DIST) ts;
  pl_next : l_distPoolNext l = Z.of_nat (length ts);
  pl_pool : l_distPool l = map f ts ++ replicate (5 - length ts) fresh_dist;
  pl_length : length (l_dists l) = 127%nat;
  pl_dists : forall t i, 0 <= t < LATENCY_MAX_DIST ->
    l_dists l !! Z.to_nat t = Some (Some i) <-> ts !! i = Some t;
  pl_rest : forall t, t ∉ ts -> f t = empty_dist t
}.

Definition add_type (t : Z) (ts : list Z) : list Z := if decide (t ∈ ts) then ts else ts ++ [t].

Lemma add_type_in t t' ts : t' ∈ add_type t ts <-> t' = t \/ t' ∈ ts.
Proof. unfold add_type. case_decide; set_solver. Qed.

Lemma at_index_ok {A} (l : list A) (i : Z) x : 0 <= i -> l !! Z.to_nat i = Some x -> at_index l i = Ok x.
Proof. intros Hi E. unfold at_index. by rewrite (proj2 (Z.leb_le 0 i)), E by done. Qed.

Lemma put_index_ok {A} (l : list A) (i : Z) x :
  0 <= i < Z.of_nat (length l) -> put_index l i x = Ok (<[Z.to_nat i := x]> l).
Proof.
  intros Hi. unfold put_index. destruct (lookup_lt_is_Some_2 l (Z.to_nat i)) as [y E]; [lia|].
  by rewrite (at_index_ok l i y) by (done || lia).
Qed.

Lemma set_dist_map t d f ts : t ∉ ts -> map (set_dist t d f) ts = map f ts.
Proof.
  intros Ht. apply map_ext_in. intros x Hx. unfold set_dist. destruct (Z.eqb_spec x t) as [->|]; [|done].
  destruct Ht. by apply list_elem_of_In.
Qed.

Lemma set_dist_eq t d f : set_dist t d f t = d.
Proof. unfold set_dist. by rewrite Z.eqb_refl. Qed.

Lemma set_dist_ne t t' d f : t' <> t -> set_dist t d f t' = f t'.
Proof. intros H. unfold set_dist. by rewrite (proj2 (Z.eqb_neq t' t)). Qed.

Lemma set_dist_insert t i d f ts :
  NoDup ts -> ts !! i = Some t -> map (set_dist t d f) ts = <[i := d]> (map f ts).
Proof.
  intros HN Hi. apply list_eq. intros j. change (map f ts) with (f <$> ts).
  change (map (set_dist t d f) ts) with (set_dist t d f <$> ts).
  destruct (decide (i = j)) as [<-|Hne].
  - rewrite list_lookup_fmap, Hi, list_lookup_insert_eq; [cbn; by rewrite set_dist_eq|].
    rewrite length_fmap. by apply lookup_lt_Some in Hi.
  - rewrite list_lookup_insert_ne, !list_lookup_fmap by done. destruct (ts !! j) as [t'|] eqn:Ej; [|done].
    cbn. rewrite set_dist_ne; [done|]. intros ->. apply Hne. by apply (NoDup_lookup ts i j t).
Qed.

(** Changing the distribution at place [i]. *)
Lemma pooled_update l ts f i t d :
  pooled l ts f -> ts !! i = Some t -> pooled (set_l_distPool (<[i := d]> (l_distPool l)) l) ts (set_dist t d f).
Proof.
  intros [HN Hf Hr Hn Hp Hl Hd He] Hi. split; cbn; try done.
  - rewrite Hp, insert_app_l by (rewrite length_map; by apply lookup_lt_Some in Hi).
    by rewrite (set_dist_insert t i).
  - intros t' Ht'. rewrite set_dist_ne; [by apply He|]. intros ->. apply Ht'. by apply list_elem_of_lookup_2 in Hi.
Qed.

Lemma pooled_lookup l ts f i t : pooled l ts f -> ts !! i = Some t -> l_distPool l !! i = Some (f t).
Proof.
  intros H Hi. rewrite (pl_pool _ _ _ H), lookup_app_l by (rewrite length_map; by apply lookup_lt_Some in Hi).
  change (map f ts) with (f <$> ts). by rewrite list_lookup_fmap, Hi.
Qed.

(** A new type takes the next place in the pool. *)
Lemma pooled_push l ts f t d :
  pooled l ts f -> t ∉ ts -> 0 <= t < LATENCY_MAX_DIST -> (length ts < 5)%nat ->
  pooled (Latency (l_name l) (<[Z.to_nat t := Some (length ts)]> (l_dists l)) (<[length ts := d]> (l_distPool l))
            (Z.of_nat (length ts) + 1) (l_bottom l)) (ts ++ [t]) (set_dist t d f).
Proof.
  intros [HN Hf Hr Hn Hp Hl Hd He] Hnt Ht H5. unfold LATENCY_MAX_DIST in *.
  assert (E5 : (5 - length ts = S (4 - length ts))%nat) by lia. split; cbn [l_distPoolNext l_distPool l_dists].
  - apply NoDup_app. split_and!; [done| |apply NoDup_singleton]. intros x Hx ->%list_elem_of_singleton. done.
  - rewrite length_app. cbn. lia.
  - apply Forall_app. split; [done|]. by constructor.
  - rewrite length_app. cbn. lia.
  - rewrite Hp, E5. cbn [replicate]. rewrite map_app, insert_app_r_alt by (rewrite length_map; lia).
    rewrite length_map, Nat.sub_diag. cbn [map]. rewrite set_dist_eq, set_dist_map, length_app by done.
    cbn [length]. replace (5 - (length ts + 1))%nat with (4 - length ts)%nat by lia. by rewrite <- app_assoc.
  - by rewrite length_insert.
  - intros t' i Ht'. destruct (decide (t' = t)) as [->|Hne].
    + rewrite list_lookup_insert_eq by lia. split; [intros [= <-]; by rewrite lookup_app_r, Nat.sub_diag by lia|].
      intros [Hi|[Hle [Hi _]%list_lookup_singleton_Some]]%lookup_app_Some.
      { destruct Hnt. by apply list_elem_of_lookup_2 in Hi. }
      do 2 f_equal. lia.
    + rewrite list_lookup_insert_ne by lia. rewrite Hd by done. split; [intros Hi; by apply lookup_app_l_Some|].
      intros [Hi|[_ [_ Hi]%list_lookup_singleton_Some]]%lookup_app_Some; [done|congruence].
  - intros t' [Ht' Hne%not_elem_of_cons]%not_elem_of_app. rewrite set_dist_ne by apply Hne. by apply He.
Qed.

Lemma pooled_ext l ts f g : pooled l ts f -> (forall t, f t = g t) -> pooled l ts g.
Proof.
  intros [HN Hf Hr Hn Hp Hl Hd He] E. split; try done.
  - rewrite Hp. f_equal. by apply map_ext.
  - intros t Ht. rewrite <- E. by apply He.
Qed.

Lemma FindDist_ok l ts f t :
  pooled l ts f -> 0 <= t < LATENCY_MAX_DIST -> (length (add_type t ts) <= 5)%nat ->
  exists l' i, FindDist l t = Ok (l', i) /\ add_type t ts !! i = Some t /\ pooled l' (add_type t ts) f /\
    l_name l' = l_name l /\ l_bottom l' = l_bottom l.
Proof.
  intros H Ht H5. unfold FindDist. pose proof H as [HN Hf Hr Hn Hp Hl Hd He].
  destruct (lookup_lt_is_Some_2 (l_dists l) (Z.to_nat t)) as [o Eo]; [unfold LATENCY_MAX_DIST in *; lia|].
  rewrite (at_index_ok _ _ o) by (done || lia). rewrite bind_ret_l. unfold add_type in *. destruct o as [i|].
  - apply Hd in Eo; [|done]. rewrite decide_True by (by apply list_elem_of_lookup_2 in Eo).
    exists l, i. done.
  - assert (Hnt : t ∉ ts).
    { intros (i & Hi)%list_elem_of_lookup_1. apply (Hd t i Ht) in Hi. congruence. }
    rewrite decide_False in * by done. rewrite length_app in H5. cbn in H5.
    rewrite Hn. unfold LATENCY_DIST_POOL_SIZE. rewrite (proj2 (Z.eqb_neq _ 5)) by lia. rewrite Nat2Z.id.
    rewrite (at_index_ok _ _ fresh_dist); [|lia|].
    2:{ rewrite Nat2Z.id, Hp, lookup_app_r, length_map, Nat.sub_diag by (rewrite length_map; lia).
        by replace (5 - length ts)%nat with (S (4 - length ts)) by lia. }
    rewrite bind_ret_l, put_index_ok, bind_ret_l by (unfold LATENCY_MAX_DIST in *; lia).
    eexists _, (length ts). split; [done|]. split; [by rewrite lookup_app_r, Nat.sub_diag by lia|]. split; [|done].
    eapply pooled_ext; [exact (pooled_push l ts f t (empty_dist t) H Hnt Ht ltac:(lia))|].
    intros t'. unfold set_dist. destruct (Z.eqb_spec t' t) as [->|]; [by rewrite He|done].
Qed.

(** ** Histograms *)

Lemma half_log2 v : 0 <= v -> (if v / 2 =? 0 then 0 else Z.log2 (v / 2) + 1) = Z.log2 v.
Proof.
  intros Hv. destruct (Z.lt_ge_cases v 2) as [H2|H2].
  - assert (v = 0 \/ v = 1) as [->| ->] by lia; done.
  - assert (1 <= v / 2) by (apply Z.div_le_lower_bound; lia).
    rewrite (proj2 (Z.eqb_neq _ 0)) by lia. rewrite <- Z.div2_div, Z.div2_spec, Z.log2_shiftr by lia.
    assert (1 <= Z.log2 v) by (apply Z.log2_le_pow2; lia). lia.
Qed.

Lemma half_bound v n : 0 <= v < 2 ^ Z.of_nat (S n) -> 0 <= v / 2 < 2 ^ Z.of_nat n.
Proof.
  rewrite Nat2Z.inj_succ, Z.pow_succ_r by lia. intros Hv.
  split; [apply Z.div_pos; lia|apply Z.div_lt_upper_bound; lia].
Qed.

Lemma HistBucketLoop_ok fuel v b :
  0 <= v < 2 ^ Z.of_nat fuel -> HistBucketLoop (S fuel) v b = Ok (b + (if v =? 0 then 0 else Z.log2 v + 1)).
Proof.
  revert v b. induction fuel as [|fuel IH]; intros v b Hv.
  - cbn in *. replace v with 0 by lia. cbn. f_equal; lia.
  - change (HistBucketLoop (S (S fuel)) v b) with
      (if v =? 0 then Ok b else HistBucketLoop (S fuel) (Z.shiftr v 1) (b + 1)).
    destruct (Z.eqb_spec v 0) as [->|Hne]; [f_equal; lia|].
    rewrite Z.shiftr_div_pow2 by lia. change (2 ^ 1) with 2.
    rewrite IH by (by apply half_bound). f_equal. pose proof (half_log2 v ltac:(lia)). lia.
Qed.

Lemma Bucket_log2 v : 0 <= v < 2 ^ 64 -> HistBucketLoop 65 (Z.shiftr v 1) 0 = Ok (Z.log2 v).
Proof.
  intros Hv. rewrite Z.shiftr_div_pow2 by lia. change (2 ^ 1) with 2.
  pose proof (half_bound v 63 Hv). rewrite (HistBucketLoop_ok 64) by lia. by rewrite half_log2 by lia.
Qed.

Lemma log2_bucket v : 0 <= v < 2 ^ 64 -> 0 <= Z.log2 v < 64.
Proof.
  intros Hv. split; [apply Z.log2_nonneg|]. destruct (Z.eq_dec v 0) as [->|]; [done|]. apply Z.log2_lt_pow2; lia.
Qed.

Definition bump (b : nat) (n : Z) (d : Latency_Dist_t) : Latency_Dist_t :=
  Dist (d_min d) (d_max d) (d_total d) (d_count d)
    (<[b := u32 (default 0 (d_buckets d !! b) + n)]> (d_buckets d)) (d_type d).

Lemma AddHist_ok l ts f t v n :
  pooled l ts f -> 0 <= t < LATENCY_MAX_DIST -> (length (add_type t ts) <= 5)%nat ->
  0 <= v < 2 ^ 64 -> length (d_buckets (f t)) = 65%nat ->
  exists l' i, LatencyAddHist l t v n = Ok (l', i) /\ add_type t ts !! i = Some t /\
    pooled l' (add_type t ts) (set_dist t (bump (Z.to_nat (Z.log2 v)) n (f t)) f) /\
    l_name l' = l_name l /\ l_bottom l' = l_bottom l.
Proof.
  intros H Ht H5 Hv Hb. unfold LatencyAddHist.
  destruct (FindDist_ok l ts f t H Ht H5) as (l1 & i & -> & Hi & H1 & Hn & Hbt). rewrite bind_ret_l.
  rewrite (pooled_lookup _ _ _ _ _ H1 Hi). cbn [deref]. rewrite bind_ret_l, Bucket_log2, bind_ret_l by done.
  pose proof (log2_bucket v Hv). unfold LATENCY_NUM_BUCKETS. rewrite (proj2 (Z.ltb_lt _ 65)) by lia.
  cbn [Assert]. rewrite bind_ret_l.
  destruct (lookup_lt_is_Some_2 (d_buckets (f t)) (Z.to_nat (Z.log2 v))) as [x Ex]; [lia|].
  rewrite (at_index_ok _ _ x), bind_ret_l by (done || lia). rewrite put_index_ok, bind_ret_l by lia.
  eexists _, i. split; [done|]. split; [done|]. split; [|done].
  replace x with (default 0 (d_buckets (f t) !! Z.to_nat (Z.log2 v))) by (by rewrite Ex).
  by apply pooled_update.
Qed.

(** ** Summaries *)

(** Samples are pairs of a type and a value. *)
Definition of_type (t : Z) (ss : list (Z * Z)) : list Z := map snd (filter (fun s => s.1 = t) ss).

#[global] Arguments of_type : simpl never.

Definition in_bucket (b : nat) (vs : list Z) : Z :=
  Z.of_nat (length (filter (fun v => Z.log2 v = Z.of_nat b) vs)).

Definition histogram (vs : list Z) : list Z := map (fun b => u32 (in_bucket b vs)) (seq 0 65).

Definition dist_of (t : Z) (vs : list Z) : Latency_Dist_t :=
  Dist (foldr Z.min (2 ^ 64 - 1) vs) (foldr Z.max 0 vs) (u64 (Zsum vs)) (u64 (Z.of_nat (length vs)))
    (histogram vs) t.

(** The latency has seen exactly the samples [ss]. *)
Definition summary (l : Latency_t) (ss : list (Z * Z)) : Prop :=
  exists ts, pooled l ts (fun t => dist_of t (of_type t ss)) /\ forall t, t ∈ ts <-> t ∈ map fst ss.

Definition sample_ok (s : Z * Z) : Prop := 0 <= s.1 < LATENCY_MAX_DIST /\ 0 <= s.2 < 2 ^ 63.

(** The samples have at most five types. *)
Definition few_types (ss : list (Z * Z)) : Prop :=
  exists ts, (length ts <= 5)%nat /\ forall t, t ∈ map fst ss -> t ∈ ts.

Lemma few_length ts ss : NoDup ts -> (forall t, t ∈ ts -> t ∈ map fst ss) -> few_types ss -> (length ts <= 5)%nat.
Proof.
  intros HN Hs (ts' & H5 & Ht). etrans; [|exact H5]. apply submseteq_length, NoDup_submseteq; [done|]. auto.
Qed.

Lemma histogram_length vs : length (histogram vs) = 65%nat.
Proof. unfold histogram. by rewrite length_map, length_seq. Qed.

Lemma histogram_lookup b vs : (b < 65)%nat -> histogram vs !! b = Some (u32 (in_bucket b vs)).
Proof.
  intros Hb. unfold histogram. change (map ?f ?l) with (f <$> l). rewrite list_lookup_fmap.
  by rewrite (lookup_seq_lt 0 65 b Hb).
Qed.

Lemma u32_add x y : u32 (u32 x + y) = u32 (x + y).
Proof. unfold u32. apply Zplus_mod_idemp_l. Qed.

Lemma u64_add x y : u64 (u64 x + y) = u64 (x + y).
Proof. unfold u64. apply Zplus_mod_idemp_l. Qed.

Lemma dist_of_nil t : dist_of t [] = empty_dist t.
Proof. reflexivity. Qed.

Lemma of_type_cons t s ss : of_type t (s :: ss) = if decide (s.1 = t) then s.2 :: of_type t ss else of_type t ss.
Proof. unfold of_type. rewrite filter_cons. by case_decide. Qed.

Lemma of_type_app t ss ss' : of_type t (ss ++ ss') = of_type t ss ++ of_type t ss'.
Proof. unfold of_type. by rewrite filter_app, map_app. Qed.

Lemma of_type_nil t ss : t ∉ map fst ss -> of_type t ss = [].
Proof.
  induction ss as [|s ss IH]; [done|]. intros [Hs Hn]%not_elem_of_cons.
  rewrite of_type_cons, decide_False by congruence. auto.
Qed.

(** *** A new sample *)

Definition sample (v : Z) (d : Latency_Dist_t) : Latency_Dist_t :=
  Dist (if v <? d_min d then v else d_min d) (if d_max d <? v then v else d_max d)
    (u64 (d_total d + v)) (u64 (d_count d + 1)) (d_buckets d) (d_type d).

Lemma histogram_cons v vs :
  0 <= v < 2 ^ 64 ->
  histogram (v :: vs) = <[Z.to_nat (Z.log2 v) := u32 (default 0 (histogram vs !! Z.to_nat (Z.log2 v)) + 1)]> (histogram vs).
Proof.
  intros Hv. pose proof (log2_bucket v Hv). apply list_eq. intros b.
  destruct (decide (b < 65)%nat) as [Hb|Hb].
  2:{ rewrite !lookup_ge_None_2; [done|..]; rewrite ?length_insert, histogram_length; lia. }
  rewrite histogram_lookup by done. destruct (decide (Z.to_nat (Z.log2 v) = b)) as [<-|Hne].
  - rewrite list_lookup_insert_eq by (rewrite histogram_length; lia).
    rewrite histogram_lookup by done. cbn -[u32 in_bucket]. rewrite u32_add. unfold in_bucket.
    rewrite filter_cons_True by lia. cbn [length]. do 2 f_equal. lia.
  - rewrite list_lookup_insert_ne, histogram_lookup by done. unfold in_bucket.
    by rewrite filter_cons_False by lia.
Qed.

Lemma dist_of_cons t v vs :
  0 <= v < 2 ^ 64 -> dist_of t (v :: vs) = sample v (bump (Z.to_nat (Z.log2 v)) 1 (dist_of t vs)).
Proof.
  intros Hv. unfold dist_of, sample, bump. cbn [d_min d_max d_total d_count d_buckets d_type foldr].
  rewrite <- histogram_cons, !u64_add by done. f_equal.
  - destruct (Z.ltb_spec v (foldr Z.min (2 ^ 64 - 1) vs)); lia.
  - destruct (Z.ltb_spec (foldr Z.max 0 vs) v); lia.
  - f_equal. cbn. lia.
  - f_equal. cbn [length]. lia.
Qed.

Lemma NoDup_add_type t ts : NoDup ts -> NoDup (add_type t ts).
Proof.
  intros HN. unfold add_type. case_decide as Hi; [done|]. apply NoDup_app.
  split_and!; [done| |apply NoDup_singleton]. intros x Hx ->%list_elem_of_singleton. done.
Qed.

Lemma LatencyAdd_ok l ss t v :
  summary l ss -> 0 <= t < LATENCY_MAX_DIST -> 0 <= v < 2 ^ 64 -> few_types ((t, v) :: ss) ->
  exists l', LatencyAdd l t v = Ok l' /\ summary l' ((t, v) :: ss) /\
    l_name l' = l_name l /\ l_bottom l' = l_bottom l.
Proof.
  intros (ts & H & Hts) Ht Hv H5.
  assert (Hts' : forall t', t' ∈ add_type t ts <-> t' ∈ map fst ((t, v) :: ss)).
  { intros t'. rewrite add_type_in, Hts. cbn. by rewrite elem_of_cons. }
  unfold LatencyAdd. destruct (AddHist_ok l ts _ t v 1 H Ht) as (l1 & i & -> & Hi & H1 & Hn & Hb).
  { eapply few_length; [by apply NoDup_add_type, (pl_nodup _ _ _ H)| |done]. intros t'. apply Hts'. }
  { done. }
  { apply histogram_length. }
  rewrite bind_ret_l, (pooled_lookup _ _ _ _ _ H1 Hi). cbn [deref]. rewrite bind_ret_l, set_dist_eq.
  eexists; split; [done|]. split; [|done]. exists (add_type t ts). split; [|done].
  eapply pooled_ext; [exact (pooled_update _ _ _ i t _ H1 Hi)|]. intros t'. rewrite of_type_cons. cbn [fst snd].
  destruct (decide (t = t')) as [<-|Hne].
  - rewrite set_dist_eq, dist_of_cons by done. reflexivity.
  - by rewrite !set_dist_ne by congruence.
Qed.

Lemma Init_summary name : summary (LatencyInit name) [].
Proof.
  exists []. split; [|done]. split; cbn; try done; try lia; [constructor|].
  intros t i Ht. split; [|done].
  intros E%(list_elem_of_lookup_2 (replicate 127 None)). by apply elem_of_replicate in E as [? _].
Qed.

(** ** Measuring refines a stack of clocks *)

Definition ns (t : timespec) : Z := ts_sec t * 1000000000 + ts_nsec t.
Definition ts_ok (t : timespec) : Prop := 0 <= ts_nsec t < 1000000000.

(** A measurement is a stop watch: its frame, since when it has been running, if it
    is, and the time it shows from before. *)
Record clock : Type := Clock { c_frame : Z; c_run : option Z; c_time : Z }.

Inductive lat_op : Type :=
| LStart (fr : Z) (now : timespec)
| LPause (now : timespec)
| LResume (now : timespec)
| LEnd (fr type : Z) (now : timespec).

Definition lat_step (s : Latency_t * gmap Z Latency_Frame_t) (op : lat_op) :
    res (Latency_t * gmap Z Latency_Frame_t) :=
  let '(l, m) := s in
  match op with
  | LStart fr now => Latency_StartRec l m fr now
  | LPause now => m ← Latency_Pause l m now; Ok (l, m)
  | LResume now => m ← Latency_Resume l m now; Ok (l, m)
  | LEnd fr type now => EndFrame l m fr type now
  end.

Fixpoint lat_run (s : Latency_t * gmap Z Latency_Frame_t) (ops : list lat_op) :
    res (Latency_t * gmap Z Latency_Frame_t) :=
  match ops with
  | [] => Ok s
  | op :: ops => s ← lat_step s op; lat_run s ops
  end.

(** The specification: only a running clock is paused or ended, only a paused one
    resumed; [None] when the calls are not nested properly. *)
Definition clock_step (s : list clock * list (Z * Z)) (op : lat_op) : option (list clock * list (Z * Z)) :=
  let '(st, ss) := s in
  match op, st with
  | LStart fr now, _ => if decide (fr ∈ map c_frame st) then None else Some (Clock fr (Some (ns now)) 0 :: st, ss)
  | LPause now, Clock fr (Some since) time :: st => Some (Clock fr None (time + (ns now - since)) :: st, ss)
  | LResume now, Clock fr None time :: st => Some (Clock fr (Some (ns now)) time :: st, ss)
  | LEnd fr type now, Clock fr' (Some since) time :: st =>
    if decide (fr' = fr) then Some (st, (type, u64 (time + (ns now - since))) :: ss) else None
  | _, _ => None
  end.

Fixpoint clock_run (s : list clock * list (Z * Z)) (ops : list lat_op) : option (list clock * list (Z * Z)) :=
  match ops with
  | [] => Some s
  | op :: ops => clock_step s op ≫= fun s => clock_run s ops
  end.

(** The clock is normalised, frames are memory, types are characters the tables
    have room for. *)
Definition op_ok (m : gmap Z Latency_Frame_t) (op : lat_op) : Prop :=
  match op with
  | LStart fr now => fr <> 0 /\ is_Some (m !! fr) /\ ts_ok now
  | LPause now | LResume now => ts_ok now
  | LEnd _ type now => 0 <= type < LATENCY_MAX_DIST /\ ts_ok now
  end.

Definition top (st : list clock) : Z := match st with [] => 0 | c :: _ => c_frame c end.

(** The frames of the stack [st], linked through [parent]. *)
Fixpoint stack_frames (m : gmap Z Latency_Frame_t) (st : list clock) : Prop :=
  match st with
  | [] => True
  | c :: st =>
    c_frame c <> 0 /\ c_frame c ∉ map c_frame st /\
    (exists t, m !! c_frame c = Some (LFrame t (u64 (c_time c)) (top st)) /\
       (forall since, c_run c = Some since -> ts_ok t /\ ns t = since)) /\
    stack_frames m st
  end.

Lemma stack_frame_ne m st a x : a ∉ map c_frame st -> stack_frames m st -> stack_frames (<[a := x]> m) st.
Proof.
  induction st as [|c st IH]; [done|]. intros [Hc Hn]%not_elem_of_cons (H0 & Hd & (t & E & Ht) & Hst).
  split_and!; [done..| |by apply IH]. exists t. by rewrite lookup_insert_ne.
Qed.

Lemma u64_turns x : exists k, u64 x = x + k * 2 ^ 64.
Proof. exists (- (x / 2 ^ 64)). unfold u64. pose proof (Z.div_mod x (2 ^ 64) ltac:(lia)). lia. Qed.

Lemma u64_eq x y k : x = y + k * 2 ^ 64 -> u64 x = u64 y.
Proof. intros ->. unfold u64. apply Z_mod_plus_full. Qed.

(** The arithmetic on seconds and nanoseconds. *)
Lemma Pause_ok l m fr since time st now :
  stack_frames m (Clock fr (Some since) time :: st) -> l_bottom l = fr -> ts_ok now ->
  exists t, Latency_Pause l m now = Ok (<[fr := LFrame t (u64 (time + (ns now - since))) (top st)]> m) /\
    ts_ok t /\ ns t = since.
Proof.
  intros (H0 & Hd & (t & E & Ht) & Hst) Hb Hn. cbn [c_frame c_run c_time] in *. destruct (Ht since eq_refl) as [Hto Es]. unfold Latency_Pause. rewrite Hb, E. cbn [deref].
  rewrite bind_ret_l. exists t. split; [|done]. cbn [fr_start fr_accum fr_parent]. do 3 f_equal.
  rewrite <- Es. unfold ns. destruct (u64_turns time) as [k0 ->]. destruct (u64_turns (ts_sec now - ts_sec t)) as [k1 ->].
  destruct (u64_turns ((ts_sec now - ts_sec t + k1 * 2 ^ 64) * 1000000000)) as [k2 ->].
  destruct (Z.ltb_spec (ts_nsec now) (ts_nsec t)).
  - set (x := u64 (_ - _)). destruct (u64_turns (x + (ts_nsec now + 1000000000 - ts_nsec t))) as [k3 ->].
    unfold x. match goal with |- context [u64 (?a - ?b)] => destruct (u64_turns (a - b)) as [k4 ->] end.
    apply (u64_eq _ _ (k0 + k1 * 1000000000 + k2 + k3 + k4)). lia.
  - match goal with |- u64 (_ + u64 ?a) = _ => destruct (u64_turns a) as [k3 ->] end.
    apply (u64_eq _ _ (k0 + k1 * 1000000000 + k2 + k3)). lia.
Qed.

Definition clocks_ok (s : Latency_t * gmap Z Latency_Frame_t) (a : list clock * list (Z * Z)) : Prop :=
  l_bottom s.1 = top a.1 /\ stack_frames s.2 a.1 /\ summary s.1 a.2.

Lemma u64_range x : 0 <= u64 x < 2 ^ 64.
Proof. apply Z.mod_pos_bound. lia. Qed.

Lemma summary_bottom l ss x : summary l ss -> summary (set_l_bottom x l) ss.
Proof. intros (ts & [] & Hts). exists ts. split; [by split|done]. Qed.

Lemma insert_is_Some (m : gmap Z Latency_Frame_t) a x y :
  is_Some (m !! a) -> is_Some (<[a := x]> m !! y) <-> is_Some (m !! y).
Proof.
  intros Ha. destruct (decide (a = y)) as [<-|]; [|by rewrite lookup_insert_ne].
  rewrite lookup_insert_eq. split; eauto.
Qed.

Lemma clock_step_ok l m a op a' :
  clocks_ok (l, m) a -> op_ok m op -> clock_step a op = Some a' -> few_types a'.2 ->
  exists s', lat_step (l, m) op = Ok s' /\ clocks_ok s' a' /\ (forall x, is_Some (s'.2 !! x) <-> is_Some (m !! x)) /\
    l_name s'.1 = l_name l.
Proof.
  destruct a as [st ss]. intros (Hb & Hst & Hs) Hop E H5. cbn [fst snd] in *.
  destruct op as [fr now|now|now|fr type now]; cbn [lat_step clock_step op_ok] in *.
  - destruct (decide (fr ∈ map c_frame st)) as [|Hn]; [done|]. injection E as <-.
    destruct Hop as (H0 & [x Ex] & Ht). unfold Latency_StartRec, Latency_Resume. rewrite Ex. cbn [deref].
    rewrite bind_ret_l. cbn [l_bottom set_l_bottom]. rewrite lookup_insert_eq. cbn [deref]. rewrite !bind_ret_l.
    eexists; split; [done|]. rewrite insert_insert_eq. split; [|split; [|done]].
    + split_and!; [done| |by apply summary_bottom]. cbn. split_and!; [done..| |by apply stack_frame_ne].
      exists now. rewrite lookup_insert_eq, Hb. split; [done|]. by intros since [= <-].
    + intros y. apply insert_is_Some. by rewrite Ex.
  - destruct st as [|[fr [since|] time] st]; [done| |done]. injection E as <-.
    destruct (Pause_ok l m fr since time st now Hst Hb Hop) as (t & -> & Ht & Es). rewrite bind_ret_l.
    eexists; split; [done|]. pose proof Hst as (H0 & Hd & (t' & E' & _) & Hst'). split; [|split; [|done]].
    + split_and!; [done| |done]. cbn. split_and!; [done..| |by apply stack_frame_ne].
      exists t. by rewrite lookup_insert_eq.
    + intros y. apply insert_is_Some. cbn in E'. by rewrite E'.
  - destruct st as [|[fr [since|] time] st]; [done|done|]. injection E as <-. destruct Hst as (H0 & Hd & (t' & E' & _) & Hst').
    unfold Latency_Resume. rewrite Hb. cbn [top c_frame] in *. rewrite E'. cbn [deref]. rewrite !bind_ret_l.
    eexists; split; [done|]. split; [|split; [|done]].
    + split_and!; [done| |done]. cbn. split_and!; [done..| |by apply stack_frame_ne].
      exists now. rewrite lookup_insert_eq. split; [done|]. by intros since [= <-].
    + intros y. apply insert_is_Some. cbn in E'. by rewrite E'.
  - destruct st as [|[fr' [since|] time] st]; [done| |done]. destruct (decide (fr' = fr)) as [<-|]; [|done]. injection E as <-.
    destruct Hop as [Htype Ht]. unfold EndFrame.
    destruct (Pause_ok l m fr' since time st now Hst Hb Ht) as (t & -> & _). rewrite bind_ret_l, Hb. cbn [top c_frame].
    rewrite Z.eqb_refl. cbn [Assert]. rewrite bind_ret_l, lookup_insert_eq. cbn [deref]. rewrite bind_ret_l.
    cbn [fr_parent fr_accum]. pose proof Hst as (H0 & Hd & (t' & E' & _) & Hst').
    destruct (LatencyAdd_ok (set_l_bottom (top st) l) ss type (u64 (time + (ns now - since))))
      as (l' & -> & Hs' & Hn' & Hb'); [by apply summary_bottom|done|apply u64_range|done|].
    rewrite bind_ret_l. eexists; split; [done|]. split; [|split; [|done]].
    + split_and!; [done| |done]. by apply stack_frame_ne.
    + intros y. apply insert_is_Some. cbn in E'. by rewrite E'.
Qed.

Lemma few_types_cons s ss : few_types (s :: ss) -> few_types ss.
Proof. intros (ts & H5 & Ht). exists ts. split; [done|]. intros t Hin. apply Ht. by right. Qed.

Lemma clock_step_few a op a' : clock_step a op = Some a' -> few_types a'.2 -> few_types a.2.
Proof.
  destruct a as [st ss]. intros E H. destruct op, st as [|[fr' [since|] time] st]; cbn in E; repeat case_decide; simplify_eq; try done.
  by apply few_types_cons in H.
Qed.

Lemma clock_run_few ops a a' : clock_run a ops = Some a' -> few_types a'.2 -> few_types a.2.
Proof.
  revert a. induction ops as [|op ops IH]; intros a; cbn; [by intros [= ->]|].
  intros (a1 & E & E')%bind_Some H. eapply clock_step_few, IH; done.
Qed.

Lemma op_ok_dom m m' op : (forall x, is_Some (m' !! x) <-> is_Some (m !! x)) -> op_ok m op -> op_ok m' op.
Proof. intros H. destruct op; cbn; try done. by rewrite H. Qed.

(** ** Properties *)

(** C30: measuring latencies refines a stack of stop watches.  Whatever sequence of
    nested measurements is started, paused while it runs, resumed while it is paused and
    ended while it runs, in frames that are memory, with a normalised clock and at most
    the five kinds of runs there is room for, no call fails; the frames of the callers
    are the measurements in order; a measurement that ends counts once, under its
    kind, with the time in which it ran modulo 2^64, not counting the time in which it
    was paused; and the distributions (minimum, maximum, total, number and histogram by
    powers of two) are those of exactly these samples. *)
Theorem Latency_refines_clocks l m ops a a' :
  clocks_ok (l, m) a -> Forall (op_ok m) ops -> clock_run a ops = Some a' -> few_types a'.2 ->
  exists l' m', lat_run (l, m) ops = Ok (l', m') /\ clocks_ok (l', m') a' /\ l_name l' = l_name l.
Proof.
  revert l m a. induction ops as [|op ops IH]; intros l m a Hc Hop E H5; cbn [lat_run clock_run] in *.
  - injection E as <-. by exists l, m.
  - apply bind_Some in E as (a1 & E1 & E). apply Forall_cons in Hop as [Hop Hops].
    pose proof (clock_run_few _ _ _ E H5) as H51.
    destruct (clock_step_ok l m a op a1 Hc Hop E1 H51) as ([l1 m1] & -> & Hc1 & Hd & Hn). rewrite bind_ret_l.
    destruct (IH l1 m1 a1 Hc1) as (l' & m' & E' & Hc' & Hn'); try done.
    + eapply Forall_impl; [exact Hops|]. intros x. by apply op_ok_dom.
    + exists l', m'. split_and!; [done..|]. cbn in Hn. congruence.
Qed.

(** Ending a measurement that is paused is not the same: the time up to the pause
    counts again, and so does the pause. *)
Lemma ended_while_paused l m fr since time st ss t1 t2 type :
  clocks_ok (l, m) (Clock fr (Some since) time :: st, ss) -> ts_ok t1 -> ts_ok t2 -> 0 <= type < LATENCY_MAX_DIST ->
  let counted := u64 (time + (ns t1 - since) + (ns t2 - since)) in
  few_types ((type, counted) :: ss) ->
  exists l' m', lat_run (l, m) [LPause t1; LEnd fr type t2] = Ok (l', m') /\ clocks_ok (l', m') (st, (type, counted) :: ss).
Proof.
  intros (Hb & Hst & Hs) H1 H2 Ht counted H5. cbn [fst snd] in *. cbn [lat_run lat_step].
  destruct (Pause_ok l m fr since time st t1 Hst Hb H1) as (t & -> & Hto & Es). rewrite !bind_ret_l.
  destruct (clock_step_ok l (<[fr := LFrame t (u64 (time + (ns t1 - since))) (top st)]> m)
    (Clock fr (Some since) (time + (ns t1 - since)) :: st, ss) (LEnd fr type t2) (st, (type, counted) :: ss))
    as ([l' m'] & E & Hc & _).
  - destruct Hst as (H0 & Hd & _ & Hst). split_and!; [done| |done]. cbn. split_and!; [done..| |by apply stack_frame_ne].
    exists t. rewrite lookup_insert_eq. split; [done|]. by intros x [= <-].
  - by split.
  - cbn. by rewrite decide_True.
  - done.
  - rewrite E, bind_ret_l. eauto.
Qed.

(** Two nested measurements, the outer one paused for a while. *)
Definition ex_lat_ops : list lat_op :=
  [LStart 8 (Timespec 1 999999990); LPause (Timespec 2 10); LStart 16 (Timespec 2 20);
   LEnd 16 104 (Timespec 2 520); LResume (Timespec 3 0); LEnd 8 61 (Timespec 3 5)].

Definition ex_frames : gmap Z Latency_Frame_t :=
  {[8 := LFrame (Timespec 0 0) 0 0; 16 := LFrame (Timespec 0 0) 7 0]}.

Lemma Latency_refines_clocks_witness :
  clock_run ([], []) ex_lat_ops = Some ([], [(61, 25); (104, 500)]) /\
  exists l' m', lat_run (LatencyInit (str "wrap"), ex_frames) ex_lat_ops = Ok (l', m') /\
    clocks_ok (l', m') ([], [(61, 25); (104, 500)]) /\ l_name l' = str "wrap".
Proof.
  split; [reflexivity|].
  apply (Latency_refines_clocks (LatencyInit (str "wrap")) ex_frames ex_lat_ops ([], [])).
  - split_and!; [done|done|apply Init_summary].
  - repeat constructor; cbn; unfold LATENCY_MAX_DIST, ts_ok; cbn; try lia; eauto.
  - reflexivity.
  - exists [61; 104]. split; [cbn; lia|]. intros t Ht. done.
Defined.
