(* ===== verification/LatencySum.v ===== *)
(** * Adding up latencies (src/lib/latency.c: Latency_Sum, Latency_Put, Latency_TryGet)

    The sum of two latencies summarises the samples of both, and a latency that is
    read from a file is a summary of the samples of the one that was written. *)

From S2P Require Import Prelude CLib CText IOBuf Latency LatencySpec.

(** ** Adding histograms *)

Definition add_buckets (xs ys : list Z) : list Z := zip_with (fun x y => u32 (x + y)) xs ys.

Definition set_buckets (bs : list Z) (d : Latency_Dist_t) : Latency_Dist_t :=
  Dist (d_min d) (d_max d) (d_total d) (d_count d) bs (d_type d).

Definition add_hist (d ds : Latency_Dist_t) : Latency_Dist_t := set_buckets (add_buckets (d_buckets d) (d_buckets ds)) d.

Lemma set_buckets_same d : set_buckets (d_buckets d) d = d.
Proof. by destruct d. Qed.

Lemma add_type_idem t ts : add_type t (add_type t ts) = add_type t ts.
Proof. unfold add_type at 1. rewrite decide_True; [done|]. apply add_type_in. by left. Qed.

(** The buckets before [pre] have been added. *)
Lemma SumBuckets_ok bs : forall dest ts f t pre post,
  pooled dest ts f -> 0 <= t < LATENCY_MAX_DIST -> (length (add_type t ts) <= 5)%nat ->
  d_buckets (f t) = pre ++ post -> length post = length bs -> (length pre + length bs = 65)%nat ->
  Forall (fun x => 0 <= x < 2 ^ 32) post ->
  (forall j y, bs !! j = Some y -> y <> 0 -> (length pre + j < 63)%nat) ->
  exists dest', SumBuckets dest t (Z.of_nat (length pre)) bs = Ok dest' /\
    pooled dest' (if decide (Forall (fun y => y = 0) bs) then ts else add_type t ts)
      (set_dist t (set_buckets (pre ++ add_buckets post bs) (f t)) f) /\
    l_name dest' = l_name dest.
Proof.
  induction bs as [|y bs IH]; intros dest ts f t pre post H Ht H5 Eb El E65 Hr H63.
  - destruct post; [|done]. exists dest. cbn [SumBuckets]. split_and!; [done| |done].
    rewrite decide_True by constructor. eapply pooled_ext; [exact H|]. intros t'. cbn. rewrite app_nil_r in *.
    unfold set_dist. destruct (Z.eqb_spec t' t) as [->|]; [|done]. by rewrite <- Eb, set_buckets_same.
  - destruct post as [|x post]; [done|]. apply Forall_cons in Hr as [Hx Hr]. cbn in El, E65. cbn [SumBuckets].
    assert (El1 : Z.of_nat (length pre) + 1 = Z.of_nat (length (pre ++ [u32 (x + y)]))) by (rewrite length_app; cbn; lia).
    assert (H63' : forall j y0, bs !! j = Some y0 -> y0 <> 0 -> (length (pre ++ [u32 (x + y)]) + j < 63)%nat).
    { intros j y0 Ej Hy. rewrite length_app. cbn. specialize (H63 (S j) y0 Ej Hy). lia. }
    destruct (Z.eqb_spec y 0) as [->|Hy].
    + rewrite El1. destruct (IH dest ts f t (pre ++ [u32 (x + 0)]) post) as (dest' & -> & Hp & Hn); try done.
      { rewrite <- app_assoc, Z.add_0_r, u32_small by done. done. }
      { lia. }
      { rewrite length_app. cbn. lia. }
      exists dest'. split; [done|]. split; [|done]. rewrite <- app_assoc in Hp. cbn [app] in Hp.
      destruct (decide (Forall (fun y => y = 0) bs)) as [Hz|Hz].
      * rewrite decide_True by (by constructor). done.
      * rewrite decide_False by (by intros [_ ?]%Forall_cons). done.
    + unfold shl1. specialize (H63 0%nat y eq_refl Hy). rewrite Nat.add_0_r in H63.
      rewrite (proj2 (Z.leb_le 0 _)), (proj2 (Z.ltb_lt _ 63)) by lia. cbn [andb]. rewrite bind_ret_l.
      destruct (AddHist_ok dest ts f t (2 ^ Z.of_nat (length pre)) y H Ht H5) as (d1 & i & -> & _ & H1 & Hn1 & _).
      { split; [lia|]. apply Z.pow_lt_mono_r; lia. }
      { rewrite Eb, length_app. cbn. lia. }
      rewrite bind_ret_l, El1. rewrite Z.log2_pow2, Nat2Z.id in H1 by lia.
      assert (Eb1 : d_buckets (bump (length pre) y (f t)) = (pre ++ [u32 (x + y)]) ++ post).
      { unfold bump. cbn [d_buckets]. rewrite Eb, lookup_app_r, Nat.sub_diag by lia.
        rewrite insert_app_r_alt, Nat.sub_diag by lia. cbn. by rewrite <- app_assoc. }
      destruct (IH d1 (add_type t ts) (set_dist t (bump (length pre) y (f t)) f) t (pre ++ [u32 (x + y)]) post)
        as (dest' & -> & Hp & Hn); try done.
      { by rewrite add_type_idem. }
      { by rewrite set_dist_eq. }
      { lia. }
      { rewrite length_app. cbn. lia. }
      exists dest'. split; [done|]. split; [|congruence]. rewrite decide_False by (by intros [? _]%Forall_cons).
      rewrite add_type_idem in Hp.
      assert (Hp' := Hp). destruct (decide (Forall (fun y => y = 0) bs)); clear Hp;
        (eapply pooled_ext; [exact Hp'|]); intros t'; unfold set_dist; (destruct (Z.eqb_spec t' t) as [->|]; [|done]);
        rewrite Z.eqb_refl, <- app_assoc; done.
Qed.

(** *** All histograms of a latency *)

(** What [f] becomes when the histograms [g] of the types [ts] are added. *)
Definition sum_hists (g : Z -> Latency_Dist_t) (ts : list Z) (f : Z -> Latency_Dist_t) (t : Z) : Latency_Dist_t :=
  if decide (t ∈ ts) then add_hist (f t) (g t) else f t.

Definition add_types (ts ts' : list Z) : list Z := foldl (fun ts t => add_type t ts) ts ts'.

Lemma add_types_in t ts ts' : t ∈ add_types ts ts' <-> t ∈ ts \/ t ∈ ts'.
Proof.
  revert ts. induction ts' as [|t' ts' IH]; intros ts; cbn; [set_solver|].
  rewrite IH, add_type_in, elem_of_cons. naive_solver.
Qed.

Lemma add_type_length t ts : (length ts <= length (add_type t ts))%nat.
Proof. unfold add_type. case_decide; [done|]. rewrite length_app. lia. Qed.

Lemma add_types_length ts ts' : (length ts <= length (add_types ts ts'))%nat.
Proof.
  revert ts. induction ts' as [|t' ts' IH]; intros ts; cbn; [done|]. etrans; [apply (add_type_length t')|apply IH].
Qed.

Lemma NoDup_add_types ts ts' : NoDup ts -> NoDup (add_types ts ts').
Proof. revert ts. induction ts' as [|t' ts' IH]; intros ts H; cbn; [done|]. by apply IH, NoDup_add_type. Qed.

(** A histogram that can be added: 65 counters, and none of values past [2^63]. *)
Definition hist_ok (bs : list Z) : Prop :=
  length bs = 65%nat /\ Forall (fun x => 0 <= x < 2 ^ 32) bs /\ forall j y, bs !! j = Some y -> y <> 0 -> (j < 63)%nat.

Definition hist_used (bs : list Z) : Prop := ~ Forall (fun y => y = 0) bs.

Lemma add_buckets_ok xs ys : hist_ok xs -> hist_ok ys -> hist_ok (add_buckets xs ys).
Proof.
  intros (Lx & _ & Hx) (Ly & _ & Hy). unfold add_buckets. split_and!.
  - rewrite length_zip_with. lia.
  - apply Forall_lookup. intros j z (x & y & -> & _ & _)%lookup_zip_with_Some. apply Z.mod_pos_bound. lia.
  - intros j z (x & y & -> & Ex & Ey)%lookup_zip_with_Some Hz.
    destruct (Z.eq_dec x 0) as [->|Hx0]; [|by apply (Hx j x)].
    destruct (Z.eq_dec y 0) as [->|Hy0]; [done|by apply (Hy j y)].
Qed.

Lemma SumHists_ok summand ts2 g : pooled summand ts2 g ->
  (forall t, t ∈ ts2 -> hist_ok (d_buckets (g t)) /\ hist_used (d_buckets (g t))) ->
  forall rest done fuel dest ts f,
  ts2 = done ++ rest -> (length rest < fuel)%nat -> pooled dest ts f ->
  (forall t, hist_ok (d_buckets (f t))) -> (length (add_types ts rest) <= 5)%nat ->
  Forall (fun t => d_type (g t) = t) ts2 ->
  exists dest', SumHists dest summand fuel (Z.of_nat (length done)) = Ok dest' /\
    pooled dest' (add_types ts rest) (sum_hists g rest f) /\ l_name dest' = l_name dest.
Proof.
  intros H2 Hg. induction rest as [|t rest IH]; intros dn [|fuel] dest ts f E Hf H Hh H5 Hty; cbn in Hf; try lia.
  - rewrite app_nil_r in E. subst. cbn [SumHists]. rewrite (pl_next _ _ _ H2), Z.ltb_irrefl. exists dest.
    split_and!; [done| |done]. eapply pooled_ext; [exact H|]. intros t. unfold sum_hists.
    by rewrite decide_False by apply not_elem_of_nil.
  - assert (Et : ts2 !! length dn = Some t) by (by rewrite E, lookup_app_r, Nat.sub_diag by lia).
    assert (Hin : t ∈ ts2) by (by apply list_elem_of_lookup_2 in Et).
    cbn [SumHists]. rewrite (pl_next _ _ _ H2), (proj2 (Z.ltb_lt _ _)) by (rewrite E, length_app; cbn; lia).
    rewrite (at_index_ok _ _ (g t)); [|lia|rewrite Nat2Z.id; by apply (pooled_lookup _ ts2)]. rewrite bind_ret_l.
    rewrite (proj1 (Forall_forall _ _) Hty t Hin). destruct (Hg t Hin) as [(L65 & Hr & H63) Hu].
    assert (Ht : 0 <= t < LATENCY_MAX_DIST) by (exact (proj1 (Forall_forall _ _) (pl_range _ _ _ H2) t Hin)).
    change (add_types ts (t :: rest)) with (add_types (add_type t ts) rest) in *.
    pose proof (add_types_length (add_type t ts) rest).
    destruct (Hh t) as (Lf & Hrf & _).
    destruct (SumBuckets_ok (d_buckets (g t)) dest ts f t [] (d_buckets (f t)) H Ht) as (d1 & E1 & H1 & Hn1);
      try done; [lia|congruence|].
    change (Z.of_nat (length [])) with 0 in E1. rewrite E1, bind_ret_l. rewrite decide_False in H1 by done. cbn [app] in H1.
    replace (Z.of_nat (length dn) + 1) with (Z.of_nat (length (dn ++ [t]))) by (rewrite length_app; cbn; lia).
    destruct (IH (dn ++ [t]) fuel d1 (add_type t ts) _ ltac:(by rewrite <- app_assoc) ltac:(lia) H1)
      as (dest' & -> & Hp & Hn); try done; [|exists dest'; split_and!; [done| |congruence]].
    + intros t'. unfold set_dist. destruct (Z.eqb_spec t' t) as [->|]; [|done]. by apply add_buckets_ok.
    + eapply pooled_ext; [exact Hp|]. intros t'. pose proof (pl_nodup _ _ _ H2) as HN. rewrite E in HN.
      apply NoDup_app in HN as (_ & _ & [Hnt _]%NoDup_cons). unfold sum_hists.
      destruct (decide (t' = t)) as [->|Hne].
      * rewrite decide_False, set_dist_eq, decide_True by (done || by left). done.
      * rewrite set_dist_ne by done. destruct (decide (t' ∈ rest)) as [Hr'|Hr'].
        { by rewrite decide_True by (by right). }
        { by rewrite decide_False by (by intros [|]%elem_of_cons). }
Qed.

(** *** The other statistics *)

Definition add_stats (d ds : Latency_Dist_t) : Latency_Dist_t :=
  Dist (if d_min ds <? d_min d then d_min ds else d_min d) (if d_max d <? d_max ds then d_max ds else d_max d)
    (u64 (d_total d + d_total ds)) (u64 (d_count d + d_count ds)) (d_buckets d) (d_type d).

(** The types from [k] on. *)
Definition sum_stats (g : Z -> Latency_Dist_t) (ts : list Z) (k : Z) (f : Z -> Latency_Dist_t) (t : Z) : Latency_Dist_t :=
  if decide (k <= t /\ t ∈ ts) then add_stats (f t) (g t) else f t.

Lemma SumDists_ok summand ts2 g : pooled summand ts2 g ->
  forall n k dest ts f, (k + n = 127)%nat -> pooled dest ts f -> (forall t, t ∈ ts2 -> t ∈ ts) ->
  exists dest', SumDists dest summand (drop k (zip (l_dists dest) (l_dists summand))) = Ok dest' /\
    pooled dest' ts (sum_stats g ts2 (Z.of_nat k) f) /\ l_name dest' = l_name dest.
Proof.
  intros H2. pose proof (pl_length _ _ _ H2) as L2. induction n as [|n IH]; intros k dest ts f Hk H Hs.
  - pose proof (pl_length _ _ _ H) as L1. rewrite drop_ge by (rewrite length_zip_with; lia).
    exists dest. split_and!; [done| |done]. eapply pooled_ext; [exact H|]. intros t. unfold sum_stats.
    rewrite decide_False; [done|]. intros [Hkt Ht].
    pose proof (proj1 (Forall_forall _ _) (pl_range _ _ _ H2) t Ht). unfold LATENCY_MAX_DIST in *. lia.
  - pose proof (pl_length _ _ _ H) as L1.
    destruct (lookup_lt_is_Some_2 (l_dists dest) k) as [o1 E1]; [lia|].
    destruct (lookup_lt_is_Some_2 (l_dists summand) k) as [o2 E2]; [lia|].
    rewrite (drop_S _ (o1, o2)) by (apply lookup_zip_with_Some; eauto).
    assert (Hr : 0 <= Z.of_nat k < LATENCY_MAX_DIST) by (unfold LATENCY_MAX_DIST; lia).
    pose proof (pl_dists _ _ _ H2 (Z.of_nat k)) as D2. rewrite Nat2Z.id in D2.
    pose proof (pl_dists _ _ _ H (Z.of_nat k)) as D1. rewrite Nat2Z.id in D1.
    destruct o2 as [i2|]; cbn [SumDists].
    + assert (T2 : ts2 !! i2 = Some (Z.of_nat k)) by (by apply D2).
      assert (Hin : Z.of_nat k ∈ ts2) by (by apply list_elem_of_lookup_2 in T2).
      destruct (list_elem_of_lookup_1 _ _ (Hs _ Hin)) as [i1 T1].
      assert (o1 = Some i1) as -> by (apply (D1 i1 Hr) in T1; congruence).
      rewrite (pooled_lookup _ _ _ _ _ H2 T2). cbn [deref]. rewrite !bind_ret_l.
      rewrite (pooled_lookup _ _ _ _ _ H T1). cbn [deref]. rewrite !bind_ret_l.
      destruct (IH (S k) _ ts _ ltac:(lia) (pooled_update _ _ _ _ _ (add_stats (f (Z.of_nat k)) (g (Z.of_nat k))) H T1) Hs)
        as (dest' & E & Hp & Hn).
      exists dest'. split; [exact E|]. split; [|done]. eapply pooled_ext; [exact Hp|]. intros t. unfold sum_stats.
      destruct (decide (t = Z.of_nat k)) as [->|Hne].
      * rewrite decide_False, set_dist_eq, decide_True by (done || lia). done.
      * rewrite set_dist_ne by done. destruct (decide (Z.of_nat (S k) <= t /\ t ∈ ts2)) as [[]|Hx].
        { rewrite decide_True; [done|]. split; [lia|done]. }
        { rewrite decide_False; [done|]. intros []. apply Hx. split; [lia|done]. }
    + destruct (IH (S k) dest ts f ltac:(lia) H Hs) as (dest' & E & Hp & Hn).
      exists dest'. split; [exact E|]. split; [|done]. eapply pooled_ext; [exact Hp|]. intros t. unfold sum_stats.
      assert (Hni : t ∈ ts2 -> t <> Z.of_nat k).
      { intros (i & Hi)%list_elem_of_lookup_1 ->. apply (D2 i Hr) in Hi. congruence. }
      destruct (decide (Z.of_nat (S k) <= t /\ t ∈ ts2)) as [[]|Hx].
      { rewrite decide_True; [done|]. split; [lia|done]. }
      { rewrite decide_False; [done|]. intros [? Ht]. apply Hx. split; [specialize (Hni Ht); lia|done]. }
Qed.

(** *** Summaries *)

Lemma foldr_min_app m xs ys : foldr Z.min m (xs ++ ys) = Z.min (foldr Z.min m xs) (foldr Z.min m ys).
Proof.
  assert (foldr Z.min m ys <= m) by (induction ys; cbn; lia). induction xs as [|x xs IH]; cbn; lia.
Qed.

Lemma foldr_max_app m xs ys : foldr Z.max m (xs ++ ys) = Z.max (foldr Z.max m xs) (foldr Z.max m ys).
Proof.
  assert (m <= foldr Z.max m ys) by (induction ys; cbn; lia). induction xs as [|x xs IH]; cbn; lia.
Qed.

Lemma histogram_app xs ys : histogram (xs ++ ys) = add_buckets (histogram xs) (histogram ys).
Proof.
  apply list_eq. intros b. destruct (decide (b < 65)%nat) as [Hb|Hb].
  - rewrite histogram_lookup by done. unfold add_buckets. symmetry. apply lookup_zip_with_Some.
    exists (u32 (in_bucket b xs)), (u32 (in_bucket b ys)). rewrite !histogram_lookup by done. split_and!; [|done..].
    rewrite u32_add, Z.add_comm, u32_add. unfold in_bucket. rewrite filter_app, length_app. f_equal. lia.
  - rewrite !lookup_ge_None_2; [done|..]; [unfold add_buckets; rewrite length_zip_with|]; rewrite !histogram_length; lia.
Qed.

Lemma dist_of_app t xs ys : dist_of t (xs ++ ys) = add_stats (add_hist (dist_of t xs) (dist_of t ys)) (dist_of t ys).
Proof.
  unfold dist_of, add_stats, add_hist, set_buckets. cbn [d_min d_max d_total d_count d_buckets d_type].
  rewrite <- histogram_app. f_equal.
  - rewrite foldr_min_app. destruct (Z.ltb_spec (foldr Z.min (2 ^ 64 - 1) ys) (foldr Z.min (2 ^ 64 - 1) xs)); lia.
  - rewrite foldr_max_app. destruct (Z.ltb_spec (foldr Z.max 0 xs) (foldr Z.max 0 ys)); lia.
  - rewrite u64_add, Z.add_comm, u64_add, Zsum_app. f_equal. lia.
  - rewrite u64_add, Z.add_comm, u64_add, length_app. f_equal. lia.
Qed.

Definition samples_ok (ss : list (Z * Z)) : Prop := Forall sample_ok ss /\ Z.of_nat (length ss) < 2 ^ 32.

Lemma of_type_ok t ss : samples_ok ss ->
  Forall (fun v => 0 <= v < 2 ^ 63) (of_type t ss) /\ Z.of_nat (length (of_type t ss)) < 2 ^ 32.
Proof.
  intros [Hs Hl]. unfold of_type. split.
  - apply Forall_map, Forall_forall. intros s [_ Hin]%list_elem_of_filter.
    apply (proj1 (Forall_forall _ _) Hs s Hin).
  - rewrite length_map. pose proof (length_filter (fun s => s.1 = t) ss). lia.
Qed.

Lemma in_bucket_range b vs : 0 <= in_bucket b vs <= Z.of_nat (length vs).
Proof. unfold in_bucket. pose proof (length_filter (fun v => Z.log2 v = Z.of_nat b) vs). lia. Qed.

Lemma histogram_ok vs : Forall (fun v => 0 <= v < 2 ^ 63) vs -> hist_ok (histogram vs).
Proof.
  intros Hv. split_and!; [apply histogram_length| |].
  - unfold histogram. apply Forall_map, Forall_forall. intros b _. apply Z.mod_pos_bound. lia.
  - intros b y Ey Hy. pose proof (lookup_lt_Some _ _ _ Ey) as Hb. rewrite histogram_length in Hb.
    rewrite histogram_lookup in Ey by done. injection Ey as <-.
    destruct (decide (b < 63)%nat) as [|Hge]; [done|]. destruct Hy.
    unfold in_bucket. rewrite filter_none; [done|]. eapply Forall_impl; [exact Hv|].
    intros v [H0 H63]. cbn beta. intros E.
    assert (Z.log2 v < 63); [|lia]. destruct (Z.eq_dec v 0) as [->|]; [done|]. apply Z.log2_lt_pow2; lia.
Qed.

Lemma histogram_used vs :
  vs <> [] -> Forall (fun v => 0 <= v < 2 ^ 63) vs -> Z.of_nat (length vs) < 2 ^ 32 -> hist_used (histogram vs).
Proof.
  intros Hne Hv Hl Hz. destruct vs as [|v vs]; [done|]. pose proof (Forall_inv Hv) as Hv0. cbn beta in Hv0.
  pose proof (log2_bucket v ltac:(lia)) as Hb.
  assert (E : histogram (v :: vs) !! Z.to_nat (Z.log2 v) = Some 0).
  { destruct (lookup_lt_is_Some_2 (histogram (v :: vs)) (Z.to_nat (Z.log2 v))) as [x Ex]; [rewrite histogram_length; lia|].
    rewrite Ex. f_equal. exact (proj1 (Forall_lookup _ _) Hz _ _ Ex). }
  rewrite histogram_lookup in E by lia. injection E as E.
  pose proof (in_bucket_range (Z.to_nat (Z.log2 v)) (v :: vs)). rewrite u32_small in E by lia.
  unfold in_bucket in E. rewrite filter_cons_True in E by lia. cbn [length] in E. lia.
Qed.

Lemma of_type_used t ss : t ∈ map fst ss -> of_type t ss <> [].
Proof.
  induction ss as [|s ss IH]; [by intros ?%elem_of_nil|]. rewrite of_type_cons. case_decide as E; [done|].
  intros [->|Hin]%elem_of_cons; [done|auto].
Qed.

(** Adding a latency to another one gives the summary of the samples of both. *)
Lemma Latency_Sum_ok dest s ss ss' :
  summary dest ss -> summary s ss' -> samples_ok ss -> samples_ok ss' -> few_types (ss ++ ss') ->
  exists dest', Latency_Sum dest s = Ok dest' /\ summary dest' (ss ++ ss') /\ l_name dest' = l_name dest.
Proof.
  intros (ts & H & Hts) (ts2 & H2 & Hts2) Hss Hss' H5. unfold Latency_Sum.
  assert (Hin : forall t, t ∈ add_types ts ts2 <-> t ∈ map fst (ss ++ ss')).
  { intros t. rewrite add_types_in, Hts, Hts2, map_app, elem_of_app. done. }
  assert (L5 : (length (add_types ts ts2) <= 5)%nat).
  { eapply few_length; [apply NoDup_add_types, (pl_nodup _ _ _ H)| |exact H5]. intros t. apply Hin. }
  destruct (SumHists_ok s ts2 _ H2) with (rest := ts2) (done := @nil Z) (fuel := 6%nat) (dest := dest) (ts := ts)
    (f := fun t => dist_of t (of_type t ss)) as (d1 & E1 & H1 & Hn1); try done.
  { intros t Ht%Hts2. destruct (of_type_ok t ss' Hss'). split; [by apply histogram_ok|].
    apply histogram_used; [by apply of_type_used|done..]. }
  { pose proof (pl_few _ _ _ H2). lia. }
  { intros t. apply histogram_ok, (of_type_ok t ss Hss). }
  { by apply Forall_forall. }
  change (Z.of_nat (length [])) with 0 in E1. rewrite E1, bind_ret_l.
  destruct (SumDists_ok s ts2 _ H2 127 0 d1 _ _ eq_refl H1) as (d2 & E2 & H3 & Hn2).
  { intros t Ht. apply add_types_in. by right. }
  rewrite drop_0 in E2. exists d2. split; [done|]. split; [|congruence].
  exists (add_types ts ts2). split; [|done]. eapply pooled_ext; [exact H3|]. intros t. unfold sum_stats, sum_hists.
  rewrite of_type_app. destruct (decide (t ∈ ts2)) as [Ht|Ht].
  - rewrite decide_True, dist_of_app; [done|]. split; [|done].
    by destruct (proj1 (Forall_forall _ _) (pl_range _ _ _ H2) t Ht).
  - rewrite decide_False by (by intros []). rewrite (of_type_nil t ss') by (by rewrite <- Hts2). by rewrite app_nil_r.
Qed.

(** ** The file format *)

Definition latency_fields (name : list Z) (ds : list Latency_Dist_t) : list field :=
  FStr name :: F32 (Z.of_nat (length ds)) :: concat (map dist_fields ds).

(** A distribution whose numbers have their width. *)
Definition dist_ok (d : Latency_Dist_t) : Prop :=
  0 <= d_type d < LATENCY_MAX_DIST /\ 0 <= d_min d < 2 ^ 64 /\ 0 <= d_max d < 2 ^ 64 /\ 0 <= d_total d < 2 ^ 64 /\
  0 <= d_count d < 2 ^ 64 /\ length (d_buckets d) = 65%nat /\ Forall (fun n => 0 <= n < 2 ^ 32) (d_buckets d).

Definition name_ok (name : list Z) : Prop := field_ok (FStr name).

Lemma signed_field64 x : field_ok (F64 (s64 x)).
Proof. unfold field_ok, s64. apply (signed_range 64). lia. Qed.

Lemma signed_field32 x : field_ok (F32 (s32 x)).
Proof. unfold field_ok, s32. apply (signed_range 32). lia. Qed.

Lemma dist_fields_ok d : dist_ok d -> Forall field_ok (dist_fields d).
Proof.
  intros (Ht & _). unfold dist_fields, LATENCY_MAX_DIST in *. cbn [app]. constructor; [cbn; lia|].
  do 4 (constructor; [apply signed_field64|]). apply Forall_map, Forall_forall. intros n _. apply signed_field32.
Qed.

Lemma dists_fields_ok ds : Forall dist_ok ds -> Forall field_ok (concat (map dist_fields ds)).
Proof.
  induction 1 as [|d ds Hd _ IH]; [constructor|]. cbn [map concat]. apply Forall_app.
  split; [by apply dist_fields_ok|done].
Qed.

Lemma dist_of_ok t vs : 0 <= t < LATENCY_MAX_DIST -> Forall (fun v => 0 <= v < 2 ^ 63) vs -> dist_ok (dist_of t vs).
Proof.
  intros Ht Hv. destruct (histogram_ok vs Hv) as (L & Hr & _). unfold dist_ok, dist_of. cbn [d_type d_min d_max d_total d_count d_buckets].
  split_and!; try done; try apply u64_range; clear L Hr; induction Hv as [|v vs Hv _ IH]; cbn; lia.
Qed.

Section Putting.

Context (realloc : Z -> Z -> Z).

Hypothesis realloc_fits :
  forall p n, 0 < n <= 2 ^ 33 -> 0 < realloc p n /\ realloc p n + n < 2 ^ 63.

Lemma PutDists_ok l ts f : pooled l ts f ->
  forall rest dn fuel b, ts = dn ++ rest -> (length rest < fuel)%nat -> io_wr b ->
  Forall dist_ok (map f rest) ->
  io_len b + Z.of_nat (length (enc_all (concat (map dist_fields (map f rest))))) < 2 ^ 32 ->
  exists b', PutDists realloc fuel l (Z.of_nat (length dn)) b = Ok b' /\
    extends b (enc_all (concat (map dist_fields (map f rest)))) b'.
Proof using realloc_fits.
  intros H. induction rest as [|t rest IH]; intros dn [|fuel] b E Hf Hb Hd Hl; cbn in Hf; try lia; cbn [PutDists].
  - rewrite app_nil_r in E. subst dn. rewrite (pl_next _ _ _ H), Z.ltb_irrefl.
    exists b. split; [done|]. by apply extends_nil.
  - rewrite (pl_next _ _ _ H), (proj2 (Z.ltb_lt _ _)) by (rewrite E, length_app; cbn; lia).
    rewrite (at_index_ok _ _ (f t)); [|lia|].
    2:{ rewrite Nat2Z.id. apply (pooled_lookup _ ts); [done|]. by rewrite E, lookup_app_r, Nat.sub_diag by lia. }
    rewrite bind_ret_l. cbn [map concat] in *. unfold enc_all in *. rewrite map_app, concat_app, length_app in *.
    apply Forall_cons in Hd as [Hd Hds].
    destruct (put_fields_ok realloc realloc_fits b (dist_fields (f t)) Hb) as (b1 & -> & X1);
      [by apply dist_fields_ok|unfold enc_all; lia|].
    rewrite bind_ret_l. replace (Z.of_nat (length dn) + 1) with (Z.of_nat (length (dn ++ [t]))) by (rewrite length_app; cbn; lia).
    destruct (IH (dn ++ [t]) fuel b1) as (b' & -> & X2); try done; [by rewrite <- app_assoc|lia|apply X1| |].
    + rewrite (extends_len _ _ _ X1). unfold enc_all. lia.
    + exists b'. split; [done|]. by eapply extends_app.
Qed.

Lemma Latency_Put_ok l ts f b :
  pooled l ts f -> Forall dist_ok (map f ts) -> name_ok (l_name l) -> io_wr b ->
  io_len b + Z.of_nat (length (enc_all (latency_fields (l_name l) (map f ts)))) < 2 ^ 32 ->
  exists b', Latency_Put realloc l b = Ok b' /\ extends b (enc_all (latency_fields (l_name l) (map f ts))) b'.
Proof using realloc_fits.
  intros H Hd Hn Hb Hl. unfold Latency_Put.
  unfold latency_fields, enc_all in *. cbn [map concat] in *. rewrite !length_app in Hl.
  destruct (put_field_ok realloc realloc_fits b (FStr (l_name l)) Hb Hn) as (b1 & E1 & X1); [lia|].
  cbn [put_field] in E1. rewrite E1, bind_ret_l. pose proof (extends_len _ _ _ X1).
  rewrite (pl_next _ _ _ H). rewrite length_map in *. pose proof (pl_few _ _ _ H).
  destruct (put_field_ok realloc realloc_fits b1 (F32 (Z.of_nat (length ts))) (proj1 X1)) as (b2 & E2 & X2); [cbn; lia|lia|].
  cbn [put_field] in E2. rewrite E2, bind_ret_l. pose proof (extends_len _ _ _ X2).
  destruct (PutDists_ok l ts f H ts [] 6 b2 eq_refl) as (b3 & E3 & X3); try done; [lia|apply X2|unfold enc_all; lia|].
  change (Z.of_nat (length [])) with 0 in E3. rewrite E3. exists b3. split; [done|].
  eapply extends_app; [exact X1|]. eapply extends_app; [exact X2|exact X3].
Qed.

End Putting.

(** *** Reading *)

Lemma GetInt8_next b x rest :
  io_ok b -> field_ok (F8 x) -> unread b = enc (F8 x) ++ rest ->
  exists b1, IOBuf_GetInt8 b = Ok (b1, x) /\ io_ok b1 /\ unread b1 = rest.
Proof.
  intros Hb Hx Hu. pose proof (get_field_ok b (F8 x) rest Hb Hx Hu) as E. cbn [get_field] in E.
  apply bind_Ok in E as ([b1 y] & E & [= E1 ->]). subst b1. eexists; split; [done|].
  exact (unread_next b (enc (F8 x)) rest Hb Hu).
Qed.

Lemma GetInt32_next b x rest :
  io_ok b -> field_ok (F32 x) -> unread b = enc (F32 x) ++ rest ->
  exists b1, IOBuf_GetInt32 b = Ok (b1, x) /\ io_ok b1 /\ unread b1 = rest.
Proof.
  intros Hb Hx Hu. pose proof (get_field_ok b (F32 x) rest Hb Hx Hu) as E. cbn [get_field] in E.
  apply bind_Ok in E as ([b1 y] & E & [= E1 ->]). subst b1. eexists; split; [done|].
  exact (unread_next b (enc (F32 x)) rest Hb Hu).
Qed.

Lemma GetInt64_next b x rest :
  io_ok b -> 0 <= x < 2 ^ 64 -> unread b = enc (F64 (s64 x)) ++ rest ->
  exists b1, IOBuf_GetInt64 b = Ok (b1, s64 x) /\ u64 (s64 x) = x /\ io_ok b1 /\ unread b1 = rest.
Proof.
  intros Hb Hx Hu. pose proof (get_field_ok b _ rest Hb (signed_field64 x) Hu) as E. cbn [get_field] in E.
  apply bind_Ok in E as ([b1 y] & E & [= E1 ->]). subst b1. eexists; split; [done|].
  split; [by rewrite u64_s64, u64_small|]. exact (unread_next b (enc (F64 (s64 x))) rest Hb Hu).
Qed.

Lemma GetBuckets_ok bs b rest :
  io_ok b -> Forall (fun n => 0 <= n < 2 ^ 32) bs ->
  unread b = enc_all (map (fun n => F32 (s32 n)) bs) ++ rest ->
  exists b1, GetBuckets (length bs) b = Ok (b1, bs) /\ io_ok b1 /\ unread b1 = rest.
Proof.
  revert b. induction bs as [|n bs IH]; intros b Hb Hr Hu; [by exists b|].
  apply Forall_cons in Hr as [Hn Hr]. unfold enc_all in *. cbn [map concat] in Hu. rewrite <- app_assoc in Hu.
  cbn [length GetBuckets]. destruct (GetInt32_next b _ _ Hb (signed_field32 n) Hu) as (b1 & -> & Hb1 & Hu1).
  rewrite bind_ret_l. destruct (IH b1 Hb1 Hr Hu1) as (b2 & -> & Hb2 & Hu2). rewrite bind_ret_l.
  exists b2. by rewrite u32_s32, u32_small.
Qed.

Lemma GetDist_ok d b rest :
  dist_ok d -> io_ok b ->
  unread b = enc_all (skipn 1 (dist_fields d)) ++ rest ->
  exists b1, GetDist (d_type d) b = Ok (b1, d) /\ io_ok b1 /\ unread b1 = rest.
Proof.
  intros (Ht & Hmin & Hmax & Htot & Hcnt & L65 & Hbs) Hb Hu. unfold dist_fields, enc_all in Hu.
  cbn [skipn app map concat] in Hu. rewrite <- !app_assoc in Hu. unfold GetDist.
  destruct (GetInt64_next b _ _ Hb Hmin Hu) as (b2 & -> & Emin & Hb2 & Hu2). rewrite bind_ret_l.
  destruct (GetInt64_next b2 _ _ Hb2 Hmax Hu2) as (b3 & -> & Emax & Hb3 & Hu3). rewrite bind_ret_l.
  destruct (GetInt64_next b3 _ _ Hb3 Htot Hu3) as (b4 & -> & Etot & Hb4 & Hu4). rewrite bind_ret_l.
  destruct (GetInt64_next b4 _ _ Hb4 Hcnt Hu4) as (b5 & -> & Ecnt & Hb5 & Hu5). rewrite bind_ret_l.
  destruct (GetBuckets_ok _ b5 _ Hb5 Hbs Hu5) as (b6 & E6 & Hb6 & Hu6). rewrite L65 in E6. rewrite E6, bind_ret_l.
  exists b6. rewrite Emin, Emax, Etot, Ecnt. by destruct d.
Qed.

(** [f] on the types [ts]. *)
Definition only (ts : list Z) (f : Z -> Latency_Dist_t) (t : Z) : Latency_Dist_t :=
  if decide (t ∈ ts) then f t else empty_dist t.

Lemma only_snoc ts f t t' : set_dist t (f t) (only ts f) t' = only (ts ++ [t]) f t'.
Proof.
  unfold set_dist, only. destruct (Z.eqb_spec t' t) as [->|Hne].
  - rewrite decide_True; [done|]. apply elem_of_app. right. by left.
  - destruct (decide (t' ∈ ts)) as [Hin|Hin]; [rewrite decide_True; [done|]; apply elem_of_app; by left|].
    rewrite decide_False; [done|]. intros [|?%list_elem_of_singleton]%elem_of_app; done.
Qed.

(** The types [dn] have been read. *)
Lemma GetDists_ok f rest : forall dn fuel l b tail,
  (length rest < fuel)%nat -> NoDup (dn ++ rest) -> (length (dn ++ rest) <= 5)%nat ->
  pooled (set_l_distPoolNext (Z.of_nat (length dn)) l) dn (only dn f) ->
  l_distPoolNext l = Z.of_nat (length (dn ++ rest)) -> Forall (fun t => dist_ok (f t) /\ d_type (f t) = t) rest ->
  io_ok b -> unread b = enc_all (concat (map dist_fields (map f rest))) ++ tail ->
  exists l' b', GetDists fuel l (Z.of_nat (length dn)) b = Ok (l', b') /\
    pooled l' (dn ++ rest) (only (dn ++ rest) f) /\ l_name l' = l_name l /\ io_ok b' /\ unread b' = tail.
Proof.
  induction rest as [|t rest IH]; intros dn [|fuel] l b tl Hf HN H5 H Hnx Hd Hb Hu; cbn in Hf; try lia; cbn [GetDists].
  - rewrite app_nil_r in *. rewrite Hnx, Z.ltb_irrefl. exists l, b. split_and!; try done.
    rewrite <- Hnx in H. by destruct l.
  - apply Forall_cons in Hd as [(Hd & Ety) Hds]. cbn [map concat] in Hu. rewrite enc_all_app, <- app_assoc in Hu.
    pose proof H5 as H5'. pose proof Hnx as Hnx'. rewrite length_app in H5, Hnx'. cbn in H5, Hnx'.
    rewrite Hnx', (proj2 (Z.ltb_lt _ _)) by lia. pose proof (proj1 Hd) as Ht. unfold LATENCY_MAX_DIST in Ht.
    destruct (GetInt8_next b (d_type (f t)) _ Hb ltac:(cbn; lia) Hu) as (b1 & -> & Hb1 & Hu1).
    rewrite bind_ret_l. pose proof (pl_pool _ _ _ H) as Hp. pose proof (pl_length _ _ _ H) as Hl. cbn in Hp, Hl.
    assert (Lp : length (l_distPool l) = 5%nat) by (rewrite Hp, length_app, length_replicate, length_map; lia).
    destruct (lookup_lt_is_Some_2 (l_distPool l) (length dn)) as [x Ex]; [lia|].
    rewrite (at_index_ok _ _ x) by (rewrite ?Nat2Z.id; done || lia). rewrite bind_ret_l, put_index_ok, bind_ret_l by lia.
    destruct (GetDist_ok (f t) b1 _ Hd Hb1 Hu1) as (b2 & -> & Hb2 & Hu2).
    rewrite bind_ret_l, put_index_ok, bind_ret_l, Nat2Z.id, Ety by lia.
    pose proof HN as (_ & Hdisj & _)%NoDup_app.
    assert (Hntd : t ∉ dn) by (intros Hin; apply (Hdisj t Hin); by left). rewrite Ety in Ht.
    assert (El : Z.of_nat (length dn) + 1 = Z.of_nat (length (dn ++ [t]))) by (rewrite length_app; cbn; lia). rewrite El.
    destruct (IH (dn ++ [t]) fuel (set_l_distPool (<[length dn := f t]> (l_distPool l))
        (set_l_dists (<[Z.to_nat t := Some (length dn)]> (l_dists l)) l)) b2 tl) as (l' & b' & -> & Hp' & Hn' & Hb' & Hu');
      rewrite <- ?app_assoc; try done; [lia| |].
    + eapply pooled_ext; [|apply only_snoc]. rewrite <- El.
      exact (pooled_push _ _ _ t (f t) H Hntd Ht ltac:(lia)).
    + rewrite <- app_assoc in Hp'. exists l', b'. split_and!; done.
Qed.

(** What a latency is in a file. *)
Definition lat_bytes (l : Latency_t) : list Z :=
  enc_all (latency_fields (l_name l) (take (Z.to_nat (l_distPoolNext l)) (l_distPool l))).

Lemma pooled_take l ts f : pooled l ts f -> take (Z.to_nat (l_distPoolNext l)) (l_distPool l) = map f ts.
Proof.
  intros H. rewrite (pl_next _ _ _ H), (pl_pool _ _ _ H), Nat2Z.id.
  rewrite <- (length_map f ts) at 1. apply take_app_length.
Qed.

(** A latency that can be written: a name, and samples in range. *)
Definition writable (l : Latency_t) (name : list Z) (ss : list (Z * Z)) : Prop :=
  summary l ss /\ l_name l = name /\ name_ok name /\ samples_ok ss.

Lemma summary_dists_ok l ts ss :
  pooled l ts (fun t => dist_of t (of_type t ss)) -> samples_ok ss ->
  Forall (fun t => dist_ok (dist_of t (of_type t ss)) /\ d_type (dist_of t (of_type t ss)) = t) ts.
Proof.
  intros H Hs. apply Forall_forall. intros t Ht. split; [|done].
  apply dist_of_ok; [by apply (proj1 (Forall_forall _ _) (pl_range _ _ _ H))|by apply of_type_ok].
Qed.

Lemma Put_writable realloc l name ss b :
  (forall p n, 0 < n <= 2 ^ 33 -> 0 < realloc p n /\ realloc p n + n < 2 ^ 63) ->
  writable l name ss -> io_wr b -> io_len b + Z.of_nat (length (lat_bytes l)) < 2 ^ 32 ->
  exists b', Latency_Put realloc l b = Ok b' /\ extends b (lat_bytes l) b'.
Proof.
  intros Hr ((ts & H & Hts) & En & Hn & Hs) Hb Hl. unfold lat_bytes in *. rewrite (pooled_take _ _ _ H) in *.
  apply Latency_Put_ok; [done|done| |by rewrite En|done|done].
  apply Forall_map. eapply Forall_impl; [exact (summary_dists_ok _ _ _ H Hs)|]. by intros t [? _].
Qed.

Lemma Init_pooled name n : pooled (set_l_distPoolNext 0 (set_l_distPoolNext n (LatencyInit name))) [] (only [] empty_dist).
Proof.
  destruct (Init_summary name) as (ts & H & Hts). destruct ts as [|t ts].
  - eapply pooled_ext; [exact H|]. done.
  - destruct (not_elem_of_nil t). apply Hts. by left.
Qed.

Lemma TryGetString_next b s rest :
  io_ok b -> name_ok s -> unread b = enc (FStr s) ++ rest ->
  exists b1 p, IOBuf_TryGetString b = Ok (b1, Some p) /\ cstr_at b1 p = s /\ io_ok b1 /\ unread b1 = rest.
Proof.
  intros Hb Hs Hu. pose proof (get_field_ok b (FStr s) rest Hb Hs Hu) as E. cbn [get_field] in E.
  apply bind_Ok in E as ([b1 p] & E & [= E1 Ep]). unfold IOBuf_GetString, GET in E.
  apply bind_Ok in E as ([b2 [q|]] & E & [= -> ->]). subst b1. eexists _, p. split; [done|]. split; [done|].
  exact (unread_next b (enc (FStr s)) rest Hb Hu).
Qed.

(** What has been written is read again. *)
Lemma TryGet_writable l name ss b rest :
  writable l name ss -> io_ok b -> unread b = lat_bytes l ++ rest ->
  exists l' b', Latency_TryGet b = Ok (b', Some l') /\ writable l' name ss /\ io_ok b' /\ unread b' = rest.
Proof.
  intros ((ts & H & Hts) & En & Hn & Hs) Hb Hu. unfold lat_bytes in Hu. rewrite (pooled_take _ _ _ H), En in Hu.
  unfold latency_fields, enc_all in Hu. cbn [map concat] in Hu. rewrite <- !app_assoc in Hu. unfold Latency_TryGet.
  destruct (TryGetString_next b name _ Hb Hn Hu) as (b1 & p & -> & Ec & Hb1 & Hu1). rewrite bind_ret_l, Ec.
  rewrite length_map in Hu1. pose proof (pl_few _ _ _ H) as H5.
  destruct (GetInt32_next b1 (Z.of_nat (length ts)) _ Hb1 ltac:(cbn; lia) Hu1) as (b2 & -> & Hb2 & Hu2). rewrite bind_ret_l.
  destruct (GetDists_ok (fun t => dist_of t (of_type t ss)) ts [] 6
    (set_l_distPoolNext (Z.of_nat (length ts)) (LatencyInit name)) b2 rest) as (l' & b' & E & H' & Hn' & Hb' & Hu'); try done.
  { lia. }
  { apply (pl_nodup _ _ _ H). }
  { apply Init_pooled. }
  { apply (summary_dists_ok _ _ _ H Hs). }
  change (Z.of_nat (length [])) with 0 in E. rewrite E, bind_ret_l. exists l', b'. split_and!; try done.
  split; [|done]. exists ts. split; [|done]. eapply pooled_ext; [exact H'|]. intros t. unfold only. cbn [app].
  destruct (decide (t ∈ ts)) as [Ht|Ht]; [done|]. rewrite of_type_nil by (by rewrite <- Hts). done.
Qed.

Lemma TryGet_end b : io_ok b -> unread b = [] -> Latency_TryGet b = Ok (b, None).
Proof.
  intros Hb Hu. unfold Latency_TryGet, IOBuf_TryGetString.
  rewrite (TryGetBuf_short b 0 []) by (done || lia || (left; rewrite Hu; cbn; lia)). done.
Qed.
