(* ===== verification/LatencyDump.v ===== *)
(** * Printing latencies (src/lib/latency.c: Latency_Dump)

    The dump of a latency has a line per kind of run and a histogram of bars of at
    most 50 characters, scaled to the fullest bucket.  Nothing is written past the end
    of a bar, no bucket is missing for the median, and nothing is divided by zero. *)

From S2P Require Import Prelude CLib CText IOBuf Latency LatencySpec LatencySum.

(** ** The numbers of a histogram *)

Lemma in_bucket_more b v vs : in_bucket b (v :: vs) = (if decide (Z.log2 v = Z.of_nat b) then 1 else 0) + in_bucket b vs.
Proof. unfold in_bucket. rewrite filter_cons. case_decide; cbn [length]; lia. Qed.

Lemma Zsum_indicator k n a :
  (a <= k < a + n)%nat -> Zsum (map (fun b => if decide (Z.of_nat k = Z.of_nat b) then 1 else 0) (seq a n)) = 1.
Proof.
  revert a. induction n as [|n IH]; intros a Hk; [lia|]. cbn [seq map Zsum]. case_decide as E.
  - assert (k = a) as -> by lia. assert (Hz : forall m c, (a < c)%nat ->
      Zsum (map (fun b => if decide (Z.of_nat a = Z.of_nat b) then 1 else 0) (seq c m)) = 0).
    { induction m as [|m IHm]; intros c Hc; [done|]. cbn [seq map Zsum]. rewrite decide_False by lia.
      rewrite IHm by lia. done. }
    rewrite Hz by lia. done.
  - rewrite IH by lia. done.
Qed.

Lemma Zsum_map_add {A} (f g : A -> Z) l : Zsum (map (fun x => f x + g x) l) = Zsum (map f l) + Zsum (map g l).
Proof. induction l as [|x l IH]; cbn [map Zsum]; [done|]. lia. Qed.

(** Every value is in one of the first 63 buckets. *)
Lemma Zsum_buckets vs :
  Forall (fun v => 0 <= v < 2 ^ 63) vs -> Zsum (map (fun b => in_bucket b vs) (seq 0 63)) = Z.of_nat (length vs).
Proof.
  induction 1 as [|v vs Hv _ IH].
  - unfold in_bucket. cbn [length filter]. by vm_compute.
  - rewrite (map_ext _ _ (fun b => in_bucket_more b v vs)), Zsum_map_add, IH.
    assert (Hlog : 0 <= Z.log2 v < 63).
    { split; [apply Z.log2_nonneg|]. destruct (Z.eq_dec v 0) as [->|]; [done|]. apply Z.log2_lt_pow2; lia. }
    rewrite <- (Z2Nat.id (Z.log2 v)) by lia. rewrite Zsum_indicator by lia. cbn [length]. lia.
Qed.

Lemma histogram_small vs :
  Z.of_nat (length vs) < 2 ^ 32 -> histogram vs = map (fun b => in_bucket b vs) (seq 0 65).
Proof.
  intros Hl. unfold histogram. apply map_ext. intros b. apply u32_small.
  pose proof (in_bucket_range b vs). lia.
Qed.

Lemma MedianLoop_ok bs : forall accum half m,
  0 <= accum -> Forall (fun n => 0 <= n) bs -> accum + Zsum bs < 2 ^ 64 -> half <= accum + Zsum bs -> bs <> [] ->
  forall bs', m <= MedianLoop (bs ++ bs') accum half m < m + Z.of_nat (length bs).
Proof.
  induction bs as [|n bs IH]; intros accum half m Ha Hb Hs Hh Hne bs'; [done|]. cbn [app MedianLoop Zsum length] in *.
  apply Forall_cons in Hb as [Hn Hb]. pose proof (Zsum_nonneg bs Hb). rewrite u64_small by lia.
  destruct (Z.leb_spec half (accum + n)); [lia|].
  destruct bs as [|n' bs]; [cbn in Hh; lia|].
  specialize (IH (accum + n) half (m + 1) ltac:(lia) Hb ltac:(lia) ltac:(lia) ltac:(done) bs').
  cbn [length] in *. lia.
Qed.

Lemma DistLine_ok l t vs :
  vs <> [] -> Forall (fun v => 0 <= v < 2 ^ 63) vs -> Z.of_nat (length vs) < 2 ^ 32 ->
  exists line, DistLine l t (dist_of t vs) = Ok line.
Proof.
  intros Hne Hv Hl. unfold DistLine. cbn [d_count d_buckets dist_of].
  assert (0 < Z.of_nat (length vs)) by (destruct vs; [done|cbn; lia]). rewrite u64_small by lia.
  rewrite (proj2 (Z.eqb_neq _ 0)) by lia.
  assert (Hm : 0 <= MedianLoop (histogram vs) 0 (Z.of_nat (length vs) / 2) 0 < 0 + Z.of_nat 63).
  { rewrite histogram_small by done. change 65%nat with (63 + 2)%nat. rewrite seq_app, map_app.
    pose proof (MedianLoop_ok (map (fun b => in_bucket b vs) (seq 0 63)) 0 (Z.of_nat (length vs) / 2) 0) as HM.
    rewrite Zsum_buckets, length_map, length_seq in HM by done. apply HM; try lia; try done.
    - apply Forall_map, Forall_forall. intros b _. apply in_bucket_range.
    - apply Z.div_le_upper_bound; lia. }
  unfold shl1. rewrite (proj2 (Z.leb_le _ _)), (proj2 (Z.ltb_lt _ _)) by lia. cbn [andb]. rewrite bind_ret_l. eauto.
Qed.

(** ** The bars *)

Lemma BarLoop_ok fuel : forall bar goal t,
  (length bar + fuel = 52)%nat -> (length bar <= 50)%nat -> goal <= 50 ->
  exists bar', BarLoop fuel bar goal t = Ok bar' /\ (length bar' <= 50)%nat /\ (goal <= 0 -> bar' = bar).
Proof.
  induction fuel as [|fuel IH]; intros bar goal t Hf Hb Hg; [lia|]. cbn [BarLoop].
  destruct (Z.ltb_spec (Z.of_nat (length bar)) goal) as [Hlt|Hge]; [|by exists bar].
  destruct (IH (bar ++ [t]) goal t) as (bar' & E & Hb' & _); [rewrite length_app; cbn; lia..|done|].
  exists bar'. split_and!; try done. lia.
Qed.

Lemma foldl_u64 {A} (f : A -> Z) L acc :
  Forall (fun x => 0 <= f x) L -> 0 <= acc -> acc + Zsum (map f L) < 2 ^ 64 ->
  foldl (fun n x => u64 (n + f x)) acc L = acc + Zsum (map f L).
Proof.
  intros H. revert acc. induction H as [|x L Hx HL IH]; intros acc Ha Hs; cbn [foldl map Zsum] in *; [lia|].
  assert (0 <= Zsum (map f L)) by (by apply Zsum_nonneg, Forall_map). rewrite u64_small, IH by lia. lia.
Qed.

Section Dump.

Context (l : Latency_t) (ts : list Z) (ss : list (Z * Z)).

Hypothesis Hp : pooled l ts (fun t => dist_of t (of_type t ss)).
Hypothesis Hts : forall t, t ∈ ts <-> t ∈ map fst ss.
Hypothesis Hss : samples_ok ss.

(** How many samples of type [t] are in bucket [i]. *)
Definition bval (i : nat) (t : Z) : Z := in_bucket i (of_type t ss).

Lemma bval_range i t : 0 <= bval i t < 2 ^ 32.
Proof using Hss.
  destruct (of_type_ok t ss Hss) as [_ Hl]. pose proof (in_bucket_range i (of_type t ss)). unfold bval. lia.
Qed.

Lemma bval_bucket i t : (i < 65)%nat -> d_buckets (dist_of t (of_type t ss)) !! i = Some (bval i t).
Proof using Hss.
  intros Hi. cbn [d_buckets dist_of]. rewrite histogram_lookup by done. f_equal. apply u32_small, bval_range.
Qed.

Lemma bval_high i t : (63 <= i < 65)%nat -> bval i t = 0.
Proof using Hss.
  intros Hi. destruct (Z.eq_dec (bval i t) 0) as [|Hne]; [done|].
  destruct (histogram_ok _ (proj1 (of_type_ok t ss Hss))) as (_ & _ & H63).
  specialize (H63 i _ (bval_bucket i t ltac:(lia)) Hne). lia.
Qed.

Lemma Zsum_bval i L : Forall (fun t => t ∈ ts) L -> 0 <= Zsum (map (bval i) L) <= Z.of_nat (length L) * 2 ^ 32.
Proof using Hss.
  induction 1 as [|t L _ _ IH]; cbn [map Zsum length]; [lia|]. pose proof (bval_range i t). lia.
Qed.

Lemma bucket_total_ok i : (i < 65)%nat -> bucket_total l i = Zsum (map (bval i) ts).
Proof using Hp Hss.
  intros Hi. unfold bucket_total. rewrite (pooled_take _ _ _ Hp).
  pose proof (pl_few _ _ _ Hp). pose proof (Zsum_bval i ts ltac:(by apply Forall_forall)) as Hb.
  assert (E : map (fun d => default 0 (d_buckets d !! i)) (map (fun t => dist_of t (of_type t ss)) ts) = map (bval i) ts).
  { rewrite map_map. apply map_ext. intros t. by rewrite bval_bucket. }
  rewrite <- E. rewrite (foldl_u64 (fun d => default 0 (d_buckets d !! i))); [lia| |lia|rewrite E; lia].
  apply Forall_map, Forall_forall. intros t _. rewrite bval_bucket by done. apply bval_range.
Qed.

Lemma largest_from L m :
  let r := foldl (fun m i => if m <? bucket_total l i then bucket_total l i else m) m L in
  m <= r /\ (forall i, i ∈ L -> bucket_total l i <= r) /\ (r = m \/ exists i, i ∈ L /\ r = bucket_total l i).
Proof using Type.
  revert m. induction L as [|i L IH]; intros m; cbn [foldl]; [split_and!; [lia|by intros ? ?%elem_of_nil|by left]|].
  specialize (IH (if m <? bucket_total l i then bucket_total l i else m)). cbv zeta in *.
  set (r := foldl _ _ L) in *. destruct IH as (H1 & H2 & H3).
  destruct (Z.ltb_spec m (bucket_total l i)); split_and!; try lia.
  - intros j [->|Hj]%elem_of_cons; [lia|auto].
  - destruct H3 as [->|(j & Hj & ->)]; right; [exists i; split; [by left|done]|exists j; split; [by right|done]].
  - intros j [->|Hj]%elem_of_cons; [lia|auto].
  - destruct H3 as [->|(j & Hj & ->)]; [by left|right; exists j; split; [by right|done]].
Qed.

Lemma largest_ok :
  50 <= largestCount l < 2 ^ 40 /\ forall i, (i < 65)%nat -> Zsum (map (bval i) ts) <= largestCount l.
Proof using Hp Hss.
  unfold largestCount, LATENCY_HISTOGRAM_WIDTH. destruct (largest_from (seq 0 65) 50) as (H1 & H2 & H3). cbv zeta in *.
  set (r := foldl _ _ _) in *. split.
  - split; [done|]. destruct H3 as [->|(i & [_ Hi]%elem_of_seq & ->)]; [lia|].
    rewrite bucket_total_ok by lia. pose proof (Zsum_bval i ts ltac:(by apply Forall_forall)).
    pose proof (pl_few _ _ _ Hp). lia.
  - intros i Hi. rewrite <- bucket_total_ok by done. apply H2, elem_of_seq. lia.
Qed.

Lemma BarTypes_ok i largest types : (i < 65)%nat -> 50 <= largest < 2 ^ 40 -> Forall (fun t => t ∈ ts) types ->
  forall total bar, 0 <= total -> total + Zsum (map (bval i) types) <= largest -> (length bar <= 50)%nat ->
  exists bar', BarTypes l types i largest total bar = Ok bar' /\ (length bar' <= 50)%nat /\
    (total = 0 -> Forall (fun t => bval i t = 0) types -> bar' = bar).
Proof using Hp Hss.
  intros Hi HL Hty. induction Hty as [|t types Ht Htys IH]; intros total bar H0 Hs Hb; cbn [BarTypes].
  - exists bar. split_and!; done.
  - assert (Hr : 0 <= t < LATENCY_MAX_DIST) by (exact (proj1 (Forall_forall _ _) (pl_range _ _ _ Hp) t Ht)).
    destruct (list_elem_of_lookup_1 _ _ Ht) as [j Hj]. pose proof (proj2 (pl_dists _ _ _ Hp t j Hr) Hj) as Ej.
    rewrite (at_index_ok _ _ (Some j)) by (done || lia). rewrite bind_ret_l, (pooled_lookup _ _ _ _ _ Hp Hj).
    cbn [deref]. rewrite bind_ret_l. rewrite (at_index_ok _ _ (bval i t)); [|lia|rewrite Nat2Z.id; by apply bval_bucket].
    rewrite bind_ret_l. cbn [map Zsum] in Hs. pose proof (bval_range i t).
    assert (0 <= Zsum (map (bval i) types)) by (apply Zsum_bval; by eapply Forall_impl).
    rewrite u64_small by lia. unfold LATENCY_HISTOGRAM_WIDTH. rewrite u64_small by lia.
    assert (Hg : 0 <= (total + bval i t) * 50 / largest <= 50).
    { split; [apply Z.div_pos; lia|]. apply Z.div_le_upper_bound; lia. }
    rewrite s32_small by lia.
    destruct (BarLoop_ok (52 - length bar) bar ((total + bval i t) * 50 / largest) t) as (bar1 & -> & Hb1 & Hz1); [lia..|].
    rewrite bind_ret_l. destruct (IH (total + bval i t) bar1) as (bar' & -> & Hb' & Hz); [lia..|].
    exists bar'. split_and!; try done. intros -> [Hz0 Hzs]%Forall_cons. rewrite Hz, Hz1; [done| |lia|done].
    rewrite Hz0. cbn. by rewrite Z.div_0_l by lia.
Qed.

(** ** The lines *)

Lemma DumpDists_ok n : forall k, (k + n = 127)%nat ->
  exists lines types, DumpDists l (drop k (l_dists l)) (Z.of_nat k) = Ok (lines, types) /\
    length lines = length types /\ NoDup types /\ forall t, t ∈ types <-> Z.of_nat k <= t /\ t ∈ ts.
Proof using Hp Hts Hss.
  pose proof (pl_length _ _ _ Hp) as Hl. induction n as [|n IH]; intros k Hk.
  - rewrite drop_ge by lia. exists [], []. split_and!; try done; [constructor|]. intros t. split; [by intros ?%elem_of_nil|].
    intros [Hkt Ht]. pose proof (proj2 (proj1 (Forall_forall _ _) (pl_range _ _ _ Hp) t Ht)). unfold LATENCY_MAX_DIST in *. lia.
  - destruct (lookup_lt_is_Some_2 (l_dists l) k) as [o Eo]; [lia|]. rewrite (drop_S _ o) by done.
    destruct (IH (S k) ltac:(lia)) as (lines & types & E & EL & HN & Hin).
    replace (Z.of_nat (S k)) with (Z.of_nat k + 1) in E by lia.
    assert (Hr : 0 <= Z.of_nat k < LATENCY_MAX_DIST) by (unfold LATENCY_MAX_DIST; lia).
    pose proof (fun i => pl_dists _ _ _ Hp (Z.of_nat k) i Hr) as HD. rewrite Nat2Z.id in HD.
    destruct o as [i|]; cbn [DumpDists].
    + pose proof (proj1 (HD i) Eo) as Ti. rewrite (pooled_lookup _ _ _ _ _ Hp Ti). cbn [deref]. rewrite bind_ret_l.
      assert (Hkt : Z.of_nat k ∈ ts) by (by apply list_elem_of_lookup_2 in Ti).
      destruct (of_type_ok (Z.of_nat k) ss Hss) as [Hv Hn].
      destruct (DistLine_ok l (Z.of_nat k) (of_type (Z.of_nat k) ss)) as [line ->]; [by apply of_type_used, Hts|done..|].
      rewrite bind_ret_l, E, bind_ret_l. exists (line :: lines), (Z.of_nat k :: types). split_and!; [done|cbn; lia| |].
      * constructor; [|done]. rewrite Hin. lia.
      * intros t. rewrite elem_of_cons, Hin. split; [intros [->|[]]; split; try done; lia|].
        intros [Hkt' Ht]. destruct (Z.eq_dec t (Z.of_nat k)); [by left|right; split; [lia|done]].
    + exists lines, types. split_and!; try done. intros t. rewrite Hin. split; intros [Hkt Ht]; (split; [|done]); [lia|].
      assert (t <> Z.of_nat k); [|lia]. intros ->. destruct (list_elem_of_lookup_1 _ _ Ht) as [i Ti].
      apply HD in Ti. congruence.
Qed.

Lemma shl1_ok w n : 0 <= n < w -> shl1 w n = Ok (2 ^ n).
Proof using Type. intros H. unfold shl1. by rewrite (proj2 (Z.leb_le _ _)), (proj2 (Z.ltb_lt _ _)) by lia. Qed.

Lemma GapLines_ok fuel : forall a i, 0 <= a -> i <= 64 -> i - a <= Z.of_nat fuel ->
  exists lines, GapLines (S fuel) a i = Ok lines.
Proof using Type.
  induction fuel as [|fuel IH]; intros a i Ha Hi Hf.
  - exists []. cbn [GapLines]. by rewrite (proj2 (Z.ltb_ge a i)) by lia.
  - change (GapLines (S (S fuel)) a i) with
      (if a <? i then val ← shl1 64 a; lines ← GapLines (S fuel) (a + 1) i;
         Ok ((pad10 (LatencyFmtNS val) ++ str " |") :: lines) else Ok []).
    destruct (Z.ltb_spec a i); [|eauto]. rewrite shl1_ok, bind_ret_l by lia.
    destruct (IH (a + 1) i) as [lines ->]; [lia..|]. rewrite bind_ret_l. eauto.
Qed.

Lemma BarLines_ok types n : types ≡ₚ ts -> forall a lp, (a + n = 65)%nat -> lp = 65 \/ 0 <= lp < Z.of_nat a ->
  exists lines, BarLines l types (largestCount l) (seq a n) lp = Ok lines.
Proof using Hp Hss.
  intros HP. destruct largest_ok as [HL HS]. induction n as [|n IH]; intros a lp Ha Hlp; cbn [seq BarLines]; [eauto|].
  destruct (BarTypes_ok a (largestCount l) types) with (total := 0) (bar := @nil Z) as (bar & -> & Hb & Hz);
    try done; try lia; [|rewrite HP; apply HS; lia|cbn; lia|].
  { apply Forall_forall. intros t. by rewrite HP. }
  rewrite bind_ret_l. case_bool_decide as Hbar; [by apply IH; [lia|lia]|].
  assert (a < 63)%nat.
  { destruct (decide (a < 63)%nat) as [|Hge]; [done|]. destruct Hbar. apply Hz; [done|].
    apply Forall_forall. intros t _. apply bval_high. lia. }
  rewrite (proj2 (Nat.leb_le _ _)) by done.
  assert (exists gap, (if lp <? Z.of_nat a - 3 then Ok [pad10 (str "...") ++ str " |"] else GapLines 66 (lp + 1) (Z.of_nat a)) = Ok gap)
    as [gap ->].
  { destruct (Z.ltb_spec lp (Z.of_nat a - 3)); [eauto|]. apply (GapLines_ok 65); lia. }
  rewrite bind_ret_l, shl1_ok, bind_ret_l by lia. destruct (IH (S a) (Z.of_nat a)) as [lines ->]; [lia..|].
  rewrite bind_ret_l. eauto.
Qed.

(** The dump has a line per type; the rest are the lines of the histogram. *)
Lemma Latency_Dump_ok :
  exists lines bars, Latency_Dump l = Ok (lines ++ bars) /\ length lines = length ts.
Proof using Hp Hts Hss.
  unfold Latency_Dump. rewrite (pl_next _ _ _ Hp). destruct (Z.eqb_spec (Z.of_nat (length ts)) 0) as [E|E].
  - exists [], []. split; [done|]. cbn. lia.
  - destruct (DumpDists_ok 127 0 eq_refl) as (lines & types & ED & EL & HN & Hin). rewrite drop_0 in ED.
    change (Z.of_nat 0) with 0 in *. rewrite ED, bind_ret_l.
    assert (HP : types ≡ₚ ts).
    { apply NoDup_Permutation; [done|apply (pl_nodup _ _ _ Hp)|]. intros t. rewrite Hin. split; [by intros []|].
      intros Ht. split; [|done]. exact (proj1 (proj1 (Forall_forall _ _) (pl_range _ _ _ Hp) t Ht)). }
    destruct (BarLines_ok types 65 HP 0 LATENCY_NUM_BUCKETS eq_refl) as [bars ->]; [by left|].
    rewrite bind_ret_l. exists lines, bars. split; [done|]. by rewrite EL, HP.
Qed.

End Dump.
