(* ===== verification/SumLatencies.v ===== *)
(** * The tool that adds up latencies (src/support/sumlatencies.c)

    Processes write their latencies to files; the tool reads any number of these
    files, adds up the latencies that have the same name, and prints the sums in
    the order of the names.  Its hash table is a map from names (HashTable.v). *)

From S2P Require Import Prelude CLib CText IOBuf Latency LatencySpec LatencySum LatencyDump.

(** ** The program *)

Section Tool.

Context (realloc : Z -> Z -> Z).

(** [chunks] are the results of [fread], up to the first empty one. *)
Fixpoint ReadAll (chunks : list (list Z)) (b : IOBuf_t) : res IOBuf_t :=
  match chunks with
  | [] => Ok b
  | c :: chunks =>
    if bool_decide (c = []) then Ok b
    else b ← IOBuf_PutBytes realloc b c; ReadAll chunks b
  end.

Fixpoint ReadFiles (files : list (list (list Z))) (b : IOBuf_t) : res IOBuf_t :=
  match files with
  | [] => Ok b
  | f :: files => b ← ReadAll f b; ReadFiles files b
  end.

Fixpoint SumLoop (fuel : nat) (b : IOBuf_t) (lht : gmap (list Z) Latency_t) : res (gmap (list Z) Latency_t) :=
  match fuel with
  | O => Fault NoFuel
  | S fuel =>
    '(b, l) ← Latency_TryGet b;
    match l with
    | None => Ok lht
    | Some l =>
      match lht !! l_name l with
      | Some existing => sum ← Latency_Sum existing l; SumLoop fuel b (<[l_name l := sum]> lht)
      | None => SumLoop fuel b (<[l_name l := l]> lht)
      end
    end
  end.

Definition cmpstring (p1 p2 : list Z) : Prop := strcmp p1 p2 <= 0.

#[global] Instance cmpstring_dec : RelDecision cmpstring.
Proof. intros p1 p2. unfold cmpstring. apply _. Defined.

Fixpoint DumpNames (lht : gmap (list Z) Latency_t) (names : list (list Z)) : res (list (list Z)) :=
  match names with
  | [] => Ok []
  | n :: names =>
    l ← deref (lht !! n);
    lines ← Latency_Dump l;
    rest ← DumpNames lht names;
    Ok (lines ++ rest)
  end.

(** The table of sums and the lines that are printed; [addr] is what [malloc]
    returns for the buffer.  The iterator of the hash table reads past the buckets of
    an empty table. *)
Definition sumlatencies (addr : Z) (files : list (list (list Z))) :
    res (gmap (list Z) Latency_t * list (list Z)) :=
  let b := (IOBuf_Init addr).1 in
  b ← ReadFiles files b;
  lht ← SumLoop (S (length (unread b))) b ∅;
  if bool_decide (lht = ∅) then Fault OutOfBounds
  else
    let names := merge_sort cmpstring (map_to_list lht).*1 in
    lines ← DumpNames lht names;
    Ok (lht, lines).

End Tool.

(** ** Reports *)

(** A report is a name with samples. *)
Notation report := (list Z * list (Z * Z))%type.

Definition samples_of (name : list Z) (rs : list report) : list (Z * Z) :=
  concat (map snd (filter (fun r => r.1 = name) rs)).

#[global] Arguments samples_of : simpl never.

Lemma samples_of_app name rs rs' : samples_of name (rs ++ rs') = samples_of name rs ++ samples_of name rs'.
Proof. unfold samples_of. by rewrite filter_app, map_app, concat_app. Qed.

Lemma samples_of_one name n ss : samples_of name [(n, ss)] = if decide (n = name) then ss else [].
Proof. unfold samples_of. rewrite filter_cons, filter_nil. cbn [fst]. case_decide; cbn; [apply app_nil_r|done]. Qed.

(** The samples of every name fit into one latency. *)
Definition reports_ok (rs : list report) : Prop :=
  forall name, samples_ok (samples_of name rs) /\ few_types (samples_of name rs).

Definition lat_report (l : Latency_t) (r : report) : Prop := writable l r.1 r.2.

Lemma few_types_app ss ss' : few_types (ss ++ ss') -> few_types ss.
Proof.
  intros (ts & H5 & Ht). exists ts. split; [done|]. intros t Hin. apply Ht. rewrite map_app. apply elem_of_app. by left.
Qed.

Lemma samples_ok_app ss ss' : samples_ok (ss ++ ss') -> samples_ok ss /\ samples_ok ss'.
Proof. intros [[? ?]%Forall_app Hl]. rewrite length_app in Hl. split; split; done || lia. Qed.

Lemma reports_ok_app rs rs' : reports_ok (rs ++ rs') -> reports_ok rs.
Proof.
  intros H name. destruct (H name) as [H1 H2]. rewrite samples_of_app in *.
  split; [by apply samples_ok_app in H1 as [? _]|by apply few_types_app in H2].
Qed.

(** The table after the reports [rs]. *)
Definition table_of (lht : gmap (list Z) Latency_t) (rs : list report) : Prop :=
  forall name, match lht !! name with
  | Some l => name ∈ map fst rs /\ writable l name (samples_of name rs)
  | None => name ∉ map fst rs
  end.

Lemma table_step lht rs l r :
  table_of lht rs -> lat_report l r -> reports_ok (rs ++ [r]) ->
  exists sum, match lht !! l_name l with Some e => Latency_Sum e l | None => Ok l end = Ok sum /\
    table_of (<[l_name l := sum]> lht) (rs ++ [r]).
Proof.
  destruct r as [n ss]. intros HT (Hs & En & Hn & Hok) Hr. cbn [fst snd] in *. rewrite En.
  assert (Hin : forall name, name ∈ map fst (rs ++ [(n, ss)]) <-> name ∈ map fst rs \/ name = n).
  { intros name. rewrite map_app, elem_of_app. cbn. by rewrite list_elem_of_singleton. }
  assert (Hsum : exists sum, match lht !! n with Some e => Latency_Sum e l | None => Ok l end = Ok sum /\
    writable sum n (samples_of n rs ++ ss)).
  { pose proof (HT n) as HTn. destruct (Hr n) as [H1 H2].
    rewrite samples_of_app, samples_of_one, decide_True in H1, H2 by done.
    destruct (lht !! n) as [e|].
    - destruct HTn as (_ & He & Ee & _ & Heok).
      destruct (Latency_Sum_ok e l _ ss He Hs Heok Hok H2) as (sum & -> & Hsum & Es). exists sum. split; [done|].
      split_and!; try done. congruence.
    - exists l. split; [done|]. assert (samples_of n rs = []) as ->.
      { unfold samples_of. rewrite filter_none; [done|]. apply Forall_forall. intros r Hr' Er. apply HTn.
        apply list_elem_of_fmap. by exists r. }
      by split_and!. }
  destruct Hsum as (sum & E & Hw). exists sum. split; [done|]. intros name.
  assert (ES : samples_of name (rs ++ [(n, ss)]) = samples_of name rs ++ (if decide (n = name) then ss else []))
    by (by rewrite samples_of_app, samples_of_one).
  rewrite ES. destruct (decide (n = name)) as [<-|Hne].
  - rewrite lookup_insert_eq. split; [apply Hin; by right|done].
  - rewrite lookup_insert_ne by done. rewrite app_nil_r. pose proof (HT name) as HTn.
    destruct (lht !! name); [split; [apply Hin; left|]; apply HTn|]. intros [|]%Hin; [done|congruence].
Qed.

Lemma SumLoop_ok ls rest : Forall2 lat_report ls rest -> forall rs lht b fuel,
  table_of lht rs -> reports_ok (rs ++ rest) -> io_ok b -> unread b = concat (map lat_bytes ls) -> (length ls < fuel)%nat ->
  exists lht', SumLoop fuel b lht = Ok lht' /\ table_of lht' (rs ++ rest).
Proof.
  induction 1 as [|l r ls rest Hl _ IH]; intros rs lht b [|fuel] HT Hr Hb Hu Hf; cbn in Hf; try lia; cbn [SumLoop].
  - rewrite TryGet_end, bind_ret_l by done. exists lht. by rewrite app_nil_r.
  - cbn [map concat] in Hu. destruct (TryGet_writable l r.1 r.2 b _ Hl Hb Hu) as (l' & b' & -> & Hl' & Hb' & Hu').
    rewrite bind_ret_l. replace (rs ++ r :: rest) with ((rs ++ [r]) ++ rest) in * by (by rewrite <- app_assoc).
    destruct (table_step lht rs l' r HT Hl') as (sum & E & HT'); [by apply reports_ok_app in Hr|].
    destruct (IH (rs ++ [r]) (<[l_name l' := sum]> lht) b' fuel) as (lht' & E' & HT''); try done; [lia|].
    exists lht'. split; [|done]. destruct (lht !! l_name l') as [e|]; [by rewrite E, bind_ret_l|].
    injection E as ->. done.
Qed.

Lemma table_empty : table_of ∅ [].
Proof. intros name. rewrite lookup_empty. apply not_elem_of_nil. Qed.

(** Every latency takes some bytes. *)
Lemma lat_bytes_length l : (0 < length (lat_bytes l))%nat.
Proof.
  unfold lat_bytes, latency_fields, enc_all. cbn [map concat enc]. rewrite !length_app, !length_le_bytes. lia.
Qed.

Lemma lats_length ls : (length ls <= length (concat (map lat_bytes ls)))%nat.
Proof.
  induction ls as [|l ls IH]; [done|]. cbn [map concat length]. rewrite length_app. pose proof (lat_bytes_length l). lia.
Qed.

Lemma DumpNames_ok lht rs names :
  table_of lht rs -> (forall n, n ∈ names -> is_Some (lht !! n)) -> exists lines, DumpNames lht names = Ok lines.
Proof.
  intros HT. induction names as [|n names IH]; intros Hn; cbn [DumpNames]; [eauto|].
  destruct (Hn n ltac:(by left)) as [l El]. rewrite El. cbn [deref]. rewrite bind_ret_l.
  pose proof (HT n) as HTn. rewrite El in HTn. destruct HTn as (_ & (ts & Hp & Hts) & _ & _ & Hs).
  destruct (Latency_Dump_ok l ts _ Hp Hts Hs) as (lines & bars & -> & _). rewrite bind_ret_l.
  destruct IH as [rest ->]; [intros n' Hn'; apply Hn; by right|]. rewrite bind_ret_l. eauto.
Qed.

(** ** Files *)

(** The latencies of a process, in the order of the list. *)
Fixpoint lat_chain (g : lat_global) (head : Z) (addrs : list Z) : Prop :=
  match addrs with
  | [] => head = 0
  | a :: addrs => head = a /\ a <> 0 /\ lat_chain g (default 0 (g_next g !! a)) addrs
  end.

Record process_ok (g : lat_global) (addrs : list Z) (ls : list Latency_t) (rs : list report) : Prop := {
  po_chain : lat_chain g (g_head g) addrs;
  po_nodup : NoDup addrs;
  po_lats : Forall2 (fun a l => g_lats g !! a = Some l) addrs ls;
  po_reports : Forall2 lat_report ls rs
}.

Section Running.

Context (realloc : Z -> Z -> Z).

Hypothesis realloc_fits :
  forall p n, 0 < n <= 2 ^ 33 -> 0 < realloc p n /\ realloc p n + n < 2 ^ 63.

Lemma LatFlush_ok g addrs ls rs : Forall2 (fun a l => g_lats g !! a = Some l) addrs ls -> Forall2 lat_report ls rs ->
  forall fuel head b, lat_chain g head addrs -> (length addrs < fuel)%nat -> io_wr b ->
  io_len b + Z.of_nat (length (concat (map lat_bytes ls))) < 2 ^ 32 ->
  exists b', LatFlushLoop realloc fuel g head b = Ok b' /\ extends b (concat (map lat_bytes ls)) b'.
Proof using realloc_fits.
  intros HL HR. revert rs HR. induction HL as [|a l addrs ls Ea _ IH]; intros rs HR [|fuel] head b HC Hf Hb Hl; cbn in Hf; try lia;
    cbn [LatFlushLoop lat_chain] in *.
  - subst head. cbn. exists b. split; [done|]. by apply extends_nil.
  - destruct HC as (-> & Ha & HC). rewrite (proj2 (Z.eqb_neq a 0)), Ea by done. cbn [deref]. rewrite bind_ret_l.
    inversion HR as [|? r ? rs' Hr HR' E1 E2]; subst. cbn [map concat] in *. rewrite length_app in Hl.
    destruct (Put_writable realloc l r.1 r.2 b realloc_fits Hr Hb) as (b1 & -> & X1); [lia|]. rewrite bind_ret_l.
    destruct (IH rs' HR' fuel (default 0 (g_next g !! a)) b1 HC ltac:(lia) (proj1 X1)) as (b' & -> & X2).
    { rewrite (extends_len _ _ _ X1). lia. }
    exists b'. split; [done|]. by eapply extends_app.
Qed.

(** A flush writes all latencies to the file of the process. *)
Lemma Latency_Flush_ok g addrs ls rs addr :
  process_ok g addrs ls rs -> 0 < addr -> addr + DEFAULT_SIZE < 2 ^ 63 ->
  Z.of_nat (length (concat (map lat_bytes ls))) < 2 ^ 32 ->
  exists g', Latency_Flush realloc g addr true = Ok g' /\ g_stats g' = concat (map lat_bytes ls) /\
    g_lats g' = g_lats g /\ g_frames g' = g_frames g.
Proof using realloc_fits.
  intros [HC HN HL HR] H0 H1 Hl. unfold Latency_Flush. destruct (Init_empty addr H0 H1) as (Hw & Hm & Hp & HO).
  set (b0 := (IOBuf_Init addr).1) in *.
  assert (Hfuel : (length addrs < S (size (g_lats g)))%nat).
  { rewrite <- size_dom, <- (size_list_to_set (C := gset Z) addrs) by done. apply Nat.lt_succ_r, subseteq_size.
    intros a Ha%elem_of_list_to_set. apply elem_of_dom. apply list_elem_of_lookup_1 in Ha as [i Ei].
    destruct (Forall2_lookup_l _ _ _ _ _ HL Ei) as (l & _ & ->). eauto. }
  destruct (LatFlush_ok g addrs ls rs HL HR (S (size (g_lats g))) (g_head g) b0 HC Hfuel Hw) as (b1 & -> & W1 & M1 & P1 & N1).
  { unfold io_len. rewrite Hm. cbn. lia. }
  rewrite bind_ret_l. cbn [negb].
  destruct (Drain_ok realloc b1 realloc_fits W1) as (EP & EM & b2 & b3 & ES & EH & _); [lia|congruence|].
  rewrite EP, bind_ret_l. cbn [deref]. rewrite bind_ret_l, EM, ES, bind_ret_l, EH, bind_ret_l.
  eexists; split; [done|]. split; [|done]. cbn. by rewrite M1, Hm.
Qed.

Lemma ReadChunks_ok chunks b :
  Forall (fun c => c <> []) chunks -> io_wr b -> io_len b + Z.of_nat (length (concat chunks)) < 2 ^ 32 ->
  exists b', ReadAll realloc chunks b = Ok b' /\ extends b (concat chunks) b'.
Proof using realloc_fits.
  intros H. revert b. induction H as [|c chunks Hc _ IH]; intros b Hb Hl; cbn [ReadAll].
  - exists b. split; [done|]. by apply extends_nil.
  - rewrite bool_decide_eq_false_2 by done. cbn [concat] in *. rewrite length_app in Hl.
    destruct (PutBytes_ok realloc realloc_fits b c Hb) as (b1 & -> & X1); [lia|]. rewrite bind_ret_l.
    destruct (IH b1 (proj1 X1)) as (b' & -> & X2); [rewrite (extends_len _ _ _ X1); lia|].
    exists b'. split; [done|]. by eapply extends_app.
Qed.

Lemma ReadFiles_ok files b :
  Forall (Forall (fun c => c <> [])) files -> io_wr b -> io_len b + Z.of_nat (length (concat (map (@concat Z) files))) < 2 ^ 32 ->
  exists b', ReadFiles realloc files b = Ok b' /\ extends b (concat (map (@concat Z) files)) b'.
Proof using realloc_fits.
  intros H. revert b. induction H as [|f files Hf _ IH]; intros b Hb Hl; cbn [ReadFiles].
  - exists b. split; [done|]. by apply extends_nil.
  - cbn [map concat] in *. rewrite length_app in Hl.
    destruct (ReadChunks_ok f b Hf Hb) as (b1 & -> & X1); [lia|]. rewrite bind_ret_l.
    destruct (IH b1 (proj1 X1)) as (b' & -> & X2); [rewrite (extends_len _ _ _ X1); lia|].
    exists b'. split; [done|]. by eapply extends_app.
Qed.

(** The tool on files that hold the latencies [ls]. *)
Lemma sumlatencies_ok addr files ls rs :
  0 < addr -> addr + DEFAULT_SIZE < 2 ^ 63 -> Forall (Forall (fun c => c <> [])) files ->
  concat (map (@concat Z) files) = concat (map lat_bytes ls) -> Forall2 lat_report ls rs -> reports_ok rs -> rs <> [] ->
  Z.of_nat (length (concat (map lat_bytes ls))) < 2 ^ 32 ->
  exists lht lines, sumlatencies realloc addr files = Ok (lht, lines) /\ table_of lht rs.
Proof using realloc_fits.
  intros H0 H1 Hc Ef HR Hr Hne Hl. unfold sumlatencies. destruct (Init_empty addr H0 H1) as (Hw & Hm & Hp & HO).
  destruct (ReadFiles_ok files (IOBuf_Init addr).1 Hc Hw) as (b & -> & X).
  { unfold io_len. rewrite Hm, Ef. cbn. lia. }
  rewrite bind_ret_l. pose proof (extends_unread _ _ _ (proj1 Hw) X) as Hu.
  assert (Hu0 : unread (IOBuf_Init addr).1 = []) by (unfold unread; by rewrite Hm, drop_nil). rewrite Hu0, Ef in Hu. cbn [app] in Hu.
  destruct (SumLoop_ok ls rs HR [] ∅ b (S (length (unread b))) table_empty Hr (proj1 (proj1 X)) Hu) as (lht & -> & HT).
  { rewrite Hu. pose proof (lats_length ls). lia. }
  rewrite bind_ret_l. rewrite bool_decide_eq_false_2.
  2:{ intros ->. destruct rs as [|r rs]; [done|]. pose proof (HT r.1) as HTr. rewrite lookup_empty in HTr.
      apply HTr. by left. }
  destruct (DumpNames_ok lht rs (merge_sort cmpstring (map_to_list lht).*1) HT) as [lines ->].
  { intros n. rewrite merge_sort_Permutation. intros ([n' l] & -> & Hin)%list_elem_of_fmap.
    apply elem_of_map_to_list in Hin. cbn. rewrite Hin. eauto. }
  rewrite bind_ret_l. by exists lht, lines.
Qed.

End Running.

(** ** Properties *)

(** A process with its reports: the state of its latencies, where they are, the
    latencies and what they have seen. *)
Notation process := (lat_global * list Z * list Latency_t * list report)%type (only parsing).

(** C29: latencies of all processes add up.  When memory is found and the files can be
    opened, and all latencies together take less than 2^32 bytes, every process flushes
    its latencies to its file without a failure.  When there is at least one latency,
    and, over all processes, no name has more than five kinds of runs, a sample of 2^63
    or more, or 2^32 samples, then the tool, reading these files in any pieces, ends
    without a failure and with one latency per name, which has seen exactly the samples
    that any of the processes has measured under that name. *)
Theorem latencies_add_up (realloc : Z -> Z -> Z) addr (ps : list process) :
  (forall p n, 0 < n <= 2 ^ 33 -> 0 < realloc p n /\ realloc p n + n < 2 ^ 63) ->
  0 < addr -> addr + DEFAULT_SIZE < 2 ^ 63 ->
  Forall (fun '(g, addrs, ls, rs) => process_ok g addrs ls rs) ps ->
  reports_ok (concat (map snd ps)) -> concat (map snd ps) <> [] ->
  Z.of_nat (length (concat (map lat_bytes (concat (map (fun p => p.1.2) ps))))) < 2 ^ 32 ->
  exists gs, Forall2 (fun p g => Latency_Flush realloc p.1.1.1 addr true = Ok g) ps gs /\
    forall files, Forall2 (fun f g => concat f = g_stats g /\ Forall (fun c => c <> []) f) files gs ->
    exists lht lines, sumlatencies realloc addr files = Ok (lht, lines) /\
      forall name, match lht !! name with
      | Some l => summary l (samples_of name (concat (map snd ps))) /\ l_name l = name
      | None => name ∉ map fst (concat (map snd ps))
      end.
Proof.
  intros Hre H0 H1 Hps Hrep Hne Hl.
  assert (HG : exists gs, Forall2 (fun p g => Latency_Flush realloc p.1.1.1 addr true = Ok g) ps gs /\
    concat (map g_stats gs) = concat (map lat_bytes (concat (map (fun p => p.1.2) ps)))).
  { clear Hrep Hne. induction Hps as [|[[[g addrs] ls] rs] ps Hp _ IH]; [by exists []|].
    cbn [map concat fst snd] in *. rewrite map_app, concat_app, length_app in *.
    destruct IH as (gs & Hgs & E); [lia|].
    destruct (Latency_Flush_ok realloc Hre g addrs ls rs addr Hp H0 H1) as (g' & Eg & Es & _); [lia|].
    exists (g' :: gs). split; [by constructor|]. cbn [map concat]. by rewrite Es, E. }
  destruct HG as (gs & Hgs & E). exists gs. split; [done|]. intros files Hf.
  destruct (sumlatencies_ok realloc Hre addr files (concat (map (fun p => p.1.2) ps)) (concat (map snd ps)))
    as (lht & lines & Es & HT); try done.
  - clear - Hf. by induction Hf as [|f g files gs [_ ?] _ IH]; constructor.
  - rewrite <- E. clear - Hf. induction Hf as [|f g files gs [Ef _] _ IH]; [done|]. cbn [map concat]. by rewrite Ef, IH.
  - clear - Hps. induction Hps as [|[[[g addrs] ls] rs] ps Hp _ IH]; [constructor|]. cbn [map concat fst snd].
    apply Forall2_app; [apply (po_reports _ _ _ _ Hp)|done].
  - exists lht, lines. split; [done|]. intros name. pose proof (HT name) as HTn.
    destruct (lht !! name); [|done]. destruct HTn as (_ & ? & ? & _). done.
Qed.

(** Two processes that have measured the same calls. *)
Definition ex_latency (ss : list (Z * Z)) : Latency_t :=
  foldr (fun s l => get l (LatencyAdd l s.1 s.2)) (LatencyInit (str "roCall")) ss.

Definition ex_samples1 : list (Z * Z) := [(61, 25); (104, 1000)].
Definition ex_samples2 : list (Z * Z) := [(77, 7)].

Definition ex_process (ss : list (Z * Z)) : process :=
  (LatGlobal {[8 := ex_latency ss]} 8 ∅ ∅ (Timespec 0 0) [], [8], [ex_latency ss], [(str "roCall", ss)]).

Lemma ex_process_ok ss :
  samples_ok ss -> few_types ss ->
  match ex_process ss with (g, addrs, ls, rs) => process_ok g addrs ls rs end.
Proof.
  intros Hs H5. split; cbn; try done; [apply NoDup_singleton|by repeat constructor|]. constructor; [|constructor].
  assert (HS : summary (ex_latency ss) ss /\ l_name (ex_latency ss) = str "roCall").
  { destruct Hs as [Hs _]. induction Hs as [|[t v] ss [Ht Hv] _ IH]; [split; [apply Init_summary|done]|].
    destruct IH as [IH IHn]; [by apply few_types_cons in H5|]. unfold ex_latency. cbn [foldr fst snd]. fold (ex_latency ss).
    destruct (LatencyAdd_ok (ex_latency ss) ss t v IH Ht ltac:(cbn in Hv; lia) H5) as (l' & E & Hl' & Hn' & _). rewrite E. cbn [get]. split; [done|]. by rewrite Hn'. }
  split_and!; [apply HS|apply HS| |done]. unfold name_ok, field_ok. cbn. split; [lia|]. repeat constructor; done.
Qed.

Lemma latencies_add_up_witness :
  exists gs, Forall2 (fun p g => Latency_Flush ex_realloc p.1.1.1 4096 true = Ok g) [ex_process ex_samples1; ex_process ex_samples2] gs /\
    forall files, Forall2 (fun f g => concat f = g_stats g /\ Forall (fun c => c <> []) f) files gs ->
    exists lht lines, sumlatencies ex_realloc 4096 files = Ok (lht, lines) /\
      forall name, match lht !! name with
      | Some l => summary l (samples_of name [(str "roCall", ex_samples1); (str "roCall", ex_samples2)]) /\ l_name l = name
      | None => name ∉ [str "roCall"; str "roCall"]
      end.
Proof.
  apply (latencies_add_up ex_realloc 4096 [ex_process ex_samples1; ex_process ex_samples2]).
  - apply ex_realloc_fits.
  - lia.
  - unfold DEFAULT_SIZE. lia.
  - constructor; [apply (ex_process_ok ex_samples1)|constructor; [apply (ex_process_ok ex_samples2)|constructor]].
    + split; [repeat constructor; cbn; unfold LATENCY_MAX_DIST; lia|cbn; lia].
    + exists [61; 104]. split; [cbn; lia|done].
    + split; [repeat constructor; cbn; unfold LATENCY_MAX_DIST; lia|cbn; lia].
    + exists [77]. split; [cbn; lia|done].
  - intros name. destruct (decide (name = str "roCall")) as [->|Hne].
    + split; [split; [repeat constructor; cbn; unfold LATENCY_MAX_DIST; lia|vm_compute; done]|].
      exists [61; 104; 77]. split; [cbn; lia|]. intros t. vm_compute. done.
    + change (concat _) with [(str "roCall", ex_samples1); (str "roCall", ex_samples2)]. unfold samples_of.
      rewrite filter_none by (constructor; [|constructor; [|constructor]]; intros E; by apply Hne).
      split; [split; [constructor|cbn; lia]|]. exists []. split; [cbn; lia|]. done.
  - done.
  - vm_compute. done.
Defined.
