(* ===== verification/RPC.v ===== *)
(** * Remote procedure calls (src/lib/rpc.c, rpc.h, rpcc.c, rpcs.c)

    A message is one byte naming the call, then a length-prefixed block of
    arguments.  The socket calls are inputs of the model: each [recv] and [send]
    the code performs takes its outcome from an argument, and what the code asks
    of the socket and of the reactor is an output list of [event]s. *)

From S2P Require Import Prelude CLib IOBuf.

(** ** Data *)

Definition BLOCK_SIZE : Z := 1024.

(** [h_re] tells whether the host has a reactor entry (a non-blocking
    connection), [h_onClose] whether a close callback is set. *)
Record host_t : Type := Host {
  h_socket : Z;
  h_in : IOBuf_t;
  h_out : IOBuf_t;
  h_re : bool;
  h_onClose : bool
}.

Definition HOST_NULL : host_t := Host 0 IOBUF_NULL IOBUF_NULL false false.

Definition set_in (b : IOBuf_t) (h : host_t) : host_t :=
  Host (h_socket h) b (h_out h) (h_re h) (h_onClose h).
Definition set_out (b : IOBuf_t) (h : host_t) : host_t :=
  Host (h_socket h) (h_in h) b (h_re h) (h_onClose h).

(** What the code does to the outside. *)
Inductive event : Type :=
| EvSent (bytes : list Z)
| EvClose
| EvOnClose
| EvMarkWritable
| EvLoopIfEager.

(** The outcome of one [send]: an error that is retried (EAGAIN, EINTR), an
    error that is not, with the value returned, or a number of bytes. *)
Inductive send_result : Type :=
| SendRetry
| SendError (n : Z)
| Sent (n : Z).

(** The outcome of one [recv]: an error, or the bytes stored, none at the end
    of the stream. *)
Inductive recv_result : Type :=
| RecvError (n : Z)
| Received (bytes : list Z).

Definition RPC_IsValid (h : host_t) : bool := negb (h_socket h =? 0).

(** ** Operations *)

Section Ops.

Context (realloc : Z -> Z -> Z).

Definition RPC_Release (h : host_t) : res (host_t * list event) :=
  let '(h, evs) :=
    if RPC_IsValid h then
      (Host 0 (h_in h) (h_out h) false (h_onClose h),
       EvClose :: (if h_onClose h then [EvOnClose] else []))
    else (h, []) in
  i ← IOBuf_Release true (h_in h);
  o ← IOBuf_Release true (h_out h);
  Ok (set_out o (set_in i h), evs).

Definition RPC_Start (h : host_t) (rpc : Z) : res host_t :=
  if IOBuf_InNested (h_out h) then Fault PanicCall
  else
    out ← IOBuf_PutInt8 realloc (h_out h) rpc;
    out ← IOBuf_BeginNested realloc out;
    Ok (set_out out h).

(** The [do ... while (block && remaining)] loop of [RPC_FlushOut], one [send]
    per turn, from the local variables [buf] and [remaining].  Returns the
    output buffer, what remains, the error to return if any, and the events. *)
Fixpoint FlushLoop (block : bool) (sends : list send_result)
    (out : IOBuf_t) (buf remaining : Z) :
    res (IOBuf_t * Z * option Z * list event) :=
  match sends with
  | [] => Fault NoFuel
  | r :: sends =>
    match r with
    | SendError n => Ok (out, remaining, Some n, [])
    | SendRetry =>
      if block && negb (remaining =? 0) then FlushLoop block sends out buf remaining
      else Ok (out, remaining, None, [])
    | Sent n =>
      bytes ← read_mem out buf n;
      let remaining := u64 (remaining - n) in
      out ← IOBuf_Skip out n;
      if block && negb (remaining =? 0) then
        '(out, remaining, err, evs) ← FlushLoop block sends out (buf + n) remaining;
        Ok (out, remaining, err, EvSent bytes :: evs)
      else Ok (out, remaining, None, [EvSent bytes])
    end
  end.

(** Returns the host, the C result and the events. *)
Definition RPC_FlushOut (h : host_t) (block : bool) (sends : list send_result) :
    res (host_t * Z * list event) :=
  Assert (RPC_IsValid h);;
  '(out, remaining, buf) ← IOBuf_PeekRest (h_out h);
  let finish h remaining evs :=
    Ok (h, 0, evs ++ (if negb (remaining =? 0) && h_re h then [EvMarkWritable] else [])
                  ++ (if remaining =? 0 then [EvLoopIfEager] else [])) in
  if negb (remaining =? 0) then
    buf ← deref buf;
    '(out, remaining, err, evs) ← FlushLoop block sends out buf remaining;
    match err with
    | Some n => Ok (set_out out h, n, evs)
    | None =>
      out ← IOBuf_Shift realloc out;
      finish (set_out out h) remaining evs
    end
  else finish (set_out out h) remaining [].

Definition RPC_Send (h : host_t) (sends : list send_result) :
    res (host_t * Z * list event) :=
  if negb (RPC_IsValid h) then Fault PanicCall
  else
    out ← IOBuf_EndNested (h_out h);
    let h := set_out out h in
    if negb (IOBuf_Error out =? 0) then Ok (h, -1, [])
    else if IOBuf_InNested out then Fault PanicCall
    else RPC_FlushOut h (negb (h_re h)) sends.

(** Returns the host and [n]. *)
Definition RPC_FillIn (h : host_t) (r : recv_result) : res (host_t * Z) :=
  Assert (RPC_IsValid h);;
  '(b, buf) ← IOBuf_Reserve realloc (h_in h) BLOCK_SIZE;
  if buf =? 0 then Fault PanicCall
  else
    match r with
    | RecvError n => Ok (set_in b h, n)
    | Received [] => Ok (set_in b h, 0)
    | Received bytes =>
      b ← IOBuf_MoveLimit b bytes;
      Ok (set_in b h, Z.of_nat (length bytes))
    end.

(** Returns the buffer and, for a complete message, the call and a view of its
    arguments. *)
Definition RPC_DecodeMsg (b : IOBuf_t) : res (IOBuf_t * option (Z * IOBuf_t)) :=
  let pos := s32 (IOBuf_GetPos b) in
  '(b, rpc) ← IOBuf_TryGetInt8 b;
  match rpc with
  | None => b ← IOBuf_SetPos b pos; Ok (b, None)
  | Some rpc =>
    '(b, args) ← IOBuf_TryGetNested b;
    match args with
    | None => b ← IOBuf_SetPos b pos; Ok (b, None)
    | Some args => Ok (b, Some (rpc, args))
    end
  end.

(** [handlers[(int)rpc]]: the call is a signed [char]. *)
Definition handler_at {H} (handlers : list (option H)) (rpc : Z) : res (option H) :=
  if rpc <? 0 then Fault OutOfBounds
  else match handlers !! Z.to_nat rpc with
       | Some h => Ok h
       | None => Fault OutOfBounds
       end.

Definition RPCS_RegisterHandler {H} (handlers : list (option H)) (rpc : Z) (handler : H) :
    res (list (option H)) :=
  old ← handler_at handlers rpc;
  match old with
  | Some _ => Fault PanicCall
  | None => Ok (<[Z.to_nat rpc := Some handler]> handlers)
  end.

(** [memset(serv->handlers, 0, ...)] of [RPCS_Init]. *)
Definition RPCS_InitHandlers {H} : list (option H) := replicate 256 None.

(** The reading side, over the state [S] of the process that owns the handlers. *)
Section Readable.

Context {S : Type}.

Definition handler_t : Type := S -> host_t -> IOBuf_t -> res (S * host_t).

(** The loop over complete messages; the flag is [needsShift]. *)
Fixpoint DispatchLoop (handlers : list (option handler_t)) (fuel : nat)
    (s : S) (h : host_t) (needsShift : bool) : res (S * host_t * bool) :=
  match fuel with
  | O => Fault NoFuel
  | Datatypes.S fuel =>
    '(b, msg) ← RPC_DecodeMsg (h_in h);
    let h := set_in b h in
    match msg with
    | None => Ok (s, h, needsShift)
    | Some (rpc, args) =>
      handler ← handler_at handlers rpc;
      match handler with
      | Some f =>
        '(s, h) ← f s h args;
        if RPC_IsValid h then DispatchLoop handlers fuel s h true
        else Ok (s, h, false)
      | None => DispatchLoop handlers fuel s h true
      end
    end
  end.

(** The handler loop ends after at most one turn per unread byte, unless a
    length prefix is negative. *)
Definition RPCOnReadable (handlers : option (list (option handler_t)))
    (s : S) (h : host_t) (r : recv_result) : res (S * host_t * list event) :=
  '(h, err) ← RPC_FillIn h r;
  if err <=? 0 then
    '(h, evs) ← RPC_Release h;
    Ok (s, h, evs)
  else
    match handlers with
    | None => Ok (s, h, [])
    | Some handlers =>
      '(s, h, needsShift) ←
        DispatchLoop handlers (Datatypes.S (length (unread (h_in h)))) s h false;
      if (needsShift : bool) then
        b ← IOBuf_Shift realloc (h_in h);
        Ok (s, set_in b h, [])
      else Ok (s, h, [])
    end.

(** Successive readable events on one connection. *)
Fixpoint ReadAll (handlers : option (list (option handler_t)))
    (s : S) (h : host_t) (rs : list recv_result) : res (S * host_t * list event) :=
  match rs with
  | [] => Ok (s, h, [])
  | r :: rs =>
    '(s, h, evs) ← RPCOnReadable handlers s h r;
    '(s, h, evs') ← ReadAll handlers s h rs;
    Ok (s, h, evs ++ evs')
  end.

End Readable.

Definition RPCOnWritable (h : host_t) (sends : list send_result) : res (host_t * list event) :=
  '(h, err, evs) ← RPC_FlushOut h false sends;
  if err <? 0 then
    '(h, evs') ← RPC_Release h;
    Ok (h, evs ++ evs')
  else Ok (h, evs).

(** [a1], [a2]: the addresses [malloc] returns for the two buffers; [re_ok]:
    whether [Reactor_Add] succeeded. *)
Definition RPC_PrepareHost (a1 a2 : Z) (re_ok : bool) (socket : Z) (nonblocking : bool) :
    res (host_t * bool) :=
  let '(i, ok1) := IOBuf_Init a1 in
  let '(o, ok2) := IOBuf_Init a2 in
  if negb ok1 || negb ok2 then Fault PanicCall
  else if nonblocking then Ok (Host socket i o re_ok false, re_ok)
  else Ok (Host socket i o false false, true).

(** The [while (1)] of [RPCC_Recv], one [recv] per turn. *)
Fixpoint RecvLoop (h : host_t) (rs : list recv_result) : res (host_t * Z * option IOBuf_t) :=
  '(b, msg) ← RPC_DecodeMsg (h_in h);
  let h := set_in b h in
  match msg with
  | Some (rpc, args) => Ok (h, rpc, Some args)
  | None =>
    match rs with
    | [] => Fault NoFuel
    | r :: rs =>
      '(h, err) ← RPC_FillIn h r;
      if err <? 0 then Ok (h, err, None)
      else if err =? 0 then Ok (h, -1, None)
      else RecvLoop h rs
    end
  end.

Definition RPCC_Recv (h : host_t) (rs : list recv_result) : res (host_t * Z * option IOBuf_t) :=
  if negb (RPC_IsValid h) then Fault PanicCall
  else
    b ← IOBuf_Shift realloc (h_in h);
    RecvLoop (set_in b h) rs.

End Ops.

#[global] Arguments RPC_Release : simpl never.
#[global] Arguments RPC_FlushOut : simpl never.
#[global] Arguments RPC_FillIn : simpl never.
#[global] Arguments RPC_DecodeMsg : simpl never.
#[global] Arguments handler_at : simpl never.

(** ** Meaning *)

(** A message on the wire: the call and the bytes of its arguments. *)
Definition frame (m : Z * list Z) : list Z :=
  le_bytes 1 m.1 ++ le_bytes 4 (Z.of_nat (length m.2)) ++ m.2.

Definition stream (ms : list (Z * list Z)) : list Z := concat (map frame ms).

(** Calls are non-negative [char]s; arguments fit their length prefix. *)
Definition msg_ok (m : Z * list Z) : Prop :=
  0 <= m.1 < 128 /\ Z.of_nat (length m.2) < 2 ^ 31 - 1024.

(** The bytes handed to the socket. *)
Fixpoint sent_bytes (evs : list event) : list Z :=
  match evs with
  | [] => []
  | EvSent bytes :: evs => bytes ++ sent_bytes evs
  | _ :: evs => sent_bytes evs
  end.

(** What the documented behaviour of [send] allows for a request of [rem]
    bytes, up to the turn at which [RPC_FlushOut] leaves its loop. *)
Inductive sends_ok (block : bool) : Z -> list send_result -> Prop :=
| so_last rem n : 0 <= n <= rem -> (block = true -> n = rem) -> sends_ok block rem [Sent n]
| so_part rem n sends : block = true -> 0 <= n < rem ->
    sends_ok block (rem - n) sends -> sends_ok block rem (Sent n :: sends)
| so_wait rem : block = false -> sends_ok block rem [SendRetry]
| so_retry rem sends : block = true -> sends_ok block rem sends ->
    sends_ok block rem (SendRetry :: sends).

(** A host whose connection is open and whose buffers are usable; [pos] of the
    input buffer is at its start between two events. *)
Definition in_ok (b : IOBuf_t) : Prop :=
  io_wr b /\ io_pos b = io_buf b /\ io_nestedOffset b = NESTED_OFFSET_NONE.

(** ** Decoding *)

Lemma frame_unfold m rest :
  frame m ++ rest = le_bytes 1 m.1 ++ (le_bytes 4 (Z.of_nat (length m.2)) ++ m.2 ++ rest).
Proof. unfold frame. by rewrite <- !app_assoc. Qed.

Lemma length_frame m : length (frame m) = (5 + length m.2)%nat.
Proof. unfold frame. rewrite !length_app, !length_le_bytes. lia. Qed.

Lemma DecodeMsg_ok b m rest :
  io_ok b -> msg_ok m -> unread b = frame m ++ rest ->
  exists v, RPC_DecodeMsg b = Ok (advance (Z.of_nat (length (frame m))) b, Some (m.1, v)) /\
    io_ok v /\ unread v = m.2.
Proof.
  intros H [H1 H2] Hu. rewrite frame_unfold in Hu. unfold RPC_DecodeMsg.
  rewrite (TryGetInt8_ok b _ _ H Hu). cbn [mbind res_bind].
  assert (O1 : io_ok (advance 1 b)).
  { apply advance_ok; [done|]. rewrite Hu, length_app, length_le_bytes. lia. }
  destruct (TryGetNested_ok (advance 1 b) m.2 rest) as (v & -> & Ov & Uv).
  - done.
  - lia.
  - rewrite unread_advance, Hu by (done || lia). done.
  - exists v. cbn [mbind res_bind]. rewrite advance_advance, s8_small by lia.
    rewrite length_frame. split; [|done]. do 3 f_equal. lia.
Qed.

Lemma DecodeMsg_short b m rest :
  io_ok b -> msg_ok m -> frame m = unread b ++ rest -> rest <> [] ->
  RPC_DecodeMsg b = Ok (b, None).
Proof.
  intros H [H1 H2] Hf Hr. unfold RPC_DecodeMsg.
  assert (Hlen : (length (unread b) < length (frame m))%nat).
  { rewrite Hf, length_app. destruct rest; [done|cbn; lia]. }
  destruct (unread b) as [|x l] eqn:Hu.
  { unfold IOBuf_TryGetInt8. rewrite TRY_GET_short by (done || (rewrite Hu; cbn; lia)).
    cbn [mbind res_bind]. pose proof (SetPos_back b 0 H) as E.
    rewrite advance_0 in E. by rewrite E. }
  assert (Hx : unread b = le_bytes 1 m.1 ++ l).
  { rewrite Hu. unfold frame in Hf. cbn in Hf |- *. injection Hf as -> _. done. }
  assert (Hl : le_bytes 4 (Z.of_nat (length m.2)) ++ m.2 = l ++ rest).
  { unfold frame in Hf. cbn in Hf. by injection Hf. }
  rewrite (TryGetInt8_ok b _ _ H Hx). cbn [mbind res_bind].
  assert (O1 : io_ok (advance 1 b)).
  { apply advance_ok; [done|]. rewrite Hu. cbn. lia. }
  assert (U1 : unread (advance 1 b) = l).
  { rewrite unread_advance, Hu by (done || lia). done. }
  unfold IOBuf_TryGetNested.
  rewrite (TryGetBuf_short (advance 1 b) (Z.of_nat (length m.2)) (drop 4 l)).
  - cbn [mbind res_bind]. by rewrite SetPos_back.
  - done.
  - lia.
  - rewrite U1. destruct (decide (length l < 4)%nat) as [|Hge]; [by left|right].
    rewrite length_frame in Hlen. cbn [length] in Hlen.
    assert (E : take 4 l = le_bytes 4 (Z.of_nat (length m.2))).
    { rewrite <- (take_app_le l rest 4), <- Hl by lia. by rewrite take_app_length'. }
    rewrite <- E, take_drop, length_drop. split; [done|lia].
Qed.

(** ** Fragmentation *)

(** Bytes that are the beginning of a message and not the whole of it. *)
Definition partial (p : list Z) : Prop :=
  exists m rest, msg_ok m /\ frame m = p ++ rest /\ rest <> [].

Lemma partial_nil : partial [].
Proof. exists (0, []), (frame (0, [])). split_and!; [|done..]. unfold msg_ok; cbn. lia. Qed.

Lemma partial_len p : partial p -> Z.of_nat (length p) < 2 ^ 31.
Proof.
  intros (m & rest & [_ Hm] & Hf & _). apply (f_equal length) in Hf.
  rewrite length_frame, length_app in Hf. lia.
Qed.

Lemma stream_app ms1 ms2 : stream (ms1 ++ ms2) = stream ms1 ++ stream ms2.
Proof. unfold stream. by rewrite map_app, concat_app. Qed.

Lemma length_stream ms : (length ms <= length (stream ms))%nat.
Proof.
  induction ms as [|m ms IH]; [done|]. unfold stream in *. cbn [map concat length].
  rewrite length_app, length_frame. lia.
Qed.

Lemma DecodeMsg_partial b : io_ok b -> partial (unread b) -> RPC_DecodeMsg b = Ok (b, None).
Proof. intros H (m & rest & Hm & Hf & Hr). by apply (DecodeMsg_short b m rest). Qed.

(** Any cut of a stream of messages falls between two of them or inside one. *)
Lemma stream_cut ms x rest :
  Forall msg_ok ms -> x ++ rest = stream ms ->
  exists ms1 ms2 p, ms = ms1 ++ ms2 /\ x = stream ms1 ++ p /\ p ++ rest = stream ms2 /\
    partial p.
Proof.
  intros Hms. revert x. induction Hms as [|m ms Hm Hms IH]; intros x E.
  { apply app_nil in E as [-> ->]. exists [], [], []. split_and!; try done. apply partial_nil. }
  change (stream (m :: ms)) with (frame m ++ stream ms) in E.
  destruct (decide (length x < length (frame m))%nat) as [Hlt|Hge].
  - exists [], (m :: ms), x. split_and!; try done.
    exists m, (drop (length x) (frame m)). split_and!; [done| |].
    + rewrite <- (take_drop (length x) (frame m)) at 1. f_equal.
      rewrite <- (take_app_le _ (stream ms)), <- E by lia. by rewrite take_app_length.
    + intros En. apply (f_equal length) in En. rewrite length_drop in En. change (@length Z []) with O in En. lia.
  - assert (Ex : x = frame m ++ drop (length (frame m)) x).
    { rewrite <- (take_drop (length (frame m)) x) at 1. f_equal.
      rewrite <- (take_app_le _ rest), E by lia. by rewrite take_app_length. }
    rewrite Ex, <- app_assoc in E. apply app_inv_head in E.
    destruct (IH _ E) as (ms1 & ms2 & p & -> & Hx & Hp & HP).
    exists (m :: ms1), ms2, p. split_and!; try done.
    rewrite Ex, Hx. change (stream (m :: ms1)) with (frame m ++ stream ms1).
    by rewrite app_assoc.
Qed.

(** ** The reading side *)

Section Delivery.

Context (realloc : Z -> Z -> Z).

Hypothesis realloc_fits :
  forall p n, 0 < n <= 2 ^ 33 -> 0 < realloc p n /\ realloc p n + n < 2 ^ 63.

Lemma FillIn_ok h c :
  RPC_IsValid h = true -> in_ok (h_in h) -> c <> [] -> Z.of_nat (length c) <= BLOCK_SIZE ->
  Z.of_nat (length (unread (h_in h))) + BLOCK_SIZE < 2 ^ 32 ->
  exists b, RPC_FillIn realloc h (Received c) = Ok (set_in b h, Z.of_nat (length c)) /\
    in_ok b /\ unread b = unread (h_in h) ++ c.
Proof.
  intros Hv (Hw & Hp & HN) Hc Hlen Hbig. unfold RPC_FillIn. rewrite Hv. cbn [Assert].
  assert (Hio : io_len (h_in h) = Z.of_nat (length (unread (h_in h)))).
  { unfold unread, io_len. by rewrite Hp, Z.sub_diag, drop_0. }
  destruct (Reserve_ok realloc realloc_fits (h_in h) BLOCK_SIZE) as (b1 & E1 & X1 & C1);
    [done|unfold BLOCK_SIZE; lia|lia|].
  cbn [mbind res_bind]. rewrite E1. cbn [mbind res_bind].
  destruct (proj1 X1) as ((_&?&?&_)&_). destruct (Z.eqb_spec (io_limit b1) 0); [lia|].
  pose proof (extends_len _ _ _ X1) as L1. cbn in L1.
  destruct (MoveLimit_ok b1 c (proj1 X1)) as (b2 & E2 & X2); [lia|lia|].
  pose proof (extends_app _ _ _ _ _ X1 X2) as X. cbn in X.
  destruct c as [|x c]; [done|]. rewrite E2. cbn [mbind res_bind].
  exists b2. split_and!; [done| |by apply extends_unread; [apply Hw|]].
  destruct X as (Xw & _ & Xp & XN). unfold in_ok. split_and!; [done|lia|congruence].
Qed.

Section WithHandlers.

Context {S : Type} (handlers : list (option (@handler_t S))).

(** [Inv todo] is an invariant of the process and the connection while the
    messages [todo] are still to come. *)
Context (Inv : list (Z * list Z) -> S -> host_t -> Prop).

Hypothesis Inv_in : forall todo s h b, Inv todo s h -> Inv todo s (set_in b h).

Hypothesis handlers_ok : forall todo s h m v,
  Inv (m :: todo) s h -> RPC_IsValid h = true -> msg_ok m -> io_ok v -> unread v = m.2 ->
  match handler_at handlers m.1 with
  | Ok (Some f) => exists s' h', f s h v = Ok (s', h') /\
      h_in h' = h_in h /\ RPC_IsValid h' = true /\ Inv todo s' h'
  | Ok None => Inv todo s h
  | Fault _ => False
  end.

Lemma DispatchLoop_ok fuel todo s h ns ms p :
  Inv (ms ++ todo) s h -> RPC_IsValid h = true -> io_wr (h_in h) ->
  Forall msg_ok ms -> unread (h_in h) = stream ms ++ p -> partial p ->
  (length ms < fuel)%nat ->
  exists s' h', DispatchLoop handlers fuel s h ns =
      Ok (s', h', match ms with [] => ns | _ => true end) /\
    Inv todo s' h' /\ RPC_IsValid h' = true /\
    h_in h' = advance (Z.of_nat (length (stream ms))) (h_in h).
Proof.
  revert s h ns ms. induction fuel as [|fuel IH]; [lia|].
  intros s h ns ms HI Hv Hw Hms Hu Hp Hf. cbn [DispatchLoop].
  destruct ms as [|m ms].
  { rewrite DecodeMsg_partial by (apply Hw || by rewrite Hu). cbn.
    exists s, h. rewrite advance_0. destruct h. split_and!; done. }
  apply Forall_cons in Hms as [Hm Hms].
  change (stream (m :: ms)) with (frame m ++ stream ms) in Hu |- *.
  rewrite <- app_assoc in Hu.
  destruct (DecodeMsg_ok (h_in h) m _ (proj1 Hw) Hm Hu) as (v & -> & Ov & Uv).
  cbn [mbind res_bind]. set (b1 := advance _ (h_in h)).
  assert (U1 : unread b1 = stream ms ++ p).
  { subst b1. rewrite unread_advance, Hu, Nat2Z.id by (apply Hw || lia).
    by rewrite drop_app_length. }
  assert (W1 : io_wr b1).
  { destruct Hw as (Ho & ?). split; [|done]. apply advance_ok; [done|].
    rewrite Hu, length_app. lia. }
  assert (A1 : forall n, advance n b1 = advance (Z.of_nat (length (frame m)) + n) (h_in h)).
  { intros n. apply advance_advance. }
  pose proof (handlers_ok (ms ++ todo) s (set_in b1 h) m v (Inv_in _ _ _ _ HI) Hv Hm Ov Uv) as HH.
  cbn [length] in Hf. rewrite length_app, Nat2Z.inj_add, <- A1.
  destruct (handler_at handlers m.1) as [[f|]|]; [| |done]; cbn [mbind res_bind].
  - destruct HH as (s1 & h1 & -> & Hi1 & Hv1 & HI1). cbn [mbind res_bind]. rewrite Hv1.
    cbn [h_in set_in] in Hi1.
    destruct (IH s1 h1 true ms) as (s' & h' & -> & HI' & Hv' & Hi');
      [done|done|by rewrite Hi1|done|by rewrite Hi1|done|lia|].
    exists s', h'. rewrite Hi', Hi1. destruct ms; done.
  - destruct (IH s (set_in b1 h) true ms) as (s' & h' & -> & HI' & Hv' & Hi'); [done..|lia|].
    exists s', h'. destruct ms; done.
Qed.

Lemma OnReadable_ok todo s h c ms p :
  Inv (ms ++ todo) s h -> RPC_IsValid h = true -> in_ok (h_in h) ->
  c <> [] -> Z.of_nat (length c) <= BLOCK_SIZE -> partial (unread (h_in h)) ->
  Forall msg_ok ms -> unread (h_in h) ++ c = stream ms ++ p -> partial p ->
  exists s' h', RPCOnReadable realloc (Some handlers) s h (Received c) = Ok (s', h', []) /\
    Inv todo s' h' /\ RPC_IsValid h' = true /\ in_ok (h_in h') /\ unread (h_in h') = p.
Proof.
  intros HI Hv Hi Hc Hlen Hpu Hms Hu Hp. unfold RPCOnReadable.
  pose proof (partial_len _ Hpu).
  destruct (FillIn_ok h c) as (b & -> & Hb & Ub); [done..|unfold BLOCK_SIZE in *; lia|].
  cbn [mbind res_bind]. destruct c as [|x c]; [done|].
  destruct (Z.leb_spec (Z.of_nat (length (x :: c))) 0); [cbn in *; lia|].
  rewrite Hu in Ub.
  destruct (DispatchLoop_ok (Datatypes.S (length (unread b))) todo s (set_in b h) false ms p)
    as (s1 & h1 & E & HI1 & Hv1 & Hi1); [auto|done|apply Hb|done|done|done| |].
  { rewrite Ub, length_app. pose proof (length_stream ms). lia. }
  cbn [h_in set_in] in *. rewrite E. cbn [mbind res_bind].
  assert (Op : io_wr (h_in h1) /\ unread (h_in h1) = p).
  { destruct Hb as ((Ob & Cb) & _). rewrite Hi1. split; [split; [|done]|].
    - apply advance_ok; [done|]. rewrite Ub, length_app. lia.
    - rewrite unread_advance, Ub, Nat2Z.id by (done || lia). by rewrite drop_app_length. }
  destruct Op as [Ow Ou]. destruct ms as [|m ms].
  - exists s1, h1. split_and!; try done. rewrite Hi1. cbn. by rewrite advance_0.
  - destruct (Shift_ok realloc (h_in h1) Ow) as (b' & -> & W' & U' & _ & P' & N').
    { rewrite Hi1. apply Hb. }
    cbn [mbind res_bind]. exists s1, (set_in b' h1). split_and!; auto.
    + split_and!; done.
    + cbn. by rewrite U'.
Qed.

Lemma ReadAll_ok s h ms cs :
  Inv ms s h -> RPC_IsValid h = true -> in_ok (h_in h) -> partial (unread (h_in h)) ->
  Forall msg_ok ms ->
  Forall (fun c => c <> [] /\ Z.of_nat (length c) <= BLOCK_SIZE) cs ->
  unread (h_in h) ++ concat cs = stream ms ->
  exists s' h', ReadAll realloc (Some handlers) s h (map Received cs) = Ok (s', h', []) /\
    Inv [] s' h' /\ RPC_IsValid h' = true /\ in_ok (h_in h') /\ unread (h_in h') = [].
Proof.
  intros HI Hv Hi Hp Hms Hcs. revert s h ms HI Hv Hi Hp Hms.
  induction Hcs as [|c cs [Hc Hl] _ IH]; intros s h ms HI Hv Hi Hp Hms E; cbn [map ReadAll].
  - cbn in E. rewrite app_nil_r in E. destruct Hp as (m & rest & Hm & Hf & Hr).
    destruct ms as [|m' ms]; [by exists s, h|exfalso].
    apply Forall_cons in Hms as [Hm' _].
    change (stream (m' :: ms)) with (frame m' ++ stream ms) in E.
    destruct (DecodeMsg_ok (h_in h) m' (stream ms) (proj1 (proj1 Hi)) Hm' E) as (v & D & _).
    rewrite (DecodeMsg_short (h_in h) m rest (proj1 (proj1 Hi)) Hm Hf Hr) in D. discriminate.
  - cbn [concat] in E. rewrite app_assoc in E.
    destruct (stream_cut ms _ _ Hms E) as (ms1 & ms2 & p & -> & Hx & Hrest & HP).
    apply Forall_app in Hms as [Hm1 Hm2].
    destruct (OnReadable_ok ms2 s h c ms1 p) as (s1 & h1 & -> & HI1 & Hv1 & Hi1 & Hu1); [done..|].
    cbn [mbind res_bind]. rewrite <- Hu1 in HP, Hrest.
    destruct (IH s1 h1 ms2) as (s2 & h2 & -> & HI2 & Hv2 & Hi2 & Hu2); [done..|].
    by exists s2, h2.
Qed.

End WithHandlers.

Lemma RecvLoop_ok h m cs :
  RPC_IsValid h = true -> in_ok (h_in h) -> partial (unread (h_in h)) -> msg_ok m ->
  Forall (fun c => c <> [] /\ Z.of_nat (length c) <= BLOCK_SIZE) cs ->
  unread (h_in h) ++ concat cs = frame m ->
  exists h' v, RecvLoop realloc h (map Received cs) = Ok (h', m.1, Some v) /\
    io_ok v /\ unread v = m.2 /\ unread (h_in h') = [] /\ RPC_IsValid h' = true.
Proof.
  intros Hv Hi Hp Hm Hcs. revert h Hv Hi Hp.
  induction cs as [|c cs IH]; intros h Hv Hi Hp E.
  { exfalso. cbn in E. rewrite app_nil_r in E. destruct Hp as (m' & rest & Hm' & Hf & Hr).
    pose proof (DecodeMsg_short (h_in h) m' rest (proj1 (proj1 Hi)) Hm' Hf Hr) as D.
    destruct (DecodeMsg_ok (h_in h) m [] (proj1 (proj1 Hi)) Hm) as (v & D' & _);
      [by rewrite app_nil_r|]. congruence. }
  apply Forall_cons in Hcs as [[Hc Hl] Hcs]. specialize (IH Hcs). cbn [map].
  unfold RecvLoop; fold RecvLoop. rewrite (DecodeMsg_partial _ (proj1 (proj1 Hi)) Hp).
  cbn [mbind res_bind]. pose proof (partial_len _ Hp).
  destruct (FillIn_ok (set_in (h_in h) h) c) as (b & -> & Hb & Ub);
    [done..|cbn; unfold BLOCK_SIZE; lia|].
  cbn [mbind res_bind h_in set_in] in *.
  destruct c as [|x c]; [done|].
  destruct (Z.ltb_spec (Z.of_nat (length (x :: c))) 0); [cbn in *; lia|].
  destruct (Z.eqb_spec (Z.of_nat (length (x :: c))) 0); [cbn in *; lia|].
  cbn [concat] in E. rewrite app_assoc, <- Ub in E.
  destruct cs as [|c2 cs].
  - cbn [concat] in E. rewrite app_nil_r in E.
    destruct (DecodeMsg_ok b m [] (proj1 (proj1 Hb)) Hm) as (v & D & Ov & Uv);
      [by rewrite app_nil_r|].
    cbn. rewrite D. cbn. eexists _, v. split_and!; [done..| |done].
    cbn. rewrite unread_advance, E, Nat2Z.id by (apply Hb || lia). apply drop_all.
  - apply IH; [done|done| |done]. exists m, (concat (c2 :: cs)).
    split_and!; [done|exact (eq_sym E)|]. apply Forall_cons in Hcs as [[Hc2 _] _].
    cbn. by destruct c2.
Qed.

End Delivery.

(** ** The sending side *)

Lemma sent_bytes_app e1 e2 : sent_bytes (e1 ++ e2) = sent_bytes e1 ++ sent_bytes e2.
Proof. induction e1 as [|[] e1 IH]; cbn; rewrite ?IH, <- ?app_assoc; done. Qed.

Lemma Skip_ok b n :
  io_ok b -> 0 <= n <= Z.of_nat (length (unread b)) -> IOBuf_Skip b n = Ok (advance n b).
Proof.
  intros H Hn. rewrite unread_len in Hn by done. destruct H as (He&?&?&?&?&?&?).
  unfold IOBuf_Skip, IOBuf_SetPos, IOBuf_GetPos. rewrite He, Z.eqb_refl. cbn [negb].
  rewrite (u32_small n), (u32_small (io_pos b - io_buf b)) by lia.
  rewrite !(u32_small (io_pos b - io_buf b + n)) by lia. rewrite u64_small by lia.
  replace (io_buf b + (io_pos b - io_buf b + n)) with (io_pos b + n) by lia. cbn.
  destruct (Z.ltb_spec (io_limit b) (io_pos b + n)); [lia|done].
Qed.

Lemma read_mem_pos b n :
  io_ok b -> 0 <= n <= Z.of_nat (length (unread b)) ->
  read_mem b (io_pos b) n = Ok (take (Z.to_nat n) (unread b)).
Proof.
  intros H Hn. rewrite unread_len in Hn by done. destruct H as (?&?&?&?&?&?&?).
  unfold read_mem, unread. destruct (Z.leb_spec (io_buf b) (io_pos b)); [|lia].
  destruct (Z.leb_spec (io_pos b + n) (io_limit b)); [done|lia].
Qed.

Lemma advance_wr n b :
  io_wr b -> 0 <= n <= Z.of_nat (length (unread b)) -> io_wr (advance n b).
Proof. intros [Ho Hc] Hn. split; [by apply advance_ok|done]. Qed.

(** What a sequence of [send]s leaves of [rem] bytes. *)
Fixpoint left_after (rem : Z) (sends : list send_result) : Z :=
  match sends with
  | [] => rem
  | Sent n :: sends => left_after (rem - n) sends
  | _ :: sends => left_after rem sends
  end.

Lemma FlushLoop_ok block sends out :
  io_wr out -> 0 < Z.of_nat (length (unread out)) ->
  sends_ok block (Z.of_nat (length (unread out))) sends ->
  exists out' evs,
    FlushLoop block sends out (io_pos out) (Z.of_nat (length (unread out))) =
      Ok (out', Z.of_nat (length (unread out')), None, evs) /\
    sent_bytes evs ++ unread out' = unread out /\ io_wr out' /\
    io_nestedOffset out' = io_nestedOffset out /\
    (block = true -> unread out' = []) /\ ~ EvMarkWritable ∈ evs /\
    Z.of_nat (length (unread out')) = left_after (Z.of_nat (length (unread out))) sends.
Proof.
  revert out. induction sends as [|r sends IH]; intros out Hw Hpos Hs; [inversion Hs|].
  assert (Hb : Z.of_nat (length (unread out)) < 2 ^ 32).
  { rewrite unread_len by apply Hw. destruct Hw as ((?&?&?&?&?&?&?)&_). lia. }
  cbn [FlushLoop]. inversion Hs; subst; clear Hs.
  - rewrite read_mem_pos by (apply Hw || lia). cbn [mbind res_bind].
    rewrite Skip_ok by (apply Hw || lia). cbn [mbind res_bind].
    rewrite u64_small by lia.
    assert (E : Z.of_nat (length (unread out)) - n =
      Z.of_nat (length (unread (advance n out)))).
    { rewrite unread_advance, length_drop by (apply Hw || lia). lia. }
    assert (T : take (Z.to_nat n) (unread out) ++ unread (advance n out) = unread out).
    { rewrite unread_advance by (apply Hw || lia). apply take_drop. }
    assert (Hlast : block && negb (Z.of_nat (length (unread out)) - n =? 0) = false).
    { destruct block; [|done]. rewrite (H3 eq_refl), Z.sub_diag. done. }
    rewrite Hlast. cbn match.
    assert (Wn : io_wr (advance n out)) by (apply advance_wr; [done|lia]).
    rewrite E. exists (advance n out), [EvSent (take (Z.to_nat n) (unread out))].
    split_and!; [done| |done|done| | |done].
    + cbn. by rewrite app_nil_r.
    + intros ->. apply nil_length_inv. pose proof (H3 eq_refl). lia.
    + set_solver.
  - rewrite read_mem_pos by (apply Hw || lia). cbn [mbind res_bind].
    rewrite Skip_ok by (apply Hw || lia). cbn [mbind res_bind]. rewrite u64_small by lia.
    assert (E : Z.of_nat (length (unread out)) - n =
      Z.of_nat (length (unread (advance n out)))).
    { rewrite unread_advance, length_drop by (apply Hw || lia). lia. }
    destruct (Z.eqb_spec (Z.of_nat (length (unread out)) - n) 0); [lia|]. cbn [negb andb].
    rewrite E in *. destruct (IH (advance n out)) as (out' & evs & F & Hu & ? & ? & ? & ? & EL);
      [by apply advance_wr; [|lia]|lia|done|].
    change (io_pos out + n) with (io_pos (advance n out)). rewrite F. cbn [mbind res_bind].
    eexists _, _. split_and!; [done| |done..|set_solver|].
    2: { cbn [left_after]. rewrite EL, <- E. done. }
    cbn. rewrite <- app_assoc, Hu, unread_advance by (apply Hw || lia). apply take_drop.
  - cbn. exists out, []. split_and!; try done. set_solver.
  - destruct (Z.eqb_spec (Z.of_nat (length (unread out))) 0); [lia|]. cbn [negb andb].
    by apply IH.
Qed.

Section Sending.

Context (realloc : Z -> Z -> Z).

Hypothesis realloc_fits :
  forall p n, 0 < n <= 2 ^ 33 -> 0 < realloc p n /\ realloc p n + n < 2 ^ 63.

(** The outcome of a flush: nothing is lost, repeated or reordered; a blocking
    flush sends everything; the reactor is asked to call back exactly when
    something is left. *)
Definition flushed (block : bool) (sends : list send_result) (h : host_t) (h' : host_t) (evs : list event) : Prop :=
  sent_bytes evs ++ unread (h_out h') = unread (h_out h) /\
  (block = true -> unread (h_out h') = []) /\
  (EvMarkWritable ∈ evs <-> unread (h_out h') <> [] /\ h_re h = true) /\
  io_wr (h_out h') /\ io_nestedOffset (h_out h') = NESTED_OFFSET_NONE /\
  h_in h' = h_in h /\ h_socket h' = h_socket h /\ h_re h' = h_re h /\
  (unread (h_out h) <> [] -> io_pos (h_out h') = io_buf (h_out h') /\
    Z.of_nat (length (unread (h_out h'))) = left_after (Z.of_nat (length (unread (h_out h)))) sends).

Lemma finish_events h out evs (h' := set_out out h) :
  ~ EvMarkWritable ∈ evs ->
  let tail := (if negb (Z.of_nat (length (unread out)) =? 0) && h_re h'
               then [EvMarkWritable] else [])
              ++ (if Z.of_nat (length (unread out)) =? 0 then [EvLoopIfEager] else []) in
  sent_bytes (evs ++ tail) = sent_bytes evs /\
  (EvMarkWritable ∈ evs ++ tail <-> unread out <> [] /\ h_re h = true).
Proof.
  intros Hm tail. subst tail h'. cbn [h_re set_out]. rewrite sent_bytes_app.
  destruct (unread out) as [|x l]; cbn [length].
  - cbn. rewrite app_nil_r. set_solver.
  - destruct (Z.eqb_spec (Z.of_nat (S (length l))) 0); [lia|].
    destruct (h_re h); cbn; rewrite app_nil_r; set_solver.
Qed.

Lemma FlushOut_ok h block sends :
  RPC_IsValid h = true -> io_wr (h_out h) ->
  io_nestedOffset (h_out h) = NESTED_OFFSET_NONE ->
  (unread (h_out h) <> [] ->
   sends_ok block (Z.of_nat (length (unread (h_out h)))) sends) ->
  exists h' evs, RPC_FlushOut realloc h block sends = Ok (h', 0, evs) /\
    flushed block sends h h' evs.
Proof.
  intros Hv Hw HN Hs. unfold RPC_FlushOut, IOBuf_PeekRest. rewrite Hv. cbn [Assert].
  cbn [mbind res_bind].
  rewrite TryGetBytes_ok by (apply Hw || lia). cbn [mbind res_bind]. rewrite advance_0.
  rewrite <- unread_len, u64_small by
    (apply Hw || (rewrite unread_len by apply Hw; destruct Hw as ((?&?&?&?&?&?&?)&_); lia)).
  destruct (Z.eqb_spec (Z.of_nat (length (unread (h_out h)))) 0) as [E0|E0]; cbn [negb].
  - assert (U : unread (h_out h) = []) by (apply nil_length_inv; lia).
    eexists _, _. split; [done|]. unfold flushed. cbn. rewrite U.
    split_and!; try done. set_solver.
  - assert (U : unread (h_out h) <> []) by (intros U; rewrite U in E0; done).
    destruct (FlushLoop_ok block sends (h_out h) Hw) as (out & evs & F & Hu & W & N & B & M & EL);
      [lia|auto|].
    cbn [deref mbind res_bind]. rewrite F. cbn [mbind res_bind].
    destruct (Shift_ok realloc out W) as (out' & -> & W' & U' & _ & P' & N'); [congruence|].
    cbn [mbind res_bind]. rewrite <- U' in Hu |- *.
    destruct (finish_events h out' evs M) as [F1 F2].
    eexists _, _. split; [done|]. unfold flushed. cbn [h_out set_out h_in h_socket].
    rewrite F1. split_and!; try done; try apply F2; rewrite U'; done.
Qed.

(** [RPC_Start], the puts of the arguments, [RPC_Send]. *)
Definition RPC_call (h : host_t) (rpc : Z) (fs : list field) (sends : list send_result) :
    res (host_t * Z * list event) :=
  h ← RPC_Start realloc h rpc;
  out ← put_fields realloc (h_out h) fs;
  RPC_Send realloc (set_out out h) sends.

Lemma call_ok h rpc fs sends :
  RPC_IsValid h = true -> io_wr (h_out h) ->
  io_nestedOffset (h_out h) = NESTED_OFFSET_NONE ->
  Forall field_ok fs ->
  io_len (h_out h) + 5 + Z.of_nat (length (enc_all fs)) < 2 ^ 32 ->
  Z.of_nat (length (enc_all fs)) < 2 ^ 31 ->
  sends_ok (negb (h_re h))
    (Z.of_nat (length (unread (h_out h) ++ frame (rpc, enc_all fs)))) sends ->
  exists b h' evs, RPC_call h rpc fs sends = Ok (h', 0, evs) /\
    unread b = unread (h_out h) ++ frame (rpc, enc_all fs) /\
    flushed (negb (h_re h)) sends (set_out b h) h' evs.
Proof.
  intros Hv Hw HN Hf Hl Hb Hs. unfold RPC_call, RPC_Start, IOBuf_InNested.
  rewrite HN, Z.eqb_refl. cbn [negb].
  destruct (PutInt8_ok realloc realloc_fits (h_out h) rpc) as (b1 & -> & E1); [done|lia|].
  cbn [mbind res_bind].
  pose proof (extends_len _ _ _ E1) as L1. rewrite length_le_bytes in L1.
  assert (N1 : io_nestedOffset b1 = NESTED_OFFSET_NONE).
  { destruct E1 as (_&_&_&E1). congruence. }
  destruct (Nested_ok realloc realloc_fits b1 fs) as (b3 & E3 & X3);
    [apply E1|rewrite N1; done|done|lia|lia|].
  apply bind_Ok in E3 as (b2 & -> & E3). apply bind_Ok in E3 as (b2' & E2 & E3).
  cbn [mbind res_bind h_out set_out]. rewrite E2. cbn [mbind res_bind].
  unfold RPC_Send. change (RPC_IsValid (set_out b2' (set_out b2 h))) with (RPC_IsValid h).
  rewrite Hv. cbn [negb h_out set_out]. rewrite E3. cbn [mbind res_bind].
  assert (N3 : io_nestedOffset b3 = NESTED_OFFSET_NONE).
  { destruct X3 as (_&_&_&X3). congruence. }
  pose proof (extends_app _ _ _ _ _ E1 X3) as X.
  pose proof (extends_unread _ _ _ (proj1 Hw) X) as U.
  destruct (proj1 (proj1 X)) as (Er & _). unfold IOBuf_Error. rewrite Er, Z.eqb_refl.
  cbn [negb]. unfold IOBuf_InNested. rewrite N3, Z.eqb_refl. cbn [negb].
  destruct (FlushOut_ok (set_out b3 h) (negb (h_re h)) sends) as (h' & evs & F & P);
    [done|apply X|done| |].
  { intros _. cbn. rewrite U. done. }
  exists b3, h', evs. split_and!; [done|exact U|done].
Qed.

End Sending.

(** ** Properties *)

(** Receiving one message, whatever the pieces. *)
Lemma Recv_ok (realloc : Z -> Z -> Z) h m cs :
  (forall p n, 0 < n <= 2 ^ 33 -> 0 < realloc p n /\ realloc p n + n < 2 ^ 63) ->
  RPC_IsValid h = true -> io_wr (h_in h) ->
  io_nestedOffset (h_in h) = NESTED_OFFSET_NONE ->
  unread (h_in h) = [] -> msg_ok m ->
  Forall (fun c => c <> [] /\ Z.of_nat (length c) <= BLOCK_SIZE) cs ->
  concat cs = frame m ->
  exists h' v, RPCC_Recv realloc h (map Received cs) = Ok (h', m.1, Some v) /\
    io_ok v /\ unread v = m.2 /\ unread (h_in h') = [].
Proof.
  intros Hr Hv Hw HN Hu Hm Hcs E. unfold RPCC_Recv. rewrite Hv. cbn [negb].
  destruct (Shift_ok realloc (h_in h) Hw HN) as (b & -> & Wb & Ub & _ & Pb & Nb).
  cbn [mbind res_bind].
  destruct (RecvLoop_ok realloc Hr (set_in b h) m cs) as (h' & v & F & Ov & Uv & U' & _);
    try done; cbn [h_in set_in]; rewrite ?Ub, ?Hu; [apply partial_nil|done|].
  by exists h', v.
Qed.

(** A host for concrete runs, fresh from [RPC_PrepareHost], and handlers that
    log every message they are given. *)
Definition ex_host (re : bool) : host_t :=
  Host 3 (IOBuf_Init 4096).1 (IOBuf_Init 8192).1 re false.

Definition ex_log : Type := list (Z * list Z).

Definition ex_effect (s : ex_log) (rpc : Z) (args : list Z) : ex_log := s ++ [(rpc, args)].

Definition ex_handler (rpc : Z) : @handler_t ex_log :=
  fun s h args => Ok (s ++ [(rpc, unread args)], h).

Definition ex_handlers : list (option (@handler_t ex_log)) :=
  map (fun i => Some (ex_handler (Z.of_nat i))) (seq 0 256).

Lemma ex_handlers_ok s h m v :
  True -> RPC_IsValid h = true -> msg_ok m -> io_ok v -> unread v = m.2 ->
  match handler_at ex_handlers m.1 with
  | Ok (Some f) => exists h', f s h v = Ok (ex_effect s m.1 m.2, h') /\
      h_in h' = h_in h /\ RPC_IsValid h' = true /\ True
  | Ok None => ex_effect s m.1 m.2 = s
  | Fault _ => False
  end.
Proof.
  intros _ Hv [Hm _] _ Hu. unfold handler_at, ex_handlers.
  destruct (Z.ltb_spec m.1 0); [lia|].
  rewrite list_lookup_fmap, lookup_seq_lt by lia. cbn.
  exists h. unfold ex_handler, ex_effect. rewrite Hu, Z2Nat.id by lia. done.
Qed.

Lemma ex_host_in re : in_ok (h_in (ex_host re)).
Proof. repeat split; vm_compute; done. Qed.

Lemma ex_host_out re : io_wr (h_out (ex_host re)).
Proof. repeat split; vm_compute; done. Qed.

Definition ex_msgs : list (Z * list Z) := [(76, [1; 2; 3]); (80, []); (73, [9])].

(** C25: a connection delivers exactly once and in order.  However the bytes of
    a sequence of messages are cut into the pieces that [recv] returns, the
    readable callback runs the handler of each message once, in the order sent,
    on a view of exactly its arguments, skips calls without a handler, and
    leaves the connection open with nothing buffered. *)
Theorem RPC_delivery (realloc : Z -> Z -> Z) {S : Type}
    (handlers : list (option (@handler_t S)))
    (effect : S -> Z -> list Z -> S) (Inv : S -> host_t -> Prop) s h ms cs :
  (forall p n, 0 < n <= 2 ^ 33 -> 0 < realloc p n /\ realloc p n + n < 2 ^ 63) ->
  (forall s h b, Inv s h -> Inv s (set_in b h)) ->
  (forall s h m v,
    Inv s h -> RPC_IsValid h = true -> msg_ok m -> io_ok v -> unread v = m.2 ->
    match handler_at handlers m.1 with
    | Ok (Some f) => exists h', f s h v = Ok (effect s m.1 m.2, h') /\
        h_in h' = h_in h /\ RPC_IsValid h' = true /\ Inv (effect s m.1 m.2) h'
    | Ok None => effect s m.1 m.2 = s
    | Fault _ => False
    end) ->
  Inv s h -> RPC_IsValid h = true -> in_ok (h_in h) -> unread (h_in h) = [] ->
  Forall msg_ok ms ->
  Forall (fun c => c <> [] /\ Z.of_nat (length c) <= BLOCK_SIZE) cs ->
  concat cs = stream ms ->
  exists h', ReadAll realloc (Some handlers) s h (map Received cs) =
      Ok (fold_left (fun s m => effect s m.1 m.2) ms s, h', []) /\
    RPC_IsValid h' = true /\ unread (h_in h') = [].
Proof.
  intros Hr HI Hh Hs Hv Hi Hu Hms Hcs E.
  set (run := fold_left (fun s m => effect s m.1 m.2)).
  destruct (ReadAll_ok realloc Hr handlers
      (fun todo s' h' => Inv s' h' /\ exists past, ms = past ++ todo /\ s' = run past s))
    with (s := s) (h := h) (ms := ms) (cs := cs) as (s' & h' & F & [_ (past & Ep & ->)] & V & _ & U); try done.
  - intros todo s' h' b [? ?]. auto.
  - intros todo s' h' m v [HI' (past & Ep & ->)] H1 H2 H3 H4. specialize (Hh (run past s) h' m v HI' H1 H2 H3 H4).
    assert (Hp : exists past', ms = past' ++ todo /\ effect (run past s) m.1 m.2 = run past' s).
    { exists (past ++ [m]). rewrite <- app_assoc. split; [done|]. subst run. by rewrite fold_left_app. }
    destruct (handler_at handlers m.1) as [[f|]|]; [|by rewrite Hh in Hp|done].
    destruct Hh as (h1 & E1 & ? & ? & ?). eauto 10.
  - split; [done|]. by exists [].
  - rewrite Hu. apply partial_nil.
  - by rewrite Hu.
  - rewrite app_nil_r in Ep. subst past. by exists h'.
Qed.

Lemma RPC_delivery_witness :
  exists h', ReadAll ex_realloc (Some ex_handlers) [] (ex_host true)
      (map Received [take 2 (stream ex_msgs); take 7 (drop 2 (stream ex_msgs));
                     drop 9 (stream ex_msgs)]) =
      Ok (fold_left (fun s m => ex_effect s m.1 m.2) ex_msgs [], h', []) /\
    RPC_IsValid h' = true /\ unread (h_in h') = [].
Proof.
  apply (RPC_delivery ex_realloc ex_handlers ex_effect (fun _ _ => True));
    [apply ex_realloc_fits|done|apply ex_handlers_ok|done|done|apply ex_host_in|done| | |done].
  - repeat constructor; vm_compute; done.
  - repeat constructor; vm_compute; done.
Defined.

(** What a caller puts between [RPC_Start] and [RPC_Send] goes out as one
    message frame after whatever was still waiting in the output buffer:
    nothing is lost, repeated or reordered whatever the outcomes of the
    [send]s, a blocking connection sends all of it, and a reactor connection
    asks to be called back exactly when something is left. *)
Lemma RPC_call_spec (realloc : Z -> Z -> Z) h rpc fs sends :
  (forall p n, 0 < n <= 2 ^ 33 -> 0 < realloc p n /\ realloc p n + n < 2 ^ 63) ->
  RPC_IsValid h = true -> io_wr (h_out h) ->
  io_nestedOffset (h_out h) = NESTED_OFFSET_NONE ->
  Forall field_ok fs ->
  io_len (h_out h) + 5 + Z.of_nat (length (enc_all fs)) < 2 ^ 32 ->
  Z.of_nat (length (enc_all fs)) < 2 ^ 31 ->
  sends_ok (negb (h_re h))
    (Z.of_nat (length (unread (h_out h) ++ frame (rpc, enc_all fs)))) sends ->
  exists h' evs, RPC_call realloc h rpc fs sends = Ok (h', 0, evs) /\
    sent_bytes evs ++ unread (h_out h') = unread (h_out h) ++ frame (rpc, enc_all fs) /\
    (h_re h = false -> unread (h_out h') = []) /\
    (EvMarkWritable ∈ evs <-> unread (h_out h') <> [] /\ h_re h = true).
Proof.
  intros Hr Hv Hw HN Hf Hl Hb Hs.
  destruct (call_ok realloc Hr h rpc fs sends Hv Hw HN Hf Hl Hb Hs)
    as (b & h' & evs & F & U & P1 & P2 & P3 & _).
  exists h', evs. cbn in P1, P3. rewrite P1, U. split_and!; [done|done| |apply P3..].
  intros E. apply P2. by rewrite E.
Qed.

(** [RPCC_Recv] returns a reply as soon as its last byte has arrived, in
    however many pieces it comes, with the call and a view of exactly the
    reply's arguments. *)
Lemma RPCC_Recv_spec (realloc : Z -> Z -> Z) h m cs :
  (forall p n, 0 < n <= 2 ^ 33 -> 0 < realloc p n /\ realloc p n + n < 2 ^ 63) ->
  RPC_IsValid h = true -> io_wr (h_in h) ->
  io_nestedOffset (h_in h) = NESTED_OFFSET_NONE ->
  unread (h_in h) = [] -> msg_ok m ->
  Forall (fun c => c <> [] /\ Z.of_nat (length c) <= BLOCK_SIZE) cs ->
  concat cs = frame m ->
  exists h' v, RPCC_Recv realloc h (map Received cs) = Ok (h', m.1, Some v) /\
    io_ok v /\ unread v = m.2 /\ unread (h_in h') = [].
Proof. intros Hr Hv. by apply Recv_ok. Qed.

(** A message whose length prefix is -5 is taken for complete and leaves
    the input where it was, so a peer can keep the dispatch loop running for
    ever with five bytes: no number of turns is enough. *)
Lemma RPC_negative_length_spins {S : Type} (handlers : list (option (@handler_t S)))
    fuel s h ns rpc rest :
  io_ok (h_in h) -> 0 <= rpc < 128 -> handler_at handlers rpc = Ok None ->
  unread (h_in h) = le_bytes 1 rpc ++ le_bytes 4 (-5) ++ rest ->
  DispatchLoop handlers fuel s h ns = Fault NoFuel.
Proof.
  intros H Hrpc Hh Hu. revert ns. induction fuel as [|fuel IH]; intros ns; [done|].
  assert (O1 : io_ok (advance 1 (h_in h))).
  { apply advance_ok; [done|]. rewrite Hu, length_app, length_le_bytes. lia. }
  cbn [DispatchLoop]. unfold RPC_DecodeMsg, IOBuf_TryGetNested.
  rewrite (TryGetInt8_ok _ _ _ H Hu). cbn [mbind res_bind].
  rewrite (TryGetBuf_neg (advance 1 (h_in h)) 5 rest).
  - cbn [mbind res_bind]. rewrite advance_advance, advance_0, s8_small, Hh by lia.
    cbn [mbind res_bind]. destruct h. apply IH.
  - done.
  - lia.
  - destruct O1 as (_&?&?&_). lia.
  - rewrite unread_advance, Hu by (done || lia). done.
Qed.

(** The call byte indexes the handler table as a signed character: a
    message that names a call of 128 or above makes the dispatch loop read
    outside the table. *)
Lemma RPC_high_call_out_of_bounds {S : Type} (handlers : list (option (@handler_t S)))
    fuel s h ns rpc args :
  io_ok (h_in h) -> 128 <= rpc < 256 -> Z.of_nat (length args) < 2 ^ 31 ->
  unread (h_in h) = frame (rpc, args) ->
  DispatchLoop handlers (Datatypes.S fuel) s h ns = Fault OutOfBounds.
Proof.
  intros H Hrpc Hl Hu. rewrite <- (app_nil_r (frame _)), frame_unfold in Hu. cbn in Hl.
  cbn [DispatchLoop]. unfold RPC_DecodeMsg.
  rewrite (TryGetInt8_ok _ _ _ H Hu). cbn [mbind res_bind].
  destruct (TryGetNested_ok (advance 1 (h_in h)) args []) as (v & -> & _ & _).
  - apply advance_ok; [done|]. rewrite Hu, length_app, length_le_bytes. lia.
  - done.
  - rewrite unread_advance, Hu by (done || lia). done.
  - cbn [mbind res_bind fst]. unfold handler_at, s8.
    assert (E : signed 8 rpc < 0); [|destruct (Z.ltb_spec (signed 8 rpc) 0); [done|lia]].
    unfold signed. rewrite Z.mod_small by lia.
    destruct (Z.ltb_spec rpc (2 ^ (8 - 1))); lia.
Qed.
