(* ===== verification/Wire.v ===== *)
(** * Messages between stubs and handlers

    What the stubs and the handlers of the cache server and of the pincushion
    share: the arguments they read out of a message, in the order they were
    written, and a call over an idle connection. *)

From S2P Require Import Prelude CLib Interval Truth IOBuf RPC.

(** ** Arguments *)

(** The bytes at the address [IOBuf_GetBuf] returns. *)
Definition GetBytes (b : IOBuf_t) : res (IOBuf_t * list Z) :=
  '(b, pn) ← IOBuf_GetBuf b; Ok (b, mem_from b pn.1 pn.2).

(** The string at the address [IOBuf_GetString] returns. *)
Definition GetText (b : IOBuf_t) : res (IOBuf_t * list Z) :=
  '(b, p) ← IOBuf_GetString b; Ok (b, cstr_at b p).

(** [for (i = 0; i < n; i++) tags[i] = IOBuf_GetString(args);] *)
Fixpoint GetTags (n : nat) (b : IOBuf_t) : res (IOBuf_t * list (list Z)) :=
  match n with
  | O => Ok (b, [])
  | S n => '(b, t) ← GetText b; '(b, ts) ← GetTags n b; Ok (b, t :: ts)
  end.

(** An array of [nTags] pointers on the stack. *)
Definition GetTagArray (nTags : Z) (b : IOBuf_t) : res (IOBuf_t * list (list Z)) :=
  if nTags <? 0 then Fault OutOfBounds else GetTags (Z.to_nat nTags) b.

(** ** Reading messages back *)

Definition reads (b : IOBuf_t) (fs : list field) : Prop := io_ok b /\ unread b = enc_all fs.

Lemma reads_field b f fs :
  reads b (f :: fs) -> field_ok f -> exists b', get_field b f = Ok (b', f) /\ reads b' fs.
Proof.
  intros [Hb Hu] Hf. change (enc_all (f :: fs)) with (enc f ++ enc_all fs) in Hu.
  eexists. split; [by eapply get_field_ok|].
  assert (length (enc f) <= length (unread b))%nat by (rewrite Hu, length_app; lia).
  split; [apply advance_ok; [done|lia]|].
  by rewrite unread_advance, Hu, Nat2Z.id, drop_app_length by (done || lia).
Qed.

Lemma reads_8 b x fs : reads b (F8 x :: fs) -> - 2 ^ 7 <= x < 2 ^ 7 ->
  exists b', IOBuf_GetInt8 b = Ok (b', x) /\ reads b' fs.
Proof.
  intros Hb Hx. destruct (reads_field b (F8 x) fs Hb Hx) as (b' & H & Hr). cbn [get_field] in H.
  apply bind_Ok in H as ([b1 y] & -> & [= -> ->]). eauto.
Qed.

Lemma reads_32 b x fs : reads b (F32 x :: fs) -> - 2 ^ 31 <= x < 2 ^ 31 ->
  exists b', IOBuf_GetInt32 b = Ok (b', x) /\ reads b' fs.
Proof.
  intros Hb Hx. destruct (reads_field b (F32 x) fs Hb Hx) as (b' & H & Hr). cbn [get_field] in H.
  apply bind_Ok in H as ([b1 y] & -> & [= -> ->]). eauto.
Qed.

Lemma reads_64 b x fs : reads b (F64 x :: fs) -> - 2 ^ 63 <= x < 2 ^ 63 ->
  exists b', IOBuf_GetInt64 b = Ok (b', x) /\ reads b' fs.
Proof.
  intros Hb Hx. destruct (reads_field b (F64 x) fs Hb Hx) as (b' & H & Hr). cbn [get_field] in H.
  apply bind_Ok in H as ([b1 y] & -> & [= -> ->]). eauto.
Qed.

Lemma reads_pin b x fs : reads b (F32 (s32 x) :: fs) -> 0 <= x < 2 ^ 32 ->
  exists b', IOBuf_GetInt32 b = Ok (b', s32 x) /\ u32 (s32 x) = x /\ reads b' fs.
Proof.
  intros Hb Hx. destruct (reads_32 b (s32 x) fs Hb) as (b' & H & Hr).
  - unfold s32. pose proof (signed_range 32 x). lia.
  - exists b'. split_and!; [done| |done]. rewrite u32_s32. by apply u32_small.
Qed.

Lemma reads_bytes b l fs : reads b (FBuf l :: fs) -> Z.of_nat (length l) < 2 ^ 31 ->
  exists b', GetBytes b = Ok (b', l) /\ reads b' fs.
Proof.
  intros Hb Hx. destruct (reads_field b (FBuf l) fs Hb Hx) as (b' & H & Hr). cbn [get_field] in H.
  exists b'. split; [|done]. unfold GetBytes. apply bind_Ok in H as ([b1 y] & -> & H).
  rewrite bind_ret_l. by injection H as -> ->.
Qed.

Definition tag_text_ok (t : list Z) : Prop := Z.of_nat (length t) < 2 ^ 31 - 1 /\ Forall (fun x => x <> 0) t.

Lemma reads_tags b tags fs :
  reads b (map FStr tags ++ fs) -> Forall tag_text_ok tags ->
  exists b', GetTags (length tags) b = Ok (b', tags) /\ reads b' fs.
Proof.
  intros Hb Ht. revert b Hb. induction Ht as [|t tags Ht _ IH]; intros b Hb; [by exists b|].
  destruct (reads_field b (FStr t) _ Hb Ht) as (b1 & H & Hr). cbn [get_field] in H.
  destruct (IH b1 Hr) as (b' & E & Hr'). exists b'. split; [|done]. cbn [length GetTags]. unfold GetText.
  apply bind_Ok in H as ([b2 y] & -> & H). injection H as <- Hy. rewrite !bind_ret_l, Hy. by rewrite E.
Qed.

Lemma reads_end b : reads b [] -> IOBuf_GetEOB b = Ok tt.
Proof. intros [Hb Hu]. by apply GetEOB_ok. Qed.

(** ** What the handlers do *)

(** Pins fit their field, keys, data and tags their lengths. *)
Definition pin32 (x : Z) : Prop := 0 <= x < 2 ^ 32.

Definition interval32 (i : interval_t) : Prop := pin32 (lower i) /\ pin32 (upper i).

Definition fits (l : list Z) : Prop := Z.of_nat (length l) < 2 ^ 31.

Definition tags_fit (tags : list (list Z)) : Prop :=
  Forall tag_text_ok tags /\ Z.of_nat (length tags) < 2 ^ 31.

Lemma field_pin x : pin32 x -> field_ok (F32 (s32 x)).
Proof. intros _. cbn. unfold s32. pose proof (signed_range 32 x). lia. Qed.

Lemma field_flag (b : bool) : field_ok (F8 (if b then 1 else 0)).
Proof. cbn. destruct b; lia. Qed.

Lemma fields_tags tags : Forall tag_text_ok tags -> Forall field_ok (map FStr tags).
Proof. intros H. apply Forall_map. done. Qed.

Lemma pin32_ok x : pin_ok x -> pin32 x.
Proof. unfold pin_ok, pin32, PIN_INF. lia. Qed.

Lemma flag_of (b : bool) : negb ((if b then 1 else 0) =? 0) = b.
Proof. by destruct b. Qed.

Ltac rd H :=
  first [ let b := fresh "b" in let E := fresh "E" in let H' := fresh "Hr" in
          destruct (reads_pin _ _ _ H) as (b & -> & E & H'); [done|]; rewrite bind_ret_l, ?E; clear E H;
          rename H' into H
        | let b := fresh "b" in let H' := fresh "Hr" in
          first [ destruct (reads_bytes _ _ _ H) as (b & -> & H'); [done|]
                | destruct (reads_64 _ _ _ H) as (b & -> & H'); [done|]
                | destruct (reads_8 _ _ _ H) as (b & -> & H'); [apply field_flag|] ];
          rewrite bind_ret_l; clear H; rename H' into H ].

(** ** Calls *)

(** An idle connection: nothing waits to be sent, no message is being written. *)
Definition idle (h : host_t) : Prop :=
  RPC_IsValid h = true /\ io_wr (h_out h) /\ io_nestedOffset (h_out h) = NESTED_OFFSET_NONE /\
  unread (h_out h) = [] /\ io_len (h_out h) < 2 ^ 20.

(** The pieces in which a message arrives. *)
Definition pieces (m : Z * list Z) (cs : list (list Z)) : Prop :=
  Forall (fun c => c <> [] /\ Z.of_nat (length c) <= BLOCK_SIZE) cs /\ concat cs = frame m.

(** A client's connection between two calls. *)
Definition ready (h : host_t) : Prop :=
  idle h /\ h_re h = false /\ io_wr (h_in h) /\ io_nestedOffset (h_in h) = NESTED_OFFSET_NONE /\
  unread (h_in h) = [].

(** A connection of the reactor, with some bytes still to be sent. *)
Definition pending (h : host_t) (bytes : list Z) : Prop :=
  RPC_IsValid h = true /\ h_re h = true /\ io_wr (h_out h) /\ io_nestedOffset (h_out h) = NESTED_OFFSET_NONE /\
  io_pos (h_out h) = io_buf (h_out h) /\ unread (h_out h) = bytes.

Section Calls.

Context (realloc : Z -> Z -> Z).
Hypothesis realloc_fits : forall p n, 0 < n <= 2 ^ 33 -> 0 < realloc p n /\ realloc p n + n < 2 ^ 63.

Lemma call_idle h rpc fs sends :
  idle h -> Forall field_ok fs -> Z.of_nat (length (enc_all fs)) < 2 ^ 31 - 1024 ->
  sends_ok (negb (h_re h)) (Z.of_nat (length (frame (rpc, enc_all fs)))) sends ->
  exists h' evs, RPC_call realloc h rpc fs sends = Ok (h', 0, evs) /\
    sent_bytes evs ++ unread (h_out h') = frame (rpc, enc_all fs) /\
    (h_re h = false -> unread (h_out h') = []) /\ h_in h' = h_in h /\ RPC_IsValid h' = true.
Proof.
  intros (Hv & Hw & Hn & Hu & Hl) Hf Hb Hs.
  destruct (RPC.call_ok realloc realloc_fits h rpc fs sends Hv Hw Hn Hf) as (b & h' & evs & E & Eu & F);
    [lia|lia|by rewrite Hu|].
  destruct F as (F1 & F2 & _ & _ & _ & F6 & F7 & _). exists h', evs. cbn in F1, F6, F7.
  rewrite Eu, Hu in F1. split_and!; [done|done| |done|].
  - intros Hre. apply F2. by rewrite Hre.
  - unfold RPC_IsValid in *. by rewrite F7.
Qed.

(** A call on a connection that blocks: the whole message is sent, and the
    connection is idle again. *)
Lemma call_blocking h rpc fs sends :
  idle h -> h_re h = false -> Forall field_ok fs -> Z.of_nat (length (enc_all fs)) < 2 ^ 31 - 1024 ->
  sends_ok true (Z.of_nat (length (frame (rpc, enc_all fs)))) sends ->
  exists h' evs, RPC_call realloc h rpc fs sends = Ok (h', 0, evs) /\
    sent_bytes evs = frame (rpc, enc_all fs) /\ idle h' /\ h_re h' = false.
Proof.
  intros (Hv & Hw & Hn & Hu & Hl) Hre Hf Hb Hs.
  destruct (RPC.call_ok realloc realloc_fits h rpc fs sends Hv Hw Hn Hf) as (b & h' & evs & E & Eu & F);
    [lia|lia|by rewrite Hu, Hre|].
  rewrite Hu in Eu. destruct F as (F1 & F2 & _ & F4 & F5 & _ & F7 & F8 & F9). cbn in F1, F2, F7, F8, F9. rewrite Eu in *.
  destruct F9 as [F9 _]; [done|]. rewrite Hre in *. specialize (F2 eq_refl). rewrite F2, app_nil_r in F1.
  exists h', evs. split_and!; [done|done| |done]. split_and!; [|done|done|done|].
  - unfold RPC_IsValid in *. by rewrite F7.
  - assert (Hlen : io_len (h_out h') = Z.of_nat (length (unread (h_out h')))).
    { rewrite unread_len, F9 by apply F4. destruct F4 as ((_ & _ & _ & _ & E5 & _) & _). lia. }
    rewrite Hlen, F2. done.
Qed.

(** A call on a connection of the reactor: the message is sent after the bytes
    that wait, as far as the socket takes them. *)
Lemma call_pending h bytes rpc fs sends :
  pending h bytes -> Forall field_ok fs -> Z.of_nat (length (enc_all fs)) < 2 ^ 31 ->
  Z.of_nat (length (bytes ++ frame (rpc, enc_all fs))) < 2 ^ 32 ->
  sends_ok false (Z.of_nat (length (bytes ++ frame (rpc, enc_all fs)))) sends ->
  exists h' evs bytes', RPC_call realloc h rpc fs sends = Ok (h', 0, evs) /\ pending h' bytes' /\
    sent_bytes evs ++ bytes' = bytes ++ frame (rpc, enc_all fs) /\
    Z.of_nat (length bytes') = left_after (Z.of_nat (length (bytes ++ frame (rpc, enc_all fs)))) sends /\
    h_in h' = h_in h.
Proof.
  intros (Hv & Hre & Hw & Hn & Hp & Hu) Hf Hb Hl Hs.
  assert (Hlen : io_len (h_out h) = Z.of_nat (length bytes)).
  { rewrite <- Hu, unread_len, Hp by apply Hw. destruct Hw as ((_ & _ & _ & _ & E & _) & _). lia. }
  rewrite length_app, length_frame in Hl. cbn [snd] in Hl.
  destruct (RPC.call_ok realloc realloc_fits h rpc fs sends Hv Hw Hn Hf) as (b & h' & evs & E & Eu & F);
    [lia|lia|by rewrite Hre, Hu|].
  rewrite Hu in Eu. destruct F as (F1 & _ & _ & F4 & F5 & F6 & F7 & F8 & F9). cbn in F1, F6, F7, F8, F9. rewrite Eu in *.
  destruct F9 as [F9 F10]; [by destruct bytes|].
  exists h', evs, (unread (h_out h')). split_and!; try done. split_and!; try done; [|congruence].
  unfold RPC_IsValid in *. by rewrite F7.
Qed.

(** A call that waits for its answer. *)
Lemma call_recv h rpc fs sends m cs :
  ready h -> Forall field_ok fs -> Z.of_nat (length (enc_all fs)) < 2 ^ 31 - 1024 ->
  sends_ok true (Z.of_nat (length (frame (rpc, enc_all fs)))) sends -> msg_ok m -> pieces m cs ->
  exists h1 evs h2 v, RPC_call realloc h rpc fs sends = Ok (h1, 0, evs) /\
    sent_bytes evs = frame (rpc, enc_all fs) /\
    RPCC_Recv realloc h1 (map Received cs) = Ok (h2, m.1, Some v) /\ io_ok v /\ unread v = m.2.
Proof.
  intros (Hi & Hre & Hw & Hn & Hu) Hf Hb Hs Hm [Hcs Hc].
  destruct (call_idle h rpc fs sends Hi Hf Hb) as (h1 & evs & E1 & E & Eb & Ei & Ev); [by rewrite Hre|].
  rewrite (Eb Hre), app_nil_r in E.
  destruct (Recv_ok realloc h1 m cs realloc_fits Ev) as (h2 & v & E2 & Ov & Uv & _); try done; [by rewrite Ei..|].
  by exists h1, evs, h2, v.
Qed.

End Calls.

Lemma reads_count b tags fs : reads b (F32 (s32 (Z.of_nat (length tags))) :: map FStr tags ++ fs) -> tags_fit tags ->
  exists b1 b2 n, IOBuf_GetInt32 b = Ok (b1, n) /\ GetTagArray n b1 = Ok (b2, tags) /\ reads b2 fs.
Proof.
  intros H [Ht Hn]. rewrite s32_small in H by lia. destruct (reads_32 _ _ _ H ltac:(lia)) as (b1 & -> & H1).
  destruct (reads_tags _ _ _ H1 Ht) as (b2 & E & H2). eexists b1, b2, _. split_and!; [done| |done].
  unfold GetTagArray. rewrite (proj2 (Z.ltb_ge _ _)), Nat2Z.id by lia. done.
Qed.

(** ** Examples *)

Definition ex_view (fs : list field) : IOBuf_t :=
  (IOBuf_InitView 4096 (Z.of_nat (length (enc_all fs))) (enc_all fs)).1.

Lemma ex_host_ready : ready (ex_host false).
Proof.
  split; [split_and!; [done|apply (ex_host_out false)|done|done|vm_compute; done]|].
  split_and!; [done|apply (ex_host_in false)|done|done].
Qed.

Lemma ex_view_reads fs : Z.of_nat (length (enc_all fs)) <? 2 ^ 20 = true -> reads (ex_view fs) fs.
Proof.
  intros Hl%Z.ltb_lt. split; [|done]. unfold io_ok, io_len. cbn. rewrite u64_small by lia.
  split_and!; done || lia.
Qed.
