(* ===== verification/RpcSetup.v ===== *)
(** * Opening connections (src/lib/rpc.c, rpcs.c, rpcc.c)

    Listening, accepting, connecting and pairing, with the answers of the socket
    calls as arguments.  The process's resources are part of the state: the open
    descriptors, the address lists that [getaddrinfo] allocated, and the host
    structures of accepted connections. *)

From S2P Require Import Prelude CLib IOBuf RPC Wire.

(** ** Data *)

Record resources_t : Type := Resources {
  fds : gset Z;
  addrinfos : nat;
  host_structs : nat
}.

Definition open_fd (s : Z) (r : resources_t) : resources_t := Resources ({[s]} ∪ fds r) (addrinfos r) (host_structs r).
Definition close (s : Z) (r : resources_t) : resources_t := Resources (fds r ∖ {[s]}) (addrinfos r) (host_structs r).
Definition new_addrinfo (r : resources_t) : resources_t := Resources (fds r) (S (addrinfos r)) (host_structs r).
Definition freeaddrinfo (r : resources_t) : resources_t := Resources (fds r) (pred (addrinfos r)) (host_structs r).
Definition new_host (r : resources_t) : resources_t := Resources (fds r) (addrinfos r) (S (host_structs r)).
Definition free_host (r : resources_t) : resources_t := Resources (fds r) (addrinfos r) (pred (host_structs r)).

(** [socket], [accept]: a new descriptor unless the answer is negative. *)
Definition opened (s : Z) (r : resources_t) : resources_t := if s <? 0 then r else open_fd s r.

(** The addresses of the two buffers of a host, and whether [Reactor_Add]
    succeeds. *)
Record prepare_env : Type := PrepareEnv {
  pe_in : Z;
  pe_out : Z;
  pe_re : bool
}.

Definition Prepare (e : prepare_env) (socket : Z) (nonblocking : bool) : res (host_t * bool) :=
  RPC_PrepareHost (pe_in e) (pe_out e) (pe_re e) socket nonblocking.

Record server_t {H : Type} : Type := Server {
  s_socket : Z;
  s_re : bool;
  handlers : list (option H)
}.
#[global] Arguments server_t : clear implicits.
#[global] Arguments Server {H} s_socket s_re handlers.

(** ** Servers *)

(** The answers while a server starts to listen: the address family of the first
    address, if the service resolves; the socket; and whether [setsockopt],
    [bind], [listen] and [Reactor_Add] succeed. *)
Record listen_env : Type := ListenEnv {
  le_family : option Z;
  le_socket : Z;
  le_setsockopt : bool;
  le_bind : bool;
  le_listen : bool;
  le_re : bool
}.

Definition AF_INET : Z := 2.

(** Returns the resources, and the server's socket and whether it has a reactor
    entry, if it listens. *)
Definition RPCS_Listen (e : listen_env) (r : resources_t) : res (resources_t * option (Z * bool)) :=
  match le_family e with
  | None => Ok (r, None)
  | Some family =>
    let r := new_addrinfo r in
    if negb (family =? AF_INET) then Fault PanicCall
    else
      let s := le_socket e in
      let r := opened s r in
      if s <? 0 then Ok (r, None)
      else if negb (le_setsockopt e) then Ok (close s r, None)
      else if negb (le_bind e) then Ok (close s r, None)
      else if negb (le_listen e) then Ok (close s r, None)
      else if negb (le_re e) then Ok (close s r, None)
      else Ok (r, Some (s, true))
  end.

(** [port] is whether the port is not NULL. *)
Definition RPCS_Init {H} (port : bool) (e : listen_env) (r : resources_t) : res (resources_t * server_t H) :=
  if negb port then Ok (r, Server (-1) false RPCS_InitHandlers)
  else
    '(r, l) ← RPCS_Listen e r;
    match l with
    | None => Fault PanicCall
    | Some (s, re) => Ok (r, Server s re RPCS_InitHandlers)
    end.

(** [host] is whether [malloc] has room for the structure, [cs] the answer of
    [accept].  Returns the connection, if there is one; it uses the handlers of
    the server. *)
Definition RPCSOnConnect (host : bool) (cs : Z) (e : prepare_env) (r : resources_t) :
    res (resources_t * option host_t) :=
  if negb host then Fault PanicCall
  else
    let r := new_host r in
    let r := opened cs r in
    if cs <? 0 then Ok (r, None)
    else
      '(h, ok) ← Prepare e cs true;
      if negb (ok : bool) then Ok (free_host r, None) else Ok (r, Some h).

(** ** Clients *)

(** [connect]: whether the call succeeds; the socket is not tested. *)
Definition RPCC_Connect (family : option Z) (s : Z) (connect : bool) (e : prepare_env) (r : resources_t) :
    res (resources_t * option host_t) :=
  match family with
  | None => Ok (r, None)
  | Some family =>
    let r := new_addrinfo r in
    if negb (family =? AF_INET) then Fault PanicCall
    else
      let r := opened s r in
      if negb connect then Ok (freeaddrinfo (close s r), None)
      else
        let r := freeaddrinfo r in
        '(h, ok) ← Prepare e s false;
        if negb (ok : bool) then Ok (close s r, None) else Ok (r, Some h)
  end.

(** [sockets]: the two descriptors of [socketpair].  Returns the two hosts; the
    first gets the handlers of the server. *)
Definition RPC_Pair (sockets : option (Z * Z)) (e1 e2 : prepare_env) (r : resources_t) :
    res (resources_t * option (host_t * host_t)) :=
  match sockets with
  | None => Fault PanicCall
  | Some (s1, s2) =>
    let r := open_fd s2 (open_fd s1 r) in
    '(h1, ok) ← Prepare e1 s1 true;
    if negb (ok : bool) then Ok (r, None)
    else
      '(h2, ok) ← Prepare e2 s2 true;
      if negb (ok : bool) then Ok (r, None) else Ok (r, Some (h1, h2))
  end.

(** ** What the calls leave open *)

(** Addresses [malloc] can return for a buffer. *)
Definition prepare_ok (e : prepare_env) : Prop :=
  0 < pe_in e /\ pe_in e + DEFAULT_SIZE < 2 ^ 63 /\ 0 < pe_out e /\ pe_out e + DEFAULT_SIZE < 2 ^ 63.

(** A connection with nothing received and nothing to send. *)
Definition fresh_host (s : Z) (re : bool) (h : host_t) : Prop :=
  h_socket h = s /\ h_re h = re /\ in_ok (h_in h) /\ unread (h_in h) = [] /\ io_wr (h_out h) /\
  io_nestedOffset (h_out h) = NESTED_OFFSET_NONE /\ unread (h_out h) = [] /\ io_pos (h_out h) = io_buf (h_out h).

Lemma Prepare_ok e s nonblocking : prepare_ok e ->
  exists h, Prepare e s nonblocking = Ok (h, negb nonblocking || pe_re e) /\
    (negb nonblocking || pe_re e = true -> fresh_host s nonblocking h).
Proof.
  intros (H1 & H2 & H3 & H4). unfold Prepare, RPC_PrepareHost, IOBuf_Init.
  rewrite (proj2 (Z.eqb_neq (pe_in e) 0)), (proj2 (Z.eqb_neq (pe_out e) 0)) by lia. cbn [negb orb].
  assert (W : forall a, 0 < a -> a + DEFAULT_SIZE < 2 ^ 63 ->
    io_wr (IOBuf a a a (a + DEFAULT_SIZE) 0 NESTED_OFFSET_NONE NESTED_OFFSET_NONE false [])).
  { intros a Ha Hb. unfold io_wr, io_ok, io_len, DEFAULT_SIZE in *. cbn. split_and!; done || lia. }
  destruct nonblocking; eexists; (split; [reflexivity|]); cbn [negb orb]; intros Hre;
    (split_and!; [done|done|split_and!; [by apply W|done..]| |by apply W|done| |done]);
    unfold unread; cbn; by rewrite Z.sub_diag.
Qed.

Lemma fresh_valid s re h : fresh_host s re h -> s <> 0 -> RPC_IsValid h = true.
Proof. intros (<- & _) Hs. unfold RPC_IsValid. by rewrite (proj2 (Z.eqb_neq _ _)). Qed.

(** A server listens on one new descriptor, or has none open that it did not
    have; the address list is never freed. *)
Lemma RPCS_Listen_ok e r :
  le_socket e ∉ fds r -> le_family e = None \/ le_family e = Some AF_INET ->
  exists r' o, RPCS_Listen e r = Ok (r', o) /\
    fds r' = match o with Some (s, _) => {[s]} ∪ fds r | None => fds r end /\
    addrinfos r' = (if le_family e then S (addrinfos r) else addrinfos r).
Proof.
  intros Hs Hf. unfold RPCS_Listen.
  destruct (le_family e) as [f|]; [|by exists r, None]. destruct Hf as [|[= ->]]; [done|]. rewrite Z.eqb_refl.
  cbn [negb]. unfold opened. destruct (le_socket e <? 0); [by eexists _, _|].
  destruct (le_setsockopt e), (le_bind e), (le_listen e), (le_re e); cbn [negb];
    (eexists _, _; split; [reflexivity|split; [|done]]); cbn; set_solver.
Qed.

(** A client holds the new descriptor exactly when it gets a connection, and no
    address list is left. *)
Lemma RPCC_Connect_ok family s connect e r :
  s ∉ fds r -> family = None \/ family = Some AF_INET -> (s < 0 -> connect = false) -> prepare_ok e ->
  exists r' o, RPCC_Connect family s connect e r = Ok (r', o) /\ addrinfos r' = addrinfos r /\
    match o with
    | Some h => fds r' = {[s]} ∪ fds r /\ fresh_host s false h
    | None => fds r' = fds r
    end.
Proof.
  intros Hs Hf Hc He. unfold RPCC_Connect.
  destruct family as [f|]; [|by exists r, None]. destruct Hf as [|[= ->]]; [done|]. rewrite Z.eqb_refl. cbn [negb].
  destruct connect; cbn [negb].
  - destruct (Prepare_ok e s false He) as (h & -> & Hh). cbn [mbind res_bind negb orb] in *.
    unfold opened. rewrite (proj2 (Z.ltb_ge s 0)) by (destruct (Z.lt_ge_cases s 0); [specialize (Hc H)|]; done || lia).
    eexists _, _. split; [reflexivity|]. cbn. auto.
  - eexists _, _. split; [reflexivity|]. unfold opened. split; [by case_if|]. case_if; cbn; set_solver.
Qed.

(** Accepting: a connection is a new descriptor and a new structure.  When the
    reactor has no room the structure is freed and the descriptor stays open;
    when [accept] fails the structure stays allocated. *)
Lemma RPCSOnConnect_ok cs e r : prepare_ok e ->
  exists r' o, RPCSOnConnect true cs e r = Ok (r', o) /\
    if cs <? 0 then o = None /\ fds r' = fds r /\ host_structs r' = S (host_structs r)
    else fds r' = {[cs]} ∪ fds r /\
      match o with
      | Some h => pe_re e = true /\ host_structs r' = S (host_structs r) /\ fresh_host cs true h
      | None => pe_re e = false /\ host_structs r' = host_structs r
      end.
Proof.
  intros He. unfold RPCSOnConnect, opened. cbn [negb]. destruct (cs <? 0); [by eexists _, _|].
  destruct (Prepare_ok e cs true He) as (h & -> & Hh). cbn [mbind res_bind negb orb] in *.
  destruct (pe_re e); cbn [negb]; eexists _, _; (split; [reflexivity|]); cbn; auto.
Qed.

(** A pair opens two descriptors in any case; both stay open when the reactor
    has no room for one of them. *)
Lemma RPC_Pair_ok s1 s2 e1 e2 r : prepare_ok e1 -> prepare_ok e2 ->
  exists r' o, RPC_Pair (Some (s1, s2)) e1 e2 r = Ok (r', o) /\ fds r' = {[s2]} ∪ ({[s1]} ∪ fds r) /\
    match o with
    | Some (h1, h2) => fresh_host s1 true h1 /\ fresh_host s2 true h2
    | None => pe_re e1 && pe_re e2 = false
    end.
Proof.
  intros H1 H2. unfold RPC_Pair. destruct (Prepare_ok e1 s1 true H1) as (h1 & -> & F1).
  cbn [mbind res_bind negb orb] in *. destruct (pe_re e1); cbn [negb andb]; [|by eexists _, _].
  destruct (Prepare_ok e2 s2 true H2) as (h2 & -> & F2). cbn [mbind res_bind negb orb] in *.
  destruct (pe_re e2); cbn [negb]; eexists _, _; (split; [reflexivity|]); auto.
Qed.
