(* ===== verification/PinTable.v ===== *)
(** * The table of pinned snapshots (src/pincushion/pintable.c, pintable.h)

    A circular buffer of the snapshots the database keeps, ordered by timestamp,
    with a count of the clients that use each one.  Pins that are removed are
    queued and unpinned in the database later.  Pointers into the table are
    indices. *)

From S2P Require Import Prelude CLib CText Timeval.

(** ** Data *)

Definition MAX_PINS : Z := 1024.

Record PT_Entry_t : Type := PTEntry {
  e_pin : Z;
  e_timestamp : timeval;
  e_ref : Z
}.

(** [pendingUnpins] with [nPendingUnpins] as its length; [marked] is whether
    [Reactor_MarkWritable] has been called since the last write. *)
Record PinTable : Type := PT {
  table : list PT_Entry_t;
  pt_head : Z;
  pt_tail : Z;
  last_ref : Z;
  pendingUnpins : list Z;
  unpinInFlight : bool;
  maxStaleness : timeval;
  marked : bool
}.

Definition set_table (x : list PT_Entry_t) (p : PinTable) : PinTable :=
  PT x (pt_head p) (pt_tail p) (last_ref p) (pendingUnpins p) (unpinInFlight p) (maxStaleness p) (marked p).
Definition set_head (x : Z) (p : PinTable) : PinTable :=
  PT (table p) x (pt_tail p) (last_ref p) (pendingUnpins p) (unpinInFlight p) (maxStaleness p) (marked p).
Definition set_tail (x : Z) (p : PinTable) : PinTable :=
  PT (table p) (pt_head p) x (last_ref p) (pendingUnpins p) (unpinInFlight p) (maxStaleness p) (marked p).
Definition set_last_ref (x : Z) (p : PinTable) : PinTable :=
  PT (table p) (pt_head p) (pt_tail p) x (pendingUnpins p) (unpinInFlight p) (maxStaleness p) (marked p).
Definition set_unpins (x : list Z) (inFlight mark : bool) (p : PinTable) : PinTable :=
  PT (table p) (pt_head p) (pt_tail p) (last_ref p) x inFlight (maxStaleness p) mark.

(** The macros [sub], [add] and [ptr_sub]. *)
Definition sub (a b : Z) : Z := if a - b <? 0 then a + MAX_PINS - b else a - b.
Definition add (a b : Z) : Z := if a + b <? MAX_PINS then a + b else a - MAX_PINS + b.
Definition ptr_sub (a b : Z) : Z := if b <=? a then a - b else a + MAX_PINS - b.

Definition entry (p : PinTable) (i : Z) : res PT_Entry_t :=
  if i <? 0 then Fault OutOfBounds
  else match table p !! Z.to_nat i with Some e => Ok e | None => Fault OutOfBounds end.

Definition set_entry (i : Z) (e : PT_Entry_t) (p : PinTable) : PinTable :=
  set_table (<[Z.to_nat i := e]> (table p)) p.

(** ** Operations *)

(** The static table is zero; [PQsocket] and [Reactor_Add] succeed. *)
Definition PT_Init (initMaxStaleness : timeval) : PinTable :=
  PT (replicate 1024 (PTEntry 0 (Timeval 0 0) 0)) 0 0 0 [] false initMaxStaleness false.

Definition PT_RemoveTail (p : PinTable) : res PinTable :=
  Assert (negb (pt_tail p =? pt_head p));;
  let p := set_tail (add (pt_tail p) 1) p in
  e ← entry p (pt_tail p);
  Assert (e_ref e =? 0);;
  Assert (Z.of_nat (length (pendingUnpins p)) <? MAX_PINS);;
  let mark := bool_decide (pendingUnpins p = []) && negb (unpinInFlight p) in
  Ok (set_unpins (pendingUnpins p ++ [e_pin e]) (unpinInFlight p) (marked p || mark) p).

(** [while (next != head)] of [PT_Clean]. *)
Fixpoint CleanLoop (fuel : nat) (p : PinTable) (bound : timeval) (next : Z) : res PinTable :=
  match fuel with
  | O => Fault NoFuel
  | S fuel =>
    if next =? pt_head p then Ok p
    else
      let next := add next 1 in
      e ← entry p next;
      if 0 <? e_ref e then Ok (set_last_ref next p)
      else if timer_lt (e_timestamp e) bound then
        p ← PT_RemoveTail p;
        Assert (pt_tail p =? next);;
        CleanLoop fuel p bound next
      else CleanLoop fuel p bound next
  end.

(** [now] is what [gettimeofday] returns; one turn per entry. *)
Definition PT_Clean (p : PinTable) (now : timeval) : res PinTable :=
  CleanLoop 1024 p (timersub now (maxStaleness p)) (pt_tail p).

Fixpoint FindLoop (fuel : nat) (p : PinTable) (pin r : Z) : res (option Z) :=
  match fuel with
  | O => Fault NoFuel
  | S fuel =>
    if r =? pt_tail p then Ok None
    else
      e ← entry p r;
      if e_pin e =? pin then Ok (Some r) else FindLoop fuel p pin (sub r 1)
  end.

Definition PT_FindPin (p : PinTable) (pin : Z) : res (option Z) := FindLoop 1024 p pin (pt_head p).

(** [while (a != tail)] of [PT_Insert]: returns the place of the new entry. *)
Fixpoint BubbleLoop (fuel : nat) (p : PinTable) (a b : Z) : res (PinTable * Z) :=
  match fuel with
  | O => Fault NoFuel
  | S fuel =>
    if a =? pt_tail p then Ok (p, b)
    else
      ea ← entry p a;
      eb ← entry p b;
      if timer_lt (e_timestamp ea) (e_timestamp eb) then Ok (p, b)
      else BubbleLoop fuel (set_entry a eb (set_entry b ea p)) (sub a 1) a
  end.

(** The asserted order of two timestamps. *)
Definition ts_le (a b : timeval) : bool := timer_lt a b || timer_eq a b.

Definition PT_Insert (p : PinTable) (timestamp : timeval) (pin : Z) (now : timeval) : res (PinTable * Z) :=
  p ← (if ptr_sub (pt_head p) (pt_tail p) =? MAX_PINS - 1 then PT_Clean p now else Ok p);
  p ← (if ptr_sub (pt_head p) (pt_tail p) =? MAX_PINS - 1 then
         e ← entry p (add (pt_tail p) 1);
         if 0 <? e_ref e then Fault PanicCall else PT_RemoveTail p
       else Ok p);
  r ← PT_FindPin p pin;
  match r with
  | Some r =>
    let prev := sub r 1 in
    let next := add r 1 in
    (if negb (prev =? pt_tail p) then
       e ← entry p prev; Assert (ts_le (e_timestamp e) timestamp)
     else Ok tt);;
    (if negb (r =? pt_head p) then
       e ← entry p next; Assert (ts_le timestamp (e_timestamp e))
     else Ok tt);;
    e ← entry p r;
    Ok (set_entry r (PTEntry (e_pin e) timestamp (e_ref e)) p, r)
  | None =>
    let p := set_head (add (pt_head p) 1) p in
    let p := set_entry (pt_head p) (PTEntry pin timestamp 0) p in
    BubbleLoop 1024 p (sub (pt_head p) 1) (pt_head p)
  end.

(** [while (a != tail)] of [PT_Find]. *)
Fixpoint SinceLoop (fuel : nat) (p : PinTable) (bound : timeval) (a b num : Z) : res (Z * Z) :=
  match fuel with
  | O => Fault NoFuel
  | S fuel =>
    if a =? pt_tail p then Ok (b, num)
    else
      e ← entry p a;
      if timer_lt (e_timestamp e) bound then Ok (b, num)
      else SinceLoop fuel p bound (sub a 1) a (num + 1)
  end.

(** The oldest entry within [lower_bound] of [now], and the number of entries
    from there on. *)
Definition PT_Find (p : PinTable) (lower_bound now : timeval) : res (option Z * Z) :=
  let bound := timersub now lower_bound in
  if pt_head p =? pt_tail p then Ok (None, 0)
  else
    e ← entry p (pt_head p);
    if timer_lt (e_timestamp e) bound then Ok (None, 0)
    else
      '(r, num) ← SinceLoop 1024 p bound (sub (pt_head p) 1) (pt_head p) 1;
      Ok (Some r, num).

Definition PT_GetEntry (p : PinTable) (i : Z) : option Z :=
  if i <? ptr_sub (pt_head p) (pt_tail p) then Some (sub (pt_head p) i) else None.

Definition PT_AddRef (p : PinTable) (i : Z) : res PinTable :=
  e ← entry p i;
  let p := set_entry i (PTEntry (e_pin e) (e_timestamp e) (s32 (e_ref e + 1))) p in
  Ok (if ptr_sub i (pt_tail p) <? ptr_sub (last_ref p) (pt_tail p) then set_last_ref i p else p).

Definition PT_RemoveRef (p : PinTable) (i : Z) (now : timeval) : res PinTable :=
  e ← entry p i;
  let p := if e_ref e <? 1 then p
           else set_entry i (PTEntry (e_pin e) (e_timestamp e) (e_ref e - 1)) p in
  PT_Clean p now.

Fixpoint PTFlushLoop (fuel : nat) (p : PinTable) : res PinTable :=
  match fuel with
  | O => Fault NoFuel
  | S fuel => if pt_tail p =? pt_head p then Ok p else p ← PT_RemoveTail p; PTFlushLoop fuel p
  end.

Definition PT_Flush (p : PinTable) : res PinTable :=
  p ← PTFlushLoop 1024 p;
  Ok (set_last_ref (pt_head p) p).

(** The SQL of [PTOnWrite] in a buffer of 29 bytes per command and one. *)
Fixpoint UnpinSql (cap : Z) (buf : list Z) (pins : list Z) : res (list Z) :=
  match pins with
  | [] => Ok buf
  | pin :: pins =>
    let s := str "UNPIN " ++ fmt_d pin ++ str "; " in
    if cap <=? strlen buf + strlen s then Fault OutOfBounds else UnpinSql cap (buf ++ s) pins
  end.

(** [sent]: [PQsendQuery]; [up]: whether the connection is still good. *)
Definition PTOnWrite (p : PinTable) (sent up : bool) : res (PinTable * list Z) :=
  let cap := Z.of_nat (length (pendingUnpins p)) * strlen (str "UNPIN XXXXXXXXXXXXXXXXXXXXX; ") + 1 in
  sql ← UnpinSql cap [] (pendingUnpins p);
  Ok (if sent then set_unpins [] true false p
      else set_unpins (pendingUnpins p) (unpinInFlight p) up p, sql).

(** [consumed]: [PQconsumeInput]; [up] as above; [drained]: whether
    [PQgetResult] has returned NULL, after whatever results. *)
Definition PTOnRead (p : PinTable) (consumed up drained : bool) : res PinTable :=
  if negb consumed then if up then Ok p else Fault PanicCall
  else if drained then
    Ok (set_unpins (pendingUnpins p) false (marked p || negb (bool_decide (pendingUnpins p = []))) p)
  else Ok p.

#[global] Arguments PT_RemoveTail : simpl never.
#[global] Arguments entry : simpl never.

(** ** Meaning *)

(** The place of the [i]-th oldest entry behind the tail; the tail itself is at
    [-1]. *)
Definition place (t i : Z) : Z := (t + 1 + i) mod MAX_PINS.

(** [p] holds the entries [l], oldest first. *)
Record holds_entries (p : PinTable) (l : list PT_Entry_t) : Prop := {
  he_table : length (table p) = 1024%nat;
  he_tail : 0 <= pt_tail p < MAX_PINS;
  he_size : Z.of_nat (length l) < MAX_PINS;
  he_head : pt_head p = place (pt_tail p) (Z.of_nat (length l) - 1);
  he_entry i e : l !! i = Some e -> table p !! Z.to_nat (place (pt_tail p) (Z.of_nat i)) = Some e
}.

(** ** Lemmas: places *)

Ltac places := unfold place, add, sub, ptr_sub, MAX_PINS in *.

Lemma place_range t i : 0 <= place t i < MAX_PINS.
Proof. places. apply Z.mod_pos_bound. lia. Qed.

Lemma place_tail t : 0 <= t < MAX_PINS -> place t (-1) = t.
Proof. places. intros H. rewrite Z.mod_small by lia. lia. Qed.

Lemma mod_step a b : 0 <= a < MAX_PINS -> - MAX_PINS <= b < MAX_PINS ->
  (a + b) mod MAX_PINS = if a + b <? 0 then a + b + MAX_PINS else if a + b <? MAX_PINS then a + b else a + b - MAX_PINS.
Proof.
  unfold MAX_PINS. intros Ha Hb. destruct (Z.ltb_spec (a + b) 0), (Z.ltb_spec (a + b) 1024).
  - symmetry. apply (Z.mod_unique _ _ (-1)); lia.
  - lia.
  - apply Z.mod_small. lia.
  - symmetry. apply (Z.mod_unique _ _ 1); lia.
Qed.

Lemma place_add t i : add (place t i) 1 = place t (i + 1).
Proof.
  pose proof (place_range t i) as H. unfold place at 2.
  replace (t + 1 + (i + 1)) with ((t + 1 + i) + 1) by lia.
  rewrite <- Z.add_mod_idemp_l by (unfold MAX_PINS; lia). fold (place t i).
  rewrite mod_step by (unfold MAX_PINS in *; lia). unfold add.
  destruct (Z.ltb_spec (place t i + 1) 0), (Z.ltb_spec (place t i + 1) MAX_PINS); lia.
Qed.

Lemma place_sub t i j : 0 <= j < MAX_PINS -> sub (place t i) j = place t (i - j).
Proof.
  intros Hj. pose proof (place_range t i) as H. unfold place at 2.
  replace (t + 1 + (i - j)) with ((t + 1 + i) + - j) by lia.
  rewrite <- Z.add_mod_idemp_l by (unfold MAX_PINS; lia). fold (place t i).
  rewrite mod_step by (unfold MAX_PINS in *; lia). unfold sub.
  replace (place t i + - j) with (place t i - j) by lia.
  destruct (Z.ltb_spec (place t i - j) 0), (Z.ltb_spec (place t i - j) MAX_PINS); lia.
Qed.

Lemma place_inj t i j : -1 <= i < MAX_PINS - 1 -> -1 <= j < MAX_PINS - 1 -> place t i = place t j -> i = j.
Proof.
  places. intros Hi Hj H. pose proof (Z.div_mod (t + 1 + i) 1024). pose proof (Z.div_mod (t + 1 + j) 1024). nia.
Qed.

Lemma place_next t i : place (place t 0) i = place t (i + 1).
Proof.
  unfold place. rewrite <- (Z.add_assoc (_ mod _) 1 i), Z.add_mod_idemp_l by (unfold MAX_PINS; lia).
  f_equal. lia.
Qed.

Lemma place_ptr_sub t i : 0 <= t < MAX_PINS -> -1 <= i < MAX_PINS - 1 -> ptr_sub (place t i) t = i + 1.
Proof.
  intros Ht Hi. pose proof (place_range t i) as H.
  assert (E : place t i = if t + 1 + i <? MAX_PINS then t + 1 + i else t + 1 + i - MAX_PINS).
  { unfold place. rewrite <- (Z.add_assoc t 1 i), mod_step by (unfold MAX_PINS in *; lia).
    destruct (Z.ltb_spec (t + (1 + i)) 0); [lia|done]. }
  unfold ptr_sub. destruct (Z.ltb_spec (t + 1 + i) MAX_PINS), (Z.leb_spec t (place t i)); lia.
Qed.

(** ** Lemmas: entries *)

Section Entries.

Context (p : PinTable) (l : list PT_Entry_t).
Hypothesis Hp : holds_entries p l.

Lemma entry_at i e : l !! i = Some e -> entry p (place (pt_tail p) (Z.of_nat i)) = Ok e.
Proof.
  intros He. pose proof (place_range (pt_tail p) (Z.of_nat i)) as H. unfold entry.
  rewrite (proj2 (Z.ltb_ge _ _)), (he_entry p l Hp i e He) by lia. done.
Qed.

(** A walk is at the tail exactly in front of the first entry. *)
Lemma at_tail i : (i < length l)%nat \/ i = length l ->
  (place (pt_tail p) (Z.of_nat i - 1) =? pt_tail p) = (i =? 0)%nat.
Proof.
  intros Hi. pose proof (he_size p l Hp). pose proof (he_tail p l Hp).
  destruct i as [|i]; [by rewrite place_tail, Z.eqb_refl|]. apply Z.eqb_neq. intros E.
  rewrite <- (place_tail (pt_tail p)) in E at 2 by done. apply place_inj in E; lia.
Qed.

Lemma at_head i : (i <= length l)%nat ->
  (place (pt_tail p) (Z.of_nat i - 1) =? pt_head p) = (i =? length l)%nat.
Proof.
  intros Hi. pose proof (he_size p l Hp). rewrite (he_head p l Hp).
  destruct (Nat.eqb_spec i (length l)) as [->|Hne]; [apply Z.eqb_refl|].
  apply Z.eqb_neq. intros E. apply place_inj in E; lia.
Qed.

Lemma size_ok : ptr_sub (pt_head p) (pt_tail p) = Z.of_nat (length l).
Proof.
  pose proof (he_size p l Hp). rewrite (he_head p l Hp), place_ptr_sub; [lia|apply Hp|lia].
Qed.

Lemma set_entry_ok i e : (i < length l)%nat ->
  holds_entries (set_entry (place (pt_tail p) (Z.of_nat i)) e p) (<[i := e]> l).
Proof.
  intros Hi. pose proof (he_size p l Hp) as Hs. split; cbn.
  - rewrite length_insert. apply Hp.
  - apply Hp.
  - by rewrite length_insert.
  - rewrite length_insert. apply Hp.
  - intros j x Hj. pose proof (place_range (pt_tail p) (Z.of_nat i)). pose proof (place_range (pt_tail p) (Z.of_nat j)).
    apply list_lookup_insert_Some in Hj as [(<- & <- & _)|[Hne Hj]].
    + rewrite list_lookup_insert_eq; [done|]. rewrite (he_table p l Hp). unfold MAX_PINS in *. lia.
    + rewrite list_lookup_insert_ne; [by apply (he_entry p l Hp)|]. intros E.
      apply lookup_lt_Some in Hj. apply Z2Nat.inj in E; [|lia..]. apply place_inj in E; lia.
Qed.

End Entries.

(** ** Lemmas: removal *)

Definition after_remove (p : PinTable) (e : PT_Entry_t) : PinTable :=
  set_unpins (pendingUnpins p ++ [e_pin e]) (unpinInFlight p)
    (marked p || (bool_decide (pendingUnpins p = []) && negb (unpinInFlight p))) (set_tail (add (pt_tail p) 1) p).

Lemma tail_next p : 0 <= pt_tail p < MAX_PINS -> add (pt_tail p) 1 = place (pt_tail p) 0.
Proof. intros Hp. rewrite <- (place_tail (pt_tail p)) at 1 by done. by rewrite place_add. Qed.

Lemma RemoveTail_eq p e l : holds_entries p (e :: l) ->
  PT_RemoveTail p =
    if (e_ref e =? 0) && (Z.of_nat (length (pendingUnpins p)) <? MAX_PINS) then Ok (after_remove p e)
    else Fault AssertFail.
Proof.
  intros Hp. unfold PT_RemoveTail. pose proof (at_head p _ Hp 0 ltac:(lia)) as E.
  change (Z.of_nat 0 - 1) with (-1) in E. rewrite place_tail in E by apply Hp. rewrite E. cbn [Nat.eqb length negb Assert].
  rewrite bind_ret_l. cbn [pt_tail set_tail].
  assert (Ee : entry (set_tail (add (pt_tail p) 1) p) (add (pt_tail p) 1) = Ok e).
  { rewrite (tail_next p) by apply Hp. apply (entry_at p _ Hp 0 e eq_refl). }
  rewrite Ee, bind_ret_l. destruct (e_ref e =? 0); [|done]. cbn [Assert andb]. rewrite bind_ret_l.
  cbn [pendingUnpins set_tail]. destruct (Z.ltb_spec (Z.of_nat (length (pendingUnpins p))) MAX_PINS); [|done].
  cbn [Assert]. rewrite bind_ret_l. done.
Qed.

Lemma after_remove_ok p e l : holds_entries p (e :: l) -> holds_entries (after_remove p e) l.
Proof.
  intros Hp. pose proof (he_size _ _ Hp) as Hs. cbn [length] in Hs.
  pose proof (tail_next p (he_tail _ _ Hp)) as Et.
  split; cbn [after_remove table set_unpins set_tail pt_tail pt_head].
  - apply Hp.
  - rewrite Et. apply place_range.
  - lia.
  - rewrite Et, place_next, (he_head _ _ Hp). cbn [length]. f_equal. lia.
  - intros i x Hx. rewrite Et, place_next. replace (Z.of_nat i + 1) with (Z.of_nat (S i)) by lia.
    by apply (he_entry _ _ Hp).
Qed.

(** ** Lemmas: cleaning *)

(** Oldest entries that nobody uses and that are too old. *)
Definition useless (bound : timeval) (e : PT_Entry_t) : bool :=
  negb (0 <? e_ref e) && timer_lt (e_timestamp e) bound.

Fixpoint clean (bound : timeval) (l : list PT_Entry_t) : list PT_Entry_t :=
  match l with
  | [] => []
  | e :: l' => if useless bound e then clean bound l' else l
  end.

Fixpoint cleaned (bound : timeval) (l : list PT_Entry_t) : list Z :=
  match l with
  | [] => []
  | e :: l' => if useless bound e then e_pin e :: cleaned bound l' else []
  end.

(** Ordered timestamps. *)
Definition not_after (a b : PT_Entry_t) : Prop := timer_lt (e_timestamp b) (e_timestamp a) = false.

Definition ordered (l : list PT_Entry_t) : Prop :=
  StronglySorted not_after l /\ Forall (fun e => 0 <= e_ref e) l.

Lemma timer_lt_trans a b c : timer_lt a b = false -> timer_lt b c = false -> timer_lt a c = false.
Proof.
  unfold timer_lt. destruct (Z.eqb_spec (tv_sec a) (tv_sec b)), (Z.eqb_spec (tv_sec b) (tv_sec c)),
    (Z.eqb_spec (tv_sec a) (tv_sec c)); rewrite ?Z.ltb_ge; lia.
Qed.

(** Entries after one that is not too old are not too old. *)
Lemma late_entries bound e l :
  ordered (e :: l) -> timer_lt (e_timestamp e) bound = false ->
  Forall (fun x => timer_lt (e_timestamp x) bound = false) l.
Proof.
  intros [[_ Hs]%StronglySorted_inv _] He. eapply Forall_impl; [exact Hs|]. intros x Hx.
  by eapply timer_lt_trans.
Qed.

(** The part of the loop that does not remove anything any more. *)
Lemma CleanLoop_late fuel p bound l i :
  holds_entries p l -> (i <= length l)%nat ->
  Forall (fun x => timer_lt (e_timestamp x) bound = false) (drop i l) -> (length l - i < fuel)%nat ->
  exists r, CleanLoop fuel p bound (place (pt_tail p) (Z.of_nat i - 1)) = Ok (set_last_ref r p) \/
    CleanLoop fuel p bound (place (pt_tail p) (Z.of_nat i - 1)) = Ok p.
Proof.
  intros Hp. revert i. induction fuel as [|fuel IH]; intros i Hi Hl Hf; [lia|]. cbn [CleanLoop].
  rewrite (at_head p l Hp i Hi). destruct (Nat.eqb_spec i (length l)) as [|Hne]; [exists 0; by right|].
  destruct (lookup_lt_is_Some_2 l i ltac:(lia)) as [e He].
  rewrite place_add. replace (Z.of_nat i - 1 + 1) with (Z.of_nat i) by lia.
  rewrite (entry_at p l Hp i e He), bind_ret_l. destruct (0 <? e_ref e); [eexists; by left|].
  rewrite (drop_S l e i He) in Hl. apply Forall_cons in Hl as [-> Hl].
  destruct (IH (S i) ltac:(lia) Hl ltac:(lia)) as (r & H). exists r.
  replace (Z.of_nat (S i) - 1) with (Z.of_nat i) in H by lia. done.
Qed.

(** What cleaning leaves: the entries, the queue, or an assertion when the queue
    is too short. *)
Definition clean_result (p : PinTable) (bound : timeval) (l : list PT_Entry_t) (r : res PinTable) : Prop :=
  match r with
  | Ok p' => holds_entries p' (clean bound l) /\ pendingUnpins p' = pendingUnpins p ++ cleaned bound l /\
      maxStaleness p' = maxStaleness p /\ Z.of_nat (length (pendingUnpins p')) <= MAX_PINS
  | Fault f => f = AssertFail /\ MAX_PINS < Z.of_nat (length (pendingUnpins p) + length (cleaned bound l))
  end.

Lemma cleaned_length bound l : (length (cleaned bound l) <= length l)%nat.
Proof. induction l as [|e l IH]; cbn; [done|]. destruct (useless bound e); cbn; lia. Qed.

Lemma set_last_ref_ok p l r : holds_entries p l -> holds_entries (set_last_ref r p) l.
Proof. by intros []. Qed.

Lemma first_entry p e l : holds_entries p (e :: l) -> entry p (place (pt_tail p) 0) = Ok e.
Proof. intros Hp. apply (entry_at p _ Hp 0 e eq_refl). Qed.

Lemma not_empty p e l : holds_entries p (e :: l) -> (pt_tail p =? pt_head p) = false.
Proof.
  intros Hp. pose proof (at_head p _ Hp 0 ltac:(cbn; lia)) as Eh. change (Z.of_nat 0 - 1) with (-1) in Eh.
  by rewrite place_tail in Eh by apply Hp.
Qed.

(** One turn that removes the oldest entry. *)
Lemma CleanLoop_step fuel p bound e l :
  holds_entries p (e :: l) -> 0 <= e_ref e -> useless bound e = true ->
  CleanLoop (S fuel) p bound (pt_tail p) =
    if Z.of_nat (length (pendingUnpins p)) <? MAX_PINS
    then CleanLoop fuel (after_remove p e) bound (pt_tail (after_remove p e)) else Fault AssertFail.
Proof.
  intros Hp H0 Hu. cbn [CleanLoop]. rewrite (not_empty p e l Hp), (tail_next p) by apply Hp.
  rewrite (first_entry p e l Hp), bind_ret_l. apply andb_true_iff in Hu as [Hr%negb_true_iff Ht].
  rewrite Hr, Ht, (RemoveTail_eq p e l Hp). apply Z.ltb_ge in Hr. rewrite (proj2 (Z.eqb_eq _ _)) by lia.
  cbn [andb]. destruct (Z.of_nat (length (pendingUnpins p)) <? MAX_PINS); [|done].
  rewrite bind_ret_l. cbn [after_remove pt_tail set_unpins set_tail]. rewrite (tail_next p) by apply Hp.
  rewrite Z.eqb_refl. cbn [Assert]. by rewrite bind_ret_l.
Qed.

Lemma CleanLoop_ok fuel p bound l :
  holds_entries p l -> ordered l -> (length l < fuel)%nat ->
  Z.of_nat (length (pendingUnpins p)) <= MAX_PINS ->
  clean_result p bound l (CleanLoop fuel p bound (pt_tail p)).
Proof.
  revert fuel p. induction l as [|e l IH]; intros [|fuel] p Hp Ho Hf Hq; cbn [length] in *; try lia.
  { cbn [CleanLoop]. rewrite (he_head _ _ Hp). cbn [length]. change (Z.of_nat 0 - 1) with (-1).
    rewrite place_tail, Z.eqb_refl by apply Hp. cbn. by rewrite app_nil_r. }
  destruct Ho as [Hs Hrs]. pose proof (conj Hs Hrs : ordered (e :: l)) as Ho.
  apply StronglySorted_inv in Hs as [Hs _]. apply Forall_cons in Hrs as [Hr0 Hrs].
  destruct (useless bound e) eqn:Hu; unfold clean_result; cbn [clean cleaned]; rewrite Hu.
  - rewrite (CleanLoop_step fuel p bound e l Hp Hr0 Hu).
    destruct (Z.ltb_spec (Z.of_nat (length (pendingUnpins p))) MAX_PINS); [|cbn; split; [done|lia]].
    assert (Hq' : length (pendingUnpins (after_remove p e)) = S (length (pendingUnpins p))).
    { cbn. rewrite length_app. cbn. lia. }
    pose proof (IH fuel _ (after_remove_ok p e l Hp) (conj Hs Hrs) ltac:(lia) ltac:(lia)) as IHp.
    unfold clean_result in IHp. rewrite Hq' in IHp.
    destruct (CleanLoop fuel (after_remove p e) bound _) as [p'|f].
    + cbn [after_remove pendingUnpins set_unpins maxStaleness set_tail] in IHp. by rewrite <- app_assoc in IHp.
    + destruct IHp as [-> IHp]. split; [done|]. cbn [length]. lia.
  - rewrite app_nil_r. destruct (0 <? e_ref e) eqn:Hr.
    + cbn [CleanLoop]. rewrite (not_empty p e l Hp), (tail_next p), (first_entry p e l Hp), bind_ret_l, Hr by apply Hp.
      split; [by apply set_last_ref_ok|done].
    + unfold useless in Hu. rewrite Hr in Hu. cbn [negb andb] in Hu.
      destruct (CleanLoop_late (S fuel) p bound (e :: l) 0) as (r & H); [done|cbn; lia| |cbn; lia|].
      { cbn. constructor; [done|]. by eapply late_entries. }
      change (Z.of_nat 0 - 1) with (-1) in H. rewrite place_tail in H by apply Hp.
      destruct H as [-> | ->]; [split; [by apply set_last_ref_ok|done]|done].
Qed.

Lemma Clean_ok p now l :
  holds_entries p l -> ordered l -> Z.of_nat (length (pendingUnpins p)) <= MAX_PINS ->
  clean_result p (timersub now (maxStaleness p)) l (PT_Clean p now).
Proof. intros Hp Ho Hq. apply CleanLoop_ok; [done..| |done]. pose proof (he_size _ _ Hp). unfold MAX_PINS in *. lia. Qed.

(** ** Lemmas: search *)

Definition find_result (t pin : Z) (l : list PT_Entry_t) (r : option Z) : Prop :=
  match r with
  | None => pin ∉ map e_pin l
  | Some x => exists j e, l !! j = Some e /\ e_pin e = pin /\ x = place t (Z.of_nat j)
  end.

Lemma FindLoop_ok fuel p pin l i :
  holds_entries p l -> (i <= length l)%nat -> (i < fuel)%nat ->
  exists r, FindLoop fuel p pin (place (pt_tail p) (Z.of_nat i - 1)) = Ok r /\
    find_result (pt_tail p) pin (take i l) r.
Proof.
  intros Hp. revert i. induction fuel as [|fuel IH]; intros i Hi Hf; [lia|]. cbn [FindLoop].
  rewrite (at_tail p l Hp i) by lia. destruct i as [|i]; cbn [Nat.eqb].
  { exists None. split; [done|]. cbn. by apply not_elem_of_nil. }
  replace (Z.of_nat (S i) - 1) with (Z.of_nat i) by lia.
  destruct (lookup_lt_is_Some_2 l i ltac:(lia)) as [e He].
  rewrite (entry_at p l Hp i e He), bind_ret_l, (take_S_r l i e He).
  destruct (Z.eqb_spec (e_pin e) pin) as [E|E].
  - eexists. split; [done|]. exists i, e. split_and!; [|done|done].
    rewrite lookup_app_r by (rewrite length_take; lia). rewrite length_take_le by lia. by rewrite Nat.sub_diag.
  - rewrite place_sub by (unfold MAX_PINS; lia). destruct (IH i ltac:(lia) ltac:(lia)) as (r & -> & Hr).
    exists r. split; [done|]. destruct r as [x|]; cbn in *.
    + destruct Hr as (j & e' & Hj & He' & Hx). exists j, e'. split_and!; [|done|done]. by apply lookup_app_l_Some.
    + rewrite map_app, elem_of_app. cbn. rewrite list_elem_of_singleton. naive_solver.
Qed.

Lemma FindPin_ok p pin l : holds_entries p l ->
  exists r, PT_FindPin p pin = Ok r /\ find_result (pt_tail p) pin l r.
Proof.
  intros Hp. unfold PT_FindPin. pose proof (he_size _ _ Hp) as Hs. unfold MAX_PINS in Hs. rewrite (he_head _ _ Hp).
  destruct (FindLoop_ok 1024 p pin l (length l) Hp ltac:(lia) ltac:(lia)) as (r & -> & Hr).
  rewrite take_ge in Hr by lia. eauto.
Qed.

(** ** Lemmas: insertion *)

(** The fields that insertion leaves alone. *)
Definition same_queue (p p' : PinTable) : Prop :=
  pendingUnpins p' = pendingUnpins p /\ pt_tail p' = pt_tail p /\ maxStaleness p' = maxStaleness p.

Lemma push_ok p l e :
  holds_entries p l -> Z.of_nat (length l) < MAX_PINS - 1 ->
  let h := add (pt_head p) 1 in
  h = place (pt_tail p) (Z.of_nat (length l)) /\ holds_entries (set_entry h e (set_head h p)) (l ++ [e]).
Proof.
  intros Hp Hl. assert (Eh : add (pt_head p) 1 = place (pt_tail p) (Z.of_nat (length l))).
  { rewrite (he_head _ _ Hp), place_add. f_equal. lia. }
  cbv zeta. rewrite Eh. split; [done|]. pose proof (place_range (pt_tail p) (Z.of_nat (length l))).
  split; cbn [set_entry set_table set_head table pt_tail pt_head].
  - rewrite length_insert. apply Hp.
  - apply Hp.
  - rewrite length_app. cbn. lia.
  - rewrite length_app. cbn. f_equal. lia.
  - intros i x Hx. apply lookup_app_Some in Hx as [Hx|[Hi Hx]].
    + pose proof (lookup_lt_Some _ _ _ Hx). pose proof (place_range (pt_tail p) (Z.of_nat i)).
      rewrite list_lookup_insert_ne; [by apply (he_entry _ _ Hp)|]. intros E.
      apply Z2Nat.inj in E; [|lia..]. apply place_inj in E; lia.
    + apply list_lookup_singleton_Some in Hx as [Hi' ->].
      replace (Z.of_nat i) with (Z.of_nat (length l)) by lia. apply list_lookup_insert_eq.
      rewrite (he_table _ _ Hp). unfold MAX_PINS in *. lia.
Qed.

Lemma BubbleLoop_ok fuel p l1 e l2 :
  holds_entries p (l1 ++ e :: l2) -> (length l1 < fuel)%nat ->
  exists k1 k2 p', l1 = k1 ++ k2 /\
    BubbleLoop fuel p (place (pt_tail p) (Z.of_nat (length l1) - 1)) (place (pt_tail p) (Z.of_nat (length l1))) =
      Ok (p', place (pt_tail p) (Z.of_nat (length k1))) /\
    holds_entries p' (k1 ++ e :: k2 ++ l2) /\ same_queue p p' /\ Forall (not_after e) k2 /\
    (forall x, last k1 = Some x -> timer_lt (e_timestamp x) (e_timestamp e) = true).
Proof.
  revert fuel p l2. induction l1 as [|a l1 IH] using rev_ind; intros [|fuel] p l2 Hp Hf; try (cbn in Hf; lia).
  { cbn [BubbleLoop length]. rewrite place_tail, Z.eqb_refl by apply Hp. exists [], [], p. split_and!; done. }
  rewrite length_app in *. cbn [length] in *. cbn [BubbleLoop].
  pose proof (at_tail p _ Hp (length l1 + 1) ltac:(rewrite !length_app; cbn; lia)) as Et. rewrite Et.
  rewrite (proj2 (Nat.eqb_neq _ _)) by lia.
  replace (Z.of_nat (length l1 + 1) - 1) with (Z.of_nat (length l1)) by lia.
  rewrite <- app_assoc in Hp. cbn [app] in Hp.
  rewrite (entry_at p _ Hp (length l1) a) by (by rewrite lookup_app_r, Nat.sub_diag by lia). rewrite bind_ret_l.
  rewrite (entry_at p _ Hp (length l1 + 1) e) by (rewrite lookup_app_r by lia; by replace (length l1 + 1 - length l1)%nat with 1%nat by lia).
  rewrite bind_ret_l. destruct (timer_lt (e_timestamp a) (e_timestamp e)) eqn:Hlt.
  - exists (l1 ++ [a]), [], p. rewrite app_nil_r, length_app. cbn [length]. split_and!; try done.
    + by rewrite <- app_assoc.
    + intros x. rewrite last_snoc. by intros [= <-].
  - rewrite place_sub by (unfold MAX_PINS; lia).
    assert (Hp' : holds_entries (set_entry (place (pt_tail p) (Z.of_nat (length l1))) e
      (set_entry (place (pt_tail p) (Z.of_nat (length l1 + 1))) a p)) (l1 ++ e :: a :: l2)).
    { pose proof (set_entry_ok p _ Hp (length l1 + 1) a ltac:(rewrite !length_app; cbn; lia)) as H1.
      pose proof (set_entry_ok _ _ H1 (length l1) e ltac:(rewrite length_insert, !length_app; cbn; lia)) as H2.
      rewrite insert_app_r, insert_app_r_alt in H2 by lia. by rewrite Nat.sub_diag in H2. }
    destruct (IH fuel _ (a :: l2) Hp' ltac:(lia)) as (k1 & k2 & p' & -> & E & Hh & Hq & Hk2 & Hk1).
    exists k1, (k2 ++ [a]), p'. cbn [set_entry set_table pt_tail] in E. rewrite E. split_and!.
    + by rewrite app_assoc.
    + done.
    + by rewrite <- app_assoc.
    + exact Hq.
    + apply Forall_app. split; [done|]. by constructor.
    + done.
Qed.

(** What a table loses: some of its oldest entries, which nobody uses. *)
Definition kept (p : PinTable) (l : list PT_Entry_t) (p' : PinTable) (l' : list PT_Entry_t) : Prop :=
  exists k, l' = drop k l /\ Forall (fun e => e_ref e = 0) (take k l) /\
    pendingUnpins p' = pendingUnpins p ++ map e_pin (take k l) /\ maxStaleness p' = maxStaleness p /\
    Z.of_nat (length (pendingUnpins p')) <= MAX_PINS.

Lemma clean_take bound l : Forall (fun e => 0 <= e_ref e) l ->
  exists k, clean bound l = drop k l /\ cleaned bound l = map e_pin (take k l) /\
    Forall (fun e => e_ref e = 0) (take k l).
Proof.
  induction 1 as [|e l He _ (k & IH1 & IH2 & IH3)]; [by exists 0%nat|]. cbn [clean cleaned].
  destruct (useless bound e) eqn:Hu; [|by exists 0%nat]. exists (S k). cbn. rewrite IH1, IH2. split_and!; try done.
  constructor; [|done]. apply andb_true_iff in Hu as [Hr%negb_true_iff%Z.ltb_ge _]. lia.
Qed.

Lemma Clean_kept p now l p' :
  holds_entries p l -> ordered l -> Z.of_nat (length (pendingUnpins p)) <= MAX_PINS ->
  PT_Clean p now = Ok p' -> exists l', kept p l p' l' /\ holds_entries p' l'.
Proof.
  intros Hp Ho Hq E. pose proof (Clean_ok p now l Hp Ho Hq) as H. rewrite E in H. destruct H as (H1 & H2 & H3 & H4).
  destruct (clean_take (timersub now (maxStaleness p)) l (proj2 Ho)) as (k & K1 & K2 & K3).
  exists (clean (timersub now (maxStaleness p)) l). split; [|done]. exists k. rewrite <- K2. done.
Qed.

Lemma kept_refl p l : Z.of_nat (length (pendingUnpins p)) <= MAX_PINS -> kept p l p l.
Proof. intros H. exists 0%nat. cbn. by rewrite app_nil_r. Qed.

Lemma kept_queue p l p' l' : kept p l p' l' -> Z.of_nat (length (pendingUnpins p')) <= MAX_PINS.
Proof. by intros (k & _ & _ & _ & _ & H). Qed.

Lemma kept_trans p l p1 l1 p2 l2 : kept p l p1 l1 -> kept p1 l1 p2 l2 -> kept p l p2 l2.
Proof.
  intros (k1 & -> & F1 & Q1 & M1 & _) (k2 & -> & F2 & Q2 & M2 & B2). exists (k1 + k2)%nat.
  assert (E : take (k1 + k2) l = take k1 l ++ take k2 (drop k1 l)).
  { rewrite <- (take_drop k1 (take (k1 + k2) l)), take_take, Nat.min_l, skipn_firstn_comm by lia.
    by replace (k1 + k2 - k1)%nat with k2 by lia. }
  rewrite drop_drop, E, Forall_app, map_app. split_and!; try done; [|congruence]. rewrite Q2, Q1. by rewrite app_assoc.
Qed.

Lemma ordered_drop k l : ordered l -> ordered (drop k l).
Proof.
  intros [Hs Hr]. split; [|by apply Forall_drop].
  rewrite <- (take_drop k l) in Hs. by apply StronglySorted_app_1_r in Hs.
Qed.

Lemma kept_ordered p l p' l' : kept p l p' l' -> ordered l -> ordered l'.
Proof. intros (k & -> & _). apply ordered_drop. Qed.

Lemma RemoveTail_kept p l p' :
  holds_entries p l -> PT_RemoveTail p = Ok p' -> exists l', kept p l p' l' /\ holds_entries p' l'.
Proof.
  intros Hp E. destruct l as [|e l].
  { unfold PT_RemoveTail in E. rewrite (he_head _ _ Hp) in E. cbn [length] in E. change (Z.of_nat 0 - 1) with (-1) in E.
    rewrite place_tail, Z.eqb_refl in E by apply Hp. done. }
  rewrite (RemoveTail_eq p e l Hp) in E. destruct (Z.eqb_spec (e_ref e) 0) as [Hr|]; [|done]. cbn [andb] in E.
  destruct (Z.ltb_spec (Z.of_nat (length (pendingUnpins p))) MAX_PINS); [|done]. injection E as <-.
  exists l. split; [|by apply after_remove_ok]. exists 1%nat. cbn. rewrite take_0, drop_0, length_app. cbn. split_and!; try done; [|lia].
  by constructor.
Qed.

Lemma ts_le_false a b : ts_le a b = true -> timer_lt b a = false.
Proof.
  unfold ts_le, timer_lt, timer_eq. rewrite orb_true_iff, (Z.eqb_sym (tv_sec b)).
  destruct (Z.eqb_spec (tv_sec a) (tv_sec b)); rewrite ?Z.ltb_lt, ?Z.eqb_eq, Z.ltb_ge; intros [H|H]; try done; lia.
Qed.

Lemma timer_lt_asym a b : timer_lt a b = true -> timer_lt b a = false.
Proof. intros H. apply ts_le_false. unfold ts_le. by rewrite H. Qed.

(** Ordered lists as pairs of neighbours. *)
Lemma sorted_split l1 e l2 :
  StronglySorted not_after (l1 ++ l2) -> Forall (not_after e) l2 ->
  (forall x, last l1 = Some x -> not_after x e) -> StronglySorted not_after (l1 ++ e :: l2).
Proof.
  intros Hs H2 H1. pose proof (StronglySorted_app_1_l _ _ _ Hs) as S1. pose proof (StronglySorted_app_1_r _ _ _ Hs) as S2.
  apply StronglySorted_app_2; [|done|by constructor].
  assert (F1 : Forall (fun x => not_after x e) l1).
  { destruct l1 as [|x l1 _] using rev_ind; [constructor|]. specialize (H1 x). rewrite last_snoc in H1. specialize (H1 eq_refl).
    apply Forall_app. split; [|by constructor]. apply Forall_forall. intros y Hy.
    assert (Hyx : not_after y x).
    { eapply StronglySorted_app_1_elem_of; [exact S1|done|by apply list_elem_of_singleton]. }
    unfold not_after in *. by eapply timer_lt_trans. }
  intros x y Hx [->|Hy]%elem_of_cons; [by eapply Forall_forall in F1|].
  by eapply StronglySorted_app_1_elem_of.
Qed.

(** What [PT_Insert] does to the entries, and the place it returns. *)
Inductive inserted (timestamp : timeval) (pin : Z) (l : list PT_Entry_t) : list PT_Entry_t -> nat -> Prop :=
| inserted_new k1 k2 : l = k1 ++ k2 -> pin ∉ map e_pin l ->
    inserted timestamp pin l (k1 ++ PTEntry pin timestamp 0 :: k2) (length k1)
| inserted_update k1 e k2 : l = k1 ++ e :: k2 -> e_pin e = pin ->
    inserted timestamp pin l (k1 ++ PTEntry pin timestamp (e_ref e) :: k2) (length k1).

(** The entries in [p'] are [l'], ordered; [i] is the place of the [j]-th. *)
Record inserted_at (p : PinTable) (timestamp : timeval) (pin : Z) (l : list PT_Entry_t) (p' : PinTable)
    (l' : list PT_Entry_t) (i : Z) : Prop := {
  ia_holds : holds_entries p' l';
  ia_ordered : ordered l';
  ia_queue : same_queue p p';
  ia_inserted : exists j, inserted timestamp pin l l' j /\ i = place (pt_tail p') (Z.of_nat j)
}.

Lemma insert_new p l timestamp pin :
  holds_entries p l -> ordered l -> Z.of_nat (length l) < MAX_PINS - 1 -> pin ∉ map e_pin l ->
  let p1 := set_head (add (pt_head p) 1) p in
  let p1 := set_entry (pt_head p1) (PTEntry pin timestamp 0) p1 in
  exists p' l' i, BubbleLoop 1024 p1 (sub (pt_head p1) 1) (pt_head p1) = Ok (p', i) /\
    inserted_at p timestamp pin l p' l' i.
Proof.
  intros Hp [Hs Hr] Hl Hn. destruct (push_ok p l (PTEntry pin timestamp 0) Hp Hl) as [Eh Hp1]. cbv zeta in *.
  cbn [set_entry set_table set_head pt_head]. rewrite Eh in *. rewrite place_sub by (unfold MAX_PINS; lia).
  destruct (BubbleLoop_ok 1024 _ l (PTEntry pin timestamp 0) [] Hp1) as (k1 & k2 & p' & -> & E & Hh & Hq & Hk2 & Hk1).
  { unfold MAX_PINS in *. lia. }
  cbn [set_entry set_table set_head pt_tail] in E. eexists p', _, _. split; [exact E|]. rewrite app_nil_r in Hh.
  destruct Hq as (Q1 & Q2 & Q3). cbn in Q1, Q2, Q3. split.
  - exact Hh.
  - split.
    + apply sorted_split; [done|done|]. intros x Hx. by apply timer_lt_asym, Hk1.
    + apply Forall_app in Hr as [Hr1 Hr2]. apply Forall_app. split; [done|]. by constructor.
  - done.
  - exists (length k1). split; [by apply inserted_new|]. by rewrite Q2.
Qed.

Lemma insert_update p l timestamp k1 e k2 p' i :
  holds_entries p l -> ordered l -> l = k1 ++ e :: k2 ->
  let r := place (pt_tail p) (Z.of_nat (length k1)) in
  ((if negb (sub r 1 =? pt_tail p) then e ← entry p (sub r 1); Assert (ts_le (e_timestamp e) timestamp) else Ok tt);;
   (if negb (r =? pt_head p) then e ← entry p (add r 1); Assert (ts_le timestamp (e_timestamp e)) else Ok tt);;
   e ← entry p r; Ok (set_entry r (PTEntry (e_pin e) timestamp (e_ref e)) p, r)) = Ok (p', i) ->
  exists l', inserted_at p timestamp (e_pin e) l p' l' i.
Proof.
  intros Hp [Hs Hr] -> r H. unfold r in *. clear r.
  apply bind_Ok in H as ([] & H1 & H). apply bind_Ok in H as ([] & H2 & H).
  rewrite place_sub in H1 by (unfold MAX_PINS; lia). rewrite place_add in H2.
  rewrite (entry_at p _ Hp (length k1) e), bind_ret_l in H by (by rewrite lookup_app_r, Nat.sub_diag by lia).
  injection H as <- <-. exists (k1 ++ PTEntry (e_pin e) timestamp (e_ref e) :: k2).
  assert (Hsz : (length k1 < length (k1 ++ e :: k2))%nat) by (rewrite length_app; cbn; lia).
  rewrite (at_tail p _ Hp (length k1)) in H1 by lia.
  pose proof (at_head p _ Hp (S (length k1)) ltac:(lia)) as Eh.
  replace (Z.of_nat (S (length k1)) - 1) with (Z.of_nat (length k1)) in Eh by lia. rewrite Eh in H2.
  pose proof (StronglySorted_app_1_l _ _ _ Hs) as S1. pose proof (StronglySorted_app_1_r _ _ _ Hs) as S2.
  apply StronglySorted_inv in S2 as [S2 Se].
  split.
  - pose proof (set_entry_ok p _ Hp (length k1) (PTEntry (e_pin e) timestamp (e_ref e)) Hsz) as H.
    by rewrite insert_app_r_alt, Nat.sub_diag in H by lia.
  - split; [|apply Forall_app in Hr as [Hr1 [He Hr2]%Forall_cons]; apply Forall_app; split; [done|]; by constructor].
    apply sorted_split.
    + apply StronglySorted_app_2; [|done|done]. intros x y Hx Hy.
      eapply StronglySorted_app_1_elem_of; [exact Hs|done|by right].
    + destruct k2 as [|y k2]; [constructor|]. rewrite (proj2 (Nat.eqb_neq _ _)) in H2 by (rewrite length_app; cbn; lia).
      cbn [negb] in H2. replace (Z.of_nat (length k1) + 1) with (Z.of_nat (length k1 + 1)) in H2 by lia.
      rewrite (entry_at p _ Hp (length k1 + 1) y), bind_ret_l in H2
        by (rewrite lookup_app_r by lia; by replace (length k1 + 1 - length k1)%nat with 1%nat by lia).
      apply Assert_Ok in H2 as [H2%ts_le_false _]. apply StronglySorted_inv in S2 as [_ Sy].
      constructor; [exact H2|]. eapply Forall_impl; [exact Sy|]. intros z Hz. unfold not_after in *. cbn.
      by eapply timer_lt_trans.
    + intros x Hx. destruct k1 as [|x1 k1 _] using rev_ind; [done|]. rewrite last_snoc in Hx. injection Hx as ->.
      rewrite length_app in H1. cbn [length] in H1. rewrite (proj2 (Nat.eqb_neq _ _)) in H1 by lia. cbn [negb] in H1.
      replace (Z.of_nat (length k1 + 1) - 1) with (Z.of_nat (length k1)) in H1 by lia.
      rewrite (entry_at p _ Hp (length k1) x), bind_ret_l in H1
        by (rewrite <- app_assoc, lookup_app_r, Nat.sub_diag by lia; done).
      apply Assert_Ok in H1 as [H1%ts_le_false _]. exact H1.
  - done.
  - exists (length k1). split; [by apply inserted_update|done].
Qed.

Lemma Insert_ok p l timestamp pin now p' i :
  holds_entries p l -> ordered l -> Z.of_nat (length (pendingUnpins p)) <= MAX_PINS ->
  PT_Insert p timestamp pin now = Ok (p', i) ->
  exists p0 l0 l', kept p l p0 l0 /\ holds_entries p0 l0 /\ inserted_at p0 timestamp pin l0 p' l' i.
Proof.
  intros Hp Ho Hq H. unfold PT_Insert in H.
  apply bind_Ok in H as (p1 & H1 & H). apply bind_Ok in H as (p2 & H2 & H).
  assert (K1 : exists l1, kept p l p1 l1 /\ holds_entries p1 l1).
  { destruct (_ =? _) in H1; [by eapply Clean_kept|]. injection H1 as <-. exists l. split; [by apply kept_refl|done]. }
  destruct K1 as (l1 & K1 & Hp1). pose proof (kept_ordered _ _ _ _ K1 Ho) as Ho1.
  assert (K2 : exists l2, kept p1 l1 p2 l2 /\ holds_entries p2 l2 /\ Z.of_nat (length l2) < MAX_PINS - 1).
  { rewrite (size_ok p1 l1 Hp1) in H2. pose proof (he_size _ _ Hp1) as Hs.
    destruct (Z.eqb_spec (Z.of_nat (length l1)) (MAX_PINS - 1)) as [E|E].
    - apply bind_Ok in H2 as (e & _ & H2). destruct (0 <? e_ref e); [done|].
      destruct (RemoveTail_kept p1 l1 p2 Hp1 H2) as (l2 & K2 & Hp2). exists l2. split_and!; [done|done|].
      destruct K2 as (k & -> & _ & Q & _). rewrite length_drop.
      destruct k as [|k]; [|unfold MAX_PINS in *; lia]. exfalso. cbn in Q. rewrite app_nil_r in Q.
      destruct l1 as [|e1 l1]; [cbn in E; unfold MAX_PINS in E; lia|]. rewrite (RemoveTail_eq p1 e1 l1 Hp1) in H2.
      destruct (_ && _) in H2; [|done]. injection H2 as <-. cbn in Q. apply (f_equal length) in Q.
      rewrite length_app in Q. cbn in Q. lia.
    - injection H2 as <-. exists l1. split_and!; [by eapply kept_refl, kept_queue|done|lia]. }
  destruct K2 as (l2 & K2 & Hp2 & Hl2). pose proof (kept_ordered _ _ _ _ K2 Ho1) as Ho2.
  exists p2, l2. apply bind_Ok in H as (r & HF & H). destruct (FindPin_ok p2 pin l2 Hp2) as (r' & E & Hr).
  rewrite HF in E. injection E as <-. destruct r as [r|].
  - destruct Hr as (j & e & Hj & <- & ->). pose proof (take_drop_middle l2 j e Hj) as El.
    assert (Ej : length (take j l2) = j) by (apply length_take_le; apply lookup_lt_Some in Hj; lia).
    destruct (insert_update p2 l2 timestamp (take j l2) e (drop (S j) l2) p' i Hp2 Ho2 (eq_sym El)) as (l' & Hi).
    { rewrite Ej. exact H. }
    exists l'. split_and!; [by eapply kept_trans|done|done].
  - destruct (insert_new p2 l2 timestamp pin Hp2 Ho2 Hl2 Hr) as (p3 & l' & i' & E & Hi). cbv zeta in E.
    rewrite H in E. injection E as <- <-. exists l'. split_and!; [by eapply kept_trans|done|done].
Qed.

(** Inserting a new pin into a table that is not full succeeds. *)
Lemma Insert_total p l timestamp pin now :
  holds_entries p l -> ordered l -> Z.of_nat (length l) < MAX_PINS - 1 -> pin ∉ map e_pin l ->
  exists p' i, PT_Insert p timestamp pin now = Ok (p', i).
Proof.
  intros Hp Ho Hl Hn. unfold PT_Insert. rewrite (size_ok p l Hp), (proj2 (Z.eqb_neq _ _)), bind_ret_l by lia.
  rewrite (size_ok p l Hp), (proj2 (Z.eqb_neq _ _)), bind_ret_l by lia.
  destruct (FindPin_ok p pin l Hp) as ([r|] & -> & Hr); rewrite bind_ret_l.
  - destruct Hr as (j & e & Hj & <- & _). exfalso. apply Hn, list_elem_of_In, in_map, list_elem_of_In. by eapply list_elem_of_lookup_2.
  - destruct (insert_new p l timestamp pin Hp Ho Hl Hn) as (p' & l' & i & E & _). eauto.
Qed.

(** ** Lemmas: references *)

Definition bump_ref (d : Z) (e : PT_Entry_t) : PT_Entry_t := PTEntry (e_pin e) (e_timestamp e) (e_ref e + d).

Lemma ordered_ref l j e d :
  ordered l -> l !! j = Some e -> 0 <= e_ref e + d -> ordered (<[j := bump_ref d e]> l).
Proof.
  intros [Hs Hrs] Hj Hd. rewrite insert_take_drop by (by eapply lookup_lt_Some).
  rewrite <- (take_drop_middle l j e Hj) in Hs, Hrs. split.
  - apply StronglySorted_app in Hs as (H1 & H2 & [H3 H4]%StronglySorted_inv). apply StronglySorted_app_2; [|done|by constructor].
    intros x y Hx [->|Hy]%elem_of_cons; [exact (H1 x e Hx (list_elem_of_here _ _))|].
    exact (H1 x y Hx (list_elem_of_further _ _ _ Hy)).
  - apply Forall_app in Hrs as [R1 [R2 R3]%Forall_cons]. apply Forall_app. split; [done|]. by constructor.
Qed.

Lemma pins_ref l j e d : l !! j = Some e -> map e_pin (<[j := bump_ref d e]> l) = map e_pin l.
Proof.
  intros Hj. change (map e_pin) with (fmap (M := list) e_pin). rewrite list_fmap_insert. apply list_insert_id.
  by rewrite list_lookup_fmap, Hj.
Qed.

Lemma AddRef_ok p l j e :
  holds_entries p l -> l !! j = Some e -> 0 <= e_ref e < 2 ^ 31 - 1 ->
  exists p', PT_AddRef p (place (pt_tail p) (Z.of_nat j)) = Ok p' /\
    holds_entries p' (<[j := bump_ref 1 e]> l) /\ same_queue p p'.
Proof.
  intros Hp Hj Hr. unfold PT_AddRef. rewrite (entry_at p l Hp j e Hj), bind_ret_l, s32_small by lia.
  pose proof (set_entry_ok p l Hp j (bump_ref 1 e) (lookup_lt_Some _ _ _ Hj)) as H.
  eexists. split; [done|]. case_if; (split; [first [by apply set_last_ref_ok|done]|done]).
Qed.

Lemma RemoveRef_ok p l j e now :
  holds_entries p l -> l !! j = Some e -> 0 < e_ref e ->
  exists p0, PT_RemoveRef p (place (pt_tail p) (Z.of_nat j)) now = PT_Clean p0 now /\
    holds_entries p0 (<[j := bump_ref (-1) e]> l) /\ same_queue p p0.
Proof.
  intros Hp Hj Hr. unfold PT_RemoveRef. rewrite (entry_at p l Hp j e Hj), bind_ret_l.
  rewrite (proj2 (Z.ltb_ge _ _)) by lia.
  pose proof (set_entry_ok p l Hp j (bump_ref (-1) e) (lookup_lt_Some _ _ _ Hj)) as Hp1.
  eexists. split; [reflexivity|]. by split.
Qed.

(** ** Lemmas: requests *)

Definition recent (bound : timeval) (e : PT_Entry_t) : Prop := timer_lt (e_timestamp e) bound = false.

Lemma SinceLoop_ok fuel p bound l1 l2 num :
  holds_entries p (l1 ++ l2) -> l2 <> [] -> (length l1 < fuel)%nat -> num = Z.of_nat (length l2) ->
  exists k1 k2, l1 = k1 ++ k2 /\ Forall (recent bound) k2 /\ (forall x, last k1 = Some x -> ~ recent bound x) /\
    SinceLoop fuel p bound (place (pt_tail p) (Z.of_nat (length l1) - 1)) (place (pt_tail p) (Z.of_nat (length l1))) num =
      Ok (place (pt_tail p) (Z.of_nat (length k1)), Z.of_nat (length (k2 ++ l2))).
Proof.
  revert fuel l2 num. induction l1 as [|a l1 IH] using rev_ind; intros [|fuel] l2 num Hp Hne Hf ->; try (cbn in Hf; lia).
  { cbn [SinceLoop length]. rewrite place_tail, Z.eqb_refl by apply Hp. exists [], []. split_and!; done. }
  rewrite length_app in *. cbn [length] in *. cbn [SinceLoop].
  rewrite (at_tail p _ Hp (length l1 + 1)) by (rewrite !length_app; cbn; lia). rewrite (proj2 (Nat.eqb_neq _ _)) by lia.
  replace (Z.of_nat (length l1 + 1) - 1) with (Z.of_nat (length l1)) by lia.
  rewrite <- app_assoc in Hp. cbn [app] in Hp.
  rewrite (entry_at p _ Hp (length l1) a), bind_ret_l by (by rewrite lookup_app_r, Nat.sub_diag by lia).
  destruct (timer_lt (e_timestamp a) bound) eqn:Hlt.
  - exists (l1 ++ [a]), []. rewrite app_nil_r, length_app. cbn [length app]. split_and!; try done.
    intros x. rewrite last_snoc. intros [= <-]. unfold recent. congruence.
  - rewrite place_sub by (unfold MAX_PINS; lia).
    destruct (IH fuel (a :: l2) (Z.of_nat (length l2) + 1) Hp ltac:(done) ltac:(lia) ltac:(cbn; lia))
      as (k1 & k2 & -> & Hk2 & Hk1 & E).
    exists k1, (k2 ++ [a]). rewrite E. split_and!; [by rewrite app_assoc| |done|by rewrite <- app_assoc].
    apply Forall_app. split; [done|]. by constructor.
Qed.

(** The entries [PT_Find] counts are those that are recent enough. *)
Lemma Find_ok p l lower_bound now :
  holds_entries p l -> ordered l ->
  exists k1 k2, l = k1 ++ k2 /\ Forall (recent (timersub now lower_bound)) k2 /\
    Forall (fun e => ~ recent (timersub now lower_bound) e) k1 /\
    PT_Find p lower_bound now =
      Ok (if bool_decide (k2 = []) then None else Some (place (pt_tail p) (Z.of_nat (length k1))), Z.of_nat (length k2)).
Proof.
  intros Hp Ho. unfold PT_Find. set (bound := timersub now lower_bound).
  assert (Hold : forall k1 k2, l = k1 ++ k2 -> (forall x, last k1 = Some x -> ~ recent bound x) ->
    Forall (fun e => ~ recent bound e) k1).
  { intros k1 k2 -> Hk. destruct Ho as [[_ [Hs _]]%StronglySorted_app _].
    destruct k1 as [|x k1 _] using rev_ind; [constructor|]. rewrite last_snoc in Hk. specialize (Hk x eq_refl).
    apply Forall_app. split; [|by constructor]. apply Forall_forall. intros y Hy Hr.
    apply Hk. unfold recent in *. assert (not_after y x).
    { eapply StronglySorted_app_1_elem_of; [exact Hs|done|by apply list_elem_of_singleton]. }
    unfold not_after in *. by eapply timer_lt_trans. }
  destruct l as [|e l _] using rev_ind.
  { exists [], []. split_and!; [done|constructor|constructor|]. rewrite (he_head _ _ Hp). cbn [length].
    change (Z.of_nat 0 - 1) with (-1). by rewrite place_tail, Z.eqb_refl by apply Hp. }
  assert (Eh : pt_head p = place (pt_tail p) (Z.of_nat (length l))).
  { rewrite (he_head _ _ Hp), length_app. cbn. f_equal. lia. }
  assert (En : (pt_head p =? pt_tail p) = false).
  { rewrite Eh. replace (Z.of_nat (length l)) with (Z.of_nat (length l + 1) - 1) by lia.
    rewrite (at_tail p _ Hp) by (rewrite length_app; cbn; lia). apply Nat.eqb_neq. lia. }
  rewrite En, Eh, (entry_at p _ Hp (length l) e), bind_ret_l by (by rewrite lookup_app_r, Nat.sub_diag by lia).
  destruct (timer_lt (e_timestamp e) bound) eqn:Hlt.
  - exists (l ++ [e]), []. rewrite app_nil_r. split_and!; [done|constructor| |done].
    apply (Hold _ []); [by rewrite app_nil_r|]. intros x. rewrite last_snoc. intros [= <-]. unfold recent. congruence.
  - rewrite place_sub by (unfold MAX_PINS; lia). pose proof (he_size _ _ Hp) as Hs. rewrite length_app in Hs. unfold MAX_PINS in Hs.
    destruct (SinceLoop_ok 1024 p bound l [e] 1 Hp) as (k1 & k2 & -> & Hk2 & Hk1 & E); [done|lia|done|].
    rewrite E, bind_ret_l. exists k1, (k2 ++ [e]). rewrite app_assoc. split_and!; [done| |by apply (Hold _ (k2 ++ [e])); [rewrite app_assoc|]|].
    + apply Forall_app. split; [done|]. by constructor.
    + rewrite bool_decide_false by (by destruct k2). done.
Qed.

Lemma GetEntry_ok p l i :
  holds_entries p l -> 0 <= i < Z.of_nat (length l) ->
  PT_GetEntry p i = Some (place (pt_tail p) (Z.of_nat (length l) - 1 - i)).
Proof.
  intros Hp Hi. unfold PT_GetEntry. rewrite (size_ok p l Hp), (proj2 (Z.ltb_lt _ _)) by lia.
  pose proof (he_size _ _ Hp). rewrite (he_head _ _ Hp), place_sub by lia. done.
Qed.

(** ** Lemmas: initial state, database *)

Lemma holds_unique p l l' : holds_entries p l -> holds_entries p l' -> l = l'.
Proof.
  intros H H'. assert (E : length l = length l').
  { pose proof (size_ok p l H) as S. rewrite (size_ok p l' H') in S. lia. }
  apply list_eq_same_length with (n := length l); [done|done|]. intros i x y _ Hx Hy.
  pose proof (he_entry _ _ H i x Hx). pose proof (he_entry _ _ H' i y Hy). congruence.
Qed.

Lemma PT_Init_ok s : holds_entries (PT_Init s) [].
Proof. split; cbn; try done. Qed.

Lemma set_unpins_ok p l q f m : holds_entries p l -> holds_entries (set_unpins q f m p) l.
Proof. by intros []. Qed.
