(* ===== verification/Pincushion.v ===== *)
(** * The pincushion (src/pincushion/pincushion.c, src/pincushion/proxy.c)

    The server that lends pinned snapshots to transactions.  Each connection has
    at most one referenced pin, the oldest of those it was given; a connection
    that goes away releases it. *)

From S2P Require Import Prelude CLib CText Interval Timeval PinSet IOBuf RPC Wire PinTable.

(** ** State *)

Record PC_hostinfo_t : Type := HostInfo {
  hasReferencedPin : bool;
  referencedPin : Z
}.

(** [hostdata] has the [data] of the connections that have one. *)
Record Pincushion : Type := PC {
  pt : PinTable;
  hostdata : gmap Z PC_hostinfo_t
}.

Definition PINCUSHION_REQ_REQUEST : Z := 82.
Definition PINCUSHION_REQ_INSERT : Z := 73.
Definition PINCUSHION_REQ_RELEASE : Z := 68.
Definition PINCUSHION_REP_FOUND : Z := 70.
Definition PINCUSHION_REP_EMPTY : Z := 69.

(** [h->onClose] is set together with [h->data]. *)
Definition Pincushion_Setup (maxStaleness : timeval) : Pincushion := PC (PT_Init maxStaleness) ∅.

(** ** References *)

Definition ReleaseHostPin (c : Pincushion) (h : Z) (now : timeval) : res Pincushion :=
  match hostdata c !! h with
  | None => Ok c
  | Some hi =>
    if hasReferencedPin hi then
      e ← PT_FindPin (pt c) (referencedPin hi);
      e ← deref e;
      p ← PT_RemoveRef (pt c) e now;
      Ok (PC p (<[h := HostInfo false (referencedPin hi)]> (hostdata c)))
    else Ok c
  end.

Definition HandleConnectionClosed (c : Pincushion) (h : Z) (now : timeval) : res Pincushion :=
  c ← ReleaseHostPin c h now;
  Ok (PC (pt c) (delete h (hostdata c))).

(** [for (i = 0; i < num_pins; i++)] of [HandleRequest], from [i] on. *)
Fixpoint ReplyPins (n : nat) (p : PinTable) (num_pins i : Z) : res (list PinStamp_t) :=
  match n with
  | O => Ok []
  | S n =>
    e ← deref (PT_GetEntry p (num_pins - i - 1));
    e ← entry p e;
    l ← ReplyPins n p num_pins (i + 1);
    Ok (PinStamp (e_pin e) (e_timestamp e) :: l)
  end.

(** The pins of the reply, none for [PINCUSHION_REP_EMPTY].  [malloc] finds
    room for the connection's data. *)
Definition RequestPins (c : Pincushion) (h : Z) (freshness now : timeval) : res (Pincushion * list PinStamp_t) :=
  Assert (match hostdata c !! h with None => true | Some hi => negb (hasReferencedPin hi) end);;
  '(e, num_pins) ← PT_Find (pt c) freshness now;
  if negb (num_pins =? 0) then
    e ← deref e;
    x ← entry (pt c) e;
    p ← PT_AddRef (pt c) e;
    l ← ReplyPins (Z.to_nat num_pins) p num_pins 0;
    Ok (PC p (<[h := HostInfo true (e_pin x)]> (hostdata c)), l)
  else Ok (c, []).

Definition InsertPin (c : Pincushion) (h : Z) (timestamp : timeval) (pin : Z) (now : timeval) : res Pincushion :=
  '(p, e) ← PT_Insert (pt c) timestamp pin now;
  let hi := match hostdata c !! h with Some hi => hi | None => HostInfo false 0 end in
  if negb (hasReferencedPin hi) then
    x ← entry p e;
    p ← PT_AddRef p e;
    Ok (PC p (<[h := HostInfo true (e_pin x)]> (hostdata c)))
  else Ok (PC p (<[h := hi]> (hostdata c))).

(** ** Handlers *)

Section Handlers.

Context (realloc : Z -> Z -> Z).

Definition pin_fields (x : PinStamp_t) : list field :=
  [F64 (tv_sec (tv x)); F64 (tv_usec (tv x)); F32 (s32 (pin x))].

(** A failed [RPC_Send] closes the connection, which runs its close callback. *)
Definition HandleRequest (c : Pincushion) (id : Z) (h : host_t) (args : IOBuf_t) (sends : list send_result)
    (now now' : timeval) : res (Pincushion * host_t * list event) :=
  '(args, sec) ← IOBuf_GetInt64 args;
  '(args, usec) ← IOBuf_GetInt64 args;
  IOBuf_GetEOB args;;
  '(c, l) ← RequestPins c id (Timeval sec usec) now;
  '(h, err, evs) ←
    (if negb (bool_decide (l = [])) then
       RPC_call realloc h PINCUSHION_REP_FOUND (F32 (Z.of_nat (length l)) :: concat (map pin_fields l)) sends
     else RPC_call realloc h PINCUSHION_REP_EMPTY [] sends);
  if err <? 0 then
    '(h, evs') ← RPC_Release h;
    c ← HandleConnectionClosed c id now';
    Ok (c, h, evs ++ evs')
  else Ok (c, h, evs).

Definition HandleInsert (c : Pincushion) (id : Z) (args : IOBuf_t) (now : timeval) : res Pincushion :=
  '(args, sec) ← IOBuf_GetInt64 args;
  '(args, usec) ← IOBuf_GetInt64 args;
  '(args, pin) ← IOBuf_GetInt32 args;
  IOBuf_GetEOB args;;
  InsertPin c id (Timeval sec usec) (u32 pin) now.

Definition HandleRelease (c : Pincushion) (id : Z) (now : timeval) : res Pincushion :=
  ReleaseHostPin c id now.

(** ** Stubs *)

(** [for (int i = 0; i < *numPinsOut; ++i)] *)
Fixpoint ReadPins (n : nat) (args : IOBuf_t) : res (IOBuf_t * list PinStamp_t) :=
  match n with
  | O => Ok (args, [])
  | S n =>
    '(args, sec) ← IOBuf_GetInt64 args;
    '(args, usec) ← IOBuf_GetInt64 args;
    '(args, pin) ← IOBuf_GetInt32 args;
    '(args, l) ← ReadPins n args;
    Ok (args, PinStamp (u32 pin) (Timeval sec usec) :: l)
  end.

(** Returns the host, the pins or NULL, [*numPinsOut] if it is set, the events;
    [room] is whether [malloc] finds room for the pins. *)
Definition PincushionProxy_Request (h : host_t) (freshness : timeval) (sends : list send_result)
    (recvs : list recv_result) (room : bool) :
    res (host_t * option (list PinStamp_t) * option Z * list event) :=
  '(h, err, evs) ← RPC_call realloc h PINCUSHION_REQ_REQUEST
    [F64 (tv_sec freshness); F64 (tv_usec freshness)] sends;
  if negb (err =? 0) then '(h, evs') ← RPC_Release h; Ok (h, None, None, evs ++ evs')
  else
    '(h, err, args) ← RPCC_Recv realloc h recvs;
    match args with
    | Some args =>
      if err =? PINCUSHION_REP_FOUND then
        '(args, n) ← IOBuf_GetInt32 args;
        if negb room then Ok (h, None, Some (u32 n), evs)
        else
          '(args, l) ← ReadPins (Z.to_nat (u32 n)) args;
          IOBuf_GetEOB args;;
          Ok (h, Some l, Some (u32 n), evs)
      else if err =? PINCUSHION_REP_EMPTY then IOBuf_GetEOB args;; Ok (h, None, Some 0, evs)
      else '(h, evs') ← RPC_Release h; Ok (h, None, Some 0, evs ++ evs')
    | None => '(h, evs') ← RPC_Release h; Ok (h, None, Some 0, evs ++ evs')
    end.

Definition PincushionProxy_Insert (h : host_t) (x : PinStamp_t) (sends : list send_result) :
    res (host_t * list event) :=
  '(h, err, evs) ← RPC_call realloc h PINCUSHION_REQ_INSERT (pin_fields x) sends;
  if negb (err =? 0) then '(h, evs') ← RPC_Release h; Ok (h, evs ++ evs') else Ok (h, evs).

Definition PincushionProxy_Release (h : host_t) (sends : list send_result) : res (host_t * list event) :=
  '(h, err, evs) ← RPC_call realloc h PINCUSHION_REQ_RELEASE [] sends;
  if negb (err =? 0) then '(h, evs') ← RPC_Release h; Ok (h, evs ++ evs') else Ok (h, evs).

End Handlers.

#[global] Arguments PT_Find : simpl never.
#[global] Arguments PT_Insert : simpl never.

(** ** Who refers to what *)

Definition refers (p : Z) (hi : PC_hostinfo_t) : Z :=
  if hasReferencedPin hi && (referencedPin hi =? p) then 1 else 0.

(** The number of connections that refer to [p]. *)
Definition refs (p : Z) (m : gmap Z PC_hostinfo_t) : Z := msum (fun _ => refers p) m.

Definition refers_at (p : Z) (m : gmap Z PC_hostinfo_t) (h : Z) : Z := default 0 (refers p <$> m !! h).

Lemma refers_range p hi : 0 <= refers p hi <= 1.
Proof. unfold refers. destruct (_ && _); lia. Qed.

Lemma refs_delete p m h : refs p (delete h m) = refs p m - refers_at p m h.
Proof.
  unfold refs, refers_at. destruct (m !! h) as [hi|] eqn:E; cbn.
  - rewrite (msum_delete _ m h hi E). lia.
  - rewrite delete_id by done. lia.
Qed.

Lemma refs_insert p m h hi : refs p (<[h := hi]> m) = refs p m - refers_at p m h + refers p hi.
Proof.
  rewrite <- insert_delete_eq. unfold refs at 1. rewrite msum_insert by apply lookup_delete_eq.
  fold (refs p (delete h m)). rewrite refs_delete. lia.
Qed.

Lemma refs_pos p m h hi :
  m !! h = Some hi -> hasReferencedPin hi = true -> referencedPin hi = p -> 0 < refs p m.
Proof.
  intros Hh Hr Hp. pose proof (msum_le (fun _ => refers p) m h hi) as H. unfold refs.
  assert (refers p hi = 1) by (unfold refers; by rewrite Hr, Hp, Z.eqb_refl).
  assert (refers p hi <= msum (fun _ => refers p) m); [|lia]. apply H; [|done]. intros k a _. apply refers_range.
Qed.

Lemma refs_nonneg p m : 0 <= refs p m.
Proof. apply msum_nonneg. intros k a _. apply refers_range. Qed.

Lemma refs_size p m : refs p m <= Z.of_nat (size m).
Proof.
  unfold refs. induction m as [|k a m Hk IH] using map_ind; [by rewrite msum_empty|].
  rewrite msum_insert, map_size_insert_None by done. pose proof (refers_range p a). lia.
Qed.

(** ** The invariant *)

(** The pins from [r] on. *)
Fixpoint from (r : Z) (ps : list Z) : list Z :=
  match ps with
  | [] => []
  | x :: ps' => if x =? r then ps else from r ps'
  end.

(** What the table holds: ordered entries, each pin once, with the number of its
    references; the pins every connection was given, [given], are in the table
    from the one it refers to on. *)
Record pc_inv (c : Pincushion) (l : list PT_Entry_t) (given : gmap Z (list Z)) : Prop := {
  pc_holds : holds_entries (pt c) l;
  pc_ordered : ordered l;
  pc_nodup : NoDup (map e_pin l);
  pc_queue : Z.of_nat (length (pendingUnpins (pt c))) <= MAX_PINS;
  pc_refs e : e ∈ l -> e_ref e = refs (e_pin e) (hostdata c);
  pc_host h hi : hostdata c !! h = Some hi -> hasReferencedPin hi = true -> referencedPin hi ∈ map e_pin l;
  pc_given h hi g : hostdata c !! h = Some hi -> hasReferencedPin hi = true ->
    g ∈ default [] (given !! h) -> g ∈ from (referencedPin hi) (map e_pin l)
}.

(** The connection has the pin: it was given it and has not released it. *)
Definition lent (c : Pincushion) (given : gmap Z (list Z)) (h g : Z) : Prop :=
  exists hi, hostdata c !! h = Some hi /\ hasReferencedPin hi = true /\ g ∈ default [] (given !! h).

(** ** Lemmas *)

Lemma from_in r ps g : g ∈ from r ps -> g ∈ ps.
Proof.
  induction ps as [|x ps IH]; cbn; [done|]. destruct (x =? r); [done|]. intros H. right. auto.
Qed.

Lemma from_app_r r a b : r ∉ a -> from r (a ++ b) = from r b.
Proof.
  induction a as [|x a IH]; cbn; [done|]. intros [Hx Ha]%not_elem_of_cons.
  rewrite (proj2 (Z.eqb_neq x r)) by congruence. auto.
Qed.

Lemma from_app_l r a b : r ∈ a -> from r (a ++ b) = from r a ++ b.
Proof.
  induction a as [|x a IH]; cbn; [by intros ?%elem_of_nil|]. destruct (Z.eqb_spec x r); [done|].
  intros [->|H]%elem_of_cons; [done|auto].
Qed.

Lemma from_self r ps : r ∈ ps -> r ∈ from r ps.
Proof.
  induction ps as [|x ps IH]; cbn; [done|]. destruct (Z.eqb_spec x r) as [->|]; [by left|].
  intros [->|H]%elem_of_cons; [done|auto].
Qed.

Lemma from_insert r a x b g : x <> r -> g ∈ from r (a ++ b) -> g ∈ from r (a ++ x :: b).
Proof.
  intros Hx. destruct (decide (r ∈ a)) as [H|H].
  - rewrite !from_app_l by done. rewrite !elem_of_app, elem_of_cons. tauto.
  - rewrite !from_app_r by done. cbn. by rewrite (proj2 (Z.eqb_neq x r)).
Qed.

Lemma elem_of_pins (l : list PT_Entry_t) p : p ∈ map e_pin l <-> exists e, e ∈ l /\ e_pin e = p.
Proof.
  rewrite list_elem_of_In, in_map_iff. setoid_rewrite <- list_elem_of_In. naive_solver.
Qed.

(** The entries that nobody uses are not those that a connection has. *)
Lemma unused_unreferenced c l given k h hi :
  pc_inv c l given -> Forall (fun e => e_ref e = 0) (take k l) -> hostdata c !! h = Some hi ->
  hasReferencedPin hi = true -> referencedPin hi ∉ map e_pin (take k l).
Proof.
  intros HI Hz Hh Hr (e & He & Hep)%elem_of_pins. rewrite Forall_forall in Hz.
  pose proof (pc_refs _ _ _ HI e ltac:(rewrite <- (take_drop k l); apply elem_of_app; by left)) as E.
  rewrite (Hz e He) in E. pose proof (refs_pos (e_pin e) _ _ _ Hh Hr (eq_sym Hep)). lia.
Qed.

(** Removing entries that nobody uses. *)
Lemma kept_inv c l given p' l' :
  pc_inv c l given -> kept (pt c) l p' l' -> holds_entries p' l' -> pc_inv (PC p' (hostdata c)) l' given.
Proof.
  intros HI K Hp'. pose proof (fun k h hi => unused_unreferenced c l given k h hi HI) as Hn.
  destruct HI as [H1 H2 H3 H4 H5 H6 H7]. pose proof (kept_ordered _ _ _ _ K H2). pose proof (kept_queue _ _ _ _ K).
  destruct K as (k & -> & Hz & Eq & _). rewrite <- (take_drop k l), map_app in H3. apply NoDup_app in H3 as (_ & Hd & H3).
  specialize (fun h hi => Hn k h hi Hz).
  split; cbn [pt hostdata]; try done.
  - intros e He. apply H5. rewrite <- (take_drop k l). apply elem_of_app. by right.
  - intros h hi Hh Hr. specialize (H6 h hi Hh Hr). rewrite <- (take_drop k l), map_app, elem_of_app in H6.
    destruct H6 as [H6|H6]; [by destruct (Hn h hi Hh Hr)|done].
  - intros h hi g Hh Hr Hg. specialize (H7 h hi g Hh Hr Hg). rewrite <- (take_drop k l), map_app in H7.
    by rewrite from_app_r in H7 by (by apply (Hn h hi)).
Qed.

(** It queues no pin that a connection has. *)
Lemma kept_lent c l given p' l' h g :
  pc_inv c l given -> kept (pt c) l p' l' -> lent c given h g ->
  g ∈ pendingUnpins p' -> g ∈ pendingUnpins (pt c).
Proof.
  intros HI (k & -> & Hz & -> & _) (hi & Hh & Hr & Hg) [Hq|Hq]%elem_of_app; [done|exfalso].
  pose proof (pc_given _ _ _ HI h hi g Hh Hr Hg) as Hf. pose proof (pc_nodup _ _ _ HI) as Hd.
  rewrite <- (take_drop k l), map_app in Hf, Hd. apply NoDup_app in Hd as (_ & Hd & _).
  rewrite from_app_r in Hf by (by eapply unused_unreferenced). exact (Hd g Hq (from_in _ _ _ Hf)).
Qed.

(** An entry and a connection change together. *)
Lemma reref_inv c l given j e d h hi p' gs :
  pc_inv c l given -> l !! j = Some e -> 0 <= e_ref e + d ->
  holds_entries p' (<[j := bump_ref d e]> l) -> pendingUnpins p' = pendingUnpins (pt c) ->
  (forall p, refs p (<[h := hi]> (hostdata c)) = refs p (hostdata c) + (if e_pin e =? p then d else 0)) ->
  (hasReferencedPin hi = true -> referencedPin hi ∈ map e_pin l /\
     forall g, g ∈ gs -> g ∈ from (referencedPin hi) (map e_pin l)) ->
  pc_inv (PC p' (<[h := hi]> (hostdata c))) (<[j := bump_ref d e]> l) (<[h := gs]> given).
Proof.
  intros [H1 H2 H3 H4 H5 H6 H7] Hj Hd Hp' Hq Hrefs Hgs.
  split; cbn [pt hostdata]; rewrite ?(pins_ref l j e d Hj), ?Hq; try done.
  - by apply ordered_ref.
  - intros x (i & Hi)%list_elem_of_lookup. apply list_lookup_insert_Some in Hi as [(<- & <- & _)|[Hne Hi]].
    + cbn. rewrite Hrefs, Z.eqb_refl, (H5 e); [done|]. by eapply list_elem_of_lookup_2.
    + rewrite Hrefs, (proj2 (Z.eqb_neq _ _)).
      * rewrite (H5 x) by (by eapply list_elem_of_lookup_2). lia.
      * intros E. apply Hne. apply (NoDup_lookup (map e_pin l) j i (e_pin e) H3).
        -- change (map e_pin) with (fmap (M := list) e_pin). by rewrite list_lookup_fmap, Hj.
        -- change (map e_pin) with (fmap (M := list) e_pin). by rewrite list_lookup_fmap, Hi, E.
  - intros h' hi' [[<- <-]|[Hne Hh]]%lookup_insert_Some Hr; [by apply Hgs|by eapply H6].
  - intros h' hi' g [[<- <-]|[Hne Hh]]%lookup_insert_Some Hr Hg.
    + rewrite lookup_insert_eq in Hg. by apply Hgs.
    + rewrite lookup_insert_ne in Hg by done. by eapply H7.
Qed.

(** A connection that refers to nothing. *)
Definition no_reference (c : Pincushion) (h : Z) : Prop :=
  match hostdata c !! h with None => True | Some hi => hasReferencedPin hi = false end.

Lemma refs_take c h p q : no_reference c h ->
  refs p (<[h := HostInfo true q]> (hostdata c)) = refs p (hostdata c) + (if q =? p then 1 else 0).
Proof.
  intros Hn. rewrite refs_insert. unfold refers_at, no_reference in *.
  assert (E : default 0 (refers p <$> hostdata c !! h) = 0).
  { destruct (hostdata c !! h) as [hi|]; [|done]. cbn. unfold refers. by rewrite Hn. }
  rewrite E. unfold refers. cbn. lia.
Qed.

Lemma refs_drop c h p hi : hostdata c !! h = Some hi -> hasReferencedPin hi = true ->
  refs p (<[h := HostInfo false (referencedPin hi)]> (hostdata c)) =
  refs p (hostdata c) + (if referencedPin hi =? p then -1 else 0).
Proof.
  intros Hh Hr. rewrite refs_insert. unfold refers_at. rewrite Hh. cbn. unfold refers. rewrite Hr. cbn.
  destruct (referencedPin hi =? p); lia.
Qed.

Lemma entry_refs c l given e : pc_inv c l given -> e ∈ l -> 0 <= e_ref e <= Z.of_nat (size (hostdata c)).
Proof.
  intros HI He. rewrite (pc_refs _ _ _ HI e He). pose proof (refs_nonneg (e_pin e) (hostdata c)).
  pose proof (refs_size (e_pin e) (hostdata c)). lia.
Qed.

Lemma refs_absent c l given p : pc_inv c l given -> p ∉ map e_pin l -> refs p (hostdata c) = 0.
Proof.
  intros HI Hp. unfold refs. apply msum_zero. intros h hi Hh. unfold refers.
  destruct (hasReferencedPin hi) eqn:Hr; [cbn|done]. destruct (Z.eqb_spec (referencedPin hi) p) as [<-|]; [|done].
  by destruct (Hp (pc_host _ _ _ HI h hi Hh Hr)).
Qed.

(** A pin that the database has just given, at its place. *)
Lemma inserted_inv c l given timestamp pin p' l' i :
  pc_inv c l given -> inserted_at (pt c) timestamp pin l p' l' i -> pc_inv (PC p' (hostdata c)) l' given.
Proof.
  intros HI [I1 I2 [I3 _] (j & Hj & _)]. pose proof (refs_absent c l given) as Hab. specialize (Hab pin HI).
  destruct HI as [H1 H2 H3 H4 H5 H6 H7].
  destruct Hj as [k1 k2 -> Hn|k1 e k2 -> <-]; (split; cbn [pt hostdata]; [done|done|..]); rewrite ?I3, ?map_app in *;
    cbn [map e_pin] in *; try done.
  - apply NoDup_app in H3 as (D1 & D2 & D3). apply not_elem_of_app in Hn as [Hn1 Hn2]. apply NoDup_app. split_and!; [done| |].
    + intros x Hx [->|Hx2]%elem_of_cons; [done|by eapply D2].
    + by constructor.
  - intros x [Hx|[->|Hx]%elem_of_cons]%elem_of_app; [|cbn; by rewrite Hab|]; apply H5, elem_of_app; auto.
  - intros h hi Hh Hr. specialize (H6 h hi Hh Hr). rewrite elem_of_app, elem_of_cons in *. tauto.
  - intros h hi g Hh Hr Hg. apply from_insert; [|by eapply H7]. intros ->. apply Hn. by eapply H6.
  - intros x [Hx|[->|Hx]%elem_of_cons]%elem_of_app; [|apply (H5 e)|]; [apply H5| |apply H5]; apply elem_of_app;
      rewrite elem_of_cons; auto.
Qed.

(** ** Operations *)

Lemma Release_inv c l given h now :
  pc_inv c l given ->
  match ReleaseHostPin c h now with
  | Ok c' => exists l', pc_inv c' l' (<[h := []]> given) /\ no_reference c' h /\
      forall h' g, h' <> h -> lent c given h' g -> g ∈ pendingUnpins (pt c') -> g ∈ pendingUnpins (pt c)
  | Fault f => f = AssertFail /\ MAX_PINS < Z.of_nat (length (pendingUnpins (pt c)) + length l)
  end.
Proof.
  intros HI. unfold ReleaseHostPin, no_reference.
  assert (Hrest : no_reference c h -> pc_inv c l (<[h := []]> given)).
  { intros Hn. destruct HI as [H1 H2 H3 H4 H5 H6 H7]. split; try done.
    intros h' hi' g Hh' Hr Hg. destruct (decide (h' = h)) as [->|Hne].
    - unfold no_reference in Hn. rewrite Hh' in Hn. congruence.
    - rewrite lookup_insert_ne in Hg by done. by eapply H7. }
  unfold no_reference in Hrest. destruct (hostdata c !! h) as [hi|] eqn:Hh; [|exists l; rewrite Hh; auto].
  destruct (hasReferencedPin hi) eqn:Hr; [|exists l; rewrite Hh; auto].
  destruct (FindPin_ok (pt c) (referencedPin hi) l (pc_holds _ _ _ HI)) as (r & -> & Hf). rewrite bind_ret_l.
  destruct r as [r|]; [|by destruct (Hf (pc_host _ _ _ HI h hi Hh Hr))]. destruct Hf as (j & e & Hj & He & ->).
  cbn [deref]. rewrite bind_ret_l. pose proof (list_elem_of_lookup_2 _ _ _ Hj) as Hin.
  pose proof (pc_refs _ _ _ HI e Hin) as Href. pose proof (refs_pos (e_pin e) _ _ _ Hh Hr (eq_sym He)) as Hpos.
  destruct (RemoveRef_ok (pt c) l j e now (pc_holds _ _ _ HI) Hj ltac:(lia)) as (p0 & -> & Hp0 & Hq & _).
  assert (HI0 : pc_inv (PC p0 (<[h := HostInfo false (referencedPin hi)]> (hostdata c)))
    (<[j := bump_ref (-1) e]> l) (<[h := []]> given)).
  { apply reref_inv; try done; [lia|]. intros p. rewrite He. by apply refs_drop. }
  pose proof (Clean_ok p0 now _ Hp0 (pc_ordered _ _ _ HI0) (pc_queue _ _ _ HI0)) as Hc.
  destruct (PT_Clean p0 now) as [p'|f] eqn:Ec.
  - rewrite bind_ret_l. destruct (Clean_kept p0 now _ p' Hp0 (pc_ordered _ _ _ HI0) (pc_queue _ _ _ HI0) Ec) as (l' & K & Hp').
    exists l'. cbn [pt hostdata]. rewrite lookup_insert_eq. split_and!; [by eapply (kept_inv (PC p0 _))|done|].
    intros h' g Hne (hi' & Hh' & Hr' & Hg) Hin'. rewrite <- Hq. eapply (kept_lent _ _ _ _ _ h' g HI0 K); [|done].
    exists hi'. cbn [hostdata]. by rewrite !lookup_insert_ne by done.
  - cbn. destruct Hc as [-> Hc]. split; [done|]. rewrite Hq in Hc.
    pose proof (cleaned_length (timersub now (maxStaleness p0)) (<[j:=bump_ref (-1) e]> l)) as Hl.
    rewrite length_insert in Hl. lia.
Qed.

Lemma no_reference_delete c l given h :
  pc_inv c l given -> no_reference c h -> pc_inv (PC (pt c) (delete h (hostdata c))) l given.
Proof.
  intros [H1 H2 H3 H4 H5 H6 H7] Hn. split; cbn [pt hostdata]; try done.
  - intros e He. rewrite refs_delete, (H5 e He). unfold refers_at, no_reference in *.
    destruct (hostdata c !! h) as [hi|]; cbn; [|lia]. unfold refers. rewrite Hn. cbn. lia.
  - intros h' hi [_ Hh]%lookup_delete_Some. exact (H6 h' hi Hh).
  - intros h' hi g [_ Hh]%lookup_delete_Some. exact (H7 h' hi g Hh).
Qed.

Definition stamp (e : PT_Entry_t) : PinStamp_t := PinStamp (e_pin e) (e_timestamp e).

Lemma ReplyPins_ok p a b num :
  holds_entries p (a ++ b) -> ReplyPins (length b) p num (num - Z.of_nat (length b)) = Ok (map stamp b).
Proof.
  revert a. induction b as [|e b IH]; intros a Hp; [done|]. cbn [ReplyPins length map].
  replace (num - (num - Z.of_nat (S (length b))) - 1) with (Z.of_nat (length b)) by lia.
  rewrite (GetEntry_ok p _ (Z.of_nat (length b)) Hp) by (rewrite length_app; cbn; lia).
  replace (Z.of_nat (length (a ++ e :: b)) - 1 - Z.of_nat (length b)) with (Z.of_nat (length a))
    by (rewrite length_app; cbn; lia).
  cbn [deref]. rewrite bind_ret_l, (entry_at p _ Hp (length a) e), bind_ret_l
    by (rewrite lookup_app_r, Nat.sub_diag by lia; done).
  replace (num - Z.of_nat (S (length b)) + 1) with (num - Z.of_nat (length b)) by lia.
  rewrite (IH (a ++ [e])), bind_ret_l by (by rewrite <- app_assoc). done.
Qed.

Lemma no_reference_assert c h : no_reference c h ->
  match hostdata c !! h with None => true | Some hi => negb (hasReferencedPin hi) end = true.
Proof. unfold no_reference. destruct (hostdata c !! h); [by intros ->|done]. Qed.

(** A request gives the recent pins, oldest first, and a reference to the oldest. *)
Lemma Request_ok c l given h freshness now :
  pc_inv c l given -> no_reference c h -> Z.of_nat (size (hostdata c)) < 2 ^ 31 - 1 ->
  exists k1 k2 c' l', l = k1 ++ k2 /\ Forall (recent (timersub now freshness)) k2 /\
    Forall (fun e => ~ recent (timersub now freshness) e) k1 /\
    RequestPins c h freshness now = Ok (c', map stamp k2) /\
    pc_inv c' l' (if bool_decide (k2 = []) then given else <[h := map e_pin k2]> given) /\
    map e_pin l' = map e_pin l.
Proof.
  intros HI Hn Hsz. unfold RequestPins. rewrite (no_reference_assert c h Hn). cbn [Assert]. rewrite bind_ret_l.
  destruct (Find_ok (pt c) l freshness now (pc_holds _ _ _ HI) (pc_ordered _ _ _ HI)) as (k1 & k2 & -> & H1 & H2 & ->).
  rewrite bind_ret_l. exists k1, k2. destruct k2 as [|e k2]; [by eexists c, _|].
  rewrite (bool_decide_false (e :: k2 = [])) by done. change (Z.of_nat (length (e :: k2)) =? 0) with false.
  cbn [negb deref]. rewrite bind_ret_l.
  assert (Hj : (k1 ++ e :: k2) !! length k1 = Some e) by (by rewrite lookup_app_r, Nat.sub_diag by lia).
  rewrite (entry_at (pt c) _ (pc_holds _ _ _ HI) _ e Hj), bind_ret_l.
  pose proof (entry_refs c _ given e HI (list_elem_of_lookup_2 _ _ _ Hj)) as He.
  destruct (AddRef_ok (pt c) _ (length k1) e (pc_holds _ _ _ HI) Hj ltac:(lia)) as (p' & -> & Hp' & Hq & _).
  rewrite bind_ret_l, Nat2Z.id.
  pose proof Hp' as Hp2. rewrite insert_app_r_alt, Nat.sub_diag in Hp2 by lia. cbn [list_insert insert] in Hp2.
  pose proof (ReplyPins_ok p' k1 (bump_ref 1 e :: k2) (Z.of_nat (length (e :: k2))) Hp2) as R.
  change (length (bump_ref 1 e :: k2)) with (length (e :: k2)) in R. rewrite Z.sub_diag in R. rewrite R, bind_ret_l.
  eexists _, _. split_and!; [done|done|done|done| |by apply pins_ref].
  apply reref_inv; try done; [lia|intros p; by apply refs_take|]. intros _. cbn [referencedPin].
  destruct (decide (e_pin e ∈ map e_pin k1)) as [Hk|Hk].
  { pose proof (pc_nodup _ _ _ HI) as Hd. rewrite map_app in Hd. apply NoDup_app in Hd as (_ & Hd & _).
    by destruct (Hd _ Hk (list_elem_of_here _ _)). }
  rewrite map_app, from_app_r by done. cbn [map from]. rewrite Z.eqb_refl. split; [|done].
  apply elem_of_app. right. by left.
Qed.

Lemma later_from (l : list PT_Entry_t) e x :
  StronglySorted not_after l -> e ∈ l -> x ∈ l -> timer_lt (e_timestamp e) (e_timestamp x) = true ->
  e_pin x ∈ from (e_pin e) (map e_pin l).
Proof.
  induction 1 as [|y l Hs IH Hy]; intros He Hx Ht; [by apply elem_of_nil in He|]. cbn [map from].
  destruct (Z.eqb_spec (e_pin y) (e_pin e)) as [E|E].
  { change (e_pin y :: map e_pin l) with (map e_pin (y :: l)). apply elem_of_pins. eauto. }
  apply elem_of_cons in He as [->|He]; [done|]. apply elem_of_cons in Hx as [->|Hx]; [|auto].
  rewrite Forall_forall in Hy. specialize (Hy e He). unfold not_after in Hy. congruence.
Qed.

Lemma grant_inv c l given h hi pin :
  pc_inv c l given -> hostdata c !! h = Some hi -> pin ∈ from (referencedPin hi) (map e_pin l) ->
  pc_inv c l (<[h := pin :: default [] (given !! h)]> given).
Proof.
  intros [H1 H2 H3 H4 H5 H6 H7] Hh Hp. split; try done. intros h' hi' g Hh' Hr Hg.
  destruct (decide (h' = h)) as [->|Hne].
  - rewrite lookup_insert_eq in Hg. cbn in Hg. rewrite Hh in Hh'. injection Hh' as <-.
    apply elem_of_cons in Hg as [->|Hg]; [done|by eapply H7].
  - rewrite lookup_insert_ne in Hg by done. by eapply H7.
Qed.

Lemma set_host_inv c l given h hi :
  pc_inv c l given -> hostdata c !! h = Some hi -> pc_inv (PC (pt c) (<[h := hi]> (hostdata c))) l given.
Proof. intros HI Hh. rewrite insert_id by done. by destruct c. Qed.

(** The entry of the pin after [PT_Insert]. *)
Lemma inserted_entry timestamp pin l l' j :
  inserted timestamp pin l l' j ->
  exists r, l' !! j = Some (PTEntry pin timestamp r) /\
    forall e, e ∈ l -> e_pin e <> pin -> e ∈ l'.
Proof.
  intros [k1 k2 -> Hn|k1 e k2 -> <-]; rewrite lookup_app_r, Nat.sub_diag by lia; eexists;
    (split; [reflexivity|]); intros x; rewrite !elem_of_app, ?elem_of_cons; [tauto|].
  intros [Hx|[->|Hx]] Hne; [auto|done|auto].
Qed.

Lemma PT_Insert_inv c l given timestamp pin now p' i :
  pc_inv c l given -> PT_Insert (pt c) timestamp pin now = Ok (p', i) ->
  exists l' j r, pc_inv (PC p' (hostdata c)) l' given /\ l' !! j = Some (PTEntry pin timestamp r) /\
    i = place (pt_tail p') (Z.of_nat j) /\ (forall e, e ∈ l -> e_ref e <> 0 -> e_pin e <> pin -> e ∈ l') /\
    forall h g, lent c given h g -> g ∈ pendingUnpins p' -> g ∈ pendingUnpins (pt c).
Proof.
  intros HI H. destruct (Insert_ok _ l _ _ _ _ _ (pc_holds _ _ _ HI) (pc_ordered _ _ _ HI) (pc_queue _ _ _ HI) H)
    as (p0 & l0 & l' & K & Hp0 & I0).
  destruct (ia_inserted _ _ _ _ _ _ _ I0) as (j & Hj & ->). destruct (inserted_entry _ _ _ _ _ Hj) as (r & Hr & Hin).
  pose proof (kept_inv c l given p0 l0 HI K Hp0) as HI0.
  exists l', j, r. split_and!; [by eapply (inserted_inv (PC p0 _))|done|done| |].
  2: { intros h g Hg. rewrite (proj1 (ia_queue _ _ _ _ _ _ _ I0)). by eapply kept_lent. }
  intros e He Hne. apply Hin. destruct K as (k & -> & Hz & _). rewrite <- (take_drop k l) in He.
  apply elem_of_app in He as [He|He]; [|done]. rewrite Forall_forall in Hz. by destruct (Hne (Hz e He)).
Qed.

(** Whether a pin of that time comes after the one the connection refers to. *)
Definition later (c : Pincushion) (hi : PC_hostinfo_t) (timestamp : timeval) : Prop :=
  exists i e, PT_FindPin (pt c) (referencedPin hi) = Ok (Some i) /\ entry (pt c) i = Ok e /\
    timer_lt (e_timestamp e) timestamp = true.

(** A connection without a reference gets one to the pin it brings. *)
Lemma Insert_first c l given h timestamp pin now c' :
  pc_inv c l given -> no_reference c h -> Z.of_nat (size (hostdata c)) < 2 ^ 31 - 1 ->
  InsertPin c h timestamp pin now = Ok c' ->
  exists l', pc_inv c' l' (<[h := [pin]]> given) /\
    forall h' g, lent c given h' g -> g ∈ pendingUnpins (pt c') -> g ∈ pendingUnpins (pt c).
Proof.
  intros HI Hn Hsz H. unfold InsertPin in H. apply bind_Ok in H as ([p' i] & H1 & H).
  set (hi := match hostdata c !! h with Some hi => hi | None => HostInfo false 0 end) in H.
  assert (E : hasReferencedPin hi = false) by (unfold hi, no_reference in *; by destruct (hostdata c !! h)).
  rewrite E in H. cbn [negb] in H. apply bind_Ok in H as (x & H2 & H). apply bind_Ok in H as (p2 & H3 & H).
  injection H as <-.
  assert (Hq : pendingUnpins p2 = pendingUnpins p').
  { unfold PT_AddRef in H3. rewrite H2, bind_ret_l in H3. injection H3 as <-. by case_if. }
  destruct (PT_Insert_inv c l given timestamp pin now p' i HI H1) as (l' & j & r & HI' & Hj & -> & _ & Hl).
  rewrite (entry_at p' l' (pc_holds _ _ _ HI') j _ Hj) in H2. injection H2 as <-.
  pose proof (entry_refs _ _ _ _ HI' (list_elem_of_lookup_2 _ _ _ Hj)) as He. cbn [hostdata e_ref] in He.
  destruct (AddRef_ok p' l' j _ (pc_holds _ _ _ HI') Hj ltac:(cbn; lia)) as (p3 & E3 & Hp3 & Hq3 & _).
  rewrite H3 in E3. injection E3 as <-. eexists. split; [|cbn [pt]; by rewrite Hq]. apply (reref_inv (PC p' (hostdata c))); try done; [cbn; lia| |].
  - intros p. by apply (refs_take c).
  - intros _. cbn [referencedPin e_pin]. assert (Hin : pin ∈ map e_pin l').
    { apply elem_of_pins. eexists. split; [by eapply list_elem_of_lookup_2|done]. }
    split; [done|]. intros g ->%list_elem_of_singleton. by apply from_self.
Qed.

(** One with a reference keeps it, and a later pin joins those it was given. *)
Lemma Insert_more c l given h hi timestamp pin now c' :
  pc_inv c l given -> hostdata c !! h = Some hi -> hasReferencedPin hi = true ->
  InsertPin c h timestamp pin now = Ok c' ->
  exists l', pc_inv c' l' given /\
    (forall h' g, lent c given h' g -> g ∈ pendingUnpins (pt c') -> g ∈ pendingUnpins (pt c)) /\
    (later c hi timestamp -> pc_inv c' l' (<[h := pin :: default [] (given !! h)]> given)).
Proof.
  intros HI Hh Hr H. unfold InsertPin in H. apply bind_Ok in H as ([p' i] & H1 & H). rewrite Hh, Hr in H.
  cbn [negb] in H. injection H as <-.
  destruct (PT_Insert_inv c l given timestamp pin now p' i HI H1) as (l' & j & r & HI' & Hj & -> & Hin & Hl).
  exists l'. pose proof (set_host_inv (PC p' _) l' given h hi HI' Hh) as HI2. split_and!; [done|exact Hl|]. intros (i & e & L1 & L2 & L3).
  eapply grant_inv; [done|by apply lookup_insert_eq|].
  destruct (FindPin_ok (pt c) (referencedPin hi) l (pc_holds _ _ _ HI)) as (r' & E & Hfr). rewrite L1 in E. injection E as <-.
  destruct Hfr as (j' & e' & Hj' & He' & ->). rewrite (entry_at (pt c) l (pc_holds _ _ _ HI) j' e' Hj') in L2. injection L2 as <-.
  pose proof (list_elem_of_lookup_2 _ _ _ Hj) as Hpin.
  destruct (decide (e_pin e' = pin)) as [E|Hne].
  - rewrite <- He', E. apply from_self, elem_of_pins. by eexists.
  - rewrite <- He'. change pin with (e_pin (PTEntry pin timestamp r)).
    apply later_from; [apply (pc_ordered _ _ _ HI')| |done|done].
    apply Hin; [by eapply list_elem_of_lookup_2| |done].
    rewrite (pc_refs _ _ _ HI) by (by eapply list_elem_of_lookup_2).
    pose proof (refs_pos (e_pin e') _ _ _ Hh Hr (eq_sym He')). lia.
Qed.

Lemma same_entries_inv c l given p' :
  pc_inv c l given -> holds_entries p' l -> pendingUnpins p' = pendingUnpins (pt c) \/ pendingUnpins p' = [] ->
  pc_inv (PC p' (hostdata c)) l given.
Proof.
  intros [H1 H2 H3 H4 H5 H6 H7] Hp Hq. split; cbn [pt hostdata]; try done.
  destruct Hq as [->| ->]; [done|]. cbn. unfold MAX_PINS. lia.
Qed.

Lemma Flush_kept fuel p l p' : holds_entries p l -> Z.of_nat (length (pendingUnpins p)) <= MAX_PINS ->
  PTFlushLoop fuel p = Ok p' -> exists l', kept p l p' l' /\ holds_entries p' l'.
Proof.
  revert p l. induction fuel as [|fuel IH]; intros p l Hp Hq H; [done|]. cbn in H.
  destruct (_ =? _) in H; [injection H as <-; exists l; split; [by apply kept_refl|done]|].
  apply bind_Ok in H as (p1 & H1 & H). destruct (RemoveTail_kept p l p1 Hp H1) as (l1 & K1 & Hp1).
  destruct (IH p1 l1 Hp1 (kept_queue _ _ _ _ K1) H) as (l' & K & Hp'). exists l'. split; [by eapply kept_trans|done].
Qed.

(** ** Runs *)

(** The server and the pins every connection was given since its last release. *)
Inductive pc_step : Pincushion * gmap Z (list Z) -> Pincushion * gmap Z (list Z) -> Prop :=
| step_request c given h freshness now c' l :
    RequestPins c h freshness now = Ok (c', l) -> Z.of_nat (size (hostdata c)) < 2 ^ 31 - 1 ->
    pc_step (c, given) (c', if bool_decide (l = []) then given else <[h := map pin l]> given)
| step_insert c given h timestamp pin now c' :
    no_reference c h -> Z.of_nat (size (hostdata c)) < 2 ^ 31 - 1 ->
    InsertPin c h timestamp pin now = Ok c' ->
    pc_step (c, given) (c', <[h := [pin]]> given)
| step_insert_later c given h hi timestamp pin now c' :
    hostdata c !! h = Some hi -> hasReferencedPin hi = true -> later c hi timestamp ->
    InsertPin c h timestamp pin now = Ok c' ->
    pc_step (c, given) (c', <[h := pin :: default [] (given !! h)]> given)
| step_insert_other c given h hi timestamp pin now c' :
    hostdata c !! h = Some hi -> hasReferencedPin hi = true ->
    InsertPin c h timestamp pin now = Ok c' ->
    pc_step (c, given) (c', given)
| step_release c given h now c' :
    HandleRelease c h now = Ok c' -> pc_step (c, given) (c', <[h := []]> given)
| step_close c given h now c' :
    HandleConnectionClosed c h now = Ok c' -> pc_step (c, given) (c', <[h := []]> given)
| step_flush c given p :
    PT_Flush (pt c) = Ok p -> pc_step (c, given) (PC p (hostdata c), given)
| step_unpin c given sent up p sql :
    PTOnWrite (pt c) sent up = Ok (p, sql) -> pc_step (c, given) (PC p (hostdata c), given)
| step_unpinned c given consumed up drained p :
    PTOnRead (pt c) consumed up drained = Ok p -> pc_step (c, given) (PC p (hostdata c), given).

Definition pc_run (maxStaleness : timeval) : Pincushion * gmap Z (list Z) -> Prop :=
  rtc pc_step (Pincushion_Setup maxStaleness, ∅).

(** A connection that has released its pins has none. *)
Lemma lent_other c given h h' g : lent c (<[h := []]> given) h' g -> h' <> h.
Proof. intros (hi & _ & _ & Hg) ->. rewrite lookup_insert_eq in Hg. by apply elem_of_nil in Hg. Qed.

Lemma Request_queue c h freshness now c' l :
  RequestPins c h freshness now = Ok (c', l) -> pendingUnpins (pt c') = pendingUnpins (pt c).
Proof.
  unfold RequestPins. intros E. apply bind_Ok in E as (u & _ & E). apply bind_Ok in E as ([e n] & _ & E).
  destruct (negb _); [|by injection E as <- _]. apply bind_Ok in E as (i & _ & E). apply bind_Ok in E as (x & _ & E).
  apply bind_Ok in E as (p & Ep & E). apply bind_Ok in E as (pins & _ & [= <- _]).
  unfold PT_AddRef in Ep. apply bind_Ok in Ep as (y & _ & [= <-]). by case_if.
Qed.

Lemma Pincushion_Setup_inv s : pc_inv (Pincushion_Setup s) [] ∅.
Proof.
  split; [apply PT_Init_ok|by split; constructor|constructor|done|..]; cbn.
  - by intros e He%elem_of_nil.
  - intros h hi Hh. by rewrite lookup_empty in Hh.
  - intros h hi g Hh. by rewrite lookup_empty in Hh.
Qed.

(** Every step keeps the invariant and queues no pin of a connection that keeps
    it. *)
Lemma pc_step_inv s s' l : pc_step s s' -> pc_inv (fst s) l (snd s) ->
  exists l', pc_inv (fst s') l' (snd s') /\
    forall h g, lent (fst s) (snd s) h g -> lent (fst s') (snd s') h g ->
      g ∈ pendingUnpins (pt (fst s')) -> g ∈ pendingUnpins (pt (fst s)).
Proof.
  destruct 1 as [c given h fr now c' k E Hsz|c given h ts pin now c' Hn Hsz E|c given h hi ts pin now c' Hh Hr Hl E
    |c given h hi ts pin now c' Hh Hr E|c given h now c' E|c given h now c' E|c given p E|c given sent up p sql E
    |c given consumed up drained p E]; cbn [fst snd]; intros HI.
  - assert (Hn : no_reference c h).
    { unfold RequestPins in E. apply bind_Ok in E as (? & [Ha _]%Assert_Ok & _). unfold no_reference.
      revert Ha. destruct (hostdata c !! h); [|done]. by intros ?%negb_true_iff. }
    destruct (Request_ok c l given h fr now HI Hn Hsz) as (k1 & k2 & c2 & l' & -> & _ & _ & E' & HI' & _).
    pose proof (Request_queue _ _ _ _ _ _ E) as Hq. rewrite E in E'. injection E' as <- ->. exists l'. rewrite Hq.
    split; [|done]. destruct k2; [done|]. cbn [map] in *. rewrite bool_decide_false in HI' |- * by done. by rewrite map_map.
  - destruct (Insert_first c l given h ts pin now c' HI Hn Hsz E) as (l' & H & Hq). eauto.
  - destruct (Insert_more c l given h hi ts pin now c' HI Hh Hr E) as (l' & _ & Hq & H). eauto.
  - destruct (Insert_more c l given h hi ts pin now c' HI Hh Hr E) as (l' & H & Hq & _). eauto.
  - unfold HandleRelease in E. pose proof (Release_inv c l given h now HI) as H. rewrite E in H.
    destruct H as (l' & H & _ & Hq). exists l'. split; [done|]. intros h' g L L'. by eapply Hq; [apply (lent_other _ _ _ _ _ L')|].
  - unfold HandleConnectionClosed in E. apply bind_Ok in E as (c1 & E & [= <-]).
    pose proof (Release_inv c l given h now HI) as H. rewrite E in H. destruct H as (l' & H & Hn & Hq).
    exists l'. split; [by apply no_reference_delete|]. intros h' g L L'. by eapply Hq; [apply (lent_other _ _ _ _ _ L')|].
  - unfold PT_Flush in E. apply bind_Ok in E as (p1 & E & [= <-]).
    destruct (Flush_kept _ _ l p1 (pc_holds _ _ _ HI) (pc_queue _ _ _ HI) E) as (l' & K & Hp1).
    exists l'. split; [|intros h g L _; exact (kept_lent c l given p1 l' h g HI K L)].
    apply (same_entries_inv (PC p1 (hostdata c))); [by eapply kept_inv|by apply set_last_ref_ok|by left].
  - unfold PTOnWrite in E. apply bind_Ok in E as (q & _ & [= <- _]). exists l.
    split; [|intros h g _ _; destruct sent; [by intros ?%elem_of_nil|done]].
    apply same_entries_inv; [done| |destruct sent; auto]. pose proof (pc_holds _ _ _ HI).
    destruct sent; by apply set_unpins_ok.
  - unfold PTOnRead in E. exists l. destruct consumed; cbn [negb] in E; [|by destruct up; [injection E as <-; destruct c|]].
    destruct drained; injection E as <-; [|by destruct c].
    split; [|done]. apply same_entries_inv; [done| |by left]. apply set_unpins_ok, HI.
Qed.

Lemma pc_run_inv s st : pc_run s st -> exists l, pc_inv (fst st) l (snd st).
Proof.
  unfold pc_run. intros H. remember (Pincushion_Setup s, ∅) as st0 eqn:E.
  assert (H0 : exists l, pc_inv (fst st0) l (snd st0)) by (subst; exists []; apply Pincushion_Setup_inv). clear E.
  induction H as [|x y z Hs _ IH]; [done|]. apply IH. destruct H0 as [l HI].
  destruct (pc_step_inv _ _ _ Hs HI) as (l' & HI' & _). eauto.
Qed.

(** ** A request over the network *)

Definition time_ok (t : timeval) : Prop := - 2 ^ 63 <= tv_sec t < 2 ^ 63 /\ - 2 ^ 63 <= tv_usec t < 2 ^ 63.

(** The fields of a pin fit the message. *)
Definition stamp_ok (x : PinStamp_t) : Prop := time_ok (tv x) /\ pin32 (pin x).

Definition PinFields (l : list PinStamp_t) : list field := concat (map pin_fields l).

Lemma ReadPins_ok l v fs : reads v (PinFields l ++ fs) -> Forall stamp_ok l ->
  exists v', ReadPins (length l) v = Ok (v', l) /\ reads v' fs.
Proof.
  intros H Hl. revert v H. induction Hl as [|x l [[H1 H2] Hp] _ IH]; intros v H; [by exists v|].
  change (PinFields (x :: l)) with (pin_fields x ++ PinFields l) in H. unfold pin_fields in H. cbn [app] in H.
  cbn [length ReadPins]. rd H. rd H. rd H. destruct (IH _ H) as (v' & -> & Hr). rewrite bind_ret_l.
  exists v'. by destruct x as [? []].
Qed.

Lemma PinFields_ok l : Forall stamp_ok l -> Forall field_ok (PinFields l).
Proof.
  induction 1 as [|x l [[H1 H2] Hp] _ IH]; [constructor|]. change (PinFields (x :: l)) with (pin_fields x ++ PinFields l).
  apply Forall_app. split; [|done]. repeat apply Forall_cons_2; [done|done|by apply field_pin|apply Forall_nil_2].
Qed.

Lemma PinFields_length l : Z.of_nat (length (enc_all (PinFields l))) = 20 * Z.of_nat (length l).
Proof.
  induction l as [|x l IH]; [done|]. change (PinFields (x :: l)) with (pin_fields x ++ PinFields l).
  unfold enc_all in *. rewrite map_app, concat_app, length_app, Nat2Z.inj_add, IH. cbn -[Z.mul]. lia.
Qed.
(** The reply that carries the pins. *)
Definition pins_msg (l : list PinStamp_t) : Z * list Z :=
  if bool_decide (l = []) then (PINCUSHION_REP_EMPTY, [])
  else (PINCUSHION_REP_FOUND, enc_all (F32 (Z.of_nat (length l)) :: PinFields l)).

Definition RequestFields (freshness : timeval) : list field := [F64 (tv_sec freshness); F64 (tv_usec freshness)].

Lemma pins_msg_ok l : Z.of_nat (length l) < MAX_PINS -> msg_ok (pins_msg l).
Proof.
  intros Hl. unfold pins_msg, MAX_PINS in *. destruct (bool_decide (l = [])); [by vm_compute|]. split; [by vm_compute|].
  cbn [snd]. change (enc_all (?f :: ?fs)) with (enc f ++ enc_all fs). rewrite length_app, Nat2Z.inj_add, PinFields_length.
  cbn -[Z.mul Z.of_nat]. lia.
Qed.

Section Remote.

Context (realloc : Z -> Z -> Z).
Hypothesis realloc_fits : forall p n, 0 < n <= 2 ^ 33 -> 0 < realloc p n /\ realloc p n + n < 2 ^ 63.

Lemma HandleRequest_ok c c' id h args freshness l sends now now' :
  reads args (RequestFields freshness) -> time_ok freshness ->
  RequestPins c id freshness now = Ok (c', l) -> Forall stamp_ok l -> Z.of_nat (length l) < MAX_PINS -> idle h ->
  sends_ok (negb (h_re h)) (Z.of_nat (length (frame (pins_msg l)))) sends ->
  exists h' evs, HandleRequest realloc c id h args sends now now' = Ok (c', h', evs) /\
    sent_bytes evs ++ unread (h_out h') = frame (pins_msg l).
Proof.
  intros H [Hs Hu] HR Hl Hn Hi Hsend. unfold HandleRequest, RequestFields in *. rd H. rd H.
  rewrite (reads_end _ H), bind_ret_l. replace (Timeval _ _) with freshness by (by destruct freshness).
  rewrite HR, bind_ret_l. pose proof (proj2 (pins_msg_ok l Hn)) as Hlen. unfold pins_msg in *.
  destruct (bool_decide (l = [])); cbn [negb].
  - destruct (call_idle realloc realloc_fits h PINCUSHION_REP_EMPTY [] sends Hi) as (h' & evs & -> & E & _); [done..|].
    rewrite bind_ret_l. eauto.
  - destruct (call_idle realloc realloc_fits h PINCUSHION_REP_FOUND (F32 (Z.of_nat (length l)) :: PinFields l) sends Hi)
      as (h' & evs & E0 & E & _); [|done|done|].
    { apply Forall_cons_2; [|by apply PinFields_ok]. cbn. unfold MAX_PINS in *. lia. }
    unfold PinFields in E0 at 1. rewrite E0, bind_ret_l. eauto.
Qed.

Lemma ProxyRequest_ok h freshness sends l cs :
  ready h -> time_ok freshness -> Forall stamp_ok l -> Z.of_nat (length l) < MAX_PINS ->
  sends_ok true (Z.of_nat (length (frame (PINCUSHION_REQ_REQUEST, enc_all (RequestFields freshness))))) sends ->
  pieces (pins_msg l) cs ->
  exists h' evs, PincushionProxy_Request realloc h freshness sends (map Received cs) true =
      Ok (h', if bool_decide (l = []) then None else Some l, Some (Z.of_nat (length l)), evs) /\
    sent_bytes evs = frame (PINCUSHION_REQ_REQUEST, enc_all (RequestFields freshness)).
Proof.
  intros Hrd [Hs Hu] Hl Hn Hsend Hp. unfold PincushionProxy_Request.
  destruct (call_recv realloc realloc_fits h PINCUSHION_REQ_REQUEST (RequestFields freshness) sends (pins_msg l) cs Hrd)
    as (h1 & evs & h2 & v & E1 & E & E2 & Ov & Uv); [by repeat apply Forall_cons_2|by vm_compute|done|by apply pins_msg_ok|done|].
  unfold RequestFields in E1. rewrite E1, bind_ret_l. cbn [negb Z.eqb]. rewrite E2, bind_ret_l. exists h2, evs. split; [|done].
  unfold pins_msg in *. destruct (bool_decide_reflect (l = [])) as [->|Hne]; cbn [fst snd] in *.
  - change (PINCUSHION_REP_EMPTY =? PINCUSHION_REP_FOUND) with false. rewrite Z.eqb_refl.
    by rewrite (reads_end v), bind_ret_l by (by split).
  - rewrite Z.eqb_refl. assert (Hv : reads v (F32 (Z.of_nat (length l)) :: PinFields l)) by (by split).
    unfold MAX_PINS in Hn. destruct (reads_32 _ _ _ Hv ltac:(lia)) as (v1 & -> & Hv1). rewrite bind_ret_l. cbn [negb].
    rewrite u32_small, Nat2Z.id by lia. rewrite <- (app_nil_r (PinFields l)) in Hv1.
    destruct (ReadPins_ok l v1 [] Hv1 Hl) as (v2 & -> & Hv2). by rewrite bind_ret_l, (reads_end v2), bind_ret_l.
Qed.

End Remote.

(** ** Theorems *)

(** C6: The pins a connection was given, by a request or because it inserted
    them later, stay in the table as long as it has not released them, whatever
    the other connections do and however full the table gets: each is found, and
    no step in which the connection keeps the pin, of whatever connection, puts
    it into the queue of those to be unpinned in the database.  (A pin can
    already be queued when it is lent: [reinserted_while_queued].) *)
Theorem lent_pins_stay (maxStaleness : timeval) (c : Pincushion) (given : gmap Z (list Z)) (h g : Z)
    (Hrun : pc_run maxStaleness (c, given)) (Hg : lent c given h g) :
  (exists i e, PT_FindPin (pt c) g = Ok (Some i) /\ entry (pt c) i = Ok e /\ e_pin e = g) /\
  forall c' given', pc_step (c, given) (c', given') -> lent c' given' h g ->
    g ∈ pendingUnpins (pt c') -> g ∈ pendingUnpins (pt c).
Proof.
  destruct (pc_run_inv _ _ Hrun) as (l & HI). cbn [fst snd] in HI. split.
  2: { intros c' given' Hs Hg'. destruct (pc_step_inv _ _ l Hs HI) as (l' & _ & H). exact (H h g Hg Hg'). }
  destruct Hg as (hi & Hh & Hr & Hg).
  pose proof (from_in _ _ _ (pc_given _ _ _ HI h hi g Hh Hr Hg)) as Hin.
  destruct (FindPin_ok (pt c) g l (pc_holds _ _ _ HI)) as (r & -> & Hf). destruct r as [i|]; [|done].
  destruct Hf as (j & e & Hj & He & ->). exists (place (pt_tail (pt c)) (Z.of_nat j)), e.
  by rewrite (entry_at _ l (pc_holds _ _ _ HI) j e Hj).
Qed.

(** C7: In every state the server reaches, with fewer than 2^31 - 1 connections, the
    ring buffer holds a list of entries, oldest first and no pin twice, in which an
    entry's count is the number of connections that refer to it; and the end of a
    connection finds the entry it refers to: it can only fail on the assertion that
    the queue of pins to be unpinned has room. *)
Theorem table_invariant (maxStaleness : timeval) (c : Pincushion) (given : gmap Z (list Z))
    (Hrun : pc_run maxStaleness (c, given)) :
  exists l, holds_entries (pt c) l /\ StronglySorted not_after l /\ NoDup (map e_pin l) /\
    Forall (fun e => e_ref e = refs (e_pin e) (hostdata c)) l /\
    forall h now, match HandleConnectionClosed c h now with
                  | Ok c' => hostdata c' = delete h (hostdata c)
                  | Fault f => f = AssertFail /\ MAX_PINS < Z.of_nat (length (pendingUnpins (pt c)) + length l)
                  end.
Proof.
  destruct (pc_run_inv _ _ Hrun) as (l & HI). cbn [fst snd] in HI. exists l. destruct (pc_ordered _ _ _ HI) as [Ho _].
  split_and!; [apply (pc_holds _ _ _ HI)|done|apply (pc_nodup _ _ _ HI)|apply Forall_forall, (pc_refs _ _ _ HI)|].
  intros h now. pose proof (Release_inv c l given h now HI) as H. unfold HandleConnectionClosed.
  destruct (ReleaseHostPin c h now) as [c'|f] eqn:E; [|exact H]. rewrite bind_ret_l. cbn [hostdata].
  unfold ReleaseHostPin in E. destruct (hostdata c !! h) as [hi|] eqn:Hh; [|by injection E as <-].
  destruct (hasReferencedPin hi); [|by injection E as <-].
  apply bind_Ok in E as (? & _ & E). apply bind_Ok in E as (? & _ & E). apply bind_Ok in E as (? & _ & [= <-]).
  cbn [hostdata]. apply delete_insert_eq.
Qed.

(** C8: A remote request for a pin.  For a connection that holds no pin, the
    handler answers the request of the client's stub with the entries that are
    recent enough, and the stub, however the reply is cut into pieces, returns
    exactly those pins with their times, oldest first, or NULL when there are
    none. *)
Theorem remote_request (realloc : Z -> Z -> Z) (maxStaleness : timeval) (c : Pincushion) (given : gmap Z (list Z))
    (l : list PT_Entry_t) (id : Z) (freshness now : timeval) (hc hs : host_t) (args : IOBuf_t)
    (Hrealloc : forall p n, 0 < n <= 2 ^ 33 -> 0 < realloc p n /\ realloc p n + n < 2 ^ 63)
    (Hrun : pc_run maxStaleness (c, given)) (Hl : holds_entries (pt c) l)
    (Hfit : Forall (fun e => stamp_ok (stamp e)) l) (Hn : no_reference c id)
    (Hsz : Z.of_nat (size (hostdata c)) < 2 ^ 31 - 1) (Hfr : time_ok freshness)
    (Hc : ready hc) (Hs : idle hs) (Ha : reads args (RequestFields freshness)) :
  exists k1 k2 c', l = k1 ++ k2 /\ Forall (recent (timersub now freshness)) k2 /\
    Forall (fun e => ~ recent (timersub now freshness) e) k1 /\ StronglySorted not_after k2 /\
    forall sends sends' cs now',
      sends_ok true (Z.of_nat (length (frame (PINCUSHION_REQ_REQUEST, enc_all (RequestFields freshness))))) sends ->
      sends_ok (negb (h_re hs)) (Z.of_nat (length (frame (pins_msg (map stamp k2))))) sends' ->
      pieces (pins_msg (map stamp k2)) cs ->
      exists hs' hc' evs evs',
        PincushionProxy_Request realloc hc freshness sends (map Received cs) true =
          Ok (hc', if bool_decide (k2 = []) then None else Some (map stamp k2), Some (Z.of_nat (length k2)), evs) /\
        sent_bytes evs = frame (PINCUSHION_REQ_REQUEST, enc_all (RequestFields freshness)) /\
        HandleRequest realloc c id hs args sends' now now' = Ok (c', hs', evs') /\
        sent_bytes evs' ++ unread (h_out hs') = frame (pins_msg (map stamp k2)).
Proof.
  destruct (pc_run_inv _ _ Hrun) as (l0 & HI). cbn [fst snd] in HI.
  pose proof (holds_unique _ _ _ (pc_holds _ _ _ HI) Hl) as ->.
  destruct (Request_ok c l given id freshness now HI Hn Hsz) as (k1 & k2 & c' & l' & -> & H1 & H2 & E & _).
  exists k1, k2, c'. destruct (pc_ordered _ _ _ HI) as [Ho _]. apply Forall_app in Hfit as [_ Hfit].
  pose proof (he_size _ _ Hl) as Hlen. rewrite length_app in Hlen.
  assert (Hk : Z.of_nat (length (map stamp k2)) < MAX_PINS) by (rewrite length_map; lia).
  assert (Hst : Forall stamp_ok (map stamp k2)) by (by apply Forall_map).
  split_and!; [done..|exact (StronglySorted_app_1_r _ _ _ Ho)|]. intros sends sends' cs now' S1 S2 Hp.
  destruct (HandleRequest_ok realloc Hrealloc c c' id hs args freshness _ sends' now now' Ha Hfr E Hst Hk Hs S2)
    as (hs' & evs' & E1 & E2).
  destruct (ProxyRequest_ok realloc Hrealloc hc freshness sends _ cs Hc Hfr Hst Hk S1 Hp) as (hc' & evs & E3 & E4).
  exists hs', hc', evs, evs'. rewrite length_map in E3. split_and!; try done. rewrite E3. by destruct k2.
Qed.

(** ** A run of three connections *)

(** The first brings pin 5; the second asks for a pin of the last half minute;
    the first brings pin 7. *)
Definition ex_pc0 : Pincushion := Pincushion_Setup (Timeval 60 0).
Definition ex_pc1 : Pincushion := get ex_pc0 (InsertPin ex_pc0 1 (Timeval 100 0) 5 (Timeval 100 0)).
Definition ex_pc2 : Pincushion := (get (ex_pc1, []) (RequestPins ex_pc1 2 (Timeval 30 0) (Timeval 110 0))).1.
Definition ex_pc3 : Pincushion := get ex_pc2 (InsertPin ex_pc2 1 (Timeval 120 0) 7 (Timeval 120 0)).

Definition ex_given2 : gmap Z (list Z) := <[2 := [5]]> (<[1 := [5]]> ∅).

Lemma ex_pc_run1 : pc_run (Timeval 60 0) (ex_pc1, <[1 := [5]]> ∅).
Proof.
  eapply rtc_l; [|apply rtc_refl].
  apply (step_insert ex_pc0 ∅ 1 (Timeval 100 0) 5 (Timeval 100 0) ex_pc1); [done|done|by vm_compute].
Qed.

Lemma ex_pc_run2 : pc_run (Timeval 60 0) (ex_pc2, ex_given2).
Proof.
  eapply rtc_r; [apply ex_pc_run1|]. refine (step_request ex_pc1 (<[1 := [5]]> ∅) 2 (Timeval 30 0) (Timeval 110 0) ex_pc2 [PinStamp 5 (Timeval 100 0)] _ _);
    [|done]. by vm_compute.
Qed.

Lemma ex_pc_run3 : pc_run (Timeval 60 0) (ex_pc3, <[1 := [7; 5]]> ex_given2).
Proof.
  eapply rtc_r; [apply ex_pc_run2|].
  apply (step_insert_later ex_pc2 ex_given2 1 (HostInfo true 5) (Timeval 120 0) 7 (Timeval 120 0) ex_pc3);
    [by vm_compute|done| |by vm_compute].
  eexists _, _. split_and!; [vm_compute; reflexivity|vm_compute; reflexivity|done].
Qed.

(** The second connection then lets go of pin 5, long after it has become too old. *)
Definition ex_pc4 : Pincushion := get ex_pc3 (HandleRelease ex_pc3 2 (Timeval 300 0)).

Lemma lent_pins_stay_witness :
  (exists i e, PT_FindPin (pt ex_pc3) 5 = Ok (Some i) /\ entry (pt ex_pc3) i = Ok e /\ e_pin e = 5) /\
  (5 ∈ pendingUnpins (pt ex_pc4) -> 5 ∈ pendingUnpins (pt ex_pc3)).
Proof.
  destruct (lent_pins_stay (Timeval 60 0) ex_pc3 (<[1 := [7; 5]]> ex_given2) 1 5 ex_pc_run3) as [H1 H2].
  - exists (HostInfo true 5). split_and!; [by vm_compute|done|]. right. by left.
  - split; [exact H1|]. apply (H2 ex_pc4 (<[2 := []]> (<[1 := [7; 5]]> ex_given2))).
    + apply (step_release ex_pc3 _ 2 (Timeval 300 0)). by vm_compute.
    + exists (HostInfo true 5). split_and!; [by vm_compute|done|]. right. by left.
Defined.

(** What the queue does not exclude: pin 5 is released, too old, and queued; the
    database, which has not seen the UNPIN yet, gives it to a connection again,
    which brings it back; it is then in the table, with a reference, and queued. *)
Lemma reinserted_while_queued :
  exists c given, pc_run (Timeval 60 0) (c, given) /\ lent c given 2 5 /\ 5 ∈ pendingUnpins (pt c).
Proof.
  pose (c1 := get ex_pc1 (HandleRelease ex_pc1 1 (Timeval 300 0))).
  pose (c2 := get c1 (InsertPin c1 2 (Timeval 301 0) 5 (Timeval 301 0))).
  exists c2, (<[2 := [5]]> (<[1 := []]> (<[1 := [5]]> ∅))). split_and!.
  - eapply rtc_r; [eapply rtc_r; [apply ex_pc_run1|]|].
    + apply (step_release ex_pc1 _ 1 (Timeval 300 0) c1). by vm_compute.
    + apply (step_insert c1 _ 2 (Timeval 301 0) 5 (Timeval 301 0) c2); by vm_compute.
  - exists (HostInfo true 5). split_and!; [by vm_compute|done|]. by left.
  - apply (bool_decide_eq_true_1 _). by vm_compute.
Qed.

Lemma table_invariant_witness :
  exists l, holds_entries (pt ex_pc2) l /\ StronglySorted not_after l /\ NoDup (map e_pin l) /\
    Forall (fun e => e_ref e = refs (e_pin e) (hostdata ex_pc2)) l /\
    forall h now, match HandleConnectionClosed ex_pc2 h now with
                  | Ok c' => hostdata c' = delete h (hostdata ex_pc2)
                  | Fault f => f = AssertFail /\ MAX_PINS < Z.of_nat (length (pendingUnpins (pt ex_pc2)) + length l)
                  end.
Proof. exact (table_invariant (Timeval 60 0) ex_pc2 ex_given2 ex_pc_run2). Defined.

(** The request of the second connection, over the network. *)
Definition ex_pin5 : PinStamp_t := PinStamp 5 (Timeval 100 0).

Lemma ex_pc1_holds : holds_entries (pt ex_pc1) [PTEntry 5 (Timeval 100 0) 1].
Proof.
  split; try (vm_compute; split; congruence); [by vm_compute..|].
  intros [|i] e; [|by rewrite lookup_cons]. intros [= <-]. by vm_compute.
Qed.

Lemma remote_request_witness :
  exists c' hs' hc' evs evs',
    PincushionProxy_Request ex_realloc (ex_host false) (Timeval 30 0) [Sent 21]
      [Received (frame (pins_msg [ex_pin5]))] true = Ok (hc', Some [ex_pin5], Some 1, evs) /\
    HandleRequest ex_realloc ex_pc1 2 (ex_host true) (ex_view (RequestFields (Timeval 30 0))) [SendRetry]
      (Timeval 110 0) (Timeval 111 0) = Ok (c', hs', evs').
Proof.
  destruct (remote_request ex_realloc (Timeval 60 0) ex_pc1 (<[1 := [5]]> ∅) [PTEntry 5 (Timeval 100 0) 1] 2
    (Timeval 30 0) (Timeval 110 0) (ex_host false) (ex_host true) (ex_view (RequestFields (Timeval 30 0))))
    as (k1 & k2 & c' & El & _ & Hk1 & _ & H).
  - apply ex_realloc_fits.
  - apply ex_pc_run1.
  - apply ex_pc1_holds.
  - apply Forall_cons_2; [|apply Forall_nil_2]. split; [split|]; split; by vm_compute.
  - done.
  - by vm_compute.
  - split; split; by vm_compute.
  - apply ex_host_ready.
  - split_and!; [done|apply (ex_host_out true)|done|done|vm_compute; done].
  - by apply ex_view_reads.
  - assert (k2 = [PTEntry 5 (Timeval 100 0) 1]) as ->.
    { destruct k1 as [|e k1]; [done|]. injection El as <- _. apply Forall_cons in Hk1 as [Hk1 _]. destruct Hk1. by vm_compute. }
    destruct (H [Sent 21] [SendRetry] [frame (pins_msg [ex_pin5])] (Timeval 111 0)) as (hs' & hc' & evs & evs' & E1 & _ & E2 & _).
    + apply so_last; vm_compute; done.
    + apply so_wait. done.
    + split; [|by rewrite concat_cons, app_nil_r]. repeat constructor; vm_compute; done.
    + exists c', hs', hc', evs, evs'. split; [exact E1|exact E2].
Defined.
