(* ===== verification/PinLive.v ===== *)
(** * Unused snapshots are unpinned (src/pincushion/pintable.c, pincushion.c)

    A pin that leaves the table is queued and sent to the database in a batch by
    the write callback of the database connection, which the reactor calls when
    the connection has been marked writable; a batch is in flight until the read
    callback has drained its results.  No pin is forgotten in the queue: whenever
    it is not empty the connection is marked or a batch is in flight. *)

From S2P Require Import Prelude CLib CText Timeval PinSet IOBuf RPC Wire PinTable Pincushion.

(** ** Runs *)

(** What happens next: the write callback, for which [PQsendQuery] succeeds or
    not; the read callback; a call of a client, or nothing.  The database
    connection stays up. *)
Inductive pc_act : Type :=
| ActWrite (sent : bool)
| ActRead (consumed drained : bool)
| ActClient.

#[global] Instance pc_act_eq_dec : EqDecision pc_act.
Proof. solve_decision. Defined.

Inductive pc_client (c : Pincushion) : Pincushion -> Prop :=
| do_request h freshness now c' l : RequestPins c h freshness now = Ok (c', l) -> pc_client c c'
| do_insert h timestamp pin now c' : InsertPin c h timestamp pin now = Ok c' -> pc_client c c'
| do_release h now c' : HandleRelease c h now = Ok c' -> pc_client c c'
| do_close h now c' : HandleConnectionClosed c h now = Ok c' -> pc_client c c'
| do_flush p : PT_Flush (pt c) = Ok p -> pc_client c (PC p (hostdata c))
| do_nothing : pc_client c c.

Definition pc_do (a : pc_act) (c c' : Pincushion) : Prop :=
  match a with
  | ActWrite sent => marked (pt c) = true /\ exists p sql,
      PTOnWrite (pt c) sent true = Ok (p, sql) /\ c' = PC p (hostdata c)
  | ActRead consumed drained => exists p,
      PTOnRead (pt c) consumed true drained = Ok p /\ c' = PC p (hostdata c)
  | ActClient => pc_client c c'
  end.

(** ** The queue *)

Definition watched (p : PinTable) : Prop :=
  pendingUnpins p <> [] -> marked p = true \/ unpinInFlight p = true.

(** What the calls of clients do to the queue. *)
Record queued (p p' : PinTable) : Prop := {
  qd_pending : exists q, pendingUnpins p' = pendingUnpins p ++ q;
  qd_inFlight : unpinInFlight p' = unpinInFlight p;
  qd_marked : marked p = true -> marked p' = true;
  qd_watched : watched p -> watched p'
}.

Lemma queued_same p p' :
  pendingUnpins p' = pendingUnpins p -> unpinInFlight p' = unpinInFlight p -> marked p' = marked p -> queued p p'.
Proof.
  intros E1 E2 E3. split; [exists []; by rewrite app_nil_r|done|by rewrite E3|].
  unfold watched. by rewrite E1, E2, E3.
Qed.

#[global] Instance queued_preorder : PreOrder queued.
Proof.
  split; [intros p; by apply queued_same|]. intros p1 p2 p3 [[q1 E1] I1 M1 W1] [[q2 E2] I2 M2 W2].
  split; [|congruence|auto|auto]. exists (q1 ++ q2). by rewrite E2, E1, app_assoc.
Qed.

(** Results of calls taken apart, up to the last one. *)
Ltac calls :=
  repeat match goal with
  | H : (_ ≫= _) = Ok _ |- _ => apply bind_Ok in H; destruct H as (? & ? & H)
  | H : (let '(_, _) := ?x in _) = Ok _ |- _ => destruct x
  | H : (if ?b then _ else _) = Ok _ |- _ => destruct b
  | H : match ?x with Some _ => _ | None => _ end = Ok _ |- _ => destruct x
  | H : Ok _ = Ok _ |- _ => injection H as <-
  | H : Fault _ = Ok _ |- _ => discriminate H
  end.

Lemma RemoveTail_queued p p' : PT_RemoveTail p = Ok p' -> queued p p'.
Proof.
  unfold PT_RemoveTail. intros H. apply bind_Ok in H as (_ & _ & H). cbv zeta in H.
  apply bind_Ok in H as (e & _ & H). apply bind_Ok in H as (_ & _ & H). apply bind_Ok in H as (_ & _ & H).
  injection H as <-. split; cbn.
  - by eexists.
  - done.
  - by intros ->.
  - unfold watched. cbn. intros W _. destruct (pendingUnpins p) as [|x q]; cbn.
    + destruct (unpinInFlight p); [by right|]. left. apply orb_true_r.
    + destruct W as [->| ->]; [done|by left|by right].
Qed.

Lemma CleanLoop_queued fuel p bound next p' : CleanLoop fuel p bound next = Ok p' -> queued p p'.
Proof.
  revert p next. induction fuel as [|fuel IH]; intros p next H; [done|]. cbn [CleanLoop] in H. calls.
  - done.
  - by apply queued_same.
  - etrans; [by apply RemoveTail_queued|by eapply IH].
  - by eapply IH.
Qed.

Lemma BubbleLoop_queued fuel p a b p' r : BubbleLoop fuel p a b = Ok (p', r) -> queued p p'.
Proof.
  revert p a b. induction fuel as [|fuel IH]; intros p a b H; [done|]. cbn [BubbleLoop] in H. calls; try done.
  apply IH in H. etrans; [|exact H]. by apply queued_same.
Qed.


(** The loops with their fuel of 1024 are not to be unfolded. *)
#[local] Strategy 1000 [CleanLoop BubbleLoop FindLoop SinceLoop].

Lemma Insert_queued p timestamp pin now p' r : PT_Insert p timestamp pin now = Ok (p', r) -> queued p p'.
Proof.
  unfold PT_Insert. intros H. apply bind_Ok in H as (p1 & H1 & H). apply bind_Ok in H as (p2 & H2 & H).
  assert (Q1 : queued p p1) by (destruct (_ =? _) in H1; [exact (CleanLoop_queued _ _ _ _ _ H1)|by injection H1 as <-]).
  assert (Q2 : queued p1 p2) by (clear H H1; calls; [by apply RemoveTail_queued|done]).
  etrans; [exact Q1|]. etrans; [exact Q2|]. clear Q1 Q2 H1 H2.
  apply bind_Ok in H as ([x|] & _ & H); cbv zeta in H.
  - apply bind_Ok in H as (_ & _ & H). apply bind_Ok in H as (_ & _ & H). apply bind_Ok in H as (e & _ & H).
    injection H as <- _. by apply queued_same.
  - apply BubbleLoop_queued in H. etrans; [|exact H]. by apply queued_same.
Qed.

Lemma AddRef_queued p i p' : PT_AddRef p i = Ok p' -> queued p p'.
Proof.
  unfold PT_AddRef. intros H. apply bind_Ok in H as (e & _ & [= <-]).
  destruct (_ <? _); by apply queued_same.
Qed.

Lemma RemoveRef_queued p i now p' : PT_RemoveRef p i now = Ok p' -> queued p p'.
Proof.
  unfold PT_RemoveRef. intros H. apply bind_Ok in H as (e & _ & H). apply CleanLoop_queued in H.
  etrans; [|exact H]. destruct (_ <? _); by apply queued_same.
Qed.

Lemma FlushLoop_queued fuel p p' : PTFlushLoop fuel p = Ok p' -> queued p p'.
Proof.
  revert p. induction fuel as [|fuel IH]; intros p H; [done|]. cbn [PTFlushLoop] in H. calls; [done|].
  etrans; [by apply RemoveTail_queued|by apply IH].
Qed.

Lemma Release_queued c h now c' : ReleaseHostPin c h now = Ok c' -> queued (pt c) (pt c').
Proof.
  unfold ReleaseHostPin. destruct (hostdata c !! h) as [hi|]; [|by intros [= <-]].
  destruct (hasReferencedPin hi); [|by intros [= <-]]. intros H. apply bind_Ok in H as (x & _ & H).
  apply bind_Ok in H as (e & _ & H). apply bind_Ok in H as (p & H & [= <-]).
  exact (RemoveRef_queued _ _ _ _ H).
Qed.

Lemma client_queued c c' : pc_client c c' -> queued (pt c) (pt c').
Proof.
  intros [h fr now c1 l H|h ts pin now c1 H|h now c1 H|h now c1 H|p H|].
  - unfold RequestPins in H. apply bind_Ok in H as (_ & _ & H). apply bind_Ok in H as ([e n] & _ & H).
    destruct (negb _); [|by injection H as <- _]. apply bind_Ok in H as (e1 & _ & H). apply bind_Ok in H as (x & _ & H).
    apply bind_Ok in H as (p & H1 & H). apply bind_Ok in H as (k & _ & [= <- _]). exact (AddRef_queued _ _ _ H1).
  - unfold InsertPin in H. apply bind_Ok in H as ([p e] & H1 & H). apply Insert_queued in H1. cbv zeta in H.
    etrans; [exact H1|]. destruct (negb _); [|by injection H as <-].
    apply bind_Ok in H as (x & _ & H). apply bind_Ok in H as (p1 & H2 & [= <-]). exact (AddRef_queued _ _ _ H2).
  - exact (Release_queued _ _ _ _ H).
  - unfold HandleConnectionClosed in H. apply bind_Ok in H as (c2 & H & [= <-]). exact (Release_queued _ _ _ _ H).
  - unfold PT_Flush in H. apply bind_Ok in H as (p1 & H & [= <-]). etrans; [exact (FlushLoop_queued _ _ _ H)|].
    by apply queued_same.
  - done.
Qed.

(** ** The callbacks *)

(** The command for a queue of pins. *)
Definition unpin_sql (pins : list Z) : list Z :=
  concat (map (fun pin => str "UNPIN " ++ fmt_d pin ++ str "; ") pins).

Lemma UnpinSql_ok cap buf pins sql : UnpinSql cap buf pins = Ok sql -> sql = buf ++ unpin_sql pins.
Proof.
  revert buf. induction pins as [|pin pins IH]; intros buf H.
  { injection H as <-. by rewrite app_nil_r. }
  cbn [UnpinSql] in H. cbv zeta in H. destruct (_ <=? _); [done|]. apply IH in H as ->.
  unfold unpin_sql. cbn [map concat]. by rewrite <- app_assoc.
Qed.

(** A step other than a successful write: the queue only grows, and stays
    watched. *)
Lemma do_pending a c c' :
  pc_do a c c' -> a <> ActWrite true -> forall p, p ∈ pendingUnpins (pt c) -> p ∈ pendingUnpins (pt c').
Proof.
  intros H Ha p Hp. destruct a as [[]|consumed drained|]; try done; cbn in H.
  - destruct H as (_ & q & sql & H & ->). unfold PTOnWrite in H. apply bind_Ok in H as (? & _ & [= <- _]). done.
  - destruct H as (q & H & ->). unfold PTOnRead in H. destruct consumed, drained; injection H as <-; done.
  - destruct (qd_pending _ _ (client_queued c c' H)) as [q ->]. apply elem_of_app. by left.
Qed.

Lemma do_watched a c c' : pc_do a c c' -> watched (pt c) -> watched (pt c').
Proof.
  intros H W. destruct a as [sent|consumed drained|]; cbn in H.
  - destruct H as (_ & q & sql & H & ->). unfold PTOnWrite in H. apply bind_Ok in H as (? & _ & [= <- _]).
    destruct sent; intros Hne; [done|by left].
  - destruct H as (q & H & ->). unfold PTOnRead in H. destruct consumed, drained; injection H as <-; try done.
    intros Hne. left. cbn in *. rewrite bool_decide_eq_false_2 by done. apply orb_true_r.
  - by apply (client_queued c c' H).
Qed.

(** Once its results are read, a batch is followed by the next one. *)
Lemma drained_marked c c' p :
  pc_do (ActRead true true) c c' -> p ∈ pendingUnpins (pt c) -> marked (pt c') = true.
Proof.
  intros (q & [= <-] & ->) Hp. cbn. rewrite bool_decide_eq_false_2; [apply orb_true_r|].
  intros E. by rewrite E in Hp; apply elem_of_nil in Hp.
Qed.

(** ** Liveness *)

Section Live.

Context (run : nat -> Pincushion) (act : nat -> pc_act).

Hypothesis run_ok : forall n, pc_do (act n) (run n) (run (S n)).

Definition sends_at (p : Z) (m : nat) : Prop :=
  act m = ActWrite true /\ p ∈ pendingUnpins (pt (run m)).

(** A queued pin is sent by the next successful write. *)
Lemma next_write p k n :
  p ∈ pendingUnpins (pt (run n)) -> act (n + k)%nat = ActWrite true -> exists m, (n <= m)%nat /\ sends_at p m.
Proof using run_ok.
  revert n. induction k as [|k IH]; intros n Hp Hk.
  { rewrite Nat.add_0_r in Hk. by exists n. }
  destruct (decide (act n = ActWrite true)) as [Ha|Ha]; [by exists n|].
  destruct (IH (S n)) as (m & Hm & Hs); [|by rewrite <- Nat.add_succ_comm in Hk|exists m; split; [lia|done]].
  exact (do_pending _ _ _ (run_ok n) Ha p Hp).
Qed.

(** Until results are drained it is sent, or waits in the queue. *)
Lemma until_drained p k n :
  p ∈ pendingUnpins (pt (run n)) -> act (n + k)%nat = ActRead true true ->
  (exists m, (n <= m)%nat /\ sends_at p m) \/
  (p ∈ pendingUnpins (pt (run (S (n + k)))) /\ marked (pt (run (S (n + k)))) = true).
Proof using run_ok.
  revert n. induction k as [|k IH]; intros n Hp Hk.
  { rewrite Nat.add_0_r in *. pose proof (run_ok n) as H. rewrite Hk in H. right.
    split; [by apply (do_pending _ _ _ H)|by apply (drained_marked _ _ p H)]. }
  destruct (decide (act n = ActWrite true)) as [Ha|Ha]; [left; by exists n|].
  rewrite <- Nat.add_succ_comm in *.
  destruct (IH (S n) (do_pending _ _ _ (run_ok n) Ha p Hp) Hk) as [(m & Hm & Hs)|H]; [|by right].
  left. exists m. split; [lia|done].
Qed.

Lemma always_watched n : watched (pt (run 0%nat)) -> watched (pt (run n)).
Proof using run_ok. intros W. induction n as [|n IH]; [done|]. exact (do_watched _ _ _ (run_ok n) IH). Qed.

End Live.

(** C9: every pin that leaves the table is unpinned in the database, in every
    infinite run in which the environment is fair: a connection that has been
    marked writable is written to successfully some time, and the results of a
    batch in flight are drained some time.  Then each pin that is queued at some
    point is sent at some later point, in a command that has [UNPIN] for exactly
    the pins of the queue; however calls of clients, flushes and failed writes
    interleave, no pin waits in the queue for ever. *)
Theorem pins_are_unpinned (maxStaleness : timeval) (run : nat -> Pincushion) (act : nat -> pc_act)
    (n : nat) (p : Z)
    (Hinit : run 0%nat = Pincushion_Setup maxStaleness)
    (Hrun : forall i, pc_do (act i) (run i) (run (S i)))
    (Hwrite : forall i, marked (pt (run i)) = true -> exists j, (i <= j)%nat /\ act j = ActWrite true)
    (Hread : forall i, unpinInFlight (pt (run i)) = true -> exists j, (i <= j)%nat /\ act j = ActRead true true)
    (Hp : p ∈ pendingUnpins (pt (run n))) :
  exists m, (n <= m)%nat /\ act m = ActWrite true /\ p ∈ pendingUnpins (pt (run m)) /\
    PTOnWrite (pt (run m)) true true = Ok (pt (run (S m)), unpin_sql (pendingUnpins (pt (run m)))) /\
    pendingUnpins (pt (run (S m))) = [].
Proof.
  assert (H : exists m, (n <= m)%nat /\ sends_at run act p m).
  { destruct (always_watched run act Hrun n) as [Hm|Hf].
    - rewrite Hinit. intros E. by destruct E.
    - intros E. by rewrite E in Hp; apply elem_of_nil in Hp.
    - destruct (Hwrite n Hm) as (j & Hj & Ha). apply (next_write run act Hrun p (j - n)); [done|].
      by replace (n + (j - n))%nat with j by lia.
    - destruct (Hread n Hf) as (j & Hj & Ha). replace j with (n + (j - n))%nat in Ha by lia.
      destruct (until_drained run act Hrun p (j - n) n Hp Ha) as [?|[Hp' Hm]]; [done|].
      destruct (Hwrite _ Hm) as (i & Hi & Hw). set (n' := S (n + (j - n))) in *.
      destruct (next_write run act Hrun p (i - n') n' Hp') as (m & Hle & Hs);
        [by replace (n' + (i - n'))%nat with i by lia|]. exists m. split; [lia|done]. }
  destruct H as (m & Hle & Ha & Hpm). exists m. pose proof (Hrun m) as H. rewrite Ha in H.
  destruct H as (_ & q & sql & E & ->). cbn [pt]. rewrite E. unfold PTOnWrite in E.
  apply bind_Ok in E as (sql' & ->%UnpinSql_ok & [= <- <-]). by split_and!.
Qed.

(** ** Example *)

(** A connection brings pin 5 and closes two minutes later; its pin is queued,
    sent and the results are read. *)
Definition ok_pc (c : Pincushion) (m : res Pincushion) : Pincushion :=
  match m with Ok c' => c' | Fault _ => c end.

Definition ex_closed : Pincushion := ok_pc ex_pc1 (HandleConnectionClosed ex_pc1 1 (Timeval 220 0)).

Definition ex_sent : Pincushion :=
  match PTOnWrite (pt ex_closed) true true with
  | Ok (p, _) => PC p (hostdata ex_closed)
  | Fault _ => ex_closed
  end.

Definition ex_read : Pincushion :=
  match PTOnRead (pt ex_sent) true true true with
  | Ok p => PC p (hostdata ex_sent)
  | Fault _ => ex_sent
  end.

Definition ex_run (n : nat) : Pincushion :=
  match n with
  | 0 => ex_pc0 | 1 => ex_pc1 | 2 => ex_closed | 3 => ex_sent | _ => ex_read
  end%nat.

Definition ex_act (n : nat) : pc_act :=
  match n with
  | 2 => ActWrite true | 3 => ActRead true true | _ => ActClient
  end%nat.

Lemma ex_run_ok n : pc_do (ex_act n) (ex_run n) (ex_run (S n)).
Proof.
  destruct n as [|[|[|[|n]]]]; cbn [ex_act ex_run pc_do].
  - apply (do_insert _ 1 (Timeval 100 0) 5 (Timeval 100 0)). vm_compute. reflexivity.
  - apply (do_close _ 1 (Timeval 220 0)). vm_compute. reflexivity.
  - split; [vm_compute; reflexivity|]. eexists _, _. split; [vm_compute; reflexivity|]. vm_compute. reflexivity.
  - eexists. split; [vm_compute; reflexivity|]. vm_compute. reflexivity.
  - apply do_nothing.
Qed.

Lemma ex_run_write i : marked (pt (ex_run i)) = true -> exists j, (i <= j)%nat /\ ex_act j = ActWrite true.
Proof.
  intros H. exists 2%nat. split; [|done]. destruct i as [|[|[|[|i]]]]; try lia; by vm_compute in H.
Qed.

Lemma ex_run_read i : unpinInFlight (pt (ex_run i)) = true -> exists j, (i <= j)%nat /\ ex_act j = ActRead true true.
Proof.
  intros H. exists 3%nat. split; [|done]. destruct i as [|[|[|[|i]]]]; try lia; by vm_compute in H.
Qed.

Lemma pins_are_unpinned_witness :
  exists m, (2 <= m)%nat /\ ex_act m = ActWrite true /\ 5 ∈ pendingUnpins (pt (ex_run m)) /\
    PTOnWrite (pt (ex_run m)) true true =
      Ok (pt (ex_run (S m)), unpin_sql (pendingUnpins (pt (ex_run m)))) /\
    pendingUnpins (pt (ex_run (S m))) = [].
Proof.
  apply (pins_are_unpinned (Timeval 60 0) ex_run ex_act 2 5 eq_refl ex_run_ok ex_run_write ex_run_read).
  apply (bool_decide_eq_true_1 _). vm_compute. reflexivity.
Defined.
