(* ===== verification/PincushionMain.v ===== *)
(** * The pincushion process (src/pincushion/pincushion.c, checkdb.c)

    Signals, the table of handlers, start-up, and the check of the database's
    settings.  A message on a connection goes through the dispatcher to the
    handlers; [messages_are_steps] shows that the handlers take exactly the steps
    of [Pincushion.pc_step], about which its theorems are. *)

From S2P Require Import Prelude CLib CText Interval Timeval PinSet IOBuf RPC Wire RpcSetup PinTable Pincushion.

Definition PINCUSHION_REQ_SIG : Z := 83.

(** What one message needs of the environment: the times of the clock, and the
    answers of [send]. *)
Record pc_env : Type := PcEnv {
  pe_now : timeval;
  pe_now' : timeval;
  pe_sends : list send_result
}.

(** What the signals do besides changing the table. *)
Inductive pc_action : Type := PrintTable | InterruptSelf.

Record pc_proc : Type := PcProc {
  pp_state : Pincushion;
  pp_turn : nat;
  pp_events : list event;
  pp_actions : list pc_action
}.

(** ** Signals *)

(** SIGUSR1 is 10, SIGUSR2 12, SIGINT 2. *)
Definition HandleSig (c : Pincushion) (args : IOBuf_t) : res (Pincushion * list pc_action) :=
  '(args, sig) ← IOBuf_GetInt32 args;
  IOBuf_GetEOB args;;
  if sig =? 10 then Ok (c, [PrintTable])
  else if sig =? 12 then p ← PT_Flush (pt c); Ok (PC p (hostdata c), [])
  else if sig =? 2 then Ok (c, [InterruptSelf])
  else Ok (c, []).

Section Process.

Context (realloc : Z -> Z -> Z) (env : nat -> pc_env).

Definition SendSigRPC (sig_client : host_t) (sig : Z) (sends : list send_result) : res (host_t * list event) :=
  '(h, _, evs) ← RPC_call realloc sig_client PINCUSHION_REQ_SIG [F32 sig] sends;
  Ok (h, evs).

(** The handlers on the connection [id]. *)
Definition on_request (id : Z) : @handler_t pc_proc := fun p h args =>
  let e := env (pp_turn p) in
  '(c, h, evs) ← HandleRequest realloc (pp_state p) id h args (pe_sends e) (pe_now e) (pe_now' e);
  Ok (PcProc c (S (pp_turn p)) (pp_events p ++ evs) (pp_actions p), h).

Definition on_update (f : Pincushion -> IOBuf_t -> timeval -> res (Pincushion * list pc_action)) :
    @handler_t pc_proc := fun p h args =>
  '(c, acts) ← f (pp_state p) args (pe_now (env (pp_turn p)));
  Ok (PcProc c (S (pp_turn p)) (pp_events p) (pp_actions p ++ acts), h).

Definition RegisterHandlers (id : Z) (table : list (option (@handler_t pc_proc))) :
    res (list (option (@handler_t pc_proc))) :=
  table ← RPCS_RegisterHandler table PINCUSHION_REQ_REQUEST (on_request id);
  table ← RPCS_RegisterHandler table PINCUSHION_REQ_INSERT
    (on_update (fun c args now => c ← HandleInsert c id args now; Ok (c, [])));
  table ← RPCS_RegisterHandler table PINCUSHION_REQ_RELEASE
    (on_update (fun c args now => c ← HandleRelease c id now; Ok (c, [])));
  RPCS_RegisterHandler table PINCUSHION_REQ_SIG (on_update (fun c args _ => HandleSig c args)).

(** [db]: whether the database accepts the connection. *)
Definition Pincushion_Start (id : Z) (table : list (option (@handler_t pc_proc))) (db : bool)
    (maxStaleness : timeval) (sockets : option (Z * Z)) (e1 e2 : prepare_env) (r : resources_t) :
    res (pc_proc * list (option (@handler_t pc_proc)) * (host_t * host_t) * resources_t) :=
  if negb db then Fault PanicCall
  else
    let c := Pincushion_Setup maxStaleness in
    table ← RegisterHandlers id table;
    '(r, ends) ← RPC_Pair sockets e1 e2 r;
    match ends with
    | None => Fault PanicCall
    | Some hosts => Ok (PcProc c 0 [] [], table, hosts, r)
    end.

End Process.

(** ** The settings of the database *)

(** [exec] answers a command with the rows of its first column, if it succeeds;
    [malloc] is whether there is room for the [strlen(setting) + 6] bytes of the
    command. *)
Definition CheckDBSetting (exec : list Z -> option (list (list Z))) (malloc : bool) (setting value : list Z) : res unit :=
  if negb malloc then Fault PanicCall
  else
    let buf := str "show " ++ setting in
    if strlen setting + 6 <? strlen buf + 1 then Fault OutOfBounds
    else
      match exec buf with
      | Some [val] => if bool_decide (val = value) then Ok tt else Fault PanicCall
      | _ => Fault PanicCall
      end.

Definition CheckDB_CheckSettings (exec : list Z -> option (list (list Z))) (malloc : bool) : res unit :=
  CheckDBSetting exec malloc (str "default_transaction_isolation") (str "serializable");;
  CheckDBSetting exec malloc (str "enable_bitmapscan") (str "off");;
  CheckDBSetting exec malloc (str "enable_tidscan") (str "off").

Lemma CheckDBSetting_ok exec setting value :
  CheckDBSetting exec true setting value = Ok tt <-> exec (str "show " ++ setting) = Some [value].
Proof.
  unfold CheckDBSetting. cbn [negb].
  replace (strlen setting + 6 <? strlen (str "show " ++ setting) + 1) with false.
  2: { symmetry. apply Z.ltb_ge. unfold strlen. rewrite length_app, Nat2Z.inj_add. change (Z.of_nat (length (str "show "))) with 5. lia. }
  destruct (exec _) as [[|v [|w l]]|]; try (split; [discriminate|intros [=]]).
  case_bool_decide as H; [subst; done|]. split; [discriminate|]. intros [= ->]. done.
Qed.

(** The pincushion starts exactly when the database runs serializable, without
    bitmap scans and scans by tuple identifier. *)
Lemma CheckSettings_ok exec :
  CheckDB_CheckSettings exec true = Ok tt <->
  exec (str "show default_transaction_isolation") = Some [str "serializable"] /\
  exec (str "show enable_bitmapscan") = Some [str "off"] /\ exec (str "show enable_tidscan") = Some [str "off"].
Proof.
  unfold CheckDB_CheckSettings. rewrite <- (CheckDBSetting_ok exec (str "default_transaction_isolation")).
  rewrite <- (CheckDBSetting_ok exec (str "enable_bitmapscan")), <- (CheckDBSetting_ok exec (str "enable_tidscan")).
  destruct (CheckDBSetting _ _ (str "default_transaction_isolation") _) as [[]|]; [|split; [discriminate|intros [? _]; discriminate]].
  destruct (CheckDBSetting _ _ (str "enable_bitmapscan") _) as [[]|]; [|split; [discriminate|intros (_ & ? & _); discriminate]].
  cbn [mbind res_bind]. split; [done|by intros (_ & _ & ?)].
Qed.

(** ** Messages are steps *)

Section Steps.

Context (realloc : Z -> Z -> Z) (env : nat -> pc_env) (id : Z).

(** What the steps ask for: fewer connections than references can count. *)
Definition message_fine (p : pc_proc) : Prop := Z.of_nat (size (hostdata (pp_state p))) < 2 ^ 31 - 1.

Lemma request_steps p p' h h' v given : message_fine p ->
  on_request realloc env id p h v = Ok (p', h') ->
  exists given', rtc pc_step (pp_state p, given) (pp_state p', given').
Proof.
  intros Hs E. unfold on_request in E. apply bind_Ok in E as ([[c1 h1] evs] & E & E2). injection E2 as <- <-.
  unfold HandleRequest in E. apply bind_Ok in E as ([a1 sec] & _ & E). apply bind_Ok in E as ([a2 usec] & _ & E).
  apply bind_Ok in E as (u & _ & E). apply bind_Ok in E as ([c2 l] & E1 & E).
  apply bind_Ok in E as ([[h2 err] evs2] & _ & E). cbn [pp_state].
  pose proof (step_request _ given id _ _ c2 l E1 Hs) as S1.
  destruct (err <? 0).
  - apply bind_Ok in E as ([h3 evs3] & _ & E). apply bind_Ok in E as (c3 & E3 & E). injection E as <- _ _.
    eexists. eapply rtc_l; [exact S1|]. apply rtc_once. by eapply step_close.
  - injection E as <- _ _. eexists. apply rtc_once. exact S1.
Qed.

Lemma insert_steps p p' h h' v given : message_fine p ->
  on_update env (fun c args now => c ← HandleInsert c id args now; Ok (c, [])) p h v = Ok (p', h') ->
  exists given', rtc pc_step (pp_state p, given) (pp_state p', given').
Proof.
  intros Hs E. unfold on_update in E. apply bind_Ok in E as ([c1 acts] & E & E2).
  apply bind_Ok in E as (c2 & E & E3). injection E3 as <- <-. injection E2 as <- <-. cbn [pp_state] in *.
  unfold HandleInsert in E. apply bind_Ok in E as ([a1 sec] & _ & E). apply bind_Ok in E as ([a2 usec] & _ & E).
  apply bind_Ok in E as ([a3 pin] & _ & E). apply bind_Ok in E as (u & _ & E).
  destruct (hostdata (pp_state p) !! id) as [hi|] eqn:Eh.
  - destruct (hasReferencedPin hi) eqn:Er; eexists; apply rtc_once.
    + by eapply step_insert_other.
    + eapply step_insert; [|done|exact E]. unfold no_reference. by rewrite Eh.
  - eexists. apply rtc_once. eapply step_insert; [|done|exact E]. unfold no_reference. by rewrite Eh.
Qed.

Lemma release_steps p p' h h' v given :
  on_update env (fun c args now => c ← HandleRelease c id now; Ok (c, [])) p h v = Ok (p', h') ->
  exists given', rtc pc_step (pp_state p, given) (pp_state p', given').
Proof.
  intros E. unfold on_update in E. apply bind_Ok in E as ([c1 acts] & E & E2).
  apply bind_Ok in E as (c2 & E & E3). injection E3 as <- <-. injection E2 as <- <-.
  eexists. apply rtc_once. by eapply step_release.
Qed.

Lemma signal_steps p p' h h' v given :
  on_update env (fun c args _ => HandleSig c args) p h v = Ok (p', h') ->
  exists given', rtc pc_step (pp_state p, given) (pp_state p', given').
Proof.
  intros E. unfold on_update in E. apply bind_Ok in E as ([c1 acts] & E & E2). injection E2 as <- <-.
  unfold HandleSig in E. apply bind_Ok in E as ([a1 sig] & _ & E). apply bind_Ok in E as (u & _ & E).
  exists given. cbn [pp_state]. destruct (sig =? 10); [injection E as <- _; apply rtc_refl|].
  destruct (sig =? 12).
  - apply bind_Ok in E as (q & Eq & E). injection E as <- _. apply rtc_once. by apply step_flush.
  - destruct (sig =? 2); injection E as <- _; apply rtc_refl.
Qed.

Lemma register_four {H} (f1 f2 f3 f4 : H) :
  exists t, (t ← RPCS_RegisterHandler RPCS_InitHandlers PINCUSHION_REQ_REQUEST f1;
             t ← RPCS_RegisterHandler t PINCUSHION_REQ_INSERT f2;
             t ← RPCS_RegisterHandler t PINCUSHION_REQ_RELEASE f3;
             RPCS_RegisterHandler t PINCUSHION_REQ_SIG f4) = Ok t /\
    forall rpc f, handler_at t rpc = Ok (Some f) -> f = f1 \/ f = f2 \/ f = f3 \/ f = f4.
Proof.
  eexists. split; [vm_compute; reflexivity|]. intros rpc f Hf.
  unfold handler_at in Hf. destruct (rpc <? 0); [done|]. destruct (_ !! Z.to_nat rpc) as [o|] eqn:E; [|done].
  injection Hf as ->. apply list_elem_of_lookup_2 in E. repeat (apply elem_of_cons in E as [E|E]; [try discriminate; injection E; auto|]).
  by apply not_elem_of_nil in E.
Qed.

(** Every message that the table of the pincushion dispatches, on any connection,
    takes the pincushion through steps of [pc_step]. *)
Lemma messages_are_steps table rpc f p p' h h' v given :
  RegisterHandlers realloc env id RPCS_InitHandlers = Ok table -> handler_at table rpc = Ok (Some f) ->
  f p h v = Ok (p', h') -> message_fine p ->
  exists given', rtc pc_step (pp_state p, given) (pp_state p', given').
Proof.
  intros Ht Hf E Hm. unfold RegisterHandlers in Ht.
  edestruct @register_four as (t & Et & Hall). rewrite Ht in Et. injection Et as <-.
  destruct (Hall rpc f Hf) as [-> | [-> | [-> | ->]]].
  - by eapply request_steps.
  - by eapply insert_steps.
  - by eapply release_steps.
  - by eapply signal_steps.
Qed.

End Steps.
