(* ===== verification/DblList.v ===== *)
(** * Doubly-linked lists (src/lib/tmpl/dbllist.h)

    The list template threads its links through a field of the containers.
    Containers are addresses (0 is NULL), and the field is a map from addresses
    to links, all zero for a container that was never linked.  [PARANOID] is on,
    so a link records whether it is in the list.  The pointer operations are
    shown to implement operations on sequences of containers. *)

From S2P Require Import Prelude.

(** ** Data and operations *)

Record LIST_Link_t : Type := Link {
  prev : Z;
  next : Z;
  linked : bool
}.

Definition NULL_LINK : LIST_Link_t := Link 0 0 false.

Record LIST_t : Type := LIST {
  head : Z;
  tail : Z;
  links : gmap Z LIST_Link_t
}.

(** [v->FIELD] *)
Definition link (ls : gmap Z LIST_Link_t) (v : Z) : LIST_Link_t := default NULL_LINK (ls !! v).

Definition set_prev (v p : Z) (ls : gmap Z LIST_Link_t) : gmap Z LIST_Link_t :=
  <[v := Link p (next (link ls v)) (linked (link ls v))]> ls.
Definition set_next (v n : Z) (ls : gmap Z LIST_Link_t) : gmap Z LIST_Link_t :=
  <[v := Link (prev (link ls v)) n (linked (link ls v))]> ls.
Definition set_linked (v : Z) (b : bool) (ls : gmap Z LIST_Link_t) : gmap Z LIST_Link_t :=
  <[v := Link (prev (link ls v)) (next (link ls v)) b]> ls.

Definition LIST_Init (l : LIST_t) : LIST_t := LIST 0 0 (links l).

Definition LIST_PushFront (l : LIST_t) (v : Z) : LIST_t :=
  let ls := set_linked v true (links l) in
  let ls := set_prev v 0 ls in
  let ls := set_next v (head l) ls in
  let ls := if head l =? 0 then ls else set_prev (head l) v ls in
  LIST v (if tail l =? 0 then v else tail l) ls.

Definition LIST_PushBack (l : LIST_t) (v : Z) : LIST_t :=
  let ls := set_linked v true (links l) in
  let ls := set_prev v (tail l) ls in
  let ls := set_next v 0 ls in
  let ls := if tail l =? 0 then ls else set_next (tail l) v ls in
  LIST (if head l =? 0 then v else head l) v ls.

Definition LIST_Unlink (l : LIST_t) (v : Z) : res LIST_t :=
  Assert (linked (link (links l) v));;
  let ls := set_linked v false (links l) in
  let n := next (link ls v) in
  let p := prev (link ls v) in
  let '(ls, tail) := if n =? 0 then (ls, p) else (set_prev n p ls, tail l) in
  let '(ls, head) := if p =? 0 then (ls, n) else (set_next p n ls, head l) in
  Ok (LIST head tail ls).

#[global] Arguments set_prev : simpl never.
#[global] Arguments set_next : simpl never.
#[global] Arguments set_linked : simpl never.

(** ** Meaning *)

(** The element before / after a segment whose neighbours are [p] and [q]. *)
Definition hd_or (q : Z) (l : list Z) : Z := default q (hd_error l).
Definition last_or (p : Z) (l : list Z) : Z := default p (last l).

#[global] Arguments last_or : simpl never.

(** The links of segment [l] between neighbours [p] and [q]. *)
Fixpoint chain (ls : gmap Z LIST_Link_t) (p : Z) (l : list Z) (q : Z) : Prop :=
  match l with
  | [] => True
  | x :: l => link ls x = Link p (hd_or q l) true /\ chain ls x l q
  end.

(** The list holds exactly the containers [l], from head to tail. *)
Record is_list (d : LIST_t) (l : list Z) : Prop := {
  il_head : head d = hd_or 0 l;
  il_tail : tail d = last_or 0 l;
  il_chain : chain (links d) 0 l 0;
  il_nodup : NoDup l;
  il_null : 0 ∉ l;
  il_out : forall x, x ∉ l -> linked (link (links d) x) = false
}.

(** ** Lemmas *)

Lemma link_insert ls v w k : link (<[v := k]> ls) w = if decide (v = w) then k else link ls w.
Proof. unfold link. by case_decide as E; [subst; rewrite lookup_insert_eq|rewrite lookup_insert_ne]. Qed.

Lemma link_set_prev ls v p w :
  link (set_prev v p ls) w =
  if decide (v = w) then Link p (next (link ls w)) (linked (link ls w)) else link ls w.
Proof. unfold set_prev. rewrite link_insert. by case_decide; subst. Qed.

Lemma link_set_next ls v n w :
  link (set_next v n ls) w =
  if decide (v = w) then Link (prev (link ls w)) n (linked (link ls w)) else link ls w.
Proof. unfold set_next. rewrite link_insert. by case_decide; subst. Qed.

Lemma link_set_linked ls v b w :
  link (set_linked v b ls) w =
  if decide (v = w) then Link (prev (link ls w)) (next (link ls w)) b else link ls w.
Proof. unfold set_linked. rewrite link_insert. by case_decide; subst. Qed.

(** Evaluates the links after a sequence of updates at known addresses. *)
Ltac links :=
  repeat (rewrite ?link_set_prev, ?link_set_next, ?link_set_linked;
          case_decide; try congruence; cbn).

Lemma chain_frame ls v k p l q : v ∉ l -> chain ls p l q -> chain (<[v := k]> ls) p l q.
Proof.
  revert p; induction l as [|x l IH]; intros p Hv; [done|]. cbn. intros [H1 H2].
  rewrite link_insert. rewrite decide_False by set_solver. split; [done|].
  apply IH; [set_solver|done].
Qed.

Lemma hd_or_app q l1 l2 : hd_or q (l1 ++ l2) = hd_or (hd_or q l2) l1.
Proof. by destruct l1. Qed.

Lemma last_or_cons p x l : last_or p (x :: l) = last_or x l.
Proof. unfold last_or. rewrite last_cons. by destruct (last l). Qed.

Lemma last_or_snoc p l x : last_or p (l ++ [x]) = x.
Proof. unfold last_or. by rewrite last_snoc. Qed.

Lemma last_or_app p l1 x l2 : last_or p (l1 ++ x :: l2) = last_or x l2.
Proof.
  revert p; induction l1 as [|y l1 IH]; intros p; cbn; [apply last_or_cons|].
  by rewrite last_or_cons.
Qed.

Lemma chain_app ls p l1 l2 q :
  chain ls p (l1 ++ l2) q <-> chain ls p l1 (hd_or q l2) /\ chain ls (last_or p l1) l2 q.
Proof.
  revert p; induction l1 as [|x l1 IH]; intros p; cbn.
  - unfold last_or; cbn. tauto.
  - rewrite IH, hd_or_app, last_or_cons. tauto.
Qed.

Lemma hd_or_cases l : (l = [] /\ hd_or 0 l = 0) \/ exists x l', l = x :: l' /\ hd_or 0 l = x.
Proof. destruct l as [|x l]; [by left|right; by exists x, l]. Qed.

Lemma last_or_cases l : (l = [] /\ last_or 0 l = 0) \/ exists x l', l = l' ++ [x] /\ last_or 0 l = x.
Proof.
  destruct l as [|x l _] using rev_ind; [by left|right]. exists x, l.
  by rewrite last_or_snoc.
Qed.

Lemma Init_is_list : is_list (LIST 0 0 ∅) [].
Proof. split; try done; [constructor|set_solver]. Qed.

Lemma is_list_linked d l x : is_list d l -> linked (link (links d) x) = true <-> x ∈ l.
Proof.
  intros H. split.
  - intros Hl. destruct (decide (x ∈ l)) as [|Hn]; [done|].
    rewrite (il_out d l H x Hn) in Hl. done.
  - intros (l1 & l2 & E)%list_elem_of_split. pose proof (il_chain d l H) as HC.
    rewrite E, chain_app in HC. destruct HC as [_ [-> _]]. done.
Qed.

Lemma PushFront_ok d l v :
  is_list d l -> v ∉ l -> v <> 0 -> is_list (LIST_PushFront d v) (v :: l).
Proof.
  intros [Hh Ht Hc Hn H0 Ho] Hv Hv0. unfold LIST_PushFront.
  destruct (hd_or_cases l) as [[-> E]|(x & l' & -> & E)]; rewrite Hh, E in *.
  - change (last_or 0 []) with 0 in Ht. rewrite Ht. cbn. split; cbn; try done.
    + split; [|done]. by links.
    + apply NoDup_singleton.
    + intros ?%list_elem_of_singleton. congruence.
    + intros y [Hy _]%not_elem_of_cons. links. apply Ho. by apply not_elem_of_nil.
  - apply not_elem_of_cons in Hv as [Hvx Hv], H0 as [Hx H0].
    rewrite (proj2 (Z.eqb_neq x 0)) by done.
    assert (Ht0 : tail d <> 0).
    { rewrite Ht. destruct (last_or_cases (x :: l')) as [[? _]|(y & l2 & E2 & ->)]; [done|].
      intros ->. assert (0 ∈ x :: l') as [|]%elem_of_cons; [|congruence|done].
      rewrite E2. apply elem_of_app. right. by apply list_elem_of_singleton. }
    rewrite (proj2 (Z.eqb_neq _ 0)) by done.
    pose proof (proj1 (proj1 (NoDup_cons _ _) Hn)) as Hnx.
    split; cbn; try done.
    + cbn in Hc. destruct Hc as [Hx1 Hx2]. split_and!.
      * by links.
      * links. by rewrite Hx1.
      * do 4 (apply chain_frame; [done|]). done.
    + apply NoDup_cons. split; [|done]. by apply not_elem_of_cons.
    + by repeat (apply not_elem_of_cons; split).
    + intros y [Hy Hyl]%not_elem_of_cons. pose proof (Ho y Hyl).
      apply not_elem_of_cons in Hyl as [? ?]. by links.
Qed.

Lemma chain_last_next ls p l x q q' :
  x ∉ l -> chain ls p (l ++ [x]) q -> chain (set_next x q' ls) p (l ++ [x]) q'.
Proof.
  intros Hx. rewrite !chain_app. cbn. intros [H1 [H2 _]]. split_and!; try done.
  - by apply chain_frame.
  - links. by rewrite H2.
Qed.

Lemma PushBack_ok d l v :
  is_list d l -> v ∉ l -> v <> 0 -> is_list (LIST_PushBack d v) (l ++ [v]).
Proof.
  intros [Hh Ht Hc Hn H0 Ho] Hv Hv0. unfold LIST_PushBack.
  destruct (last_or_cases l) as [[-> E]|(x & l' & -> & E)]; rewrite Ht, E in *.
  - rewrite Hh. cbn. split; cbn; try done.
    + split; [|done]. by links.
    + apply NoDup_singleton.
    + intros ?%list_elem_of_singleton. congruence.
    + intros y [Hy _]%not_elem_of_cons. links. apply Ho. by apply not_elem_of_nil.
  - apply not_elem_of_app in Hv as [Hv [Hvx _]%not_elem_of_cons], H0 as [H0 [Hx _]%not_elem_of_cons].
    rewrite (proj2 (Z.eqb_neq x 0)) by done.
    assert (Hh0 : head d <> 0).
    { rewrite Hh. destruct l' as [|y l']; cbn; [done|]. apply not_elem_of_cons in H0. naive_solver. }
    rewrite (proj2 (Z.eqb_neq _ 0)) by done.
    pose proof (proj1 (NoDup_app _ _) Hn) as (_ & Hnx & _).
    assert (Hnx' : x ∉ l').
    { intros Hin. apply (Hnx x Hin). by apply list_elem_of_singleton. }
    split; cbn; try done.
    + rewrite Hh. by destruct l'.
    + by rewrite last_or_snoc.
    + rewrite (chain_app _ _ (l' ++ [x])), last_or_snoc. cbn. split_and!; try done; [|by links].
      apply (chain_last_next _ _ _ _ 0); [done|].
      do 3 (apply chain_frame; [rewrite not_elem_of_app, not_elem_of_cons;
        split_and!; try done; apply not_elem_of_nil|]). done.
    + apply NoDup_app. split_and!; [done| |apply NoDup_singleton].
      intros y Hy ->%list_elem_of_singleton. apply elem_of_app in Hy as [|?%list_elem_of_singleton]; done.
    + rewrite !not_elem_of_app, !not_elem_of_cons. split_and!; try done; apply not_elem_of_nil.
    + intros y [Hyl [Hy _]%not_elem_of_cons]%not_elem_of_app. pose proof (Ho y Hyl).
      apply not_elem_of_app in Hyl as [? [? _]%not_elem_of_cons]. by links.
Qed.

(** Unlinking an element that is not in the list is caught. *)
Lemma Unlink_absent d l v : is_list d l -> v ∉ l -> LIST_Unlink d v = Fault AssertFail.
Proof. intros H Hv. unfold LIST_Unlink. by rewrite (il_out d l H v Hv). Qed.

Lemma Unlink_split d l1 v l2 :
  is_list d (l1 ++ v :: l2) ->
  exists d', LIST_Unlink d v = Ok d' /\ is_list d' (l1 ++ l2).
Proof.
  intros H. unfold LIST_Unlink.
  rewrite (proj2 (is_list_linked d _ v H)) by (apply elem_of_app; right; left).
  destruct H as [Hh Ht Hc Hn H0 Ho]. cbn [Assert mbind res_bind].
  apply chain_app in Hc as [Hc1 [Hv Hc2]]. cbn in Hc1.
  assert (Lv : link (set_linked v false (links d)) v = Link (last_or 0 l1) (hd_or 0 l2) false).
  { links. by rewrite Hv. }
  rewrite Lv. cbn [next prev].
  rewrite NoDup_app, NoDup_cons in Hn. destruct Hn as (N1 & N12 & Nv & N2).
  apply not_elem_of_app in H0 as [Z1 [Zv Z2]%not_elem_of_cons].
  assert (Nv1 : v ∉ l1) by (intros Hin; by apply (N12 v Hin); left).
  assert (D : forall x, x ∈ l1 -> x ∉ l2) by (intros x Hin Hin2; apply (N12 x Hin); by right).
  assert (C1 : chain (set_linked v false (links d)) 0 l1 v) by (by apply chain_frame).
  assert (C2 : chain (set_linked v false (links d)) v l2 0) by (by apply chain_frame).
  assert (Hout : forall x, x ∉ l1 ++ l2 -> linked (link (set_linked v false (links d)) x) = false).
  { intros x [Hx1 Hx2]%not_elem_of_app. destruct (decide (x = v)) as [->|Hne]; [by rewrite Lv|].
    links. apply Ho. rewrite not_elem_of_app, not_elem_of_cons. done. }
  assert (ND : NoDup (l1 ++ l2)) by (by apply NoDup_app).
  assert (Z12 : 0 ∉ l1 ++ l2) by (by apply not_elem_of_app).
  set (ls := set_linked v false (links d)) in *.
  destruct (hd_or_cases l2) as [[-> E2]|(y & l2' & -> & E2)];
  destruct (last_or_cases l1) as [[-> E1]|(x & l1' & -> & E1)]; rewrite E1, E2.
  - eexists; split; [done|]. split; done.
  - apply not_elem_of_app in Z1 as [Z1 [Zx _]%not_elem_of_cons].
    apply NoDup_app in N1 as (N1 & Nx & _).
    rewrite (proj2 (Z.eqb_neq x 0)) by done. cbn.
    eexists; split; [done|]. rewrite app_nil_r in *. split; cbn; try done.
    + rewrite Hh. rewrite !hd_or_app. by destruct l1'.
    + apply (chain_last_next _ _ _ _ v); [|done].
      intros Hin. apply (Nx x Hin). by apply list_elem_of_singleton.
    + intros w Hw. pose proof (Hout w Hw). apply not_elem_of_app in Hw as [? [? _]%not_elem_of_cons].
      by links.
  - cbn in C2. destruct C2 as [Cy C2]. apply not_elem_of_cons in Z2 as [Zy Z2].
    apply NoDup_cons in N2 as [Ny N2].
    rewrite (proj2 (Z.eqb_neq y 0)) by done. cbn.
    eexists; split; [done|]. split; cbn; try done.
    + split; [links; by rewrite Cy|]. by apply chain_frame.
    + intros w Hw. pose proof (Hout w Hw). apply not_elem_of_cons in Hw as [? ?]. by links.
  - cbn in C2. destruct C2 as [Cy C2]. apply not_elem_of_cons in Z2 as [Zy Z2].
    apply NoDup_cons in N2 as [Ny N2].
    apply not_elem_of_app in Z1 as [Z1 [Zx _]%not_elem_of_cons].
    apply NoDup_app in N1 as (N1 & Nx & _).
    assert (x ∉ l1') by (intros Hin; apply (Nx x Hin); by apply list_elem_of_singleton).
    assert (Dx : x ∉ y :: l2') by (apply D; apply elem_of_app; right; by left).
    pose proof (proj1 (not_elem_of_cons _ _ _) Dx) as [Dxy Dx2].
    assert (Dy : y ∉ l1' ++ [x]) by (intros Hin; apply (D y Hin); by left).
    rewrite (proj2 (Z.eqb_neq x 0)), (proj2 (Z.eqb_neq y 0)) by done. cbn.
    eexists; split; [done|]. split; cbn; try done.
    + rewrite Hh. rewrite !hd_or_app. by destruct l1'.
    + rewrite Ht. by rewrite !last_or_app, last_or_cons.
    + rewrite chain_app, last_or_snoc. cbn. split_and!.
      * apply (chain_last_next _ _ _ _ v); [done|]. by apply chain_frame.
      * links. by rewrite Cy.
      * by do 2 (apply chain_frame; [done|]).
    + intros w Hw. pose proof (Hout w Hw).
      apply not_elem_of_app in Hw as [[? [? _]%not_elem_of_cons]%not_elem_of_app [? ?]%not_elem_of_cons].
      by links.
Qed.

Lemma filter_out {A} `{EqDecision A} (l : list A) x : x ∉ l -> filter (fun y => y <> x) l = l.
Proof.
  induction l as [|y l IH]; [done|]. intros [Hy Hl]%not_elem_of_cons.
  rewrite filter_cons_True by congruence. by rewrite IH.
Qed.

Lemma Unlink_ok d l v :
  is_list d l -> v ∈ l ->
  exists d', LIST_Unlink d v = Ok d' /\ is_list d' (filter (fun y => y <> v) l).
Proof.
  intros H (l1 & l2 & ->)%list_elem_of_split.
  pose proof (il_nodup _ _ H) as (_ & N12 & [Nv _]%NoDup_cons)%NoDup_app.
  assert (v ∉ l1) by (intros Hin; by apply (N12 v Hin); left).
  rewrite filter_app, filter_cons_False, !filter_out by (done || naive_solver).
  by apply Unlink_split.
Qed.

Lemma is_list_tail d l : is_list d l -> tail d = 0 <-> l = [].
Proof.
  intros H. rewrite (il_tail _ _ H).
  destruct (last_or_cases l) as [[-> ?]|(x & l' & -> & ->)]; [done|].
  pose proof (il_null _ _ H) as [_ [? _]%not_elem_of_cons]%not_elem_of_app.
  split; [congruence|]. intros E. by destruct l'.
Qed.

Lemma is_list_tail_in d l : is_list d l -> tail d <> 0 -> tail d ∈ l.
Proof.
  intros H. rewrite (il_tail _ _ H).
  destruct (last_or_cases l) as [[-> ?]|(x & l' & -> & ->)]; [done|].
  intros _. apply elem_of_app. right. by left.
Qed.

Lemma chain_unique ls p l l' : 0 ∉ l -> 0 ∉ l' -> hd_or 0 l = hd_or 0 l' ->
  chain ls p l 0 -> chain ls p l' 0 -> l = l'.
Proof.
  revert p l'. induction l as [|x l IH]; intros p [|y l'] H0 H0' Hh; try done.
  - apply not_elem_of_cons in H0' as [? _]. cbn in Hh. congruence.
  - apply not_elem_of_cons in H0 as [? _]. cbn in Hh. congruence.
  - apply not_elem_of_cons in H0 as [_ H0], H0' as [_ H0']. cbn in Hh. subst y.
    cbn. intros [E1 C1] [E2 C2]. f_equal. rewrite E1 in E2. injection E2 as E2.
    by apply (IH x).
Qed.

Lemma is_list_unique d l l' : is_list d l -> is_list d l' -> l = l'.
Proof.
  intros [Hh _ Hc _ H0 _] [Hh' _ Hc' _ H0' _].
  apply (chain_unique (links d) 0); congruence.
Qed.

(** ** Properties *)

(** The pointer operations of the list template implement sequences:
    pushing adds a container at the front or the back, unlinking removes
    exactly that container and keeps the order of the others, and unlinking a
    container that is not in the list is caught by the assertion. *)
Lemma LIST_refines_sequences d l v :
  is_list d l -> v <> 0 ->
  (v ∉ l -> is_list (LIST_PushFront d v) (v :: l) /\
            is_list (LIST_PushBack d v) (l ++ [v]) /\
            LIST_Unlink d v = Fault AssertFail) /\
  (v ∈ l -> exists d', LIST_Unlink d v = Ok d' /\
            is_list d' (filter (fun y => y <> v) l)).
Proof.
  intros H Hv. split.
  - intros Hn. split_and!; [by apply PushFront_ok|by apply PushBack_ok|by apply (Unlink_absent d l)].
  - by apply Unlink_ok.
Qed.
