(* ===== verification/Reactor.v ===== *)
(** * The event loop (src/lib/reactor.c, reactor.h)

    The servers wait with [select] and call the callbacks of the connections that
    are ready.  A callback may add entries, mark entries writable and close any
    entry, its own included; an entry that is closed while its callback runs is
    freed by the loop.

    Callbacks are programs: trees of calls to the reactor, with the state [W] of
    everything else threaded through.  Entries are addresses; an entry that has been
    freed is not in [r_mem], and every access to it is a fault. *)

From S2P Require Import Prelude DblList.

(** ** Data *)

Definition FD_SETSIZE : Z := 1024.

Section Reactor.

Context {W : Type}.

(** What a callback does next. *)
Inductive prog : Type :=
| PRet (w : W)
| PAdd (w : W) (fd : Z) (onReadable onWritable : option (Z -> Z -> W -> prog)) (k : option Z -> W -> prog)
| PMark (w : W) (entry : Z) (k : W -> prog)
| PClose (w : W) (entry : Z) (k : W -> prog)
| PLoopIfEager (w : W) (k : W -> prog).

(** A callback gets its entry and the descriptor; [data] is part of the
    function.  Where a callback is expected, NULL is [None]. *)
Definition Reactor_Handler_t : Type := Z -> Z -> W -> prog.

Record Reactor_Entry_t : Type := REntry {
  re_fd : Z;
  re_onReadable : option Reactor_Handler_t;
  re_onWritable : option Reactor_Handler_t;
  re_deferFree : bool
}.

Record Reactor_t : Type := Reactor {
  recvSet : gset Z;
  sendSet : gset Z;
  r_entries : LIST_t;
  eagerMode : bool;
  r_mem : gmap Z Reactor_Entry_t
}.

Definition set_recvSet (x : gset Z) (r : Reactor_t) : Reactor_t :=
  Reactor x (sendSet r) (r_entries r) (eagerMode r) (r_mem r).
Definition set_sendSet (x : gset Z) (r : Reactor_t) : Reactor_t :=
  Reactor (recvSet r) x (r_entries r) (eagerMode r) (r_mem r).
Definition set_eagerMode (x : bool) (r : Reactor_t) : Reactor_t :=
  Reactor (recvSet r) (sendSet r) (r_entries r) x (r_mem r).
Definition set_entry (e : Z) (x : Reactor_Entry_t) (r : Reactor_t) : Reactor_t :=
  Reactor (recvSet r) (sendSet r) (r_entries r) (eagerMode r) (<[e := x]> (r_mem r)).
Definition set_fd (fd : Z) (x : Reactor_Entry_t) : Reactor_Entry_t :=
  REntry fd (re_onReadable x) (re_onWritable x) (re_deferFree x).
Definition set_deferFree (b : bool) (x : Reactor_Entry_t) : Reactor_Entry_t :=
  REntry (re_fd x) (re_onReadable x) (re_onWritable x) b.

(** ** Operations *)

(** What [select] reports: an error, or the descriptors that are ready. *)
Inductive select_result : Type :=
| SelectFailed
| SelectReady (recvReadySet sendReadySet : gset Z).

(** [malloc w used]: the address [malloc] returns when the addresses [used] are
    in use, 0 when there is none.  [select] is asked with the two sets and whether it
    is to wait. *)
Context (malloc : W -> gset Z -> Z) (select : W -> gset Z -> gset Z -> bool -> W * select_result).

(** The macros on descriptor sets, which are arrays of [FD_SETSIZE] bits. *)
Definition fd_bit (fd : Z) : res Z := if (0 <=? fd) && (fd <? FD_SETSIZE) then Ok fd else Fault OutOfBounds.
Definition FD_SET (fd : Z) (s : gset Z) : res (gset Z) := fd ← fd_bit fd; Ok ({[fd]} ∪ s).
Definition FD_CLR (fd : Z) (s : gset Z) : res (gset Z) := fd ← fd_bit fd; Ok (s ∖ {[fd]}).
Definition FD_ISSET (fd : Z) (s : gset Z) : res bool := fd ← fd_bit fd; Ok (bool_decide (fd ∈ s)).

(** The static reactor after [Reactor_InitOnce]. *)
Definition Reactor_Init : Reactor_t := Reactor ∅ ∅ (LIST_Init (LIST 0 0 ∅)) false ∅.

Definition Reactor_Add (w : W) (r : Reactor_t) (fd : Z) (onReadable onWritable : option Reactor_Handler_t) :
    res (Reactor_t * option Z) :=
  let e := malloc w (dom (r_mem r)) in
  if e =? 0 then Ok (r, None)
  else if fd <? 0 then Fault PanicCall
  else
    recv ← FD_SET fd (recvSet r);
    Ok (Reactor recv (sendSet r) (LIST_PushFront (r_entries r) e) (eagerMode r)
          (<[e := REntry fd onReadable onWritable false]> (r_mem r)), Some e).

Definition Reactor_EagerMode (r : Reactor_t) : Reactor_t := set_eagerMode true r.

Definition Reactor_Free (r : Reactor_t) (e : Z) : res Reactor_t :=
  l ← LIST_Unlink (r_entries r) e;
  Ok (Reactor (recvSet r) (sendSet r) l (eagerMode r) (delete e (r_mem r))).

Definition Reactor_Close (r : Reactor_t) (e : Z) : res Reactor_t :=
  x ← deref (r_mem r !! e);
  if re_fd x =? -1 then Fault PanicCall
  else
    recv ← FD_CLR (re_fd x) (recvSet r);
    send ← FD_CLR (re_fd x) (sendSet r);
    let r := set_entry e (set_fd (-1) x) (set_sendSet send (set_recvSet recv r)) in
    if negb (re_deferFree x) then Reactor_Free r e else Ok r.

Section Loop.

(** [loop] is [ReactorLoop(true)], for the calls out of callbacks. *)
Context (loop : Reactor_t -> W -> res (Reactor_t * W)).

Definition Reactor_LoopIfEager (r : Reactor_t) (w : W) : res (Reactor_t * W) :=
  if eagerMode r then loop r w else Ok (r, w).

(** The reactor is reached through the entry again after the nested loop. *)
Definition Reactor_MarkWritable (r : Reactor_t) (w : W) (e : Z) : res (Reactor_t * W) :=
  x ← deref (r_mem r !! e);
  if re_fd x =? -1 then Fault PanicCall
  else
    send ← FD_SET (re_fd x) (sendSet r);
    let r := set_sendSet send r in
    if eagerMode r then
      '(r, w) ← loop (set_eagerMode false r) w;
      deref (r_mem r !! e);;
      Ok (set_eagerMode true r, w)
    else Ok (r, w).

(** A callback runs to its end. *)
Fixpoint exec (p : prog) (r : Reactor_t) : res (Reactor_t * W) :=
  match p with
  | PRet w => Ok (r, w)
  | PAdd w fd onReadable onWritable k =>
    '(r, e) ← Reactor_Add w r fd onReadable onWritable;
    exec (k e w) r
  | PMark w e k =>
    '(r, w) ← Reactor_MarkWritable r w e;
    exec (k w) r
  | PClose w e k =>
    r ← Reactor_Close r e;
    exec (k w) r
  | PLoopIfEager w k =>
    '(r, w) ← Reactor_LoopIfEager r w;
    exec (k w) r
  end.

Definition link_next (r : Reactor_t) (e : Z) : Z := next (link (links (r_entries r)) e).

(** [entry->deferFree = b] *)
Definition defer (b : bool) (r : Reactor_t) (e : Z) : res Reactor_t :=
  x ← deref (r_mem r !! e);
  Ok (set_entry e (set_deferFree b x) r).

(** After a callback: an entry it has closed is freed; [Some] is the next one. *)
Definition AfterCallback (r : Reactor_t) (e : Z) : res (Reactor_t * option Z) :=
  x ← deref (r_mem r !! e);
  if re_fd x =? -1 then
    let next := link_next r e in
    r ← Reactor_Free r e;
    Ok (r, Some next)
  else Ok (r, None).

(** The two callbacks of the entry; [Some] when it is gone. *)
Definition CallReadable (r : Reactor_t) (w : W) (e : Z) (recvReadySet : gset Z) : res (Reactor_t * W * option Z) :=
  x ← deref (r_mem r !! e);
  b ← FD_ISSET (re_fd x) recvReadySet;
  if (b : bool) then
    h ← deref (re_onReadable x);
    '(r, w) ← exec (h e (re_fd x) w) r;
    '(r, next) ← AfterCallback r e;
    Ok (r, w, next)
  else Ok (r, w, None).

Definition CallWritable (r : Reactor_t) (w : W) (e : Z) (sendReadySet : gset Z) : res (Reactor_t * W * option Z) :=
  x ← deref (r_mem r !! e);
  b ← FD_ISSET (re_fd x) sendReadySet;
  if (b : bool) then
    send ← FD_CLR (re_fd x) (sendSet r);
    h ← deref (re_onWritable x);
    '(r, w) ← exec (h e (re_fd x) w) (set_sendSet send r);
    '(r, next) ← AfterCallback r e;
    Ok (r, w, next)
  else Ok (r, w, None).

(** The body of the loop over the entries; returns the next entry. *)
Definition Visit (r : Reactor_t) (w : W) (e : Z) (recvReadySet sendReadySet : gset Z) : res (Reactor_t * W * Z) :=
  x ← deref (r_mem r !! e);
  if re_fd x =? -1 then Ok (r, w, link_next r e)
  else
    r ← defer true r e;
    '(r, w, gone) ← CallReadable r w e recvReadySet;
    match gone with
    | Some next => Ok (r, w, next)
    | None =>
      '(r, w, gone) ← CallWritable r w e sendReadySet;
      match gone with
      | Some next => Ok (r, w, next)
      | None =>
        r ← defer false r e;
        Ok (r, w, link_next r e)
      end
    end.

Fixpoint Pass (fuel : nat) (r : Reactor_t) (w : W) (e : Z) (recvReadySet sendReadySet : gset Z) :
    res (Reactor_t * W) :=
  match fuel with
  | O => Fault NoFuel
  | S fuel =>
    if e =? 0 then Ok (r, w)
    else
      '(r, w, e) ← Visit r w e recvReadySet sendReadySet;
      Pass fuel r w e recvReadySet sendReadySet
  end.

(** One turn of [while (1)]; [true] when the loop returns. *)
Definition Turn (untilStable : bool) (r : Reactor_t) (w : W) : res (Reactor_t * W * bool) :=
  let '(w, s) := select w (recvSet r) (sendSet r) (negb untilStable) in
  match s with
  | SelectFailed => Ok (r, w, false)
  | SelectReady recvReadySet sendReadySet =>
    if untilStable && bool_decide (recvReadySet = ∅ /\ sendReadySet = ∅) then Ok (r, w, true)
    else
      '(r, w) ← Pass (S (size (r_mem r))) r w (head (r_entries r)) recvReadySet sendReadySet;
      Ok (r, w, false)
  end.

End Loop.

(** The number of turns, nested ones included, is bounded by the fuel. *)
Fixpoint ReactorLoop (fuel : nat) (untilStable : bool) (r : Reactor_t) (w : W) : res (Reactor_t * W) :=
  match fuel with
  | O => Fault NoFuel
  | S fuel =>
    '(r, w, over) ← Turn (ReactorLoop fuel true) untilStable r w;
    if (over : bool) then Ok (r, w) else ReactorLoop fuel untilStable r w
  end.

Definition Reactor_Loop (fuel : nat) (r : Reactor_t) (w : W) : res (Reactor_t * W) := ReactorLoop fuel false r w.

End Reactor.

#[global] Arguments prog : clear implicits.
#[global] Arguments Reactor_t : clear implicits.
#[global] Arguments Reactor_Entry_t : clear implicits.
#[global] Arguments Reactor_Handler_t : clear implicits.
