(* ===== verification/ReactorSpec.v ===== *)
(** * What the event loop does

    The specification of a turn of the loop knows nothing of lists, of freeing or
    of deferring: there are open entries, descriptors to be watched for writing, and
    a queue of the entries the turn has still to serve.  The loop of Reactor.v is
    shown to implement it, without touching freed memory, for callbacks that use only
    entries that are open. *)

From S2P Require Import Prelude DblList Reactor.

(** ** Specification *)

Section Spec.

Context {W : Type}.

Record AEntry : Type := AE {
  a_fd : Z;
  a_onReadable : option (Reactor_Handler_t W);
  a_onWritable : option (Reactor_Handler_t W)
}.

(** [a_order]: the open entries, the newest first. *)
Record AReactor : Type := AR {
  a_open : gmap Z AEntry;
  a_want : gset Z;
  a_order : list Z;
  a_todo : list Z
}.

Definition a_add (e : Z) (x : AEntry) (a : AReactor) : AReactor :=
  AR (<[e := x]> (a_open a)) (a_want a) (e :: a_order a) (a_todo a).
Definition a_mark (x : AEntry) (a : AReactor) : AReactor :=
  AR (a_open a) ({[a_fd x]} ∪ a_want a) (a_order a) (a_todo a).
Definition a_unmark (x : AEntry) (a : AReactor) : AReactor :=
  AR (a_open a) (a_want a ∖ {[a_fd x]}) (a_order a) (a_todo a).
Definition a_close (e : Z) (x : AEntry) (a : AReactor) : AReactor :=
  AR (delete e (a_open a)) (a_want a ∖ {[a_fd x]})
     (filter (fun y => y <> e) (a_order a)) (filter (fun y => y <> e) (a_todo a)).
Definition a_serve (todo : list Z) (a : AReactor) : AReactor :=
  AR (a_open a) (a_want a) (a_order a) todo.

(** The callback of entry [cur] runs to its end. *)
Inductive runs (cur : Z) : prog W -> AReactor -> AReactor -> W -> Prop :=
| runs_ret w a :
    runs cur (PRet w) a a w
| runs_add w fd onR onW k e a a' w' :
    e <> 0 -> e <> cur -> a_open a !! e = None ->
    runs cur (k (Some e) w) (a_add e (AE fd onR onW) a) a' w' ->
    runs cur (PAdd w fd onR onW k) a a' w'
| runs_no_memory w fd onR onW k a a' w' :
    runs cur (k None w) a a' w' ->
    runs cur (PAdd w fd onR onW k) a a' w'
| runs_mark w e x k a a' w' :
    a_open a !! e = Some x ->
    runs cur (k w) (a_mark x a) a' w' ->
    runs cur (PMark w e k) a a' w'
| runs_close w e x k a a' w' :
    a_open a !! e = Some x ->
    runs cur (k w) (a_close e x a) a' w' ->
    runs cur (PClose w e k) a a' w'
| runs_loop w k a a' w' :
    runs cur (k w) a a' w' ->
    runs cur (PLoopIfEager w k) a a' w'.

(** The callback is called when the descriptor is ready, and only then. *)
Definition answers (e fd : Z) (h : option (Reactor_Handler_t W)) (ready : gset Z)
    (a0 a : AReactor) (w : W) (a' : AReactor) (w' : W) : Prop :=
  if decide (fd ∈ ready) then exists f, h = Some f /\ runs e (f e fd w) a a' w'
  else a' = a0 /\ w' = w.

(** A turn serves the entries in the queue in order; a closed entry leaves the
    queue. *)
Inductive serves (recvReady sendReady : gset Z) : AReactor -> W -> AReactor -> W -> Prop :=
| serves_done a w :
    a_todo a = [] ->
    serves recvReady sendReady a w a w
| serves_closed e x todo a w a1 w1 a' w' :
    a_todo a = e :: todo -> a_open a !! e = Some x ->
    answers e (a_fd x) (a_onReadable x) recvReady (a_serve todo a) (a_serve todo a) w a1 w1 ->
    a_open a1 !! e = None ->
    serves recvReady sendReady a1 w1 a' w' ->
    serves recvReady sendReady a w a' w'
| serves_next e x todo a w a1 w1 a2 w2 a' w' :
    a_todo a = e :: todo -> a_open a !! e = Some x ->
    answers e (a_fd x) (a_onReadable x) recvReady (a_serve todo a) (a_serve todo a) w a1 w1 ->
    a_open a1 !! e = Some x ->
    answers e (a_fd x) (a_onWritable x) sendReady a1 (a_unmark x a1) w1 a2 w2 ->
    serves recvReady sendReady a2 w2 a' w' ->
    serves recvReady sendReady a w a' w'.

(** *** Well-behaved callbacks *)

(** [I w o] relates the state of the callbacks to the open entries; [Hd]
    are the callbacks the program uses. *)
Context (I : W -> gmap Z AEntry -> Prop) (Hd : Reactor_Handler_t W -> Prop).

(** A callback uses open entries only, and adds new descriptors; an entry it
    marks writable has a callback for that. *)
Fixpoint prog_ok (o : gmap Z AEntry) (p : prog W) : Prop :=
  match p with
  | PRet w => I w o
  | PAdd w fd onR onW k =>
    0 <= fd < FD_SETSIZE /\ map_Forall (fun _ x => a_fd x <> fd) o /\
    (exists f, onR = Some f /\ Hd f) /\ (forall f, onW = Some f -> Hd f) /\
    (forall e, o !! e = None -> prog_ok (<[e := AE fd onR onW]> o) (k (Some e) w)) /\
    prog_ok o (k None w)
  | PMark w e k => (exists x f, o !! e = Some x /\ a_onWritable x = Some f) /\ prog_ok o (k w)
  | PClose w e k => (exists x, o !! e = Some x) /\ prog_ok (delete e o) (k w)
  | PLoopIfEager w k => prog_ok o (k w)
  end.

(** A callback is called for the entries that have it. *)
Definition handler_ok (f : Reactor_Handler_t W) : Prop :=
  forall w o e x, I w o -> o !! e = Some x -> a_onReadable x = Some f \/ a_onWritable x = Some f ->
    prog_ok o (f e (a_fd x) w).

(** ** The representation *)

(** [cur] is the entry whose callbacks run; [l1] are the entries in front. *)
Definition layout (l1 : list Z) (cur : option Z) (a : AReactor) : list Z := l1 ++ option_list cur ++ a_todo a.

Record repr (cur : option Z) (r : Reactor_t W) (a : AReactor) (l1 : list Z) : Prop := {
  rp_list : is_list (r_entries r) (layout l1 cur a);
  rp_dom : forall e, is_Some (r_mem r !! e) <-> e ∈ layout l1 cur a;
  rp_order : a_order a = filter (fun e => is_Some (a_open a !! e)) (layout l1 cur a);
  rp_eager : eagerMode r = false;
  rp_recv : forall fd, fd ∈ recvSet r <-> exists e x, a_open a !! e = Some x /\ a_fd x = fd;
  rp_send : sendSet r = a_want a;
  rp_want : forall fd, fd ∈ a_want a ->
    exists e x f, a_open a !! e = Some x /\ a_fd x = fd /\ a_onWritable x = Some f;
  rp_open : forall e x, a_open a !! e = Some x ->
    r_mem r !! e = Some (REntry (a_fd x) (a_onReadable x) (a_onWritable x) (bool_decide (cur = Some e)));
  rp_entry : forall e x, a_open a !! e = Some x ->
    0 <= a_fd x < FD_SETSIZE /\ (exists f, a_onReadable x = Some f /\ Hd f) /\
    (forall f, a_onWritable x = Some f -> Hd f);
  rp_closed : forall e x, r_mem r !! e = Some x -> a_open a !! e = None ->
    cur = Some e /\ re_fd x = -1 /\ re_deferFree x = true;
  rp_inj : forall e1 e2 x1 x2, a_open a !! e1 = Some x1 -> a_open a !! e2 = Some x2 ->
    a_fd x1 = a_fd x2 -> e1 = e2
}.

End Spec.

#[global] Arguments AEntry : clear implicits.
#[global] Arguments AReactor : clear implicits.

(** ** The operations keep the representation *)

Section Operations.

Context {W : Type} (Hd : Reactor_Handler_t W -> Prop) (malloc : W -> gset Z -> Z).

Hypothesis malloc_fresh : forall w used, malloc w used ∉ used.

Notation repr := (repr Hd).

Lemma fd_bit_ok fd : 0 <= fd < FD_SETSIZE -> fd_bit fd = Ok fd.
Proof. intros H. unfold fd_bit. by rewrite (proj2 (Z.leb_le 0 fd)), (proj2 (Z.ltb_lt fd _)) by lia. Qed.

Lemma open_not_closed_fd fd : 0 <= fd < FD_SETSIZE -> (fd =? -1) = false.
Proof. intros H. apply Z.eqb_neq. lia. Qed.

Lemma layout_close l1 cur e x (a : AReactor W) :
  cur <> Some e ->
  layout (filter (fun y => y <> e) l1) cur (a_close e x a) = filter (fun y => y <> e) (layout l1 cur a).
Proof.
  intros Hc. unfold layout. rewrite !filter_app. cbn [a_todo a_close]. do 2 f_equal.
  destruct cur as [c|]; [|done]. change (option_list (Some c)) with [c]. by rewrite filter_cons_True by congruence.
Qed.

Lemma layout_close_cur l1 e x (a : AReactor W) :
  NoDup (layout l1 (Some e) a) -> layout l1 (Some e) (a_close e x a) = layout l1 (Some e) a.
Proof.
  unfold layout. cbn. intros (_ & _ & [He _]%NoDup_cons)%NoDup_app. by rewrite filter_out.
Qed.

Lemma order_close (o : gmap Z (AEntry W)) e (L : list Z) :
  filter (fun y => y <> e) (filter (fun y => is_Some (o !! y)) L) =
  filter (fun y => is_Some (delete e o !! y)) L.
Proof.
  rewrite list_filter_filter. apply list_filter_iff. intros y.
  destruct (decide (e = y)) as [->|Hn].
  - rewrite lookup_delete_eq. split; [by intros []|by intros []].
  - rewrite lookup_delete_ne by done. naive_solver.
Qed.

Lemma order_close_free (o : gmap Z (AEntry W)) e (L : list Z) :
  filter (fun y => is_Some (delete e o !! y)) (filter (fun y => y <> e) L) =
  filter (fun y => is_Some (delete e o !! y)) L.
Proof.
  rewrite list_filter_filter. apply list_filter_iff. intros y. split; [by intros []|].
  intros H. split; [done|]. intros ->. rewrite lookup_delete_eq in H. by destruct H.
Qed.

(** The facts on descriptors after an entry is closed. *)
Lemma close_recv cur r a l1 e x :
  repr cur r a l1 -> a_open a !! e = Some x ->
  forall fd, fd ∈ recvSet r ∖ {[a_fd x]} <-> exists e' x', delete e (a_open a) !! e' = Some x' /\ a_fd x' = fd.
Proof.
  intros H E fd. rewrite elem_of_difference, (rp_recv _ _ _ _ _ H), elem_of_singleton. split.
  - intros [(e' & x' & E' & Hf) Hn]. exists e', x'. split; [|done].
    apply lookup_delete_Some. split; [|done]. intros ->. congruence.
  - intros (e' & x' & [Hne E']%lookup_delete_Some & Hf). split; [by exists e', x'|].
    intros ->. apply Hne. by apply (rp_inj _ _ _ _ _ H e e' x x').
Qed.

Lemma close_want cur r a l1 e x :
  repr cur r a l1 -> a_open a !! e = Some x ->
  forall fd, fd ∈ a_want a ∖ {[a_fd x]} ->
    exists e' x' f, delete e (a_open a) !! e' = Some x' /\ a_fd x' = fd /\ a_onWritable x' = Some f.
Proof.
  intros H E fd [Hw Hn%not_elem_of_singleton]%elem_of_difference.
  destruct (rp_want _ _ _ _ _ H _ Hw) as (e' & x' & f & E' & Hf & Ho).
  exists e', x', f. split_and!; [|done|done]. apply lookup_delete_Some. split; [|done].
  intros ->. congruence.
Qed.

Lemma delete_in {A} (m : gmap Z A) e e' x : delete e m !! e' = Some x -> m !! e' = Some x /\ e' <> e.
Proof. by intros [? ?]%lookup_delete_Some. Qed.

Lemma Close_ok cur r a l1 e x :
  repr cur r a l1 -> a_open a !! e = Some x ->
  exists r' l1', Reactor_Close r e = Ok r' /\ repr cur r' (a_close e x a) l1'.
Proof using Type.
  intros H E. unfold Reactor_Close.
  rewrite (rp_open _ _ _ _ _ H _ _ E). cbn [deref]. rewrite bind_ret_l. cbn [re_fd re_deferFree].
  destruct (rp_entry _ _ _ _ _ H _ _ E) as [Hfd _].
  rewrite open_not_closed_fd by done. unfold FD_CLR. rewrite fd_bit_ok, !bind_ret_l by done.
  pose proof (close_recv _ _ _ _ _ _ H E) as Hrecv. pose proof (close_want _ _ _ _ _ _ H E) as Hwant.
  pose proof H as [Hl Hdm Ho He _ Hs _ Hop Hen Hcl Hin].
  assert (Hen' : forall e' x', delete e (a_open a) !! e' = Some x' -> a_open a !! e' = Some x' /\ e' <> e)
    by (intros e' x'; apply delete_in).
  case_bool_decide as Hc; cbn [negb].
  - eexists _, l1. split; [done|]. subst cur.
    pose proof (layout_close_cur l1 e x a (il_nodup _ _ Hl)) as EL.
    split; rewrite ?EL; cbn; try done.
    + intros e'. rewrite <- Hdm. destruct (decide (e = e')) as [<-|Hne].
      * rewrite lookup_insert_eq, (Hop _ _ E). split; intros _; eauto.
      * by rewrite lookup_insert_ne.
    + by rewrite Ho, order_close.
    + by rewrite Hs.
    + intros e' x' [E' Hne]%Hen'. rewrite lookup_insert_ne by done. by apply Hop.
    + intros e' x' [E' _]%Hen'. by apply (Hen e').
    + intros e' x'. rewrite lookup_insert_Some. intros [[<- <-]|[Hne E']]; [done|].
      rewrite lookup_delete_ne by done. by apply Hcl.
    + intros e1 e2 x1 x2 [E1 _]%Hen' [E2 _]%Hen'. by apply Hin.
  - unfold Reactor_Free. cbn [r_entries set_entry set_sendSet set_recvSet].
    destruct (Unlink_ok _ _ e Hl) as (d & -> & Hl').
    { apply Hdm. rewrite (Hop _ _ E). eauto. }
    rewrite bind_ret_l. eexists _, (filter (fun y => y <> e) l1). split; [done|].
    split; rewrite ?layout_close by done; cbn; try done.
    + intros e'. rewrite list_elem_of_filter, <- Hdm. destruct (decide (e = e')) as [<-|Hne].
      * rewrite lookup_delete_eq. split; [by intros []|naive_solver].
      * rewrite lookup_delete_ne, lookup_insert_ne by done. naive_solver.
    + by rewrite Ho, order_close, order_close_free.
    + by rewrite Hs.
    + intros e' x' [E' Hne]%Hen'. rewrite lookup_delete_ne, lookup_insert_ne by done. by apply Hop.
    + intros e' x' [E' _]%Hen'. by apply (Hen e').
    + intros e' x' [Hne E']%lookup_delete_Some. rewrite lookup_insert_ne in E' by done.
      rewrite lookup_delete_ne by done. by apply Hcl.
    + intros e1 e2 x1 x2 [E1 _]%Hen' [E2 _]%Hen'. by apply Hin.
Qed.

Lemma order_add (o : gmap Z (AEntry W)) e x (L : list Z) :
  e ∉ L -> filter (fun y => is_Some (<[e := x]> o !! y)) (e :: L) = e :: filter (fun y => is_Some (o !! y)) L.
Proof.
  intros He. rewrite filter_cons_True by (rewrite lookup_insert_eq; eauto). f_equal.
  apply filter_ext_in. intros y Hy. rewrite lookup_insert_ne; [done|]. by intros ->.
Qed.

(** A new entry is in front of the list: it is not served in this turn. *)
Lemma Reactor_Add_ok cur r a l1 w fd onR onW :
  repr cur r a l1 -> 0 <= fd < FD_SETSIZE -> map_Forall (fun _ x => a_fd x <> fd) (a_open a) ->
  (exists f, onR = Some f /\ Hd f) -> (forall f, onW = Some f -> Hd f) ->
  Reactor_Add malloc w r fd onR onW = Ok (r, None) \/
  exists r' e, Reactor_Add malloc w r fd onR onW = Ok (r', Some e) /\
    e <> 0 /\ e ∉ layout l1 cur a /\ a_open a !! e = None /\
    repr cur r' (a_add e (AE fd onR onW) a) (e :: l1).
Proof.
  intros H Hfd Hnew HR HW. unfold Reactor_Add. pose proof (malloc_fresh w (dom (r_mem r))) as Hm.
  set (e := malloc w (dom (r_mem r))) in *. destruct (Z.eqb_spec e 0) as [|He0]; [by left|right].
  rewrite (proj2 (Z.ltb_ge fd 0)) by lia. unfold FD_SET. rewrite fd_bit_ok, !bind_ret_l by done.
  destruct H as [Hl Hdm Ho Hea Hr Hs Hw Hop Hen Hcl Hin].
  assert (He : e ∉ layout l1 cur a) by (by rewrite <- Hdm, <- elem_of_dom).
  assert (Hn : a_open a !! e = None).
  { destruct (a_open a !! e) as [x|] eqn:E; [|done]. destruct Hm. apply elem_of_dom. eauto. }
  assert (Hne : forall e' x, a_open a !! e' = Some x -> e' <> e) by congruence.
  eexists _, e. split_and!; [done..|]. split; cbn; try done.
  - by apply PushFront_ok.
  - intros e'. destruct (decide (e = e')) as [<-|Hne'].
    + rewrite lookup_insert_eq. split; [by left|eauto].
    + rewrite lookup_insert_ne, Hdm, elem_of_cons by done. naive_solver.
  - rewrite Ho. symmetry. by apply order_add.
  - intros fd'. rewrite elem_of_union, elem_of_singleton, Hr. split.
    + intros [->|(e' & x & E & Hf)]; [exists e; eexists; by rewrite lookup_insert_eq|].
      exists e', x. rewrite lookup_insert_ne by (apply not_eq_sym; eauto). done.
    + intros (e' & x & [[<- <-]|[_ E]]%lookup_insert_Some & Hf); [by left|right; eauto].
  - intros fd' (e' & x & f & E & Hf)%Hw. exists e', x, f.
    rewrite lookup_insert_ne by (apply not_eq_sym; eauto). done.
  - intros e' x. rewrite !lookup_insert_Some. intros [[<- <-]|[Hne' E]]; [left|right; by auto].
    split; [done|]. cbn. f_equal. symmetry. apply bool_decide_eq_false. intros ->. apply He.
    apply elem_of_app. right. by left.
  - intros e' x [[<- <-]|[_ E]]%lookup_insert_Some; [done|by apply (Hen e')].
  - intros e' x [[<- <-]|[Hne' E]]%lookup_insert_Some; [by rewrite lookup_insert_eq|].
    rewrite lookup_insert_ne by done. by apply Hcl.
  - intros e1 e2 x1 x2 [[<- <-]|[_ E1]]%lookup_insert_Some [[<- <-]|[_ E2]]%lookup_insert_Some; cbn; intros E.
    + done.
    + by destruct (Hnew _ _ E2).
    + by destruct (Hnew _ _ E1).
    + by apply (Hin _ _ x1 x2).
Qed.

Lemma repr_want cur r a l1 want :
  repr cur r a l1 ->
  (forall fd, fd ∈ want -> exists e x f, a_open a !! e = Some x /\ a_fd x = fd /\ a_onWritable x = Some f) ->
  repr cur (set_sendSet want r) (AR (a_open a) want (a_order a) (a_todo a)) l1.
Proof. intros [] Hw. by split. Qed.

Lemma Mark_ok loop cur r a l1 w e x f :
  repr cur r a l1 -> a_open a !! e = Some x -> a_onWritable x = Some f ->
  exists r', Reactor_MarkWritable loop r w e = Ok (r', w) /\ repr cur r' (a_mark x a) l1.
Proof.
  intros H E Hf. unfold Reactor_MarkWritable.
  rewrite (rp_open _ _ _ _ _ H _ _ E). cbn [deref]. rewrite bind_ret_l. cbn [re_fd].
  destruct (rp_entry _ _ _ _ _ H _ _ E) as [Hfd _].
  rewrite open_not_closed_fd by done. unfold FD_SET. rewrite fd_bit_ok, !bind_ret_l by done.
  cbn [eagerMode set_sendSet]. rewrite (rp_eager _ _ _ _ _ H). eexists; split; [done|].
  rewrite (rp_send _ _ _ _ _ H). apply repr_want; [done|].
  intros fd [->%elem_of_singleton|Hw]%elem_of_union; [by exists e, x, f|by apply (rp_want _ _ _ _ _ H)].
Qed.

Lemma Unmark_ok cur r a l1 x :
  repr cur r a l1 -> repr cur (set_sendSet (sendSet r ∖ {[a_fd x]}) r) (a_unmark x a) l1.
Proof.
  intros H. rewrite (rp_send _ _ _ _ _ H). apply repr_want; [done|].
  intros fd [Hw _]%elem_of_difference. by apply (rp_want _ _ _ _ _ H).
Qed.

End Operations.

(** ** Turns of the loop *)

Section Turns.

Context {W : Type} (I : W -> gmap Z (AEntry W) -> Prop) (Hd : Reactor_Handler_t W -> Prop).
Context (malloc : W -> gset Z -> Z).

Hypothesis malloc_fresh : forall w used, malloc w used ∉ used.
Hypothesis handlers_ok : forall f, Hd f -> handler_ok I Hd f.

Context (loop : Reactor_t W -> W -> res (Reactor_t W * W)).

Notation repr := (repr Hd).
Notation exec := (exec malloc loop).

(** The queue only loses entries, and its entries and the current one do not
    change. *)
Definition keeps (c : Z) (a a' : AReactor W) : Prop :=
  a_todo a' `sublist_of` a_todo a /\
  forall e x, e ∈ c :: a_todo a' -> a_open a' !! e = Some x -> a_open a !! e = Some x.

Lemma keeps_refl c a : keeps c a a.
Proof. by split. Qed.

Lemma keeps_trans c a1 a2 a3 : keeps c a1 a2 -> keeps c a2 a3 -> keeps c a1 a3.
Proof.
  intros [S1 O1] [S2 O2]. split; [by etrans|]. intros e x He E.
  apply O1; [|by apply O2]. apply elem_of_cons in He as [->|He]; [left|right].
  eapply elem_of_sublist; eauto.
Qed.

Lemma keeps_close c e x a : keeps c a (a_close e x a).
Proof. split; [apply sublist_filter|]. by intros e' x' _ [? _]%delete_in. Qed.

Lemma keeps_add c e x a : e ∉ c :: a_todo a -> keeps c a (a_add e x a).
Proof.
  intros He. split; [done|]. intros e' x' He'. cbn. rewrite lookup_insert_ne; [done|].
  by intros ->.
Qed.

Lemma layout_cur (e : Z) l1 c (a : AReactor W) : e ∉ layout l1 (Some c) a -> e ∉ c :: a_todo a.
Proof. unfold layout. by intros [_ H]%not_elem_of_app. Qed.

Lemma callback_runs c p : forall r a l1,
  repr (Some c) r a l1 -> prog_ok I Hd (a_open a) p ->
  exists r' w' a' l1', exec p r = Ok (r', w') /\ runs c p a a' w' /\
    repr (Some c) r' a' l1' /\ I w' (a_open a') /\ keeps c a a'.
Proof using malloc_fresh.
  induction p as [w|w fd onR onW k IH|w e k IH|w e k IH|w k IH]; intros r a l1 H; cbn [prog_ok Reactor.exec].
  - intros HI. exists r, w, a, l1. split_and!; [done|constructor|done|done|apply keeps_refl].
  - intros (Hfd & Hnew & HR & HW & Hk & Hk0).
    destruct (Reactor_Add_ok Hd malloc malloc_fresh _ r a l1 w fd onR onW H Hfd Hnew HR HW)
      as [->|(r1 & e & -> & He0 & He & Hn & H1)]; rewrite bind_ret_l.
    + destruct (IH None w r a l1 H Hk0) as (r' & w' & a' & l1' & ? & ? & ? & ? & ?).
      exists r', w', a', l1'. split_and!; try done. by apply runs_no_memory.
    + destruct (IH (Some e) w r1 _ _ H1 (Hk e Hn)) as (r' & w' & a' & l1' & ? & ? & ? & ? & ?).
      apply layout_cur in He. exists r', w', a', l1'. split_and!; try done.
      * apply runs_add with e; try done. by apply not_elem_of_cons in He as [? _].
      * eapply keeps_trans; [by apply keeps_add|done].
  - intros [(x & f & E & Hf) Hk].
    destruct (Mark_ok Hd loop _ r a l1 w e x f H E Hf) as (r1 & -> & H1). rewrite bind_ret_l.
    destruct (IH w r1 _ _ H1 Hk) as (r' & w' & a' & l1' & ? & ? & ? & ? & ?).
    exists r', w', a', l1'. split_and!; try done. by apply runs_mark with x.
  - intros [(x & E) Hk].
    destruct (Close_ok Hd _ r a l1 e x H E) as (r1 & l & -> & H1). rewrite bind_ret_l.
    destruct (IH w r1 _ _ H1 Hk) as (r' & w' & a' & l1' & ? & ? & ? & ? & ?).
    exists r', w', a', l1'. split_and!; try done; [by apply runs_close with x|].
    eapply keeps_trans; [apply (keeps_close _ e x)|done].
  - intros Hk. unfold Reactor_LoopIfEager. rewrite (rp_eager _ _ _ _ _ H), bind_ret_l.
    destruct (IH w r a l1 H Hk) as (r' & w' & a' & l1' & ? & ? & ? & ? & ?).
    exists r', w', a', l1'. split_and!; try done. by apply runs_loop.
Qed.

(** *** Around the callbacks *)

Lemma next_todo r a l1 c : repr (Some c) r a l1 -> link_next r c = hd_or 0 (a_todo a).
Proof.
  intros H. pose proof (il_chain _ _ (rp_list _ _ _ _ _ H)) as HC. unfold layout in HC.
  apply chain_app in HC as [_ [E _]]. unfold link_next. by rewrite E.
Qed.

Lemma After_open r a l1 c x : repr (Some c) r a l1 -> a_open a !! c = Some x -> AfterCallback r c = Ok (r, None).
Proof.
  intros H E. unfold AfterCallback. rewrite (rp_open _ _ _ _ _ H _ _ E). cbn [deref].
  rewrite bind_ret_l. cbn [re_fd]. destruct (rp_entry _ _ _ _ _ H _ _ E) as [Hfd _].
  by rewrite open_not_closed_fd.
Qed.

Lemma After_closed r a l1 c :
  repr (Some c) r a l1 -> a_open a !! c = None ->
  exists r', AfterCallback r c = Ok (r', Some (hd_or 0 (a_todo a))) /\ repr None r' a l1.
Proof.
  intros H E. unfold AfterCallback. rewrite (next_todo _ _ _ _ H).
  destruct H as [Hl Hdm Ho He Hr Hs Hw Hop Hen Hcl Hin].
  assert (Hc : is_Some (r_mem r !! c)) by (apply Hdm, elem_of_app; right; by left).
  destruct Hc as [x Ex]. destruct (Hcl _ _ Ex E) as (_ & Hfd & _).
  rewrite Ex. cbn [deref]. rewrite bind_ret_l, Hfd. cbn [Z.eqb]. unfold Reactor_Free.
  pose proof (il_nodup _ _ Hl) as (N1 & N12 & [Nc _]%NoDup_cons)%NoDup_app.
  destruct (Unlink_split _ _ _ _ Hl) as (d & -> & Hl'). rewrite !bind_ret_l. eexists; split; [done|].
  assert (Hne : forall e x, a_open a !! e = Some x -> c <> e) by congruence.
  split; cbn; try done.
  - intros e. destruct (decide (c = e)) as [<-|Hn].
    + rewrite lookup_delete_eq. split; [by intros []|]. intros [Hc|Hc]%elem_of_app; [|done].
      exfalso. apply (N12 _ Hc). by left.
    + rewrite lookup_delete_ne, Hdm by done. unfold layout.
      cbn. rewrite !elem_of_app, elem_of_cons. naive_solver.
  - rewrite Ho. unfold layout. rewrite !filter_app. change (option_list (Some c)) with [c].
    rewrite (filter_cons_False _ c) by (rewrite E; by intros []). done.
  - intros e y Ey. rewrite lookup_delete_ne by eauto. rewrite (Hop _ _ Ey). do 2 f_equal.
    apply bool_decide_eq_false. intros [= ->]. congruence.
  - intros e y [Hn Ey]%lookup_delete_Some Ho'. destruct (Hcl _ _ Ey Ho'). congruence.
Qed.

(** Entry [e] is taken from the queue, and it is left behind when its
    callbacks are over. *)
Lemma Defer_ok r a l1 e x todo :
  repr None r a l1 -> a_todo a = e :: todo -> a_open a !! e = Some x ->
  exists r', defer true r e = Ok r' /\ repr (Some e) r' (a_serve todo a) l1.
Proof.
  intros [Hl Hdm Ho He Hr Hs Hw Hop Hen Hcl Hin] Et E. unfold defer.
  rewrite (Hop _ _ E). cbn [deref]. rewrite bind_ret_l. eexists; split; [done|].
  assert (EL : layout l1 (Some e) (a_serve todo a) = layout l1 None a) by (unfold layout; cbn; by rewrite Et).
  split; rewrite ?EL; cbn; try done.
  - intros e'. rewrite <- Hdm. destruct (decide (e = e')) as [<-|Hne].
    + rewrite lookup_insert_eq, (Hop _ _ E). split; intros _; eauto.
    + by rewrite lookup_insert_ne.
  - intros e' x' E'. destruct (decide (e = e')) as [<-|Hne].
    + rewrite lookup_insert_eq, (bool_decide_eq_true_2 (Some e = Some e)) by done. by simplify_eq.
    + rewrite lookup_insert_ne, (Hop _ _ E') by done. do 2 f_equal.
      by rewrite !bool_decide_eq_false_2 by congruence.
  - intros e' x' [[<- _]|[Hne E']]%lookup_insert_Some Hn; [congruence|].
    by destruct (Hcl _ _ E' Hn).
Qed.

Lemma Undefer_ok r a l1 e x :
  repr (Some e) r a l1 -> a_open a !! e = Some x ->
  exists r', defer false r e = Ok r' /\ link_next r' e = hd_or 0 (a_todo a) /\ repr None r' a (l1 ++ [e]).
Proof.
  intros H E. unfold defer. rewrite (rp_open _ _ _ _ _ H _ _ E). cbn [deref]. rewrite bind_ret_l.
  eexists; split; [done|]. split; [exact (next_todo _ _ _ _ H)|].
  destruct H as [Hl Hdm Ho He Hr Hs Hw Hop Hen Hcl Hin].
  assert (EL : layout (l1 ++ [e]) None a = layout l1 (Some e) a) by (unfold layout; by rewrite <- app_assoc).
  split; rewrite ?EL; cbn; try done.
  - intros e'. rewrite <- Hdm. destruct (decide (e = e')) as [<-|Hne].
    + rewrite lookup_insert_eq, (Hop _ _ E). split; intros _; eauto.
    + by rewrite lookup_insert_ne.
  - intros e' x' E'. destruct (decide (e = e')) as [<-|Hne].
    + rewrite lookup_insert_eq. by simplify_eq.
    + rewrite lookup_insert_ne, (Hop _ _ E') by done. do 2 f_equal.
      by rewrite !bool_decide_eq_false_2 by congruence.
  - intros e' x' [[<- _]|[Hne E']]%lookup_insert_Some Hn; [congruence|].
    destruct (Hcl _ _ E' Hn). congruence.
Qed.

(** *** One entry *)

(** After a callback of entry [c]: gone, with the next entry, or still open. *)
Definition outcome (c : Z) (x : AEntry W) (r : Reactor_t W) (gone : option Z) (a : AReactor W) : Prop :=
  match gone with
  | Some n => n = hd_or 0 (a_todo a) /\ a_open a !! c = None /\ exists l, repr None r a l
  | None => a_open a !! c = Some x /\ exists l, repr (Some c) r a l
  end.

Lemma Callback_ok r a l1 c x f w :
  repr (Some c) r a l1 -> a_open a !! c = Some x -> Hd f -> a_onReadable x = Some f \/ a_onWritable x = Some f -> I w (a_open a) ->
  exists r' w' gone a',
    ('(r, w) ← exec (f c (a_fd x) w) r; '(r, n) ← AfterCallback r c; Ok (r, w, n)) = Ok (r', w', gone) /\
    runs c (f c (a_fd x) w) a a' w' /\ I w' (a_open a') /\ keeps c a a' /\ outcome c x r' gone a'.
Proof.
  intros H E Hf Hx HI.
  destruct (callback_runs c (f c (a_fd x) w) r a l1 H) as (r1 & w1 & a1 & l & -> & Hrun & H1 & HI1 & HK).
  { by apply (handlers_ok f Hf w _ c x). }
  rewrite bind_ret_l. destruct (a_open a1 !! c) as [y|] eqn:Ey.
  - rewrite (After_open _ _ _ _ _ H1 Ey), bind_ret_l. exists r1, w1, None, a1. split_and!; try done.
    split; [|by exists l]. rewrite Ey, <- E. symmetry. apply HK; [by left|done].
  - destruct (After_closed _ _ _ _ H1 Ey) as (r2 & -> & H2). rewrite bind_ret_l.
    exists r2, w1, (Some (hd_or 0 (a_todo a1))), a1. split_and!; try done. by split_and!; [..|exists l].
Qed.

Lemma FD_ISSET_ok fd s : 0 <= fd < FD_SETSIZE -> FD_ISSET fd s = Ok (bool_decide (fd ∈ s)).
Proof. intros H. unfold FD_ISSET. by rewrite fd_bit_ok. Qed.

Lemma CallReadable_ok r a l1 c x w ready :
  repr (Some c) r a l1 -> a_open a !! c = Some x -> I w (a_open a) ->
  exists r' w' gone a', CallReadable malloc loop r w c ready = Ok (r', w', gone) /\
    answers c (a_fd x) (a_onReadable x) ready a a w a' w' /\ I w' (a_open a') /\ keeps c a a' /\
    outcome c x r' gone a'.
Proof.
  intros H E HI. unfold CallReadable, answers. rewrite (rp_open _ _ _ _ _ H _ _ E). cbn [deref].
  rewrite bind_ret_l. cbn [re_fd re_onReadable].
  destruct (rp_entry _ _ _ _ _ H _ _ E) as (Hfd & (f & Hf & HHf) & _).
  rewrite FD_ISSET_ok, bind_ret_l by done. destruct (decide (a_fd x ∈ ready)) as [Hrd|Hrd].
  - rewrite bool_decide_eq_true_2 by done. rewrite Hf. cbn [deref]. rewrite bind_ret_l.
    destruct (Callback_ok r a l1 c x f w H E HHf (or_introl Hf) HI) as (r' & w' & g & a' & -> & ? & ? & ? & ?).
    exists r', w', g, a'. split_and!; try done. by exists f.
  - rewrite bool_decide_eq_false_2 by done. exists r, w, None, a.
    split_and!; [done..|apply keeps_refl|]. by split; [|exists l1].
Qed.

Lemma CallWritable_ok r a l1 c x w ready :
  repr (Some c) r a l1 -> a_open a !! c = Some x -> I w (a_open a) ->
  (a_fd x ∈ ready -> is_Some (a_onWritable x)) ->
  exists r' w' gone a', CallWritable malloc loop r w c ready = Ok (r', w', gone) /\
    answers c (a_fd x) (a_onWritable x) ready a (a_unmark x a) w a' w' /\ I w' (a_open a') /\ keeps c a a' /\
    outcome c x r' gone a'.
Proof.
  intros H E HI HW. unfold CallWritable, answers. rewrite (rp_open _ _ _ _ _ H _ _ E). cbn [deref].
  rewrite bind_ret_l. cbn [re_fd re_onWritable].
  destruct (rp_entry _ _ _ _ _ H _ _ E) as (Hfd & _ & HHf).
  rewrite FD_ISSET_ok, bind_ret_l by done. destruct (decide (a_fd x ∈ ready)) as [Hrd|Hrd].
  - rewrite bool_decide_eq_true_2 by done. destruct (HW Hrd) as [f Hf]. unfold FD_CLR.
    rewrite fd_bit_ok, !bind_ret_l by done. rewrite Hf. cbn [deref]. rewrite bind_ret_l.
    destruct (Callback_ok _ _ l1 c x f w (Unmark_ok _ _ _ _ _ x H) E (HHf f Hf) (or_intror Hf) HI)
      as (r' & w' & g & a' & -> & ? & ? & ? & ?).
    exists r', w', g, a'. split_and!; try done. by exists f.
  - rewrite bool_decide_eq_false_2 by done. exists r, w, None, a.
    split_and!; [done..|apply keeps_refl|]. by split; [|exists l1].
Qed.

(** The entries in the queue that are ready for writing have a callback for it. *)
Definition can_write (ready : gset Z) (a : AReactor W) : Prop :=
  forall e x, e ∈ a_todo a -> a_open a !! e = Some x -> a_fd x ∈ ready -> is_Some (a_onWritable x).

Lemma can_write_keeps ready c a a' : keeps c a a' -> can_write ready a -> can_write ready a'.
Proof.
  intros [HS HO] HW e x He E. apply (HW e); [by eapply elem_of_sublist|].
  apply HO; [by right|done].
Qed.

Lemma repr_head_open r a l1 e todo :
  repr None r a l1 -> a_todo a = e :: todo -> exists x, a_open a !! e = Some x.
Proof.
  intros H Et. assert (is_Some (r_mem r !! e)) as [y Ey].
  { apply (rp_dom _ _ _ _ _ H), elem_of_app. right. cbn. rewrite Et. by left. }
  destruct (a_open a !! e) as [x|] eqn:E; [by exists x|].
  by destruct (rp_closed _ _ _ _ _ H _ _ Ey E).
Qed.

Lemma Visit_ok r a l1 w e todo recvReady sendReady :
  repr None r a l1 -> a_todo a = e :: todo -> I w (a_open a) -> can_write sendReady a ->
  exists r' w' a1 l, Visit malloc loop r w e recvReady sendReady = Ok (r', w', hd_or 0 (a_todo a1)) /\
    repr None r' a1 l /\ I w' (a_open a1) /\ can_write sendReady a1 /\ (length (a_todo a1) <= length todo)%nat /\
    forall a' w'', serves recvReady sendReady a1 w' a' w'' -> serves recvReady sendReady a w a' w''.
Proof.
  intros H Et HI HW. destruct (repr_head_open _ _ _ _ _ H Et) as [x E]. unfold Visit.
  rewrite (rp_open _ _ _ _ _ H _ _ E). cbn [deref]. rewrite bind_ret_l. cbn [re_fd].
  rewrite open_not_closed_fd by exact (proj1 (rp_entry _ _ _ _ _ H _ _ E)).
  destruct (Defer_ok _ _ _ _ _ _ H Et E) as (r0 & -> & H0). rewrite bind_ret_l.
  assert (HW0 : can_write sendReady (a_serve todo a)).
  { intros e' x' He'. apply (HW e'). rewrite Et. by right. }
  destruct (CallReadable_ok _ _ _ _ x w recvReady H0 E HI) as (r1 & w1 & g & a1 & -> & Hans & HI1 & HK & Hout).
  rewrite bind_ret_l. pose proof (can_write_keeps _ _ _ _ HK HW0) as HW1.
  pose proof (sublist_length _ _ (proj1 HK)) as HL1. cbn [a_todo a_serve] in HL1.
  destruct g as [n|]; cbn [outcome] in Hout.
  - destruct Hout as (-> & E1 & l & H1). exists r1, w1, a1, l. split_and!; try done.
    intros a' w''. by apply (serves_closed recvReady sendReady e x todo a w a1 w1).
  - destruct Hout as (E1 & l & H1).
    destruct (CallWritable_ok _ _ _ _ x w1 sendReady H1 E1 HI1)
      as (r2 & w2 & g & a2 & -> & Hans2 & HI2 & HK2 & Hout2).
    { apply (HW e); [rewrite Et; by left|done]. }
    rewrite bind_ret_l. pose proof (can_write_keeps _ _ _ _ HK2 HW1) as HW2.
    pose proof (sublist_length _ _ (proj1 HK2)) as HL2.
    assert (HS : forall a' w'', serves recvReady sendReady a2 w2 a' w'' -> serves recvReady sendReady a w a' w'').
    { intros a' w''. by apply (serves_next recvReady sendReady e x todo a w a1 w1). }
    destruct g as [n|]; cbn [outcome] in Hout2.
    + destruct Hout2 as (-> & E2 & l2 & H2). exists r2, w2, a2, l2. split_and!; try done. lia.
    + destruct Hout2 as (E2 & l2 & H2). destruct (Undefer_ok _ _ _ _ _ H2 E2) as (r3 & -> & En & H3).
      rewrite bind_ret_l, En. exists r3, w2, a2, (l2 ++ [e]). split_and!; try done. lia.
Qed.

Lemma Pass_ok recvReady sendReady fuel : forall r a l1 w,
  repr None r a l1 -> I w (a_open a) -> can_write sendReady a -> (length (a_todo a) < fuel)%nat ->
  exists r' w' a', Pass malloc loop fuel r w (hd_or 0 (a_todo a)) recvReady sendReady = Ok (r', w') /\
    serves recvReady sendReady a w a' w' /\ I w' (a_open a') /\ a_todo a' = [] /\ exists l, repr None r' a' l.
Proof.
  induction fuel as [|fuel IH]; intros r a l1 w H HI HW Hf; [lia|]. cbn [Pass].
  destruct (a_todo a) as [|e todo] eqn:Et.
  - exists r, w, a. split_and!; try done; [by constructor|by exists l1].
  - assert (He : e <> 0).
    { intros ->. apply (il_null _ _ (rp_list _ _ _ _ _ H)), elem_of_app. right. cbn. rewrite Et. by left. }
    change (hd_or 0 (e :: todo)) with e. rewrite (proj2 (Z.eqb_neq e 0)) by done.
    destruct (Visit_ok r a l1 w e todo recvReady sendReady H Et HI HW)
      as (r1 & w1 & a1 & l & -> & H1 & HI1 & HW1 & HL & HS).
    rewrite bind_ret_l. cbn in Hf.
    destruct (IH r1 a1 l w1 H1 HI1 HW1) as (r' & w' & a' & -> & ? & ? & ? & ?); [lia|].
    exists r', w', a'. split_and!; try done. by apply HS.
Qed.

End Turns.

(** ** The loop *)

(** Between two turns: nothing is left to serve, and every entry in memory is
    open. *)
Definition idle {W} (Hd : Reactor_Handler_t W -> Prop) (r : Reactor_t W) (a : AReactor W) : Prop :=
  a_todo a = [] /\ repr Hd None r a (a_order a).

Section Loop.

Context {W : Type} (I : W -> gmap Z (AEntry W) -> Prop) (Hd : Reactor_Handler_t W -> Prop).
Context (malloc : W -> gset Z -> Z) (select : W -> gset Z -> gset Z -> bool -> W * select_result).

(** The descriptors [select] is asked about. *)
Definition a_fds (a : AReactor W) : gset Z := map_to_set (fun _ x => a_fd x) (a_open a).

(** [n] turns of [Reactor_Loop]: the loop waits, then serves what was open when
    it woke up. *)
Inductive loops : nat -> AReactor W -> W -> AReactor W -> W -> Prop :=
| loops_0 a w :
    loops 0 a w a w
| loops_failed n a w w1 a' w' :
    select w (a_fds a) (a_want a) true = (w1, SelectFailed) ->
    loops n a w1 a' w' ->
    loops (S n) a w a' w'
| loops_turn n a w w1 recvReady sendReady a2 w2 a' w' :
    select w (a_fds a) (a_want a) true = (w1, SelectReady recvReady sendReady) ->
    serves recvReady sendReady (a_serve (a_order a) a) w1 a2 w2 ->
    loops n a2 w2 a' w' ->
    loops (S n) a w a' w'.

(** What the code is used with: [malloc] returns memory that is not in use,
    [select] reports descriptors it was asked about, waiting does not break the
    invariant of the callbacks, and the callbacks are well behaved. *)
Record environment_ok : Prop := {
  eo_malloc : forall w used, malloc w used ∉ used;
  eo_ready : forall w recv send b w' recvReady sendReady,
    select w recv send b = (w', SelectReady recvReady sendReady) -> recvReady ⊆ recv /\ sendReady ⊆ send;
  eo_waits : forall w recv send b o, I w o -> I (fst (select w recv send b)) o;
  eo_handlers : forall f, Hd f -> handler_ok I Hd f
}.

Hypothesis env_ok : environment_ok.

Lemma repr_fds cur r a l1 : repr Hd cur r a l1 -> recvSet r = a_fds a.
Proof using Type.
  intros H. apply set_eq. intros fd. unfold a_fds.
  rewrite (rp_recv _ _ _ _ _ H), elem_of_map_to_set. naive_solver.
Qed.

Lemma repr_size r a l1 : repr Hd None r a l1 -> (length (a_todo a) <= size (r_mem r))%nat.
Proof using Type.
  intros H. pose proof (il_nodup _ _ (rp_list _ _ _ _ _ H)) as HN.
  assert (E : dom (r_mem r) = list_to_set (layout l1 None a)).
  { apply set_eq. intros e. by rewrite elem_of_dom, elem_of_list_to_set, (rp_dom _ _ _ _ _ H). }
  rewrite <- size_dom, E, size_list_to_set by done. unfold layout. rewrite !length_app. cbn. lia.
Qed.

(** The list is the order of the entries when nothing is being served. *)
Lemma repr_idle r a l1 : repr Hd None r a l1 -> a_todo a = [] -> idle Hd r a.
Proof using Type.
  intros H Et. split; [done|]. assert (a_order a = l1) as ->; [|done].
  assert (EL : layout l1 None a = l1) by (unfold layout; cbn; by rewrite Et, app_nil_r).
  rewrite (rp_order _ _ _ _ _ H), EL. apply filter_id. intros e He.
  destruct (a_open a !! e) as [x|] eqn:E; [eauto|]. rewrite <- EL in He.
  apply (rp_dom _ _ _ _ _ H) in He as [y Ey]. by destruct (rp_closed _ _ _ _ _ H _ _ Ey E).
Qed.

Lemma idle_start r a : idle Hd r a -> repr Hd None r (a_serve (a_order a) a) [].
Proof using Type.
  intros [Et []]. assert (EL : layout [] None (a_serve (a_order a) a) = layout (a_order a) None a).
  { unfold layout. cbn. by rewrite Et, app_nil_r. }
  split; rewrite ?EL; done.
Qed.

Lemma Turn_serves loop untilStable r a w w1 recvReady sendReady :
  idle Hd r a -> I w (a_open a) ->
  select w (a_fds a) (a_want a) (negb untilStable) = (w1, SelectReady recvReady sendReady) ->
  untilStable = false \/ recvReady <> ∅ \/ sendReady <> ∅ ->
  exists r' w' a', Turn malloc select loop untilStable r w = Ok (r', w', false) /\
    serves recvReady sendReady (a_serve (a_order a) a) w1 a' w' /\ idle Hd r' a' /\ I w' (a_open a').
Proof.
  intros Hi HI HS Hu. pose proof (idle_start _ _ Hi) as H. destruct Hi as [Et H0]. unfold Turn.
  rewrite (repr_fds _ _ _ _ H0), (rp_send _ _ _ _ _ H0), HS.
  assert (untilStable && bool_decide (recvReady = ∅ /\ sendReady = ∅) = false) as ->.
  { destruct Hu as [->|Hu]; [done|]. rewrite bool_decide_eq_false_2 by naive_solver. apply andb_false_r. }
  assert (HI1 : I w1 (a_open a)).
  { pose proof (eo_waits env_ok w (a_fds a) (a_want a) (negb untilStable) _ HI) as HI1. by rewrite HS in HI1. }
  destruct (Pass_ok I Hd malloc (eo_malloc env_ok) (eo_handlers env_ok) loop recvReady sendReady
              (S (size (r_mem r))) r _ [] w1 H HI1) as (r' & w' & a' & EP & Hsv & HI' & Et' & l & H').
  - intros e x _ E Hfd. apply (eo_ready env_ok _ _ _ _ _ _ _ HS) in Hfd.
    destruct (rp_want _ _ _ _ _ H _ Hfd) as (e' & x' & f & E' & Hf & Hw).
    assert (e' = e) as -> by (by apply (rp_inj _ _ _ _ _ H e' e x' x)). simplify_eq. eauto.
  - pose proof (repr_size _ _ _ H). lia.
  - assert (head (r_entries r) = hd_or 0 (a_order a)) as Eh by (apply (il_head _ _ (rp_list _ _ _ _ _ H))).
    rewrite Eh. cbn [a_todo a_serve] in EP. rewrite EP, bind_ret_l.
    exists r', w', a'. split_and!; try done. by apply (repr_idle _ _ l).
Qed.

(** [n] turns of [Reactor_Loop], with [k] more to come. *)
Fixpoint Turns (k n : nat) (r : Reactor_t W) (w : W) : res (Reactor_t W * W) :=
  match n with
  | O => Ok (r, w)
  | S n => '(r, w, _) ← Turn malloc select (ReactorLoop malloc select (n + k) true) false r w; Turns k n r w
  end.

Lemma Turn_idle loop r a w :
  idle Hd r a -> I w (a_open a) ->
  exists r' w' a', Turn malloc select loop false r w = Ok (r', w', false) /\
    idle Hd r' a' /\ I w' (a_open a') /\
    forall n a'' w'', loops n a' w' a'' w'' -> loops (S n) a w a'' w''.
Proof.
  intros Hi HI. destruct (select w (a_fds a) (a_want a) true) as [w1 [|recvReady sendReady]] eqn:HS.
  - pose proof (proj2 Hi) as H. exists r, w1, a. split_and!; try done.
    + unfold Turn. cbn [negb]. by rewrite (repr_fds _ _ _ _ H), (rp_send _ _ _ _ _ H), HS.
    + pose proof (eo_waits env_ok w (a_fds a) (a_want a) true _ HI) as HI1. by rewrite HS in HI1.
    + intros n a'' w''. by apply loops_failed.
  - destruct (Turn_serves loop false r a w w1 recvReady sendReady Hi HI HS) as (r' & w' & a' & ? & ? & ? & ?);
      [by left|].
    exists r', w', a'. split_and!; try done. intros n a'' w''. by apply (loops_turn n a w w1 recvReady sendReady).
Qed.

(** The reactor starts idle, and a program adds its first entries to the idle
    reactor. *)
Lemma Init_idle : idle Hd Reactor_Init (AR ∅ ∅ [] []).
Proof using Type.
  split; [done|]. split; cbn; try done; [apply Init_is_list|..].
  - intros e. rewrite lookup_empty. split; [by intros []|by intros ?%elem_of_nil].
  - intros fd. split; [by intros ?%elem_of_empty|by intros (e & x & ? & _)].
Qed.

Lemma Add_idle r a w fd onR onW :
  idle Hd r a -> 0 <= fd < FD_SETSIZE -> map_Forall (fun _ x => a_fd x <> fd) (a_open a) ->
  (exists f, onR = Some f /\ Hd f) -> (forall f, onW = Some f -> Hd f) ->
  Reactor_Add malloc w r fd onR onW = Ok (r, None) \/
  exists r' e, Reactor_Add malloc w r fd onR onW = Ok (r', Some e) /\ a_open a !! e = None /\
    idle Hd r' (a_add e (AE fd onR onW) a).
Proof.
  intros [Et H] Hfd Hn HR HW.
  destruct (Reactor_Add_ok Hd malloc (eo_malloc env_ok) _ _ _ _ w fd onR onW H Hfd Hn HR HW)
    as [?|(r' & e & ? & _ & _ & ? & ?)]; [by left|right]. by exists r', e.
Qed.

End Loop.

(** ** Properties *)

(** C26: The event loop serves forever.  From an idle reactor that is not in eager
    mode, with callbacks that use open entries only, and add entries only for
    descriptors below 1024 that no open entry has ([handler_ok]), and with a [malloc]
    that finds memory and a [select] that reports what it was asked about
    ([environment_ok]), any number [n] of turns of [Reactor_Loop] goes through
    without a fault: no freed entry is touched, no entry is closed twice, no
    descriptor is out of range and no missing callback is called, whatever entries the
    callbacks add and close, their own included.  The turns do what the specification
    says: each waits, then calls the callbacks of the ready descriptors once, in the
    order of the list, for the entries that are still open, and an entry added in a
    turn waits for the next.  Afterwards the reactor is idle again: exactly the open
    entries are in memory, and exactly their descriptors are watched. *)
Theorem Reactor_Loop_serves {W} (I : W -> gmap Z (AEntry W) -> Prop) Hd malloc select r a w n k :
  environment_ok I Hd malloc select -> idle Hd r a -> I w (a_open a) ->
  exists r' w' a',
    Turns malloc select k n r w = Ok (r', w') /\
    Reactor_Loop malloc select (n + k) r w = Reactor_Loop malloc select k r' w' /\
    loops select n a w a' w' /\ idle Hd r' a' /\ I w' (a_open a') /\
    recvSet r' = a_fds a' /\ (forall e, is_Some (r_mem r' !! e) <-> is_Some (a_open a' !! e)).
Proof.
  intros Henv. revert r a w. induction n as [|n IH]; intros r a w Hi HI; cbn [Turns Nat.add].
  - exists r, w, a. pose proof (proj2 Hi) as H. split_and!; try done; [constructor|by apply (repr_fds Hd None _ _ (a_order a))|].
    intros e. split; intros [x E]; [|rewrite (rp_open _ _ _ _ _ H _ _ E); eauto].
    destruct (a_open a !! e) eqn:Eo; [eauto|]. by destruct (rp_closed _ _ _ _ _ H _ _ E Eo).
  - destruct (Turn_idle I Hd malloc select Henv (ReactorLoop malloc select (n + k) true) r a w Hi HI)
      as (r1 & w1 & a1 & ET & Hi1 & HI1 & HL).
    destruct (IH r1 a1 w1 Hi1 HI1) as (r' & w' & a' & ? & ? & ? & ? & ? & ? & ?).
    exists r', w', a'. unfold Reactor_Loop in *. cbn [ReactorLoop]. rewrite ET, !bind_ret_l.
    split_and!; try done. by apply HL.
Qed.

(** An echo server: a listener on descriptor 3 accepts connections; a connection
    that gets a request waits until it can reply, replies and closes itself. *)
Record echo : Type := Echo { newfd : Z; events : list (gset Z * gset Z) }.

Definition echo_write : Reactor_Handler_t echo := fun e _ w => PClose w e PRet.
Definition echo_read : Reactor_Handler_t echo := fun e _ w => PMark w e PRet.
Definition echo_accept : Reactor_Handler_t echo := fun _ _ w =>
  if newfd w <? FD_SETSIZE then
    PAdd (Echo (newfd w + 1) (events w)) (newfd w) (Some echo_read) (Some echo_write) (fun _ w => PRet w)
  else PRet w.

Definition listener : AEntry echo := AE 3 (Some echo_accept) None.
Definition connection (fd : Z) : AEntry echo := AE fd (Some echo_read) (Some echo_write).

Definition echo_inv (w : echo) (o : gmap Z (AEntry echo)) : Prop :=
  4 <= newfd w /\ map_Forall (fun _ x => x = listener \/ exists fd, x = connection fd /\ 4 <= fd < newfd w) o.
Definition echo_handler (f : Reactor_Handler_t echo) : Prop := f = echo_accept \/ f = echo_read \/ f = echo_write.

Definition echo_malloc (_ : echo) (used : gset Z) : Z := fresh ({[0]} ∪ used).
Definition echo_select (w : echo) (recv send : gset Z) (_ : bool) : echo * select_result :=
  match events w with
  | [] => (w, SelectFailed)
  | (rr, sr) :: evs => (Echo (newfd w) evs, SelectReady (rr ∩ recv) (sr ∩ send))
  end.

Lemma echo_accept_ok : handler_ok echo_inv echo_handler echo_accept.
Proof.
  intros w o e x [Hn Ho] _ _. unfold echo_accept. destruct (Z.ltb_spec (newfd w) FD_SETSIZE) as [Hlt|]; [|done].
  cbn [prog_ok]. split_and!; try lia.
  - intros e' x' E. destruct (Ho e' x' E) as [->|(fd & -> & ?)]; cbn; lia.
  - exists echo_read. split; [done|]. right; by left.
  - intros f [= <-]. by right; right.
  - intros e' E. split; cbn; [lia|]. apply map_Forall_insert_2; [right; exists (newfd w); split; [done|lia]|].
    intros e2 x2 E2. destruct (Ho _ _ E2) as [->|(fd & -> & ?)]; [by left|right; exists fd; split; [done|lia]].
  - split; cbn; [lia|]. intros e2 x2 E2.
    destruct (Ho _ _ E2) as [->|(fd & -> & ?)]; [by left|right; exists fd; split; [done|lia]].
Qed.

Lemma echo_ok : environment_ok echo_inv echo_handler echo_malloc echo_select.
Proof.
  split.
  - intros w used H. apply (is_fresh ({[0]} ∪ used)). by apply elem_of_union_r.
  - intros w recv send b w' rr sr. unfold echo_select.
    destruct (events w) as [|[r0 s0] evs]; [done|]. intros [= <- <- <-]. set_solver.
  - intros w recv send b o [? ?]. unfold echo_select. by destruct (events w) as [|[r0 s0] evs].
  - intros f [->|[->| ->]]; [apply echo_accept_ok|..]; intros w o e x [Hn Ho] E Hx; cbn [prog_ok echo_read echo_write].
    + split; [|by split]. exists x. destruct (Ho _ _ E) as [->|(fd & -> & ?)]; [|by exists echo_write].
      destruct Hx as [[= Hx]|Hx]; [|done].
      apply (f_equal (fun h => h 0 0 (Echo 4 []))) in Hx. discriminate Hx.
    + split; [by exists x|]. split; [done|]. by apply map_Forall_delete.
Qed.

(** A connection comes in, sends a request and can be written to. *)
Definition echo_start : echo := Echo 4 [({[3]}, ∅); ({[4]}, ∅); ({[4]}, {[4]})].

Definition echo_reactor : Reactor_t echo :=
  fst (get (Reactor_Init, None) (Reactor_Add echo_malloc echo_start Reactor_Init 3 (Some echo_accept) None)).

Lemma echo_idle : exists e, idle echo_handler echo_reactor (a_add e listener (AR ∅ ∅ [] [])).
Proof.
  unfold echo_reactor.
  destruct (Add_idle echo_inv echo_handler echo_malloc echo_select echo_ok Reactor_Init _ echo_start 3
    (Some echo_accept) None (Init_idle echo_handler)) as [E|(r & e & E & _ & Hi)]; rewrite ?E; try done.
  - exists echo_accept. split; [done|by left].
  - by exists e.
Qed.

Lemma Reactor_Loop_serves_witness :
  exists e r' w' a',
    idle echo_handler echo_reactor (a_add e listener (AR ∅ ∅ [] [])) /\
    Turns echo_malloc echo_select 0 3 echo_reactor echo_start = Ok (r', w') /\
    loops echo_select 3 (a_add e listener (AR ∅ ∅ [] [])) echo_start a' w' /\
    recvSet r' = a_fds a'.
Proof.
  destruct echo_idle as [e Hi]. exists e.
  destruct (Reactor_Loop_serves echo_inv echo_handler echo_malloc echo_select echo_reactor _ echo_start 3 0 echo_ok Hi)
    as (r' & w' & a' & ? & ? & ? & ? & ? & ? & ?).
  - split; [done|]. cbn. apply map_Forall_insert_2; [by left|apply map_Forall_empty].
  - exists r', w', a'. split_and!; done.
Defined.

(** In eager mode a nested loop serves the entry whose callback runs, and resets
    its [deferFree].  A callback that marks its entry writable and then closes it
    frees it under the loop that called it, which reads it again. *)
Definition reply_and_close : Reactor_Handler_t echo := fun e _ w => PMark w e (fun w => PClose w e PRet).
Definition replied : Reactor_Handler_t echo := fun _ _ w => PRet w.

Definition eager_reactor : Reactor_t echo :=
  fst (get (Reactor_Init, None)
    (Reactor_Add echo_malloc echo_start (Reactor_EagerMode Reactor_Init) 3 (Some reply_and_close) (Some replied))).

Lemma eager_use_after_free :
  Reactor_Loop echo_malloc echo_select 10 eager_reactor (Echo 4 [({[3]}, ∅); (∅, {[3]}); (∅, ∅)]) = Fault NullDeref /\
  Turns echo_malloc echo_select 0 1 (set_eagerMode false eager_reactor) (Echo 4 [({[3]}, ∅)]) =
    Ok (Reactor ∅ ∅ (LIST 0 0 {[1 := Link 0 0 false]}) false ∅, Echo 4 []).
Proof. split; by vm_compute. Qed.
