(* ===== verification/OrdTree.v ===== *)
(** * Ordered trees (the contract of src/lib/tmpl/rbtree-impl.h)

    The clients of the red-black tree template see a tree as the sequence of its
    values in order: [RB_Find] and [RB_FindIter] with a relation, [RB_Insert],
    [RB_Remove], and iteration along the order chain.  Every operation locates
    values by the sign of [COMPARE_VALUE_func(value, key)], here a function
    [cmp] of the value.  This file states the operations on sequences and their
    laws, against which the store is verified. *)

From S2P Require Import Prelude.

(** ** Operations *)

Inductive RB_Relation : Type := RB_EQ | RB_LT | RB_GE.

Section Ops.

Context {V : Type}.

Fixpoint find_first (f : V -> bool) (l : list V) : option V :=
  match l with
  | [] => None
  | v :: l => if f v then Some v else find_first f l
  end.

(** The value at a key, the last one below it, or the first one not below it. *)
Definition tree_find (cmp : V -> Z) (rel : RB_Relation) (l : list V) : option V :=
  match rel with
  | RB_EQ => find_first (fun v => cmp v =? 0) l
  | RB_LT => find_first (fun v => cmp v <? 0) (rev l)
  | RB_GE => find_first (fun v => 0 <=? cmp v) l
  end.

(** Inserts the new value [v]; [None] when the key is present. *)
Fixpoint tree_insert (cmp : V -> Z) (v : V) (l : list V) : option (list V) :=
  match l with
  | [] => Some [v]
  | w :: l' =>
    if cmp w <? 0 then cons w <$> tree_insert cmp v l'
    else if cmp w =? 0 then None
    else Some (v :: l)
  end.

Fixpoint tree_remove (cmp : V -> Z) (l : list V) : list V :=
  match l with
  | [] => []
  | w :: l => if cmp w =? 0 then l else w :: tree_remove cmp l
  end.

(** [RB_Iterator_Next] at value [v]. *)
Fixpoint tree_next `{EqDecision V} (v : V) (l : list V) : option V :=
  match l with
  | [] => None
  | w :: l => if decide (v = w) then hd_error l else tree_next v l
  end.

(** The values an iterator from [RB_FindIter(key, RB_GE)] visits, in order. *)
Fixpoint tree_from (cmp : V -> Z) (l : list V) : list V :=
  match l with
  | [] => []
  | v :: l' => if 0 <=? cmp v then l else tree_from cmp l'
  end.

End Ops.

(** ** Laws

    [R] is the strict order of the values; a key's [cmp] is negative on an
    initial segment of the order. *)

Lemma find_first_Some {V} (f : V -> bool) l v :
  find_first f l = Some v <->
  exists l1 l2, l = l1 ++ v :: l2 /\ f v = true /\ Forall (fun w => f w = false) l1.
Proof.
  induction l as [|w l IH]; cbn.
  - split; [done|]. intros (l1 & l2 & E & _). by destruct l1.
  - destruct (f w) eqn:F.
    + split.
      * intros [= ->]. exists [], l. done.
      * intros ([|x l1] & l2 & E & Fv & Hl); cbn in E; [congruence|].
        injection E as -> ->. inversion Hl; congruence.
    + rewrite IH. split.
      * intros (l1 & l2 & -> & Fv & Hl). exists (w :: l1), l2. split_and!; auto.
      * intros ([|x l1] & l2 & E & Fv & Hl); cbn in E; injection E as -> ->; [congruence|].
        inversion Hl; subst. eauto.
Qed.

Lemma find_first_None {V} (f : V -> bool) l :
  find_first f l = None <-> Forall (fun w => f w = false) l.
Proof.
  induction l as [|w l IH]; cbn; [done|]. rewrite Forall_cons.
  destruct (f w) eqn:F; naive_solver.
Qed.

Lemma find_first_app {V} (f : V -> bool) l1 l2 :
  find_first f (l1 ++ l2) = match find_first f l1 with Some x => Some x | None => find_first f l2 end.
Proof. induction l1 as [|x l1 IH]; cbn; [done|]. by destruct (f x). Qed.

Lemma find_first_not {V} (f : V -> bool) (P : V -> Prop) l : Forall P l -> (forall x, P x -> f x = false) -> find_first f l = None.
Proof. intros H HP. apply find_first_None. eapply Forall_impl; [exact H|]. auto. Qed.

Section Laws.

Context {V : Type} (R : V -> V -> Prop).

Definition monotone (cmp : V -> Z) : Prop := forall v w, R v w -> 0 <= cmp v -> 0 < cmp w.

Lemma Forall_rev_iff (P : V -> Prop) l : Forall P (rev l) <-> Forall P l.
Proof. split; [|apply Forall_rev]. intros H. rewrite <- (rev_involutive l). by apply Forall_rev. Qed.

Lemma tree_find_LT_Some (cmp : V -> Z) l v :
  tree_find cmp RB_LT l = Some v <->
  exists l1 l2, l = l1 ++ v :: l2 /\ cmp v < 0 /\ Forall (fun w => 0 <= cmp w) l2.
Proof.
  cbn. rewrite find_first_Some. split.
  - intros (l1 & l2 & E & Hv & Hl). exists (rev l2), (rev l1).
    split_and!; [|by bools|].
    + rewrite <- (rev_involutive l), E, rev_app_distr. cbn. by rewrite <- app_assoc.
    + apply Forall_rev. eapply Forall_impl; [exact Hl|]. cbn. intros w Hw. by bools.
  - intros (l1 & l2 & -> & Hv & Hl). exists (rev l2), (rev l1).
    split_and!; [|by apply Z.ltb_lt|].
    + rewrite rev_app_distr. cbn. by rewrite <- app_assoc.
    + apply Forall_rev. eapply Forall_impl; [exact Hl|]. cbn. intros w Hw. by apply Z.ltb_ge.
Qed.

Lemma tree_find_LT_None (cmp : V -> Z) l :
  tree_find cmp RB_LT l = None <-> Forall (fun w => 0 <= cmp w) l.
Proof.
  cbn. rewrite find_first_None, Forall_rev_iff. apply Forall_iff. intros w. apply Z.ltb_ge.
Qed.

Lemma tree_find_GE_Some (cmp : V -> Z) l v :
  tree_find cmp RB_GE l = Some v <->
  exists l1 l2, l = l1 ++ v :: l2 /\ 0 <= cmp v /\ Forall (fun w => cmp w < 0) l1.
Proof.
  cbn. rewrite find_first_Some. f_equiv; intros l1. f_equiv; intros l2.
  rewrite Z.leb_le. do 2 (apply and_iff_compat_l). apply Forall_iff. intros w. apply Z.leb_gt.
Qed.

Lemma tree_find_GE_None (cmp : V -> Z) l :
  tree_find cmp RB_GE l = None <-> Forall (fun w => cmp w < 0) l.
Proof.
  cbn. rewrite find_first_None. apply Forall_iff. intros w. apply Z.leb_gt.
Qed.

(** [cmp] is the comparison with the key of the new value [v]. *)
Lemma tree_insert_ok (cmp : V -> Z) v l :
  StronglySorted R l ->
  (forall w, w ∈ l -> cmp w < 0 -> R w v) -> (forall w, w ∈ l -> 0 < cmp w -> R v w) ->
  (forall x y z, R x y -> R y z -> R x z) ->
  Forall (fun w => cmp w <> 0) l ->
  exists l', tree_insert cmp v l = Some l' /\ StronglySorted R l' /\
    l' ≡ₚ v :: l.
Proof.
  intros Hs Hlt Hgt Htr Hne. induction Hs as [|w l Hs IH Hw]; cbn.
  - exists [v]. split_and!; [done| |done]. repeat constructor.
  - apply Forall_cons in Hne as [Hw0 Hne]. destruct IH as (l' & -> & Hs' & Hp).
    { intros x Hx. apply Hlt. by right. }
    { intros x Hx. apply Hgt. by right. }
    { done. }
    destruct (Z.ltb_spec (cmp w) 0) as [Hc|Hc]; cbn.
    + exists (w :: l'). split_and!; [done| |].
      * constructor; [done|]. rewrite Hp. constructor; [apply Hlt; [by left|done]|done].
      * rewrite Hp. constructor.
    + destruct (Z.eqb_spec (cmp w) 0); [done|]. exists (v :: w :: l).
      assert (Hvw : R v w) by (apply Hgt; [by left|lia]).
      split_and!; [done| |done]. constructor; [by constructor|].
      constructor; [done|]. eapply Forall_impl; [exact Hw|].
      intros z Hz. by apply (Htr _ w).
Qed.

(** Removing what was just inserted. *)
Lemma tree_insert_remove (cmp cmp' : V -> Z) v l l' :
  tree_insert cmp v l = Some l' -> cmp' v = 0 -> Forall (fun w => cmp' w <> 0) l ->
  tree_remove cmp' l' = l.
Proof.
  intros Hi Hv Hl. revert l' Hi. induction Hl as [|w l Hw Hl IH]; intros l'; cbn.
  - intros [= <-]. cbn. by rewrite Hv.
  - destruct (cmp w <? 0).
    + intros (l1 & E & ->)%fmap_Some. cbn. destruct (Z.eqb_spec (cmp' w) 0); [done|].
      f_equal. by apply IH.
    + destruct (cmp w =? 0); [done|]. intros [= <-]. cbn. by rewrite Hv.
Qed.

Lemma tree_insert_None (cmp : V -> Z) v l :
  tree_insert cmp v l = None -> exists w, w ∈ l /\ cmp w = 0.
Proof.
  induction l as [|w l IH]; cbn; [done|].
  destruct (Z.ltb_spec (cmp w) 0).
  - intros Hn%fmap_None. destruct (IH Hn) as (x & ? & ?). exists x. split; [by right|done].
  - destruct (Z.eqb_spec (cmp w) 0); [|done]. intros _. exists w. split; [by left|done].
Qed.

Lemma tree_insert_perm (cmp : V -> Z) v l l' : tree_insert cmp v l = Some l' -> l' ≡ₚ v :: l.
Proof.
  revert l'. induction l as [|w l IH]; intros l'; cbn; [by intros [= <-]|]. destruct (cmp w <? 0).
  - intros (l1 & E & ->)%fmap_Some. rewrite (IH _ E). constructor.
  - destruct (cmp w =? 0); [done|]. by intros [= <-].
Qed.

Lemma tree_insert_dup (cmp : V -> Z) v l w :
  StronglySorted R l -> (forall x y, x ∈ l -> y ∈ l -> R x y -> 0 <= cmp x -> 0 < cmp y) ->
  w ∈ l -> cmp w = 0 -> tree_insert cmp v l = None.
Proof.
  intros Hs Hm Hw H0. induction Hs as [|x l Hs IH Hx]; cbn; [by apply elem_of_nil in Hw|].
  destruct (Z.ltb_spec (cmp x) 0) as [Hc|Hc].
  - apply elem_of_cons in Hw as [->|Hw]; [lia|]. rewrite IH; [done| |done].
    intros y z Hy Hz. apply Hm; by right.
  - destruct (Z.eqb_spec (cmp x) 0) as [|Hc0]; [done|].
    apply elem_of_cons in Hw as [->|Hw]; [done|]. rewrite Forall_forall in Hx.
    specialize (Hm x w ltac:(by left) ltac:(by right) (Hx w Hw) Hc). lia.
Qed.

(** Removal is a filter where the key occurs at most once. *)
Lemma tree_remove_filter (cmp : V -> Z) l :
  (forall x y, R x y -> cmp x = 0 -> cmp y <> 0) -> StronglySorted R l ->
  tree_remove cmp l = filter (fun w => cmp w <> 0) l.
Proof.
  intros Hu Hs. induction Hs as [|x l Hs IH Hx]; cbn [tree_remove]; [done|].
  destruct (Z.eqb_spec (cmp x) 0) as [E|E].
  - rewrite filter_cons_False by tauto. clear IH.
    induction Hx as [|y l Hy Hl IHl]; [done|].
    rewrite filter_cons_True by (by apply (Hu x)). f_equal. apply IHl.
    by apply StronglySorted_inv in Hs as [? _].
  - rewrite filter_cons_True by done. by rewrite IH.
Qed.

Lemma tree_next_app `{EqDecision V} (v : V) l1 l2 :
  v ∉ l1 -> tree_next v (l1 ++ v :: l2) = hd_error l2.
Proof.
  induction l1 as [|w l1 IH]; cbn.
  - intros _. by rewrite decide_True.
  - intros [Hw Hl]%not_elem_of_cons. rewrite decide_False by done. by apply IH.
Qed.

End Laws.
