(* ===== verification/RBTree.v ===== *)
(** * Red-black trees (src/lib/tmpl/rbtree-impl.h, rbtree-decl.h)

    The template behind the store's ordered indexes: balanced trees that insert
    and remove in one pass from the root down, on nodes in memory that are also
    chained in order.  This file has the operations, with the checks of the default
    build ([PARANOID]); the tree is abstracted in RBShape.v, and the operations are
    proved to be those on sequences in RBInv.v, RBInsert.v and RBRemove.v. *)

From S2P Require Import Prelude CLib OrdTree.

(** ** Data *)

(** Addresses are integers, NULL is 0. *)
Record RB_node_t {V : Type} : Type := RBNode {
  n_data : V;
  n_red : bool;
  n_link0 : Z;
  n_link1 : Z;
  n_next : Z;
  n_prev : Z
}.

Arguments RB_node_t : clear implicits.
Arguments RBNode {V}.

(** A tree with the memory its nodes are in. *)
Record RB_t {V : Type} : Type := RBT {
  t_root : Z;
  t_size : Z;
  t_first : Z;
  t_last : Z;
  t_mem : gmap Z (RB_node_t V)
}.

Arguments RB_t : clear implicits.
Arguments RBT {V}.

(** The false root, a local variable of the operations. *)
Definition HEAD : Z := -1.

Section Nodes.

Context {V : Type}.
Implicit Types (n : RB_node_t V) (m : gmap Z (RB_node_t V)) (s : RB_t V).

(** [link[dir]], with 0 and 1 as booleans. *)
Definition n_link (d : bool) n : Z := if d then n_link1 n else n_link0 n.

Definition set_n_link (d : bool) (x : Z) n : RB_node_t V :=
  if d then RBNode (n_data n) (n_red n) (n_link0 n) x (n_next n) (n_prev n)
  else RBNode (n_data n) (n_red n) x (n_link1 n) (n_next n) (n_prev n).
Definition set_n_red (c : bool) n : RB_node_t V :=
  RBNode (n_data n) c (n_link0 n) (n_link1 n) (n_next n) (n_prev n).
Definition set_n_next (x : Z) n : RB_node_t V :=
  RBNode (n_data n) (n_red n) (n_link0 n) (n_link1 n) x (n_prev n).
Definition set_n_prev (x : Z) n : RB_node_t V :=
  RBNode (n_data n) (n_red n) (n_link0 n) (n_link1 n) (n_next n) x.

Definition set_mem m s : RB_t V := RBT (t_root s) (t_size s) (t_first s) (t_last s) m.
Definition set_root (r : Z) s : RB_t V := RBT r (t_size s) (t_first s) (t_last s) (t_mem s).
Definition set_size (x : Z) s : RB_t V := RBT (t_root s) x (t_first s) (t_last s) (t_mem s).
Definition set_first (x : Z) s : RB_t V := RBT (t_root s) (t_size s) x (t_last s) (t_mem s).
Definition set_last (x : Z) s : RB_t V := RBT (t_root s) (t_size s) (t_first s) x (t_mem s).

(** Reads and writes through a pointer. *)
Definition rb_get (f : RB_node_t V -> Z) m (a : Z) : res Z := n ← deref (m !! a); Ok (f n).
Definition rb_put (f : RB_node_t V -> RB_node_t V) m (a : Z) : res (gmap Z (RB_node_t V)) :=
  n ← deref (m !! a); Ok (<[a := f n]> m).

(** ** Operations *)

Definition RB_IsRed m (root : Z) : res bool :=
  if root =? 0 then Ok false else n ← deref (m !! root); Ok (n_red n).

Definition RB_Single m (root : Z) (dir : bool) : res (gmap Z (RB_node_t V) * Z) :=
  save ← rb_get (n_link (negb dir)) m root;
  x ← rb_get (n_link dir) m save;
  m ← rb_put (set_n_link (negb dir) x) m root;
  m ← rb_put (set_n_link dir root) m save;
  m ← rb_put (set_n_red true) m root;
  m ← rb_put (set_n_red false) m save;
  Ok (m, save).

Definition RB_Double m (root : Z) (dir : bool) : res (gmap Z (RB_node_t V) * Z) :=
  x ← rb_get (n_link (negb dir)) m root;
  '(m, x) ← RB_Single m x (negb dir);
  m ← rb_put (set_n_link (negb dir) x) m root;
  RB_Single m root dir.

(** The contents of a new node, whose value [INIT_VALUE_func] makes. *)
Definition RB_NewNode (v : V) : RB_node_t V := RBNode v true 0 0 0 0.

Definition RB_Init (s : RB_t V) : RB_t V := RBT 0 0 (t_first s) (t_last s) (t_mem s).

(** [while (it != NULL)] of [RB_Release]: the values in the order in which they
    are released. *)
Fixpoint RBReleaseLoop (fuel : nat) m (it : Z) : res (gmap Z (RB_node_t V) * list V) :=
  match fuel with
  | O => Fault NoFuel
  | S fuel =>
    if it =? 0 then Ok (m, [])
    else
      n ← deref (m !! it);
      if n_link0 n =? 0 then
        '(m, l) ← RBReleaseLoop fuel (delete it m) (n_link1 n);
        Ok (m, n_data n :: l)
      else
        let save := n_link0 n in
        x ← rb_get (n_link true) m save;
        m ← rb_put (set_n_link false x) m it;
        m ← rb_put (set_n_link true it) m save;
        RBReleaseLoop fuel m save
  end.

Definition RB_Release s : res (RB_t V * list V) :=
  if negb (t_root s =? 0) then
    '(m, l) ← RBReleaseLoop (S (2 * size (t_mem s))) (t_mem s) (t_root s);
    Ok (set_root 0 (set_mem m s), l)
  else Ok (s, []).

(** [cmp v] is [COMPARE_VALUE_func(v, key)]. *)
Fixpoint RBFindLoop (fuel : nat) m (cmp : V -> Z) (rel : RB_Relation) (it best : Z) : res Z :=
  match fuel with
  | O => Fault NoFuel
  | S fuel =>
    if it =? 0 then Ok best
    else
      n ← deref (m !! it);
      let c := cmp (n_data n) in
      let down best := RBFindLoop fuel m cmp rel (n_link (c <? 0) n) best in
      match rel with
      | RB_EQ => if c =? 0 then Ok it else down best
      | RB_LT => down (if c <? 0 then it else best)
      | RB_GE => if c =? 0 then Ok it else down (if 0 <? c then it else best)
      end
  end.

Definition RB_FindImpl s (cmp : V -> Z) (rel : RB_Relation) : res Z :=
  RBFindLoop (S (size (t_mem s))) (t_mem s) cmp rel (t_root s) 0.

(** Returns the node, whose data is at its start. *)
Definition RB_Find s (cmp : V -> Z) (rel : RB_Relation) : res Z := RB_FindImpl s cmp rel.

(** The iterator's [cur]; [None] when nothing was found. *)
Definition RB_FindIter s (cmp : V -> Z) (rel : RB_Relation) : res (option Z) :=
  best ← RB_FindImpl s cmp rel;
  Ok (if best =? 0 then None else Some best).

Fixpoint RB_Count (fuel : nat) m (root : Z) : res Z :=
  match fuel with
  | O => Fault NoFuel
  | S fuel =>
    if root =? 0 then Ok 0
    else
      n ← deref (m !! root);
      x ← RB_Count fuel m (n_link0 n);
      y ← RB_Count fuel m (n_link1 n);
      Ok (u64 (u64 (1 + x) + y))
  end.

Definition RB_Size s : Z := t_size s.

Definition CHECK_COUNT s : res unit :=
  n ← RB_Count (S (size (t_mem s))) (t_mem s) (t_root s);
  Assert (RB_Size s =? n).

(** The lines that put the new node [q], below [p], into the order chain. *)
Definition ChainNew s (p q : Z) (dir : bool) : res (RB_t V) :=
  m ← rb_put (if dir then set_n_prev p else set_n_next p) (t_mem s) q;
  x ← rb_get (if dir then n_next else n_prev) m p;
  m ← rb_put (if dir then set_n_next x else set_n_prev x) m q;
  m ← rb_put (if dir then set_n_next q else set_n_prev q) m p;
  s ← (if x =? 0 then Ok (if dir then set_last q (set_mem m s) else set_first q (set_mem m s))
       else m ← rb_put (if dir then set_n_prev q else set_n_next q) m x; Ok (set_mem m s));
  Ok (set_size (u64 (t_size s + 1)) s).

(** What happens at [q]: a new node, when there is none and [rn] is one, a color
    flip, or nothing; [None] when the allocation fails. *)
Definition InsertAt s (v : V) (rn : option Z) (p q : Z) (dir : bool) (result : Z) :
    res (RB_t V * option (Z * Z)) :=
  if q =? 0 then
    match rn with
    | None => m ← rb_put (set_n_link dir 0) (t_mem s) p; Ok (set_mem m s, None)
    | Some a =>
      m ← rb_put (set_n_link dir a) (<[a := RB_NewNode v]> (t_mem s)) p;
      s ← ChainNew (set_mem m s) p a dir;
      Ok (s, Some (a, a))
    end
  else
    l ← rb_get (n_link false) (t_mem s) q;
    r ← rb_get (n_link true) (t_mem s) q;
    lr ← RB_IsRed (t_mem s) l;
    rr ← (if (lr : bool) then RB_IsRed (t_mem s) r else Ok false);
    if (rr : bool) then
      m ← rb_put (set_n_red true) (t_mem s) q;
      m ← rb_put (set_n_red false) m l;
      m ← rb_put (set_n_red false) m r;
      Ok (set_mem m s, Some (q, result))
    else Ok (s, Some (q, result)).

(** The rotations for a red [q] below a red [p]. *)
Definition InsertFix m (t g p q : Z) (last : bool) : res (gmap Z (RB_node_t V)) :=
  rq ← RB_IsRed m q;
  rp ← (if (rq : bool) then RB_IsRed m p else Ok false);
  if (rp : bool) then
    x ← rb_get (n_link true) m t;
    let dir2 := x =? g in
    y ← rb_get (n_link last) m p;
    '(m, x) ← (if q =? y then RB_Single m g (negb last) else RB_Double m g (negb last));
    rb_put (set_n_link dir2 x) m t
  else Ok m.

(** [for ( ; ; )] of [RB_Insert]; [None] for the early return. *)
Fixpoint InsertLoop (fuel : nat) s (cmp : V -> Z) (v : V) (rn : option Z) (t g p q : Z) (dir last : bool)
    (result : Z) : res (RB_t V * option Z) :=
  match fuel with
  | O => Fault NoFuel
  | S fuel =>
    '(s, r) ← InsertAt s v rn p q dir result;
    match r with
    | None => Ok (s, None)
    | Some (q, result) =>
      m ← InsertFix (t_mem s) t g p q last;
      n ← deref (m !! q);
      let c := cmp (n_data n) in
      if c =? 0 then Ok (set_mem m s, Some result)
      else
        InsertLoop fuel (set_mem m s) cmp v rn (if g =? 0 then t else g) p q (n_link (c <? 0) n) (c <? 0) dir result
    end
  end.

Context (zero : V).

(** Returns the new node, or NULL. *)
Definition RB_Insert s (cmp : V -> Z) (v : V) (rn : option Z) : res (RB_t V * Z) :=
  CHECK_COUNT s;;
  if t_root s =? 0 then
    match rn with
    | None => Ok (set_root 0 s, 0)
    | Some a =>
      let s := RBT a (u64 (t_size s + 1)) a a (<[a := RB_NewNode v]> (t_mem s)) in
      m ← rb_put (set_n_red false) (t_mem s) (t_root s);
      Ok (set_mem m s, a)
    end
  else
    let s := set_mem (<[HEAD := RBNode zero false 0 (t_root s) 0 0]> (t_mem s)) s in
    '(s, r) ← InsertLoop (S (S (size (t_mem s)))) s cmp v rn HEAD 0 0 (t_root s) false false 0;
    match r with
    | None => Ok (set_mem (delete HEAD (t_mem s)) s, 0)
    | Some result =>
      root ← rb_get (n_link true) (t_mem s) HEAD;
      m ← rb_put (set_n_red false) (delete HEAD (t_mem s)) root;
      Ok (set_root root (set_mem m s), result)
    end.

(** *** Removal *)

(** [CHECK_FPARENT()] *)
Definition CHECK_FPARENT m (f fParent : Z) : res unit :=
  if fParent =? 0 then Ok tt
  else
    n ← deref (m !! fParent);
    Assert ((n_link0 n =? f) || (n_link1 n =? f)).

(** The body of the loop of [RB_Remove] after the helpers moved down: the new
    memory, [p] and [fParent]. *)
Definition PushDown m (g p q : Z) (dir last : bool) (f fParent : Z) : res (gmap Z (RB_node_t V) * Z * Z) :=
  rq ← RB_IsRed m q;
  x ← rb_get (n_link dir) m q;
  rx ← (if (rq : bool) then Ok true else RB_IsRed m x);
  if (rx : bool) then Ok (m, p, fParent)
  else
    y ← rb_get (n_link (negb dir)) m q;
    ry ← RB_IsRed m y;
    if (ry : bool) then
      '(m, b) ← RB_Single m q dir;
      m ← rb_put (set_n_link last b) m p;
      CHECK_FPARENT m f fParent;;
      Ok (m, b, fParent)
    else
      sb ← rb_get (n_link (negb last)) m p;
      if sb =? 0 then Ok (m, p, fParent)
      else
        sy ← rb_get (n_link (negb last)) m sb;
        ry ← RB_IsRed m sy;
        sx ← rb_get (n_link last) m sb;
        rx ← RB_IsRed m sx;
        if negb ry && negb rx then
          m ← rb_put (set_n_red false) m p;
          m ← rb_put (set_n_red true) m sb;
          m ← rb_put (set_n_red true) m q;
          CHECK_FPARENT m f fParent;;
          Ok (m, p, fParent)
        else
          gx ← rb_get (n_link true) m g;
          let dir2 := gx =? p in
          '(m, b) ← (if (rx : bool) then RB_Double m p last else RB_Single m p last);
          m ← rb_put (set_n_link dir2 b) m g;
          let fParent := if g =? fParent then b else fParent in
          CHECK_FPARENT m f fParent;;
          m ← rb_put (set_n_red true) m b;
          m ← rb_put (set_n_red true) m q;
          l ← rb_get (n_link false) m b;
          m ← rb_put (set_n_red false) m l;
          r ← rb_get (n_link true) m b;
          m ← rb_put (set_n_red false) m r;
          Ok (m, p, fParent).

(** [while (q->link[dir] != NULL)]: the memory, [q], [p], [f] and [fParent]. *)
Fixpoint RemoveLoop (fuel : nat) m (cmp : V -> Z) (p q : Z) (dir : bool) (f fParent : Z) :
    res (gmap Z (RB_node_t V) * Z * Z * Z * Z) :=
  match fuel with
  | O => Fault NoFuel
  | S fuel =>
    x ← rb_get (n_link dir) m q;
    if x =? 0 then Ok (m, q, p, f, fParent)
    else
      let last := dir in
      let g := p in
      let p := q in
      let q := x in
      n ← deref (m !! q);
      let dir := cmp (n_data n) <? 0 in
      let f := if cmp (n_data n) =? 0 then q else f in
      '(m, p, fParent) ← PushDown m g p q dir last f fParent;
      let fParent := if f =? q then p else fParent in
      RemoveLoop fuel m cmp p q dir f fParent
  end.

(** Takes [q] out and puts it in the place of [f]. *)
Definition TakeOut m (q p f fParent : Z) : res (gmap Z (RB_node_t V)) :=
  x ← rb_get (n_link true) m p;
  l ← rb_get (n_link false) m q;
  y ← rb_get (n_link (l =? 0)) m q;
  m ← rb_put (set_n_link (x =? q) y) m p;
  if negb (f =? q) then
    CHECK_FPARENT m f fParent;;
    x ← rb_get (n_link true) m fParent;
    m ← rb_put (set_n_link (x =? f) q) m fParent;
    n ← deref (m !! f);
    m ← rb_put (set_n_red (n_red n)) m q;
    m ← rb_put (set_n_link false (n_link0 n)) m q;
    rb_put (set_n_link true (n_link1 n)) m q
  else Ok m.

(** Takes [f] out of the order chain and frees it. *)
Definition Unchain s (f : Z) : res (RB_t V) :=
  n ← deref (t_mem s !! f);
  let first := if t_first s =? f then n_next n else t_first s in
  let last := if t_last s =? f then n_prev n else t_last s in
  m ← (if negb (n_prev n =? 0) then rb_put (set_n_next (n_next n)) (t_mem s) (n_prev n) else Ok (t_mem s));
  m ← (if negb (n_next n =? 0) then rb_put (set_n_prev (n_prev n)) m (n_next n) else Ok m);
  Ok (RBT (t_root s) (u64 (t_size s - 1)) first last (delete f m)).

(** Always returns true; the value that was released, if any. *)
Definition RB_Remove s (cmp : V -> Z) : res (RB_t V * option V) :=
  CHECK_COUNT s;;
  if negb (t_root s =? 0) then
    let m := <[HEAD := RBNode zero false 0 (t_root s) 0 0]> (t_mem s) in
    '(m, q, p, f, fParent) ← RemoveLoop (S (S (size m))) m cmp 0 HEAD true 0 0;
    let s := set_mem m s in
    '(s, v) ← (if negb (f =? 0) then
                 n ← deref (m !! f);
                 m ← TakeOut m q p f fParent;
                 s ← Unchain (set_mem m s) f;
                 Ok (s, Some (n_data n))
               else Ok (s, None));
    root ← rb_get (n_link true) (t_mem s) HEAD;
    m ← (if negb (root =? 0) then rb_put (set_n_red false) (delete HEAD (t_mem s)) root else Ok (delete HEAD (t_mem s)));
    Ok (set_root root (set_mem m s), v)
  else Ok (s, None).

(** *** Iteration *)

(** The iterator is its [cur]. *)
Definition RB_First s : Z := t_first s.
Definition RB_Last s : Z := t_last s.
Definition RB_Iterator_Value s (it : Z) : Z := it.
Definition RB_Iterator_HasNext s (it : Z) : res bool := n ← deref (t_mem s !! it); Ok (negb (n_next n =? 0)).
Definition RB_Iterator_HasPrev s (it : Z) : res bool := n ← deref (t_mem s !! it); Ok (negb (n_prev n =? 0)).
Definition RB_Iterator_Next s (it : Z) : res (Z * bool) :=
  n ← deref (t_mem s !! it); Ok (if n_next n =? 0 then (it, false) else (n_next n, true)).
Definition RB_Iterator_Prev s (it : Z) : res (Z * bool) :=
  n ← deref (t_mem s !! it); Ok (if n_prev n =? 0 then (it, false) else (n_prev n, true)).

End Nodes.
