(* ===== verification/RBShape.v ===== *)
(** * The trees in memory (src/lib/tmpl/rbtree-impl.h)

    A tree of addresses, the relation between it and the nodes in memory, and the
    place of a subtree in the whole; the rotations on both levels, and the laws of
    red-black trees. *)

From S2P Require Import Prelude CLib OrdTree RBTree.

(** ** Trees and contexts *)

Inductive tree : Type := E | T (c : bool) (a : Z) (l r : tree).

Definition addr (t : tree) : Z := match t with E => 0 | T _ a _ _ => a end.
Definition is_red (t : tree) : bool := match t with E => false | T c _ _ _ => c end.

Fixpoint inorder (t : tree) : list Z :=
  match t with E => [] | T _ a l r => inorder l ++ a :: inorder r end.

(** A node with child [x] in direction [d] and [y] in the other. *)
Definition mk (d : bool) (c : bool) (a : Z) (x y : tree) : tree := if d then T c a y x else T c a x y.

(** [x] in direction [d] of [a], and [y] in the other. *)
Definition order (d : bool) (x : list Z) (a : Z) (y : list Z) : list Z := if d then y ++ a :: x else x ++ a :: y.

(** A step of the path to a subtree: the direction it takes at node [a], and the
    subtree on the other side. *)
Record frame : Type := F {
  f_dir : bool;
  f_red : bool;
  f_addr : Z;
  f_sib : tree
}.

(** From the subtree up to the root, whose parent is the false root. *)
Definition parent (k : list frame) : Z := match k with [] => HEAD | f :: _ => f_addr f end.
Definition dirk (k : list frame) : bool := match k with [] => true | f :: _ => f_dir f end.

Fixpoint order_ctx (k : list frame) (l : list Z) : list Z :=
  match k with
  | [] => l
  | f :: k => order_ctx k (order (f_dir f) l (f_addr f) (inorder (f_sib f)))
  end.

Fixpoint plug (k : list frame) (t : tree) : tree :=
  match k with
  | [] => t
  | f :: k => plug k (mk (f_dir f) (f_red f) (f_addr f) t (f_sib f))
  end.

Fixpoint ctx_nodes (k : list frame) : list Z :=
  match k with
  | [] => [HEAD]
  | f :: k => f_addr f :: inorder (f_sib f) ++ ctx_nodes k
  end.

(** The addresses of a subtree and its context. *)
Definition all_nodes (k : list frame) (t : tree) : list Z := inorder t ++ ctx_nodes k.

Definition distinct (k : list frame) (t : tree) : Prop := NoDup (all_nodes k t) /\ 0 ∉ all_nodes k t.

(** *** Laws *)

Lemma inorder_mk d c a x y : inorder (mk d c a x y) = order d (inorder x) a (inorder y).
Proof. by destruct d. Qed.

Lemma addr_mk d c a x y : addr (mk d c a x y) = a.
Proof. by destruct d. Qed.

Lemma is_red_mk d c a x y : is_red (mk d c a x y) = c.
Proof. by destruct d. Qed.

Lemma T_mk d c a l r : T c a l r = mk d c a (if d then r else l) (if d then l else r).
Proof. by destruct d. Qed.

Lemma mk_negb d c a x y : mk (negb d) c a x y = mk d c a y x.
Proof. by destruct d. Qed.

Lemma order_perm d x a y : order d x a y ≡ₚ a :: x ++ y.
Proof. destruct d; cbn; [rewrite <- Permutation_middle|symmetry; apply Permutation_middle]. by rewrite (Permutation_app_comm y x). Qed.

Lemma inorder_single d c c2 c3 c4 a b x y z : inorder (mk d c b x (mk d c2 a y z)) = inorder (mk d c3 a (mk d c4 b x y) z).
Proof. destruct d; cbn; by rewrite <- ?app_assoc. Qed.

Lemma inorder_double d c c2 c3 c4 c5 c6 g p q s x y u :
  inorder (mk d c q (mk d c2 p s x) (mk d c3 g y u)) = inorder (mk d c4 g (mk d c5 p s (mk d c6 q x y)) u).
Proof. destruct d; cbn; rewrite <- ?app_assoc; cbn; by rewrite <- ?app_assoc. Qed.

Lemma inorder_plug k : forall t, inorder (plug k t) = order_ctx k (inorder t).
Proof. induction k as [|f k IH]; intros t; [done|]. cbn. by rewrite IH, inorder_mk. Qed.

Lemma order_ctx_perm k : forall t, HEAD :: order_ctx k (inorder t) ≡ₚ all_nodes k t.
Proof.
  assert (H : forall l, HEAD :: order_ctx k l ≡ₚ l ++ ctx_nodes k); [|intros t; apply H].
  induction k as [|f k IH]; intros l; cbn; [by rewrite <- Permutation_cons_append|]. rewrite IH, order_perm. cbn.
  by rewrite <- app_assoc, Permutation_middle.
Qed.

Lemma all_mk k d c a x y : all_nodes k (mk d c a x y) ≡ₚ a :: inorder x ++ inorder y ++ ctx_nodes k.
Proof. unfold all_nodes. rewrite inorder_mk, order_perm. cbn. by rewrite <- app_assoc. Qed.

Lemma distinct_perm k t k' t' : all_nodes k t ≡ₚ all_nodes k' t' -> distinct k t -> distinct k' t'.
Proof. intros H [H1 H2]. split; by rewrite <- H. Qed.

(** ** Memory *)

Section Memory.

Context {V : Type}.
Implicit Types (m : gmap Z (RB_node_t V)).

(** Node [a]: its color and its links in direction [d] and the other. *)
Definition at_ m (a : Z) (c d : bool) (x y : Z) : Prop :=
  exists n, m !! a = Some n /\ n_red n = c /\ n_link d n = x /\ n_link (negb d) n = y.

Fixpoint shape m (t : tree) : Prop :=
  match t with
  | E => True
  | T c a l r => at_ m a c false (addr l) (addr r) /\ shape m l /\ shape m r
  end.

Fixpoint shape_ctx m (k : list frame) (h : Z) : Prop :=
  match k with
  | [] => at_ m HEAD false true h 0
  | f :: k => at_ m (f_addr f) (f_red f) (f_dir f) h (addr (f_sib f)) /\ shape m (f_sib f) /\ shape_ctx m k (f_addr f)
  end.

(** What the shape does not depend on. *)
Definition vals m : gmap Z (V * Z * Z) := (fun n => (n_data n, n_next n, n_prev n)) <$> m.

(** Links and colors of the nodes [l] changed, nothing else. *)
Definition upd m m' (l : list Z) : Prop := vals m' = vals m /\ forall a, a ∉ l -> m' !! a = m !! a.

(** *** Laws *)

Lemma at_negb m a c d x y : at_ m a c (negb d) x y <-> at_ m a c d y x.
Proof. unfold at_. rewrite negb_involutive. naive_solver. Qed.

Lemma shape_mk m d c a x y :
  shape m (mk d c a x y) <-> at_ m a c d (addr x) (addr y) /\ shape m x /\ shape m y.
Proof. destruct d; cbn; [rewrite <- (at_negb m a c true)|]; tauto. Qed.

Lemma upd_refl m l : upd m m l.
Proof. done. Qed.

Lemma upd_trans m1 m2 m3 l1 l2 : upd m1 m2 l1 -> upd m2 m3 l2 -> upd m1 m3 (l1 ++ l2).
Proof.
  intros [V1 H1] [V2 H2]. split; [congruence|]. intros a Ha. rewrite elem_of_app in Ha.
  rewrite H2, H1; [done|tauto|tauto].
Qed.

Lemma upd_incl m m' l l' : upd m m' l -> (forall a, a ∈ l -> a ∈ l') -> upd m m' l'.
Proof. intros [V1 H1] Hl. split; [done|]. intros a Ha. apply H1. auto. Qed.

Lemma vals_put m a n n' : m !! a = Some n -> n_data n' = n_data n -> n_next n' = n_next n -> n_prev n' = n_prev n ->
  vals (<[a := n']> m) = vals m.
Proof.
  intros Ha H1 H2 H3. unfold vals. rewrite fmap_insert, H1, H2, H3. apply insert_id. by rewrite lookup_fmap, Ha.
Qed.

(** The shape depends on the colors and links only. *)
Definition lk m (a : Z) : option (bool * Z * Z) := (fun n => (n_red n, n_link0 n, n_link1 n)) <$> m !! a.

Lemma at_agree m m' a c d x y : lk m' a = lk m a -> at_ m a c d x y -> at_ m' a c d x y.
Proof.
  unfold lk. intros H (n & Hn & Hr & Hx & Hy). rewrite Hn in H. apply fmap_Some in H as (n' & Hn' & [= E1 E2 E3]). exists n'.
  destruct d; cbn in *; unfold n_link in *; cbn in *; split_and!; congruence.
Qed.

Lemma shape_agree m m' t : (forall a, a ∈ inorder t -> lk m' a = lk m a) -> shape m t -> shape m' t.
Proof.
  induction t as [|c a t1 IH1 t2 IH2]; intros Hl; [done|]. cbn. intros (H1 & H2 & H3). split_and!.
  - eapply at_agree; [|done]. apply Hl. set_solver.
  - apply IH1; [|done]. intros b Hb. apply Hl. set_solver.
  - apply IH2; [|done]. intros b Hb. apply Hl. set_solver.
Qed.

Lemma shape_ctx_agree m m' k : forall h, (forall a, a ∈ ctx_nodes k -> lk m' a = lk m a) -> shape_ctx m k h -> shape_ctx m' k h.
Proof.
  induction k as [|f k IH]; intros h Hl; cbn.
  - intros H. eapply at_agree; [|done]. apply Hl. set_solver.
  - intros (H1 & H2 & H3). split_and!.
    + eapply at_agree; [|done]. apply Hl. set_solver.
    + eapply shape_agree; [|done]. intros b Hb. apply Hl. set_solver.
    + apply IH; [|done]. intros b Hb. apply Hl. set_solver.
Qed.

Lemma upd_lk m m' l a : upd m m' l -> a ∉ l -> lk m' a = lk m a.
Proof. intros [_ H] Ha. unfold lk. by rewrite H. Qed.

Lemma at_frame m m' l a c d x y : upd m m' l -> a ∉ l -> at_ m a c d x y -> at_ m' a c d x y.
Proof. intros Hu Ha. apply at_agree. by eapply upd_lk. Qed.

Lemma shape_frame m m' l t : upd m m' l -> (forall a, a ∈ inorder t -> a ∉ l) -> shape m t -> shape m' t.
Proof. intros Hu Hl. apply shape_agree. intros a Ha. eapply upd_lk; eauto. Qed.

Lemma shape_ctx_frame m m' l k h : upd m m' l -> (forall a, a ∈ ctx_nodes k -> a ∉ l) -> shape_ctx m k h -> shape_ctx m' k h.
Proof. intros Hu Hl. apply shape_ctx_agree. intros a Ha. eapply upd_lk; eauto. Qed.

(** *** Reads and writes *)

Lemma get_near m a c d x y : at_ m a c d x y -> rb_get (n_link d) m a = Ok x.
Proof. intros (n & Hn & _ & Hx & _). unfold rb_get. rewrite Hn. cbn. by rewrite Hx. Qed.

Lemma get_far m a c d x y : at_ m a c d x y -> rb_get (n_link (negb d)) m a = Ok y.
Proof. intros (n & Hn & _ & _ & Hy). unfold rb_get. rewrite Hn. cbn. by rewrite Hy. Qed.

Lemma put_near m a c d x y z : at_ m a c d x y ->
  exists m', rb_put (set_n_link d z) m a = Ok m' /\ at_ m' a c d z y /\ upd m m' [a].
Proof.
  intros (n & Hn & Hc & Hx & Hy). unfold rb_put. rewrite Hn. cbn. eexists. split; [done|]. split.
  - eexists. split; [by rewrite lookup_insert_eq|]. by destruct d.
  - split; [by eapply vals_put; destruct d|]. intros b Hb. rewrite lookup_insert_ne; [done|set_solver].
Qed.

Lemma put_far m a c d x y z : at_ m a c d x y ->
  exists m', rb_put (set_n_link (negb d) z) m a = Ok m' /\ at_ m' a c d x z /\ upd m m' [a].
Proof.
  intros H%at_negb. destruct (put_near m a c (negb d) y x z H) as (m' & E & A & U). exists m'. split_and!; [done| |done].
  by apply at_negb.
Qed.

Lemma put_red m a c d x y c' : at_ m a c d x y ->
  exists m', rb_put (set_n_red c') m a = Ok m' /\ at_ m' a c' d x y /\ upd m m' [a].
Proof.
  intros (n & Hn & Hc & Hx & Hy). unfold rb_put. rewrite Hn. cbn. eexists. split; [done|]. split.
  - eexists. split; [by rewrite lookup_insert_eq|]. by destruct d.
  - split; [by eapply vals_put|]. intros b Hb. rewrite lookup_insert_ne; [done|set_solver].
Qed.

Lemma IsRed_shape m t : shape m t -> 0 ∉ inorder t -> RB_IsRed m (addr t) = Ok (is_red t).
Proof.
  unfold RB_IsRed. destruct t as [|c a l r]; [done|]. cbn. intros ((n & Hn & Hc & _) & _) H0.
  rewrite (proj2 (Z.eqb_neq _ _)) by set_solver. rewrite Hn. cbn. by rewrite Hc.
Qed.

End Memory.

(** *** Rotations *)

(** Membership in explicit lists, from the facts about distinct addresses. *)
Ltac notin :=
  repeat (rewrite not_elem_of_cons; split); [..|apply not_elem_of_nil];
  solve [done | congruence | (intros ->; done) | (intros <-; done)].

(** After a write at some nodes: the facts about other nodes, and about trees
    without them. *)
Ltac carry U :=
  match type of U with
  | upd ?m ?m' ?l =>
    repeat match goal with
    | H : at_ m ?b _ _ _ _ |- _ => apply (at_frame _ _ _ _ _ _ _ _ U) in H; [|notin]
    | H : shape m ?t |- _ => apply (shape_frame _ _ _ _ U) in H; [|intros ? ?; notin]
    end
  end.

(** Facts about distinct addresses from a list without duplicates. *)
Ltac nodup H :=
  rewrite ?NoDup_cons, ?not_elem_of_cons, ?not_elem_of_app in H; destruct_and? H.

Section Rotations.

Context {V : Type}.
Implicit Types (m : gmap Z (RB_node_t V)).

Lemma Single_spec m d c c2 a b x y z :
  shape m (mk d c a (mk d c2 b x y) z) -> NoDup (inorder (mk d c a (mk d c2 b x y) z)) ->
  exists m', RB_Single m a (negb d) = Ok (m', b) /\ shape m' (mk d false b x (mk d true a y z)) /\ upd m m' [a; b].
Proof.
  rewrite !shape_mk, addr_mk, inorder_mk, order_perm, inorder_mk, order_perm. cbn. intros (Ha & (Hb & Hx & Hy) & Hz).
  intros Hn. nodup Hn.
  unfold RB_Single. rewrite negb_involutive, (get_near _ _ _ _ _ _ Ha), bind_ret_l, (get_far _ _ _ _ _ _ Hb), bind_ret_l.
  destruct (put_near _ _ _ _ _ _ (addr y) Ha) as (m1 & -> & Ha1 & U1). run. clear Ha. carry U1.
  destruct (put_far _ _ _ _ _ _ a Hb) as (m2 & -> & Hb1 & U2). run. clear Hb. carry U2.
  destruct (put_red _ _ _ _ _ _ true Ha1) as (m3 & -> & Ha2 & U3). run. clear Ha1. carry U3.
  destruct (put_red _ _ _ _ _ _ false Hb1) as (m4 & -> & Hb2 & U4). run. clear Hb1. carry U4.
  exists m4. split_and!; [done|by rewrite !shape_mk, addr_mk|].
  eapply upd_incl; [exact (upd_trans _ _ _ _ _ (upd_trans _ _ _ _ _ (upd_trans _ _ _ _ _ U1 U2) U3) U4)|set_solver].
Qed.

Lemma Double_spec m d c c2 c3 g p q s x y u :
  shape m (mk d c g (mk d c2 p s (mk d c3 q x y)) u) -> NoDup (inorder (mk d c g (mk d c2 p s (mk d c3 q x y)) u)) ->
  exists m', RB_Double m g (negb d) = Ok (m', q) /\
    shape m' (mk d false q (mk d true p s x) (mk d true g y u)) /\ upd m m' [g; p; q].
Proof.
  intros Hs Hn. pose proof Hs as (Hg & HP & Hu)%shape_mk. rewrite addr_mk in Hg.
  assert (HnP : NoDup (inorder (mk (negb d) c2 p (mk (negb d) c3 q y x) s))).
  { rewrite !mk_negb. rewrite inorder_mk, order_perm in Hn. apply NoDup_cons in Hn as [_ Hn]. by apply NoDup_app in Hn as (? & _). }
  unfold RB_Double. rewrite negb_involutive, (get_near _ _ _ _ _ _ Hg), bind_ret_l.
  destruct (Single_spec m (negb d) c2 c3 p q y x s) as (m1 & E1 & S1 & U1); [by rewrite !mk_negb|done|].
  rewrite negb_involutive in E1. rewrite E1, bind_ret_l. rewrite !mk_negb in S1. clear HP HnP E1.
  rewrite !shape_mk, !addr_mk in S1. destruct S1 as (Sq & (Sp & Ss & Sx) & Sy).
  rewrite inorder_mk, order_perm, inorder_mk, order_perm, inorder_mk, order_perm in Hn.
  assert (Hn' : NoDup (g :: p :: q :: inorder s ++ inorder x ++ inorder y ++ inorder u)) by (eapply NoDup_Permutation_proper; [|exact Hn]; solve_Permutation).
  pose proof Hn' as Hn2. nodup Hn2.
  carry U1. destruct (put_near _ _ _ _ _ _ q Hg) as (m2 & -> & Hg2 & U2). run. carry U2.
  destruct (Single_spec m2 d c false g q (mk d true p s x) y u) as (m3 & -> & S3 & U3).
  - by rewrite !shape_mk, !addr_mk.
  - rewrite inorder_mk, order_perm, inorder_mk, order_perm, inorder_mk, order_perm. eapply NoDup_Permutation_proper; [|exact Hn].
    solve_Permutation.
  - exists m3. split_and!; [done|done|]. eapply upd_incl; [exact (upd_trans _ _ _ _ _ (upd_trans _ _ _ _ _ U1 U2) U3)|set_solver].
Qed.

(** *** The parent of a subtree *)

Lemma ctx_put m k h h' : shape_ctx m k h -> NoDup (ctx_nodes k) ->
  exists m', rb_put (set_n_link (dirk k) h') m (parent k) = Ok m' /\ shape_ctx m' k h' /\ upd m m' [parent k].
Proof.
  destruct k as [|f k]; cbn.
  - intros H _. apply (put_near _ _ _ _ _ _ h' H).
  - intros (H & Hs & Hk) [Hn _]%NoDup_cons. destruct (put_near _ _ _ _ _ _ h' H) as (m' & E & A & U). exists m'.
    rewrite not_elem_of_app in Hn. destruct Hn as [Hn1 Hn2]. split_and!; [done|done|..|done].
    + eapply shape_frame; [done| |done]. intros b Hb. notin.
    + eapply shape_ctx_frame; [done| |done]. intros b Hb. notin.
Qed.

Lemma ctx_dir m k t : shape_ctx m k (addr t) -> distinct k t -> t <> E ->
  exists x, rb_get (n_link true) m (parent k) = Ok x /\ (x =? addr t) = dirk k.
Proof.
  intros Hk [Hn H0] Ht. destruct t as [|c a l r]; [done|]. destruct k as [|f k]; cbn in *.
  - rewrite (get_near _ _ _ _ _ _ Hk). eexists. split; [done|]. apply Z.eqb_refl.
  - destruct Hk as (H & _). destruct (f_dir f) eqn:Ed.
    + rewrite (get_near _ _ _ _ _ _ H). eexists. split; [done|]. apply Z.eqb_refl.
    + apply get_far in H. cbn [negb] in H. rewrite H. eexists. split; [done|]. apply Z.eqb_neq. intros E. unfold all_nodes in *. cbn in *.
      destruct (f_sib f) as [|c' a' l' r']; cbn in *; [set_solver|]. subst a'.
      apply NoDup_app in Hn as (_ & Hn & _). apply (Hn a); set_solver.
Qed.

Lemma ctx_frame_put m m' k h : upd m m' [parent k] -> shape_ctx m' k h -> forall t,
  distinct k t -> shape m t -> shape m' t.
Proof.
  intros U _ t [Hn _]. eapply shape_frame; [done|]. intros b Hb Hp. apply list_elem_of_singleton in Hp as ->.
  apply NoDup_app in Hn as (_ & Hn & _). apply (Hn _ Hb). destruct k; cbn; set_solver.
Qed.

End Rotations.

(** ** Red-black trees *)

(** Black height [n], no red node below a red one, nor at the root when [b]. *)
Inductive is_rb : bool -> tree -> nat -> Prop :=
| rb_E b : is_rb b E 0
| rb_R a l r n : is_rb true l n -> is_rb true r n -> is_rb false (T true a l r) n
| rb_B b a l r n : is_rb false l n -> is_rb false r n -> is_rb b (T false a l r) (S n).

(** A context for a tree of black height [n] whose root must be black when [b]. *)
Fixpoint ctx_rb (k : list frame) (b : bool) (n : nat) : Prop :=
  match k with
  | [] => b = false
  | f :: k =>
    if f_red f then b = true /\ is_rb true (f_sib f) n /\ ctx_rb k false n
    else b = false /\ is_rb false (f_sib f) n /\ exists b', ctx_rb k b' (S n)
  end.

Lemma is_rb_weak b t n : is_rb b t n -> is_rb false t n.
Proof. inversion 1; subst; by constructor. Qed.

Lemma is_rb_black t n : is_rb false t n -> is_red t = false -> is_rb true t n.
Proof. inversion 1; subst; [constructor|done|by constructor]. Qed.

Lemma is_rb_true t n : is_rb true t n -> is_red t = false.
Proof. by inversion 1. Qed.

Lemma is_rb_mk_R d a x y n : is_rb true x n -> is_rb true y n -> is_rb false (mk d true a x y) n.
Proof. intros. destruct d; by constructor. Qed.

Lemma is_rb_mk_B d b a x y n : is_rb false x n -> is_rb false y n -> is_rb b (mk d false a x y) (S n).
Proof. intros. destruct d; by constructor. Qed.

Lemma is_rb_mk_inv d b c a x y n : is_rb b (mk d c a x y) n ->
  if c then b = false /\ is_rb true x n /\ is_rb true y n
  else exists n', n = S n' /\ is_rb false x n' /\ is_rb false y n'.
Proof. destruct d; inversion 1; subst; eauto. Qed.

Lemma plug_rb k : forall b t n, ctx_rb k b n -> is_rb b t n -> exists n', is_rb false (plug k t) n'.
Proof.
  induction k as [|f k IH]; intros b t n Hk Ht; cbn in *; [subst; eauto|]. destruct (f_red f).
  - destruct Hk as (-> & Hs & Hk). eapply IH; [done|]. by apply is_rb_mk_R.
  - destruct Hk as (-> & Hs & b' & Hk). eapply IH; [done|]. by apply is_rb_mk_B.
Qed.

#[export] Hint Constructors is_rb : txc.
#[export] Hint Resolve is_rb_weak is_rb_black is_rb_mk_R is_rb_mk_B : txc.
