(* ===== verification/RBChain.v ===== *)
(** * The order chain of red-black trees (src/lib/tmpl/rbtree-impl.h)

    Every node has pointers to the next and the previous one in order, along which
    the iterators go.  The chain does not depend on the links of the tree, and
    changes to it do not change the links. *)

From S2P Require Import Prelude CLib OrdTree RBTree RBShape.

Section Chain.

Context {V : Type}.
Implicit Types (m : gmap Z (RB_node_t V)) (s : RB_t V) (vm : gmap Z (V * Z * Z)) (l : list (Z * V)).

(** ** Chains *)

(** The first address of a sequence, and the last. *)
Definition hda (nx : Z) l : Z := match l with [] => nx | (a, _) :: _ => a end.
Fixpoint enda (pv : Z) l : Z := match l with [] => pv | (a, _) :: l => enda a l end.

(** [l] is chained between [pv] and [nx], with its data. *)
Fixpoint chain vm (pv : Z) l (nx : Z) : Prop :=
  match l with
  | [] => True
  | (a, v) :: l => vm !! a = Some (v, hda nx l, pv) /\ chain vm a l nx
  end.

Definition next_to vm (a x : Z) : gmap Z (V * Z * Z) := alter (fun '(v, _, pv) => (v, x, pv)) a vm.
Definition prev_to vm (a x : Z) : gmap Z (V * Z * Z) := alter (fun '(v, nx, _) => (v, nx, x)) a vm.

(** What the chain does not depend on. *)
Definition links m : gmap Z (V * bool * Z * Z) := (fun n => (n_data n, n_red n, n_link0 n, n_link1 n)) <$> m.

Definition chained s l : Prop :=
  chain (vals (t_mem s)) 0 l 0 /\ (l <> [] -> t_first s = hda 0 l /\ t_last s = enda 0 l).

(** *** Laws *)

Lemma hda_app nx l1 l2 : hda nx (l1 ++ l2) = hda (hda nx l2) l1.
Proof. by destruct l1 as [|[]]. Qed.

Lemma enda_app l1 l2 : forall pv, enda pv (l1 ++ l2) = enda (enda pv l1) l2.
Proof. induction l1 as [|[a v] l1 IH]; intros pv; [done|]. apply IH. Qed.

Lemma hda_in nx l : hda nx l = nx \/ hda nx l ∈ l.*1.
Proof. destruct l as [|[a v] l]; [by left|]. right. cbn. set_solver. Qed.

Lemma enda_in l : forall pv, enda pv l = pv \/ enda pv l ∈ l.*1.
Proof. induction l as [|[a v] l IH]; intros pv; [by left|]. right. cbn. destruct (IH a) as [->|H]; set_solver. Qed.

Lemma order_chain_app vm l1 l2 : forall pv nx, chain vm pv (l1 ++ l2) nx <-> chain vm pv l1 (hda nx l2) /\ chain vm (enda pv l1) l2 nx.
Proof. induction l1 as [|[a v] l1 IH]; intros pv nx; cbn; [tauto|]. rewrite IH, hda_app. tauto. Qed.

Lemma order_chain_frame vm vm' l : forall pv nx, (forall a, a ∈ l.*1 -> vm' !! a = vm !! a) -> chain vm pv l nx -> chain vm' pv l nx.
Proof.
  induction l as [|[a v] l IH]; intros pv nx H; [done|]. cbn in *. intros [Ha Hl]. split; [rewrite H; [done|set_solver]|].
  apply IH; [|done]. intros b Hb. apply H. set_solver.
Qed.

Lemma next_to_ne vm a x b : b <> a -> next_to vm a x !! b = vm !! b.
Proof. intros. by apply lookup_alter_ne. Qed.

Lemma prev_to_ne vm a x b : b <> a -> prev_to vm a x !! b = vm !! b.
Proof. intros. by apply lookup_alter_ne. Qed.

Lemma next_prev_to vm a x b y : next_to (prev_to vm b y) a x = prev_to (next_to vm a x) b y.
Proof.
  apply map_eq. intros i. unfold next_to, prev_to. rewrite !lookup_alter.
  repeat case_decide; subst; try done. by destruct (vm !! _) as [[[] ?]|].
Qed.

Lemma chain_next_to vm l x : forall pv nx, chain vm pv l nx -> NoDup l.*1 -> chain (next_to vm (enda pv l) x) pv l x.
Proof.
  induction l as [|[a v] l IH]; intros pv nx; [done|]. cbn [chain enda]. intros [Ha Hl] [Hn Hd]%NoDup_cons. split; [|by eapply IH].
  destruct l as [|[b w] l]; cbn [enda hda].
  - unfold next_to. by rewrite lookup_alter_eq, Ha.
  - rewrite next_to_ne; [done|]. destruct (enda_in l b) as [E|E]; cbn in Hn; rewrite elem_of_cons in Hn; intros Ea; rewrite <- Ea in *; tauto.
Qed.

Lemma chain_prev_to vm l x pv nx : chain vm pv l nx -> NoDup l.*1 -> chain (prev_to vm (hda nx l) x) x l nx.
Proof.
  destruct l as [|[a v] l]; [done|]. cbn. intros [Ha Hl] [Hn _]%NoDup_cons. split.
  - unfold prev_to. by rewrite lookup_alter_eq, Ha.
  - eapply order_chain_frame; [|done]. intros b Hb. apply prev_to_ne. set_solver.
Qed.

(** A chain without one of its nodes, and with a new one. *)
Lemma chain_remove vm l1 f v l2 : chain vm 0 (l1 ++ (f, v) :: l2) 0 -> NoDup (0 :: (l1 ++ (f, v) :: l2).*1) ->
  chain (prev_to (next_to vm (enda 0 l1) (hda 0 l2)) (hda 0 l2) (enda 0 l1)) 0 (l1 ++ l2) 0.
Proof.
  rewrite !order_chain_app. cbn. intros (H1 & Hf & H2) Hn. rewrite fmap_app in Hn. cbn in Hn.
  apply NoDup_cons in Hn as [H0 (N1 & N12 & [Nf N2]%NoDup_cons)%NoDup_app]. rewrite elem_of_app, elem_of_cons in H0. split.
  - apply (order_chain_frame (next_to vm (enda 0 l1) (hda 0 l2))); [|by eapply chain_next_to]. intros a Ha. apply prev_to_ne.
    destruct (hda_in 0 l2) as [->|E]; [set_solver|]. intros ->. apply (N12 _ Ha). set_solver.
  - eapply chain_prev_to; [|done]. eapply order_chain_frame; [|exact H2]. intros a Ha. apply next_to_ne.
    destruct (enda_in l1 0) as [->|E]; [set_solver|]. intros ->. apply (N12 _ E). set_solver.
Qed.

Lemma chain_insert vm l1 q v l2 : chain vm 0 (l1 ++ l2) 0 -> NoDup (0 :: q :: (l1 ++ l2).*1) ->
  chain (prev_to (next_to (<[q := (v, hda 0 l2, enda 0 l1)]> vm) (enda 0 l1) q) (hda 0 l2) q) 0 (l1 ++ (q, v) :: l2) 0.
Proof.
  rewrite !order_chain_app. cbn. intros (H1 & H2) Hn. rewrite fmap_app in Hn.
  apply NoDup_cons in Hn as [H0 [Hq (N1 & N12 & N2)%NoDup_app]%NoDup_cons]. rewrite elem_of_cons, elem_of_app in H0. rewrite elem_of_app in Hq.
  assert (Eh : forall a, a ∈ l1.*1 \/ a = q -> a <> hda 0 l2).
  { intros a Ha. destruct (hda_in 0 l2) as [->|E]; [intros ->; set_solver|]. intros ->. destruct Ha as [Ha|Ha]; [by apply (N12 _ Ha)|rewrite Ha in E; tauto]. }
  assert (Ee : forall a, a ∈ l2.*1 \/ a = q -> a <> enda 0 l1).
  { intros a Ha. destruct (enda_in l1 0) as [->|E]; [intros ->; set_solver|]. intros ->. destruct Ha as [Ha|Ha]; [by apply (N12 _ E)|rewrite Ha in E; tauto]. }
  split_and!.
  - apply (order_chain_frame (next_to (<[q := (v, hda 0 l2, enda 0 l1)]> vm) (enda 0 l1) q)).
    + intros a Ha. apply prev_to_ne. auto.
    + eapply chain_next_to; [|done]. eapply order_chain_frame; [|exact H1]. intros a Ha. apply lookup_insert_ne. intros ->. tauto.
  - rewrite prev_to_ne, next_to_ne by auto. apply lookup_insert_eq.
  - eapply chain_prev_to; [|done]. eapply order_chain_frame; [|exact H2]. intros a Ha. rewrite next_to_ne by auto.
    apply lookup_insert_ne. intros ->. tauto.
Qed.

Lemma chain_first vm pv l nx : chain vm pv l nx -> l <> [] -> exists w x, vm !! hda nx l = Some (w, x, pv).
Proof. destruct l as [|[a v] l]; [done|]. cbn. intros [H _] _. eauto. Qed.

Lemma chain_last vm l nx : forall pv, chain vm pv l nx -> l <> [] -> exists w x, vm !! enda pv l = Some (w, nx, x).
Proof.
  induction l as [|[a v] l IH]; intros pv; [done|]. cbn. intros [H Hl] _. destruct l as [|b l]; [cbn in *; eauto|]. by apply IH.
Qed.

Lemma enda_ne l a b : l <> [] -> enda a l = enda b l.
Proof. by destruct l as [|[]]. Qed.

Lemma hda_ne l a b : l <> [] -> hda a l = hda b l.
Proof. by destruct l as [|[]]. Qed.

(** ** Writes to the chain *)

Lemma vals_lookup m a : vals m !! a = (fun n => (n_data n, n_next n, n_prev n)) <$> m !! a.
Proof. apply lookup_fmap. Qed.

Lemma put_next m a x : is_Some (vals m !! a) ->
  exists m', rb_put (set_n_next x) m a = Ok m' /\ vals m' = next_to (vals m) a x /\ links m' = links m.
Proof.
  rewrite vals_lookup, fmap_is_Some. intros [n Hn]. unfold rb_put. rewrite Hn. eexists. split; [done|]. split.
  - unfold vals, next_to. rewrite fmap_insert. apply map_eq. intros i. destruct (decide (i = a)) as [->|];
      [rewrite lookup_insert_eq, lookup_alter_eq, lookup_fmap, Hn|rewrite lookup_insert_ne, lookup_alter_ne]; done.
  - unfold links. rewrite fmap_insert. apply insert_id. by rewrite lookup_fmap, Hn.
Qed.

Lemma put_prev m a x : is_Some (vals m !! a) ->
  exists m', rb_put (set_n_prev x) m a = Ok m' /\ vals m' = prev_to (vals m) a x /\ links m' = links m.
Proof.
  rewrite vals_lookup, fmap_is_Some. intros [n Hn]. unfold rb_put. rewrite Hn. eexists. split; [done|]. split.
  - unfold vals, prev_to. rewrite fmap_insert. apply map_eq. intros i. destruct (decide (i = a)) as [->|];
      [rewrite lookup_insert_eq, lookup_alter_eq, lookup_fmap, Hn|rewrite lookup_insert_ne, lookup_alter_ne]; done.
  - unfold links. rewrite fmap_insert. apply insert_id. by rewrite lookup_fmap, Hn.
Qed.

Lemma get_next m a v nx pv : vals m !! a = Some (v, nx, pv) -> rb_get n_next m a = Ok nx /\ rb_get n_prev m a = Ok pv.
Proof. rewrite vals_lookup. unfold rb_get. destruct (m !! a); [|done]. by intros [= _ <- <-]. Qed.

Lemma next_to_some vm a x b : is_Some (next_to vm a x !! b) <-> is_Some (vm !! b).
Proof. unfold next_to. rewrite lookup_alter. case_decide; [subst; by rewrite fmap_is_Some|done]. Qed.

Lemma prev_to_some vm a x b : is_Some (prev_to vm a x !! b) <-> is_Some (vm !! b).
Proof. unfold prev_to. rewrite lookup_alter. case_decide; [subst; by rewrite fmap_is_Some|done]. Qed.

Lemma next_to_zero vm x : vm !! 0 = None -> next_to vm 0 x = vm.
Proof. intros H. apply alter_id. intros ? E. congruence. Qed.

Lemma prev_to_zero vm x : vm !! 0 = None -> prev_to vm 0 x = vm.
Proof. intros H. apply alter_id. intros ? E. congruence. Qed.

Lemma to_both vm q v a b p x : vm !! q = Some (v, a, b) ->
  next_to (prev_to vm q p) q x = <[q := (v, x, p)]> vm /\ prev_to (next_to vm q x) q p = <[q := (v, x, p)]> vm.
Proof.
  intros Hq. rewrite next_prev_to. split; apply map_eq; intros i; unfold next_to, prev_to; rewrite !lookup_alter, lookup_insert;
    repeat case_decide; subst; rewrite ?Hq; done.
Qed.

(** *** The new node *)

Lemma ChainNew_mem s p q v w x y a0 b0 (dir : bool) :
  let vm := vals (t_mem s) in let e := if dir then p else x in let h := if dir then x else p in
  vm !! q = Some (v, a0, b0) -> vm !! p = Some (if dir then (w, x, y) else (w, y, x)) -> p <> q -> vm !! 0 = None ->
  x = 0 \/ is_Some (vm !! x) ->
  exists m', ChainNew s p q dir = Ok (RBT (t_root s) (u64 (t_size s + 1))
      (if negb dir && (x =? 0) then q else t_first s) (if dir && (x =? 0) then q else t_last s) m') /\
    links m' = links (t_mem s) /\ vals m' = prev_to (next_to (<[q := (v, h, e)]> vm) e q) h q.
Proof.
  intros vm e h Hq Hp Hpq H0 Hx. unfold ChainNew. destruct dir.
  - destruct (put_prev (t_mem s) q p) as (m1 & -> & V1 & L1); [by eexists|]. run.
    destruct (get_next m1 p w x y) as [-> _]; [rewrite V1, prev_to_ne; done|]. run.
    destruct (put_next m1 q x) as (m2 & -> & V2 & L2); [rewrite V1; apply prev_to_some; by eexists|]. run.
    rewrite V1 in V2. destruct (to_both (vals (t_mem s)) q v a0 b0 p x Hq) as [E _]. rewrite E in V2.
    destruct (put_next m2 p q) as (m3 & -> & V3 & L3); [rewrite V2, lookup_insert_ne; [by eexists|done]|]. run. rewrite V2 in V3.
    assert (Z3 : forall z, is_Some (vm !! z) -> is_Some (vals m3 !! z)).
    { intros z Hz. rewrite V3. apply next_to_some. rewrite lookup_insert. by case_decide. }
    destruct (Z.eqb_spec x 0) as [->|Hx0]; cbn [negb andb].
    + eexists. split; [done|]. split; [by rewrite <- L1, <- L2, <- L3|]. subst h e vm. rewrite prev_to_zero; [done|]. rewrite next_to_ne by congruence.
      rewrite lookup_insert_ne; [done|congruence].
    + destruct Hx as [?|Hx]; [done|]. destruct (put_prev m3 x q) as (m4 & -> & V4 & L4); [auto|]. run.
      eexists. split; [done|]. split; [by rewrite <- L1, <- L2, <- L3, <- L4|]. etrans; [exact V4|]. by rewrite V3.
  - destruct (put_next (t_mem s) q p) as (m1 & -> & V1 & L1); [by eexists|]. run.
    destruct (get_next m1 p w y x) as [_ ->]; [rewrite V1, next_to_ne; done|]. run.
    destruct (put_prev m1 q x) as (m2 & -> & V2 & L2); [rewrite V1; apply next_to_some; by eexists|]. run.
    rewrite V1 in V2. destruct (to_both (vals (t_mem s)) q v a0 b0 x p Hq) as [_ E]. rewrite E in V2.
    destruct (put_prev m2 p q) as (m3 & -> & V3 & L3); [rewrite V2, lookup_insert_ne; [by eexists|done]|]. run. rewrite V2 in V3.
    assert (Z3 : forall z, is_Some (vm !! z) -> is_Some (vals m3 !! z)).
    { intros z Hz. rewrite V3. apply prev_to_some. rewrite lookup_insert. by case_decide. }
    rewrite <- next_prev_to. destruct (Z.eqb_spec x 0) as [->|Hx0]; cbn [negb andb].
    + eexists. split; [done|]. split; [by rewrite <- L1, <- L2, <- L3|]. subst h e vm. rewrite next_to_zero; [done|]. rewrite prev_to_ne by congruence.
      rewrite lookup_insert_ne; [done|congruence].
    + destruct Hx as [?|Hx]; [done|]. destruct (put_next m3 x q) as (m4 & -> & V4 & L4); [auto|]. run.
      eexists. split; [done|]. split; [by rewrite <- L1, <- L2, <- L3, <- L4|]. etrans; [exact V4|]. by rewrite V3.
Qed.

Lemma ChainNew_spec s l1 l2 p q v a0 b0 (dir : bool) :
  chained s (l1 ++ l2) -> NoDup (0 :: q :: (l1 ++ l2).*1) -> vals (t_mem s) !! 0 = None -> vals (t_mem s) !! q = Some (v, a0, b0) ->
  (if dir then l1 <> [] /\ enda 0 l1 = p else l2 <> [] /\ hda 0 l2 = p) ->
  exists s', ChainNew s p q dir = Ok s' /\ links (t_mem s') = links (t_mem s) /\ t_root s' = t_root s /\
    t_size s' = u64 (t_size s + 1) /\ chained s' (l1 ++ (q, v) :: l2).
Proof.
  intros [Hc Hfl] Hn H0 Hq Hp. pose proof Hc as [H1 H2]%order_chain_app. pose proof (chain_insert _ _ q v _ Hc Hn) as Hc'.
  apply NoDup_cons in Hn as [Z0 [Zq _]%NoDup_cons]. rewrite fmap_app, elem_of_app in Zq.
  assert (Some1 : forall l pv nx, chain (vals (t_mem s)) pv l nx -> forall a, a ∈ l.*1 -> is_Some (vals (t_mem s) !! a)).
  { induction l as [|[b w] l IH]; intros pv nx; cbn; [set_solver|]. intros [Hb Hl] a [->|Ha]%elem_of_cons; [by rewrite Hb|by eapply IH]. }
  assert (Hne : l1 ++ l2 <> []) by (destruct dir, l1, l2; naive_solver). destruct (Hfl Hne) as [Ef El]. destruct dir; destruct Hp as [Hl <-].
  - destruct (chain_last _ _ _ _ H1 Hl) as (w & y & Hw).
    destruct (ChainNew_mem s (enda 0 l1) q v w (hda 0 l2) y a0 b0 true) as (m' & E & L & Vm); [done|done| |done| |].
    { destruct (enda_in l1 0) as [e|e]; [rewrite e in Hw; congruence|]. intros e'. rewrite e' in e. tauto. }
    { destruct (hda_in 0 l2) as [e|e]; [by left|right; apply (Some1 _ _ _ H2 _ e)]. }
    eexists. split; [exact E|]. do 3 (split; [done|]). split; [by rewrite <- Vm in Hc'|]. intros _. cbn [t_first t_last andb negb].
    rewrite Ef, El, hda_app, hda_app, enda_app, enda_app. split; [by apply hda_ne|]. cbn. destruct l2 as [|[b w'] l2]; [done|].
    cbn in *. destruct (Z.eqb_spec b 0) as [->|]; [|done]. rewrite fmap_app in Z0. set_solver.
  - destruct (chain_first _ _ _ _ H2 Hl) as (w & y & Hw).
    destruct (ChainNew_mem s (hda 0 l2) q v w (enda 0 l1) y a0 b0 false) as (m' & E & L & Vm); [done|done| |done| |].
    { destruct (hda_in 0 l2) as [e|e]; [rewrite e in Hw; congruence|]. intros e'. rewrite e' in e. tauto. }
    { destruct (enda_in l1 0) as [e|e]; [by left|right; apply (Some1 _ _ _ H1 _ e)]. }
    eexists. split; [exact E|]. do 3 (split; [done|]). split; [by rewrite <- Vm in Hc'|]. intros _. cbn [t_first t_last andb negb].
    rewrite Ef, El, hda_app, hda_app, enda_app, enda_app. split; [|cbn [enda]; by apply enda_ne]. cbn. destruct (Z.eqb_spec (enda 0 l1) 0) as [e|e].
    + destruct l1 as [|[b w'] l1]; [done|]. destruct (enda_in l1 b) as [e'|e']; cbn in e; rewrite e in e'; rewrite fmap_app in Z0; cbn in Z0; set_solver.
    + by destruct l1 as [|[]].
Qed.

(** *** A node that goes *)

Lemma Unchain_mem s f v x y : let vm := vals (t_mem s) in
  vm !! f = Some (v, x, y) -> vm !! 0 = None -> (x = 0 \/ is_Some (vm !! x)) -> (y = 0 \/ is_Some (vm !! y)) ->
  exists m', Unchain s f = Ok (RBT (t_root s) (u64 (t_size s - 1)) (if t_first s =? f then x else t_first s) (if t_last s =? f then y else t_last s) m') /\
    links m' = delete f (links (t_mem s)) /\ vals m' = delete f (prev_to (next_to vm y x) x y).
Proof.
  intros vm Hf H0 Hx Hy. unfold Unchain. pose proof Hf as Hn. subst vm. rewrite vals_lookup in Hn. destruct (t_mem s !! f) as [n|]; [|done].
  injection Hn as Ev Ex Ey. cbn [deref]. rewrite bind_ret_l. cbn zeta. rewrite Ex, Ey.
  assert (P1 : exists m1, (if negb (y =? 0) then rb_put (set_n_next x) (t_mem s) y else Ok (t_mem s)) = Ok m1 /\
            links m1 = links (t_mem s) /\ vals m1 = next_to (vals (t_mem s)) y x).
  { destruct (Z.eqb_spec y 0) as [->|Hy0]; cbn [negb]; [exists (t_mem s); by rewrite next_to_zero|].
    destruct Hy as [?|Hy]; [done|]. destruct (put_next (t_mem s) y x Hy) as (m1 & -> & V1 & L1). eauto. }
  destruct P1 as (m1 & -> & L1 & V1). rewrite bind_ret_l.
  assert (P2 : exists m2, (if negb (x =? 0) then rb_put (set_n_prev y) m1 x else Ok m1) = Ok m2 /\
            links m2 = links m1 /\ vals m2 = prev_to (vals m1) x y).
  { destruct (Z.eqb_spec x 0) as [->|Hx0]; cbn [negb].
    - exists m1. rewrite prev_to_zero; [done|]. rewrite V1. destruct (decide (y = 0)) as [->|]; [by rewrite next_to_zero|by rewrite next_to_ne].
    - destruct Hx as [?|Hx]; [done|]. destruct (put_prev m1 x y) as (m2 & -> & V2 & L2); [rewrite V1; by apply next_to_some|]. eauto. }
  destruct P2 as (m2 & -> & L2 & V2). rewrite bind_ret_l. eexists. split; [done|]. unfold links, vals in *. rewrite !fmap_delete, L2, L1, V2, V1. done.
Qed.

Lemma Unchain_spec s l1 f v l2 : chained s (l1 ++ (f, v) :: l2) -> NoDup (0 :: (l1 ++ (f, v) :: l2).*1) -> vals (t_mem s) !! 0 = None ->
  exists s', Unchain s f = Ok s' /\ links (t_mem s') = delete f (links (t_mem s)) /\ t_root s' = t_root s /\
    t_size s' = u64 (t_size s - 1) /\ chained s' (l1 ++ l2).
Proof.
  intros [Hc Hfl] Hn H0. pose proof (chain_remove _ _ _ _ _ Hc Hn) as Hc'. pose proof Hc as (C1 & Cf & C2)%order_chain_app. destruct Hfl as [Ef El]; [by destruct l1|].
  rewrite fmap_app in Hn. apply NoDup_cons in Hn as [Hz (N1 & N12 & [Nf N2]%NoDup_cons)%NoDup_app].
  destruct (Unchain_mem s f v (hda 0 l2) (enda 0 l1) Cf H0) as (m' & W & L & Vm).
  { destruct l2 as [|[b w] l2]; [by left|right]. cbn in C2 |- *. destruct C2 as [-> _]. done. }
  { destruct l1 as [|p l1]; [by left|right]. destruct (chain_last _ _ _ _ C1) as (w & x' & Hw); [done|]. by rewrite Hw. }
  eexists. split; [exact W|]. do 3 (split; [done|]). split.
  - change (chain (vals m') 0 (l1 ++ l2) 0). rewrite Vm. eapply order_chain_frame; [|exact Hc']. intros a Ha. apply lookup_delete_ne. intros <-.
    rewrite fmap_app, elem_of_app in Ha. destruct Ha as [Ha|Ha]; [|done]. apply (N12 _ Ha). by left.
  - intros _. cbn [t_first t_last]. rewrite Ef, El, hda_app, hda_app, enda_app, enda_app. cbn. split.
    + destruct l1 as [|[b w] l1]; cbn; [by rewrite Z.eqb_refl|]. rewrite (proj2 (Z.eqb_neq _ _)); [done|]. intros ->. apply (N12 f); by left.
    + destruct l2 as [|[b w] l2]; cbn; [by rewrite Z.eqb_refl|]. rewrite (proj2 (Z.eqb_neq _ _)); [done|]. intros E.
      destruct (enda_in l2 b) as [Hb|Hb]; apply Nf; cbn; rewrite <- E; [rewrite Hb; by left|by right].
Qed.

End Chain.
