(* ===== verification/RBPath.v ===== *)
(** * Paths into red-black trees

    The loops of RB_Insert and RB_Remove (src/lib/tmpl/rbtree-impl.h) are at a
    subtree, below the path that the search took from the root.  The nodes of the
    subtree, of the path and of the trees beside it are distinct, and a change of
    the subtree leaves the others alone. *)

From S2P Require Import Prelude CLib OrdTree RBTree RBShape RBChain.

#[local] Arguments mk : simpl never.

Section Trees.

Context {V : Type}.
Implicit Types (m : gmap Z (RB_node_t V)) (k : list frame) (t : tree).

(** The pointers of the loop; [last] is the direction from [g] to [p]. *)
Definition up1 k : Z := match k with [] => 0 | f :: _ => f_addr f end.
Definition up2 k : Z := match k with _ :: f :: _ => f_addr f | _ => 0 end.

Definition red1 k : bool := match k with [] => false | f :: _ => f_red f end.

Definition black t : tree := match t with E => E | T _ a l r => T false a l r end.

Lemma inorder_black t : inorder (black t) = inorder t.
Proof. by destruct t. Qed.

Lemma addr_black t : addr (black t) = addr t.
Proof. by destruct t. Qed.

Lemma addr_in t : t <> E -> addr t ∈ inorder t.
Proof. destruct t; [done|]. cbn. set_solver. Qed.

Lemma put_black m t : shape m t -> t <> E -> NoDup (inorder t) ->
  exists m', rb_put (set_n_red false) m (addr t) = Ok m' /\ shape m' (black t) /\ upd m m' [addr t].
Proof.
  destruct t as [|c a l r]; [done|]. cbn. intros (Ha & Hl & Hr) _ Hn. rewrite <- Permutation_middle in Hn. nodup Hn.
  destruct (put_red _ _ _ _ _ _ false Ha) as (m' & E & A & U). exists m'. carry U. by split_and!.
Qed.

Lemma shape_dom m t a : shape m t -> a ∈ inorder t -> is_Some (m !! a).
Proof.
  induction t as [|c b l IHl r IHr]; cbn; [set_solver|].
  intros ((n & Hn & _) & Hl & Hr) [Ha|[->|Ha]%elem_of_cons]%elem_of_app; eauto.
Qed.

(** ** Red-black trees in their context *)

Definition rb k t : Prop := exists b n, ctx_rb k b n /\ is_rb b t n.

Lemma rb_down k d c a x y : rb k (mk d c a x y) -> rb (F d c a y :: k) x.
Proof.
  intros (b & n & Hk & Ht%is_rb_mk_inv). destruct c.
  - destruct Ht as (-> & Hx & Hy). exists true, n. by cbn.
  - destruct Ht as (n' & -> & Hx & Hy). exists false, n'. cbn. eauto.
Qed.

Lemma ctx_rb_black k b n : ctx_rb k b n -> red1 k = false -> b = false.
Proof. destruct k as [|f k]; [done|]. cbn. intros H Hr. rewrite Hr in H. apply H. Qed.

(** The next step of the search. *)
Definition far (d : bool) (l r : tree) : tree := if d then l else r.

(** *** The sequence around a subtree *)

Fixpoint lefts k : list Z :=
  match k with [] => [] | f :: k => lefts k ++ (if f_dir f then inorder (f_sib f) ++ [f_addr f] else []) end.
Fixpoint rights k : list Z :=
  match k with [] => [] | f :: k => (if f_dir f then [] else f_addr f :: inorder (f_sib f)) ++ rights k end.

Lemma order_ctx_app k : forall l, order_ctx k l = lefts k ++ l ++ rights k.
Proof.
  induction k as [|f k IH]; intros l; cbn; [by rewrite app_nil_r|]. rewrite IH. destruct (f_dir f); cbn; rewrite <- ?app_assoc; done.
Qed.

Lemma rb_plug k t : rb k t -> exists n, is_rb false (plug k t) n.
Proof. intros (b & n & Hk & Ht). by eapply plug_rb. Qed.

End Trees.

Section Path.

(** The keys on the path satisfy [ok]. *)
Context {V : Type} {cmp : V -> Z} {ok : Z -> Prop}.
Implicit Types (m : gmap Z (RB_node_t V)) (k : list frame) (t : tree).

(** ** Keys *)

(** The sign of the comparison at a node. *)
Definition key m (a : Z) : Z := match m !! a with Some n => cmp (n_data n) | None => 0 end.

(** In order, from the first node that is not below the key on all are above it. *)
Definition key_sorted m (l : list Z) : Prop := StronglySorted (fun a b => 0 <= key m a -> 0 < key m b) l.

(** The path is the one a search takes. *)
Definition on_path m k : Prop := Forall (fun f => ok (key m (f_addr f)) /\ f_dir f = (key m (f_addr f) <? 0)) k.

Lemma key_vals m m' a : vals m' = vals m -> key m' a = key m a.
Proof.
  intros H. assert (E : vals m' !! a = vals m !! a) by (by rewrite H). unfold vals in E. rewrite !lookup_fmap in E. unfold key.
  destruct (m' !! a) as [n'|], (m !! a) as [n|]; cbn in E; [|done..]. by injection E as -> _ _.
Qed.

Lemma on_path_vals m m' k : vals m' = vals m -> on_path m k -> on_path m' k.
Proof. intros H Hk. eapply Forall_impl; [exact Hk|]. intros f. cbn. by rewrite (key_vals _ _ _ H). Qed.

Lemma key_sorted_vals m m' l : vals m' = vals m -> key_sorted m l -> key_sorted m' l.
Proof. intros H. unfold key_sorted. apply StronglySorted_impl. intros a b. by rewrite !(key_vals _ _ _ H). Qed.

(** ** The subtree in its context *)

(** The memory holds [t] below [k]. *)
Record holds m k t : Prop := {
  h_ctx : shape_ctx m k (addr t);
  h_tree : shape m t;
  h_distinct : distinct k t;
  h_path : on_path m k
}.

Lemma holds_zero m k t : holds m k t -> 0 ∉ inorder t /\ 0 ∉ ctx_nodes k.
Proof. intros H. destruct (h_distinct _ _ _ H) as [_ H0]. unfold all_nodes in H0. by rewrite not_elem_of_app in H0. Qed.

Lemma holds_nodup m k t : holds m k t -> NoDup (inorder t) /\ NoDup (ctx_nodes k) /\ forall a, a ∈ inorder t -> a ∉ ctx_nodes k.
Proof. intros H. destruct (h_distinct _ _ _ H) as [Hn _]. unfold all_nodes in Hn. apply NoDup_app in Hn as (? & ? & ?). done. Qed.

(** Going up and down. *)
Lemma holds_mk m k d c a x y : ok (key m a) -> d = (key m a <? 0) ->
  holds m k (mk d c a x y) <-> holds m (F d c a y :: k) x.
Proof.
  intros Hk Hd. split; intros [H1 H2 H3 H4].
  - apply shape_mk in H2 as (H2 & H5 & H6). rewrite addr_mk in H1. split; [cbn; auto|done| |by constructor].
    eapply distinct_perm; [|exact H3]. rewrite all_mk. unfold all_nodes. cbn. by rewrite <- Permutation_middle.
  - cbn in H1. destruct H1 as (H5 & H6 & H7). split; [by rewrite addr_mk|by apply shape_mk| |by apply Forall_cons in H4 as [_ ?]].
    eapply distinct_perm; [|exact H3]. rewrite all_mk. unfold all_nodes. cbn. by rewrite <- Permutation_middle.
Qed.

Lemma holds_down m k d c a x y : holds m k (mk d c a x y) -> ok (key m a) -> d = (key m a <? 0) -> holds m (F d c a y :: k) x.
Proof. intros H Hk Hd. by apply holds_mk. Qed.

Lemma holds_up m k f x : holds m (f :: k) x -> holds m k (mk (f_dir f) (f_red f) (f_addr f) x (f_sib f)).
Proof. intros H. destruct f as [d c a y]. pose proof (h_path _ _ _ H) as [[Hk Hd] _]%Forall_cons. by apply holds_mk. Qed.

(** Replacing the subtree, and the link to it. *)
Lemma holds_replace m m1 k t t' l :
  holds m k t -> upd m m1 l -> (forall a, a ∈ l -> a ∈ inorder t) -> shape m1 t' -> inorder t' ≡ₚ inorder t ->
  exists m2, rb_put (set_n_link (dirk k) (addr t')) m1 (parent k) = Ok m2 /\ holds m2 k t' /\ vals m2 = vals m.
Proof.
  intros H U Hl Ht Hp. destruct (holds_nodup _ _ _ H) as (N1 & N2 & N3).
  assert (Hk : shape_ctx m1 k (addr t)).
  { eapply shape_ctx_frame; [done| |apply (h_ctx _ _ _ H)]. intros a Ha Hal. by apply (N3 a); auto. }
  destruct (ctx_put m1 k (addr t) (addr t') Hk N2) as (m2 & E2 & K2 & U2). exists m2. split; [done|].
  assert (Hv : vals m2 = vals m) by (transitivity (vals m1); [apply U2|apply U]). split; [|done]. split; [done|..].
  - eapply shape_frame; [exact U2| |done]. intros a Ha. rewrite Hp in Ha. apply N3 in Ha. intros ->%list_elem_of_singleton.
    apply Ha. destruct k; cbn; set_solver.
  - eapply distinct_perm; [|apply (h_distinct _ _ _ H)]. unfold all_nodes. by rewrite Hp.
  - eapply on_path_vals; [exact Hv|]. apply (h_path _ _ _ H).
Qed.

Lemma IsRed_tree m k t : holds m k t -> RB_IsRed m (addr t) = Ok (is_red t).
Proof. intros H. apply IsRed_shape; [apply (h_tree _ _ _ H)|apply (holds_zero _ _ _ H)]. Qed.

Lemma IsRed_up1 m k t : holds m k t -> RB_IsRed m (up1 k) = Ok (red1 k).
Proof.
  intros H. destruct (holds_zero _ _ _ H) as [_ H0]. pose proof (h_ctx _ _ _ H) as Hc. destruct k as [|f k]; [done|]. cbn in *.
  destruct Hc as ((n & Hn & Hr & _) & _). unfold RB_IsRed. rewrite (proj2 (Z.eqb_neq _ _)) by set_solver. rewrite Hn. cbn. by rewrite Hr.
Qed.

(** The address of the tree is not that of the sibling. *)
Lemma addr_sib m d c a s k t : holds m (F d c a s :: k) t -> t <> E -> addr t <> addr s.
Proof.
  intros H Ht E. destruct (h_distinct _ _ _ H) as [Hn H0]. unfold all_nodes in *. cbn in *. destruct t as [|c1 q l r]; [done|]. cbn in *.
  destruct s as [|c2 b l2 r2]; cbn in *; [set_solver|]. subst b. apply NoDup_app in Hn as (_ & Hn & _). apply (Hn q); set_solver.
Qed.

Lemma holds_same m m1 k t t' l :
  holds m k t -> upd m m1 l -> (forall a, a ∈ l -> a ∈ inorder t) -> shape m1 t' -> inorder t' = inorder t -> addr t' = addr t ->
  holds m1 k t'.
Proof.
  intros H U Hl Ht Hp Ha. destruct (holds_nodup _ _ _ H) as (N1 & N2 & N3). split.
  - rewrite Ha. eapply shape_ctx_frame; [done| |apply (h_ctx _ _ _ H)]. intros a Hk Hal. by apply (N3 a); auto.
  - done.
  - eapply distinct_perm; [|apply (h_distinct _ _ _ H)]. unfold all_nodes. by rewrite Hp.
  - eapply on_path_vals; [apply U|]. apply (h_path _ _ _ H).
Qed.

(** The whole tree. *)
Lemma holds_plug m k : forall t, holds m k t -> holds m [] (plug k t).
Proof. induction k as [|f k IH]; intros t H; [done|]. cbn. apply IH. by apply holds_up. Qed.

Lemma holds_agree m m' k t : (forall a, a ∈ all_nodes k t -> lk m' a = lk m a /\ key m' a = key m a) -> holds m k t -> holds m' k t.
Proof.
  intros Ha [H1 H2 H3 H4]. unfold all_nodes in Ha. setoid_rewrite elem_of_app in Ha. split; [..|done|].
  - eapply shape_ctx_agree; [|done]. intros a Hk. apply Ha. by right.
  - eapply shape_agree; [|done]. intros a Ht. apply Ha. by left.
  - clear - H4 Ha. assert (Hk : forall f, f ∈ k -> key m' (f_addr f) = key m (f_addr f)).
    { intros f Hf. apply Ha. right. clear - Hf. induction k as [|g k IH]; [set_solver|]. cbn. rewrite elem_of_cons, elem_of_app.
      apply elem_of_cons in Hf as [->|Hf]; [by left|]. auto. }
    unfold on_path in *. rewrite Forall_forall in *. intros f Hf. rewrite Hk by done. auto.
Qed.

Lemma links_agree m m' a : links m' !! a = links m !! a -> lk m' a = lk m a /\ key m' a = key m a.
Proof.
  unfold links. rewrite !lookup_fmap. unfold lk, key. intros E. destruct (m' !! a), (m !! a); cbn in E; try done.
  injection E as E1 E2 E3 E4. cbn. by rewrite E1, E2, E3, E4.
Qed.

Lemma holds_links m m' k t : links m' = links m -> holds m k t -> holds m' k t.
Proof. intros H. apply holds_agree. intros a _. apply links_agree. by rewrite H. Qed.

Lemma holds_dom m k t a : holds m k t -> a ∈ all_nodes k t -> is_Some (m !! a).
Proof.
  intros [H1 H2 _ _] [Ha|Ha]%elem_of_app; [by eapply shape_dom|]. revert Ha H1. clear H2. generalize (addr t). clear t.
  induction k as [|f k IH]; intros h; cbn.
  - intros ->%list_elem_of_singleton (n & Hn & _). eauto.
  - intros [->|[Ha|Ha]%elem_of_app]%elem_of_cons ((n & Hn & _) & Hs & Hk); [eauto|by eapply shape_dom|by eapply IH].
Qed.

(** The nodes to the left of the path are below the key, those to the right above. *)
Lemma path_split m k : key_sorted m (lefts k ++ rights k) -> Forall (fun f => key m (f_addr f) <> 0) k -> on_path m k ->
  Forall (fun a => key m a < 0) (lefts k) /\ Forall (fun a => 0 < key m a) (rights k).
Proof.
  unfold key_sorted. induction k as [|f k IH]; intros Hs Hz Hp; [done|]. apply Forall_cons in Hp as [[_ Hd] Hp], Hz as [Hz Hz'].
  cbn in *. destruct (f_dir f); symmetry in Hd; cbn in *; rewrite ?app_nil_r in *; rewrite <- ?app_assoc in Hs; cbn in Hs; bools.
  - destruct IH as [IH1 IH2]; [|done|done|].
    { change (f_addr f :: rights k) with ([f_addr f] ++ rights k) in Hs. rewrite (assoc (++) (inorder _)) in Hs. by apply StronglySorted_mid in Hs. }
    split; [|done]. apply StronglySorted_app_1_r, (proj1 (StronglySorted_app _ _ _)) in Hs as (Hs & _).
    rewrite !Forall_app. split_and!; [done| |by constructor]. apply Forall_forall. intros a Ha. specialize (Hs a (f_addr f) Ha ltac:(by left)). lia.
  - destruct IH as [IH1 IH2]; [|done|done|].
    { rewrite app_comm_cons in Hs. by apply StronglySorted_mid in Hs. }
    split; [done|]. apply StronglySorted_app_1_r, StronglySorted_inv in Hs as [_ [Hs _]%Forall_app].
    constructor; [lia|]. apply Forall_app. split; [|done]. eapply Forall_impl; [exact Hs|]. cbn. lia.
Qed.

(** ** Steps of the search *)

Definition next_k m k t : list frame :=
  match t with E => k | T c a l r => F (key m a <? 0) c a (far (key m a <? 0) l r) :: k end.
Definition next_t m t : tree :=
  match t with E => E | T c a l r => far (negb (key m a <? 0)) l r end.

Lemma T_next m c a l r : T c a l r = mk (key m a <? 0) c a (next_t m (T c a l r)) (far (key m a <? 0) l r).
Proof. cbn. by destruct (key m a <? 0). Qed.

Lemma next_mk m d c a x y : d = (key m a <? 0) -> next_t m (mk d c a x y) = x /\ forall k, next_k m k (mk d c a x y) = F d c a y :: k.
Proof. intros ->. unfold mk, next_k, next_t, far. by destruct (key m a <? 0) eqn:E; rewrite E. Qed.

Lemma next_order m k t : t <> E -> order_ctx (next_k m k t) (inorder (next_t m t)) = order_ctx k (inorder t).
Proof. destruct t as [|c a l r]; [done|]. intros _. cbn. by destruct (key m a <? 0). Qed.

Lemma next_holds m k t : holds m k t -> rb k t -> t <> E -> ok (key m (addr t)) ->
  holds m (next_k m k t) (next_t m t) /\ rb (next_k m k t) (next_t m t) /\
  rb_get (n_link (key m (addr t) <? 0)) m (addr t) = Ok (addr (next_t m t)).
Proof.
  intros H Hrb Ht Hk. destruct t as [|c a l r]; [done|]. rewrite (T_next m) in H, Hrb. cbn [addr] in *. split_and!.
  - by apply holds_down in H.
  - by apply rb_down in Hrb.
  - apply h_tree, shape_mk in H as (H & _). by apply get_near in H.
Qed.

Lemma next_length m t : t <> E -> (length (inorder (next_t m t)) < length (inorder t))%nat.
Proof. destruct t as [|c a l r]; [done|]. intros _. cbn. rewrite length_app. cbn. destruct (key m a <? 0); cbn; lia. Qed.

End Path.

Arguments key {V} cmp m a.
Arguments key_sorted {V} cmp m l.
Arguments on_path {V} cmp ok m k.
Arguments holds {V} cmp ok m k t.
Arguments next_k {V} cmp m k t.
Arguments next_t {V} cmp m t.
