(* ===== verification/RBInv.v ===== *)
(** * Red-black trees: the invariant, lookups and iteration (src/lib/tmpl/rbtree-impl.h)

    A tree represents the sequence of its values in order, with the addresses of
    their nodes.  Lookups and the iterators do on the tree what the operations of
    OrdTree.v do on the sequence. *)

From S2P Require Import Prelude CLib OrdTree RBTree RBShape RBChain RBPath.

#[local] Arguments mk : simpl never.

(** ** The invariant *)

Section Inv.

Context {V : Type}.
Implicit Types (m : gmap Z (RB_node_t V)) (s : RB_t V) (t : tree) (l : list (Z * V)).

(** Tree [t] is the one in memory: black at the root, no red node below a red
    one, as many black nodes on every path, and the nodes chained in order. *)
Record rb_inv s l t : Prop := {
  i_rb : exists n, is_rb true t n;
  i_shape : shape (t_mem s) t;
  i_root : addr t = t_root s;
  i_order : inorder t = l.*1;
  i_nodup : NoDup (0 :: HEAD :: l.*1);
  i_chain : chained s l;
  i_size : t_size s = u64 (Z.of_nat (length l));
  i_dom : dom (t_mem s) = list_to_set l.*1
}.

Definition is_rbtree s l : Prop := exists t, rb_inv s l t.

Lemma is_rbtree_init s : t_mem s = ∅ -> is_rbtree (RB_Init s) [].
Proof.
  intros H. exists E. split; cbn; try done; [exists 0%nat; constructor|repeat constructor; set_solver|by rewrite H, dom_empty_L].
Qed.

Lemma i_zero s l t : rb_inv s l t -> 0 ∉ inorder t.
Proof. intros I. rewrite (i_order _ _ _ I). pose proof (i_nodup _ _ _ I) as [H _]%NoDup_cons. set_solver. Qed.

Lemma i_notin s l t : rb_inv s l t -> t_mem s !! HEAD = None /\ t_mem s !! 0 = None.
Proof.
  intros I. pose proof (i_nodup _ _ _ I) as [H0 [H1 _]%NoDup_cons]%NoDup_cons. rewrite <- !not_elem_of_dom, (i_dom _ _ _ I), !elem_of_list_to_set. set_solver.
Qed.

Lemma vals_dom m m' : vals m' = vals m -> dom m' = dom m.
Proof. intros H. apply (f_equal dom) in H. unfold vals in H. by rewrite !dom_fmap_L in H. Qed.

Lemma mem_size s l t : rb_inv s l t -> size (t_mem s) = length (inorder t).
Proof.
  intros I. rewrite (i_order _ _ _ I). pose proof (i_nodup _ _ _ I) as [_ [_ H]%NoDup_cons]%NoDup_cons.
  by rewrite <- size_dom, (i_dom _ _ _ I), size_list_to_set.
Qed.

Lemma i_lookup s l t a v : rb_inv s l t -> (a, v) ∈ l -> exists n, t_mem s !! a = Some n /\ n_data n = v.
Proof.
  intros I Ha. destruct (i_chain _ _ _ I) as [Hc _]. revert Hc Ha. generalize 0 at 1. generalize 0. generalize l. clear.
  induction l as [|[b w] l IH]; intros nx pv; cbn; [set_solver|]. intros [Hb Hl] [[= -> ->]|Ha]%elem_of_cons; [|by eapply IH].
  rewrite vals_lookup in Hb. destruct (t_mem s !! b) as [n|]; [|done]. exists n. by injection Hb as -> _ _.
Qed.

(** ** Sizes *)

Lemma Count_spec m t : forall fuel, shape m t -> 0 ∉ inorder t -> (length (inorder t) < fuel)%nat ->
  RB_Count fuel m (addr t) = Ok (u64 (Z.of_nat (length (inorder t)))).
Proof.
  induction t as [|c a l IHl r IHr]; intros [|fuel]; cbn; try lia; [done|]. rewrite length_app. cbn.
  intros ((n & Hn & _ & Hl & Hr) & Sl & Sr) H0 Hf. rewrite elem_of_app, elem_of_cons in H0.
  rewrite (proj2 (Z.eqb_neq _ _)) by (intros ->; tauto). rewrite Hn. cbn in *. rewrite Hl, Hr, IHl, bind_ret_l, IHr, bind_ret_l by (tauto || lia).
  f_equal. unfold u64. rewrite Zplus_mod_idemp_l, Zplus_mod_idemp_r, (Z.add_comm 1), <- Z.add_assoc, Zplus_mod_idemp_l. f_equal. lia.
Qed.

Lemma CHECK_COUNT_ok s l t : rb_inv s l t -> CHECK_COUNT s = Ok tt.
Proof.
  intros I. unfold CHECK_COUNT. rewrite <- (i_root _ _ _ I), (Count_spec _ t), bind_ret_l.
  - unfold RB_Size. rewrite (i_size _ _ _ I), (i_order _ _ _ I), length_fmap. by rewrite Z.eqb_refl.
  - apply I.
  - by eapply i_zero.
  - rewrite (mem_size _ _ _ I). lia.
Qed.

End Inv.

(** ** Lookups *)

Section Find.

Context {V : Type} (cmp : V -> Z).
Implicit Types (m : gmap Z (RB_node_t V)) (s : RB_t V) (t : tree) (l : list (Z * V)).

Definition cmp2 (p : Z * V) : Z := cmp p.2.

(** From the first value that is not below the key on all are above it. *)
Definition sorted_for l : Prop := StronglySorted (fun p q => 0 <= cmp2 p -> 0 < cmp2 q) l.

Lemma sorted_at l1 p l2 : sorted_for (l1 ++ p :: l2) -> sorted_for l1 /\ sorted_for l2 /\
  (cmp2 p <= 0 -> Forall (fun q => cmp2 q < 0) l1) /\ (0 <= cmp2 p -> Forall (fun q => 0 < cmp2 q) l2).
Proof.
  intros (H1 & H2 & [H3 H4]%StronglySorted_inv)%StronglySorted_app. split_and!; [done|done|..].
  - intros Hp. apply Forall_forall. intros q Hq. specialize (H1 q p Hq ltac:(by left)). cbn in H1. lia.
  - intros Hp. eapply Forall_impl; [exact H4|]. cbn. auto.
Qed.

(** One step down, for each relation. *)
Lemma find_step rel l1 p l2 : sorted_for (l1 ++ p :: l2) ->
  tree_find cmp2 rel (l1 ++ p :: l2) =
    match rel with
    | RB_EQ => if cmp2 p =? 0 then Some p else tree_find cmp2 RB_EQ (if cmp2 p <? 0 then l2 else l1)
    | RB_LT => if cmp2 p <? 0 then Some (default p (tree_find cmp2 RB_LT l2)) else tree_find cmp2 RB_LT l1
    | RB_GE => if cmp2 p <? 0 then tree_find cmp2 RB_GE l2 else
               if cmp2 p =? 0 then Some p else Some (default p (tree_find cmp2 RB_GE l1))
    end.
Proof.
  intros (_ & _ & Hl & Hr)%sorted_at. destruct rel; cbn [tree_find].
  - rewrite find_first_app. cbn. destruct (Z.eqb_spec (cmp2 p) 0) as [E|E].
    + erewrite find_first_not; [done|apply Hl; lia|]. cbn. intros x Hx. apply Z.eqb_neq. lia.
    + destruct (Z.ltb_spec (cmp2 p) 0).
      * erewrite find_first_not; [done|apply Hl; lia|]. cbn. intros x Hx. apply Z.eqb_neq. lia.
      * destruct (find_first _ l1); [done|]. eapply find_first_not; [apply Hr; lia|]. cbn. intros x Hx. apply Z.eqb_neq. lia.
  - rewrite rev_app_distr. cbn [rev]. rewrite <- app_assoc, find_first_app. cbn. destruct (Z.ltb_spec (cmp2 p) 0).
    + by destruct (find_first _ (rev l2)).
    + erewrite find_first_not; [done|apply Forall_rev, Hr; lia|]. cbn. intros x Hx. apply Z.ltb_ge. lia.
  - rewrite find_first_app. cbn. destruct (Z.ltb_spec (cmp2 p) 0) as [E|E].
    + erewrite find_first_not; [|apply Hl; lia|cbn; intros x Hx; apply Z.leb_gt; lia]. by rewrite (proj2 (Z.leb_gt _ _)).
    + rewrite (proj2 (Z.leb_le _ _)) by done. destruct (Z.eqb_spec (cmp2 p) 0); [|by destruct (find_first _ l1)].
      erewrite find_first_not; [done|apply Hl; lia|]. cbn. intros x Hx. apply Z.leb_gt. lia.
Qed.

Lemma RBFindLoop_spec m t rel : forall fuel l best, shape m t -> 0 ∉ inorder t -> (length (inorder t) < fuel)%nat -> inorder t = l.*1 ->
  (forall p, p ∈ l -> exists n, m !! p.1 = Some n /\ n_data n = p.2) -> sorted_for l ->
  RBFindLoop fuel m cmp rel (addr t) best = Ok (default best (fst <$> tree_find cmp2 rel l)).
Proof.
  induction t as [|c a tl IHl tr IHr]; intros [|fuel] l best; cbn [inorder]; try lia; intros Hs H0 Hf El Hd Hso.
  { destruct l; [|done]. by destruct rel. }
  destruct Hs as ((n & Hn & _ & Hl & Hr) & Sl & Sr). rewrite length_app in Hf. cbn in Hf. rewrite elem_of_app, elem_of_cons in H0.
  symmetry in El. apply fmap_app_inv in El as (l1 & l2' & E1 & E2 & ->). destruct l2' as [|p l2]; [done|]. cbn in E2. injection E2 as Ea E2. subst a.
  destruct (Hd p) as (n' & Hn' & Dp); [set_solver|]. rewrite Hn in Hn'. injection Hn' as <-. pose proof (sorted_at _ _ _ Hso) as (S1 & S2 & _).
  rewrite (find_step _ _ _ _ Hso). cbn [RBFindLoop addr]. rewrite (proj2 (Z.eqb_neq _ _)) by (intros Ez; rewrite Ez in H0; tauto). rewrite Hn. cbn [deref].
  rewrite bind_ret_l. change (cmp (n_data n)) with (cmp2 (n_link0 n, n_data n)). rewrite Dp. change (cmp2 (n_link0 n, p.2)) with (cmp2 p).
  assert (IL : forall b, RBFindLoop fuel m cmp rel (n_link0 n) b = Ok (default b (fst <$> tree_find cmp2 rel l1))).
  { intros b. rewrite (Hl : n_link0 n = _). apply IHl; [done|tauto|lia|done| |done]. intros q Hq. apply Hd. set_solver. }
  assert (IR : forall b, RBFindLoop fuel m cmp rel (n_link1 n) b = Ok (default b (fst <$> tree_find cmp2 rel l2))).
  { intros b. rewrite (Hr : n_link1 n = _). apply IHr; [done|tauto|lia|done| |done]. intros q Hq. apply Hd. set_solver. }
  unfold n_link. destruct rel.
  - destruct (cmp2 p =? 0); [done|]. destruct (cmp2 p <? 0); auto.
  - destruct (cmp2 p <? 0); [|auto]. rewrite IR. by destruct (tree_find _ _ l2).
  - destruct (Z.ltb_spec (cmp2 p) 0); [rewrite (proj2 (Z.eqb_neq _ _)), (proj2 (Z.ltb_ge _ _)) by lia; auto|].
    destruct (Z.eqb_spec (cmp2 p) 0); [done|]. rewrite (proj2 (Z.ltb_lt _ _)) by lia. rewrite IL. by destruct (tree_find _ _ l1).
Qed.

(** The address of the value that is searched, or NULL. *)
Lemma RB_Find_spec s l rel : is_rbtree s l -> sorted_for l -> RB_Find s cmp rel = Ok (default 0 (fst <$> tree_find cmp2 rel l)).
Proof.
  intros [t I] Hs. unfold RB_Find, RB_FindImpl. rewrite <- (i_root _ _ _ I). apply RBFindLoop_spec; [apply I|by eapply i_zero| |apply I| |done].
  - rewrite (mem_size _ _ _ I). lia.
  - intros [a v] Ha. by eapply i_lookup.
Qed.

Lemma chain_key m l : forall pv nx p, chain (vals m) pv l nx -> p ∈ l -> key cmp m p.1 = cmp2 p.
Proof.
  induction l as [|[b w] l IH]; intros pv nx p; cbn; [set_solver|]. intros [Hb Hl] [->|Hp]%elem_of_cons; [|by eapply IH].
  cbn. rewrite vals_lookup in Hb. unfold key. destruct (m !! b); [|done]. by injection Hb as -> _ _.
Qed.

Lemma key_sorted_of m (l : list (Z * V)) : forall pv nx, chain (vals m) pv l nx -> sorted_for l -> key_sorted cmp m l.*1.
Proof.
  induction l as [|p l IH]; intros pv nx Hc; [constructor|]. intros [Hs Hp]%StronglySorted_inv. cbn. constructor.
  - destruct p as [a v]. destruct Hc as [_ Hc]. by eapply IH.
  - apply Forall_fmap. rewrite Forall_forall in Hp |- *. intros q Hq. cbn. rewrite !(chain_key m (p :: l) pv nx) by (done || set_solver). by apply Hp.
Qed.

Lemma RB_FindIter_spec s l rel : is_rbtree s l -> sorted_for l -> RB_FindIter s cmp rel = Ok (fst <$> tree_find cmp2 rel l).
Proof.
  intros Ht Hs. unfold RB_FindIter. rewrite (RB_Find_spec _ _ rel Ht Hs : RB_FindImpl _ _ _ = _), bind_ret_l.
  assert (Hin : forall p, tree_find cmp2 rel l = Some p -> p ∈ l).
  { intros p. destruct rel; cbn; intros (l1 & l2 & E & _)%find_first_Some; [|rewrite list_elem_of_In, in_rev, <- list_elem_of_In|]; rewrite E; set_solver. }
  destruct (tree_find cmp2 rel l) as [[a v]|]; [|done]. cbn. destruct Ht as [t I]. destruct (Z.eqb_spec a 0) as [->|]; [|done].
  specialize (Hin _ eq_refl). pose proof (i_nodup _ _ _ I) as [H _]%NoDup_cons. exfalso. apply H. right.
  apply (list_elem_of_fmap_2 fst) in Hin. done.
Qed.

End Find.

(** ** Iteration *)

Section Iteration.

Context {V : Type}.
Implicit Types (m : gmap Z (RB_node_t V)) (s : RB_t V) (t : tree) (l : list (Z * V)).

Lemma iterate_at s l1 a v l2 : is_rbtree s (l1 ++ (a, v) :: l2) ->
  exists n, t_mem s !! a = Some n /\ n_data n = v /\ n_next n = hda 0 l2 /\ n_prev n = enda 0 l1 /\
    (n_next n = 0 <-> l2 = []) /\ (n_prev n = 0 <-> l1 = []).
Proof.
  intros [t I]. destruct (i_chain _ _ _ I) as [Hc _]. apply order_chain_app in Hc as (_ & Ha & _). rewrite vals_lookup in Ha.
  destruct (t_mem s !! a) as [n|]; [|done]. exists n. injection Ha as H1 H2 H3. do 4 (split; [done|]).
  pose proof (i_nodup _ _ _ I) as [Hz _]%NoDup_cons. rewrite elem_of_cons, fmap_app, elem_of_app in Hz. cbn in Hz. rewrite elem_of_cons in Hz.
  rewrite H2, H3. split.
  - destruct l2 as [|[b w] l2]; [done|]. cbn. split; [|done]. intros ->. exfalso. apply Hz. right. right. right. cbn. by left.
  - destruct l1 as [|[b w] l1]; [done|]. cbn. split; [|done]. intros E. exfalso. apply Hz. right. left. cbn.
    destruct (enda_in l1 b) as [Hb|Hb]; rewrite E in Hb; [subst; by left|by right].
Qed.

(** The first and the last value, and the neighbours of a value. *)
Lemma RB_First_spec s a v l : is_rbtree s ((a, v) :: l) -> RB_First s = a.
Proof. intros [t I]. by destruct (proj2 (i_chain _ _ _ I)). Qed.

Lemma RB_Last_spec s a v l : is_rbtree s (l ++ [(a, v)]) -> RB_Last s = a.
Proof. intros [t I]. destruct (proj2 (i_chain _ _ _ I)) as [_ H]; [by destruct l|]. by rewrite enda_app in H. Qed.

Lemma RB_Iterator_Next_spec s l1 a v l2 : is_rbtree s (l1 ++ (a, v) :: l2) ->
  RB_Iterator_Next s a = Ok (match l2 with [] => (a, false) | (b, _) :: _ => (b, true) end) /\
  RB_Iterator_HasNext s a = Ok (bool_decide (l2 <> [])).
Proof.
  intros (n & Hn & _ & H2 & _ & H4 & _)%iterate_at. unfold RB_Iterator_Next, RB_Iterator_HasNext. rewrite Hn. cbn.
  destruct (Z.eqb_spec (n_next n) 0) as [E|E].
  - by rewrite (proj1 H4 E).
  - destruct l2 as [|[b w] l2]; [tauto|]. by rewrite H2.
Qed.

Lemma RB_Iterator_Prev_spec s l1 a v l2 : is_rbtree s (l1 ++ (a, v) :: l2) ->
  RB_Iterator_Prev s a = Ok (if decide (l1 = []) then (a, false) else (enda 0 l1, true)) /\
  RB_Iterator_HasPrev s a = Ok (bool_decide (l1 <> [])).
Proof.
  intros (n & Hn & _ & _ & H3 & _ & H5)%iterate_at. unfold RB_Iterator_Prev, RB_Iterator_HasPrev. rewrite Hn. cbn.
  destruct (Z.eqb_spec (n_prev n) 0) as [E|E].
  - rewrite (proj1 H5 E). by rewrite decide_True.
  - destruct l1 as [|[b w] l1]; [tauto|]. rewrite decide_False by done. by rewrite H3.
Qed.

(** ** Release *)

(** Every rotation moves a node to the right spine, every release takes one away. *)
Fixpoint work t : nat := match t with E => 1 | T _ _ l r => 1 + 2 * length (inorder l) + work r end.

Lemma work_bound t : (work t <= S (2 * length (inorder t)))%nat.
Proof. induction t as [|c a l IHl r IHr]; cbn; [lia|]. rewrite length_app. cbn. lia. Qed.

Definition data m (a : Z) : option V := n_data <$> m !! a.

Lemma Release_rotate m c1 a c2 b x y z : shape m (T c1 a (T c2 b x y) z) -> NoDup (inorder (T c1 a (T c2 b x y) z)) ->
  exists m1 m2, rb_get (n_link true) m b = Ok (addr y) /\ rb_put (set_n_link false (addr y)) m a = Ok m1 /\
    rb_put (set_n_link true a) m1 b = Ok m2 /\ shape m2 (T c2 b x (T c1 a y z)) /\ upd m m2 [a; b].
Proof.
  cbn. intros (Ha & (Hb & Hx & Hy) & Hz) Hn. rewrite <- app_assoc in Hn. cbn in Hn. rewrite <- !Permutation_middle in Hn. nodup Hn.
  rewrite (get_far _ _ _ false _ _ Hb : rb_get (n_link true) m b = _).
  destruct (put_near _ _ _ _ _ _ (addr y) Ha) as (m1 & E1 & A1 & U1). carry U1.
  destruct (put_far _ _ _ false _ _ a Hb) as (m2 & E2 & A2 & U2). carry U2. exists m1, m2. split_and!; try done.
  eapply upd_incl; [exact (upd_trans _ _ _ _ _ U1 U2)|done].
Qed.

Lemma Release_spec fuel : forall m t, shape m t -> NoDup (0 :: inorder t) -> (work t <= fuel)%nat ->
  exists m' lv, RBReleaseLoop fuel m (addr t) = Ok (m', lv) /\ Some <$> lv = data m <$> inorder t /\
    forall a, m' !! a = if decide (a ∈ inorder t) then None else m !! a.
Proof.
  induction fuel as [|fuel IH]; intros m t Hs Hn Hw; [by destruct t; cbn in Hw; lia|]. destruct t as [|c a l r].
  { eexists m, []. split_and!; [done|done|]. intros a. rewrite decide_False; [done|]. apply not_elem_of_nil. }
  pose proof Hs as (Ha & Hl & Hr). pose proof Ha as (n & En & _ & Ll & Lr). apply NoDup_cons in Hn as [H0 Hn].
  assert (Ha0 : a <> 0) by (intros ->; apply H0; cbn; set_solver). cbn [RBReleaseLoop addr]. rewrite (proj2 (Z.eqb_neq _ _)) by done.
  rewrite En. cbn [deref]. rewrite bind_ret_l. cbn in Ll, Lr. rewrite Ll, Lr. destruct l as [|c2 b x y].
  - cbn in *. apply NoDup_cons in Hn as [Hna Hn].
    destruct (IH (delete a m) r) as (m' & lv & -> & Ed & Hm'); [|by constructor; [set_solver|]|lia|].
    { eapply shape_agree; [|done]. intros e He. unfold lk. rewrite lookup_delete_ne; [done|]. by intros ->. }
    run. eexists _, _. split; [done|]. split.
    + cbn. rewrite Ed. unfold data at 2. rewrite En. cbn. f_equal. apply list_fmap_ext. intros i e He%list_elem_of_lookup_2.
      unfold data. rewrite lookup_delete_ne; [done|]. by intros ->.
    + intros e. rewrite Hm'. destruct (decide (e = a)) as [->|Hea].
      * rewrite lookup_delete_eq. rewrite (decide_True (P := a ∈ a :: _)) by (by left). by case_decide.
      * rewrite lookup_delete_ne by done. repeat case_decide; try done; set_solver.
  - cbn [addr]. rewrite (proj2 (Z.eqb_neq b 0)) by (intros ->; apply H0; cbn; set_solver).
    destruct (Release_rotate _ _ _ _ _ _ _ _ Hs Hn) as (m1 & m2 & -> & E1 & E2 & S2 & U2). rewrite bind_ret_l, E1, bind_ret_l, E2, bind_ret_l.
    assert (Eo : inorder (T c a (T c2 b x y) r) = inorder (T c2 b x (T c a y r))) by (cbn; by rewrite <- app_assoc). rewrite Eo in H0, Hn |- *.
    destruct (IH m2 _ S2) as (m' & lv & E' & Ed & Hm'); [by constructor| |].
    { cbn in *. rewrite length_app in Hw. cbn in *. lia. }
    cbn [addr] in E'. exists m', lv. split; [done|]. destruct U2 as [Vm Um]. split.
    + rewrite Ed. apply list_fmap_ext. intros i e _. unfold data. assert (vals m2 !! e = vals m !! e) as Ev by (by rewrite Vm).
      rewrite !vals_lookup in Ev. destruct (m2 !! e), (m !! e); cbn in *; congruence.
    + intros e. rewrite Hm'. case_decide; [done|]. apply Um. cbn in H. set_solver.
Qed.

(** [RB_Release] gives back all nodes, the values in order. *)
Lemma RB_Release_spec s l : is_rbtree s l -> exists s', RB_Release s = Ok (s', l.*2) /\ t_root s' = 0 /\ t_mem s' = ∅.
Proof.
  intros [t I]. unfold RB_Release. pose proof (i_nodup _ _ _ I) as [Hz [_ Hn]%NoDup_cons]%NoDup_cons.
  assert (Hn0 : NoDup (0 :: inorder t)) by (rewrite (i_order _ _ _ I); constructor; [set_solver|done]).
  destruct (Z.eqb_spec (t_root s) 0) as [E|E]; cbn [negb].
  - assert (t = RBShape.E) as ->.
    { rewrite <- (i_root _ _ _ I) in E. destruct t as [|c a tl tr]; [done|]. cbn in E. subst. exfalso. apply NoDup_cons in Hn0 as [H _]. cbn in H. set_solver. }
    pose proof (i_order _ _ _ I) as El. destruct l; [|done]. exists s. split_and!; [done|done|]. apply dom_empty_inv_L. by rewrite (i_dom _ _ _ I).
  - rewrite <- (i_root _ _ _ I). pose proof (work_bound t).
    destruct (Release_spec (S (2 * size (t_mem s))) (t_mem s) t (i_shape _ _ _ I) Hn0) as (m' & lv & -> & Ed & Hm').
    { rewrite (mem_size _ _ _ I). lia. }
    run. assert (lv = l.*2) as ->.
    { apply (inj (fmap Some)). rewrite Ed, (i_order _ _ _ I), <- !list_fmap_compose. apply list_fmap_ext. intros i [a v] Ha%list_elem_of_lookup_2.
      destruct (i_lookup _ _ _ _ _ I Ha) as (n & Hn' & Hd). unfold data. cbn. rewrite Hn'. cbn. by rewrite Hd. }
    eexists. split_and!; [done|done|]. apply map_eq. intros a. change (m' !! a = (∅ : gmap Z (RB_node_t V)) !! a). rewrite Hm', lookup_empty.
    case_decide as Ha; [done|]. rewrite (i_order _ _ _ I) in Ha. apply not_elem_of_dom. rewrite (i_dom _ _ _ I). set_solver.
Qed.

End Iteration.

(** ** The false root *)

Section Head.

Context {V : Type} {cmp : V -> Z} {ok : Z -> Prop} (zero : V).
Implicit Types (m : gmap Z (RB_node_t V)) (s : RB_t V) (t : tree) (l : list (Z * V)).

#[local] Notation holds := (holds cmp ok).

(** The tree below the false root. *)
Definition with_head s : gmap Z (RB_node_t V) := <[HEAD := RBNode zero false 0 (t_root s) 0 0]> (t_mem s).

Lemma holds_head s l t : rb_inv s l t -> holds (with_head s) [] t.
Proof.
  intros I. pose proof (i_nodup _ _ _ I) as H. apply NoDup_cons in H as [H0 [H1 H2]%NoDup_cons]. rewrite <- (i_order _ _ _ I) in *. split.
  - eexists. split; [apply lookup_insert_eq|]. cbn. by rewrite (i_root _ _ _ I).
  - eapply shape_agree; [|apply I]. intros a Ha. unfold lk, with_head. rewrite lookup_insert_ne; [done|]. intros <-. done.
  - unfold distinct, all_nodes. cbn. split; [|set_solver]. apply NoDup_app. split_and!; [done| |by repeat constructor; set_solver].
    intros a Ha ->%list_elem_of_singleton. done.
  - constructor.
Qed.

Lemma chained_head s l t : rb_inv s l t -> chained (set_mem (with_head s) s) l.
Proof.
  intros I. destruct (i_chain _ _ _ I) as [Hc Hf]. split; [|exact Hf]. change (chain (vals (with_head s)) 0 l 0).
  eapply order_chain_frame; [|exact Hc]. intros b Hb. unfold with_head, vals. rewrite fmap_insert. apply lookup_insert_ne. intros <-.
  pose proof (i_nodup _ _ _ I) as [_ [H _]%NoDup_cons]%NoDup_cons. done.
Qed.

End Head.

Section Finish.

Context {V : Type} {cmp : V -> Z} {ok : Z -> Prop}.
Implicit Types (m : gmap Z (RB_node_t V)) (s : RB_t V) (t : tree) (l : list (Z * V)).

#[local] Notation holds := (holds cmp ok).

(** The end of an operation: the false root goes, and the root is made black. *)
Lemma finish s l t :
  holds (t_mem s) [] t -> (exists n, is_rb false t n) -> t <> E -> inorder t = l.*1 -> chained s l ->
  t_size s = u64 (Z.of_nat (length l)) -> dom (t_mem s) = {[HEAD]} ∪ list_to_set l.*1 ->
  rb_get (n_link true) (t_mem s) HEAD = Ok (addr t) /\
  exists m, rb_put (set_n_red false) (delete HEAD (t_mem s)) (addr t) = Ok m /\ is_rbtree (set_root (addr t) (set_mem m s)) l.
Proof.
  intros [H1 H2 [H3 H0] _] [n Hrb] Ht El [Hc Hfl] Hsz Hd. split; [apply (get_near _ _ _ _ _ _ H1)|].
  unfold all_nodes in H3, H0. cbn in H3, H0. apply NoDup_app in H3 as (N1 & N2 & _).
  assert (NH : HEAD ∉ inorder t) by (intros HH; apply (N2 _ HH); by left).
  assert (Hs : shape (delete HEAD (t_mem s)) t).
  { eapply shape_agree; [|exact H2]. intros a Ha. unfold lk. rewrite lookup_delete_ne; [done|]. by intros <-. }
  destruct (put_black _ _ Hs Ht N1) as (m & Em & Sm & [Vm Um]). exists m. split; [done|]. exists (black t).
  assert (V' : vals m = delete HEAD (vals (t_mem s))) by (rewrite Vm; unfold vals; by rewrite fmap_delete). split.
  - inversion Hrb; subst; eexists; cbn; constructor; eauto using is_rb_weak.
  - done.
  - by destruct t.
  - by rewrite inorder_black.
  - rewrite <- El. constructor; [set_solver|]. by constructor.
  - split; [|exact Hfl]. change (chain (vals m) 0 l 0). rewrite V'. eapply order_chain_frame; [|exact Hc]. intros a Ha. apply lookup_delete_ne.
    rewrite <- El in Ha. by intros <-.
  - done.
  - change (dom m = list_to_set l.*1). assert (E1 : dom (vals m) = dom m) by (unfold vals; by rewrite dom_fmap_L).
    rewrite <- E1, V', dom_delete_L. unfold vals. rewrite dom_fmap_L, Hd. rewrite <- El in *. set_solver.
Qed.

(** The same, for a tree that may be empty. *)
Lemma finish_any s l t :
  holds (t_mem s) [] t -> (exists n, is_rb false t n) -> inorder t = l.*1 -> chained s l ->
  t_size s = u64 (Z.of_nat (length l)) -> dom (t_mem s) = {[HEAD]} ∪ list_to_set l.*1 ->
  rb_get (n_link true) (t_mem s) HEAD = Ok (addr t) /\
  exists m, (if negb (addr t =? 0) then rb_put (set_n_red false) (delete HEAD (t_mem s)) (addr t) else Ok (delete HEAD (t_mem s))) = Ok m /\
    is_rbtree (set_root (addr t) (set_mem m s)) l.
Proof.
  intros H Hrb El Hc Hsz Hd. assert (Ht : t = E \/ t <> E) by (destruct t; auto). destruct Ht as [->|Ht].
  - split; [apply (get_near _ _ _ _ _ _ (h_ctx _ _ _ H))|]. cbn. eexists. split; [done|]. destruct l; [|done]. exists E. split; try done.
    + exists 0%nat. constructor.
    + repeat constructor; set_solver.
    + change (dom (delete HEAD (t_mem s)) = list_to_set []). rewrite dom_delete_L, Hd. cbn. set_solver.
  - destruct (finish s l t H Hrb Ht El Hc Hsz Hd) as [G F]. split; [done|]. destruct (holds_zero _ _ _ H) as [H0 _].
    rewrite (proj2 (Z.eqb_neq (addr t) 0)); [done|]. intros E0. apply H0. rewrite <- E0. by apply addr_in.
Qed.

End Finish.
