(* ===== verification/RBInsert.v ===== *)
(** * Insertion into red-black trees (src/lib/tmpl/rbtree-impl.h: RB_Insert)

    The loop goes down once, and repairs on the way: a black node with two red
    children is colored red, and a red node below a red one is rotated away.  The
    pointers to the grandparent and its parent are out of date for up to two steps
    after a rotation, in which they are not needed. *)

From S2P Require Import Prelude CLib OrdTree RBTree RBShape RBChain RBPath RBInv.

#[local] Arguments mk : simpl never.

Section Insert.

Context {V : Type} (cmp : V -> Z).
Implicit Types (m : gmap Z (RB_node_t V)) (k : list frame) (t : tree).

#[local] Notation key := (key cmp).
#[local] Notation holds := (holds cmp (fun z => z <> 0)).
#[local] Notation next_k := (next_k cmp).
#[local] Notation next_t := (next_t cmp).
#[local] Notation cmp2 := (cmp2 cmp).

(** A black node that will not become red. *)
Definition safe t : Prop := t <> E /\ is_red t = false /\
  match t with E => True | T _ _ l r => is_red l && is_red r = false end.

(** ** Rotations *)

Lemma Fix_none m k t tp g last : holds m k t -> is_red t && red1 k = false -> InsertFix m tp g (up1 k) (addr t) last = Ok m.
Proof.
  intros H Hr. unfold InsertFix. rewrite (IsRed_tree m k t H), bind_ret_l. destruct (is_red t); [|done]. cbn in Hr.
  by rewrite (IsRed_up1 m k t H), bind_ret_l, Hr.
Qed.

Lemma Fix_rotate m k d1 d p s1 g u q x y :
  holds m (F d1 true p s1 :: F d false g u :: k) (mk d true q x y) ->
  exists m', InsertFix m (parent k) g p q d = Ok m' /\ vals m' = vals m /\
    if Bool.eqb d1 d then holds m' (F d false p (mk d true g s1 u) :: k) (mk d true q x y)
    else holds m' k (mk d false q (mk d true p s1 x) (mk d true g y u)).
Proof.
  intros H. pose proof (h_path _ _ _ H) as Hp. apply Forall_cons in Hp as [[Kp Dp] [[Kg Dg] Hp]%Forall_cons]. cbn in Kp, Dp, Kg, Dg.
  assert (HG : holds m k (mk d false g (mk d1 true p (mk d true q x y) s1) u)) by apply (holds_up _ _ _ _ (holds_up _ _ _ _ H)).
  unfold InsertFix. pose proof (IsRed_tree _ _ _ H) as E1. rewrite addr_mk, is_red_mk in E1. rewrite E1, bind_ret_l.
  pose proof (IsRed_up1 _ _ _ H) as E2. cbn in E2. rewrite E2, bind_ret_l.
  destruct (ctx_dir m k _ (h_ctx _ _ _ HG) (h_distinct _ _ _ HG)) as (z & Ez & Hz); [by destruct d|]. rewrite addr_mk in Hz.
  rewrite Ez, bind_ret_l, Hz. pose proof (h_ctx _ _ _ H) as (Hpn & _). cbn in Hpn. rewrite addr_mk in Hpn.
  pose proof (addr_sib _ _ _ _ _ _ _ H) as Hsib. rewrite addr_mk in Hsib. specialize (Hsib ltac:(by destruct d)).
  destruct (holds_nodup _ _ _ HG) as (NG & _ & _). destruct (Bool.eqb d1 d) eqn:Ed.
  - apply Bool.eqb_prop in Ed as ->. rewrite (get_near _ _ _ _ _ _ Hpn), bind_ret_l, Z.eqb_refl.
    destruct (Single_spec m d false true g p (mk d true q x y) s1 u (h_tree _ _ _ HG) NG) as (m1 & -> & S1 & U1). run.
    destruct (holds_replace _ _ _ _ (mk d false p (mk d true q x y) (mk d true g s1 u)) _ HG U1) as (m2 & E3 & H2 & V2);
      [intros a; rewrite !inorder_mk, !order_perm; set_solver|done|by erewrite inorder_single|].
    rewrite addr_mk in E3. exists m2. split_and!; [done|done|]. apply holds_down; rewrite ?(key_vals _ _ _ V2); done.
  - assert (d1 = negb d) as -> by (by destruct d1, d). rewrite at_negb in Hpn. rewrite (get_near _ _ _ _ _ _ Hpn), bind_ret_l.
    rewrite (proj2 (Z.eqb_neq _ _)) by done. rewrite mk_negb in HG, NG.
    destruct (Double_spec m d false true true g p q s1 x y u (h_tree _ _ _ HG) NG) as (m1 & -> & S1 & U1). run.
    destruct (holds_replace _ _ _ _ (mk d false q (mk d true p s1 x) (mk d true g y u)) _ HG U1) as (m2 & E3 & H2 & V2);
      [intros a; rewrite !inorder_mk, !order_perm; set_solver|done|by erewrite inorder_double|].
    rewrite addr_mk in E3. exists m2. by split_and!.
Qed.

(** ** Color flips *)

(** A red node over its children, now black, when both were red. *)
Definition flip t : tree :=
  match t with
  | E => E
  | T c a l r => if is_red l && is_red r then T true a (black l) (black r) else t
  end.

Lemma inorder_flip t : inorder (flip t) = inorder t.
Proof. destruct t as [|c a l r]; [done|]. cbn. case_match; [|done]. cbn. by rewrite !inorder_black. Qed.

Lemma addr_flip t : addr (flip t) = addr t.
Proof. destruct t as [|c a l r]; [done|]. cbn. by case_match. Qed.

Lemma At_flip s k t v rn p dir result : holds (t_mem s) k t -> t <> E ->
  exists m1, InsertAt s v rn p (addr t) dir result = Ok (set_mem m1 s, Some (addr t, result)) /\
    holds m1 k (flip t) /\ vals m1 = vals (t_mem s).
Proof.
  intros H Ht. destruct t as [|c a l r]; [done|]. destruct (holds_zero _ _ _ H) as [H0 _]. destruct (holds_nodup _ _ _ H) as (Hn & _).
  pose proof (h_tree _ _ _ H) as (Ha & Hl & Hr). cbn in Hn, H0. rewrite elem_of_app, elem_of_cons in H0.
  unfold InsertAt. cbn [addr]. rewrite (proj2 (Z.eqb_neq _ _)) by (intros ->; tauto).
  rewrite (get_near _ _ _ _ _ _ Ha), bind_ret_l, (get_far _ _ _ false _ _ Ha : rb_get (n_link true) _ _ = _), bind_ret_l.
  rewrite (IsRed_shape _ _ Hl), bind_ret_l by tauto. cbn [flip].
  destruct (is_red l) eqn:Rl; [|exists (t_mem s); by destruct s]. rewrite (IsRed_shape _ _ Hr), bind_ret_l by tauto.
  destruct (is_red r) eqn:Rr; [|exists (t_mem s); by destruct s]. cbn [andb].
  rewrite <- Permutation_middle in Hn. nodup Hn.
  destruct (put_red _ _ _ _ _ _ true Ha) as (m1 & -> & A1 & U1). run. carry U1.
  match goal with H : NoDup (_ ++ _) |- _ => apply NoDup_app in H as (Nl & Nlr & Nr) end.
  assert (Il : addr l ∈ inorder l) by (apply addr_in; by intros ->).
  assert (Ir : addr r ∈ inorder r) by (apply addr_in; by intros ->).
  destruct (put_black m1 l) as (m2 & -> & A2 & U2); [done|by intros ->|done|]. run.
  apply (shape_frame _ _ _ _ U2) in Hr; [|intros b Hb ->%list_elem_of_singleton; by apply (Nlr (addr l))].
  destruct (put_black m2 r) as (m3 & -> & A3 & U3); [done|by intros ->|done|]. run. exists m3. split; [done|].
  assert (U : upd (t_mem s) m3 ([a] ++ [addr l] ++ [addr r])) by (eapply upd_trans, upd_trans; done). split; [|apply U].
  eapply holds_same; [done|exact U|cbn; set_solver| |cbn; by rewrite !inorder_black|done]. cbn. rewrite !addr_black. split_and!; [| |done].
  - apply (at_frame _ _ _ _ _ _ _ _ U3), (at_frame _ _ _ _ _ _ _ _ U2); [set_solver|set_solver|done].
  - apply (shape_frame _ _ _ _ U3); [|done]. intros b. rewrite inorder_black. intros Hb ->%list_elem_of_singleton. by apply (Nlr (addr r)).
Qed.

Lemma is_rb_flip b t n : is_rb b t n -> is_rb false (flip t) n.
Proof.
  intros H. destruct H as [b|a l r n Hl Hr|b a l r n Hl Hr]; cbn.
  - constructor.
  - rewrite (is_rb_true _ _ Hl). by constructor.
  - destruct (is_red l) eqn:Rl; [|by constructor]. destruct (is_red r) eqn:Rr; [|by constructor]. cbn.
    inversion Hl; subst; try done. inversion Hr; subst; try done. constructor; constructor; by eapply is_rb_weak.
Qed.

(** The subtree [t1] has just become red, and is repaired: either nothing else
    happens to it, or it goes up above its parent and grandparent. *)
Definition doubled m t1 t2 : Prop :=
  exists d q x y p s1 g u, t1 = mk d true q x y /\ t2 = mk d false q (mk d true p s1 x) (mk d true g y u) /\
    is_red s1 = false /\ is_red u = false /\ key m p <> 0 /\ negb d = (key m p <? 0) /\ key m g <> 0 /\ d = (key m g <? 0).

Lemma Fix_spec m k t1 b n last :
  holds m k t1 -> ctx_rb k b n -> is_rb false t1 n -> t1 <> E ->
  (is_red t1 = true -> red1 k = true -> exists f1 f2 k', k = f1 :: f2 :: k' /\ is_red (f_sib f2) = false /\ last = f_dir f2) ->
  (is_red t1 = false -> is_rb b t1 n) ->
  exists m' k2 t2, InsertFix m (parent (drop 2 k)) (up2 k) (up1 k) (addr t1) last = Ok m' /\ vals m' = vals m /\
    holds m' k2 t2 /\ rb k2 t2 /\ addr t2 = addr t1 /\ order_ctx k2 (inorder t2) = order_ctx k (inorder t1) /\
    (t2 = t1 /\ up1 k2 = up1 k /\ (is_red t1 && red1 k = false -> k2 = k) \/ doubled m' t1 t2).
Proof.
  intros H Hk Ht1 Hne Hr Hb. destruct (is_red t1 && red1 k) eqn:E.
  2:{ exists m, k, t1. rewrite (Fix_none _ _ _ _ _ _ H E). split_and!; try done; [|by left].
      exists b, n. split; [done|]. destruct (is_red t1); [|auto]. cbn in E. by rewrite (ctx_rb_black _ _ _ Hk E). }
  apply andb_prop in E as [E1 E2]. destruct (Hr E1 E2) as ([d1 c1 p s1] & [d c g u] & k' & -> & Hu & ->). cbn in Hu, E2. subst c1.
  destruct t1 as [|c1 q l r]; [done|]. cbn in E1. subst c1. rewrite (T_mk d true q l r) in *.
  set (x := if d then r else l) in *. set (y := if d then l else r) in *. clearbody x y.
  cbn in Hk. destruct Hk as (-> & Hs1 & Hk). destruct c; [by destruct Hk|]. destruct Hk as (_ & Hu' & b' & Hk).
  apply is_rb_mk_inv in Ht1 as (_ & Hx & Hy). apply (is_rb_black _ _ Hu') in Hu as Hub.
  pose proof (h_path _ _ _ H) as [[Kp Dp] [[Kg Dg] _]%Forall_cons]%Forall_cons. cbn in Kp, Dp, Kg, Dg.
  destruct (Fix_rotate _ _ _ _ _ _ _ _ _ _ _ H) as (m' & E & V' & H'). cbn [up1 up2 drop f_addr]. rewrite addr_mk. exists m'.
  destruct (Bool.eqb d1 d) eqn:Ed.
  - apply Bool.eqb_prop in Ed as ->. eexists _, _. split_and!; [done|done|exact H'|..|by rewrite addr_mk| |].
    + exists false, n. split; [|by apply is_rb_mk_R]. cbn. split_and!; [done|by apply is_rb_mk_R|by exists b'].
    + cbn. f_equal. rewrite (inorder_mk d true g). destruct d; cbn; by rewrite <- ?app_assoc.
    + by left.
  - assert (d1 = negb d) as -> by (by destruct d1, d). eexists _, _. split_and!; [done|done|exact H'|..|by rewrite addr_mk| |].
    + exists b', (S n). split; [done|]. apply is_rb_mk_B; by apply is_rb_mk_R.
    + cbn. rewrite (inorder_double _ _ _ _ false true true), !inorder_mk. by destruct d.
    + right. exists d, q, x, y, p, s1, g, u. rewrite !(key_vals _ _ _ V'). apply is_rb_true in Hs1. done.
Qed.

(** ** The loop *)

(** No node with two red children is left above. *)
Definition ready k t : Prop :=
  match k with
  | [] => t <> E /\ is_red t = false
  | f1 :: k' => is_red t && is_red (f_sib f1) = false /\
      (f_red f1 = true -> match k' with [] => False | f2 :: _ => is_red (f_sib f2) = false end)
  end.

(** The loop at subtree [t]: with all pointers in place; at a node that stays as
    it is, after a color flip; at the red node below a double rotation. The index
    bounds the number of iterations. *)
Inductive inv m k t (tp g p : Z) (dir last : bool) : nat -> Prop :=
| inv_normal :
    ready k t -> p = up1 k -> g = up2 k -> tp = parent (drop 2 k) ->
    (k <> [] -> dir = dirk k) -> (drop 1 k <> [] -> last = dirk (drop 1 k)) ->
    inv m k t tp g p dir last (S (length (inorder t)))
| inv_safe :
    k <> [] -> safe t -> p = up1 k -> g = up2 k -> (g = 0 -> tp = HEAD) -> dir = dirk k ->
    inv m k t tp g p dir last (S (length (inorder t)))
| inv_double d a x y :
    t = mk d true a x y -> k <> [] -> red1 k = false -> p = up1 k ->
    key m a <> 0 -> d = (key m a <? 0) -> safe x -> is_red y = false ->
    inv m k t tp g p dir last (S (S (length (inorder x)))).

Lemma next_ready m k t : t <> E -> is_red t = false \/ ready k t -> flip t = t -> (k = [] -> is_red t = false) ->
  ready (next_k m k t) (next_t m t).
Proof.
  destruct t as [|c a l r]; [done|]. intros _ Hr Hf H0. cbn in *. split.
  - destruct (is_red l && is_red r) eqn:E; [|destruct (key m a <? 0); cbn; [by rewrite andb_comm|done]].
    apply andb_prop in E as [E1 E2]. injection Hf as <- Hl Hr'. destruct l as [|[] ? ? ?]; try done.
  - intros ->. destruct k as [|f2 k]; [by specialize (H0 eq_refl)|]. destruct Hr as [?|[Hr _]]; done.
Qed.

Lemma up2_zero m k t : holds m k t -> (if up2 k =? 0 then parent (drop 2 k) else up2 k) = parent (drop 1 k) /\ (up2 k = 0 -> drop 1 k = []).
Proof.
  intros H. destruct (holds_zero _ _ _ H) as [_ H0]. destruct k as [|f1 [|f2 k]]; [done..|]. cbn in *.
  assert (f_addr f2 <> 0) by set_solver. by rewrite (proj2 (Z.eqb_neq _ _)).
Qed.

Lemma flip_dec t : {flip t = t} + {flip t <> t}.
Proof.
  destruct t as [|c a l r]; [by left|]. cbn. destruct (is_red l) eqn:Rl; [|by left]. destruct (is_red r); [|by left].
  right. intros [= _ E _]. destruct l as [|[] ? ? ?]; done.
Qed.

(** Either nothing happens, or two red children become black. *)
Lemma flip_cases b t n : is_rb b t n -> t <> E -> flip t = t \/
  (is_red (flip t) = true /\ forall d c a x y, flip t = mk d c a x y -> safe x /\ safe y /\ (2 + length (inorder x) <= length (inorder t))%nat
     /\ (2 + length (inorder y) <= length (inorder t))%nat).
Proof.
  intros H Ht. rewrite <- (inorder_flip t). destruct H as [b|a l r n Hl Hr|b a l r n Hl Hr]; [done|left; cbn; by rewrite (is_rb_true _ _ Hl)|].
  cbn. destruct (is_red l) eqn:Rl; [|by left]. destruct (is_red r) eqn:Rr; [|by left]. right. split; [done|]. cbn.
  assert (S : forall t n, is_rb false t n -> is_red t = true -> safe (black t) /\ (1 <= length (inorder (black t)))%nat).
  { intros u n' Hu Ru. inversion Hu as [|? ? ? ? H1 H2|]; subst; try done. cbn. split; [|rewrite length_app; cbn; lia].
    split_and!; [done..|]. by rewrite (is_rb_true _ _ H1). }
  destruct (S _ _ Hl Rl) as [S1 L1], (S _ _ Hr Rr) as [S2 L2]. intros d c b' x y E. rewrite length_app. cbn.
  destruct d; injection E as <- <- <- <-; split_and!; try done; lia.
Qed.

(** What one iteration does at a node. *)
Definition stepped s k t (tp g p : Z) (dir last : bool) (v : V) (rn : option Z) (result : Z) (w : nat) : Prop :=
  exists m1 m2 k2 t2,
    InsertAt s v rn p (addr t) dir result = Ok (set_mem m1 s, Some (addr t, result)) /\
    InsertFix m1 tp g p (addr t) last = Ok m2 /\ vals m2 = vals (t_mem s) /\
    holds m2 k2 t2 /\ rb k2 t2 /\ addr t2 = addr t /\ t2 <> E /\ order_ctx k2 (inorder t2) = order_ctx k (inorder t) /\
    (key m2 (addr t) <> 0 -> exists w', (w' < w)%nat /\
       inv m2 (next_k m2 k2 t2) (next_t m2 t2) (if g =? 0 then tp else g) p (addr t) (key m2 (addr t) <? 0) dir w').

Lemma next_double m k2 t1 t2 tp g q e dir : doubled m t1 t2 -> q = addr t1 ->
  (forall d c a x y, t1 = mk d c a x y -> safe x /\ safe y /\ (2 + length (inorder x) <= length (inorder t1))%nat
     /\ (2 + length (inorder y) <= length (inorder t1))%nat) ->
  exists w', (w' < S (length (inorder t1)))%nat /\ inv m (next_k m k2 t2) (next_t m t2) tp g q e dir w'.
Proof.
  intros (d & a & x & y & p & s1 & g' & u & Et & -> & Hs & Hu & Kp & Dp & Kg & Dg) -> Hsafe.
  destruct (Hsafe _ _ _ _ _ Et) as (Sx & Sy & Lx & Ly). assert (addr t1 = a) as -> by (by rewrite Et, addr_mk).
  destruct (decide (d = (key m a <? 0))) as [Ed|Ed].
  - destruct (next_mk m d false a (mk d true p s1 x) (mk d true g' y u) Ed) as [-> Hk]. rewrite Hk.
    exists (S (S (length (inorder x)))). split; [lia|]. rewrite <- (mk_negb d true p). by eapply inv_double.
  - rewrite <- (mk_negb d false a).
    destruct (next_mk (cmp := cmp) m (negb d) false a (mk d true g' y u) (mk d true p s1 x)) as [-> Hk]; [destruct d, (key m a <? 0); done|].
    rewrite Hk. exists (S (S (length (inorder y)))). split; [lia|]. by eapply inv_double.
Qed.

(** At the nodes where nothing happens. *)
Lemma step_same s k t tp g dir last v rn result w :
  holds (t_mem s) k t -> rb k t -> t <> E -> flip t = t -> is_red t && red1 k = false ->
  (key (t_mem s) (addr t) <> 0 -> exists w', (w' < w)%nat /\
     inv (t_mem s) (next_k (t_mem s) k t) (next_t (t_mem s) t) (if g =? 0 then tp else g) (up1 k) (addr t) (key (t_mem s) (addr t) <? 0) dir w') ->
  stepped s k t tp g (up1 k) dir last v rn result w.
Proof.
  intros H Hrb Ht Hf Hr Hi. destruct (At_flip s k t v rn (up1 k) dir result H Ht) as (m1 & E1 & H1 & V1). rewrite Hf in H1.
  exists m1, m1, k, t. rewrite (Fix_none _ _ _ _ _ _ H1 Hr). split_and!; try done. rewrite (key_vals _ _ _ V1). intros Hk.
  destruct (Hi Hk) as (w' & Hw & I). exists w'. split; [done|].
  assert (EN : next_k m1 k t = next_k (t_mem s) k t /\ next_t m1 t = next_t (t_mem s) t).
  { unfold next_k, next_t. destruct t; [done|]. by rewrite !(key_vals _ _ _ V1). }
  destruct EN as [-> ->]. revert I. rewrite <- (key_vals _ _ _ V1). intros I.
  inversion I; subst; [by apply inv_normal|by apply inv_safe|].
  eapply inv_double; rewrite ?(key_vals _ _ _ V1); done.
Qed.

Lemma step_safe s k t tp g p dir last v rn result w :
  holds (t_mem s) k t -> rb k t -> k <> [] -> safe t -> p = up1 k -> g = up2 k -> (g = 0 -> tp = HEAD) -> dir = dirk k ->
  w = S (length (inorder t)) -> stepped s k t tp g p dir last v rn result w.
Proof.
  intros H Hrb Hk (Ht & Hred & Hc) -> -> Htp Hdir ->. assert (Hf : flip t = t) by (destruct t; [done|]; cbn; by rewrite Hc).
  apply step_same; [done..|by rewrite Hred|]. intros Hkey. pose proof (next_length (cmp := cmp) (t_mem s) t Ht). eexists. split; [|apply inv_normal].
  - lia.
  - apply next_ready; auto.
  - by destruct t.
  - by destruct t, k.
  - destruct (up2_zero _ _ _ H) as [E1 E2]. destruct t as [|c a l r]; [done|]. cbn [next_k]. destruct (Z.eqb_spec (up2 k) 0) as [E|E].
    + rewrite (Htp E). specialize (E2 E). change (drop 2 (?f :: k)) with (drop 1 k). by rewrite E2.
    + done.
  - intros _. by destruct t.
  - intros _. by destruct t.
Qed.

Lemma step_dbl s k d a x y tp g p dir last v rn result w :
  holds (t_mem s) k (mk d true a x y) -> rb k (mk d true a x y) -> k <> [] -> red1 k = false -> p = up1 k ->
  key (t_mem s) a <> 0 -> d = (key (t_mem s) a <? 0) -> safe x -> is_red y = false -> w = S (S (length (inorder x))) ->
  stepped s k (mk d true a x y) tp g p dir last v rn result w.
Proof.
  intros H Hrb Hk Hred -> Hka Hd Hsx Hy ->. pose proof Hsx as (_ & Hx & _).
  apply step_same; [done|done|by destruct d|by unfold mk; destruct d; cbn; rewrite ?Hx, ?Hy|by rewrite Hred, andb_false_r|]. intros _.
  destruct (next_mk (t_mem s) d true a x y Hd) as [-> Hn]. rewrite Hn, addr_mk. eexists. split; [|apply inv_safe]; try done; [lia|].
  destruct (holds_zero _ _ _ H) as [_ H0]. intros E. destruct k as [|f k]; [done|]. cbn in E, H0. set_solver.
Qed.

Lemma step_flip s k t dir last v rn result :
  holds (t_mem s) k t -> rb k t -> t <> E -> ready k t -> flip t <> t -> (drop 1 k <> [] -> last = dirk (drop 1 k)) ->
  stepped s k t (parent (drop 2 k)) (up2 k) (up1 k) dir last v rn result (S (length (inorder t))).
Proof.
  intros H (b & n & Hk & Hb) Ht Hready Hf Hlast. destruct (At_flip s k t v rn (up1 k) dir result H Ht) as (m1 & E1 & H1 & V1).
  destruct (flip_cases _ _ _ Hb Ht) as [?|[Hr Hsafe]]; [done|].
  assert (Hne : flip t <> E) by (by destruct (flip t)).
  destruct (Fix_spec m1 k (flip t) b n last H1 Hk (is_rb_flip _ _ _ Hb) Hne) as (m2 & k2 & t2 & E2 & V2 & H2 & Hrb2 & Ea & Eo & Hcase).
  { intros _ Hr1. destruct k as [|f1 k]; [done|]. destruct Hready as [_ Hready]. cbn in Hr1. specialize (Hready Hr1).
    destruct k as [|f2 k]; [done|]. exists f1, f2, k. split_and!; [done|done|]. by apply Hlast. }
  { by rewrite Hr. }
  rewrite addr_flip in E2, Ea. exists m1, m2, k2, t2. split_and!; [done|done|congruence|done|done|done| |by rewrite Eo, inorder_flip|].
  { intros ->. apply Hne. destruct (flip t); [done|]. destruct Hcase as [[? _]|(d & q & x & y & p & s1 & g & u & _ & E & _)]; [done|]. by destruct d. }
  rewrite <- (inorder_flip t). intros Hkey. destruct Hcase as [(-> & Hup & _)|Hd].
  2:{ apply (next_double m2 k2 (flip t)); [done|by rewrite addr_flip|]. rewrite inorder_flip. exact Hsafe. }
  pose proof (next_length (cmp := cmp) m2 (flip t) Hne). eexists. split; [|apply inv_safe]; [lia|..].
  - by destruct (flip t).
  - destruct (flip t) as [|c a l r] eqn:Et; [done|]. by destruct (Hsafe _ _ _ _ _ (T_next (cmp := cmp) m2 c a l r)).
  - rewrite <- addr_flip. by destruct (flip t).
  - rewrite <- Hup. destruct (flip t); [done|]. by destruct k2.
  - intros Hup0. destruct k as [|f k]; [done|]. destruct (holds_zero _ _ _ H) as [_ Hz]. cbn in Hup0, Hz. set_solver.
  - rewrite <- addr_flip. by destruct (flip t).
Qed.

Lemma step_normal s k t tp g p dir last v rn result :
  holds (t_mem s) k t -> rb k t -> t <> E -> ready k t -> p = up1 k -> g = up2 k -> tp = parent (drop 2 k) ->
  (k <> [] -> dir = dirk k) -> (drop 1 k <> [] -> last = dirk (drop 1 k)) ->
  stepped s k t tp g p dir last v rn result (S (length (inorder t))).
Proof.
  intros H Hrb Ht Hready -> -> -> Hdir Hlast. pose proof Hrb as (b & n & Hk & Hb).
  destruct (flip_dec t) as [Hf|Hf]; [|by apply step_flip].
  apply step_same; [done..| |].
  - destruct (red1 k) eqn:Hr; [|apply andb_false_r]. destruct k as [|f k]; [done|]. cbn in Hr, Hk. rewrite Hr in Hk.
    destruct Hk as (-> & _). by rewrite (is_rb_true _ _ Hb).
  - intros Hkey. pose proof (next_length (cmp := cmp) (t_mem s) t Ht). eexists. split; [|apply inv_normal]; [lia|..].
    + apply next_ready; [done|by right|done|]. intros ->. apply Hready.
    + by destruct t.
    + by destruct t, k.
    + destruct (up2_zero _ _ _ H) as [-> _]. by destruct t.
    + intros _. by destruct t.
    + destruct t; [done|]. apply Hdir.
Qed.

(** ** The new node *)

Lemma key_insert m a n b : b <> a -> key (<[a := n]> m) b = key m b.
Proof. intros H. unfold RBPath.key. by rewrite lookup_insert_ne. Qed.

(** The memory before the new node is put into the chain. *)
Lemma leaf_mem m k v a : holds m k E -> m !! a = None -> a <> 0 ->
  exists m2, rb_put (set_n_link (dirk k) a) (<[a := RB_NewNode v]> m) (parent k) = Ok m2 /\
    holds m2 k (T true a E E) /\ vals m2 = <[a := (v, 0, 0)]> (vals m).
Proof.
  intros H Ha Ha0. assert (Hd : a ∉ ctx_nodes k).
  { intros Hk. destruct (holds_dom m k E a H) as [n Hn]; [apply elem_of_app; by right|congruence]. }
  assert (H1 : holds (<[a := RB_NewNode v]> m) k E).
  { eapply holds_agree; [|done]. intros b [Hb|Hb]%elem_of_app; [by apply elem_of_nil in Hb|]. assert (b <> a) by (by intros ->).
    rewrite key_insert by done. unfold lk. by rewrite lookup_insert_ne. }
  destruct (holds_nodup _ _ _ H1) as (_ & N & _). destruct (ctx_put _ _ _ a (h_ctx _ _ _ H1) N) as (m2 & -> & K2 & U2).
  exists m2. split; [done|]. split; [|destruct U2 as [-> _]; unfold vals; by rewrite fmap_insert]. split.
  - done.
  - cbn. split_and!; [|done..]. eapply at_frame; [exact U2| |]; [|by eexists; split; [apply lookup_insert_eq|]].
    intros ->%list_elem_of_singleton. apply Hd. destruct k; cbn; set_solver.
  - destruct (h_distinct _ _ _ H) as [D1 D2]. unfold distinct, all_nodes in *. cbn in *. split; [by constructor|]. set_solver.
  - eapply on_path_vals; [apply U2|apply (h_path _ _ _ H1)].
Qed.

(** Its neighbour in the chain is its parent. *)
Lemma leaf_neighbour k (l1 l2 : list (Z * V)) : k <> [] -> l1.*1 = lefts k -> l2.*1 = rights k ->
  if dirk k then l1 <> [] /\ enda 0 l1 = parent k else l2 <> [] /\ hda 0 l2 = parent k.
Proof.
  intros Hk E1 E2. destruct k as [|f k]; [done|]. cbn in *. destruct (f_dir f).
  - rewrite app_assoc in E1. destruct l1 as [|x l1' _] using rev_ind; [by destruct (lefts k ++ inorder (f_sib f))|].
    rewrite fmap_app in E1. apply app_inj_tail in E1 as [_ E1]. rewrite enda_app. destruct x. cbn in *. split; [by destruct l1'|done].
  - destruct l2 as [|[x w] l2]; [done|]. cbn in *. injection E2 as -> _. done.
Qed.

Lemma At_leaf s k v a l1 l2 result :
  holds (t_mem s) k E -> k <> [] -> t_mem s !! a = None -> a <> 0 -> t_mem s !! 0 = None ->
  chained s (l1 ++ l2) -> l1.*1 = lefts k -> l2.*1 = rights k ->
  exists s1, InsertAt s v (Some a) (parent k) 0 (dirk k) result = Ok (s1, Some (a, a)) /\
    holds (t_mem s1) k (T true a E E) /\ chained s1 (l1 ++ (a, v) :: l2) /\ t_root s1 = t_root s /\ t_size s1 = u64 (t_size s + 1) /\
    dom (t_mem s1) = {[a]} ∪ dom (t_mem s).
Proof.
  intros H Hk Ha Ha0 H0 [Hc Hfl] E1 E2. destruct (leaf_mem _ _ v _ H Ha Ha0) as (m2 & Ep & H2 & V2).
  assert (Hl : forall b, b ∈ (l1 ++ l2).*1 -> b <> a /\ b <> 0).
  { intros b Hb. rewrite fmap_app, E1, E2, <- (app_nil_l (rights k)), <- order_ctx_app in Hb.
    assert (Hb' : b ∈ all_nodes k E) by (rewrite <- order_ctx_perm; by right). destruct (holds_dom _ _ _ _ H Hb') as [n Hn].
    split; intros ->; congruence. }
  destruct (ChainNew_spec (set_mem m2 s) l1 l2 (parent k) a v 0 0 (dirk k)) as (s1 & E & L & R & S & C).
  - split; [|done]. change (chain (vals m2) 0 (l1 ++ l2) 0). eapply order_chain_frame; [|exact Hc]. intros b Hb. rewrite V2. apply lookup_insert_ne. intros ->. by destruct (Hl _ Hb).
  - rewrite fmap_app in *. pose proof (order_ctx_perm k E) as P. rewrite (order_ctx_app k (inorder E)) in P. cbn in P.
    destruct (h_distinct _ _ _ H) as [D _]. rewrite <- P, <- E1, <- E2 in D. apply NoDup_cons in D as [_ D].
    constructor; [|constructor; [|done]].
    + intros [?|?%Hl]%elem_of_cons; [done|tauto].
    + intros ?%Hl. tauto.
  - change (vals m2 !! 0 = None). rewrite V2, lookup_insert_ne by done. by rewrite vals_lookup, H0.
  - change (vals m2 !! a = Some (v, 0, 0)). rewrite V2. apply lookup_insert_eq.
  - by apply leaf_neighbour.
  - exists s1. unfold InsertAt. cbn [Z.eqb]. rewrite Ep, bind_ret_l, E, bind_ret_l. split; [done|]. split; [by eapply holds_links|].
    do 3 (split; [done|]). assert (D1 : dom (links (t_mem s1)) = dom (vals m2)) by (rewrite L; unfold links, vals; by rewrite !dom_fmap_L).
    rewrite V2 in D1. unfold links, vals in D1. by rewrite dom_insert_L, !dom_fmap_L in D1.
Qed.

(** ** The whole loop *)

(** What the insertion of value [v] at [a] makes of the sequence [l]. *)
Definition inserted (s s' : RB_t V) (l : list (Z * V)) (v : V) (a r : Z) (l' : list (Z * V)) : Prop :=
  chained s' l' /\ t_root s' = t_root s /\
  match tree_insert cmp2 (a, v) l with
  | None => r = 0 /\ l' = l /\ t_size s' = t_size s /\ dom (t_mem s') = dom (t_mem s)
  | Some l1 => r = a /\ l' = l1 /\ t_size s' = u64 (t_size s + 1) /\ dom (t_mem s') = {[a]} ∪ dom (t_mem s)
  end.

Definition loop_ok (s : RB_t V) (l : list (Z * V)) (v : V) (a : Z) (out : res (RB_t V * option Z)) : Prop :=
  exists s' r l' t', out = Ok (s', Some r) /\ inserted s s' l v a r l' /\
    holds (t_mem s') [] t' /\ (exists n, is_rb false t' n) /\ inorder t' = l'.*1.

(** When the key is there. *)
Lemma inserted_none s m l v a x : chained s l -> vals m = vals (t_mem s) -> key_sorted cmp m l.*1 -> x ∈ l.*1 -> key m x = 0 ->
  inserted s (set_mem m s) l v a 0 l.
Proof.
  intros [Hc Hfl] Hv Hs Hx Hk. assert (Hc' : chained (set_mem m s) l) by (split; [change (chain (vals m) 0 l 0); by rewrite Hv|done]).
  unfold inserted. split; [done|]. split; [done|]. apply list_elem_of_fmap in Hx as (p & -> & Hp).
  apply list_elem_of_split in Hp as (l1 & l2 & ->). destruct Hc' as [Hc' _].
  rewrite (chain_key cmp m _ _ _ p Hc') in Hk by set_solver. replace (tree_insert _ _ _) with (@None (list (Z * V))); [split_and!; [done..|]; apply (vals_dom _ _ Hv)|].
  assert (H1 : Forall (fun q => cmp2 q < 0) l1).
  { apply Forall_forall. intros q Hq. rewrite <- (chain_key cmp m _ _ _ q Hc') by set_solver.
    pose proof (chain_key cmp m _ _ _ p Hc' ltac:(set_solver)). rewrite fmap_app in Hs.
    apply StronglySorted_app in Hs as (Hs & _). specialize (Hs q.1 p.1 ltac:(set_solver) ltac:(set_solver)). cbn in Hs. lia. }
  clear - H1 Hk. induction H1 as [|q l1 Hq _ IH]; cbn; [by rewrite Hk|]. rewrite (proj2 (Z.ltb_lt _ _)) by done. by rewrite <- IH.
Qed.

Lemma tree_insert_at (l1 l2 : list (Z * V)) q : Forall (fun q => cmp2 q < 0) l1 -> Forall (fun q => 0 < cmp2 q) l2 ->
  tree_insert cmp2 q (l1 ++ l2) = Some (l1 ++ q :: l2).
Proof.
  intros H1 H2. induction H1 as [|p l1 Hp _ IH]; cbn.
  - destruct H2 as [|p l2 Hp _]; [done|]. cbn. rewrite (proj2 (Z.ltb_ge _ _)), (proj2 (Z.eqb_neq _ _)); [done|lia|lia].
  - rewrite (proj2 (Z.ltb_lt _ _)) by done. by rewrite IH.
Qed.

(** The last iteration puts the new node in. *)
Lemma loop_leaf fuel s k last l v a :
  holds (t_mem s) k E -> rb k E -> ready k E -> (drop 1 k <> [] -> last = dirk (drop 1 k)) ->
  chained s l -> l.*1 = order_ctx k [] -> key_sorted cmp (t_mem s) l.*1 ->
  cmp v = 0 -> t_mem s !! a = None -> a <> 0 -> t_mem s !! 0 = None ->
  loop_ok s l v a (InsertLoop (S fuel) s cmp v (Some a) (parent (drop 2 k)) (up2 k) (up1 k) 0 (dirk k) last 0).
Proof.
  intros H (b & n & Hk & Hb) Hready Hlast Hc El Hs Hv Ha Ha0 H0. assert (Hne : k <> []) by (intros ->; by destruct Hready).
  rewrite order_ctx_app in El. apply fmap_app_inv in El as (l1 & l2 & E1 & E2 & ->). cbn in E2.
  destruct (At_leaf s k v a l1 l2 0) as (s1 & EA & H1 & C1 & R1 & S1 & D1); [done..|]. cbn [InsertLoop].
  replace (up1 k) with (parent k) by (by destruct k). rewrite EA, bind_ret_l. assert (n = 0%nat) as -> by (by inversion Hb).
  destruct (Fix_spec (t_mem s1) k (T true a E E) b 0 last H1 Hk) as (m2 & k2 & t2 & F & V2 & H2 & Hrb2 & Ea & Eo & _); [|done| |done|].
  { constructor; constructor. }
  { intros _ Hr1. destruct k as [|f1 k]; [done|]. destruct Hready as [_ Hready]. cbn in Hr1. specialize (Hready Hr1).
    destruct k as [|f2 k]; [done|]. exists f1, f2, k. split_and!; [done|done|]. by apply Hlast. }
  replace (up1 k) with (parent k) in F by (by destruct k). cbn [addr] in F. rewrite F, bind_ret_l.
  assert (C2 : chained (set_mem m2 s1) (l1 ++ (a, v) :: l2)).
  { destruct C1 as [C1 C1']. split; [|done]. change (chain (vals m2) 0 (l1 ++ (a, v) :: l2) 0). by rewrite V2. }
  assert (Hva : key m2 a = 0) by (rewrite <- Hv; apply (chain_key cmp m2 _ 0 0 (a, v) (proj1 C2)); set_solver).
  destruct (holds_dom m2 k2 t2 a H2) as [na Hna]; [apply elem_of_app; left; rewrite <- (Ea : addr t2 = a); apply addr_in; by intros -> |].
  unfold RBPath.key in Hva. rewrite Hna in Hva |- *. cbn [deref]. rewrite bind_ret_l. rewrite Hva. cbn.
  destruct (path_split (cmp := cmp) (ok := fun z => z <> 0) (t_mem s) k) as [P1 P2]; [by rewrite E1, E2, <- fmap_app| |apply (h_path _ _ _ H)|].
  { eapply Forall_impl; [apply (h_path _ _ _ H)|]. cbn. tauto. }
  assert (T1 : tree_insert cmp2 (a, v) (l1 ++ l2) = Some (l1 ++ (a, v) :: l2)).
  { destruct Hc as [Hc _]. rewrite E1 in P1. rewrite E2 in P2. apply tree_insert_at; apply Forall_forall; intros q Hq;
      rewrite <- (chain_key cmp (t_mem s) _ 0 0 q Hc) by set_solver; [rewrite Forall_forall in P1; apply P1|rewrite Forall_forall in P2; apply P2];
      by apply list_elem_of_fmap_2. }
  eexists _, a, _, (plug k2 t2). split; [done|]. split_and!.
  - unfold inserted. rewrite T1. split_and!; [done..|]. rewrite <- D1. apply (vals_dom _ _ V2).
  - by apply holds_plug.
  - by apply rb_plug.
  - rewrite inorder_plug, Eo, order_ctx_app, fmap_app. cbn. by rewrite E1, E2.
Qed.

Lemma Loop_spec fuel : forall s k t tp g p dir last w l v a,
  holds (t_mem s) k t -> rb k t -> inv (t_mem s) k t tp g p dir last w -> (w <= fuel)%nat ->
  chained s l -> l.*1 = order_ctx k (inorder t) -> key_sorted cmp (t_mem s) l.*1 ->
  cmp v = 0 -> t_mem s !! a = None -> a <> 0 -> t_mem s !! 0 = None ->
  loop_ok s l v a (InsertLoop fuel s cmp v (Some a) tp g p (addr t) dir last 0).
Proof.
  induction fuel as [|fuel IH]; intros s k t tp g p dir last w l v a H Hrb Hi Hw Hc El Hs Hv Ha Ha0 H0; [inversion Hi; lia|].
  assert (Hd : t = E \/ t <> E) by (destruct t; auto). destruct Hd as [->|Ht].
  { inversion Hi as [Hready -> -> -> Hdir Hlast|_ (? & _)|[] ? ? ?]; subst; [|done..].
    assert (Hne : k <> []) by (intros ->; by destruct Hready). rewrite (Hdir Hne). by apply loop_leaf. }
  assert (St : stepped s k t tp g p dir last v (Some a) 0 w).
  { inversion Hi; subst; [by apply step_normal|by apply step_safe|by apply step_dbl]. }
  destruct St as (m1 & m2 & k2 & t2 & EA & F & V2 & H2 & Hrb2 & Ea & Ht2 & Eo & Hnext). cbn [InsertLoop].
  rewrite EA, bind_ret_l. change (t_mem (set_mem m1 s)) with m1. rewrite F, bind_ret_l.
  assert (Hin : addr t ∈ inorder t2) by (rewrite <- Ea; by apply addr_in).
  destruct (holds_dom m2 k2 t2 (addr t) H2) as [n Hn]; [apply elem_of_app; by left|].
  assert (Hkey : key m2 (addr t) = cmp (n_data n)) by (unfold RBPath.key; by rewrite Hn). rewrite Hn. cbn [deref]. rewrite bind_ret_l. rewrite <- Hkey.
  change (set_mem m2 (set_mem m1 s)) with (set_mem m2 s). assert (Hs2 : key_sorted cmp m2 l.*1) by (by eapply key_sorted_vals).
  destruct (Z.eqb_spec (key m2 (addr t)) 0) as [Hk0|Hk0].
  - eexists _, 0, l, (plug k2 t2). split; [done|]. split_and!; [|by apply holds_plug|by apply rb_plug|by rewrite inorder_plug, Eo].
    apply (inserted_none s m2 l v a (addr t)); try done. rewrite El, <- Eo, order_ctx_app. set_solver.
  - destruct (Hnext Hk0) as (w' & Hw' & I). rewrite <- Ea in Hk0. destruct (next_holds m2 k2 t2 H2 Hrb2 Ht2 Hk0) as (H3 & Hrb3 & Hl3).
    rewrite Ea in Hl3. unfold rb_get in Hl3. rewrite Hn in Hl3. cbn in Hl3. injection Hl3 as ->.
    assert (N : forall x, t_mem s !! x = None -> m2 !! x = None) by (intros x; rewrite <- !not_elem_of_dom; by rewrite (vals_dom _ _ V2)).
    assert (C2 : chained (set_mem m2 s) l) by (destruct Hc as [Hc Hc']; split; [change (chain (vals m2) 0 l 0); by rewrite V2|done]).
    destruct (IH (set_mem m2 s) _ _ _ _ _ _ _ _ l v a H3 Hrb3 I) as (s' & r & l' & t' & Eq & Hins & R); try done; [lia|by rewrite next_order, Eo|auto..|].
    exists s', r, l', t'. split; [done|]. split; [|done]. unfold inserted in *. destruct Hins as (? & ? & Hm). split_and!; [done..|].
    change (dom (t_mem (set_mem m2 s))) with (dom m2) in Hm. by rewrite (vals_dom _ _ V2) in Hm.
Qed.

(** ** RB_Insert *)

(** The tree is NULL. *)
Lemma insert_first zero (s : RB_t V) v a : is_rbtree s [] -> t_mem s !! a = None -> a <> 0 -> a <> HEAD ->
  exists s', RB_Insert zero s cmp v (Some a) = Ok (s', a) /\ is_rbtree s' [(a, v)].
Proof.
  intros [t I] Ha Ha0 HaH. unfold RB_Insert. rewrite (CHECK_COUNT_ok _ _ _ I), bind_ret_l.
  pose proof (i_order _ _ _ I) as Eo. destruct t as [|c x tl tr]; [|cbn in Eo; by destruct (inorder tl)].
  rewrite <- (i_root _ _ _ I). cbn [addr Z.eqb t_mem t_root]. unfold rb_put. rewrite lookup_insert_eq. cbn [deref]. rewrite !bind_ret_l.
  rewrite insert_insert_eq. eexists. split; [done|]. exists (T false a E E). split; cbn; try done.
  - exists 1%nat. constructor; constructor.
  - split; [|done]. eexists. split; [apply lookup_insert_eq|done].
  - constructor; [set_solver|]. constructor; [set_solver|]. repeat constructor. set_solver.
  - split; [|done]. cbn. unfold vals. by rewrite fmap_insert, lookup_insert_eq.
  - by rewrite (i_size _ _ _ I).
  - rewrite dom_insert_L, (i_dom _ _ _ I). done.
Qed.

Lemma RB_Insert_ok zero (s : RB_t V) l v a : is_rbtree s l -> sorted_for cmp l -> cmp v = 0 -> t_mem s !! a = None -> a <> 0 -> a <> HEAD ->
  exists s', RB_Insert zero s cmp v (Some a) = Ok (s', match tree_insert cmp2 (a, v) l with Some _ => a | None => 0 end) /\
    is_rbtree s' (default l (tree_insert cmp2 (a, v) l)).
Proof.
  intros Hs Hso Hv Ha Ha0 HaH. destruct l as [|p l]; [by apply insert_first|]. remember (p :: l) as lp eqn:Ep.
  destruct Hs as [t I]. assert (Ht : t <> E) by (intros ->; pose proof (i_order _ _ _ I); by subst lp).
  destruct (i_notin s lp t I) as [NH N0]. pose proof (i_zero _ _ _ I) as Hz. destruct (i_rb _ _ _ I) as [n Hrb].
  unfold RB_Insert. rewrite (CHECK_COUNT_ok _ _ _ I), bind_ret_l. rewrite (proj2 (Z.eqb_neq (t_root s) 0)).
  2:{ rewrite <- (i_root _ _ _ I). intros E0. apply Hz. rewrite <- E0. by apply addr_in. }
  fold (with_head zero s). set (s0 := set_mem (with_head zero s) s). pose proof (chained_head zero s lp t I) as Hc.
  assert (Hsz : size (with_head zero s) = S (length (inorder t))) by (unfold with_head; by rewrite map_size_insert_None, (mem_size _ _ _ I)).
  destruct (Loop_spec (S (S (size (t_mem s0)))) s0 [] t HEAD 0 0 false false (S (length (inorder t))) lp v a) as
    (s' & r & l' & t' & El & (C' & R' & Ho) & H' & Hrb' & Eo'); try done.
  - by apply holds_head with (l := lp).
  - exists false, n. split; [done|]. by eapply is_rb_weak.
  - apply inv_normal; [|done..]. split; [done|]. by eapply is_rb_true.
  - change (t_mem s0) with (with_head zero s). lia.
  - symmetry. apply I.
  - eapply key_sorted_of; [apply Hc|done].
  - change (with_head zero s !! a = None). unfold with_head. by rewrite lookup_insert_ne.
  - change (with_head zero s !! 0 = None). unfold with_head. by rewrite lookup_insert_ne.
  - assert (Er : t_root s0 = addr t) by (symmetry; apply I). rewrite Er, El, bind_ret_l.
    assert (Hd : dom (with_head zero s) = {[HEAD]} ∪ list_to_set lp.*1) by (unfold with_head; by rewrite dom_insert_L, (i_dom _ _ _ I)).
    change (dom (t_mem s0)) with (dom (with_head zero s)) in Ho. rewrite Hd in Ho. change (t_size s0) with (t_size s) in Ho.
    assert (Fin : t' <> E /\ t_size s' = u64 (Z.of_nat (length l')) /\ dom (t_mem s') = {[HEAD]} ∪ list_to_set l'.*1 /\
        r = (match tree_insert cmp2 (a, v) lp with Some _ => a | None => 0 end) /\ l' = default lp (tree_insert cmp2 (a, v) lp)).
    { destruct (tree_insert cmp2 (a, v) lp) as [l1|] eqn:Ei; destruct Ho as (-> & -> & -> & ->).
      - pose proof (tree_insert_perm _ _ _ _ Ei) as P. split_and!; [|rewrite (i_size _ _ _ I), P; unfold u64; rewrite Zplus_mod_idemp_l; f_equal; cbn; lia| |done|done].
        + intros ->. cbn in Eo'. destruct l1; [|done]. by apply Permutation_nil_cons in P.
        + rewrite (list_to_set_perm_L _ _ (fmap_Permutation fst _ _ P)). cbn. clear. set_solver.
      - split_and!; try done; [|by rewrite (i_size _ _ _ I)]. intros ->. by subst lp. }
    destruct Fin as (Ht' & Sz' & D' & -> & El'). destruct (finish s' l' t' H') as [G (m & P & Fi)]; try done. rewrite G, bind_ret_l, P, bind_ret_l, <- El'. eauto.
Qed.

End Insert.
