(* ===== verification/RBRemove.v ===== *)
(** * Removal from red-black trees (src/lib/tmpl/rbtree-impl.h: RB_Remove)

    The loop goes down once to the predecessor of the key and pushes a red node
    down with it, so that the node it ends at can be taken out.  That node then
    takes the place of the one with the key, which is freed: the values never move,
    so that iterators at other nodes stay valid. *)

From S2P Require Import Prelude CLib OrdTree RBTree RBShape RBChain RBPath RBInv.

#[local] Arguments mk : simpl never.

Section Remove.

Context {V : Type} (cmp : V -> Z).
Implicit Types (m : gmap Z (RB_node_t V)) (k : list frame) (t : tree).

#[local] Notation key := (key cmp).
#[local] Notation holds := (holds cmp (fun _ => True)).
#[local] Notation next_k := (next_k cmp).
#[local] Notation next_t := (next_t cmp).
#[local] Notation cmp2 := (cmp2 cmp).

(** ** The state of the loop *)

(** The parent of [q], which is the parent of the subtree. *)
Definition gp k : Z := match k with [] => 0 | _ :: k => parent k end.

(** The node with the key and its parent, once it was passed. *)
Definition found m k (f fp : Z) : Prop :=
  f = 0 /\ fp = 0 /\ Forall (fun fr => key m (f_addr fr) <> 0) k \/
  f <> 0 /\ exists k1 c s k2, k = k1 ++ F false c f s :: k2 /\ key m f = 0 /\ fp = parent k2.

(** There is a red node to push down, or a root that can become black. *)
Definition pushed k t : Prop :=
  match k with
  | [] => True
  | f :: k' => f_red f = true \/ is_red t = true \/ (k' = [] /\ is_red (f_sib f) = false)
  end.

(** *** Laws *)

Lemma found_push m k f fp d c b s : found m k f fp -> key m b <> 0 -> found m (F d c b s :: k) f fp.
Proof.
  intros [(-> & -> & H)|(Hf & k1 & c' & s' & k2 & -> & H & ->)] Hb; [left|right].
  - split_and!; [done|done|by constructor].
  - split; [done|]. by exists (F d c b s :: k1), c', s', k2.
Qed.

Lemma found_here m k c f s : f <> 0 -> key m f = 0 -> found m (F false c f s :: k) f (parent k).
Proof. intros Hf H. right. split; [done|]. by exists [], c, s, k. Qed.

Lemma found_color m k f fp d c p s c' s' : found m (F d c p s :: k) f fp -> found m (F d c' p s' :: k) f fp.
Proof.
  intros [(-> & -> & H)|(Hf & k1 & c1 & s1 & k2 & E & H & ->)]; [left|right; split; [done|]].
  - apply Forall_cons in H as [H1 H2]. split_and!; [done|done|by constructor].
  - destruct k1 as [|f1 k1]; cbn in E; injection E.
    + intros -> -> -> -> ->. by exists [], c', s', k2.
    + intros -> _. by exists (F d c' p s' :: k1), c1, s1, k2.
Qed.

Lemma found_vals m m' k f fp : vals m' = vals m -> found m k f fp -> found m' k f fp.
Proof.
  intros Hv [(-> & -> & H)|(Hf & k1 & c & s & k2 & -> & H & ->)]; [left|right].
  - split_and!; [done|done|]. eapply Forall_impl; [exact H|]. cbn. intros fr. by rewrite (key_vals _ _ _ Hv).
  - split; [done|]. exists k1, c, s, k2. by rewrite (key_vals _ _ _ Hv).
Qed.

Lemma parent_in k : parent k ∈ ctx_nodes k.
Proof. destruct k; cbn; set_solver. Qed.

(** A rotation puts node [b] between [p] and its parent. *)
Lemma found_between m k f fp d c p s b c1 s1 c2 s2 :
  found m (F d c p s :: k) f fp -> NoDup (ctx_nodes (F d c p s :: k)) -> 0 ∉ ctx_nodes (F d c p s :: k) -> key m b <> 0 ->
  found m (F d c1 p s1 :: F d c2 b s2 :: k) f (if parent k =? fp then b else fp).
Proof.
  intros Hf Hn H0 Hb. pose proof (parent_in k) as Hpk. cbn in Hn, H0. rewrite not_elem_of_cons, not_elem_of_app in H0. destruct H0 as (H01 & H02 & H03).
  destruct Hf as [(-> & -> & H)|(Hf & k1 & c' & s' & k2 & E & H & ->)].
  - apply Forall_cons in H as [H1 H2]. rewrite (proj2 (Z.eqb_neq (parent k) 0)) by (intros E; by rewrite E in Hpk).
    left. split_and!; [done|done|by repeat constructor].
  - right. split; [done|]. destruct k1 as [|f1 k1]; cbn in E; injection E.
    + intros -> -> -> -> ->. rewrite Z.eqb_refl. by exists [], c1, s1, (F false c2 b s2 :: k2).
    + intros E1 <-. rewrite (proj2 (Z.eqb_neq _ _)); [exists (F d c1 p s1 :: F d c2 b s2 :: k1), c', s', k2; by rewrite E1|].
      apply NoDup_cons in Hn as [_ (_ & _ & Hn)%NoDup_app]. rewrite E1 in Hn |- *. intros E0.
      pose proof (parent_in k2) as H2. rewrite <- E0 in H2. destruct k1 as [|f2 k1]; cbn in Hn, H2.
      * apply NoDup_cons in Hn as [Hn _]. set_solver.
      * apply NoDup_cons in Hn as [Hn _]. apply Hn. apply elem_of_app. right. clear - H2. induction k1 as [|f3 k1 IH]; cbn in *; set_solver.
Qed.

(** [CHECK_FPARENT] holds. *)
Lemma ctx_suffix m k1 : forall k2 h, shape_ctx m (k1 ++ k2) h -> exists h', shape_ctx m k2 h'.
Proof. induction k1 as [|f k1 IH]; intros k2 h; cbn; [eauto|]. intros (_ & _ & H). by eapply IH. Qed.

Lemma check_ok m k t f fp : holds m k t -> fp = 0 \/ found m k f fp -> CHECK_FPARENT m f fp = Ok tt.
Proof.
  intros H [->|[(_ & -> & _)|(_ & k1 & c & s & k2 & -> & _ & ->)]]; [done|done|]. unfold CHECK_FPARENT.
  destruct (ctx_suffix _ _ _ _ (h_ctx _ _ _ H)) as (h & _ & _ & Hk). cbn in Hk.
  assert (Hp : exists n, m !! parent k2 = Some n /\ (n_link0 n = f \/ n_link1 n = f)).
  { destruct k2 as [|f2 k2]; cbn in Hk.
    - destruct Hk as (n & Hn & _ & Hl & _). exists n. auto.
    - destruct Hk as ((n & Hn & _ & Hl & _) & _). exists n. split; [done|]. destruct (f_dir f2); auto. }
  destruct Hp as (n & -> & Hl). case_match; [done|]. cbn. destruct Hl as [->| ->]; rewrite Z.eqb_refl, ?orb_true_r; done.
Qed.

(** The nodes on the other side are on the same side of the key. *)
Lemma far_dir m k d c a x y b : key_sorted cmp m (order_ctx k (inorder (mk d c a x y))) -> d = (key m a <? 0) -> b ∈ inorder y ->
  (key m b <? 0) = d /\ key m b <> 0.
Proof.
  rewrite order_ctx_app, inorder_mk. intros Hs Hd Hb. apply StronglySorted_app_1_r, StronglySorted_app_1_l in Hs. destruct d; cbn in Hs; symmetry in Hd.
  - apply (proj1 (StronglySorted_app _ _ _)) in Hs as (Hs & _). specialize (Hs b a Hb ltac:(by left)). bools. cbn in Hs.
    assert (key m b < 0) by lia. split; [by apply Z.ltb_lt|lia].
  - apply StronglySorted_app_1_r, StronglySorted_inv in Hs as [_ Hs]. rewrite Forall_forall in Hs. specialize (Hs b Hb). bools. cbn in Hs.
    split; [apply Z.ltb_ge; lia|lia].
Qed.

(** What an iteration makes of the path. *)
Record moved m k t (f fp : Z) (m' : gmap Z (RB_node_t V)) (k' : list frame) (fp' : Z) : Prop := {
  mv_vals : vals m' = vals m;
  mv_holds : holds m' k' (next_t m t);
  mv_rb : rb k' (next_t m t);
  mv_order : order_ctx k' (inorder (next_t m t)) = order_ctx k (inorder t);
  mv_pushed : pushed k' (next_t m t);
  mv_zero : fp = 0 -> fp' = 0;
  mv_found : found m k f fp -> key m (addr t) <> 0 -> found m' k' f fp'
}.

(** The node is then below [k2]. *)
Definition pushed_down m k t (f fp : Z) (out : res (gmap Z (RB_node_t V) * Z * Z)) : Prop :=
  exists m' k2 c' sib fp', out = Ok (m', parent k2, fp') /\
    moved m k t f fp m' (F (key m (addr t) <? 0) c' (addr t) sib :: k2) fp'.

Lemma push_none m k d c a x y f fp g last :
  holds m k (mk d c a x y) -> rb k (mk d c a x y) -> d = (key m a <? 0) -> c || is_red x = true ->
  pushed_down m k (mk d c a x y) f fp (PushDown m g (parent k) a d last f fp).
Proof.
  intros H Hrb Hd Hr. pose proof (IsRed_tree _ _ _ H) as E1. rewrite addr_mk, is_red_mk in E1. pose proof (h_tree _ _ _ H) as (Ha & Hx & Hy)%shape_mk.
  destruct (holds_zero _ _ _ H) as [H0 _]. rewrite inorder_mk, order_perm in H0.
  assert (E : PushDown m g (parent k) a d last f fp = Ok (m, parent k, fp)).
  { unfold PushDown. rewrite E1, bind_ret_l, (get_near _ _ _ _ _ _ Ha), bind_ret_l. destruct c; [done|]. cbn in Hr.
    rewrite (IsRed_shape _ _ Hx), bind_ret_l, Hr; [done|set_solver]. }
  destruct (next_mk m d c a x y Hd) as [Ex _]. exists m, k, c, y, fp. split; [done|]. split; rewrite ?addr_mk, ?Ex, <- ?Hd; try done.
  - by apply holds_down.
  - by apply rb_down.
  - cbn. by rewrite inorder_mk.
  - cbn. apply orb_prop in Hr. tauto.
  - intros. by apply found_push.
Qed.

(** The reads when the node and its next child are black. *)
Lemma PushDown_black m k d a x y :
  holds m k (mk d false a x y) -> is_red x = false ->
  RB_IsRed m a = Ok false /\ rb_get (n_link d) m a = Ok (addr x) /\ RB_IsRed m (addr x) = Ok false /\
  rb_get (n_link (negb d)) m a = Ok (addr y) /\ RB_IsRed m (addr y) = Ok (is_red y).
Proof.
  intros H Rx. pose proof (IsRed_tree _ _ _ H) as E1. rewrite addr_mk, is_red_mk in E1. pose proof (h_tree _ _ _ H) as (Ha & Hx & Hy)%shape_mk.
  destruct (holds_zero _ _ _ H) as [H0 _]. rewrite inorder_mk, order_perm, elem_of_cons, elem_of_app in H0. rewrite <- Rx.
  split_and!; [by rewrite Rx|by eapply get_near|apply IsRed_shape; tauto|by eapply get_far|apply IsRed_shape; tauto].
Qed.

(** The other child is red: it goes up. *)
Lemma push_single m k d a x b u v f fp g :
  holds m k (mk d false a x (mk (negb d) true b u v)) -> rb k (mk d false a x (mk (negb d) true b u v)) -> d = (key m a <? 0) ->
  key_sorted cmp m (order_ctx k (inorder (mk d false a x (mk (negb d) true b u v)))) -> is_red x = false -> fp = 0 \/ found m k f fp /\ key m a <> 0 ->
  pushed_down m k (mk d false a x (mk (negb d) true b u v)) f fp (PushDown m g (parent k) a d (dirk k) f fp).
Proof.
  intros H Hrb Hd Hs Rx Hf. destruct (PushDown_black _ _ _ _ _ _ H Rx) as (E1 & E2 & E3 & E4 & E5). rewrite is_red_mk in E5.
  destruct (far_dir _ _ _ _ _ _ _ b Hs Hd) as [Db Kb]; [rewrite inorder_mk, order_perm; by left|].
  destruct (next_mk m d false a x (mk (negb d) true b u v) Hd) as [Ex _].
  unfold PushDown. rewrite E1, bind_ret_l, E2, bind_ret_l, E3, bind_ret_l, E4, bind_ret_l, E5, bind_ret_l.
  pose proof H as H'. rewrite <- (mk_negb d false a) in H'. destruct (holds_nodup _ _ _ H') as (N & _ & _).
  destruct (Single_spec m (negb d) false true a b u v x (h_tree _ _ _ H') N) as (m1 & E6 & S1 & U1). rewrite negb_involutive in E6. rewrite E6, bind_ret_l.
  destruct (holds_replace _ _ _ _ (mk (negb d) false b u (mk (negb d) true a v x)) _ H' U1) as (m2 & E7 & H2 & V2);
    [intros z; rewrite !inorder_mk, !order_perm; set_solver|done|by erewrite inorder_single|].
  rewrite addr_mk in E7. rewrite E7, bind_ret_l. rewrite mk_negb, (mk_negb d true a) in H2.
  apply holds_down in H2; [|done|by rewrite (key_vals _ _ _ V2)]. apply holds_down in H2; [|done|by rewrite (key_vals _ _ _ V2)].
  assert (Hf2 : fp = 0 \/ found m2 (F d true a v :: F d false b u :: k) f fp).
  { destruct Hf as [?|[Hf Ka]]; [by left|right]. eapply found_vals; [exact V2|]. apply found_push; [apply found_push|]; done. }
  rewrite (check_ok _ _ _ _ _ H2 Hf2), bind_ret_l.
  exists m2, (F d false b u :: k), true, v, fp. split; [done|]. split; rewrite ?addr_mk, ?Ex, <- ?Hd; try done.
  - destruct Hrb as (b' & n & Hk & Ht). apply is_rb_mk_inv in Ht as (n' & -> & Hx & Hy). apply is_rb_mk_inv in Hy as (_ & Hu & Hv).
    exists true, n'. split; [|by apply is_rb_black]. cbn. split_and!; [done|done|done|by eapply is_rb_weak|eauto].
  - cbn. f_equal. rewrite !inorder_mk. by destruct d; cbn; rewrite <- ?app_assoc.
  - by left.
  - intros Hfd Hka. eapply found_vals; [exact V2|]. apply found_push; [apply found_push|]; done.
Qed.

(** Below the false root there is no sibling. *)
Lemma push_top m d a x y f fp g :
  holds m [] (mk d false a x y) -> rb [] (mk d false a x y) -> d = (key m a <? 0) -> is_red x = false -> is_red y = false ->
  pushed_down m [] (mk d false a x y) f fp (PushDown m g HEAD a d true f fp).
Proof.
  intros H Hrb Hd Rx Ry. destruct (PushDown_black _ _ _ _ _ _ H Rx) as (E1 & E2 & E3 & E4 & E5). rewrite Ry in E5.
  destruct (next_mk m d false a x y Hd) as [Ex _].
  unfold PushDown. rewrite E1, bind_ret_l, E2, bind_ret_l, E3, bind_ret_l, E4, bind_ret_l, E5, bind_ret_l.
  rewrite (get_far _ _ _ true _ _ (h_ctx _ _ _ H)), bind_ret_l. cbn [Z.eqb].
  exists m, [], false, y, fp. split; [done|]. split; rewrite ?addr_mk, ?Ex, <- ?Hd; try done.
  - by apply holds_down.
  - by apply rb_down.
  - cbn. by rewrite inorder_mk.
  - right. by right.
  - intros. by apply found_push.
Qed.

(** *** At a black sibling *)

Lemma red_mk d t : is_red t = true -> exists a x y, t = mk d true a x y.
Proof. destruct t as [|[] a l r]; try done. intros _. rewrite (T_mk d). eauto. Qed.

Lemma black_rb t n : is_rb false t n -> is_red t = true -> is_rb true (black t) (S n).
Proof. inversion 1; subst; try done. intros _. constructor; by eapply is_rb_weak. Qed.

(** The color flip. *)
Lemma flip_colors m e c p d a x y sa sy sx :
  shape m (mk e c p (mk d false a x y) (mk (negb e) false sa sy sx)) -> NoDup (inorder (mk e c p (mk d false a x y) (mk (negb e) false sa sy sx))) ->
  exists m1 m2 m3, rb_put (set_n_red false) m p = Ok m1 /\ rb_put (set_n_red true) m1 sa = Ok m2 /\ rb_put (set_n_red true) m2 a = Ok m3 /\
    shape m3 (mk e false p (mk d true a x y) (mk (negb e) true sa sy sx)) /\ upd m m3 [p; sa; a].
Proof.
  rewrite !shape_mk, !addr_mk, !inorder_mk, !order_perm. intros (Hp & (Ha & Hx & Hy) & Hsa & Hsy & Hsx) Hn.
  cbn in Hn. rewrite <- Permutation_middle in Hn. nodup Hn.
  destruct (put_red _ _ _ _ _ _ false Hp) as (m1 & E1 & A1 & U1). clear Hp. carry U1.
  destruct (put_red _ _ _ _ _ _ true Hsa) as (m2 & E2 & A2 & U2). clear Hsa. carry U2.
  destruct (put_red _ _ _ _ _ _ true Ha) as (m3 & E3 & A3 & U3). clear Ha. carry U3.
  exists m1, m2, m3. do 3 (split; [done|]). split; [|apply (upd_trans _ _ _ _ _ U1 (upd_trans _ _ _ _ _ U2 U3))].
  rewrite !shape_mk, !addr_mk. split_and!; done.
Qed.

(** The colors after a rotation: the new root [b] and node [a] red, the children
    of [b] black. *)
Lemma rotate_colors m d b u p x cq a l r cb cp : u <> E ->
  shape m (mk d cb b u (mk d cp p x (T cq a l r))) -> NoDup (inorder (mk d cb b u (mk d cp p x (T cq a l r)))) ->
  exists m1 m2 lb m3 rb m4, rb_put (set_n_red true) m b = Ok m1 /\ rb_put (set_n_red true) m1 a = Ok m2 /\
    rb_get (n_link false) m2 b = Ok lb /\ rb_put (set_n_red false) m2 lb = Ok m3 /\
    rb_get (n_link true) m3 b = Ok rb /\ rb_put (set_n_red false) m3 rb = Ok m4 /\
    shape m4 (mk d true b (black u) (mk d false p x (T true a l r))) /\ upd m m4 [b; a; p; addr u].
Proof.
  intros Hu. destruct u as [|cu' ub u1 u2]; [done|]. cbn [addr black]. rewrite !shape_mk, !addr_mk, !inorder_mk, !order_perm.
  cbn [shape inorder addr]. intros (Hb & (Hub & Hu1 & Hu2) & Hp & Hx & Ha & Hl & Hr) Hn.
  repeat (progress (rewrite <- ?app_assoc in Hn; cbn in Hn; rewrite <- ?Permutation_middle in Hn)). nodup Hn.
  destruct (put_red _ _ _ _ _ _ true Hb) as (m1 & E1 & A1 & U1). clear Hb. carry U1.
  destruct (put_red _ _ _ _ _ _ true Ha) as (m2 & E2 & A2 & U2). clear Ha. carry U2.
  pose proof (get_near _ _ _ _ _ _ A1) as G1. pose proof (get_far _ _ _ _ _ _ A1) as G2.
  assert (U : forall m3 m4 z1 z2, upd m2 m3 [z1] -> upd m3 m4 [z2] -> (forall z, z ∈ [z1; z2] -> z ∈ [p; ub]) -> upd m m4 [b; a; p; ub]).
  { intros m3 m4 z1 z2 U3 U4 Hz. eapply upd_incl; [apply (upd_trans _ _ _ _ _ U1 (upd_trans _ _ _ _ _ U2 (upd_trans _ _ _ _ _ U3 U4)))|].
    intros z. cbn. rewrite !elem_of_cons in *. specialize (Hz z). rewrite !elem_of_cons in Hz. tauto. }
  destruct d; cbn [negb] in G2.
  - destruct (put_red _ _ _ _ _ _ false Hp) as (m3 & E3 & A3 & U3). clear Hp. carry U3. pose proof (get_near _ _ _ _ _ _ A1) as G3.
    destruct (put_red _ _ _ _ _ _ false Hub) as (m4 & E4 & A4 & U4). clear Hub. carry U4.
    exists m1, m2, p, m3, ub, m4. do 6 (split; [done|]). split; [by rewrite !shape_mk, addr_mk|]. eapply U; [done|done|done].
  - destruct (put_red _ _ _ _ _ _ false Hub) as (m3 & E3 & A3 & U3). clear Hub. carry U3. pose proof (get_far _ _ _ _ _ _ A1) as G3.
    destruct (put_red _ _ _ _ _ _ false Hp) as (m4 & E4 & A4 & U4). clear Hp. carry U4.
    exists m1, m2, ub, m3, p, m4. do 6 (split; [done|]). split; [by rewrite !shape_mk, addr_mk|]. eapply U; [done|done|]. intros z. rewrite !elem_of_cons. tauto.
Qed.

Section Sibling.

Context (m : gmap Z (RB_node_t V)) (k : list frame) (e c : bool) (p sa : Z) (sy sx : tree) (d : bool) (a : Z) (x y : tree) (f fp : Z).

#[local] Notation s := (mk (negb e) false sa sy sx).
#[local] Notation k0 := (F e c p s :: k).
#[local] Notation t := (mk d false a x y).

Hypothesis (H : holds m k0 t) (Hrb : rb k0 t) (Hd : d = (key m a <? 0)) (Rx : is_red x = false) (Ry : is_red y = false).
Hypothesis (Hroot : c = true \/ k = []).
Hypothesis (Hs : key_sorted cmp m (order_ctx k0 (inorder t))) (Hf : fp = 0 \/ found m k0 f fp /\ key m a <> 0).

(** The black heights. *)
Lemma sib_rb : exists n b', is_rb true x n /\ is_rb true y n /\ is_rb false sx n /\ is_rb false sy n /\ ctx_rb k b' (S n) /\ b' = false.
Proof.
  destruct Hrb as (b & n & Hk & (n' & -> & Hx & Hy)%is_rb_mk_inv). exists n', false. cbn in Hk. destruct c.
  - destruct Hk as (_ & (n2 & [= <-] & H1 & H2)%is_rb_mk_inv & Hk). split_and!; try done; by apply is_rb_black.
  - destruct Hk as (_ & (n2 & [= <-] & H1 & H2)%is_rb_mk_inv & Hk). destruct Hroot as [?| ->]; [done|].
    split_and!; try done; by apply is_rb_black.
Qed.

(** The reads up to the children of the sibling. *)
Lemma sib_reads (g : Z) : sa <> 0 /\ RB_IsRed m (addr sx) = Ok (is_red sx) /\ RB_IsRed m (addr sy) = Ok (is_red sy) /\
  rb_get (n_link (negb e)) m p = Ok sa /\ rb_get (n_link (negb e)) m sa = Ok (addr sy) /\ rb_get (n_link e) m sa = Ok (addr sx).
Proof.
  pose proof (h_ctx _ _ _ H) as (Hp & (Hsa & Hsy & Hsx)%shape_mk & _). cbn in Hp. rewrite !addr_mk in Hp.
  destruct (holds_zero _ _ _ H) as [_ H0]. cbn in H0. rewrite inorder_mk, order_perm in H0. rewrite not_elem_of_cons, not_elem_of_app, not_elem_of_cons, not_elem_of_app in H0.
  destruct H0 as (_ & (H1 & H2 & H3) & _). split_and!; [congruence|by apply IsRed_shape|by apply IsRed_shape|by eapply get_far|by eapply get_near|].
  apply get_far in Hsa. by rewrite negb_involutive in Hsa.
Qed.

Lemma push_flip (g : Z) : is_red sx = false -> is_red sy = false -> pushed_down m k0 t f fp (PushDown m g p a d e f fp).
Proof.
  intros Rsx Rsy. destruct (PushDown_black _ _ _ _ _ _ H Rx) as (E1 & E2 & E3 & E4 & E5). rewrite Ry in E5.
  destruct (sib_reads g) as (Hsa & E6 & E7 & E8 & E9 & E10). rewrite Rsx in E6. rewrite Rsy in E7.
  destruct (next_mk m d false a x y Hd) as [Ex _]. pose proof (holds_up _ _ _ _ H) as H1. cbn in H1. destruct (holds_nodup _ _ _ H1) as (N & _ & _).
  destruct (flip_colors _ _ _ _ _ _ _ _ _ _ _ (h_tree _ _ _ H1) N) as (m1 & m2 & m3 & W1 & W2 & W3 & S3 & U3).
  unfold PushDown. rewrite E1, bind_ret_l, E2, bind_ret_l, E3, bind_ret_l, E4, bind_ret_l, E5, bind_ret_l, E8, bind_ret_l.
  rewrite (proj2 (Z.eqb_neq sa 0)) by done. rewrite E9, bind_ret_l, E7, bind_ret_l, E10, bind_ret_l, E6, bind_ret_l. cbn [negb andb].
  rewrite W1, bind_ret_l, W2, bind_ret_l, W3, bind_ret_l.
  assert (Hin : forall z, z ∈ [p; sa; a] -> z ∈ inorder (mk e c p t s)) by (intros z; rewrite !inorder_mk, !order_perm; set_solver).
  pose proof (holds_same _ _ _ _ _ _ H1 U3 Hin S3) as H3. rewrite !inorder_mk, !addr_mk in H3. specialize (H3 eq_refl eq_refl).
  assert (V3 : vals m3 = vals m) by apply U3. pose proof (h_path _ _ _ H) as [[_ De] _]%Forall_cons. cbn in De.
  apply holds_down in H3; [|done|by rewrite (key_vals _ _ _ V3)]. apply holds_down in H3; [|done|by rewrite (key_vals _ _ _ V3)].
  rewrite (check_ok m3 (F d true a y :: F e false p (mk (negb e) true sa sy sx) :: k) x f fp H3), bind_ret_l.
  2:{ destruct Hf as [?|[Hf' Ka]]; [by left|right]. eapply found_vals; [exact V3|]. apply found_push; [|done]. by eapply found_color. }
  exists m3, (F e false p (mk (negb e) true sa sy sx) :: k), true, y, fp. split; [done|]. split; rewrite ?addr_mk, ?Ex, <- ?Hd; try done.
  - destruct sib_rb as (n & b' & Hx & Hy & Hsx & Hsy & Hk & _). exists true, n. split; [|done]. cbn. split_and!; try done; [|eauto].
    apply is_rb_mk_R; by apply is_rb_black.
  - cbn. by rewrite !inorder_mk.
  - by left.
  - intros Hfd Hka. eapply found_vals; [exact V3|]. apply found_push; [|done]. by eapply found_color.
Qed.

(** The end of the iteration after a rotation that puts [b] above [p]. *)
Lemma rotate_end m2 b u xi n : vals m2 = vals m -> u <> E -> (key m b <? 0) = e -> key m b <> 0 ->
  holds m2 k (mk (negb e) false b u (mk (negb e) true p xi t)) ->
  order_ctx k (inorder (mk (negb e) false b u (mk (negb e) true p xi t))) = order_ctx k0 (inorder t) ->
  is_rb true (black u) (S n) -> is_rb false xi n -> is_rb true x n -> is_rb true y n -> ctx_rb k false (S n) ->
  pushed_down m k0 t f fp (
    let fParent := if parent k =? fp then b else fp in
    CHECK_FPARENT m2 f fParent;;
    m ← rb_put (set_n_red true) m2 b;
    m ← rb_put (set_n_red true) m a;
    l ← rb_get (n_link false) m b;
    m ← rb_put (set_n_red false) m l;
    r ← rb_get (n_link true) m b;
    m ← rb_put (set_n_red false) m r;
    Ok (m, p, fParent)).
Proof.
  intros V2 Hu Db Kb H2 Eo Ru Rxi Rx' Ry' Rk. cbn zeta. pose proof (h_path _ _ _ H) as [[_ De] _]%Forall_cons. cbn in De.
  destruct (next_mk m d false a x y Hd) as [Ex _]. destruct (holds_nodup _ _ _ H) as (_ & N0 & _). destruct (holds_zero _ _ _ H) as [_ Z0].
  assert (Hf2 : found m k0 f fp -> forall c1 s1 c2 s2, found m (F e c1 p s1 :: F e c2 b s2 :: k) f (if parent k =? fp then b else fp)).
  { intros Hfd c1 s1 c2 s2. by eapply found_between. }
  assert (Hz : fp = 0 -> (if parent k =? fp then b else fp) = 0).
  { intros ->. pose proof (parent_in k) as Hp. cbn in Z0. destruct (Z.eqb_spec (parent k) 0) as [E|]; [|done]. rewrite E in Hp. set_solver. }
  remember (if parent k =? fp then b else fp) as fp2 eqn:Efp. 
  assert (H3 : holds m2 (F e true p xi :: F e false b u :: k) t).
  { rewrite !mk_negb in H2. apply holds_down; [apply holds_down; [done|done|]|done|]; by rewrite (key_vals _ _ _ V2). }
  rewrite (check_ok _ _ _ f fp2 H3), bind_ret_l; [|destruct Hf as [?|[Hfd _]]; [left; auto|right; eapply found_vals; [exact V2|auto]]].
  destruct (holds_nodup _ _ _ H2) as (N2 & _ & _).
  assert (ET : forall c, mk d c a x y = T c a (if d then y else x) (if d then x else y)) by (intros; by destruct d).
  pose proof (h_tree _ _ _ H2) as S2. rewrite ET in S2, N2.
  destruct (rotate_colors _ _ _ _ _ _ _ _ _ _ _ _ Hu S2 N2) as (m3 & m4 & lb & m5 & rb' & m6 & W1 & W2 & W3 & W4 & W5 & W6 & S6 & U6).
  rewrite W1, bind_ret_l, W2, bind_ret_l, W3, bind_ret_l, W4, bind_ret_l, W5, bind_ret_l, W6, bind_ret_l. rewrite <- ET in S6.
  assert (Hin : forall z, z ∈ [b; a; p; addr u] -> z ∈ inorder (mk (negb e) false b u (mk (negb e) true p xi t))).
  { pose proof (addr_in u Hu) as Hau. clear - Hau. intros z. rewrite !inorder_mk, !order_perm. set_solver. }
  pose proof (holds_same _ _ _ _ _ _ H2 U6 Hin S6) as H6. rewrite !inorder_mk, !addr_mk, inorder_black in H6. specialize (H6 eq_refl eq_refl).
  assert (V6 : vals m6 = vals m) by (rewrite <- V2; apply U6). rewrite !mk_negb in H6.
  apply holds_down in H6; [|done|by rewrite (key_vals _ _ _ V6)]. apply holds_down in H6; [|done|by rewrite (key_vals _ _ _ V6)].
  apply holds_down in H6; [|done|by rewrite (key_vals _ _ _ V6)].
  exists m6, (F e false p xi :: F e true b (black u) :: k), true, y, fp2. split; [done|]. split; rewrite ?addr_mk, ?Ex, <- ?Hd; try done.
  - exists true, n. split; [|done]. cbn. split_and!; try done. exists true. done.
  - rewrite <- Eo. cbn. rewrite inorder_black, !inorder_mk. by destruct e.
  - by left.
  - intros Hfd Hka. eapply found_vals; [exact V6|]. apply found_push; [|done]. by apply Hf2.
Qed.

Lemma push_rotate : is_red sx || is_red sy = true -> pushed_down m k0 t f fp (PushDown m (parent k) p a d e f fp).
Proof.
  intros Rs. destruct (PushDown_black _ _ _ _ _ _ H Rx) as (E1 & E2 & E3 & E4 & E5). rewrite Ry in E5.
  destruct (sib_reads 0) as (Hsa & E6 & E7 & E8 & E9 & E10). pose proof (holds_up _ _ _ _ H) as H1. cbn in H1.
  destruct (ctx_dir m k _ (h_ctx _ _ _ H1) (h_distinct _ _ _ H1)) as (gx & E11 & E12); [by destruct e|]. rewrite addr_mk in E12.
  pose proof (h_path _ _ _ H) as [[_ De] _]%Forall_cons. cbn in De.
  assert (Far : forall z, z ∈ inorder s -> (key m z <? 0) = e /\ key m z <> 0).
  { intros z Hz. eapply (far_dir m k e c p t s); [|done|done]. by rewrite inorder_mk. }
  destruct sib_rb as (n & b' & Hx & Hy & Hsx & Hsy & Hk & ->). rewrite <- mk_negb in H1. destruct (holds_nodup _ _ _ H1) as (N & _ & _).
  unfold PushDown. rewrite E1, bind_ret_l, E2, bind_ret_l, E3, bind_ret_l, E4, bind_ret_l, E5, bind_ret_l, E8, bind_ret_l.
  rewrite (proj2 (Z.eqb_neq sa 0)) by done. rewrite E9, bind_ret_l, E7, bind_ret_l, E10, bind_ret_l, E6, bind_ret_l, E11.
  replace (negb (is_red sy) && negb (is_red sx)) with false by (by destruct (is_red sx), (is_red sy)). rewrite bind_ret_l, E12.
  destruct (is_red sx) eqn:Rsx.
  - destruct (red_mk (negb e) sx Rsx) as (xb & x1 & x2 & Esx). rewrite Esx in H1, N, Hsx.
    apply is_rb_mk_inv in Hsx as (_ & Hx1 & Hx2).
    destruct (Double_spec m (negb e) c false true p sa xb sy x1 x2 t (h_tree _ _ _ H1) N) as (m1 & W1 & S1 & U1).
    rewrite negb_involutive in W1. rewrite W1, bind_ret_l.
    destruct (holds_replace _ _ _ _ (mk (negb e) false xb (mk (negb e) true sa sy x1) (mk (negb e) true p x2 t)) _ H1 U1) as (m2 & W2 & H2 & V2);
      [intros z; rewrite !inorder_mk, !order_perm; set_solver|done|by erewrite inorder_double|]. rewrite addr_mk in W2. rewrite W2, bind_ret_l.
    destruct (Far xb) as [Db Kb]; [rewrite Esx, !inorder_mk, !order_perm; set_solver|].
    apply (rotate_end m2 xb (mk (negb e) true sa sy x1) x2 n); try done; [by destruct e| | |by eapply is_rb_weak].
    + rewrite (inorder_double _ _ _ _ false true true), Esx. cbn. rewrite !inorder_mk. by destruct e.
    + replace (black _) with (mk (negb e) false sa sy x1) by (by destruct e). apply is_rb_mk_B; [done|by eapply is_rb_weak].
  - destruct (Single_spec m (negb e) c false p sa sy sx t (h_tree _ _ _ H1) N) as (m1 & W1 & S1 & U1).
    rewrite negb_involutive in W1. rewrite W1, bind_ret_l.
    destruct (holds_replace _ _ _ _ (mk (negb e) false sa sy (mk (negb e) true p sx t)) _ H1 U1) as (m2 & W2 & H2 & V2);
      [intros z; rewrite !inorder_mk, !order_perm; set_solver|done|by erewrite inorder_single|]. rewrite addr_mk in W2. rewrite W2, bind_ret_l.
    destruct (Far sa) as [Db Kb]; [rewrite !inorder_mk, !order_perm; set_solver|].
    apply (rotate_end m2 sa sy sx n); try done; [intros Esy; by rewrite Esy in Rs| |by apply black_rb].
    rewrite (inorder_single _ _ _ false true). cbn. rewrite !inorder_mk. by destruct e.
Qed.

End Sibling.

(** One iteration. *)
Lemma PushDown_spec m k t f fp :
  holds m k t -> rb k t -> t <> E -> pushed k t -> key_sorted cmp m (order_ctx k (inorder t)) -> fp = 0 \/ found m k f fp /\ key m (addr t) <> 0 ->
  pushed_down m k t f fp (PushDown m (gp k) (parent k) (addr t) (key m (addr t) <? 0) (dirk k) f fp).
Proof.
  intros H Hrb Ht Hp Hs Hf. destruct t as [|c a l r]; [done|]. cbn [addr] in *. rewrite (T_next (cmp := cmp) m c a l r) in *.
  remember (key m a <? 0) as d eqn:Hd. remember (next_t m (T c a l r)) as x eqn:Ex. remember (far d l r) as y eqn:Ey. clear Ex Ey l r Ht.
  destruct (c || is_red x) eqn:Rc; [by apply push_none|]. apply orb_false_elim in Rc as [-> Rx].
  destruct (is_red y) eqn:Ry.
  { destruct (red_mk (negb d) y Ry) as (b & u & v & ->). by apply push_single. }
  destruct k as [|[e c p s] k]; [by apply push_top|]. cbn [parent gp f_addr dirk f_dir].
  assert (Hsib : exists sa sy sx, s = mk (negb e) false sa sy sx).
  { destruct Hrb as (b & n & Hk & (n' & -> & _)%is_rb_mk_inv). cbn in Hk, Hp. rewrite is_red_mk in Hp.
    assert (Hns : exists b', is_rb b' s (S n')) by (destruct c; destruct Hk as (_ & Hk & _); eauto). destruct Hns as [b' Hns].
    assert (Rs : is_red s = false) by (destruct c; [destruct Hk as (_ & Hk & _); by eapply is_rb_true|naive_solver]).
    destruct s as [|[] sa l r]; [inversion Hns|done|]. rewrite (T_mk (negb e)). eauto. }
  destruct Hsib as (sa & sy & sx & ->).
  assert (Hroot : c = true \/ k = []) by (cbn in Hp; rewrite is_red_mk in Hp; naive_solver).
  destruct (is_red sx || is_red sy) eqn:Rs; [by eapply push_rotate|].
  apply orb_false_elim in Rs as [R1 R2]. by eapply push_flip.
Qed.

(** ** The loop *)

Lemma order_ctx_cat k1 : forall k2 l, order_ctx (k1 ++ k2) l = order_ctx k2 (order_ctx k1 l).
Proof. induction k1 as [|f k1 IH]; intros k2 l; cbn; [done|]. apply IH. Qed.

Lemma order_ctx_found k1 c f s k2 l :
  order_ctx (k1 ++ F false c f s :: k2) l = (lefts k2 ++ order_ctx k1 l) ++ f :: (inorder s ++ rights k2).
Proof. rewrite order_ctx_cat. cbn. rewrite order_ctx_app, <- !app_assoc. done. Qed.

(** The key is at one node only. *)
Lemma found_unique m k t f fp : found m k f fp -> key_sorted cmp m (order_ctx k (inorder t)) -> t <> E -> key m (addr t) = 0 -> fp = 0.
Proof.
  intros [(_ & -> & _)|(_ & k1 & c & s & k2 & -> & Hf & _)] Hs Ht Hk; [done|]. rewrite order_ctx_found in Hs.
  apply StronglySorted_app in Hs as (Hs & _). specialize (Hs (addr t) f). cbn in Hs. pose proof (addr_in t Ht). rewrite order_ctx_app in Hs.
  assert (0 < key m f); [|lia]. apply Hs; [set_solver|set_solver|lia].
Qed.

Lemma found_other m k t f fp : holds m k t -> found m k f fp -> t <> E -> f <> addr t.
Proof.
  intros H Hf Ht ->. destruct (holds_zero _ _ _ H) as [H0 _]. destruct (holds_nodup _ _ _ H) as (_ & _ & Hn). pose proof (addr_in t Ht) as Hi.
  destruct Hf as [(E0 & _)|(_ & k1 & c & s & k2 & -> & _)]; [by rewrite E0 in Hi|]. apply (Hn _ Hi). clear.
  induction k1 as [|f k1 IH]; cbn; [by left|]. right. apply elem_of_app. by right.
Qed.

(** The path at its end: to a leaf, which is red or the only node. *)
Record arrived m0 m k (f fp : Z) : Prop := {
  ar_vals : vals m = vals m0;
  ar_holds : holds m k E;
  ar_rb : rb k E;
  ar_pushed : pushed k E;
  ar_found : found m k f fp
}.

Lemma RemoveLoop_spec fuel : forall m k t f fp,
  holds m k t -> rb k t -> pushed k t -> key_sorted cmp m (order_ctx k (inorder t)) -> found m k f fp -> (length (inorder t) < fuel)%nat ->
  exists m' k' f' fp', RemoveLoop fuel m cmp (gp k) (parent k) (dirk k) f fp = Ok (m', parent k', gp k', f', fp') /\
    arrived m m' k' f' fp' /\ order_ctx k' [] = order_ctx k (inorder t) /\ (k <> [] \/ t <> E -> k' <> []).
Proof.
  induction fuel as [|fuel IH]; intros m k t f fp H Hrb Hp Hs Hf Hfuel; [lia|]. cbn [RemoveLoop].
  assert (Hl : rb_get (n_link (dirk k)) m (parent k) = Ok (addr t)).
  { pose proof (h_ctx _ _ _ H) as Hc. destruct k as [|fr k]; [apply (get_near _ _ _ _ _ _ Hc)|]. destruct Hc as [Hc _]. apply (get_near _ _ _ _ _ _ Hc). }
  rewrite Hl, bind_ret_l. destruct t as [|c a l r].
  { exists m, k, f, fp. split; [done|]. split_and!; [done|done|]. intros [?|?]; done. }
  remember (T c a l r) as t eqn:Et. assert (Ht : t <> E) by (by subst). destruct (holds_zero _ _ _ H) as [H0 _].
  rewrite (proj2 (Z.eqb_neq (addr t) 0)) by (intros E0; apply H0; rewrite <- E0; by apply addr_in).
  destruct (holds_dom m k t (addr t) H) as [n Hn]; [apply elem_of_app; left; by apply addr_in|]. rewrite Hn. cbn [deref]. rewrite bind_ret_l.
  assert (Hkey : cmp (n_data n) = key m (addr t)) by (unfold RBPath.key; by rewrite Hn). rewrite Hkey. cbn zeta.
  destruct (PushDown_spec m k t (if key m (addr t) =? 0 then addr t else f) fp) as (m' & k2 & c' & sib & fp' & -> & M); try done.
  { destruct (Z.eqb_spec (key m (addr t)) 0); [left; by eapply found_unique|by right]. }
  run. destruct M as [V' H' Hrb' Eo' Hp' Hz' Hf']. pose proof (next_length (cmp := cmp) m t Ht).
  destruct (IH m' (F (key m (addr t) <? 0) c' (addr t) sib :: k2) (next_t m t) (if key m (addr t) =? 0 then addr t else f)
    (if (if key m (addr t) =? 0 then addr t else f) =? addr t then parent k2 else fp')) as (m2 & k3 & f3 & fp3 & E3 & A3 & Eo3 & Hne); try done.
  - rewrite Eo'. by eapply key_sorted_vals.
  - destruct (Z.eqb_spec (key m (addr t)) 0) as [Hk|Hk].
    + rewrite Z.eqb_refl, Hk. apply found_here; [|by rewrite (key_vals _ _ _ V')]. intros E0. apply H0. rewrite <- E0. by apply addr_in.
    + rewrite (proj2 (Z.eqb_neq _ _)) by (by eapply found_other). auto.
  - lia.
  - exists m2, k3, f3, fp3. split; [exact E3|]. split_and!; [|by rewrite Eo3|intros _; by apply Hne; left].
    destruct A3 as [V3 H3 R3 P3 F3]. split; [congruence|done..].
Qed.

(** ** Taking the node out *)

(** The node at the end of the path is a leaf. *)
Lemma arrived_leaf m0 m d c q sq k f fp : arrived m0 m (F d c q sq :: k) f fp -> sq = E /\ rb k E.
Proof.
  intros [_ _ (b & n & Hk & Hb) Hp _]. assert (n = 0%nat) as -> by (by inversion Hb). cbn in Hk, Hp. destruct c.
  - destruct Hk as (_ & Hs & Hk). inversion Hs; subst. split; [done|]. exists false, 0%nat. split; [done|constructor].
  - destruct Hk as (_ & Hs & b' & Hk). destruct Hp as [?|[?|[-> Hr]]]; [done..|]. split; [inversion Hs; by subst|].
    exists false, 0%nat. split; [done|constructor].
Qed.

Lemma holds_plug2 m k1 : forall k2 t, holds m (k1 ++ k2) t -> holds m k2 (plug k1 t).
Proof. induction k1 as [|f k1 IH]; intros k2 t H; [done|]. cbn. apply IH. by apply holds_up. Qed.

(** [q] leaves its place. *)
Lemma unlink_leaf m d c q k : holds m (F d c q E :: k) E ->
  exists m1, (x ← rb_get (n_link true) m (parent k); l ← rb_get (n_link false) m q; y ← rb_get (n_link (l =? 0)) m q;
      rb_put (set_n_link (x =? q) y) m (parent k)) = Ok m1 /\
    holds m1 k E /\ upd m m1 [parent k].
Proof.
  intros H. pose proof (holds_up _ _ _ _ H) as H1. cbn in H1.
  destruct (ctx_dir m k _ (h_ctx _ _ _ H1) (h_distinct _ _ _ H1)) as (gx & E1 & E2); [by destruct d|]. rewrite addr_mk in E2.
  pose proof (h_tree _ _ _ H1) as (Hq & _)%shape_mk. assert (Hq' : at_ m q c false 0 0) by (destruct d; [by apply at_negb|done]).
  rewrite E1, bind_ret_l, (get_near _ _ _ _ _ _ Hq'), bind_ret_l. cbn [addr Z.eqb].
  rewrite (get_far _ _ _ false _ _ Hq' : rb_get (n_link true) m q = _), bind_ret_l, E2.
  destruct (holds_nodup _ _ _ H1) as (_ & N & _). destruct (ctx_put _ _ _ 0 (h_ctx _ _ _ H1) N) as (m1 & W & K & U). exists m1. split; [done|]. split; [|done].
  split; [done|done| |].
  - destruct (h_distinct _ _ _ H) as [D1 D2]. unfold distinct, all_nodes in *. cbn in *. apply NoDup_cons in D1 as [_ D1]. set_solver.
  - eapply on_path_vals; [apply U|apply (h_path _ _ _ H1)].
Qed.

(** [q] takes the place of [f]. *)
Lemma replace_node m c f t s k q : holds m k (mk false c f t s) -> is_Some (m !! q) -> q ∉ all_nodes k (mk false c f t s) -> q <> 0 ->
  exists m', (x ← rb_get (n_link true) m (parent k); m ← rb_put (set_n_link (x =? f) q) m (parent k); n ← deref (m !! f);
      m ← rb_put (set_n_red (n_red n)) m q; m ← rb_put (set_n_link false (n_link0 n)) m q; rb_put (set_n_link true (n_link1 n)) m q) = Ok m' /\
    holds m' k (mk false c q t s) /\ vals m' = vals m.
Proof.
  intros H [nq Hq] Hnq Hq0. destruct (ctx_dir m k _ (h_ctx _ _ _ H) (h_distinct _ _ _ H)) as (gx & E1 & E2); [done|]. rewrite addr_mk in E2.
  rewrite E1, bind_ret_l, E2. destruct (holds_nodup _ _ _ H) as (NT & N & NTK). destruct (ctx_put _ _ _ q (h_ctx _ _ _ H) N) as (m2 & W & K & U).
  rewrite W, bind_ret_l. unfold all_nodes in Hnq. rewrite inorder_mk, order_perm in Hnq, NT. setoid_rewrite inorder_mk in NTK. setoid_rewrite order_perm in NTK.
  rewrite not_elem_of_app, not_elem_of_cons, not_elem_of_app in Hnq. destruct Hnq as ((Q1 & Q2 & Q3) & Q4).
  assert (Hp : forall z, z ∈ f :: inorder t ++ inorder s -> z ∉ [parent k]).
  { intros z Hz ->%list_elem_of_singleton. apply (NTK _ Hz). apply parent_in. }
  pose proof (h_tree _ _ _ H) as (Hf & Ht & Hs)%shape_mk. apply (at_frame _ _ _ _ _ _ _ _ U) in Hf; [|apply Hp; by left].
  apply (shape_frame _ _ _ _ U) in Ht; [|intros; apply Hp; set_solver]. apply (shape_frame _ _ _ _ U) in Hs; [|intros; apply Hp; set_solver].
  pose proof Hf as (n & Hn & Hc & Hl & Hr). rewrite Hn. cbn [deref]. rewrite bind_ret_l. cbn in Hl, Hr. rewrite Hc, Hl, Hr.
  assert (Hq2 : exists c' x' y', at_ m2 q c' false x' y').
  { exists (n_red nq), (n_link0 nq), (n_link1 nq). exists nq. split; [|done]. destruct U as [_ U]. rewrite U; [done|]. intros ->%list_elem_of_singleton. apply Q4, parent_in. }
  destruct Hq2 as (c' & x' & y' & Hq2).
  destruct (put_red _ _ _ _ _ _ c Hq2) as (m3 & W3 & A3 & U3). destruct (put_near _ _ _ _ _ _ (addr t) A3) as (m4 & W4 & A4 & U4).
  destruct (put_far _ _ _ _ _ _ (addr s) A4) as (m5 & W5 & A5 & U5). rewrite W3, bind_ret_l, W4, bind_ret_l. exists m5. split; [done|].
  assert (U' : upd m2 m5 [q; q; q]) by (apply (upd_trans _ _ _ _ _ U3 (upd_trans _ _ _ _ _ U4 U5))).
  assert (Hv : vals m5 = vals m) by (transitivity (vals m2); [apply U'|apply U]). split; [|done].
  assert (Hne : forall z, z <> q -> z ∉ [q; q; q]) by (intros z; rewrite !elem_of_cons, elem_of_nil; tauto). split.
  - eapply shape_ctx_frame; [exact U'| |]; [|by rewrite addr_mk]. intros z Hz. apply Hne. by intros ->.
  - rewrite shape_mk. split_and!; [done|..]; (eapply shape_frame; [exact U'| |done]); intros z Hz; apply Hne; by intros ->.
  - destruct (h_distinct _ _ _ H) as [D1 D2]. unfold distinct in *. rewrite all_mk in *. rewrite NoDup_cons, !not_elem_of_app, !not_elem_of_cons, ?not_elem_of_app in *. naive_solver.
  - eapply on_path_vals; [exact Hv|apply (h_path _ _ _ H)].
Qed.

(** *** Laws of paths *)

Lemma plug_cat k1 : forall k2 t, plug (k1 ++ k2) t = plug k2 (plug k1 t).
Proof. induction k1 as [|f k1 IH]; intros k2 t; cbn; [done|]. apply IH. Qed.

Lemma all_plug k1 k2 t : all_nodes (k1 ++ k2) t ≡ₚ all_nodes k2 (plug k1 t).
Proof. by rewrite <- !order_ctx_perm, order_ctx_cat, inorder_plug. Qed.

Lemma ctx_rb_addr k1 d c a b s k2 : forall bb n, ctx_rb (k1 ++ F d c a s :: k2) bb n -> ctx_rb (k1 ++ F d c b s :: k2) bb n.
Proof. induction k1 as [|f k1 IH]; intros bb n; cbn; [done|]. destruct (f_red f); naive_solver. Qed.

Lemma frame_in f k l : f ∈ k -> f_addr f ∈ order_ctx k l.
Proof.
  revert l. induction k as [|g k IH]; intros l; [set_solver|]. intros [->|Hf]%elem_of_cons; cbn; [|by apply IH].
  rewrite order_ctx_app, !elem_of_app, order_perm. set_solver.
Qed.

(** Between [f] and the end of the path all steps go to the right. *)
Lemma rights_nil m k1 c f s k2 l : key_sorted cmp m (order_ctx (k1 ++ F false c f s :: k2) l) -> key m f = 0 ->
  on_path cmp (fun _ => True) m (k1 ++ F false c f s :: k2) -> rights k1 = [].
Proof.
  rewrite order_ctx_found. intros (Hs & _)%StronglySorted_app Hf [Hp _]%Forall_app.
  assert (Hd : Forall (fun g => f_dir g = true) k1).
  { rewrite Forall_forall in Hp |- *. intros g Hg. destruct (Hp g Hg) as [_ ->]. apply Z.ltb_lt.
    specialize (Hs (f_addr g) f). cbn in Hs. pose proof (frame_in g k1 l Hg). destruct (Z.lt_ge_cases (key m (f_addr g)) 0); [done|].
    assert (0 < key m f); [|lia]. apply Hs; [set_solver|by left|done]. }
  clear - Hd. induction Hd as [|g k1 Hg _ IH]; cbn; [done|]. by rewrite Hg, IH.
Qed.

(** The whole change: [f] is no longer in the tree, and the rest is in order. *)
Lemma TakeOut_spec m0 m k f fp : arrived m0 m k f fp -> k <> [] -> f <> 0 -> key_sorted cmp m (order_ctx k []) ->
  exists m' t' l1 l2, TakeOut m (parent k) (gp k) f fp = Ok m' /\ vals m' = vals m /\ holds m' [] t' /\ (exists n, is_rb false t' n) /\
    order_ctx k [] = l1 ++ f :: l2 /\ inorder t' = l1 ++ l2.
Proof.
  intros A Hk Hf0 Hs. destruct k as [|[d c q sq] k]; [done|]. destruct (arrived_leaf _ _ _ _ _ _ _ _ _ A) as [-> Hrb]. destruct A as [_ H _ _ Hf].
  destruct Hf as [(? & _)|(_ & k1 & cf & sf & k2 & Ek & Kf & ->)]; [done|]. cbn [parent gp f_addr].
  destruct (unlink_leaf _ _ _ _ _ H) as (m1 & W & H1 & U1). apply bind_Ok in W as (x & Ex & W). apply bind_Ok in W as (l & El & W). apply bind_Ok in W as (y & Ey & W).
  unfold TakeOut. rewrite Ex, bind_ret_l, El, bind_ret_l, Ey, bind_ret_l, W, bind_ret_l. destruct U1 as [V1 _].
  destruct k1 as [|fr k1]; cbn in Ek; injection Ek.
  - intros <- <- -> -> ->. rewrite Z.eqb_refl. cbn [negb]. exists m1, (plug k E), (lefts k), (rights k).
    split_and!; [done|done|by apply holds_plug|by apply rb_plug|cbn; by rewrite order_ctx_app|by rewrite inorder_plug, order_ctx_app].
  - intros -> <-. clear Ek. assert (Hfq : f <> q).
    { intros ->. destruct (h_distinct _ _ _ H) as [D _]. unfold all_nodes in D. cbn in D. apply NoDup_cons in D as [D _]. apply D. clear.
      induction k1 as [|f k1 IH]; cbn; [by left|]. right. apply elem_of_app. by right. }
    rewrite (proj2 (Z.eqb_neq f q)) by done. cbn [negb].
    rewrite (check_ok _ _ _ f (parent k2) H1), bind_ret_l.
    2:{ right. right. split; [done|]. exists k1, cf, sf, k2. by rewrite (key_vals _ _ _ V1). }
    pose proof (holds_up _ _ _ _ (holds_plug2 _ _ _ _ H1)) as H2. cbn in H2.
    destruct (replace_node m1 cf f (plug k1 E) sf k2 q H2) as (m' & -> & H' & V').
    { rewrite <- elem_of_dom, <- (dom_fmap_L (fun n => (n_data n, n_next n, n_prev n)) m1). change (q ∈ dom (vals m1)). rewrite V1. unfold vals.
      rewrite dom_fmap_L. apply elem_of_dom. eapply holds_dom; [exact H|]. by left. }
    { destruct (h_distinct _ _ _ H) as [[D _]%NoDup_cons _]. cbn in D.
      change (k1 ++ F false cf f sf :: k2) with (k1 ++ [F false cf f sf] ++ k2) in D. rewrite app_assoc in D. intros Hin. apply D.
      change (mk false cf f (plug k1 E) sf) with (plug [F false cf f sf] (plug k1 E)) in Hin. rewrite <- plug_cat in Hin.
      rewrite <- all_plug in Hin. done. }
    { destruct (holds_zero _ _ _ H) as [_ H0]. cbn in H0. set_solver. }
    exists m', (plug k2 (mk false cf q (plug k1 E) sf)), (lefts k2 ++ order_ctx k1 [q]), (inorder sf ++ rights k2).
    assert (Er : rights k1 = []).
    { pose proof (h_path _ _ _ H) as [_ Hp]%Forall_cons. cbn in Hs. by eapply rights_nil. }
    split_and!; [done|congruence|by apply holds_plug| | |].
    + destruct Hrb as (b & n & Hk1 & Hb). destruct (rb_plug (k1 ++ F false cf q sf :: k2) E) as [n' Hn']; [exists b, n; split; [by eapply ctx_rb_addr|done]|].
      rewrite plug_cat in Hn'. by exists n'.
    + cbn [order_ctx f_dir f_addr f_sib inorder]. rewrite order_ctx_found. by destruct d.
    + rewrite inorder_plug, inorder_mk, inorder_plug. cbn. rewrite !order_ctx_app, Er. cbn. rewrite !app_nil_r, <- !app_assoc. done.
Qed.

(** ** RB_Remove *)

Lemma tree_remove_none l : Forall (fun p => cmp2 p <> 0) l -> tree_remove cmp2 l = l /\ tree_find cmp2 RB_EQ l = None.
Proof.
  induction 1 as [|p l Hp _ [IH1 IH2]]; [done|]. cbn in *. rewrite (proj2 (Z.eqb_neq _ _)) by done. by rewrite IH1.
Qed.

Lemma tree_remove_at l1 p l2 : Forall (fun p => cmp2 p <> 0) l1 -> cmp2 p = 0 ->
  tree_remove cmp2 (l1 ++ p :: l2) = l1 ++ l2 /\ tree_find cmp2 RB_EQ (l1 ++ p :: l2) = Some p.
Proof.
  intros H Hp. induction H as [|q l1 Hq _ [IH1 IH2]]; cbn in *; [by rewrite Hp|]. rewrite (proj2 (Z.eqb_neq _ _)) by done. by rewrite IH1.
Qed.

(** The sequence around the end of the path. *)
Lemma end_absent zero (s : RB_t V) l t m k fp : rb_inv s l t -> arrived (with_head zero s) m k 0 fp -> order_ctx k [] = l.*1 ->
  key_sorted cmp m l.*1 -> Forall (fun p => cmp2 p <> 0) l.
Proof.
  intros I [Hv H _ _ Hf] Eo Hs. destruct Hf as [(_ & _ & Hz)|(? & _)]; [|done]. rewrite <- Eo, order_ctx_app in Hs. cbn in Hs.
  destruct (path_split m k Hs Hz (h_path _ _ _ H)) as [P1 P2]. destruct (chained_head zero s l t I) as [Hc _].
  change (chain (vals (with_head zero s)) 0 l 0) in Hc. rewrite <- Hv in Hc.
  apply Forall_forall. intros p Hp. rewrite <- (chain_key cmp m l 0 0 p Hc Hp). rewrite order_ctx_app in Eo. cbn in Eo.
  apply (list_elem_of_fmap_2 fst) in Hp. rewrite <- Eo in Hp. rewrite Forall_forall in P1, P2. apply elem_of_app in Hp as [Hp|Hp]; [apply P1 in Hp|apply P2 in Hp]; lia.
Qed.

Lemma end_found zero (s : RB_t V) l t m k f fp l1a l2a : rb_inv s l t -> arrived (with_head zero s) m k f fp -> f <> 0 ->
  l.*1 = l1a ++ f :: l2a -> sorted_for cmp l ->
  exists l1 v l2, l = l1 ++ (f, v) :: l2 /\ l1.*1 = l1a /\ l2.*1 = l2a /\ cmp v = 0 /\ Forall (fun p => cmp2 p <> 0) l1 /\
    exists n, m !! f = Some n /\ n_data n = v.
Proof.
  intros I [Hv H _ _ Hf] Hf0 El Hso. destruct Hf as [(? & _)|(_ & _ & _ & _ & _ & _ & Kf & _)]; [done|].
  apply fmap_app_inv in El as (l1 & l2' & -> & E2 & ->). destruct l2' as [|[f' v] l2]; [done|]. injection E2 as <- ->.
  destruct (chained_head zero s _ t I) as [Hc _]. change (chain (vals (with_head zero s)) 0 (l1 ++ (f, v) :: l2) 0) in Hc. rewrite <- Hv in Hc.
  assert (Kv : key m f = cmp v) by (apply (chain_key cmp m _ 0 0 (f, v) Hc); set_solver). rewrite Kv in Kf. exists l1, v, l2. do 3 (split; [done|]). split; [done|].
  split.
  - destruct (sorted_at _ _ _ _ Hso) as (_ & _ & Hl & _). eapply Forall_impl; [apply Hl; unfold RBInv.cmp2; cbn; lia|]. cbn. lia.
  - apply order_chain_app in Hc as (_ & Hc & _). rewrite vals_lookup in Hc. destruct (m !! f) as [n|]; [|done]. exists n. by injection Hc as -> _ _.
Qed.

Lemma remove_found zero (s : RB_t V) l t m k f fp : rb_inv s l t -> arrived (with_head zero s) m k f fp -> f <> 0 -> k <> [] ->
  order_ctx k [] = l.*1 -> key_sorted cmp m l.*1 -> sorted_for cmp l ->
  exists n m2 s3 t3, m !! f = Some n /\ TakeOut m (parent k) (gp k) f fp = Ok m2 /\ Unchain (set_mem m2 s) f = Ok s3 /\
    Some (n_data n) = snd <$> tree_find cmp2 RB_EQ l /\ holds (t_mem s3) [] t3 /\ (exists n, is_rb false t3 n) /\
    inorder t3 = (tree_remove cmp2 l).*1 /\ chained s3 (tree_remove cmp2 l) /\
    t_size s3 = u64 (Z.of_nat (length (tree_remove cmp2 l))) /\ dom (t_mem s3) = {[HEAD]} ∪ list_to_set (tree_remove cmp2 l).*1.
Proof.
  intros I A Hf0 Hk Eo Hks Hso. destruct (TakeOut_spec _ _ _ _ _ A Hk Hf0) as (m2 & t3 & l1a & l2a & W2 & V2 & H2 & R2 & E1 & E2); [by rewrite Eo|].
  rewrite Eo in E1. destruct (end_found _ _ _ _ _ _ _ _ _ _ I A Hf0 E1 Hso) as (l1 & v & l2 & -> & <- & <- & Kv & Hl1 & n & Hn & Hnv).
  destruct (tree_remove_at l1 (f, v) l2 Hl1 Kv) as [-> ->]. pose proof (ar_vals _ _ _ _ _ A) as Hv. rewrite Hv in V2.
  pose proof (i_nodup _ _ _ I) as Hnd. apply NoDup_cons in Hnd as [Hz [HH Hnd]%NoDup_cons]. destruct (i_notin s _ t I) as [NH N0].
  destruct (Unchain_spec (set_mem m2 s) l1 f v l2) as (s3 & W3 & L3 & R3 & S3 & C3).
  { destruct (chained_head zero s _ t I) as [Hc Hfl]. split; [|done]. change (chain (vals m2) 0 (l1 ++ (f, v) :: l2) 0). by rewrite V2. }
  { constructor; [set_solver|done]. }
  { change (vals m2 !! 0 = None). rewrite V2, vals_lookup. unfold with_head. by rewrite lookup_insert_ne, N0. }
  change (links (t_mem s3) = delete f (links m2)) in L3. rewrite fmap_app in HH, Hnd. cbn in HH, Hnd.
  assert (Hfn : f ∉ (l1 ++ l2).*1) by (rewrite fmap_app; rewrite <- Permutation_middle in Hnd; by apply NoDup_cons in Hnd as [? _]).
  exists n, m2, s3, t3. split_and!; [done|done|done|by rewrite Hnv| |done|by rewrite E2, fmap_app|done| |].
  - eapply holds_agree; [|exact H2]. intros a Ha. apply links_agree. rewrite L3. apply lookup_delete_ne. intros <-.
    unfold all_nodes in Ha. cbn in Ha. apply elem_of_app in Ha as [Ha|Ha%list_elem_of_singleton]; [rewrite E2, <- fmap_app in Ha; done|].
    apply HH. rewrite <- Ha. set_solver.
  - rewrite S3. change (t_size (set_mem m2 s)) with (t_size s). rewrite (i_size _ _ _ I), !length_app. cbn. unfold u64. rewrite Zminus_mod_idemp_l. f_equal. lia.
  - assert (Hd : dom (links (t_mem s3)) = dom (vals m2) ∖ {[f]}) by (rewrite L3, dom_delete_L; unfold links, vals; by rewrite !dom_fmap_L).
    rewrite V2 in Hd. unfold links, vals in Hd. rewrite !dom_fmap_L in Hd. rewrite Hd. unfold with_head. rewrite dom_insert_L, (i_dom _ _ _ I), !fmap_app. cbn.
    rewrite !list_to_set_app_L. cbn. rewrite fmap_app in Hfn. assert (f <> HEAD) by (intros ->; apply HH; set_solver). clear - Hfn H. set_solver.
Qed.

(** The node with the key is freed, and its value released. *)
Lemma RB_Remove_ok zero (s : RB_t V) l : is_rbtree s l -> sorted_for cmp l ->
  exists s', RB_Remove zero s cmp = Ok (s', snd <$> tree_find cmp2 RB_EQ l) /\ is_rbtree s' (tree_remove cmp2 l).
Proof.
  intros [t I] Hso. unfold RB_Remove. rewrite (CHECK_COUNT_ok _ _ _ I), bind_ret_l. pose proof (i_zero _ _ _ I) as Hz. destruct (i_rb _ _ _ I) as [n Hrb].
  assert (Ht : t = E \/ t <> E) by (destruct t; auto). destruct Ht as [->|Ht].
  { rewrite <- (i_root _ _ _ I). cbn. pose proof (i_order _ _ _ I) as El. destruct l; [|done]. exists s. split; [done|]. by exists E. }
  rewrite (proj2 (Z.eqb_neq (t_root s) 0)) by (rewrite <- (i_root _ _ _ I); intros E0; apply Hz; rewrite <- E0; by apply addr_in). cbn [negb].
  fold (with_head zero s). pose proof (chained_head zero s l t I) as Hc. destruct (i_notin s l t I) as [NH N0].
  assert (Hsz : size (with_head zero s) = S (length (inorder t))) by (unfold with_head; by rewrite map_size_insert_None, (mem_size _ _ _ I)).
  assert (Hd : dom (with_head zero s) = {[HEAD]} ∪ list_to_set l.*1) by (unfold with_head; by rewrite dom_insert_L, (i_dom _ _ _ I)).
  assert (Hks : key_sorted cmp (with_head zero s) l.*1) by (eapply key_sorted_of; [apply Hc|done]). pose proof (i_order _ _ _ I) as El.
  destruct (RemoveLoop_spec (S (S (size (with_head zero s)))) (with_head zero s) [] t 0 0) as (m & k & f & fp & W & A & Eo & Hk);
    [by apply holds_head with (l := l)|exists false, n; split; [done|by eapply is_rb_weak]|done|by cbn; rewrite El|by left|lia|].
  specialize (Hk (or_intror Ht)). cbn in Eo. cbn [gp parent dirk] in W. rewrite El in Eo. rewrite W, bind_ret_l. pose proof (ar_vals _ _ _ _ _ A) as Hv.
  assert (Hks' : key_sorted cmp m l.*1) by (by eapply key_sorted_vals).
  assert (Hc' : forall m', vals m' = vals m -> chained (set_mem m' s) l).
  { intros m' Hm'. destruct Hc as [Hc Hfl]. split; [|done]. change (chain (vals m') 0 l 0). by rewrite Hm', Hv. }
  destruct (Z.eqb_spec f 0) as [->|Hf0]; cbn [negb].
  - rewrite bind_ret_l. pose proof (end_absent _ _ _ _ _ _ _ I A Eo Hks') as Hab. destruct (tree_remove_none _ Hab) as [-> ->].
    destruct (finish_any (cmp := cmp) (ok := fun _ => True) (set_mem m s) l (plug k E)) as [G (m2 & P & Fi)].
    + apply holds_plug, A.
    + apply rb_plug, A.
    + by rewrite inorder_plug.
    + by apply Hc'.
    + apply I.
    + rewrite <- Hd. by apply vals_dom.
    + rewrite G, bind_ret_l, P, bind_ret_l. eauto.
  - destruct (remove_found _ _ _ _ _ _ _ _ I A Hf0 Hk Eo Hks' Hso) as (n' & m2 & s3 & t3 & -> & W2 & W3 & Ef & H3 & R3 & E3 & C3 & S3 & D3).
    cbn [deref]. rewrite bind_ret_l, W2, bind_ret_l. change (set_mem m2 (set_mem m s)) with (set_mem m2 s). rewrite W3, !bind_ret_l, <- Ef.
    destruct (finish_any s3 _ t3 H3 R3 E3 C3 S3 D3) as [G (m4 & P & Fi)]. rewrite G, bind_ret_l, P, bind_ret_l. eauto.
Qed.

End Remove.
