(* ===== verification/RBProps.v ===== *)
(** * Red-black trees refine ordered sequences

    The operations of src/lib/tmpl/rbtree-impl.h, in any order, answer as those of
    OrdTree.v do on the sequence of values: this is the contract against which the
    store and the client library are verified.  Lookups take a logarithmic number
    of steps. *)

From S2P Require Import Prelude CLib OrdTree RBTree RBShape RBChain RBPath RBInv RBInsert RBRemove.

(** ** The client's keys *)

(** What the parameters of the template have to satisfy: [compare k] is
    [COMPARE_VALUE_func(value, k)], and [init k] the value that [INIT_VALUE_func]
    makes of a [storable] key (others are only searched for); [lt] is the order of
    the values. *)
Class RBKeys (K V : Type) : Type := {
  compare : K -> V -> Z;
  init : K -> V;
  storable : K -> Prop;
  lt : V -> V -> Prop;
  lt_trans : forall x y z, lt x y -> lt y z -> lt x z;
  compare_mono : forall k x y, lt x y -> 0 <= compare k x -> 0 < compare k y;
  compare_init : forall k, storable k -> compare k (init k) = 0;
  compare_below : forall k x, storable k -> compare k x < 0 -> lt x (init k);
  compare_above : forall k x, storable k -> 0 < compare k x -> lt (init k) x
}.

(** Integers that are their own keys. *)
#[export] Instance Z_keys : RBKeys Z Z.
Proof. refine {| compare k v := v - k; init k := k; storable _ := True; lt := Z.lt |}; intros; cbn in *; lia. Defined.

(** ** Operations in sequence *)

Section Ops.

Context {K V : Type} `{RBKeys K V} (zero : V).
Implicit Types (s : RB_t V) (l : list (Z * V)).

(** An operation on a tree; an insertion comes with the node it allocates, the
    last one advances an iterator from where [RB_FindIter] put it. *)
Inductive rb_op : Type :=
| OpFind (k : K) (rel : RB_Relation)
| OpInsert (k : K) (a : Z)
| OpRemove (k : K)
| OpIterate (k : K) (rel : RB_Relation).

(** The node, or NULL; the value that was released. *)
Inductive rb_result : Type :=
| ResNode (a : Z)
| ResValue (v : option V).

Definition rb_run (op : rb_op) s : res (RB_t V * rb_result) :=
  match op with
  | OpFind k rel => a ← RB_Find s (compare k) rel; Ok (s, ResNode a)
  | OpInsert k a => '(s, r) ← RB_Insert zero s (compare k) (init k) (Some a); Ok (s, ResNode r)
  | OpRemove k => '(s, v) ← RB_Remove zero s (compare k); Ok (s, ResValue v)
  | OpIterate k rel =>
    o ← RB_FindIter s (compare k) rel;
    match o with
    | None => Ok (s, ResNode 0)
    | Some a => '(b, more) ← RB_Iterator_Next s a; Ok (s, ResNode (if (more : bool) then b else 0))
    end
  end.

Fixpoint rb_runs (ops : list rb_op) s : res (RB_t V * list rb_result) :=
  match ops with
  | [] => Ok (s, [])
  | op :: ops => '(s, r) ← rb_run op s; '(s, rs) ← rb_runs ops s; Ok (s, r :: rs)
  end.

(** The same on sequences. *)
Fixpoint after (a : Z) l : list (Z * V) :=
  match l with [] => [] | (b, _) :: l => if a =? b then l else after a l end.

Definition seq_run (op : rb_op) l : list (Z * V) * rb_result :=
  match op with
  | OpFind k rel => (l, ResNode (default 0 (fst <$> tree_find (cmp2 (compare k)) rel l)))
  | OpInsert k a =>
    match tree_insert (cmp2 (compare k)) (a, init k) l with
    | Some l' => (l', ResNode a)
    | None => (l, ResNode 0)
    end
  | OpRemove k => (tree_remove (cmp2 (compare k)) l, ResValue (snd <$> tree_find (cmp2 (compare k)) RB_EQ l))
  | OpIterate k rel =>
    (l, ResNode (match tree_find (cmp2 (compare k)) rel l with Some (a, _) => hda 0 (after a l) | None => 0 end))
  end.

Fixpoint seq_runs (ops : list rb_op) l : list (Z * V) * list rb_result :=
  match ops with
  | [] => (l, [])
  | op :: ops => let '(l, r) := seq_run op l in let '(l, rs) := seq_runs ops l in (l, r :: rs)
  end.

(** [malloc] returns the address of a node that is not in use; keys that are
    inserted are storable. *)
Definition alloc_ok (op : rb_op) l : Prop :=
  match op with OpInsert k a => a <> 0 /\ a <> HEAD /\ a ∉ l.*1 /\ storable k | _ => True end.

Fixpoint allocs_ok (ops : list rb_op) l : Prop :=
  match ops with
  | [] => True
  | op :: ops => alloc_ok op l /\ allocs_ok ops (seq_run op l).1
  end.

(** *** Laws *)

Definition in_order l : Prop := StronglySorted (fun p q => lt p.2 q.2) l.

Lemma in_order_for l k : in_order l -> sorted_for (compare k) l.
Proof. apply StronglySorted_impl. intros p q Hpq. unfold cmp2. by apply compare_mono. Qed.

Lemma in_order_run op l : in_order l -> alloc_ok op l -> in_order (seq_run op l).1.
Proof.
  intros Hl Ha. destruct op as [k rel|k a|k|k rel]; cbn; [done| | |done].
  - pose proof (in_order_for l k Hl) as Hs. destruct (tree_insert (cmp2 (compare k)) (a, init k) l) as [l'|] eqn:Ei; [|done]. cbn.
    destruct (tree_insert_ok (fun p q : Z * V => lt p.2 q.2) (cmp2 (compare k)) (a, init k) l) as (l2 & E2 & S2 & _); try done.
    + intros w _. apply compare_below, Ha.
    + intros w _. apply compare_above, Ha.
    + intros x y z. apply lt_trans.
    + apply Forall_forall. intros w Hw H0. by rewrite (tree_insert_dup (fun p q : Z * V => lt p.2 q.2) _ _ _ w) in Ei; [|done|intros x y _ _; apply compare_mono|..].
    + rewrite Ei in E2. by injection E2 as <-.
  - clear -Hl. induction Hl as [|p l Hl IH Hp]; cbn; [constructor|]. destruct (cmp2 (compare k) p =? 0); [done|]. constructor; [done|].
    clear - Hp. induction Hp as [|q l Hq Hl IH]; cbn; [constructor|]. destruct (cmp2 (compare k) q =? 0); [done|by constructor].
Qed.

Lemma after_app l1 a v l2 : a ∉ l1.*1 -> after a (l1 ++ (a, v) :: l2) = l2.
Proof.
  induction l1 as [|[b w] l1 IH]; cbn; [by rewrite Z.eqb_refl|]. intros [Hb Hl]%not_elem_of_cons. rewrite (proj2 (Z.eqb_neq _ _)) by done. auto.
Qed.

Lemma rb_run_ok op s l : is_rbtree s l -> in_order l -> alloc_ok op l ->
  exists s', rb_run op s = Ok (s', (seq_run op l).2) /\ is_rbtree s' (seq_run op l).1.
Proof.
  intros Ht Hl Ha. destruct op as [k rel|k a|k|k rel]; cbn [rb_run seq_run alloc_ok fst snd] in *; pose proof (in_order_for l k Hl) as Hs.
  - rewrite (RB_Find_spec _ _ _ _ Ht Hs), bind_ret_l. eauto.
  - destruct Ha as (Ha0 & HaH & Ha & Hk). destruct (RB_Insert_ok (compare k) zero s l (init k) a) as (s' & -> & Ht'); try done; [by apply compare_init| |].
    { destruct Ht as [t I]. apply not_elem_of_dom. rewrite (i_dom _ _ _ I), elem_of_list_to_set. done. }
    run. destruct (tree_insert _ _ l); eauto.
  - destruct (RB_Remove_ok (compare k) zero s l Ht Hs) as (s' & -> & Ht'). run. eauto.
  - rewrite (RB_FindIter_spec _ _ _ _ Ht Hs), bind_ret_l. destruct (tree_find _ rel l) as [[a v]|] eqn:Ef; cbn; [|eauto].
    assert (Hin : (a, v) ∈ l).
    { destruct rel; cbn in Ef; apply find_first_Some in Ef as (l1 & l2 & E & _); [|rewrite list_elem_of_In, in_rev, <- list_elem_of_In|]; rewrite E; set_solver. }
    apply list_elem_of_split in Hin as (l1 & l2 & ->). destruct (RB_Iterator_Next_spec _ _ _ _ _ Ht) as [-> _]. rewrite after_app.
    + destruct l2 as [|[b w] l2]; rewrite bind_ret_l; eauto.
    + destruct Ht as [t I]. pose proof (i_nodup _ _ _ I) as [_ [_ Hn]%NoDup_cons]%NoDup_cons. rewrite fmap_app in Hn. apply NoDup_app in Hn as (_ & Hn & _).
      intros Hin. apply (Hn _ Hin). by left.
Qed.

End Ops.

(** C31: the red-black tree of lib/tmpl/rbtree-impl.h is the ordered sequence of its
    values.  From an empty tree, any sequence of lookups, insertions, removals and
    iterator steps returns without a fault, gives the answers that the operations on
    sequences give, and leaves a red-black tree (black root, no red node below a red
    one, the same number of black nodes on every path, nodes chained in order, size
    as counted) of that sequence; no node moves, exactly the nodes of the sequence
    are allocated, and [RB_Release] then releases the values in order and frees all
    nodes. *)
Theorem RB_refines_sequences {K V} `{RBKeys K V} (zero : V) (s : RB_t V) (ops : list rb_op) :
  t_mem s = ∅ -> allocs_ok ops [] ->
  exists s', rb_runs zero ops (RB_Init s) = Ok (s', (seq_runs ops []).2) /\ is_rbtree s' (seq_runs ops []).1 /\ in_order (seq_runs ops []).1 /\
    exists s'', RB_Release s' = Ok (s'', (seq_runs ops []).1.*2) /\ t_root s'' = 0 /\ t_mem s'' = ∅.
Proof.
  intros Hm. assert (Gen : forall l s, is_rbtree s l -> in_order l -> allocs_ok ops l ->
    exists s', rb_runs zero ops s = Ok (s', (seq_runs ops l).2) /\ is_rbtree s' (seq_runs ops l).1 /\ in_order (seq_runs ops l).1).
  { clear s Hm. induction ops as [|op ops IH]; intros l s Ht Hl; cbn; [eauto|]. intros [Ha Has].
    destruct (rb_run_ok zero op s l Ht Hl Ha) as (s1 & -> & Ht1). run. pose proof (in_order_run op l Hl Ha) as Hl1.
    destruct (seq_run op l) as [l1 r]. cbn in *. destruct (IH l1 s1 Ht1 Hl1 Has) as (s2 & -> & H2). run. destruct (seq_runs ops l1). cbn in *. eauto. }
  intros Ha. destruct (Gen [] (RB_Init s)) as (s' & E & I & O); [by apply is_rbtree_init|constructor|done|].
  exists s'. do 3 (split; [done|]). by apply RB_Release_spec.
Qed.

Lemma RB_refines_sequences_witness :
  exists s', rb_runs 0 [OpInsert 5 1; OpInsert 3 2; OpInsert 4 3; OpInsert 4 4; OpIterate 4 RB_GE; OpRemove 4; OpFind 4 RB_GE] (RB_Init (RBT 0 0 0 0 ∅)) =
      Ok (s', [ResNode 1; ResNode 2; ResNode 3; ResNode 0; ResNode 1; ResValue (Some 4); ResNode 1]) /\ is_rbtree s' [(2, 3); (1, 5)].
Proof.
  destruct (RB_refines_sequences 0 (RBT 0 0 0 0 ∅)
    [OpInsert 5 1; OpInsert 3 2; OpInsert 4 3; OpInsert 4 4; OpIterate 4 RB_GE; OpRemove 4; OpFind 4 RB_GE]) as (s' & E & I & _).
  - reflexivity.
  - cbn. repeat split; try exact I; apply (bool_decide_unpack _); vm_compute; exact I.
  - exists s'. split; [exact E|exact I].
Defined.

(** ** The number of steps *)

Fixpoint height (t : tree) : nat := match t with E => 0 | T _ _ l r => S (Nat.max (height l) (height r)) end.

Lemma rb_height b t n : is_rb b t n -> (height t <= 2 * n + (if b then 0 else 1) /\ 2 ^ n <= S (length (inorder t)))%nat.
Proof.
  induction 1 as [b|a l r n _ [H1 H2] _ [H3 H4]|b a l r n _ [H1 H2] _ [H3 H4]]; cbn [height inorder].
  - split; [lia|]. cbn. lia.
  - rewrite length_app. cbn [length]. split; [lia|]. lia.
  - rewrite length_app. cbn [length]. split; [destruct b; lia|]. rewrite Nat.pow_succ_r'. lia.
Qed.

Lemma RBFindLoop_height {V} (cmp : V -> Z) m rel t : forall fuel fuel' best x, shape m t -> (height t < fuel)%nat -> 0 ∉ inorder t ->
  RBFindLoop fuel' m cmp rel (addr t) best = Ok x -> RBFindLoop fuel m cmp rel (addr t) best = Ok x.
Proof.
  induction t as [|c a l IHl r IHr]; intros [|fuel] [|fuel'] best x; cbn [height addr]; try lia; try done.
  intros ((n & Hn & _ & Hl & Hr) & Sl & Sr) Hf H0. cbn in H0. rewrite elem_of_app, elem_of_cons in H0.
  cbn [RBFindLoop]. rewrite (proj2 (Z.eqb_neq _ _)) by (intros ->; tauto). rewrite Hn. cbn [deref]. rewrite !bind_ret_l.
  assert (Hd : forall d b, RBFindLoop fuel' m cmp rel (n_link d n) b = Ok x -> RBFindLoop fuel m cmp rel (n_link d n) b = Ok x).
  { intros [] b; [rewrite (Hr : n_link true n = _); apply IHr|rewrite (Hl : n_link false n = _); apply IHl]; (done || lia || tauto). }
  destruct rel; repeat case_match; auto.
Qed.

(** A lookup in a tree of [n] values takes at most [2 log2(n + 1)] steps down, and
    one to see that it is at the end. *)
Lemma RB_Find_steps {V} (cmp : V -> Z) (s : RB_t V) l rel : is_rbtree s l -> sorted_for cmp l ->
  RBFindLoop (S (2 * Nat.log2 (S (length l)))) (t_mem s) cmp rel (t_root s) 0 = Ok (default 0 (fst <$> tree_find (cmp2 cmp) rel l)).
Proof.
  intros [t I] Hs. rewrite <- (i_root _ _ _ I). destruct (i_rb _ _ _ I) as [n Hn]. destruct (rb_height _ _ _ Hn) as [H1 H2].
  rewrite (i_order _ _ _ I), length_fmap in H2. apply Nat.log2_le_mono in H2. rewrite Nat.log2_pow2 in H2 by lia.
  eapply (RBFindLoop_height _ _ _ _ _ (S (size (t_mem s)))); [apply I|lia|by eapply i_zero|].
  rewrite (i_root _ _ _ I). apply (RB_Find_spec cmp s l rel); [by exists t|done].
Qed.

(** ** When the allocation fails *)

(** When [malloc] fails, [RB_Insert] returns before it updates the root, although
    it may have rotated the tree on the way down: in the tree of 1 to 7 the insertion
    of 8 makes 4 the root, the tree keeps 2 as its root, and 5 is no longer found; the
    next insertion or removal fails the check of the size. *)
Lemma RB_Insert_loses_root :
  exists s s', rb_runs 0 (map (fun i => OpInsert i i) [1; 2; 3; 4; 5; 6; 7]) (RB_Init (RBT 0 0 0 0 ∅)) = Ok (s, map ResNode [1; 2; 3; 4; 5; 6; 7]) /\
    RB_Insert 0 s (compare 8) (init 8) None = Ok (s', 0) /\
    RB_Find s (compare 5) RB_EQ = Ok 5 /\ RB_Find s' (compare 5) RB_EQ = Ok 0 /\
    RB_Insert 0 s' (compare 8) (init 8) (Some 8) = Fault AssertFail /\ RB_Remove 0 s' (compare 1) = Fault AssertFail.
Proof.
  eexists _, _. split; [vm_compute; reflexivity|]. split; [vm_compute; reflexivity|]. split_and!; vm_compute; reflexivity.
Qed.
