(* ===== verification/Eviction.v ===== *)
(** * Eviction policies (src/server/evictionpolicy.h, src/server/evictionpolicy.c)

    The store calls its eviction policy through a table of operations.  The
    table is a type class; what the store relies on are its laws, stated over
    the set of entries the policy tracks.  The LRU policy is an instance, on the
    doubly-linked list. *)

From S2P Require Import Prelude DblList.

(** ** The interface *)

(** [P] is the policy's state (the cookie); entries are addresses.  [ep_evict]
    receives the number of bytes wanted and returns a victim, [None] for NULL.
    [ep_linked] reads the link the policy keeps inside the entry.  [ep_init] receives
    what the memory of the state holds before. *)
Class EvictionPolicy (P : Type) : Type := {
  ep_init : Z -> P;
  ep_hit : P -> Z -> res P;
  ep_put : P -> Z -> bool -> res P;
  ep_invalidate : P -> Z -> res P;
  ep_remove : P -> Z -> res P;
  ep_evict : P -> Z -> option Z;
  ep_iterReset : P -> P;
  ep_iterNext : P -> res (P * option Z);
  ep_linked : P -> Z -> bool
}.

(** The policy tracks a set of entries.  Its iterator has a position, which is
    [ep_iterable] from a reset on for as long as the entry there is not removed. *)
Class EvictionPolicyLaws (P : Type) `{EvictionPolicy P} : Type := {
  ep_tracks : P -> gset Z -> Prop;
  ep_iterable : P -> gset Z -> Prop;
  ep_init_tracks junk : ep_tracks (ep_init junk) ∅;
  ep_hit_tracks p s x : ep_tracks p s -> x ∈ s ->
    exists p', ep_hit p x = Ok p' /\ ep_tracks p' s;
  ep_put_tracks p s x : ep_tracks p s -> x ∉ s -> x <> 0 ->
    exists p', ep_put p x false = Ok p' /\ ep_tracks p' ({[x]} ∪ s);
  ep_extend_tracks p s x : ep_tracks p s -> x ∈ s ->
    exists p', ep_put p x true = Ok p' /\ ep_tracks p' s;
  ep_invalidate_tracks p s x : ep_tracks p s -> x ∈ s ->
    exists p', ep_invalidate p x = Ok p' /\ ep_tracks p' s;
  ep_remove_tracks p s x : ep_tracks p s -> x ∈ s ->
    exists p', ep_remove p x = Ok p' /\ ep_tracks p' (s ∖ {[x]});
  ep_evict_tracks p s n : ep_tracks p s ->
    match ep_evict p n with Some x => x ∈ s | None => s = ∅ end;
  ep_linked_tracks p s x : ep_tracks p s -> ep_linked p x = true <-> x ∈ s;
  ep_iterReset_tracks p s : ep_tracks p s ->
    ep_tracks (ep_iterReset p) s /\ ep_iterable (ep_iterReset p) s;
  ep_iterNext_tracks p s p' r : ep_tracks p s -> ep_iterNext p = Ok (p', r) ->
    ep_tracks p' s /\ forall x, r = Some x -> x ∈ s;
  ep_iterNext_ok p s : ep_tracks p s -> ep_iterable p s ->
    exists p' r, ep_iterNext p = Ok (p', r) /\ ep_iterable p' s
}.

(** ** LRU *)

Record LRUEviction_State_t : Type := LRUState {
  lru : LIST_t;
  iterPos : Z
}.

(** [iterPos] is not initialised: it is whatever the memory [malloc] returns holds. *)
Definition LRUEviction_Init (junk : Z) : LRUEviction_State_t := LRUState (LIST_Init (LIST 0 0 ∅)) junk.

Definition LRUEviction_Hit (state : LRUEviction_State_t) (entry : Z) :
    res LRUEviction_State_t :=
  if entry =? 0 then Ok state
  else
    l ← LIST_Unlink (lru state) entry;
    Ok (LRUState (LIST_PushFront l entry) (iterPos state)).

Definition LRUEviction_Put (state : LRUEviction_State_t) (entry : Z) (extension : bool) :
    res LRUEviction_State_t :=
  l ← (if extension then LIST_Unlink (lru state) entry else Ok (lru state));
  Ok (LRUState (LIST_PushFront l entry) (iterPos state)).

Definition LRUEviction_Invalidate (state : LRUEviction_State_t) (entry : Z) :
    res LRUEviction_State_t := Ok state.

Definition LRUEviction_Remove (state : LRUEviction_State_t) (entry : Z) :
    res LRUEviction_State_t :=
  l ← LIST_Unlink (lru state) entry;
  Ok (LRUState l (iterPos state)).

Definition ptr (p : Z) : option Z := if p =? 0 then None else Some p.

Definition LRUEviction_Evict (state : LRUEviction_State_t) (bytes : Z) : option Z :=
  ptr (tail (lru state)).

Definition LRUEviction_IterReset (state : LRUEviction_State_t) : LRUEviction_State_t :=
  LRUState (lru state) (tail (lru state)).

(** The position is read whatever it is; that it is an entry on the list is left to
    the caller. *)
Definition LRUEviction_IterNext (state : LRUEviction_State_t) :
    res (LRUEviction_State_t * option Z) :=
  let r := iterPos state in
  if r =? 0 then Ok (state, None)
  else if linked (link (links (lru state)) r)
  then Ok (LRUState (lru state) (prev (link (links (lru state)) r)), Some r)
  else Fault NullDeref.

#[global] Instance EvictionPolicy_LRU : EvictionPolicy LRUEviction_State_t := {
  ep_init := LRUEviction_Init;
  ep_hit := LRUEviction_Hit;
  ep_put := LRUEviction_Put;
  ep_invalidate := LRUEviction_Invalidate;
  ep_remove := LRUEviction_Remove;
  ep_evict := LRUEviction_Evict;
  ep_iterReset := LRUEviction_IterReset;
  ep_iterNext := LRUEviction_IterNext;
  ep_linked p x := linked (link (links (lru p)) x)
}.

(** ** LRU on sequences *)

Definition bring_front (x : Z) (l : list Z) : list Z := x :: filter (fun y => y <> x) l.

Lemma elem_of_bring_front x y l : x ∈ l -> y ∈ bring_front x l <-> y ∈ l.
Proof.
  intros Hx. unfold bring_front. rewrite elem_of_cons, list_elem_of_filter.
  destruct (decide (y = x)) as [->|]; naive_solver.
Qed.

Lemma not_in_filter_ne x (l : list Z) : x ∉ filter (fun y => y <> x) l.
Proof. rewrite list_elem_of_filter. naive_solver. Qed.

Lemma is_list_ne0 d l x : is_list d l -> x ∈ l -> x <> 0.
Proof. intros H Hx ->. by apply (il_null _ _ H). Qed.

Lemma LRU_Hit_ok s l x :
  is_list (lru s) l -> x ∈ l ->
  exists s', LRUEviction_Hit s x = Ok s' /\ is_list (lru s') (bring_front x l).
Proof.
  intros H Hx. unfold LRUEviction_Hit.
  rewrite (proj2 (Z.eqb_neq x 0)) by (by apply (is_list_ne0 _ _ _ H)).
  destruct (Unlink_ok _ _ _ H Hx) as (d & -> & Hd). cbn.
  eexists; split; [done|]. cbn. apply PushFront_ok; [done|apply not_in_filter_ne|].
  by apply (is_list_ne0 _ _ _ H).
Qed.

Lemma LRU_Put_ok s l x :
  is_list (lru s) l -> x ∉ l -> x <> 0 ->
  exists s', LRUEviction_Put s x false = Ok s' /\ is_list (lru s') (x :: l).
Proof. intros H Hx H0. eexists; split; [done|]. by apply PushFront_ok. Qed.

Lemma LRU_Extend_ok s l x :
  is_list (lru s) l -> x ∈ l ->
  exists s', LRUEviction_Put s x true = Ok s' /\ is_list (lru s') (bring_front x l).
Proof.
  intros H Hx. unfold LRUEviction_Put.
  destruct (Unlink_ok _ _ _ H Hx) as (d & -> & Hd). cbn.
  eexists; split; [done|]. cbn. apply PushFront_ok; [done|apply not_in_filter_ne|].
  by apply (is_list_ne0 _ _ _ H).
Qed.

Lemma LRU_Remove_ok s l x :
  is_list (lru s) l -> x ∈ l ->
  exists s', LRUEviction_Remove s x = Ok s' /\
    is_list (lru s') (filter (fun y => y <> x) l).
Proof.
  intros H Hx. unfold LRUEviction_Remove.
  destruct (Unlink_ok _ _ _ H Hx) as (d & -> & Hd). cbn. by eexists.
Qed.

Lemma LRU_Evict_ok s l n : is_list (lru s) l -> LRUEviction_Evict s n = last l.
Proof.
  intros H. unfold LRUEviction_Evict, ptr.
  destruct (Z.eqb_spec (tail (lru s)) 0) as [E|E].
  - apply (is_list_tail _ _ H) in E. by subst.
  - rewrite (il_tail _ _ H) in *. unfold last_or in *. by destruct (last l).
Qed.

Lemma prev_in_list d l x : is_list d l -> x ∈ l -> prev (link (links d) x) = 0 \/ prev (link (links d) x) ∈ l.
Proof.
  intros H (l1 & l2 & ->)%list_elem_of_split. pose proof (il_chain _ _ H) as HC.
  apply chain_app in HC as [_ [-> _]]. destruct (last_or_cases l1) as [[-> ->]|(y & l' & -> & ->)]; [by left|].
  right. rewrite !elem_of_app. left. right. by left.
Qed.

(** The LRU policy keeps the laws of the interface. *)
#[global] Program Instance EvictionPolicyLaws_LRU : EvictionPolicyLaws LRUEviction_State_t := {
  ep_tracks p s := exists l, is_list (lru p) l /\ forall x, x ∈ l <-> x ∈ s;
  ep_iterable p s := iterPos p = 0 \/ iterPos p ∈ s
}.
Next Obligation. intros junk. exists []. split; [apply Init_is_list|set_solver]. Qed.
Next Obligation.
  intros p s x (l & H & Hl) Hx. destruct (LRU_Hit_ok p l x H) as (p' & E & H'); [by apply Hl|].
  exists p'. split; [done|]. exists (bring_front x l). split; [done|].
  intros y. rewrite elem_of_bring_front by (by apply Hl). apply Hl.
Qed.
Next Obligation.
  intros p s x (l & H & Hl) Hx H0. destruct (LRU_Put_ok p l x H) as (p' & E & H').
  - by rewrite Hl.
  - done.
  - exists p'. split; [done|]. exists (x :: l). split; [done|]. set_solver.
Qed.
Next Obligation.
  intros p s x (l & H & Hl) Hx. destruct (LRU_Extend_ok p l x H) as (p' & E & H'); [by apply Hl|].
  exists p'. split; [done|]. exists (bring_front x l). split; [done|].
  intros y. rewrite elem_of_bring_front by (by apply Hl). apply Hl.
Qed.
Next Obligation. intros p s x (l & H & Hl) Hx. exists p. split; [done|]. by exists l. Qed.
Next Obligation.
  intros p s x (l & H & Hl) Hx. destruct (LRU_Remove_ok p l x H) as (p' & E & H'); [by apply Hl|].
  exists p'. split; [done|]. exists (filter (fun y => y <> x) l). split; [done|].
  intros y. rewrite list_elem_of_filter, Hl. set_solver.
Qed.
Next Obligation.
  intros p s n (l & H & Hl). change (ep_evict p n) with (LRUEviction_Evict p n).
  rewrite (LRU_Evict_ok p l n H). destruct (last l) as [x|] eqn:E.
  - apply Hl. by apply last_Some_elem_of.
  - apply last_None in E. subst. apply set_eq. set_solver.
Qed.
Next Obligation. intros p s x (l & H & Hl). rewrite <- Hl. apply (is_list_linked _ _ _ H). Qed.
Next Obligation.
  intros p s (l & H & Hl). split; [by exists l|]. cbn. rewrite (il_tail _ _ H). unfold last_or.
  destruct (last l) as [x|] eqn:E; [|by left]. right. apply Hl. by apply last_Some_elem_of.
Qed.
Next Obligation.
  intros p s p' r (l & H & Hl) E. cbn in E. unfold LRUEviction_IterNext in E.
  destruct (iterPos p =? 0); [simplify_eq; split; [by exists l|done]|].
  destruct (linked _) eqn:E'; [|done]. simplify_eq. split; [by exists l|]. intros x [= <-].
  by apply Hl, (is_list_linked _ _ _ H).
Qed.
Next Obligation.
  intros p s (l & H & Hl) Hi. cbn. unfold LRUEviction_IterNext.
  destruct (Z.eqb_spec (iterPos p) 0) as [E|E]; [by exists p, None|].
  destruct Hi as [Hi|Hi]; [done|]. apply Hl in Hi.
  rewrite (proj2 (is_list_linked _ _ _ H)) by done. eexists _, _. split; [done|]. cbn.
  destruct (prev_in_list _ _ _ H Hi) as [->|Hp]; [by left|right; by apply Hl].
Qed.

(** ** Histories

    A history lists the calls made to the policy, the latest first. *)

Inductive lru_op : Type :=
| OpHit (x : Z)
| OpPut (x : Z)
| OpExtend (x : Z)
| OpRemove (x : Z).

Definition lru_step (s : LRUEviction_State_t) (o : lru_op) : res LRUEviction_State_t :=
  match o with
  | OpHit x => LRUEviction_Hit s x
  | OpPut x => LRUEviction_Put s x false
  | OpExtend x => LRUEviction_Put s x true
  | OpRemove x => LRUEviction_Remove s x
  end.

Fixpoint lru_exec (junk : Z) (h : list lru_op) : res LRUEviction_State_t :=
  match h with
  | [] => Ok (LRUEviction_Init junk)
  | o :: h => s ← lru_exec junk h; lru_step s o
  end.

(** The entries put and not removed since. *)
Fixpoint present (h : list lru_op) (x : Z) : bool :=
  match h with
  | [] => false
  | OpPut y :: h => bool_decide (x = y) || present h x
  | OpRemove y :: h => negb (bool_decide (x = y)) && present h x
  | _ :: h => present h x
  end.

(** The position of the last call that used the entry. *)
Fixpoint last_use (h : list lru_op) (x : Z) : Z :=
  match h with
  | [] => 0
  | OpRemove _ :: h => last_use h x
  | (OpHit y | OpPut y | OpExtend y) :: h =>
    if bool_decide (x = y) then Z.of_nat (S (length h)) else last_use h x
  end.

(** Entries are put once and used and removed while present. *)
Fixpoint wf_history (h : list lru_op) : bool :=
  match h with
  | [] => true
  | OpPut x :: h => negb (x =? 0) && negb (present h x) && wf_history h
  | (OpHit x | OpExtend x | OpRemove x) :: h => present h x && wf_history h
  end.

Lemma last_use_le h x : 0 <= last_use h x <= Z.of_nat (length h).
Proof.
  induction h as [|[] h IH]; cbn [last_use length]; try lia;
    case_bool_decide; lia.
Qed.

(** The tracked sequence is sorted by last use, the latest first. *)
Definition by_use (h : list lru_op) (l : list Z) : Prop :=
  StronglySorted (fun a b => last_use h b < last_use h a) l /\
  forall x, x ∈ l <-> present h x = true.

Lemma use_front h x l o :
  (forall y, last_use (o :: h) y =
    if bool_decide (y = x) then Z.of_nat (S (length h)) else last_use h y) ->
  StronglySorted (fun a b => last_use h b < last_use h a) l -> x ∉ l ->
  StronglySorted (fun a b => last_use (o :: h) b < last_use (o :: h) a) (x :: l).
Proof.
  intros Hu Hs Hx.
  assert (Hl : forall y, y ∈ l -> last_use (o :: h) y = last_use h y).
  { intros y Hy. rewrite Hu, bool_decide_eq_false_2; [done|congruence]. }
  constructor.
  - clear Hx. induction Hs as [|y l Hs IH Hy]; [constructor|]. constructor.
    + apply IH. intros z Hz. apply Hl. by right.
    + rewrite Forall_forall in Hy |- *. intros z Hz. rewrite (Hl z) by (by right).
      rewrite (Hl y) by (apply elem_of_cons; by left).
      by apply Hy.
  - rewrite Forall_forall. intros y Hy. rewrite (Hl y Hy), Hu, bool_decide_eq_true_2 by done.
    pose proof (last_use_le h y). lia.
Qed.

Lemma exec_ok junk h :
  wf_history h = true ->
  exists s l, lru_exec junk h = Ok s /\ is_list (lru s) l /\ by_use h l.
Proof.
  induction h as [|o h IH]; intros Hw.
  { exists (LRUEviction_Init junk), []. split_and!; [done|apply Init_is_list|].
    split; [constructor|]. set_solver. }
  assert (Hh : wf_history h = true).
  { destruct o; cbn in Hw; by repeat (apply andb_true_iff in Hw as [? Hw]). }
  destruct (IH Hh) as (s & l & E & H & Hs & Hp). cbn [lru_exec]. rewrite E.
  cbn [mbind res_bind].
  assert (Hf : forall x, StronglySorted (fun a b => last_use h b < last_use h a)
      (filter (fun y => y <> x) l)) by (intros; by apply StronglySorted_filter).
  destruct o as [x|x|x|x]; cbn in Hw; apply andb_true_iff in Hw as [Hx _]; cbn [lru_step].
  - apply Hp in Hx. destruct (LRU_Hit_ok s l x H Hx) as (s' & E' & H').
    exists s', (bring_front x l). split_and!; try done. split.
    + apply use_front; [done|apply Hf|apply not_in_filter_ne].
    + intros y. by rewrite elem_of_bring_front, Hp.
  - apply andb_true_iff in Hx as [H0 Hx]. bools.
    assert (Hx' : x ∉ l) by (rewrite Hp; congruence).
    destruct (LRU_Put_ok s l x H Hx' H0) as (s' & E' & H').
    exists s', (x :: l). split_and!; try done. split.
    + by apply use_front.
    + intros y. cbn. rewrite elem_of_cons, orb_true_iff, bool_decide_eq_true, Hp. done.
  - apply Hp in Hx. destruct (LRU_Extend_ok s l x H Hx) as (s' & E' & H').
    exists s', (bring_front x l). split_and!; try done. split.
    + apply use_front; [done|apply Hf|apply not_in_filter_ne].
    + intros y. by rewrite elem_of_bring_front, Hp.
  - apply Hp in Hx. destruct (LRU_Remove_ok s l x H Hx) as (s' & E' & H').
    exists s', (filter (fun y => y <> x) l). split_and!; try done. split; [apply Hf|].
    intros y. cbn. rewrite list_elem_of_filter, andb_true_iff, negb_true_iff,
      bool_decide_eq_false, Hp. done.
Qed.

Lemma sorted_last {R : Z -> Z -> Prop} l x :
  StronglySorted R l -> last l = Some x -> forall y, y ∈ l -> y <> x -> R y x.
Proof.
  intros Hs Hl. apply last_Some in Hl as [l' ->].
  intros y [Hy|Hy%list_elem_of_singleton]%elem_of_app Hne; [|done].
  eapply StronglySorted_app_1_elem_of; [exact Hs|done|by left].
Qed.

(** The iterator at the [k]-th element from the tail. *)
Fixpoint iterate (n : nat) (s : LRUEviction_State_t) : res (list (option Z)) :=
  match n with
  | O => Ok []
  | S n => '(s, r) ← LRUEviction_IterNext s; rs ← iterate n s; Ok (r :: rs)
  end.

Lemma iterate_ok n s l1 l2 :
  is_list (lru s) (l1 ++ l2) -> iterPos s = last_or 0 l1 -> (length l1 < n)%nat ->
  iterate n s = Ok (map Some (rev l1) ++ replicate (n - length l1) None).
Proof.
  revert s l1 l2. induction n as [|n IH]; intros s l1 l2 H Hi Hn; [lia|]. cbn.
  unfold LRUEviction_IterNext. destruct (last_or_cases l1) as [[-> E]|(x & l' & -> & E)];
    rewrite E in Hi; rewrite Hi.
  - cbn. destruct n as [|n]; [done|].
    rewrite (IH s [] l2 H Hi ltac:(cbn; lia)). done.
  - assert (Hx : x <> 0).
    { apply (is_list_ne0 _ _ _ H). rewrite !elem_of_app. left. right. by left. }
    rewrite (proj2 (Z.eqb_neq x 0)) by done.
    rewrite (proj2 (is_list_linked _ _ _ H)) by (rewrite !elem_of_app; left; right; by left).
    rewrite length_app in *. cbn [length mbind res_bind] in *. rewrite rev_app_distr.
    rewrite <- app_assoc in H. rewrite (IH _ l' (x :: l2)); cbn; [|done| |lia].
    + do 4 f_equal. lia.
    + pose proof (il_chain _ _ H) as HC. apply chain_app in HC as [_ [-> _]]. done.
Qed.

(** ** Properties *)

Definition ex_history : list lru_op := [OpHit 8; OpPut 24; OpPut 16; OpPut 8].

(** C32: the LRU policy is LRU.  After any history of puts, hits, extensions and
    removals, every call succeeds, and the victim is a present entry whose last
    use is before the last use of every other present entry; there is no victim
    exactly when no entry is present. *)
Theorem LRU_evicts_least_recently_used junk h bytes :
  wf_history h = true ->
  exists s, lru_exec junk h = Ok s /\
    match LRUEviction_Evict s bytes with
    | None => forall x, present h x = false
    | Some v => present h v = true /\
        forall x, present h x = true -> x <> v -> last_use h v < last_use h x
    end.
Proof.
  intros Hw. destruct (exec_ok junk h Hw) as (s & l & E & H & Hs & Hp). exists s. split; [done|].
  rewrite (LRU_Evict_ok s l bytes H). destruct (last l) as [v|] eqn:El.
  - split; [by apply Hp, last_Some_elem_of|]. intros x Hx Hne.
    apply (sorted_last _ _ Hs El); [by apply Hp|done].
  - apply last_None in El. subst l. intros x. apply not_true_is_false. intros ?%Hp. set_solver.
Qed.

Lemma LRU_evicts_least_recently_used_witness :
  exists s, lru_exec 7 ex_history = Ok s /\
    match LRUEviction_Evict s 100 with
    | None => forall x, present ex_history x = false
    | Some v => present ex_history v = true /\
        forall x, present ex_history x = true -> x <> v -> last_use ex_history v < last_use ex_history x
    end.
Proof. apply LRU_evicts_least_recently_used. reflexivity. Defined.

(** The eviction-order iterator enumerates the tracked entries from the
    least to the most recently used, each once, and then returns NULL. *)
Lemma LRU_iterates_in_eviction_order s l n :
  is_list (lru s) l -> (length l < n)%nat ->
  iterate n (LRUEviction_IterReset s) =
  Ok (map Some (rev l) ++ replicate (n - length l) None).
Proof.
  intros H Hn. apply (iterate_ok n _ l []); [by rewrite app_nil_r| |done].
  apply (il_tail _ _ H).
Qed.
