(* ===== verification/StoreData.v ===== *)
(** * The data of the cache store (src/server/store.h, storevset.h, lookuppolicy.h)

    The records of the store, its trees' comparison functions and the sizes it
    accounts for.  An entry is an address: [heap] maps the live addresses to entries,
    and version sets, the tag index and the lists hold addresses.  Trees are
    sequences in order (OrdTree), the hash table is a map with its size fields. *)

From S2P Require Import Prelude CLib Interval Truth Memory Hash DblList OrdTree.

(** ** Data *)

Notation key := (list Z) (only parsing).
Notation tag := (list Z) (only parsing).

Definition INVAL_BUFFER_TIME : Z := 30.

(** Sizes of the LP64 build with [PARANOID]. *)
Definition sizeof_ptr : Z := 8.
Definition sizeof_HT : Z := 16.
Definition sizeof_StoreVSet : Z := 64.
Definition StoreVSetTree_ElemSize : Z := 168.

Definition INITIAL_POWER : Z := 10.

Record StoreClassStats_t : Type := Stats {
  lookups : Z;
  hits : Z;
  keyMisses : Z;
  stalenessMisses : Z;
  capacityMisses : Z;
  consistencyMisses : Z;
  extensions : Z;
  potentialExtensions : Z;
  entries : Z
}.

Definition zero_stats : StoreClassStats_t := Stats 0 0 0 0 0 0 0 0 0.

(** [nInvalTags] is the length of the list, [dataLen] that of the data; the
    version set is named by its key.  The links of the two lists the entry is on
    are kept with the lists. *)
Record entry_t : Type := Entry {
  interval : interval_t;
  data : list Z;
  vset : key;
  invalTags : list tag;
  invalTagsLen : Z;
  hitCount : Z;
  timeInvalidated : Z
}.

Record StoreInvalMapEntry_t : Type := InvalMapEntry {
  me_tag : tag;
  me_entry : Z
}.

Record StoreInvalBufferEntry_t : Type := InvalBufferEntry {
  be_pin : Z;
  be_time : Z;
  be_tag : tag;
  be_descendants : bool
}.

#[global] Instance InvalMapEntry_eq_dec : EqDecision StoreInvalMapEntry_t.
Proof. solve_decision. Defined.

(** Lookup policies: the identifiers of the wire protocol, and the functions
    the registered policies carry. *)
Definition LOOKUP_POLICY_LATEST : Z := 0.
Definition LOOKUP_POLICY_OLDEST : Z := 1.
Definition LOOKUP_POLICY_SCREW_CONSISTENCY : Z := 2.
Definition NUM_LOOKUP_POLICIES : nat := 3.

Inductive StoreLookupPolicyFn : Type := LatestAcceptable | ScrewConsistency.

Record StoreLookupPolicy_t : Type := LookupPolicy {
  lp_id : Z;
  lp_lookup : StoreLookupPolicyFn
}.

Definition LookupPolicy_Latest : StoreLookupPolicy_t :=
  LookupPolicy LOOKUP_POLICY_LATEST LatestAcceptable.
Definition LookupPolicy_ScrewConsistency : StoreLookupPolicy_t :=
  LookupPolicy LOOKUP_POLICY_SCREW_CONSISTENCY ScrewConsistency.

Inductive LookupOutcome_t : Type :=
| LOOKUP_HIT (entry : Z)
| LOOKUP_STALENESS_MISS
| LOOKUP_CAPACITY_MISS
| LOOKUP_CONSISTENCY_MISS.

(** [P] is the state of the eviction policy.  [room] is not a field of the code: it is
    the answer of the allocations whose failure the code does not report to the caller.
    Where one of them fails the code panics, uses NULL or leaves a tree damaged. *)
Record Store_t {P : Type} : Type := Store {
  lines : gmap key (list Z);
  ht_power : Z;
  ht_count : Z;
  keyBytes : Z;
  entryBytes : Z;
  maxBytes : Z;
  lastInvalTime : Z;
  invalMap : list StoreInvalMapEntry_t;
  invalBuffer : list StoreInvalBufferEntry_t;
  bufferValidFrom : Z;
  lookupPolicyTable : list (option StoreLookupPolicy_t);
  evictionPolicyState : P;
  hasEvicted : bool;
  uselessBound : Z;
  invTimeOrder : LIST_t;
  totalStats : StoreClassStats_t;
  classStats : gmap key StoreClassStats_t;
  collectStats : bool;
  heap : gmap Z entry_t;
  room : bool
}.

#[global] Arguments Store_t : clear implicits.
#[global] Arguments Store {P} _ _ _ _ _ _ _ _ _ _ _ _ _ _ _ _ _ _ _ _.
#[global] Arguments lines {P} s.
#[global] Arguments ht_power {P} s.
#[global] Arguments ht_count {P} s.
#[global] Arguments keyBytes {P} s.
#[global] Arguments entryBytes {P} s.
#[global] Arguments maxBytes {P} s.
#[global] Arguments lastInvalTime {P} s.
#[global] Arguments invalMap {P} s.
#[global] Arguments invalBuffer {P} s.
#[global] Arguments bufferValidFrom {P} s.
#[global] Arguments lookupPolicyTable {P} s.
#[global] Arguments evictionPolicyState {P} s.
#[global] Arguments hasEvicted {P} s.
#[global] Arguments uselessBound {P} s.
#[global] Arguments invTimeOrder {P} s.
#[global] Arguments totalStats {P} s.
#[global] Arguments classStats {P} s.
#[global] Arguments collectStats {P} s.
#[global] Arguments heap {P} s.
#[global] Arguments room {P} s.

Definition set_lines {P : Type} (x : gmap key (list Z)) (s : Store_t P) : Store_t P :=
  Store x (ht_power s) (ht_count s) (keyBytes s) (entryBytes s) (maxBytes s)
    (lastInvalTime s) (invalMap s) (invalBuffer s) (bufferValidFrom s)
    (lookupPolicyTable s) (evictionPolicyState s) (hasEvicted s) (uselessBound s)
    (invTimeOrder s) (totalStats s) (classStats s) (collectStats s) (heap s) (room s).

Definition set_ht_power {P : Type} (x : Z) (s : Store_t P) : Store_t P :=
  Store (lines s) x (ht_count s) (keyBytes s) (entryBytes s) (maxBytes s)
    (lastInvalTime s) (invalMap s) (invalBuffer s) (bufferValidFrom s)
    (lookupPolicyTable s) (evictionPolicyState s) (hasEvicted s) (uselessBound s)
    (invTimeOrder s) (totalStats s) (classStats s) (collectStats s) (heap s) (room s).

Definition set_ht_count {P : Type} (x : Z) (s : Store_t P) : Store_t P :=
  Store (lines s) (ht_power s) x (keyBytes s) (entryBytes s) (maxBytes s)
    (lastInvalTime s) (invalMap s) (invalBuffer s) (bufferValidFrom s)
    (lookupPolicyTable s) (evictionPolicyState s) (hasEvicted s) (uselessBound s)
    (invTimeOrder s) (totalStats s) (classStats s) (collectStats s) (heap s) (room s).

Definition set_keyBytes {P : Type} (x : Z) (s : Store_t P) : Store_t P :=
  Store (lines s) (ht_power s) (ht_count s) x (entryBytes s) (maxBytes s)
    (lastInvalTime s) (invalMap s) (invalBuffer s) (bufferValidFrom s)
    (lookupPolicyTable s) (evictionPolicyState s) (hasEvicted s) (uselessBound s)
    (invTimeOrder s) (totalStats s) (classStats s) (collectStats s) (heap s) (room s).

Definition set_entryBytes {P : Type} (x : Z) (s : Store_t P) : Store_t P :=
  Store (lines s) (ht_power s) (ht_count s) (keyBytes s) x (maxBytes s) (lastInvalTime s)
    (invalMap s) (invalBuffer s) (bufferValidFrom s) (lookupPolicyTable s)
    (evictionPolicyState s) (hasEvicted s) (uselessBound s) (invTimeOrder s)
    (totalStats s) (classStats s) (collectStats s) (heap s) (room s).

Definition set_lastInvalTime {P : Type} (x : Z) (s : Store_t P) : Store_t P :=
  Store (lines s) (ht_power s) (ht_count s) (keyBytes s) (entryBytes s) (maxBytes s) x
    (invalMap s) (invalBuffer s) (bufferValidFrom s) (lookupPolicyTable s)
    (evictionPolicyState s) (hasEvicted s) (uselessBound s) (invTimeOrder s)
    (totalStats s) (classStats s) (collectStats s) (heap s) (room s).

Definition set_invalMap {P : Type} (x : list StoreInvalMapEntry_t) (s : Store_t P) : Store_t P :=
  Store (lines s) (ht_power s) (ht_count s) (keyBytes s) (entryBytes s) (maxBytes s)
    (lastInvalTime s) x (invalBuffer s) (bufferValidFrom s) (lookupPolicyTable s)
    (evictionPolicyState s) (hasEvicted s) (uselessBound s) (invTimeOrder s)
    (totalStats s) (classStats s) (collectStats s) (heap s) (room s).

Definition set_invalBuffer {P : Type} (x : list StoreInvalBufferEntry_t) (s : Store_t P) : Store_t P :=
  Store (lines s) (ht_power s) (ht_count s) (keyBytes s) (entryBytes s) (maxBytes s)
    (lastInvalTime s) (invalMap s) x (bufferValidFrom s) (lookupPolicyTable s)
    (evictionPolicyState s) (hasEvicted s) (uselessBound s) (invTimeOrder s)
    (totalStats s) (classStats s) (collectStats s) (heap s) (room s).

Definition set_bufferValidFrom {P : Type} (x : Z) (s : Store_t P) : Store_t P :=
  Store (lines s) (ht_power s) (ht_count s) (keyBytes s) (entryBytes s) (maxBytes s)
    (lastInvalTime s) (invalMap s) (invalBuffer s) x (lookupPolicyTable s)
    (evictionPolicyState s) (hasEvicted s) (uselessBound s) (invTimeOrder s)
    (totalStats s) (classStats s) (collectStats s) (heap s) (room s).

Definition set_evictionPolicyState {P : Type} (x : P) (s : Store_t P) : Store_t P :=
  Store (lines s) (ht_power s) (ht_count s) (keyBytes s) (entryBytes s) (maxBytes s)
    (lastInvalTime s) (invalMap s) (invalBuffer s) (bufferValidFrom s)
    (lookupPolicyTable s) x (hasEvicted s) (uselessBound s) (invTimeOrder s)
    (totalStats s) (classStats s) (collectStats s) (heap s) (room s).

Definition set_hasEvicted {P : Type} (x : bool) (s : Store_t P) : Store_t P :=
  Store (lines s) (ht_power s) (ht_count s) (keyBytes s) (entryBytes s) (maxBytes s)
    (lastInvalTime s) (invalMap s) (invalBuffer s) (bufferValidFrom s)
    (lookupPolicyTable s) (evictionPolicyState s) x (uselessBound s) (invTimeOrder s)
    (totalStats s) (classStats s) (collectStats s) (heap s) (room s).

Definition set_invTimeOrder {P : Type} (x : LIST_t) (s : Store_t P) : Store_t P :=
  Store (lines s) (ht_power s) (ht_count s) (keyBytes s) (entryBytes s) (maxBytes s)
    (lastInvalTime s) (invalMap s) (invalBuffer s) (bufferValidFrom s)
    (lookupPolicyTable s) (evictionPolicyState s) (hasEvicted s) (uselessBound s) x
    (totalStats s) (classStats s) (collectStats s) (heap s) (room s).

Definition set_totalStats {P : Type} (x : StoreClassStats_t) (s : Store_t P) : Store_t P :=
  Store (lines s) (ht_power s) (ht_count s) (keyBytes s) (entryBytes s) (maxBytes s)
    (lastInvalTime s) (invalMap s) (invalBuffer s) (bufferValidFrom s)
    (lookupPolicyTable s) (evictionPolicyState s) (hasEvicted s) (uselessBound s)
    (invTimeOrder s) x (classStats s) (collectStats s) (heap s) (room s).

Definition set_classStats {P : Type} (x : gmap key StoreClassStats_t) (s : Store_t P) : Store_t P :=
  Store (lines s) (ht_power s) (ht_count s) (keyBytes s) (entryBytes s) (maxBytes s)
    (lastInvalTime s) (invalMap s) (invalBuffer s) (bufferValidFrom s)
    (lookupPolicyTable s) (evictionPolicyState s) (hasEvicted s) (uselessBound s)
    (invTimeOrder s) (totalStats s) x (collectStats s) (heap s) (room s).

Definition set_heap {P : Type} (x : gmap Z entry_t) (s : Store_t P) : Store_t P :=
  Store (lines s) (ht_power s) (ht_count s) (keyBytes s) (entryBytes s) (maxBytes s)
    (lastInvalTime s) (invalMap s) (invalBuffer s) (bufferValidFrom s)
    (lookupPolicyTable s) (evictionPolicyState s) (hasEvicted s) (uselessBound s)
    (invTimeOrder s) (totalStats s) (classStats s) (collectStats s) x (room s).


Definition set_interval (i : interval_t) (e : entry_t) : entry_t :=
  Entry i (data e) (vset e) (invalTags e) (invalTagsLen e) (hitCount e) (timeInvalidated e).
Definition set_hitCount (n : Z) (e : entry_t) : entry_t :=
  Entry (interval e) (data e) (vset e) (invalTags e) (invalTagsLen e) n (timeInvalidated e).
Definition set_timeInvalidated (t : Z) (e : entry_t) : entry_t :=
  Entry (interval e) (data e) (vset e) (invalTags e) (invalTagsLen e) (hitCount e) t.

(** ** Comparison functions of the trees *)

Definition StoreInvalTree_CompareValue (k : StoreInvalMapEntry_t) (v : StoreInvalMapEntry_t) : Z :=
  let i := strcmp (me_tag v) (me_tag k) in
  if negb (i =? 0) then i
  else if me_entry v <? me_entry k then -1
  else if me_entry v =? me_entry k then 0
  else 1.

(** The key has a pin and a tag, [None] for NULL. *)
Definition StoreInvalBuffer_CompareValue (pin : Z) (t : option tag)
    (v : StoreInvalBufferEntry_t) : Z :=
  if be_pin v <? pin then -1
  else if pin <? be_pin v then 1
  else match t with
       | None => -1
       | Some t => strcmp (be_tag v) t
       end.

(** The entry at address [e], whose [interval.lower] is the key of its tree. *)
Definition StoreVSet_CompareValue (heap : gmap Z entry_t) (l : Z) (e : Z) : Z :=
  match heap !! e with
  | None => 1
  | Some ent =>
    if lower (interval ent) <? l then -1
    else if lower (interval ent) =? l then 0
    else 1
  end.

(** [StoreVSet_InitValue]: all fields zero but the lower bound. *)
Definition StoreVSet_InitValue (l : Z) : entry_t :=
  Entry (Interval l 0 false) [] [] [] 0 0 0.

(** ** Sizes *)

(** The footprint [StoreHT_Size] computes. *)
Definition StoreHT_Footprint (power count : Z) : Z :=
  u64 (sizeof_HT + hashsize power * sizeof_ptr + count * MALLOC_SIZE sizeof_StoreVSet).

Definition Store_EntryFootprint (dataLen invalTagsLen : Z) : Z :=
  u64 (MALLOC_SIZE StoreVSetTree_ElemSize + MALLOC_SIZE dataLen + MALLOC_SIZE invalTagsLen).

Definition entry_footprint (e : entry_t) : Z :=
  Store_EntryFootprint (Z.of_nat (length (data e))) (invalTagsLen e).

(** ** Keys *)

(** The class name in a key: a length as a little-endian [int], then the name. *)
Definition key_class (k : key) : res key :=
  let clsLen := s32 (le_val (take 4 k)) in
  if (Z.of_nat (length k) <? 4) || (clsLen <? 0) ||
     (Z.of_nat (length k) <? 4 + clsLen) then Fault OutOfBounds
  else Ok (take (Z.to_nat clsLen) (drop 4 k)).

(** ** Allocations *)

(** An allocation whose failure is not reported. *)
Definition need {P : Type} (s : Store_t P) : res unit := if room s then Ok tt else Fault OutOfMemory.

#[global] Arguments StoreHT_Footprint : simpl never.
#[global] Arguments Store_EntryFootprint : simpl never.
#[global] Arguments MALLOC_SIZE : simpl never.
