(* ===== verification/StatsText.v ===== *)
(** * The text of the statistics (src/server/store.c)

    The text of [Store_DumpStats], written with [sprintf] into a buffer of fixed size;
    the printing of a percentage in floating point; and [Store_PrintStats], which the
    store itself calls when an eviction finds nothing left to evict. *)

From S2P Require Import Prelude CLib CText Interval Truth Memory Hash DblList OrdTree StoreData.

(** ** Numbers in floating point *)

(** The integer next to [num / den], the even one of two. *)
Definition round_half_even (num den : Z) : Z :=
  let q := num / den in
  let r := num mod den in
  if 2 * r <? den then q
  else if den <? 2 * r then q + 1
  else if Z.even q then q else q + 1.

(** A [double] that is not negative is [(m, e)], for [m * 2 ^ e]. *)
Definition double : Type := Z * Z.

(** [num / den * 2 ^ (- e)], as a fraction. *)
Definition scaled (num den e : Z) : Z * Z := (num * 2 ^ Z.max 0 (- e), den * 2 ^ Z.max 0 e).

(** The [double] next to [num / den], with 53 significant bits.  The exponents of
    the quotients of two [long]s are far from the limits of the format. *)
Definition round53 (num den : Z) : double :=
  let e := Z.log2 num - Z.log2 den - 52 in
  let '(n, d) := scaled num den e in
  let e := if n / d <? 2 ^ 52 then e - 1 else e in
  let '(n, d) := scaled num den e in
  (round_half_even n d, e).

(** The conversion of a [long] is exact below [2 ^ 53]. *)
Definition of_long (n : Z) : double := if n <? 2 ^ 53 then (n, 0) else round53 n 1.

Definition double_div (a b : double) : double :=
  let '(n, d) := scaled a.1 b.1 (b.2 - a.2) in round53 n d.

(** [%.1f] *)
Definition fmt_f1 (x : double) : list Z :=
  let '(n, d) := scaled (10 * x.1) 1 (- x.2) in
  let t := round_half_even n d in
  digits 20 (t / 10) ++ [46; t mod 10 + 48].

(** ** Columns *)

(** The percentage of [VA_VAL_PCT(v, of)]; the product is a [long]. *)
Definition VAL_PCT (v total : Z) : list Z :=
  if 0 <? total then
    let n := s64 (v * 100) in
    if n <? 0 then 45 :: fmt_f1 (double_div (of_long (- n)) (of_long total))
    else fmt_f1 (double_div (of_long n) (of_long total))
  else fmt_f1 (0, 0).

(** The string at the start of a buffer: [%s] reads on behind the buffer when
    there is no NUL in it. *)
Fixpoint c_string (buf : list Z) : res (list Z) :=
  match buf with
  | [] => Fault OutOfBounds
  | c :: buf => if c =? 0 then Ok [] else s ← c_string buf; Ok (c :: s)
  end.

Definition col (n : Z) : list Z := 32 :: pad_left 5 (fmt_ld n).

Definition Store_DumpClassStats (name : list Z) (st : StoreClassStats_t) : list Z :=
  pad_right 18 name ++ [32] ++ pad_left 7 (fmt_ld (lookups st)) ++ col (hits st) ++ [32; 40] ++
  pad_left 5 (VAL_PCT (hits st) (lookups st)) ++ [37; 41] ++ col (keyMisses st) ++ col (stalenessMisses st) ++
  col (capacityMisses st) ++ col (consistencyMisses st) ++ col (extensions st) ++
  col (potentialExtensions st) ++ col (entries st) ++ [10].

Definition stats_header : list Z :=
  pad_left 18 [] ++ [32] ++ pad_left 7 (str "lookups") ++ [32] ++ pad_left 14 (str "hits") ++
  concat (map (fun s => 32 :: pad_left 5 (str s))
    ["keyMi"; "stlMi"; "capMi"; "conMi"; "extns"; "pExts"]%string) ++ [32; 32] ++ pad_left 5 (str "entrs") ++ [10].

(** ** The dump *)

Definition STATS_BUF : Z := 80 * 100.

(** [sprintf(pos, ...); pos += strlen(pos)]: the text and its NUL have to fit. *)
Definition emit (buf text : list Z) : res (list Z) :=
  if Z.of_nat (length buf) + Z.of_nat (length text) <? STATS_BUF then Ok (buf ++ text) else Fault OutOfBounds.

Section Dump.

Context {P : Type}.

Notation Store_t := (Store_t P).

Fixpoint StatsLoop (s : Store_t) (order : list key) (buf : list Z) : res (list Z) :=
  match order with
  | [] => Ok buf
  | cls :: order =>
    st ← deref (classStats s !! cls);
    name ← c_string cls;
    buf ← emit buf (Store_DumpClassStats name st);
    StatsLoop s order buf
  end.

(** [buf] is whether [malloc] has room, which the code does not test; [order] is
    the order in which the iterator of the table visits the classes, and it reads
    out of bounds when there is none. *)
Definition Store_DumpStats (s : Store_t) (malloc : bool) (order : list key) : res (list Z) :=
  if bool_decide (classStats s = ∅) then Fault OutOfBounds
  else if negb malloc then Fault NullDeref
  else
    buf ← emit [] stats_header;
    buf ← StatsLoop s order buf;
    buf ← emit buf (Store_DumpClassStats (str "Total") (totalStats s));
    buf ← emit buf (str "keys: " ++ fmt_d (ht_count s) ++ [10]);
    buf ← emit buf (str "htBytes: " ++ fmt_lu (StoreHT_Footprint (ht_power s) (ht_count s)) ++ [10]);
    buf ← emit buf (str "keyBytes: " ++ fmt_lu (keyBytes s) ++ [10]);
    emit buf (str "entryBytes: " ++ fmt_lu (entryBytes s) ++ [10]).

(** What goes to the standard output. *)
Definition Store_PrintStats (s : Store_t) (malloc : bool) (order : list key) : res (list Z) :=
  buf ← Store_DumpStats s malloc order;
  Ok (buf ++ [10]).

(** The classes, in the order in which a map is enumerated. *)
Definition classes (s : Store_t) : list key := (map_to_list (classStats s)).*1.

End Dump.

#[global] Arguments emit : simpl never.
#[global] Arguments Store_DumpClassStats : simpl never.

