(* ===== verification/Store.v ===== *)
(** * The cache store (src/server/store.c, store.h, storevset.c, storevset.h,
      lookuppolicy.c, lookuppolicy.h)

    The versions of a key form a version set ordered by the lower bound of their
    validity intervals; version sets live in a hash table, entries are indexed
    by invalidation tag, by invalidation time and by the eviction policy.

    The data is in StoreData.v.  [time(NULL)] and the results of [malloc] are arguments
    of the operations that call them, but for the allocations whose failure the code
    does not report: they succeed as long as the field [room] is set ([need]).  [Fault]
    stands for an abort or a memory error. *)

From S2P Require Import Prelude CLib Interval Truth Memory Hash DblList OrdTree StoreData StatsText Eviction.

(** ** Tags *)

(** The size of the block that holds the copies. *)
Definition Store_CopyInvalTagsLen (tags : list tag) : Z :=
  match tags with
  | [] => 0
  | _ =>
    fold_left (fun total t => u64 (total + strlen t + 1)) tags
      (u64 (Z.of_nat (length tags) * sizeof_ptr))
  end.

(** The insertion of a new tag allocates a node of the tree. *)
Fixpoint Store_RegisterInvalTags {P : Type} (s : Store_t P) (entry : Z) (tags : list tag) :
    res (Store_t P * bool) :=
  match tags with
  | [] => Ok (s, true)
  | t :: tags =>
    let mapEntry := InvalMapEntry t entry in
    match tree_insert (StoreInvalTree_CompareValue mapEntry) mapEntry (invalMap s) with
    | None => Ok (s, false)
    | Some m => need s;; Store_RegisterInvalTags (set_invalMap m s) entry tags
    end
  end.

(** [RB_Remove] reports success whether or not the key was there. *)
Fixpoint Store_UnregisterInvalTags (m : list StoreInvalMapEntry_t) (entry : Z) (tags : list tag) :
    list StoreInvalMapEntry_t :=
  match tags with
  | [] => m
  | t :: tags =>
    Store_UnregisterInvalTags
      (tree_remove (StoreInvalTree_CompareValue (InvalMapEntry t entry)) m) entry tags
  end.

(** ** Operations *)

Section Ops.

Context {P : Type} `{EvictionPolicy P}.

Notation Store_t := (Store_t P).

(** A class that is not known yet is allocated. *)
Definition Store_GetClassStats (s : Store_t) (k : key) : res (key * StoreClassStats_t) :=
  cls ← key_class k;
  match classStats s !! cls with
  | Some cs => Ok (cls, cs)
  | None => need s;; Ok (cls, zero_stats)
  end.

(** [MODSTAT(store, key, stat, postop)]; [f] applies the operation to the field. *)
Definition MODSTAT (s : Store_t) (k : key)
    (f : StoreClassStats_t -> StoreClassStats_t) : res Store_t :=
  if collectStats s then
    let s := set_totalStats (f (totalStats s)) s in
    '(cls, cs) ← Store_GetClassStats s k;
    Ok (set_classStats (<[cls := f cs]> (classStats s)) s)
  else Ok s.

Definition Store_Footprint (s : Store_t) : Z :=
  u64 (StoreHT_Footprint (ht_power s) (ht_count s) + keyBytes s + entryBytes s).

(** [StoreHT_Insert] of a new version set, which allocates when the table grows. *)
Definition StoreHT_Insert (s : Store_t) (k : key) : res Store_t :=
  match lines s !! k with
  | Some _ => Fault PanicCall
  | None =>
    let s := set_ht_count (ht_count s + 1) (set_lines (<[k := []]> (lines s)) s) in
    if hashsize (ht_power s) * 3 <? ht_count s * 4
    then need s;; Ok (set_ht_power (ht_power s + 1) s)
    else Ok s
  end.

(** [Store_AssertSize] walks the hash table and the version sets.  The iterator
    of an empty table reads the bucket past the end; the iterator of a version set
    that is not empty is allocated. *)
Definition Store_AssertSize (s : Store_t) : res unit :=
  if bool_decide (lines s = ∅) then Fault OutOfBounds
  else
    let vsets := map_to_list (lines s) in
    let kb := fold_left (fun n v => u64 (n + MALLOC_SIZE (Z.of_nat (length v.1)))) vsets 0 in
    (if bool_decide (concat (map snd vsets) = []) then Ok tt else need s);;
    es ← mapM (fun e => deref (heap s !! e)) (concat (map snd vsets));
    let eb := fold_left (fun n e => u64 (n + entry_footprint e)) es 0 in
    Assert (kb =? keyBytes s);;
    Assert (eb =? entryBytes s).

Definition Store_TruncateUnboundedInterval (s : Store_t) (entry : Z) (now time : Z) :
    res Store_t :=
  Assert (negb (entry =? 0));;
  e ← deref (heap s !! entry);
  Assert (stillValid (interval e));;
  let i := set_stillValid false (interval e) in
  let i := if upper i <? now then set_upper now i else i in
  let s := set_heap (<[entry := set_timeInvalidated time (set_interval i e)]> (heap s)) s in
  let s := set_invTimeOrder (LIST_PushFront (invTimeOrder s) entry) s in
  p ← ep_invalidate (evictionPolicyState s) entry;
  let s := set_evictionPolicyState p s in
  Ok (set_invalMap (Store_UnregisterInvalTags (invalMap s) entry (invalTags e)) s).

(** The table of [Store_Init], from the list of registered policies. *)
Fixpoint BuildLookupTable (policies : list StoreLookupPolicy_t)
    (table : list (option StoreLookupPolicy_t)) : res (list (option StoreLookupPolicy_t)) :=
  match policies with
  | [] => Ok table
  | p :: policies =>
    match table !! Z.to_nat (lp_id p) with
    | None => Fault OutOfBounds
    | Some (Some _) => Fault PanicCall
    | Some None => BuildLookupTable policies (<[Z.to_nat (lp_id p) := Some p]> table)
    end
  end.

(** The policies the file registers before [main]. *)
Definition registered_policies : list StoreLookupPolicy_t :=
  [LookupPolicy_ScrewConsistency; LookupPolicy_Latest].

(** [room] is the answer of later allocations, [junk] what the memory of the eviction
    policy holds before it is used. *)
Definition Store_Init (maxBytes uselessBound : Z) (room : bool) (junk : Z) : res Store_t :=
  table ← BuildLookupTable registered_policies (replicate NUM_LOOKUP_POLICIES None);
  match table !! Z.to_nat LOOKUP_POLICY_LATEST with
  | Some (Some _) =>
    Ok (Store ∅ INITIAL_POWER 0 0 0 maxBytes PIN_NEG_INF [] [] PIN_NEG_INF table
          (ep_init junk) false uselessBound (LIST_Init (LIST 0 0 ∅)) zero_stats ∅ true ∅ room)
  | _ => Fault PanicCall
  end.

(** *** Lookup *)

Definition StoreVSetTree_Find (s : Store_t) (versions : list Z) (l : Z) (rel : RB_Relation) :
    option Z := tree_find (StoreVSet_CompareValue (heap s) l) rel versions.

Definition LatestAcceptable_Lookup (s : Store_t) (versions : list Z) (i : interval_t)
    (earliestPin : Z) : res LookupOutcome_t :=
  match StoreVSetTree_Find s versions (upper i) RB_LT with
  | None => Ok LOOKUP_STALENESS_MISS
  | Some entry =>
    e ← deref (heap s !! entry);
    o ← Interval_Overlaps (interval e) i (lastInvalTime s);
    Ok (if (o : bool) then LOOKUP_HIT entry
        else if earliestPin <=? upper (interval e) then LOOKUP_CONSISTENCY_MISS
        else LOOKUP_STALENESS_MISS)
  end.

Definition ScrewConsistency_Lookup (s : Store_t) (versions : list Z) (i : interval_t)
    (earliestPin : Z) : res LookupOutcome_t :=
  match StoreVSetTree_Find s versions (upper i) RB_LT with
  | None => Ok LOOKUP_STALENESS_MISS
  | Some entry =>
    e ← deref (heap s !! entry);
    Ok (if stillValid (interval e) || (earliestPin <=? upper (interval e))
        then LOOKUP_HIT entry else LOOKUP_STALENESS_MISS)
  end.

Definition policy_lookup (p : StoreLookupPolicy_t) : Store_t -> list Z -> interval_t -> Z ->
    res LookupOutcome_t :=
  match lp_lookup p with
  | LatestAcceptable => LatestAcceptable_Lookup
  | ScrewConsistency => ScrewConsistency_Lookup
  end.

Definition add_lookup (st : StoreClassStats_t) : StoreClassStats_t :=
  Stats (lookups st + 1) (hits st) (keyMisses st) (stalenessMisses st) (capacityMisses st)
    (consistencyMisses st) (extensions st) (potentialExtensions st) (entries st).
Definition add_hit (st : StoreClassStats_t) : StoreClassStats_t :=
  Stats (lookups st) (hits st + 1) (keyMisses st) (stalenessMisses st) (capacityMisses st)
    (consistencyMisses st) (extensions st) (potentialExtensions st) (entries st).
Definition add_keyMiss (st : StoreClassStats_t) : StoreClassStats_t :=
  Stats (lookups st) (hits st) (keyMisses st + 1) (stalenessMisses st) (capacityMisses st)
    (consistencyMisses st) (extensions st) (potentialExtensions st) (entries st).
Definition add_stalenessMiss (st : StoreClassStats_t) : StoreClassStats_t :=
  Stats (lookups st) (hits st) (keyMisses st) (stalenessMisses st + 1) (capacityMisses st)
    (consistencyMisses st) (extensions st) (potentialExtensions st) (entries st).
Definition add_capacityMiss (st : StoreClassStats_t) : StoreClassStats_t :=
  Stats (lookups st) (hits st) (keyMisses st) (stalenessMisses st) (capacityMisses st + 1)
    (consistencyMisses st) (extensions st) (potentialExtensions st) (entries st).
Definition add_consistencyMiss (st : StoreClassStats_t) : StoreClassStats_t :=
  Stats (lookups st) (hits st) (keyMisses st) (stalenessMisses st) (capacityMisses st)
    (consistencyMisses st + 1) (extensions st) (potentialExtensions st) (entries st).
Definition add_extension (st : StoreClassStats_t) : StoreClassStats_t :=
  Stats (lookups st) (hits st) (keyMisses st) (stalenessMisses st) (capacityMisses st)
    (consistencyMisses st) (extensions st + 1) (potentialExtensions st) (entries st).
Definition add_potentialExtension (st : StoreClassStats_t) : StoreClassStats_t :=
  Stats (lookups st) (hits st) (keyMisses st) (stalenessMisses st) (capacityMisses st)
    (consistencyMisses st) (extensions st) (potentialExtensions st + 1) (entries st).
Definition add_entries (n : Z) (st : StoreClassStats_t) : StoreClassStats_t :=
  Stats (lookups st) (hits st) (keyMisses st) (stalenessMisses st) (capacityMisses st)
    (consistencyMisses st) (extensions st) (potentialExtensions st) (entries st + n).

(** Returns the address of the entry found. *)
Definition Store_Lookup (s : Store_t) (k : key) (i : interval_t) (earliestPin : Z)
    (lookupPolicyId : Z) : res (Store_t * option Z) :=
  s ← MODSTAT s k add_lookup;
  match lines s !! k with
  | None => s ← MODSTAT s k add_keyMiss; Ok (s, None)
  | Some versions =>
    if lookupPolicyId <? 0 then Fault OutOfBounds
    else
      match lookupPolicyTable s !! Z.to_nat lookupPolicyId with
      | None => Fault OutOfBounds
      | Some None => Ok (s, None)
      | Some (Some policy) =>
        outcome ← policy_lookup policy s versions i earliestPin;
        match outcome with
        | LOOKUP_HIT entry =>
          p ← ep_hit (evictionPolicyState s) entry;
          let s := set_evictionPolicyState p s in
          s ← MODSTAT s k add_hit;
          e ← deref (heap s !! entry);
          let s := set_heap (<[entry := set_hitCount (s32 (hitCount e + 1)) e]> (heap s)) s in
          Ok (s, Some entry)
        | LOOKUP_STALENESS_MISS => s ← MODSTAT s k add_stalenessMiss; Ok (s, None)
        | LOOKUP_CAPACITY_MISS => s ← MODSTAT s k add_capacityMiss; Ok (s, None)
        | LOOKUP_CONSISTENCY_MISS => s ← MODSTAT s k add_consistencyMiss; Ok (s, None)
        end
      end
  end.

(** *** Removal and eviction *)

(** [StoreVSetTree_Remove] with [StoreVSet_ReleaseValue] on the node found. *)
Definition StoreVSetTree_Remove (s : Store_t) (k : key) (l : Z) : res Store_t :=
  versions ← deref (lines s !! k);
  let cmp := StoreVSet_CompareValue (heap s) l in
  match tree_find cmp RB_EQ versions with
  | None => Ok s
  | Some f =>
    Assert (negb (ep_linked (evictionPolicyState s) f));;
    Ok (set_heap (delete f (heap s)) (set_lines (<[k := tree_remove cmp versions]> (lines s)) s))
  end.

(** Returns the footprint of the removed entry. *)
Definition Store_RemoveEntry (s : Store_t) (entry : Z) : res (Store_t * Z) :=
  e ← deref (heap s !! entry);
  let entryFootprint := entry_footprint e in
  Assert (entryFootprint <=? entryBytes s);;
  let s := set_entryBytes (entryBytes s - entryFootprint) s in
  s ← MODSTAT s (vset e) (add_entries (-1));
  let s := set_invalMap (Store_UnregisterInvalTags (invalMap s) entry (invalTags e)) s in
  s ← (if negb (stillValid (interval e)) then
         l ← LIST_Unlink (invTimeOrder s) entry; Ok (set_invTimeOrder l s)
       else
         Assert (negb (linked (link (links (invTimeOrder s)) entry)));; Ok s);
  p ← ep_remove (evictionPolicyState s) entry;
  let s := set_evictionPolicyState p s in
  s ← StoreVSetTree_Remove s (vset e) (lower (interval e));
  Ok (s, entryFootprint).

Fixpoint EvictLoop (fuel : nat) (s : Store_t) (toFree freed : Z) : res (Store_t * bool) :=
  match fuel with
  | O => Fault NoFuel
  | S fuel =>
    if freed <? toFree then
      match ep_evict (evictionPolicyState s) (toFree - freed) with
      | None =>
        Store_PrintStats s (room s) (classes s);;
        Ok (s, false)
      | Some oldest =>
        '(s, entryFootprint) ← Store_RemoveEntry s oldest;
        if entryFootprint =? 0 then Fault PanicCall
        else EvictLoop fuel s toFree (u64 (freed + entryFootprint))
      end
    else
      Store_AssertSize s;;
      Ok (s, true)
  end.

(** One turn per entry of the store is enough, and one to stop.  An eviction that
    finds nothing left prints the statistics; whether that fails does not depend on
    the order in which the classes are visited ([Stats.PrintStats_order]). *)
Definition Store_Evict (s : Store_t) (toFree : Z) : res (Store_t * bool) :=
  let s := set_hasEvicted true s in
  EvictLoop (S (S (size (heap s)))) s toFree 0.

Definition Store_Flush (s : Store_t) : res Store_t :=
  '(s, _) ← Store_Evict s (entryBytes s);
  Ok s.

Fixpoint UselessLoop (fuel : nat) (s : Store_t) (removeOlderThan : Z) : res Store_t :=
  match fuel with
  | O => Fault NoFuel
  | S fuel =>
    let t := tail (invTimeOrder s) in
    if t =? 0 then Ok s
    else
      e ← deref (heap s !! t);
      if timeInvalidated e <? removeOlderThan then
        '(s, _) ← Store_RemoveEntry s t;
        UselessLoop fuel s removeOlderThan
      else Ok s
  end.

Definition Store_RemoveUseless (s : Store_t) (time : Z) : res Store_t :=
  UselessLoop (S (size (heap s))) s (time - uselessBound s).

(** *** Invalidation *)

(** [do { hadNext = Next(iter); } while (hadNext && Value(iter)->entry == entry)],
    from the iterator's position [cur]. *)
Fixpoint SkipEntry (fuel : nat) (m : list StoreInvalMapEntry_t) (cur : StoreInvalMapEntry_t)
    (entry : Z) : res (option StoreInvalMapEntry_t) :=
  match fuel with
  | O => Fault NoFuel
  | S fuel =>
    match tree_next cur m with
    | None => Ok None
    | Some n => if me_entry n =? entry then SkipEntry fuel m n entry else Ok (Some n)
    end
  end.

(** Whether a registered tag [t] is hit by an invalidation of [tg]. *)
Definition tag_matches (descendants : bool) (tg t : tag) : bool :=
  if descendants then strncmp t tg (length tg) =? 0 else strcmp t tg =? 0.

Fixpoint InvalidateLoop (fuel : nat) (s : Store_t) (mapEntry : StoreInvalMapEntry_t)
    (tg : tag) (descendants : bool) (time : Z) : res Store_t :=
  match fuel with
  | O => Fault NoFuel
  | S fuel =>
    nxt ← SkipEntry (S (length (invalMap s))) (invalMap s) mapEntry (me_entry mapEntry);
    if negb (tag_matches descendants tg (me_tag mapEntry)) then Ok s
    else
      s ← Store_TruncateUnboundedInterval s (me_entry mapEntry) (lastInvalTime s) time;
      match nxt with
      | None => Ok s
      | Some n => InvalidateLoop fuel s n tg descendants time
      end
  end.

(** The iterator, the copy of the tag and the node of the buffer are allocated. *)
Definition Store_InvalidateTag (s : Store_t) (tg : tag) (descendants : bool) (time : Z) :
    res Store_t :=
  match tree_find (StoreInvalTree_CompareValue (InvalMapEntry tg 0)) RB_GE (invalMap s) with
  | None => Ok s
  | Some iter =>
    need s;;
    s ← InvalidateLoop (S (length (invalMap s))) s iter tg descendants time;
    need s;;
    let ent := InvalBufferEntry (lastInvalTime s) time tg descendants in
    match tree_insert (StoreInvalBuffer_CompareValue (be_pin ent) (Some tg)) ent
            (invalBuffer s) with
    | None => Ok s
    | Some b => need s;; Ok (set_invalBuffer b s)
    end
  end.

(** [pre] is the part of the tag before [ptr], [rest] the part from [ptr] on;
    the walk leaves the buffer when the tag does not end in a colon. *)
Fixpoint InvalidateWalk (s : Store_t) (pre rest : tag) (time : Z) : res Store_t :=
  match rest with
  | [] => Fault OutOfBounds
  | c :: rest =>
    if c =? COLON then
      match rest with
      | [] => Store_InvalidateTag s (pre ++ [c]) true time
      | _ =>
        s ← Store_InvalidateTag s (pre ++ [c]) false time;
        InvalidateWalk s (pre ++ [c]) rest time
      end
    else InvalidateWalk s (pre ++ [c]) rest time
  end.

Definition Store_InvalidateTagAndAncestorsDescendants (s : Store_t) (tg : tag) (time : Z) :
    res Store_t := InvalidateWalk s [] tg time.

(** Every turn allocates an iterator. *)
Fixpoint ExpireLoop (fuel : nat) (s : Store_t) (curTime : Z) : res Store_t :=
  match fuel with
  | O => Fault NoFuel
  | S fuel =>
    match invalBuffer s with
    | [] => Ok s
    | ent :: _ =>
      need s;;
      if curTime <? be_time ent + INVAL_BUFFER_TIME then Ok s
      else
        let s := set_bufferValidFrom (be_pin ent) s in
        ExpireLoop fuel
          (set_invalBuffer
             (tree_remove (StoreInvalBuffer_CompareValue (be_pin ent) (Some (be_tag ent)))
                (invalBuffer s)) s) curTime
    end
  end.

Definition Store_ExpireBuffer (s : Store_t) (curTime : Z) : res Store_t :=
  ExpireLoop (S (length (invalBuffer s))) s curTime.

Fixpoint InvalidateTags (s : Store_t) (tags : list tag) (time : Z) : res Store_t :=
  match tags with
  | [] => Ok s
  | t :: tags =>
    s ← Store_InvalidateTagAndAncestorsDescendants s t time;
    InvalidateTags s tags time
  end.

Definition Store_Invalidate (s : Store_t) (ts : Z) (tags : list tag) (time : Z) : res Store_t :=
  Assert (negb (PIN_SPECIAL ts));;
  Assert (lastInvalTime s <? ts);;
  s ← InvalidateTags (set_lastInvalTime ts s) tags time;
  Store_ExpireBuffer s time.

(** *** Insertion *)

(** Whether a buffered invalidation hits one of the tags. *)
Definition buffer_matches (ent : StoreInvalBufferEntry_t) (tags : list tag) : bool :=
  existsb (fun t =>
    (negb (be_descendants ent) && (strcmp (be_tag ent) t =? 0)) ||
    (be_descendants ent && (strncmp (be_tag ent) t (length (be_tag ent)) =? 0))) tags.

(** The iteration from the position [GE] found to the end of the buffer. *)
Fixpoint BufferScan (i : interval_t) (tags : list tag) (rest : list StoreInvalBufferEntry_t) :
    interval_t :=
  match rest with
  | [] => i
  | ent :: rest =>
    if buffer_matches ent tags then set_upper (be_pin ent) (set_stillValid false i)
    else BufferScan i tags rest
  end.

Definition Store_TruncateIfAlreadyInvalidated (s : Store_t) (i : interval_t)
    (tags : list tag) : res interval_t :=
  Assert (stillValid i);;
  if lastInvalTime s <? upper i then Ok i
  else if upper i <=? bufferValidFrom s then Ok (set_stillValid false i)
  else
    match tree_from (StoreInvalBuffer_CompareValue (upper i) None) (invalBuffer s) with
    | [] => Ok i
    | rest => need s;; Ok (BufferScan i tags rest)
    end.

(** [existing] is NULL or an entry. *)
Definition Store_TryExtendInterval (s : Store_t) (existing : option Z) (i : interval_t)
    (k : key) (d : list Z) : res (Store_t * bool) :=
  match existing with
  | None => Ok (s, false)
  | Some ent =>
    e ← deref (heap s !! ent);
    o ← Interval_Overlaps (interval e) i (lastInvalTime s);
    if negb o then Ok (s, false)
    else
      let warning := negb (mem_eqb d (data e)) || (lower i <? lower (interval e)) in
      if warning then Ok (s, false)
      else if upper i <? upper (interval e) then Ok (s, true)
      else if upper (interval e) =? upper i then Ok (s, true)
      else
        let s := set_heap (<[ent := set_interval (set_upper (upper i) (interval e)) e]> (heap s)) s in
        s ← MODSTAT s k add_extension;
        p ← ep_put (evictionPolicyState s) ent true;
        Ok (set_evictionPolicyState p s, true)
  end.

(** The outcomes of the allocations of a put: the version set, the copy of the
    key, the copy of the tags, the tree node that holds the entry, the data. *)
Record allocs : Type := Allocs {
  al_vset : bool;
  al_key : bool;
  al_tags : bool;
  al_node : option Z;
  al_data : bool
}.

(** [RB_Insert] without memory for the node returns without updating the root: only
    an empty tree and one that has the key already are sure to be left as they were
    ([RBProps.RB_Insert_loses_root]). *)
Definition Store_Add (s : Store_t) (k : key) (i : interval_t) (d : list Z) (tags : list tag)
    (al : allocs) (time : Z) : res (Store_t * bool) :=
  let tagsLen := Store_CopyInvalTagsLen tags in
  let curFootprint := Store_Footprint s in
  let entryFootprint := Store_EntryFootprint (Z.of_nat (length d)) tagsLen in
  '(s, ok) ← (if maxBytes s <? u64 (curFootprint + entryFootprint)
              then Store_Evict s (u64 (entryFootprint - u64 (maxBytes s - curFootprint)))
              else Ok (s, true));
  if negb ok then Ok (s, false)
  else
    versions ← deref (lines s !! k);
    match al_node al with
    | None =>
      match versions, tree_find (StoreVSet_CompareValue (heap s) (lower i)) RB_EQ versions with
      | [], _ | _, Some _ => Ok (s, false)
      | _, None => Fault OutOfMemory
      end
    | Some entry =>
      match tree_insert (StoreVSet_CompareValue (heap s) (lower i)) entry versions with
      | None => Ok (s, false)
      | Some versions =>
        let s := set_heap (<[entry := StoreVSet_InitValue (lower i)]> (heap s))
                   (set_lines (<[k := versions]> (lines s)) s) in
        if negb (al_data al) then
          s ← StoreVSetTree_Remove s k (lower i);
          Ok (s, false)
        else if negb (bool_decide (tags = [])) && negb (al_tags al) then Fault NullDeref
        else
          let e := Entry i d k tags tagsLen 0 (if stillValid i then -1 else time) in
          let s := set_heap (<[entry := e]> (heap s)) s in
          '(s, _) ← Store_RegisterInvalTags s entry tags;
          let s := if stillValid i then s
                   else set_invTimeOrder (LIST_PushFront (invTimeOrder s) entry) s in
          let s := set_entryBytes (u64 (entryBytes s + entryFootprint)) s in
          s ← MODSTAT s k (add_entries 1);
          p ← ep_put (evictionPolicyState s) entry false;
          let s := set_evictionPolicyState p s in
          Store_AssertSize s;;
          Ok (s, true)
      end
    end.

(** The parts of [Store_Put] in order.  First, the version set of the key, created
    when the key is new; [None] when an allocation failed. *)
Definition Put_VSet (s : Store_t) (k : key) (al : allocs) : res (Store_t * option (list Z)) :=
  match lines s !! k with
  | Some versions => Ok (s, Some versions)
  | None =>
    if negb (al_vset al) then Ok (s, None)
    else if negb (al_key al) then Ok (s, None)
    else
      s ← StoreHT_Insert s k;
      Ok (set_keyBytes (u64 (keyBytes s + MALLOC_SIZE (Z.of_nat (length k)))) s, Some [])
  end.

(** With [force], the existing entry is blown away. *)
Definition Put_Force (s : Store_t) (entry : option Z) (force : bool) : res (Store_t * option Z) :=
  match entry with
  | Some ent =>
    if force then '(s, _) ← Store_RemoveEntry s ent; Ok (s, None) else Ok (s, entry)
  | None => Ok (s, entry)
  end.

(** The implicit invalidation of an existing entry. *)
Definition Put_Implicit (s : Store_t) (entry : option Z) (i : interval_t) (time : Z) : res Store_t :=
  match entry with
  | None => Ok s
  | Some ent =>
    e ← deref (heap s !! ent);
    if stillValid (interval e) && (lastInvalTime s <=? lower i)
    then Store_TruncateUnboundedInterval s ent (lastInvalTime s) time
    else Ok s
  end.

(** Making the new interval disjoint from the existing one, and adding it. *)
Definition Put_New (s : Store_t) (entry : option Z) (k : key) (i : interval_t) (d : list Z)
    (tags : list tag) (al : allocs) (time : Z) : res (Store_t * bool) :=
  match entry with
  | None => Store_Add s k i d tags al time
  | Some ent =>
    e ← deref (heap s !! ent);
    let u := upper (interval e) in
    if (lower i <? u) && (upper i <=? u) then Ok (s, false)
    else
      let i := if lower i <? u then set_lower u i else i in
      s ← (if mem_eqb d (data e) then MODSTAT s k add_potentialExtension else Ok s);
      Store_Add s k i d tags al time
  end.

Definition Store_Put (s : Store_t) (k : key) (i : interval_t) (d : list Z) (tags : list tag)
    (force : bool) (al : allocs) (time : Z) : res (Store_t * bool) :=
  if stillValid i && bool_decide (tags = []) then Ok (s, false)
  else
    i ← (if stillValid i then Store_TruncateIfAlreadyInvalidated s i tags else Ok i);
    let tags := if stillValid i then tags else [] in
    s ← Store_RemoveUseless s time;
    '(s, versions) ← Put_VSet s k al;
    match versions with
    | None => Ok (s, false)
    | Some versions =>
      let entry := StoreVSetTree_Find s versions (upper i) RB_LT in
      '(s, entry) ← Put_Force s entry force;
      s ← Put_Implicit s entry i time;
      '(s, done) ← Store_TryExtendInterval s entry i k d;
      if (done : bool) then Ok (s, true)
      else Put_New s entry k i d tags al time
    end.

Definition Store_EvictionOrderIterReset (s : Store_t) : Store_t :=
  set_evictionPolicyState (ep_iterReset (evictionPolicyState s)) s.

Definition Store_EvictionOrderIterNext (s : Store_t) : res (Store_t * option Z) :=
  '(p, e) ← ep_iterNext (evictionPolicyState s);
  Ok (set_evictionPolicyState p s, e).

End Ops.

#[global] Arguments MODSTAT : simpl never.
#[global] Arguments Store_AssertSize : simpl never.
#[global] Arguments Store_Footprint : simpl never.
#[global] Arguments Store_TruncateUnboundedInterval : simpl never.
#[global] Arguments Store_RemoveEntry : simpl never.
#[global] Arguments StoreVSetTree_Remove : simpl never.
#[global] Arguments Store_InvalidateTag : simpl never.
#[global] Arguments Store_Evict : simpl never.
#[global] Arguments Store_Add : simpl never.
#[global] Arguments Store_TryExtendInterval : simpl never.
#[global] Arguments Store_RemoveUseless : simpl never.
#[global] Arguments Store_TruncateIfAlreadyInvalidated : simpl never.
