(* ===== verification/StoreInv.v ===== *)
(** * The store's invariant

    Every index of the store agrees with the entries: the version sets, the tag
    index, the list of invalidated entries, the eviction policy and the byte
    counts.  This file states the invariant, the laws of the comparison
    functions, and that the operations on single entries (truncation, removal)
    and the loops over them keep it. *)

From S2P Require Import Prelude CLib Interval Truth Memory DblList OrdTree Eviction StoreData StatsText Store.

(** ** Orders *)

Definition me_lt (a b : StoreInvalMapEntry_t) : Prop :=
  strcmp (me_tag a) (me_tag b) < 0 \/ (me_tag a = me_tag b /\ me_entry a < me_entry b).

Definition be_lt (a b : StoreInvalBufferEntry_t) : Prop :=
  be_pin a < be_pin b \/ (be_pin a = be_pin b /\ strcmp (be_tag a) (be_tag b) < 0).

Definition lower_at (h : gmap Z entry_t) (e : Z) : Z :=
  match h !! e with Some ent => lower (interval ent) | None => 0 end.

Definition versions_sorted (h : gmap Z entry_t) (ids : list Z) : Prop :=
  StronglySorted (fun a b => lower_at h a < lower_at h b) ids.

(** ** The invariant *)

(** The sizes of an entry, far from the limits of [size_t]. *)
Definition entry_ok (e : entry_t) : Prop :=
  interval_ok (interval e) /\
  (stillValid (interval e) = true -> invalTags e <> []) /\
  Z.of_nat (length (data e)) < 2 ^ 61 /\ 0 <= invalTagsLen e < 2 ^ 61.

Definition key_ok (k : key) : Prop := exists cls, key_class k = Ok cls.

Definition key_size (k : key) (ids : list Z) : Z := MALLOC_SIZE (Z.of_nat (length k)).
Definition entry_size (id : Z) (e : entry_t) : Z := entry_footprint e.

Definition bytes_max : Z := 2 ^ 62.

Section Invariant.

Context {P : Type} `{!EvictionPolicy P} `{!EvictionPolicyLaws P}.

Notation Store_t := (Store_t P).

Record Inv (s : Store_t) : Prop := {
  inv_sorted k ids : lines s !! k = Some ids -> versions_sorted (heap s) ids;
  inv_lines k ids id : lines s !! k = Some ids ->
    id ∈ ids <-> exists e, heap s !! id = Some e /\ vset e = k;
  inv_vset id e : heap s !! id = Some e -> is_Some (lines s !! vset e);
  inv_entry id e : heap s !! id = Some e -> 0 < id /\ entry_ok e;
  inv_policy : ep_tracks (evictionPolicyState s) (dom (heap s));
  inv_order : exists l, is_list (invTimeOrder s) l /\
    forall id, id ∈ l <-> exists e, heap s !! id = Some e /\ stillValid (interval e) = false;
  inv_map_sorted : StronglySorted me_lt (invalMap s);
  inv_map t id : InvalMapEntry t id ∈ invalMap s <->
    exists e, heap s !! id = Some e /\ stillValid (interval e) = true /\ t ∈ invalTags e;
  inv_buffer_sorted : StronglySorted be_lt (invalBuffer s);
  inv_buffer b : b ∈ invalBuffer s -> bufferValidFrom s <= be_pin b <= lastInvalTime s;
  inv_time : PIN_NEG_INF <= bufferValidFrom s <= lastInvalTime s /\ lastInvalTime s < PIN_INF;
  inv_keyBytes : keyBytes s = msum key_size (lines s);
  inv_entryBytes : entryBytes s = msum entry_size (heap s);
  inv_bytes : keyBytes s < bytes_max /\ entryBytes s < bytes_max;
  inv_key k : is_Some (lines s !! k) -> key_ok k;
  inv_count : ht_count s = Z.of_nat (size (lines s));
  inv_room : room s = true
}.

(** What no operation on entries changes. *)
Definition same_config (s s' : Store_t) : Prop :=
  maxBytes s' = maxBytes s /\ lastInvalTime s' = lastInvalTime s /\
  uselessBound s' = uselessBound s /\ lookupPolicyTable s' = lookupPolicyTable s /\
  collectStats s' = collectStats s.

Definition same_table (s s' : Store_t) : Prop :=
  ht_power s' = ht_power s /\ ht_count s' = ht_count s /\ keyBytes s' = keyBytes s.

Definition same_buffer (s s' : Store_t) : Prop :=
  invalBuffer s' = invalBuffer s /\ bufferValidFrom s' = bufferValidFrom s.

#[global] Instance same_config_preorder : PreOrder same_config.
Proof. unfold same_config. split; red; intuition congruence. Qed.
#[global] Instance same_table_preorder : PreOrder same_table.
Proof. unfold same_table. split; red; intuition congruence. Qed.
#[global] Instance same_buffer_preorder : PreOrder same_buffer.
Proof. unfold same_buffer. split; red; intuition congruence. Qed.

End Invariant.

(** ** Laws of the orders *)

Lemma me_lt_trans a b c : me_lt a b -> me_lt b c -> me_lt a c.
Proof.
  unfold me_lt. intros [H1|[H1 H1']] [H2|[H2 H2']].
  - left. by apply (strcmp_lt_trans _ (me_tag b)).
  - left. by rewrite <- H2.
  - left. by rewrite H1.
  - right. split; [congruence|lia].
Qed.

Lemma me_lt_irrefl a : ~ me_lt a a.
Proof. unfold me_lt. rewrite strcmp_refl. lia. Qed.

Lemma be_lt_trans a b c : be_lt a b -> be_lt b c -> be_lt a c.
Proof.
  unfold be_lt. intros [H1|[H1 H1']] [H2|[H2 H2']]; [lia..|].
  right. split; [congruence|]. by apply (strcmp_lt_trans _ (be_tag b)).
Qed.

(** The comparison function decides the order. *)
Lemma InvalTree_Compare_lt k v : StoreInvalTree_CompareValue k v < 0 <-> me_lt v k.
Proof.
  unfold StoreInvalTree_CompareValue, me_lt. pose proof (strcmp_eq (me_tag v) (me_tag k)).
  destruct (Z.eqb_spec (strcmp (me_tag v) (me_tag k)) 0) as [E|E]; cbn; [|naive_solver lia].
  destruct (Z.ltb_spec (me_entry v) (me_entry k)); [naive_solver lia|].
  destruct (Z.eqb_spec (me_entry v) (me_entry k)); naive_solver lia.
Qed.

Lemma InvalTree_Compare_eq k v : StoreInvalTree_CompareValue k v = 0 <-> v = k.
Proof.
  unfold StoreInvalTree_CompareValue. pose proof (strcmp_eq (me_tag v) (me_tag k)) as Hs.
  destruct v as [vt ve], k as [kt ke]; cbn in *.
  destruct (Z.eqb_spec (strcmp vt kt) 0) as [E|E]; cbn; [|naive_solver].
  apply Hs in E as ->. destruct (Z.ltb_spec ve ke); [naive_solver lia|].
  destruct (Z.eqb_spec ve ke); naive_solver lia.
Qed.

Lemma InvalTree_Compare_gt k v : 0 < StoreInvalTree_CompareValue k v <-> me_lt k v.
Proof.
  pose proof (InvalTree_Compare_lt k v). pose proof (InvalTree_Compare_eq k v) as He.
  split.
  - intros Hg. unfold StoreInvalTree_CompareValue, me_lt in *.
    pose proof (strcmp_antisym (me_tag v) (me_tag k)). pose proof (strcmp_eq (me_tag v) (me_tag k)).
    destruct (Z.eqb_spec (strcmp (me_tag v) (me_tag k)) 0) as [E|E]; cbn in *; [|lia].
    destruct (Z.ltb_spec (me_entry v) (me_entry k)); [lia|].
    destruct (Z.eqb_spec (me_entry v) (me_entry k)); [lia|]. right. split; [naive_solver|lia].
  - intros Hk. destruct (Z.lt_trichotomy (StoreInvalTree_CompareValue k v) 0) as [Hc|[Hc|Hc]]; [..|done].
    + apply H in Hc. destruct (me_lt_irrefl k). by apply (me_lt_trans _ v).
    + apply He in Hc. subst. by apply me_lt_irrefl in Hk.
Qed.

Lemma InvalTree_monotone k : monotone me_lt (StoreInvalTree_CompareValue k).
Proof.
  intros v w Hvw Hv. apply InvalTree_Compare_gt.
  destruct (decide (StoreInvalTree_CompareValue k v = 0)) as [E|E].
  - apply InvalTree_Compare_eq in E. by subst.
  - apply (me_lt_trans _ v); [|done]. apply InvalTree_Compare_gt. lia.
Qed.

Lemma InvalBuffer_Compare_lt p t v :
  StoreInvalBuffer_CompareValue p (Some t) v < 0 <->
  be_pin v < p \/ (be_pin v = p /\ strcmp (be_tag v) t < 0).
Proof.
  unfold StoreInvalBuffer_CompareValue.
  destruct (Z.ltb_spec (be_pin v) p); [lia|]. destruct (Z.ltb_spec p (be_pin v)); lia.
Qed.

Lemma InvalBuffer_Compare_gt p t v :
  0 < StoreInvalBuffer_CompareValue p (Some t) v <->
  p < be_pin v \/ (p = be_pin v /\ strcmp t (be_tag v) < 0).
Proof.
  unfold StoreInvalBuffer_CompareValue. pose proof (strcmp_antisym (be_tag v) t).
  destruct (Z.ltb_spec (be_pin v) p); [lia|]. destruct (Z.ltb_spec p (be_pin v)); lia.
Qed.

Lemma InvalBuffer_Compare_eq p t v :
  StoreInvalBuffer_CompareValue p (Some t) v = 0 <-> be_pin v = p /\ be_tag v = t.
Proof.
  unfold StoreInvalBuffer_CompareValue. pose proof (strcmp_eq (be_tag v) t).
  destruct (Z.ltb_spec (be_pin v) p); [lia|]. destruct (Z.ltb_spec p (be_pin v)); [lia|].
  naive_solver lia.
Qed.

Lemma VSet_Compare h l id e :
  h !! id = Some e ->
  (StoreVSet_CompareValue h l id < 0 <-> lower_at h id < l) /\
  (StoreVSet_CompareValue h l id = 0 <-> lower_at h id = l) /\
  (0 < StoreVSet_CompareValue h l id <-> l < lower_at h id).
Proof.
  intros Hh. unfold StoreVSet_CompareValue, lower_at. rewrite Hh.
  destruct (Z.ltb_spec (lower (interval e)) l); [lia|].
  destruct (Z.eqb_spec (lower (interval e)) l); lia.
Qed.

(** ** Sorted sequences *)

Lemma sorted_nodup {A} (R : A -> A -> Prop) l :
  (forall x, ~ R x x) -> StronglySorted R l -> NoDup l.
Proof.
  intros Hi. induction 1 as [|x l Hs IH Hx]; constructor; [|done].
  rewrite Forall_forall in Hx. intros Hin. by apply (Hi x), Hx.
Qed.

Lemma sorted_ext {A} (R R' : A -> A -> Prop) l :
  (forall x y, x ∈ l -> y ∈ l -> R x y -> R' x y) -> StronglySorted R l -> StronglySorted R' l.
Proof.
  intros Hr. induction 1 as [|x l Hs IH Hx]; constructor.
  - apply IH. intros y z Hy Hz. apply Hr; by right.
  - rewrite Forall_forall in Hx |- *. intros y Hy. apply Hr; [by left|by right|auto].
Qed.

Lemma versions_nodup h ids : versions_sorted h ids -> NoDup ids.
Proof. intros. eapply sorted_nodup; [|eassumption]. intros x. cbn. lia. Qed.

(** ** The tag index *)

Lemma InvalTree_remove k m :
  StronglySorted me_lt m ->
  tree_remove (StoreInvalTree_CompareValue k) m = filter (fun x => x <> k) m.
Proof.
  intros Hs. rewrite (tree_remove_filter me_lt).
  - apply list_filter_iff. intros x. by rewrite InvalTree_Compare_eq.
  - intros x y Hxy ->%InvalTree_Compare_eq ->%InvalTree_Compare_eq. by apply me_lt_irrefl in Hxy.
  - done.
Qed.

Lemma Unregister_ok m id tags :
  StronglySorted me_lt m ->
  StronglySorted me_lt (Store_UnregisterInvalTags m id tags) /\
  forall x, x ∈ Store_UnregisterInvalTags m id tags <->
    x ∈ m /\ ~ (me_entry x = id /\ me_tag x ∈ tags).
Proof.
  revert m. induction tags as [|t tags IH]; intros m Hs; cbn.
  - split; [done|]. intros x. rewrite elem_of_nil. tauto.
  - rewrite InvalTree_remove by done.
    destruct (IH (filter (fun x => x <> InvalMapEntry t id) m)) as [Hs' Hin].
    { by apply StronglySorted_filter. }
    split; [done|]. intros x. rewrite Hin, list_elem_of_filter, elem_of_cons.
    destruct x as [xt xe]; cbn. naive_solver.
Qed.

Lemma Unregister_filter m id tags :
  StronglySorted me_lt m ->
  Store_UnregisterInvalTags m id tags =
  filter (fun x => ~ (me_entry x = id /\ me_tag x ∈ tags)) m.
Proof.
  revert m. induction tags as [|t tags IH]; intros m Hs; cbn.
  - symmetry. apply filter_id. intros x _. rewrite elem_of_nil. tauto.
  - rewrite InvalTree_remove, IH by (done || by apply StronglySorted_filter).
    rewrite list_filter_filter. apply list_filter_iff. intros [xt xe]. cbn.
    rewrite elem_of_cons. naive_solver.
Qed.

Lemma InvalTree_insert k m :
  StronglySorted me_lt m -> k ∉ m ->
  exists m', tree_insert (StoreInvalTree_CompareValue k) k m = Some m' /\
    StronglySorted me_lt m' /\ m' ≡ₚ k :: m.
Proof.
  intros Hs Hk. apply (tree_insert_ok me_lt).
  - done.
  - intros w _. apply InvalTree_Compare_lt.
  - intros w _. apply InvalTree_Compare_gt.
  - apply me_lt_trans.
  - rewrite Forall_forall. intros w Hw ->%InvalTree_Compare_eq. done.
Qed.

Lemma need_ok {P} (s : Store_t P) : room s = true -> need s = Ok tt.
Proof. intros E. unfold need. by rewrite E. Qed.

Lemma Register_ok {P} (s : Store_t P) id tags :
  room s = true -> StronglySorted me_lt (invalMap s) -> NoDup tags ->
  (forall x, x ∈ invalMap s -> me_entry x <> id) ->
  exists m', Store_RegisterInvalTags s id tags = Ok (set_invalMap m' s, true) /\ StronglySorted me_lt m' /\
    forall x, x ∈ m' <-> x ∈ invalMap s \/ (me_entry x = id /\ me_tag x ∈ tags).
Proof.
  intros Hr Hs Hd Hm.
  assert (Hm' : forall t, t ∈ tags -> InvalMapEntry t id ∉ invalMap s).
  { intros t _ Hin. by apply (Hm _ Hin). }
  clear Hm. revert s Hr Hs Hm'. induction Hd as [|t tags Ht Hd IH]; intros s Hr Hs Hm; cbn [Store_RegisterInvalTags].
  - exists (invalMap s). split_and!; try done; [by destruct s|]. intros x. rewrite elem_of_nil. tauto.
  - destruct (InvalTree_insert (InvalMapEntry t id) (invalMap s) Hs) as (m1 & -> & Hs1 & Hp).
    { apply Hm. by left. }
    rewrite need_ok, bind_ret_l by done.
    destruct (IH (set_invalMap m1 s)) as (m' & -> & Hs' & Hin); [done|done| |].
    { intros t' Ht'. cbn. rewrite Hp, not_elem_of_cons. split; [congruence|]. apply Hm. by right. }
    cbn [invalMap set_invalMap] in Hin.
    exists m'. split_and!; try done. intros x. rewrite Hin, Hp, !elem_of_cons.
    destruct x as [xt xe]; cbn. naive_solver.
Qed.

(** ** Sizes *)

Lemma EntryFootprint_pos d t :
  0 <= d < 2 ^ 61 -> 0 <= t < 2 ^ 61 ->
  Store_EntryFootprint d t =
    MALLOC_SIZE StoreVSetTree_ElemSize + MALLOC_SIZE d + MALLOC_SIZE t /\
  0 < Store_EntryFootprint d t < bytes_max + 2 ^ 10.
Proof.
  intros Hd Ht. unfold Store_EntryFootprint, bytes_max.
  pose proof (MALLOC_SIZE_pos d ltac:(lia)). pose proof (MALLOC_SIZE_pos t ltac:(lia)).
  pose proof (MALLOC_SIZE_pos StoreVSetTree_ElemSize ltac:(unfold StoreVSetTree_ElemSize; lia)).
  unfold StoreVSetTree_ElemSize in *. rewrite u64_small by lia. lia.
Qed.

Lemma entry_footprint_pos e : entry_ok e -> 0 < entry_footprint e < bytes_max + 2 ^ 10.
Proof. intros (_&_&Hd&Ht). apply EntryFootprint_pos; lia. Qed.

(** ** Statistics *)

(** [s'] is [s] with other statistics. *)
Definition stats_only {P} (s s' : Store_t P) : Prop :=
  exists t c, s' = set_classStats c (set_totalStats t s).

Lemma MODSTAT_ok {P} (s : Store_t P) k f :
  room s = true -> key_ok k -> exists s', MODSTAT s k f = Ok s' /\ stats_only s s'.
Proof.
  intros Hr [cls Hk]. unfold MODSTAT, Store_GetClassStats. destruct (collectStats s).
  - rewrite Hk, bind_ret_l. cbn [classStats set_totalStats]. destruct (classStats s !! cls) as [cs|].
    2: rewrite need_ok by done. all: cbn; eexists; split; [done|]; by eexists _, _.
  - exists s. split; [done|]. exists (totalStats s), (classStats s). by destruct s.
Qed.

(** ** The heap *)

Lemma lower_at_insert h id e x :
  lower_at (<[id := e]> h) x = if decide (x = id) then lower (interval e) else lower_at h x.
Proof.
  unfold lower_at. case_decide; [subst; by rewrite lookup_insert_eq|].
  by rewrite lookup_insert_ne by done.
Qed.

Lemma versions_sorted_ext h h' ids :
  (forall id, id ∈ ids -> lower_at h' id = lower_at h id) ->
  versions_sorted h ids -> versions_sorted h' ids.
Proof. intros Hl. apply sorted_ext. intros x y Hx Hy. by rewrite !Hl. Qed.

Section Preservation.

Context {P : Type} `{!EvictionPolicy P} `{!EvictionPolicyLaws P}.

Notation Store_t := (Store_t P).

Lemma Inv_stats (s s' : Store_t) : stats_only s s' -> Inv s -> Inv s'.
Proof. intros (t & c & ->) [? ? ? ? ? ? ? ? ? ? ? ? ? ? ? ? ?]. split; cbn; assumption. Qed.

Lemma Inv_policy (s : Store_t) p :
  Inv s -> ep_tracks p (dom (heap s)) -> Inv (set_evictionPolicyState p s).
Proof. intros [? ? ? ? ? ? ? ? ? ? ? ? ? ? ? ? ?] Hp. split; cbn; assumption. Qed.

Lemma Inv_hasEvicted (s : Store_t) b : Inv s -> Inv (set_hasEvicted b s).
Proof. intros [? ? ? ? ? ? ? ? ? ? ? ? ? ? ? ? ?]. split; cbn; assumption. Qed.

(** Updating an entry without moving it in any index. *)
Lemma Inv_update (s : Store_t) id e e' :
  Inv s -> heap s !! id = Some e ->
  vset e' = vset e -> lower (interval e') = lower (interval e) ->
  stillValid (interval e') = stillValid (interval e) ->
  invalTags e' = invalTags e -> entry_footprint e' = entry_footprint e -> entry_ok e' ->
  Inv (set_heap (<[id := e']> (heap s)) s).
Proof.
  intros HI Hid Hv Hl Hs Ht Hf Hok. destruct HI as [I1 I2 I3 I4 I5 I6 I7 I8 I9 I10 I11 I12 I13 I14 I15 I16 I17].
  assert (LA : forall x, lower_at (<[id := e']> (heap s)) x = lower_at (heap s) x).
  { intros x. rewrite lower_at_insert. case_decide; [|done]. subst. unfold lower_at.
    by rewrite Hid. }
  assert (EX : forall (Q : entry_t -> Prop), (Q e' <-> Q e) -> forall x,
    (exists y, <[id := e']> (heap s) !! x = Some y /\ Q y) <->
    (exists y, heap s !! x = Some y /\ Q y)).
  { intros Q HQ x. destruct (decide (x = id)) as [->|Hne].
    - rewrite lookup_insert_eq, Hid. naive_solver.
    - by rewrite lookup_insert_ne. }
  split; cbn; try done.
  - intros k ids Hk. apply (versions_sorted_ext (heap s)); [auto|by apply (I1 k)].
  - intros k ids x Hk. rewrite (I2 k ids x Hk). symmetry. apply EX. by rewrite Hv.
  - intros x y [[<- <-]|[_ Hx]]%lookup_insert_Some; [rewrite Hv|]; by eapply I3.
  - intros x y [[<- <-]|[_ Hx]]%lookup_insert_Some; [|by eapply I4].
    split; [by eapply I4|done].
  - by rewrite dom_insert_lookup_L.
  - destruct I6 as (l & Hl1 & Hl2). exists l. split; [done|]. intros x. rewrite Hl2.
    symmetry. apply EX. by rewrite Hs.
  - intros t x. rewrite I8. symmetry. apply EX. by rewrite Hs, Ht.
  - rewrite I13. symmetry. by apply (msum_update _ _ _ e).
Qed.

(** The entry after its interval is closed at [now]. *)
Definition truncate_entry (now time : Z) (e : entry_t) : entry_t :=
  set_timeInvalidated time
    (set_interval (Interval (lower (interval e)) (Z.max (upper (interval e)) now) false) e).

Lemma entry_ok_truncate now time e :
  entry_ok e -> now <= PIN_INF -> entry_ok (truncate_entry now time e).
Proof.
  intros (Hi & Ht & Hd & Hl) Hn. unfold entry_ok, interval_ok in *. cbn.
  split_and!; try done; lia.
Qed.

Lemma truncate_entry_eq now time e :
  set_timeInvalidated time (set_interval
    (if upper (interval e) <? now
     then set_upper now (set_stillValid false (interval e))
     else set_stillValid false (interval e)) e) = truncate_entry now time e.
Proof.
  unfold truncate_entry. do 2 f_equal. unfold set_upper, set_stillValid; cbn.
  destruct (Z.ltb_spec (upper (interval e)) now); f_equal; lia.
Qed.

(** Closing a still-valid entry: it moves from the tag index to the list of
    invalidated entries. *)
Lemma Inv_truncate (s : Store_t) id e time m p l :
  Inv s -> heap s !! id = Some e -> stillValid (interval e) = true ->
  ep_tracks p (dom (heap s)) ->
  m = filter (fun x => me_entry x <> id) (invalMap s) ->
  l = LIST_PushFront (invTimeOrder s) id ->
  Inv (set_invalMap m (set_evictionPolicyState p (set_invTimeOrder l
    (set_heap (<[id := truncate_entry (lastInvalTime s) time e]> (heap s)) s)))).
Proof.
  intros [I1 I2 I3 I4 I5 I6 I7 I8 I9 I10 I11 I12 I13 I14 I15 I16 I17] Hid Hs Hp -> ->.
  destruct (I4 id e Hid) as [H0 Hok]. set (e' := truncate_entry (lastInvalTime s) time e).
  split; cbn; try done.
  - intros k ids Hk. apply (versions_sorted_ext (heap s)); [|by apply (I1 k)].
    intros x _. rewrite lower_at_insert. case_decide; [|done]. subst. unfold lower_at.
    by rewrite Hid.
  - intros k ids x Hk. rewrite (I2 k ids x Hk). destruct (decide (x = id)) as [->|Hne].
    + rewrite lookup_insert_eq, Hid. split; intros (y & [= <-] & <-); eauto.
    + by rewrite lookup_insert_ne.
  - intros x y [[<- <-]|[_ Hx]]%lookup_insert_Some; [|by eapply I3].
    by apply (I3 id e).
  - intros x y [[<- <-]|[_ Hx]]%lookup_insert_Some; [|by eapply I4].
    split; [done|]. apply entry_ok_truncate; [done|lia].
  - by rewrite dom_insert_lookup_L.
  - destruct I6 as (l & Hl1 & Hl2). exists (id :: l). split.
    { apply PushFront_ok; [done| |lia]. rewrite Hl2. intros (? & ? & ?). congruence. }
    intros x. rewrite elem_of_cons, Hl2. destruct (decide (x = id)) as [->|Hne].
    + rewrite lookup_insert_eq. split; [|by left]. intros _. by exists e'.
    + rewrite lookup_insert_ne by done. naive_solver.
  - by apply StronglySorted_filter.
  - intros t x. rewrite list_elem_of_filter, I8. cbn.
    destruct (decide (x = id)) as [->|Hne].
    + rewrite lookup_insert_eq. split; [tauto|]. by intros (y & [= <-] & ? & ?).
    + rewrite lookup_insert_ne by done. tauto.
  - rewrite I13. symmetry. by apply (msum_update _ _ _ e).
Qed.

Lemma Truncate_ok (s : Store_t) id e time :
  Inv s -> heap s !! id = Some e -> stillValid (interval e) = true ->
  exists m p l, let s' := set_invalMap m (set_evictionPolicyState p (set_invTimeOrder l
      (set_heap (<[id := truncate_entry (lastInvalTime s) time e]> (heap s)) s))) in
    Store_TruncateUnboundedInterval s id (lastInvalTime s) time = Ok s' /\ Inv s' /\
    m = filter (fun x => me_entry x <> id) (invalMap s).
Proof.
  intros HI Hid Hs. destruct (inv_entry s HI id e Hid) as [H0 _].
  unfold Store_TruncateUnboundedInterval.
  rewrite (proj2 (Z.eqb_neq id 0)) by lia. cbn [negb Assert mbind res_bind].
  rewrite Hid. cbn [deref mbind res_bind]. rewrite Hs. cbn [Assert mbind res_bind].
  cbn [evictionPolicyState set_invTimeOrder set_heap upper set_stillValid].
  destruct (ep_invalidate_tracks _ _ id (inv_policy s HI)) as (p & Hp & Tp);
    [by eapply elem_of_dom_2|].
  rewrite Hp, truncate_entry_eq. cbn [mbind res_bind].
  assert (Em : Store_UnregisterInvalTags (invalMap s) id (invalTags e) =
    filter (fun x => me_entry x <> id) (invalMap s)).
  { rewrite Unregister_filter by apply HI. apply filter_ext_in. intros [xt xe] Hx.
    apply (inv_map s HI) in Hx as (e0 & He0 & _ & Ht). cbn. split; [|tauto].
    intros Hn ->. apply Hn. split; [done|]. congruence. }
  eexists _, p, _. cbn. split_and!; [done| |done].
  apply Inv_truncate; try done.
Qed.

(** *** Removal *)

Lemma versions_inj h ids a b :
  versions_sorted h ids -> a ∈ ids -> b ∈ ids -> lower_at h a = lower_at h b -> a = b.
Proof.
  induction 1 as [|x l Hs IH Hx]; [by intros ?%elem_of_nil|].
  rewrite Forall_forall in Hx.
  intros [->|Ha]%elem_of_cons [->|Hb]%elem_of_cons; auto; intros E.
  - specialize (Hx b Hb). cbn in Hx. lia.
  - specialize (Hx a Ha). cbn in Hx. lia.
Qed.

Lemma VSet_find h ids id l :
  versions_sorted h ids -> (forall x, x ∈ ids -> is_Some (h !! x)) ->
  id ∈ ids -> lower_at h id = l ->
  tree_find (StoreVSet_CompareValue h l) RB_EQ ids = Some id /\
  tree_remove (StoreVSet_CompareValue h l) ids = filter (fun x => x <> id) ids.
Proof.
  intros Hs Hh Hid Hl.
  assert (HC : forall x, x ∈ ids -> StoreVSet_CompareValue h l x = 0 <-> x = id).
  { intros x Hx. destruct (Hh x Hx) as [e He].
    rewrite (proj1 (proj2 (VSet_Compare h l x e He))). split; [|congruence].
    intros E. apply (versions_inj h ids); congruence. }
  split.
  - cbn. destruct (find_first _ ids) as [f|] eqn:F.
    + apply find_first_Some in F as (l1 & l2 & -> & Hf & _). bools. f_equal.
      apply HC; [|done]. apply elem_of_app. right. by left.
    + rewrite find_first_None, Forall_forall in F. specialize (F id Hid). cbn in F.
      bools. exfalso. apply F. by apply HC.
  - clear Hid Hl. induction Hs as [|x l' Hs IH Hx]; [done|]. cbn [tree_remove].
    assert (Hxx : StoreVSet_CompareValue h l x = 0 <-> x = id) by (apply HC; by left).
    rewrite Forall_forall in Hx.
    destruct (Z.eqb_spec (StoreVSet_CompareValue h l x) 0) as [E|E].
    + apply Hxx in E. subst. rewrite filter_cons_False by tauto. symmetry. apply filter_id.
      intros y Hy ->. specialize (Hx id Hy). cbn in Hx. lia.
    + rewrite filter_cons_True by (by rewrite <- Hxx). f_equal. apply IH.
      * intros y Hy. apply Hh. by right.
      * intros y Hy. apply HC. by right.
Qed.

Lemma Inv_ids (s : Store_t) k ids x : Inv s -> lines s !! k = Some ids -> x ∈ ids -> is_Some (heap s !! x).
Proof. intros HI Hk Hx. apply (inv_lines s HI k ids x Hk) in Hx as (e & He & _). eauto. Qed.

Lemma Inv_remove (s : Store_t) id e ids m p d :
  Inv s -> heap s !! id = Some e -> lines s !! vset e = Some ids ->
  ep_tracks p (dom (heap s) ∖ {[id]}) ->
  m = filter (fun x => me_entry x <> id) (invalMap s) ->
  (exists l, is_list d l /\
    forall x, x ∈ l <-> x <> id /\ exists e, heap s !! x = Some e /\ stillValid (interval e) = false) ->
  Inv (set_heap (delete id (heap s)) (set_lines (<[vset e := filter (fun x => x <> id) ids]> (lines s))
    (set_evictionPolicyState p (set_invTimeOrder d (set_invalMap m
      (set_entryBytes (entryBytes s - entry_footprint e) s)))))).
Proof.
  intros [I1 I2 I3 I4 I5 I6 I7 I8 I9 I10 I11 I12 I13 I14 I15 I16 I17] Hid Hk Hp -> (l & Hl1 & Hl2).
  assert (LA : forall x, x <> id -> lower_at (delete id (heap s)) x = lower_at (heap s) x).
  { intros x Hx. unfold lower_at. by rewrite lookup_delete_ne. }
  split; cbn; try done.
  - intros k ids' [[<- <-]|[Hne Hk']]%lookup_insert_Some.
    + apply (versions_sorted_ext (heap s)).
      * intros x [Hx _]%list_elem_of_filter. by apply LA.
      * apply StronglySorted_filter. by apply (I1 _ _ Hk).
    + apply (versions_sorted_ext (heap s)); [|by apply (I1 k)].
      intros x Hx. apply LA. intros ->. apply (I2 _ _ _ Hk') in Hx as (e0 & ? & ?). congruence.
  - intros k ids' x [[<- <-]|[Hne Hk']]%lookup_insert_Some.
    + rewrite list_elem_of_filter, (I2 _ _ x Hk).
      destruct (decide (x = id)) as [->|Hx].
      * rewrite lookup_delete_eq. naive_solver.
      * rewrite lookup_delete_ne by done. naive_solver.
    + rewrite (I2 _ _ x Hk'). destruct (decide (x = id)) as [->|Hx].
      * rewrite lookup_delete_eq. split; [|naive_solver]. intros (? & ? & ?). congruence.
      * by rewrite lookup_delete_ne.
  - intros x y [Hx Hy]%lookup_delete_Some. apply lookup_insert_is_Some'. right. by eapply I3.
  - intros x y [Hx Hy]%lookup_delete_Some. by eapply I4.
  - by rewrite dom_delete_L.
  - exists l. split; [done|]. intros x. rewrite Hl2. destruct (decide (x = id)) as [->|Hx].
    + rewrite lookup_delete_eq. naive_solver.
    + rewrite lookup_delete_ne by done. naive_solver.
  - by apply StronglySorted_filter.
  - intros t x. rewrite list_elem_of_filter, I8. cbn. destruct (decide (x = id)) as [->|Hx].
    + rewrite lookup_delete_eq. naive_solver.
    + rewrite lookup_delete_ne by done. tauto.
  - rewrite I12. symmetry. by apply (msum_update _ _ _ ids).
  - rewrite I13, (msum_delete _ _ _ _ Hid). unfold entry_size at 1. lia.
  - pose proof (entry_footprint_pos e (proj2 (I4 id e Hid))). lia.
  - intros k [ids' [[<- _]|[_ Hk']]%lookup_insert_Some]; eauto.
  - by rewrite I16, map_size_insert_Some.
Qed.

(** The outcome of removing entry [id]. *)
Definition removed (s s' : Store_t) (id : Z) (e : entry_t) : Prop :=
  Inv s' /\ heap s' = delete id (heap s) /\
  (exists ids, lines s !! vset e = Some ids /\
    lines s' = <[vset e := filter (fun x => x <> id) ids]> (lines s)) /\
  entryBytes s' = entryBytes s - entry_footprint e /\
  (forall l, is_list (invTimeOrder s) l ->
    is_list (invTimeOrder s') (filter (fun x => x <> id) l)) /\
  same_config s s' /\ same_table s s' /\ same_buffer s s'.

Lemma unregister_closed (s : Store_t) id e :
  Inv s -> heap s !! id = Some e ->
  Store_UnregisterInvalTags (invalMap s) id (invalTags e) =
  filter (fun x => me_entry x <> id) (invalMap s).
Proof.
  intros HI Hid. rewrite Unregister_filter by apply HI. apply filter_ext_in.
  intros [xt xe] Hx. apply (inv_map s HI) in Hx as (e0 & He0 & _ & Ht). cbn.
  split; [|tauto]. intros Hn ->. apply Hn. split; [done|]. congruence.
Qed.

(** Taking the entry off the list of invalidated entries, if it is there. *)
Lemma unlink_order (s s1 : Store_t) id e :
  Inv s -> heap s !! id = Some e -> invTimeOrder s1 = invTimeOrder s ->
  exists d, (if negb (stillValid (interval e)) then
               l ← LIST_Unlink (invTimeOrder s1) id; Ok (set_invTimeOrder l s1)
             else Assert (negb (linked (link (links (invTimeOrder s1)) id)));; Ok s1) =
            Ok (set_invTimeOrder d s1) /\
    forall l, is_list (invTimeOrder s) l -> is_list d (filter (fun x => x <> id) l).
Proof.
  intros HI Hid Es. rewrite Es. destruct (inv_order s HI) as (l & Hl1 & Hl2).
  assert (Hin : id ∈ l <-> stillValid (interval e) = false).
  { rewrite Hl2, Hid. split; [|eauto]. intros (? & [= <-] & ?). done. }
  destruct (stillValid (interval e)) eqn:S; cbn [negb].
  - assert (Hn : id ∉ l) by (rewrite Hin; done).
    rewrite (il_out _ _ Hl1 id Hn). cbn. exists (invTimeOrder s). split.
    + rewrite <- Es. by destruct s1.
    + intros l' Hl'. rewrite (is_list_unique _ _ _ Hl' Hl1), filter_out by done. done.
  - destruct (Unlink_ok _ _ id Hl1) as (d & -> & Hd); [by apply Hin|].
    exists d. split; [done|]. intros l' Hl'. by rewrite (is_list_unique _ _ _ Hl' Hl1).
Qed.

Lemma entryBytes_le (s : Store_t) id e :
  Inv s -> heap s !! id = Some e -> entry_footprint e <= entryBytes s.
Proof.
  intros HI Hid. rewrite (inv_entryBytes s HI). apply (msum_le entry_size (heap s) id e); [|done].
  intros k a Ha. apply (inv_entry s HI) in Ha as [_ Ha]. unfold entry_size.
  pose proof (entry_footprint_pos a Ha). lia.
Qed.

Lemma RemoveEntry_ok (s : Store_t) id e :
  Inv s -> heap s !! id = Some e ->
  exists s', Store_RemoveEntry s id = Ok (s', entry_footprint e) /\ removed s s' id e.
Proof.
  intros HI Hid. unfold Store_RemoveEntry. rewrite Hid. cbn [deref mbind res_bind].
  rewrite (proj2 (Z.leb_le _ _) (entryBytes_le s id e HI Hid)). cbn [Assert mbind res_bind].
  destruct (inv_vset s HI id e Hid) as [ids Hids].
  destruct (MODSTAT_ok (set_entryBytes (entryBytes s - entry_footprint e) s) (vset e)
    (add_entries (-1))) as (s1 & -> & t & c & ->); [apply HI|by apply (inv_key s HI)|].
  cbn [mbind res_bind]. set (s1 := set_classStats c _).
  change (invalMap s1) with (invalMap s). rewrite (unregister_closed s id e HI Hid).
  set (s2 := set_invalMap _ s1).
  destruct (unlink_order s s2 id e HI Hid eq_refl) as (d & -> & Hd). cbn [mbind res_bind].
  cbn [evictionPolicyState set_invTimeOrder s2 s1 set_invalMap set_classStats set_totalStats set_entryBytes].
  destruct (ep_remove_tracks _ _ id (inv_policy s HI)) as (p & Hp & Tp);
    [by eapply elem_of_dom_2|].
  rewrite Hp. cbn [mbind res_bind].
  assert (Hin : id ∈ ids) by (apply (inv_lines s HI _ _ id Hids); eauto).
  destruct (VSet_find (heap s) ids id (lower (interval e))) as [F1 F2];
    [by apply (inv_sorted s HI (vset e))|intros; by eapply Inv_ids|done| |].
  { unfold lower_at. by rewrite Hid. }
  unfold StoreVSetTree_Remove. cbn. rewrite Hids. cbn [deref mbind res_bind]. cbn in F1.
  rewrite F1, F2.
  assert (Hlk : ep_linked p id = false).
  { apply not_true_is_false. rewrite (ep_linked_tracks _ _ id Tp). set_solver. }
  rewrite Hlk. cbn [negb Assert mbind res_bind].
  eexists; split; [done|].
  split; [|split_and!; try done; by exists ids].
  apply (Inv_stats (set_heap (delete id (heap s)) (set_lines (<[vset e := filter (fun x => x <> id) ids]> (lines s))
    (set_evictionPolicyState p (set_invTimeOrder d (set_invalMap (filter (fun x => me_entry x <> id) (invalMap s))
      (set_entryBytes (entryBytes s - entry_footprint e) s))))))).
  { by exists t, c. }
  apply Inv_remove; try done.
  destruct (inv_order s HI) as (l & Hl1 & Hl2). exists (filter (fun x => x <> id) l).
  split; [by apply Hd|]. intros x. by rewrite list_elem_of_filter, Hl2.
Qed.

(** *** Size checks *)

Definition size_at (h : gmap Z entry_t) (id : Z) : Z :=
  match h !! id with Some e => entry_footprint e | None => 0 end.

Lemma msum_size_at h : msum entry_size h = Zsum (map (size_at h) (map fst (map_to_list h))).
Proof.
  unfold msum. rewrite map_map. f_equal. apply map_ext_in. intros [id e] Hin.
  apply list_elem_of_In, elem_of_map_to_list in Hin. unfold size_at. cbn. by rewrite Hin.
Qed.

Lemma mapM_deref (h : gmap Z entry_t) ids :
  (forall x, x ∈ ids -> is_Some (h !! x)) ->
  exists es, mapM (fun x => deref (h !! x)) ids = Ok es /\
    map entry_footprint es = map (size_at h) ids /\ Forall (fun e => exists x, h !! x = Some e) es.
Proof.
  induction ids as [|x ids IH]; intros Hh; [by exists []|].
  destruct (Hh x ltac:(by left)) as [e He].
  destruct IH as (es & E & Em & Hf); [intros y Hy; apply Hh; by right|].
  exists (e :: es). cbn. rewrite He. cbn. rewrite E. cbn. unfold size_at at 1. rewrite He, Em.
  split_and!; [done|done|]. constructor; eauto.
Qed.

(** The version sets partition the entries. *)
Lemma versions_partition (s : Store_t) :
  Inv s -> concat (map snd (map_to_list (lines s))) ≡ₚ map fst (map_to_list (heap s)).
Proof.
  intros HI. apply NoDup_Permutation.
  - assert (Hl : forall L, NoDup (map fst L) ->
      (forall k ids, (k, ids) ∈ L -> lines s !! k = Some ids) -> NoDup (concat (map snd L))).
    { induction L as [|[k ids] L IH]; intros Hn HL; [constructor|]. cbn in *.
      apply NoDup_cons in Hn as [Hk Hn]. apply NoDup_app. split_and!.
      - apply (versions_nodup (heap s)). apply (inv_sorted s HI k), HL. by left.
      - intros x Hx. rewrite list_elem_of_In, in_concat. intros (ids' & Hin & Hx').
        apply in_map_iff in Hin as ([k' ids2] & <- & Hin). apply list_elem_of_In in Hin, Hx'.
        cbn in Hx'.
        apply (inv_lines s HI k ids x) in Hx as (e & He & <-); [|apply HL; by left].
        apply (inv_lines s HI k' ids2 x) in Hx' as (e' & He' & <-); [|apply HL; by right].
        apply Hk. apply list_elem_of_In, in_map_iff. exists (vset e', ids2).
        split; [cbn; congruence|by apply list_elem_of_In].
      - apply IH; [done|]. intros k' ids' Hin. apply HL. by right. }
    apply Hl; [apply NoDup_fst_map_to_list|]. intros k ids. apply elem_of_map_to_list.
  - apply NoDup_fst_map_to_list.
  - intros x. rewrite list_elem_of_In, in_concat, (list_elem_of_In (map fst _)), in_map_iff. split.
    + intros (ids & Hin & Hx). apply in_map_iff in Hin as ([k ids'] & <- & Hin).
      apply list_elem_of_In in Hx, Hin. apply elem_of_map_to_list in Hin.
      apply (inv_lines s HI k ids' x Hin) in Hx as (e & He & _).
      exists (x, e). split; [done|]. by apply list_elem_of_In, elem_of_map_to_list.
    + intros ([x' e] & <- & Hin). apply list_elem_of_In, elem_of_map_to_list in Hin. cbn.
      destruct (inv_vset s HI x' e Hin) as [ids Hids]. exists ids. split.
      * apply in_map_iff. exists (vset e, ids). split; [done|].
        by apply list_elem_of_In, elem_of_map_to_list.
      * apply list_elem_of_In, (inv_lines s HI _ _ x' Hids). eauto.
Qed.

Lemma AssertSize_ok (s : Store_t) : Inv s -> lines s <> ∅ -> Store_AssertSize s = Ok tt.
Proof.
  intros HI Hne. unfold Store_AssertSize. rewrite bool_decide_eq_false_2 by done. cbv zeta.
  assert (Hr : (if bool_decide (concat (map snd (map_to_list (lines s))) = []) then Ok tt else need s) = Ok tt).
  { case_bool_decide; [done|]. apply need_ok, HI. }
  rewrite Hr, bind_ret_l. clear Hr.
  destruct (mapM_deref (heap s) (concat (map snd (map_to_list (lines s)))))
    as (es & -> & Em & Hf).
  { intros x. rewrite (versions_partition s HI), list_elem_of_In, in_map_iff.
    intros ([x' e] & <- & Hin). apply list_elem_of_In, elem_of_map_to_list in Hin. eauto. }
  cbn [mbind res_bind].
  assert (Eb : Zsum (map entry_footprint es) = entryBytes s).
  { rewrite Em, (versions_partition s HI), <- msum_size_at. symmetry. apply HI. }
  assert (Kb : Zsum (map (fun v : key * list Z => MALLOC_SIZE (Z.of_nat (length v.1)))
    (map_to_list (lines s))) = keyBytes s) by (symmetry; apply HI).
  pose proof (inv_bytes s HI) as [B1 B2]. unfold bytes_max in *.
  unfold u64. rewrite !fold_left_mod; rewrite ?Kb, ?Eb; try lia.
  - cbn. by rewrite !Z.eqb_refl.
  - apply Forall_forall. intros v _. apply MALLOC_SIZE_nonneg.
  - eapply Forall_impl; [exact Hf|]. intros e (x & Hx). apply (inv_entry s HI) in Hx as [_ Hx].
    pose proof (entry_footprint_pos e Hx). lia.
Qed.

(** *** Eviction *)

Lemma removed_size (s s' : Store_t) id e :
  heap s !! id = Some e -> removed s s' id e -> size (heap s) = S (size (heap s')).
Proof.
  intros Hid (_ & -> & _). rewrite <- (insert_delete_id _ _ _ Hid) at 1.
  rewrite map_size_insert_None by apply lookup_delete_eq. done.
Qed.

Lemma removed_lines (s s' : Store_t) id e :
  heap s !! id = Some e -> removed s s' id e -> lines s' <> ∅ /\ dom (lines s') = dom (lines s).
Proof.
  intros Hid (_ & _ & (ids & Hk & ->) & _). split; [apply insert_non_empty|].
  by rewrite dom_insert_lookup_L.
Qed.

Lemma empty_bytes (s : Store_t) : Inv s -> heap s = ∅ -> entryBytes s = 0.
Proof. intros HI E. rewrite (inv_entryBytes s HI), E. apply msum_empty. Qed.

(** The statistics that a failed eviction prints, of a store that has the keys of [s]
    and no entry left, cannot be printed. *)
Definition unprinted (s s' : Store_t) (f : fault) : Prop :=
  Inv s' /\ heap s' = ∅ /\ dom (lines s') = dom (lines s) /\ same_config s s' /\ same_table s s' /\
  Store_PrintStats s' true (classes s') = Fault f.

Lemma unprinted_from (s s1 s' : Store_t) f :
  dom (lines s1) = dom (lines s) -> same_config s s1 -> same_table s s1 ->
  unprinted s1 s' f -> unprinted s s' f.
Proof.
  intros Hd C T (? & ? & ? & ? & ? & ?). split_and!; try done; [congruence|by etrans..].
Qed.

Lemma EvictLoop_ok fuel (s : Store_t) toFree freed :
  Inv s -> lines s <> ∅ -> (size (heap s) < fuel)%nat ->
  0 <= freed -> freed + entryBytes s < 2 ^ 63 ->
  (exists s' ok, EvictLoop fuel s toFree freed = Ok (s', ok) /\ Inv s' /\
    heap s' ⊆ heap s /\ dom (lines s') = dom (lines s) /\
    (ok = true -> toFree <= freed + (entryBytes s - entryBytes s')) /\
    (ok = false -> heap s' = ∅ /\ freed + entryBytes s < toFree) /\
    same_config s s' /\ same_table s s' /\ same_buffer s s') \/
  (exists s' f, EvictLoop fuel s toFree freed = Fault f /\ freed + entryBytes s < toFree /\ unprinted s s' f).
Proof.
  revert s freed. induction fuel as [|fuel IH]; intros s freed HI Hne Hf H0 Hb; [lia|].
  cbn [EvictLoop]. destruct (Z.ltb_spec freed toFree) as [Hlt|Hge].
  2:{ left. rewrite AssertSize_ok by done. exists s, true. split_and!; try done. lia. }
  pose proof (ep_evict_tracks _ _ (toFree - freed) (inv_policy s HI)) as He.
  destruct (ep_evict (evictionPolicyState s) (toFree - freed)) as [id|].
  - apply elem_of_dom in He as [e Hid].
    destruct (RemoveEntry_ok s id e HI Hid) as (s1 & -> & R). cbn [mbind res_bind].
    pose proof (removed_size s s1 id e Hid R) as Hsz.
    destruct (removed_lines s s1 id e Hid R) as [Hne1 Hd1].
    destruct R as (HI1 & Hh1 & _ & Hb1 & _ & C1 & T1 & B1).
    pose proof (entry_footprint_pos e (proj2 (inv_entry s HI id e Hid))) as Hp.
    pose proof (entryBytes_le s id e HI Hid).
    destruct (Z.eqb_spec (entry_footprint e) 0); [lia|]. rewrite u64_small by lia.
    destruct (IH s1 (freed + entry_footprint e))
      as [(s' & ok & E & HI' & Hh & Hd & Ht & Hf' & C & T & B)|(s' & f & E & Hlt' & Hu)];
      [done|done|lia|lia|lia| |].
    2:{ right. exists s', f. split_and!; [done|lia|]. by apply (unprinted_from s s1). }
    left. exists s', ok. split; [done|]. split; [done|]. split.
    { rewrite Hh1 in Hh. etrans; [exact Hh|apply delete_subseteq]. }
    split; [congruence|]. split; [intros Ho; specialize (Ht Ho); lia|].
    split; [intros Ho; destruct (Hf' Ho); split; [done|lia]|].
    split_and!; etrans; eassumption.
  - apply dom_empty_inv_L in He. pose proof (empty_bytes s HI He).
    rewrite (inv_room s HI). destruct (Store_PrintStats s true (classes s)) as [text|f] eqn:Ep.
    + left. exists s, false. split_and!; try done. intros _. split; [done|lia].
    + right. exists s, f. split_and!; try done. lia.
Qed.

Lemma Evict_ok (s : Store_t) toFree :
  Inv s -> lines s <> ∅ ->
  (exists s' ok, Store_Evict s toFree = Ok (s', ok) /\ Inv s' /\
    heap s' ⊆ heap s /\ dom (lines s') = dom (lines s) /\
    (ok = true -> toFree <= entryBytes s - entryBytes s') /\
    (ok = false -> heap s' = ∅ /\ entryBytes s < toFree) /\
    same_config s s' /\ same_table s s' /\ same_buffer s s') \/
  (exists s' f, Store_Evict s toFree = Fault f /\ entryBytes s < toFree /\ unprinted s s' f).
Proof.
  intros HI Hne. pose proof (inv_bytes s HI) as [_ Hb]. unfold bytes_max in Hb.
  destruct (EvictLoop_ok (S (S (size (heap s)))) (set_hasEvicted true s) toFree 0)
    as [(s' & ok & E & HI' & Hr)|(s' & f & E & Hlt & Hu)]; [by apply Inv_hasEvicted|done|cbn; lia|lia|cbn; lia| |].
  - left. exists s', ok. split; [exact E|]. split; [done|]. exact Hr.
  - right. exists s', f. split; [exact E|]. split; [exact Hlt|]. exact Hu.
Qed.

(** *** Useless entries *)

Lemma UselessLoop_ok fuel (s : Store_t) bound :
  Inv s -> (size (heap s) < fuel)%nat ->
  exists s', UselessLoop fuel s bound = Ok s' /\ Inv s' /\
    heap s' ⊆ heap s /\ dom (lines s') = dom (lines s) /\
    (forall id e, heap s !! id = Some e -> stillValid (interval e) = true \/
       bound <= timeInvalidated e -> heap s' !! id = Some e) /\
    (forall l, is_list (invTimeOrder s') l -> forall id, last l = Some id ->
       exists e, heap s' !! id = Some e /\ bound <= timeInvalidated e) /\
    same_config s s' /\ same_table s s' /\ same_buffer s s'.
Proof.
  revert s. induction fuel as [|fuel IH]; intros s HI Hf; [lia|]. cbn [UselessLoop].
  destruct (inv_order s HI) as (l & Hl1 & Hl2).
  destruct (Z.eqb_spec (tail (invTimeOrder s)) 0) as [E0|E0].
  { exists s. split_and!; try done.
    intros l' Hl'. apply (is_list_tail _ _ Hl') in E0 as ->. done. }
  pose proof (is_list_tail_in _ _ Hl1 E0) as Hin. apply Hl2 in Hin as (e & He & Hs).
  rewrite He. cbn [deref mbind res_bind].
  destruct (Z.ltb_spec (timeInvalidated e) bound) as [Hlt|Hge].
  - destruct (RemoveEntry_ok s _ e HI He) as (s1 & -> & R). cbn [mbind res_bind].
    pose proof (removed_size s s1 _ e He R) as Hsz.
    destruct (removed_lines s s1 _ e He R) as [_ Hd1].
    destruct R as (HI1 & Hh1 & _ & _ & _ & C1 & T1 & B1).
    destruct (IH s1) as (s' & E & HI' & Hh & Hd & Hk & Hl & C & T & B); [done|lia|].
    exists s'. split; [done|]. split; [done|]. split.
    { rewrite Hh1 in Hh. etrans; [exact Hh|apply delete_subseteq]. }
    split; [congruence|]. split.
    { intros id e' Hid Hor. apply Hk; [|done]. rewrite Hh1, lookup_delete_ne; [done|].
      intros <-. destruct Hor; [congruence|]. assert (e' = e) by congruence. subst. lia. }
    split; [exact Hl|]. split_and!; etrans; eassumption.
  - exists s. split_and!; try done. intros l' Hl' id Hlast.
    exists e. split; [|done]. rewrite (il_tail _ _ Hl') in He. unfold last_or in He.
    by rewrite Hlast in He.
Qed.

Lemma RemoveUseless_ok (s : Store_t) time :
  Inv s ->
  exists s', Store_RemoveUseless s time = Ok s' /\ Inv s' /\
    heap s' ⊆ heap s /\ dom (lines s') = dom (lines s) /\
    (forall id e, heap s !! id = Some e -> stillValid (interval e) = true \/
       time - uselessBound s <= timeInvalidated e -> heap s' !! id = Some e) /\
    (forall l, is_list (invTimeOrder s') l -> forall id, last l = Some id ->
       exists e, heap s' !! id = Some e /\ time - uselessBound s <= timeInvalidated e) /\
    same_config s s' /\ same_table s s' /\ same_buffer s s'.
Proof. intros HI. apply UselessLoop_ok; [done|lia]. Qed.

End Preservation.
