(* ===== verification/StoreInval.v ===== *)
(** * Invalidation

    What an invalidation message does to the store: exactly the still-valid
    entries with an affected tag are closed at the invalidation's timestamp,
    and nothing else changes but the tag index, the list of invalidated entries
    and the buffer of recent invalidations. *)

From S2P Require Import Prelude CLib Interval Truth Memory DblList OrdTree Eviction StoreData StatsText Store StoreInv.

(** ** Specification *)

(** Closing the still-valid entries that have a tag satisfying [f]. *)
Definition close_if (f : tag -> bool) (now time : Z) (e : entry_t) : entry_t :=
  if stillValid (interval e) && existsb f (invalTags e) then truncate_entry now time e else e.

(** The effect of a whole invalidation message on an entry. *)
Definition invalidated (tags : list tag) (now time : Z) : entry_t -> entry_t :=
  close_if (fun t => existsb (fun tg => affects tg t) tags) now time.

(** ** Tags *)

Lemma tag_matches_exact tg t : tag_matches false tg t = true <-> t = tg.
Proof. unfold tag_matches. rewrite Z.eqb_eq. apply strcmp_eq. Qed.

Lemma tag_matches_desc tg t : tag_matches true tg t = true <-> tg `prefix_of` t.
Proof. unfold tag_matches. rewrite Z.eqb_eq. apply strncmp_prefix. Qed.

Lemma tag_matches_ge d tg t : tag_matches d tg t = true -> 0 <= strcmp t tg.
Proof.
  destruct d; [rewrite tag_matches_desc|rewrite tag_matches_exact].
  - intros H%strcmp_prefix. lia.
  - intros ->. by rewrite strcmp_refl.
Qed.

(** Matching tags are contiguous in the order of the index. *)
Lemma tag_matches_convex d tg a b :
  0 <= strcmp a tg -> strcmp a b <= 0 -> tag_matches d tg b = true -> tag_matches d tg a = true.
Proof.
  intros H1 H2. destruct d; [rewrite !tag_matches_desc|rewrite !tag_matches_exact].
  - intros Hp. apply (strcmp_prefix_convex tg a b); [|done|done].
    rewrite strcmp_antisym. lia.
  - intros ->. apply strcmp_eq. lia.
Qed.

(** ** The walk over the index *)

Lemma SkipEntry_ok fuel m1 cur m2 id :
  NoDup (m1 ++ cur :: m2) -> (length m2 < fuel)%nat ->
  exists m21 m22, m2 = m21 ++ m22 /\ Forall (fun x => me_entry x = id) m21 /\
    SkipEntry fuel (m1 ++ cur :: m2) cur id = Ok (hd_error m22) /\
    (forall n, hd_error m22 = Some n -> me_entry n <> id).
Proof.
  revert m1 cur m2. induction fuel as [|fuel IH]; intros m1 cur m2 Hn Hf; [lia|].
  cbn [SkipEntry].
  assert (Hc : cur ∉ m1).
  { apply NoDup_app in Hn as (_ & Hn & _). intros Hin. apply (Hn cur Hin). by left. }
  rewrite tree_next_app by done. destruct m2 as [|n m2]; cbn [hd_error].
  { exists [], []. split_and!; done. }
  destruct (Z.eqb_spec (me_entry n) id) as [E|E].
  - destruct (IH (m1 ++ [cur]) n m2) as (m21 & m22 & -> & Hf' & E' & Hh).
    + by rewrite <- app_assoc.
    + cbn in Hf. lia.
    + exists (n :: m21), m22. rewrite <- app_assoc in E'. split_and!; try done. by constructor.
  - exists [], (n :: m2). split_and!; try done. by intros ? [= <-].
Qed.

Section Invalidation.

Context {P : Type} `{!EvictionPolicy P} `{!EvictionPolicyLaws P}.

Notation Store_t := (Store_t P).

Lemma close_if_hit f now time e :
  stillValid (interval e) = true -> existsb f (invalTags e) = true ->
  close_if f now time (truncate_entry now time e) = close_if f now time e.
Proof. intros H1 H2. unfold close_if at 2. rewrite H1, H2. done. Qed.

Lemma no_hits (s : Store_t) d tg now time :
  Inv s -> Forall (fun x => tag_matches d tg (me_tag x) = false) (invalMap s) ->
  close_if (tag_matches d tg) now time <$> heap s = heap s.
Proof.
  intros HI Hm. rewrite <- (map_fmap_id (heap s)) at 2. apply map_fmap_ext. intros id e He.
  unfold close_if. destruct (stillValid (interval e)) eqn:S; [|done]. cbn.
  destruct (existsb _ (invalTags e)) eqn:X; [|done]. exfalso.
  apply existsb_exists in X as (t & Ht & Hmt). apply list_elem_of_In in Ht.
  assert (Hin : InvalMapEntry t id ∈ invalMap s) by (apply (inv_map s HI); eauto).
  rewrite Forall_forall in Hm. specialize (Hm _ Hin). cbn in Hm. congruence.
Qed.

(** What the invalidation of tags leaves unchanged. *)
Definition inval_frame (s s' : Store_t) : Prop :=
  lines s' = lines s /\ entryBytes s' = entryBytes s /\ hasEvicted s' = hasEvicted s /\
  totalStats s' = totalStats s /\ classStats s' = classStats s /\
  same_config s s' /\ same_table s s'.

#[global] Instance inval_frame_preorder : PreOrder inval_frame.
Proof.
  unfold inval_frame. split; red; [intuition reflexivity|].
  intros x y z (?&?&?&?&?&?&?) (?&?&?&?&?&?&?). split_and!; try congruence; etrans; eassumption.
Qed.

Lemma InvalidateLoop_ok fuel (s : Store_t) m1 cur m2 tg d time :
  Inv s -> invalMap s = m1 ++ cur :: m2 ->
  Forall (fun x => tag_matches d tg (me_tag x) = false) m1 ->
  0 <= strcmp (me_tag cur) tg -> (length (cur :: m2) <= fuel)%nat ->
  exists s', InvalidateLoop fuel s cur tg d time = Ok s' /\ Inv s' /\
    heap s' = close_if (tag_matches d tg) (lastInvalTime s) time <$> heap s /\
    inval_frame s s' /\ same_buffer s s'.
Proof.
  revert s m1 cur m2. induction fuel as [|fuel IH]; intros s m1 cur m2 HI Em Hm1 Hge Hf; [cbn in Hf; lia|].
  cbn [InvalidateLoop].
  pose proof (inv_map_sorted s HI) as Hs. rewrite Em in Hs.
  destruct (SkipEntry_ok (S (length (invalMap s))) m1 cur m2 (me_entry cur))
    as (m21 & m22 & E2 & Hm21 & Hskip & Hnext).
  { apply (sorted_nodup me_lt); [apply me_lt_irrefl|done]. }
  { rewrite Em, length_app. cbn. lia. }
  rewrite <- Em in Hskip. rewrite Hskip. cbn [mbind res_bind].
  assert (Hcur : cur ∈ invalMap s) by (rewrite Em; apply elem_of_app; right; by left).
  destruct (tag_matches d tg (me_tag cur)) eqn:Mc; cbn [negb].
  - destruct cur as [ct cid]. cbn [me_entry me_tag] in *.
    apply (inv_map s HI) in Hcur as (e & He & Se & Te).
    destruct (Truncate_ok s cid e time HI He Se) as (m & p & l & E1 & HI1 & Fm).
    rewrite E1. cbn [mbind res_bind]. set (s1 := set_invalMap m _) in *.
    assert (Hhit : existsb (tag_matches d tg) (invalTags e) = true).
    { apply existsb_exists. exists ct. split; [by apply list_elem_of_In|done]. }
    assert (Hh : close_if (tag_matches d tg) (lastInvalTime s) time <$> heap s1 =
                 close_if (tag_matches d tg) (lastInvalTime s) time <$> heap s).
    { subst s1. cbn. rewrite fmap_insert, close_if_hit by done.
      rewrite <- fmap_insert, insert_id by done. done. }
    assert (Em1 : invalMap s1 = filter (fun x => me_entry x <> cid) m1 ++
                                filter (fun x => me_entry x <> cid) m22).
    { subst s1. cbn. rewrite Fm, Em, E2, filter_app, filter_cons_False by naive_solver.
      rewrite filter_app. f_equal. rewrite (filter_none _ m21); [done|].
      eapply Forall_impl; [exact Hm21|]. naive_solver. }
    assert (Hm1' : Forall (fun x => tag_matches d tg (me_tag x) = false)
              (filter (fun x => me_entry x <> cid) m1)).
    { rewrite Forall_forall in Hm1 |- *. intros x [_ Hx]%list_elem_of_filter. auto. }
    destruct m22 as [|n m22]; cbn [hd_error].
    + exists s1. split; [done|]. split; [done|]. split.
      { rewrite <- Hh. rewrite (no_hits s1 d tg (lastInvalTime s) time HI1); [done|].
        rewrite Em1. by rewrite app_nil_r. }
      split; [|done]. unfold inval_frame. split_and!; done.
    + rewrite filter_cons_True in Em1 by (by apply Hnext).
      destruct (IH s1 _ n _ HI1 Em1 Hm1') as (s' & E' & HI' & Hh' & F' & B').
      { rewrite E2 in Hs. apply StronglySorted_app_1_r in Hs.
        apply StronglySorted_inv in Hs as [_ Hs]. rewrite Forall_forall in Hs.
        assert (Hlt : me_lt (InvalMapEntry ct cid) n).
        { apply Hs. apply elem_of_app. right. by left. }
        pose proof (strcmp_antisym (me_tag n) tg).
        unfold me_lt in Hlt. cbn in Hlt.
        destruct (decide (strcmp (me_tag n) tg < 0)) as [Hn|]; [exfalso|lia].
        destruct Hlt as [Hlt|[Heq _]]; [|rewrite <- Heq in Hn; lia].
        pose proof (strcmp_lt_trans _ _ _ Hlt Hn). lia. }
      { cbn [length] in *. rewrite E2, length_app in Hf. cbn [length] in Hf.
        pose proof (length_filter (fun x => me_entry x <> cid) m22). lia. }
      exists s'. split; [done|]. split; [done|].
      split; [by rewrite Hh'|]. split; [|by etrans].
      etrans; [|exact F']. unfold inval_frame. split_and!; done.
  - exists s. split; [done|]. split; [done|]. split; [|done]. symmetry. apply no_hits; [done|].
    rewrite Em. apply Forall_app. split; [done|]. constructor; [done|].
    apply StronglySorted_app_1_r in Hs. apply StronglySorted_inv in Hs as [_ Hs].
    rewrite Forall_forall in Hs |- *. intros x Hx. specialize (Hs x Hx).
    destruct (tag_matches d tg (me_tag x)) eqn:Mx; [|done]. exfalso.
    rewrite (tag_matches_convex d tg (me_tag cur) (me_tag x)) in Mc; [done|done| |done].
    destruct Hs as [Hs|[-> _]]; [lia|]. by rewrite strcmp_refl.
Qed.

Lemma GE_search (s : Store_t) tg d l1 :
  Inv s -> (forall x, x ∈ l1 -> x ∈ invalMap s) ->
  Forall (fun w => StoreInvalTree_CompareValue (InvalMapEntry tg 0) w < 0) l1 ->
  Forall (fun x => tag_matches d tg (me_tag x) = false) l1.
Proof.
  intros HI Hl. rewrite !Forall_forall. intros Hc [xt xe] Hx. cbn.
  specialize (Hc _ Hx). apply InvalTree_Compare_lt in Hc. unfold me_lt in Hc. cbn in Hc.
  apply Hl, (inv_map s HI) in Hx as (e & He & _).
  apply (inv_entry s HI) in He as [Hpos _].
  destruct (tag_matches d tg xt) eqn:M; [|done]. apply tag_matches_ge in M. lia.
Qed.

(** The buffer after adding [b]: unchanged when an invalidation of the same tag
    at the same time is there already. *)
Definition buffer_added (b : StoreInvalBufferEntry_t) (l l' : list StoreInvalBufferEntry_t) : Prop :=
  let same w := be_pin w = be_pin b /\ be_tag w = be_tag b in
  (l' = l /\ exists w, w ∈ l /\ same w) \/ (l' ≡ₚ b :: l /\ forall w, w ∈ l -> ~ same w).

Lemma buffer_insert b l :
  StronglySorted be_lt l ->
  exists l', match tree_insert (StoreInvalBuffer_CompareValue (be_pin b) (Some (be_tag b))) b l with
             | None => l | Some l' => l' end = l' /\
    StronglySorted be_lt l' /\ buffer_added b l l'.
Proof.
  intros Hs.
  destruct (decide (Exists (fun w => StoreInvalBuffer_CompareValue (be_pin b) (Some (be_tag b)) w = 0) l))
    as [Hd|Hd].
  - apply Exists_exists in Hd as (w & Hw & E). exists l.
    rewrite (tree_insert_dup be_lt _ _ _ w); try done.
    + split_and!; try done. left. split; [done|]. exists w. split; [done|].
      by apply InvalBuffer_Compare_eq.
    + intros x y _ _ Hxy Hx. apply InvalBuffer_Compare_gt.
      pose proof (InvalBuffer_Compare_eq (be_pin b) (be_tag b) x).
      pose proof (InvalBuffer_Compare_gt (be_pin b) (be_tag b) x).
      assert (be_lt b y) as Hby; [|unfold be_lt in Hby; lia].
      destruct (decide (StoreInvalBuffer_CompareValue (be_pin b) (Some (be_tag b)) x = 0)) as [E0|E0].
      * apply H in E0 as [E1 E2]. unfold be_lt in *. rewrite <- E1, <- E2. done.
      * apply (be_lt_trans _ x); [|done]. unfold be_lt. lia.
  - apply not_Exists_Forall in Hd; [|apply _].
    destruct (tree_insert_ok be_lt (StoreInvalBuffer_CompareValue (be_pin b) (Some (be_tag b))) b l)
      as (l' & -> & Hs' & Hp); try done.
    + intros w _ Hw. by apply InvalBuffer_Compare_lt.
    + intros w _ Hw. apply InvalBuffer_Compare_gt in Hw. unfold be_lt. lia.
    + apply be_lt_trans.
    + exists l'. split_and!; try done. right. split; [done|]. rewrite Forall_forall in Hd. intros w Hw Hs2.
      apply (Hd w Hw). by apply InvalBuffer_Compare_eq.
Qed.

Lemma Inv_buffer (s : Store_t) l :
  Inv s -> StronglySorted be_lt l ->
  (forall b, b ∈ l -> bufferValidFrom s <= be_pin b <= lastInvalTime s) ->
  Inv (set_invalBuffer l s).
Proof. intros [? ? ? ? ? ? ? ? ? ? ? ? ? ? ? ? ?] Hl Hb. split; cbn; assumption. Qed.

Lemma InvalidateTag_ok (s : Store_t) tg d time :
  Inv s ->
  exists s', Store_InvalidateTag s tg d time = Ok s' /\ Inv s' /\
    heap s' = close_if (tag_matches d tg) (lastInvalTime s) time <$> heap s /\ inval_frame s s' /\
    bufferValidFrom s' = bufferValidFrom s /\
    ((invalBuffer s' = invalBuffer s /\ Forall (fun m => strcmp (me_tag m) tg < 0) (invalMap s)) \/
     buffer_added (InvalBufferEntry (lastInvalTime s) time tg d) (invalBuffer s) (invalBuffer s')).
Proof.
  intros HI. unfold Store_InvalidateTag.
  destruct (tree_find _ RB_GE (invalMap s)) as [cur|] eqn:F.
  - apply tree_find_GE_Some in F as (m1 & m2 & Em & Hge & Hm1).
    rewrite need_ok, bind_ret_l by apply HI.
    destruct (InvalidateLoop_ok (S (length (invalMap s))) s m1 cur m2 tg d time)
      as (s1 & -> & HI1 & Hh1 & F1 & B1 & V1); [done|done| | | |].
    + apply (GE_search s); [done| |done]. intros x Hx. rewrite Em. apply elem_of_app. by left.
    + unfold StoreInvalTree_CompareValue in Hge. cbn in Hge.
      destruct (Z.eqb_spec (strcmp (me_tag cur) tg) 0); cbn in Hge; lia.
    + rewrite Em, length_app. cbn. lia.
    + cbn [mbind res_bind]. rewrite need_ok, bind_ret_l by apply HI1.
      destruct F1 as (?&?&?&?&?&C1&?). pose proof C1 as (_&Et&_).
      rewrite Et. set (b := InvalBufferEntry (lastInvalTime s) time tg d).
      destruct (buffer_insert b (invalBuffer s1) (inv_buffer_sorted s1 HI1)) as (l' & E & Hs' & Ha).
      assert (HIb : Inv (set_invalBuffer l' s1)).
      { apply Inv_buffer; [done|done|]. pose proof (inv_time s1 HI1).
        intros w Hw. destruct Ha as [[-> _]|[Hp _]]; [by apply (inv_buffer s1 HI1)|].
        rewrite Hp in Hw. apply elem_of_cons in Hw as [->|Hw]; [|by apply (inv_buffer s1 HI1)].
        cbn. rewrite Et in *. lia. }
      rewrite B1 in Ha. unfold be_pin, be_tag, b in E. cbn [be_pin] in E.
      assert (Er : match tree_insert (StoreInvalBuffer_CompareValue (be_pin b) (Some tg)) b (invalBuffer s1) with
        | Some b0 => Ok tt;; Ok (set_invalBuffer b0 s1) | None => Ok s1 end = Ok (set_invalBuffer l' s1)).
      { unfold b in *. cbn [be_pin] in *.
        destruct (tree_insert _ _ (invalBuffer s1)); subst l'; [done|]. by destruct s1. }
      exists (set_invalBuffer l' s1). split; [exact Er|]. split; [done|].
      split; [done|]. split; [by split_and!|]. split; [done|]. by right.
  - apply tree_find_GE_None in F. exists s. split; [done|]. split; [done|]. split.
    { symmetry. apply no_hits; [done|]. by apply (GE_search s). }
    split; [done|]. split; [done|]. left. split; [done|]. rewrite Forall_forall in F |- *. intros [xt xe] Hx.
    specialize (F _ Hx). apply InvalTree_Compare_lt in F. unfold me_lt in F. cbn in *.
    apply (inv_map s HI) in Hx as (e & He & _). apply (inv_entry s HI) in He as [Hpos _]. lia.
Qed.

(** *** The components of a tag *)

Fixpoint walk_affects (pre rest t : tag) : bool :=
  match rest with
  | [] => false
  | c :: rest =>
    if c =? COLON then
      match rest with
      | [] => tag_matches true (pre ++ [c]) t
      | _ => tag_matches false (pre ++ [c]) t || walk_affects (pre ++ [c]) rest t
      end
    else walk_affects (pre ++ [c]) rest t
  end.

Lemma walk_affects_iff pre rest t :
  last rest = Some COLON ->
  walk_affects pre rest t = true <->
  pre ++ rest `prefix_of` t \/
  exists q, q `prefix_of` rest /\ last q = Some COLON /\ t = pre ++ q.
Proof.
  revert pre. induction rest as [|c rest IH]; intros pre Hlast; [done|]. cbn [walk_affects].
  assert (Hq : forall q, q `prefix_of` c :: rest -> last q = Some COLON ->
    (c = COLON /\ q = [c]) \/ exists q', q = c :: q' /\ q' `prefix_of` rest /\ last q' = Some COLON).
  { intros [|x q] Hp Hl; [done|]. apply prefix_cons_inv_1 in Hp as Hx. subst x.
    apply prefix_cons_inv_2 in Hp. destruct q as [|y q]; cbn in Hl.
    - left. naive_solver.
    - right. by exists (y :: q). }
  destruct rest as [|c' rest].
  - cbn in Hlast. injection Hlast as ->. rewrite Z.eqb_refl, tag_matches_desc.
    split; [by left|]. intros [|(q & Hp & Hl & ->)]; [done|].
    destruct (Hq q Hp Hl) as [[_ ->]|(q' & -> & ->%prefix_nil_inv & ?)]; done.
  - assert (Hl' : last (c' :: rest) = Some COLON) by done.
    specialize (IH (pre ++ [c]) Hl').
    assert (E : walk_affects (pre ++ [c]) (c' :: rest) t = true <->
      pre ++ c :: c' :: rest `prefix_of` t \/
      exists q, q `prefix_of` c' :: rest /\ last q = Some COLON /\ t = pre ++ c :: q).
    { rewrite IH, <- app_assoc. cbn. by setoid_rewrite <- app_assoc. }
    destruct (Z.eqb_spec c COLON) as [->|Hc].
    + rewrite orb_true_iff, tag_matches_exact, E. split.
      * intros [->|[?|(q & Hp & Hl & ->)]]; [|by left|]; right.
        -- exists [COLON]. split_and!; try done. by apply prefix_cons, prefix_nil.
        -- exists (COLON :: q). split_and!; [by apply prefix_cons| |done].
           destruct q; [done|]. by rewrite last_cons_cons.
      * intros [?|(q & Hp & Hl & ->)]; [by right; left|].
        destruct (Hq q Hp Hl) as [[_ ->]|(q' & -> & ? & ?)]; [by left|]. right. right. by exists q'.
    + rewrite E. split.
      * intros [?|(q & Hp & Hl & ->)]; [by left|]. right. exists (c :: q).
        split_and!; [by apply prefix_cons| |done]. destruct q; [done|]. by rewrite last_cons_cons.
      * intros [?|(q & Hp & Hl & ->)]; [by left|]. right.
        destruct (Hq q Hp Hl) as [[? _]|(q' & -> & ? & ?)]; [done|]. by exists q'.
Qed.

Lemma walk_affects_affects tg t :
  last tg = Some COLON -> walk_affects [] tg t = affects tg t.
Proof.
  intros Hl. apply eq_bool_prop_intro. rewrite !Is_true_true, walk_affects_iff by done.
  unfold affects, ends_in_colon. cbn [app].
  rewrite orb_true_iff, andb_true_iff, !bool_decide_eq_true. naive_solver.
Qed.

(** *** Whole messages *)

Lemma close_if_ext f g now time e : (forall t, f t = g t) -> close_if f now time e = close_if g now time e.
Proof.
  intros E. unfold close_if. replace (existsb g (invalTags e)) with (existsb f (invalTags e)); [done|].
  induction (invalTags e) as [|t l IH]; cbn; [done|]. by rewrite E, IH.
Qed.

Lemma existsb_orb {A} (f g : A -> bool) l :
  existsb (fun x => f x || g x) l = existsb f l || existsb g l.
Proof.
  induction l as [|x l IH]; cbn; [done|]. rewrite IH.
  by destruct (f x), (g x), (existsb f l), (existsb g l).
Qed.

Lemma close_if_compose f g now time e :
  close_if g now time (close_if f now time e) = close_if (fun t => f t || g t) now time e.
Proof.
  unfold close_if. rewrite existsb_orb. destruct (stillValid (interval e)) eqn:S; cbn; [|by rewrite S].
  destruct (existsb f (invalTags e)) eqn:F; cbn; [done|]. by rewrite S.
Qed.

(** One step of invalidation: the heap changes by [close_if], the frame stays,
    buffered invalidations stay buffered. *)
Definition inval_step (f : tag -> bool) (time : Z) (s s' : Store_t) : Prop :=
  Inv s' /\ heap s' = close_if f (lastInvalTime s) time <$> heap s /\ inval_frame s s' /\
  bufferValidFrom s' = bufferValidFrom s /\
  (forall b, b ∈ invalBuffer s -> b ∈ invalBuffer s').

Lemma inval_step_trans f g time s1 s2 s3 :
  inval_step f time s1 s2 -> inval_step g time s2 s3 ->
  inval_step (fun t => f t || g t) time s1 s3.
Proof.
  intros (HI2 & H2 & F2 & V2 & B2) (HI3 & H3 & F3 & V3 & B3). unfold inval_step.
  split_and!; [done| |by etrans|congruence|auto].
  destruct F2 as (_&_&_&_&_&(_&Et&_)&_). rewrite H3, H2, Et, <- map_fmap_compose.
  apply map_fmap_ext. intros id e _. apply close_if_compose.
Qed.

Lemma inval_step_ext f g time s1 s2 :
  (forall t, f t = g t) -> inval_step f time s1 s2 -> inval_step g time s1 s2.
Proof.
  intros E (HI2 & H2 & R). split; [done|]. split; [|done]. rewrite H2.
  apply map_fmap_ext. intros id e _. by apply close_if_ext.
Qed.

Lemma InvalidateTag_step (s : Store_t) tg d time :
  Inv s -> exists s', Store_InvalidateTag s tg d time = Ok s' /\
    inval_step (tag_matches d tg) time s s'.
Proof.
  intros HI. destruct (InvalidateTag_ok s tg d time HI) as (s' & E & HI' & Hh & F & V & B).
  exists s'. split; [done|]. split_and!; try done. intros b Hb.
  destruct B as [[-> _]|[[-> _]|[Hp _]]]; [done..|]. rewrite Hp. by right.
Qed.

Lemma InvalidateWalk_ok (s : Store_t) pre rest time :
  Inv s -> last rest = Some COLON ->
  exists s', InvalidateWalk s pre rest time = Ok s' /\
    inval_step (walk_affects pre rest) time s s'.
Proof.
  revert s pre. induction rest as [|c rest IH]; intros s pre HI Hl; [done|].
  cbn [InvalidateWalk walk_affects]. destruct rest as [|c' rest].
  - cbn in Hl. injection Hl as ->. rewrite Z.eqb_refl. by apply InvalidateTag_step.
  - assert (Hl' : last (c' :: rest) = Some COLON) by done. destruct (c =? COLON).
    + destruct (InvalidateTag_step s (pre ++ [c]) false time HI) as (s1 & -> & S1).
      cbn [mbind res_bind]. destruct (IH s1 (pre ++ [c]) (proj1 S1) Hl') as (s2 & -> & S2).
      exists s2. split; [done|]. eapply inval_step_trans; eassumption.
    + by apply IH.
Qed.

Lemma inval_step_refl (s : Store_t) time : Inv s -> inval_step (fun _ => false) time s s.
Proof.
  intros HI. split_and!; try done. rewrite <- (map_fmap_id (heap s)) at 1.
  apply map_fmap_ext. intros id e _. unfold close_if.
  replace (existsb _ (invalTags e)) with false; [by rewrite andb_false_r|].
  by induction (invalTags e).
Qed.

Lemma InvalidateTags_ok (s : Store_t) tags time :
  Inv s -> Forall (fun tg => last tg = Some COLON) tags ->
  exists s', InvalidateTags s tags time = Ok s' /\
    inval_step (fun t => existsb (fun tg => affects tg t) tags) time s s'.
Proof.
  intros HI Ht. revert s HI. induction Ht as [|tg tags Hl _ IH]; intros s HI; cbn [InvalidateTags].
  - exists s. split; [done|]. by apply inval_step_refl.
  - destruct (InvalidateWalk_ok s [] tg time HI Hl) as (s1 & E1 & S1).
    unfold Store_InvalidateTagAndAncestorsDescendants. rewrite E1. cbn [mbind res_bind].
    destruct (IH s1 (proj1 S1)) as (s2 & -> & S2). exists s2. split; [done|].
    eapply inval_step_ext; [|eapply inval_step_trans; eassumption].
    intros t. cbn. by rewrite walk_affects_affects.
Qed.

(** *** The buffer of recent invalidations *)

Definition expired (curTime : Z) (b : StoreInvalBufferEntry_t) : Prop :=
  be_time b + INVAL_BUFFER_TIME <= curTime.

Lemma ExpireLoop_ok fuel (s : Store_t) curTime :
  Inv s -> (length (invalBuffer s) < fuel)%nat ->
  exists s' old, ExpireLoop fuel s curTime = Ok s' /\ Inv s' /\
    heap s' = heap s /\ inval_frame s s' /\
    invalBuffer s = old ++ invalBuffer s' /\ Forall (expired curTime) old /\
    (forall b, hd_error (invalBuffer s') = Some b -> ~ expired curTime b) /\
    bufferValidFrom s' = default (bufferValidFrom s) (be_pin <$> last old).
Proof.
  revert s. induction fuel as [|fuel IH]; intros s HI Hf; [lia|]. cbn [ExpireLoop].
  destruct (invalBuffer s) as [|b rest] eqn:Eb.
  { exists s, []. rewrite Eb. split_and!; try done. }
  rewrite need_ok, bind_ret_l by apply HI.
  destruct (Z.ltb_spec curTime (be_time b + INVAL_BUFFER_TIME)) as [Hlt|Hge].
  { exists s, []. rewrite Eb. split_and!; try done. intros b' [= <-]. unfold expired. lia. }
  cbn [invalBuffer set_bufferValidFrom]. rewrite Eb. cbn [tree_remove].
  rewrite (proj2 (Z.eqb_eq _ 0)) by (by apply InvalBuffer_Compare_eq).
  pose proof (inv_buffer_sorted s HI) as Hs. rewrite Eb in Hs.
  apply StronglySorted_inv in Hs as [Hs Hb]. rewrite Forall_forall in Hb.
  pose proof (inv_buffer s HI b) as Hbb. rewrite Eb in Hbb. specialize (Hbb ltac:(by left)).
  set (s1 := set_invalBuffer rest (set_bufferValidFrom (be_pin b) s)).
  assert (HI1 : Inv s1).
  { pose proof (inv_time s HI).
    destruct HI as [I1 I2 I3 I4 I5 I6 I7 I8 I9 I10 I11 I12 I13 I14 I15 I16 I17].
    split; cbn; try assumption; [|lia]. intros x Hx. specialize (Hb x Hx).
    assert (bufferValidFrom s <= be_pin x <= lastInvalTime s) by (apply I10; rewrite Eb; by right).
    unfold be_lt in Hb. lia. }
  destruct (IH s1 HI1) as (s' & old & E & HI' & Hh & F & Eo & Ho & Hn & Hv); [cbn in *; lia|].
  exists s', (b :: old). split; [exact E|]. split; [done|]. split; [done|]. split; [done|].
  cbn in Eo. split; [cbn; by rewrite Eo|]. split; [constructor; [unfold expired; lia|done]|].
  split; [done|]. rewrite Hv, last_cons. destruct (last old); done.
Qed.

Lemma Inv_lastInvalTime (s : Store_t) ts :
  Inv s -> lastInvalTime s <= ts < PIN_INF -> Inv (set_lastInvalTime ts s).
Proof.
  intros [I1 I2 I3 I4 I5 I6 I7 I8 I9 I10 I11 I12 I13 I14 I15 I16 I17] Ht. split; cbn; try assumption.
  - intros b Hb. specialize (I10 b Hb). lia.
  - lia.
Qed.

Lemma Invalidate_ok (s : Store_t) ts tags time :
  Inv s -> lastInvalTime s < ts < PIN_INF ->
  Forall (fun tg => last tg = Some COLON) tags ->
  exists s', Store_Invalidate s ts tags time = Ok s' /\ Inv s' /\
    heap s' = invalidated tags ts time <$> heap s /\ lines s' = lines s /\
    lastInvalTime s' = ts /\ entryBytes s' = entryBytes s /\
    totalStats s' = totalStats s /\ maxBytes s' = maxBytes s /\
    uselessBound s' = uselessBound s /\ lookupPolicyTable s' = lookupPolicyTable s.
Proof.
  intros HI Ht Htags. pose proof (inv_time s HI) as Hit. unfold PIN_NEG_INF in Hit.
  unfold Store_Invalidate.
  rewrite (proj2 (PIN_SPECIAL_false ts)) by (unfold PIN_INVALID, PIN_NEG_INF; lia).
  cbn [negb Assert mbind res_bind].
  rewrite (proj2 (Z.ltb_lt _ _)) by lia. cbn [Assert mbind res_bind].
  destruct (InvalidateTags_ok (set_lastInvalTime ts s) tags time)
    as (s1 & -> & HI1 & Hh1 & F1 & V1 & B1); [apply Inv_lastInvalTime; [done|lia]|done|].
  cbn [mbind res_bind].
  destruct (ExpireLoop_ok (S (length (invalBuffer s1))) s1 time HI1)
    as (s' & old & E & HI' & Hh & F & _); [lia|].
  unfold Store_ExpireBuffer. exists s'. split; [done|]. split; [done|].
  destruct F1 as (L1&Eb1&_&Ts1&_&(M1&T1&U1&P1&_)&_), F as (L&Eb&_&Ts&_&(M&T&U&P'&_)&_).
  cbn in *. split_and!; try congruence. rewrite Hh, Hh1. done.
Qed.

End Invalidation.
