(* ===== verification/StorePut.v ===== *)
(** * Insertion

    [Store_Put] keeps the store's invariant, and what it does on each of its
    paths: truncation by buffered invalidations, implicit invalidation of a
    missed entry, extension of an existing interval, or a new entry, after
    evicting enough to stay below the store's size limit. *)

From S2P Require Import Prelude CLib Interval Truth Memory Hash DblList OrdTree Eviction StoreData StatsText Store StoreInv StoreInval.

Section Put.

Context {P : Type} `{!EvictionPolicy P} `{!EvictionPolicyLaws P}.

Notation Store_t := (Store_t P).

(** ** New entries *)

Lemma VSet_insert h ids id l (e : entry_t) :
  versions_sorted h ids -> (forall x, x ∈ ids -> is_Some (h !! x)) -> h !! id = None ->
  lower (interval e) = l -> (forall x, x ∈ ids -> lower_at h x <> l) ->
  exists ids', tree_insert (StoreVSet_CompareValue h l) id ids = Some ids' /\
    versions_sorted (<[id := e]> h) ids' /\ ids' ≡ₚ id :: ids.
Proof.
  intros Hs Hh Hid Hl Hne.
  assert (Hx : forall x, x ∈ ids -> lower_at (<[id := e]> h) x = lower_at h x).
  { intros x Hx. rewrite lower_at_insert, decide_False; [done|]. intros ->.
    destruct (Hh id Hx). congruence. }
  assert (Hi : lower_at (<[id := e]> h) id = l).
  { by rewrite lower_at_insert, decide_True. }
  apply (tree_insert_ok (fun a b => lower_at (<[id := e]> h) a < lower_at (<[id := e]> h) b)).
  - by apply (versions_sorted_ext h).
  - intros w Hw Hc. destruct (Hh w Hw) as [ew Hew]. rewrite (Hx w Hw), Hi.
    by apply (VSet_Compare h l w ew Hew).
  - intros w Hw Hc. destruct (Hh w Hw) as [ew Hew]. rewrite (Hx w Hw), Hi.
    by apply (VSet_Compare h l w ew Hew).
  - intros x y z. lia.
  - apply Forall_forall. intros w Hw E. destruct (Hh w Hw) as [ew Hew].
    apply (Hne w Hw). by apply (VSet_Compare h l w ew Hew).
Qed.

Lemma VSet_insert_dup h ids id l x :
  versions_sorted h ids -> (forall x, x ∈ ids -> is_Some (h !! x)) ->
  x ∈ ids -> lower_at h x = l ->
  tree_insert (StoreVSet_CompareValue h l) id ids = None.
Proof.
  intros Hs Hh Hx Hl.
  apply (tree_insert_dup (fun a b => lower_at h a < lower_at h b) _ _ _ x); try done.
  - intros a b Ha Hb Hab Hc. destruct (Hh a Ha) as [ea Hea], (Hh b Hb) as [eb Heb].
    apply (VSet_Compare h l b eb Heb).
    destruct (VSet_Compare h l a ea Hea) as (? & ? & ?). lia.
  - destruct (Hh x Hx) as [ex Hex]. by apply (VSet_Compare h l x ex Hex).
Qed.

Lemma Inv_add (s : Store_t) k n id e ids ids' m p d :
  Inv s -> vset e = k -> entry_footprint e = n ->
  heap s !! id = None -> 0 < id -> entry_ok e -> lines s !! k = Some ids ->
  versions_sorted (<[id := e]> (heap s)) ids' -> ids' ≡ₚ id :: ids ->
  ep_tracks p ({[id]} ∪ dom (heap s)) ->
  StronglySorted me_lt m ->
  (forall t x, InvalMapEntry t x ∈ m <->
     InvalMapEntry t x ∈ invalMap s \/
     (x = id /\ stillValid (interval e) = true /\ t ∈ invalTags e)) ->
  (exists l, is_list d l /\ forall x, x ∈ l <->
     (x = id /\ stillValid (interval e) = false) \/
     exists e, heap s !! x = Some e /\ stillValid (interval e) = false) ->
  entryBytes s + n < bytes_max ->
  Inv (set_evictionPolicyState p (set_entryBytes (entryBytes s + n)
    (set_invTimeOrder d (set_invalMap m (set_heap (<[id := e]> (heap s))
      (set_lines (<[k := ids']> (lines s)) s)))))).
Proof.
  intros [I1 I2 I3 I4 I5 I6 I7 I8 I9 I10 I11 I12 I13 I14 I15 I16 I17] <- <- Hid Hpos Hok Hk Hs' Hp' Hp Hms Hm (l & Hl1 & Hl2) Hb.
  assert (LA : forall x, x <> id -> lower_at (<[id := e]> (heap s)) x = lower_at (heap s) x).
  { intros x Hx. by rewrite lower_at_insert, decide_False. }
  split; cbn; try done.
  - intros k ids0 [[<- <-]|[Hne Hk']]%lookup_insert_Some; [done|].
    apply (versions_sorted_ext (heap s)); [|by apply (I1 k)].
    intros x Hx. apply LA. intros ->. apply (I2 _ _ _ Hk') in Hx as (e0 & ? & ?). congruence.
  - intros k ids0 x [[<- <-]|[Hne Hk']]%lookup_insert_Some.
    + rewrite Hp', elem_of_cons, (I2 _ _ x Hk). destruct (decide (x = id)) as [->|Hx].
      * rewrite lookup_insert_eq. split; [|by left]. intros _. by exists e.
      * rewrite lookup_insert_ne by done. naive_solver.
    + rewrite (I2 _ _ x Hk'). destruct (decide (x = id)) as [->|Hx].
      * rewrite lookup_insert_eq. split; intros (e0 & ? & ?); congruence.
      * by rewrite lookup_insert_ne.
  - intros x y [[<- <-]|[_ Hx]]%lookup_insert_Some; apply lookup_insert_is_Some'; [by left|].
    right. by eapply I3.
  - intros x y [[<- <-]|[_ Hx]]%lookup_insert_Some; [done|by eapply I4].
  - by rewrite dom_insert_L.
  - exists l. split; [done|]. intros x. rewrite Hl2. destruct (decide (x = id)) as [->|Hx].
    + rewrite lookup_insert_eq. split.
      * intros [[_ ?]|(e0 & ? & ?)]; [by exists e|congruence].
      * intros (e0 & [= <-] & ?). by left.
    + rewrite lookup_insert_ne by done. naive_solver.
  - intros t x. rewrite Hm, I8. destruct (decide (x = id)) as [->|Hx].
    + rewrite lookup_insert_eq. split.
      * intros [(e0 & ? & ?)|(_ & ? & ?)]; [congruence|by exists e].
      * intros (e0 & [= <-] & ?). by right.
    + rewrite lookup_insert_ne by done. naive_solver.
  - rewrite I12. symmetry. by apply (msum_update _ _ _ ids).
  - rewrite I13, msum_insert by done. unfold entry_size at 2. lia.
  - lia.
  - intros k [ids0 [[<- _]|[_ Hk']]%lookup_insert_Some]; eauto.
  - by rewrite I16, map_size_insert_Some.
Qed.

(** ** Footprints *)

(** A hash table of fewer than 2^31 keys. *)
Definition table_small (s : Store_t) : Prop := ht_count s < 2 ^ 31.

Lemma HT_Footprint_small power count :
  0 <= count <= 2 ^ 31 -> 0 <= StoreHT_Footprint power count < 2 ^ 61.
Proof.
  intros Hc. unfold StoreHT_Footprint, sizeof_HT, sizeof_ptr, hashsize, u32.
  pose proof (Z.mod_pos_bound (Z.shiftl 1 power) (2 ^ 32)).
  change (MALLOC_SIZE sizeof_StoreVSet) with 80. rewrite u64_small; lia.
Qed.

Lemma Footprint_eq (s : Store_t) :
  Inv s -> table_small s ->
  Store_Footprint s = StoreHT_Footprint (ht_power s) (ht_count s) + keyBytes s + entryBytes s /\
  0 <= keyBytes s /\ 0 <= entryBytes s.
Proof.
  intros HI Ht. unfold table_small in Ht.
  pose proof (inv_bytes s HI) as [B1 B2]. unfold bytes_max in *.
  pose proof (inv_count s HI).
  pose proof (HT_Footprint_small (ht_power s) (ht_count s) ltac:(lia)).
  assert (0 <= keyBytes s).
  { rewrite (inv_keyBytes s HI). apply msum_nonneg. intros. apply MALLOC_SIZE_nonneg. }
  assert (0 <= entryBytes s).
  { rewrite (inv_entryBytes s HI). apply msum_nonneg. intros id e He.
    apply (inv_entry s HI) in He as [_ He]. pose proof (entry_footprint_pos e He).
    unfold entry_size. lia. }
  split; [|done]. unfold Store_Footprint. rewrite u64_small; lia.
Qed.

(** ** The version below an interval *)

Lemma find_LT (s : Store_t) k ids u :
  Inv s -> lines s !! k = Some ids ->
  match StoreVSetTree_Find s ids u RB_LT with
  | None => forall x e, heap s !! x = Some e -> vset e = k -> u <= lower (interval e)
  | Some id => exists e, heap s !! id = Some e /\ vset e = k /\ lower (interval e) < u /\
      forall x e', heap s !! x = Some e' -> vset e' = k -> x <> id ->
        lower (interval e') < lower (interval e) \/ u <= lower (interval e')
  end.
Proof.
  intros HI Hk. unfold StoreVSetTree_Find.
  assert (HC : forall x e, heap s !! x = Some e -> StoreVSet_CompareValue (heap s) u x < 0 <->
    lower (interval e) < u).
  { intros x e He. rewrite (proj1 (VSet_Compare (heap s) u x e He)). unfold lower_at.
    by rewrite He. }
  assert (Hin : forall x e, heap s !! x = Some e -> vset e = k -> x ∈ ids).
  { intros x e He Hv. apply (inv_lines s HI k ids x Hk). eauto. }
  destruct (tree_find _ RB_LT ids) as [id|] eqn:F.
  - apply tree_find_LT_Some in F as (l1 & l2 & El & Hc & Hl2).
    assert (Hid : id ∈ ids) by (rewrite El; apply elem_of_app; right; by left).
    apply (inv_lines s HI k ids id Hk) in Hid as (e & He & Hv). exists e.
    split_and!; [done|done|by apply (HC id)|].
    intros x e' He' Hv' Hne. specialize (Hin x e' He' Hv'). rewrite El in Hin.
    apply elem_of_app in Hin as [Hx|Hx].
    + left. pose proof (inv_sorted s HI k ids Hk) as Hs. rewrite El in Hs.
      assert (Hlt : lower_at (heap s) x < lower_at (heap s) id).
      { eapply (StronglySorted_app_1_elem_of (fun a b => lower_at (heap s) a < lower_at (heap s) b));
          [exact Hs|exact Hx|by left]. }
      unfold lower_at in Hlt. by rewrite He', He in Hlt.
    + apply elem_of_cons in Hx as [->|Hx]; [done|]. right.
      rewrite Forall_forall in Hl2. specialize (Hl2 x Hx). cbn in Hl2.
      pose proof (HC x e' He'). lia.
  - rewrite tree_find_LT_None, Forall_forall in F. intros x e He Hv.
    specialize (F x (Hin x e He Hv)). cbn in F. pose proof (HC x e He). lia.
Qed.

(** ** Adding an entry *)

Definition new_entry (k : key) (i : interval_t) (d : list Z) (tags : list tag) (time : Z) : entry_t :=
  Entry i d k tags (Store_CopyInvalTagsLen tags) 0 (if stillValid i then -1 else time).

Lemma CopyInvalTagsLen_nonneg tags : 0 <= Store_CopyInvalTagsLen tags.
Proof.
  assert (H : forall l acc, 0 <= acc ->
    0 <= fold_left (fun total t => u64 (total + strlen t + 1)) l acc).
  { induction l as [|t l IH]; intros acc Ha; cbn; [done|]. apply IH. apply Z.mod_pos_bound. lia. }
  destruct tags as [|t tags]; [done|]. apply H. apply Z.mod_pos_bound. lia.
Qed.

Definition entry_bytes (d : list Z) (tags : list tag) : Z :=
  Store_EntryFootprint (Z.of_nat (length d)) (Store_CopyInvalTagsLen tags).

Lemma new_entry_footprint k i d tags time :
  entry_footprint (new_entry k i d tags time) = entry_bytes d tags.
Proof. reflexivity. Qed.

(** The sizes and allocations of an insertion; the node [malloc] returns is not
    in use. *)
Record args_ok (s : Store_t) (i : interval_t) (d : list Z) (tags : list tag) (al : allocs) : Prop := {
  ao_interval : interval_ok i;
  ao_tags : stillValid i = true -> tags <> [];
  ao_nodup : NoDup tags;
  ao_data : Z.of_nat (length d) < 2 ^ 61;
  ao_tagsLen : Store_CopyInvalTagsLen tags < 2 ^ 61;
  ao_copy : tags = [] \/ al_tags al = true;
  ao_node id : al_node al = Some id -> 0 < id /\ heap s !! id = None;
  ao_table : table_small s;
  ao_max : 0 <= maxBytes s < bytes_max
}.

(** What the keys take, and [n] bytes more. *)
Definition keys_and (s : Store_t) (n : Z) : Z :=
  StoreHT_Footprint (ht_power s) (ht_count s) + keyBytes s + n.

(** The room made for an entry of [n] bytes: enough, by removing entries only;
    nothing is removed when there is room already, and there is not enough only
    when the keys alone leave no room.  Then the statistics are printed, which may
    fail. *)
Lemma make_room (s : Store_t) n :
  Inv s -> table_small s -> 0 <= maxBytes s < bytes_max -> 0 < n < bytes_max + 2 ^ 10 -> lines s <> ∅ ->
  let room := if maxBytes s <? u64 (Store_Footprint s + n)
    then Store_Evict s (u64 (n - u64 (maxBytes s - Store_Footprint s)))
    else Ok (s, true) in
  (exists s' ok, room = Ok (s', ok) /\ Inv s' /\
    heap s' ⊆ heap s /\ dom (lines s') = dom (lines s) /\
    (ok = true -> Store_Footprint s' + n <= maxBytes s) /\
    (ok = false -> maxBytes s < keys_and s n) /\
    (Store_Footprint s + n <= maxBytes s -> s' = s /\ ok = true) /\
    same_config s s' /\ same_table s s' /\ same_buffer s s') \/
  (exists s' f, room = Fault f /\ maxBytes s < keys_and s n /\ unprinted s s' f).
Proof.
  cbv zeta. unfold keys_and.
  intros HI Ht Hmax Hn Hne. destruct (Footprint_eq s HI Ht) as (EF & Hk & He).
  pose proof (inv_bytes s HI) as [B1 B2]. unfold bytes_max in *.
  pose proof (HT_Footprint_small (ht_power s) (ht_count s)) as HT.
  unfold table_small in Ht. pose proof (inv_count s HI).
  specialize (HT ltac:(lia)).
  rewrite (u64_small (Store_Footprint s + n)) by lia.
  destruct (Z.ltb_spec (maxBytes s) (Store_Footprint s + n)) as [Hgt|Hle].
  - assert (Ef : u64 (n - u64 (maxBytes s - Store_Footprint s)) = Store_Footprint s + n - maxBytes s).
    { unfold u64. rewrite Zminus_mod_idemp_r, Z.mod_small; lia. }
    rewrite Ef. destruct (Evict_ok s (Store_Footprint s + n - maxBytes s) HI Hne)
      as [(s' & ok & -> & HI' & Hh & Hd & Ht' & Hf & C & T & B)|(s' & f & -> & Hlt & Hu)].
    2:{ right. exists s', f. split_and!; try done. lia. }
    left. exists s', ok. split_and!; try done.
    + intros Ho. specialize (Ht' Ho). pose proof T as (Tp & Tc & Tk).
      destruct (Footprint_eq s' HI') as (EF' & _); [unfold table_small; lia|].
      rewrite EF', Tp, Tc, Tk. lia.
    + intros Ho. destruct (Hf Ho) as [_ Hlt]. lia.
    + lia.
  - left. exists s, true. split_and!; try done; lia.
Qed.

Lemma Inv_weaken_node (s s' : Store_t) i d tags al :
  heap s' ⊆ heap s -> ht_count s' = ht_count s -> maxBytes s' = maxBytes s ->
  args_ok s i d tags al -> args_ok s' i d tags al.
Proof.
  intros Hh Hc Hm [? ? ? ? ? ? Hn ? ?]. unfold table_small in *.
  split; unfold table_small; try done; try (by rewrite ?Hc, ?Hm).
  intros id Hid. destruct (Hn id Hid) as [Hp Hi]. split; [done|].
  apply (lookup_weaken_None _ _ _ Hi Hh).
Qed.

(** A failed allocation of the data takes the node out again. *)
Lemma undo_insert (s : Store_t) k ids ids' id l :
  Inv s -> lines s !! k = Some ids -> heap s !! id = None ->
  (forall x, x ∈ ids -> lower_at (heap s) x <> l) ->
  tree_insert (StoreVSet_CompareValue (heap s) l) id ids = Some ids' ->
  versions_sorted (<[id := StoreVSet_InitValue l]> (heap s)) ids' -> ids' ≡ₚ id :: ids ->
  StoreVSetTree_Remove (set_heap (<[id := StoreVSet_InitValue l]> (heap s))
    (set_lines (<[k := ids']> (lines s)) s)) k l = Ok s.
Proof.
  intros HI Hk Hid Hne Hins Hs' Hp. unfold StoreVSetTree_Remove.
  cbn [lines set_heap set_lines heap evictionPolicyState]. rewrite lookup_insert_eq.
  cbn [deref mbind res_bind].
  set (h := <[id := StoreVSet_InitValue l]> (heap s)) in *.
  assert (Hids : forall x, x ∈ ids -> is_Some (heap s !! x)) by (intros; by eapply Inv_ids).
  destruct (VSet_find h ids' id l) as [F1 _]; [done| |rewrite Hp; by left| |].
  { intros x. rewrite Hp, elem_of_cons. subst h. rewrite lookup_insert_is_Some'. naive_solver. }
  { subst h. by rewrite lower_at_insert, decide_True. }
  rewrite F1. rewrite (tree_insert_remove _ _ id ids ids' Hins).
  - assert (Hlk : ep_linked (evictionPolicyState s) id = false).
    { apply not_true_is_false. rewrite (ep_linked_tracks _ _ id (inv_policy s HI)).
      by apply not_elem_of_dom. }
    rewrite Hlk. cbn [negb Assert mbind res_bind]. subst h.
    rewrite delete_insert_id, insert_insert_eq, insert_id by done. by destruct s.
  - subst h. apply (VSet_Compare _ l id (StoreVSet_InitValue l)); [apply lookup_insert_eq|].
    by rewrite lower_at_insert, decide_True.
  - apply Forall_forall. intros w Hw E. destruct (Hids w Hw) as [ew Hew].
    assert (Hwi : id <> w) by congruence.
    apply (Hne w Hw). subst h.
    apply (VSet_Compare _ l w ew) in E; [|by rewrite lookup_insert_ne].
    by rewrite lower_at_insert, decide_False in E.
Qed.

(** The list of invalidated entries after a new entry is linked. *)
Definition order_after (s : Store_t) (i : interval_t) (id : Z) : LIST_t :=
  if stillValid i then invTimeOrder s else LIST_PushFront (invTimeOrder s) id.

(** The store with the new entry in the tree, the tag index and the list. *)
Definition linked_in (s : Store_t) (k : key) (ids' : list Z) (id : Z) (e : entry_t)
    (m : list StoreInvalMapEntry_t) (dl : LIST_t) (n : Z) : Store_t :=
  set_entryBytes (entryBytes s + n) (set_invTimeOrder dl (set_invalMap m
    (set_heap (<[id := e]> (heap s)) (set_lines (<[k := ids']> (lines s)) s)))).

Lemma linked_in_policy (s : Store_t) k ids' id e m dl n c t :
  evictionPolicyState (set_classStats c (set_totalStats t (linked_in s k ids' id e m dl n))) =
  evictionPolicyState s.
Proof. reflexivity. Qed.

Lemma order_after_ok (s : Store_t) i id :
  Inv s -> heap s !! id = None -> 0 < id ->
  exists l, is_list (order_after s i id) l /\ forall x, x ∈ l <->
    (x = id /\ stillValid i = false) \/
    exists e, heap s !! x = Some e /\ stillValid (interval e) = false.
Proof.
  intros HI Hid Hpos. destruct (inv_order s HI) as (l & Hl1 & Hl2). unfold order_after.
  assert (Hnl : id ∉ l) by (rewrite Hl2; intros (? & ? & ?); congruence).
  destruct (stillValid i).
  - exists l. split; [done|]. intros x. rewrite Hl2. naive_solver.
  - exists (id :: l). split; [apply PushFront_ok; [done|done|lia]|].
    intros x. rewrite elem_of_cons, Hl2. naive_solver.
Qed.

(** Linking a new entry into all indexes. *)
Lemma commit (s : Store_t) k ids ids' id i d tags al time m :
  Inv s -> args_ok s i d tags al -> (stillValid i = false -> tags = []) ->
  lines s !! k = Some ids -> al_node al = Some id ->
  versions_sorted (<[id := new_entry k i d tags time]> (heap s)) ids' -> ids' ≡ₚ id :: ids ->
  entryBytes s + entry_bytes d tags < bytes_max ->
  StronglySorted me_lt m ->
  (forall x, x ∈ m <-> x ∈ invalMap s \/ (me_entry x = id /\ me_tag x ∈ tags)) ->
  let e := new_entry k i d tags time in
  exists s', (s ← MODSTAT (linked_in s k ids' id e m (order_after s i id) (entry_bytes d tags))
                    k (add_entries 1);
              p ← ep_put (evictionPolicyState s) id false;
              let s := set_evictionPolicyState p s in
              Store_AssertSize s;; Ok (s, true)) = Ok (s', true) /\
    Inv s' /\ heap s' = <[id := e]> (heap s) /\ lines s' = <[k := ids']> (lines s) /\
    entryBytes s' = entryBytes s + entry_bytes d tags /\
    ep_put (evictionPolicyState s) id false = Ok (evictionPolicyState s') /\
    same_config s s' /\ same_table s s' /\ same_buffer s s'.
Proof.
  intros HI HA Hst Hk Hnode Hs' Hp Hb Hms Hm e.
  destruct (ao_node s i d tags al HA id Hnode) as [Hpos Hid].
  pose proof (CopyInvalTagsLen_nonneg tags) as Htl.
  assert (He : entry_ok e).
  { destruct HA. unfold entry_ok, e, new_entry. cbn. split_and!; try done. }
  destruct (MODSTAT_ok (linked_in s k ids' id e m (order_after s i id) (entry_bytes d tags))
      k (add_entries 1)) as (s4 & -> & t & c & ->); [apply HI|apply (inv_key s HI); eauto|].
  rewrite bind_ret_l.
  destruct (ep_put_tracks (evictionPolicyState s) (dom (heap s)) id (inv_policy s HI))
    as (p & Ep & Tp); [by apply not_elem_of_dom|lia|].
  rewrite linked_in_policy, Ep, bind_ret_l.
  assert (HI' : Inv (set_evictionPolicyState p
    (linked_in s k ids' id e m (order_after s i id) (entry_bytes d tags)))).
  { apply (Inv_add s k (entry_bytes d tags) id e ids ids' m p (order_after s i id) HI eq_refl
      (new_entry_footprint k i d tags time) Hid Hpos He Hk Hs' Hp Tp Hms).
    - intros t' x. rewrite Hm. cbn. destruct (stillValid i) eqn:Sv; [naive_solver|].
      rewrite (Hst eq_refl). rewrite elem_of_nil. naive_solver.
    - by apply order_after_ok.
    - exact Hb. }
  apply (Inv_stats _ (set_evictionPolicyState p (set_classStats c (set_totalStats t
    (linked_in s k ids' id e m (order_after s i id) (entry_bytes d tags)))))) in HI';
    [|by exists t, c].
  cbv zeta. rewrite AssertSize_ok; [|exact HI'|apply insert_non_empty]. rewrite bind_ret_l.
  eexists. split; [reflexivity|]. split; [exact HI'|]. split_and!; done.
Qed.

(** The outcome of [Store_Add] from [s]: with the entry added to what eviction
    left, within the size limit, or without it. *)
Definition added (s s' : Store_t) (k : key) (i : interval_t) (d : list Z) (tags : list tag)
    (al : allocs) (time : Z) (ok : bool) : Prop :=
  exists h, h ⊆ heap s /\
    (Store_Footprint s + entry_bytes d tags <= maxBytes s -> h = heap s) /\
    if ok then
      exists id, al_node al = Some id /\
        heap s' = <[id := new_entry k i d tags time]> h /\ Store_Footprint s' <= maxBytes s
    else
      heap s' = h /\ (al_node al = None \/ al_data al = false \/
        (exists x e, h !! x = Some e /\ vset e = k /\ lower (interval e) = lower i) \/
        maxBytes s < keys_and s (entry_bytes d tags)).

(** Why [Store_Add] does not return: the keys leave no room for the entry and the
    statistics cannot be printed, or there is no memory for a node of a version set
    that is not empty. *)
Definition add_fails (s : Store_t) (k : key) (d : list Z) (tags : list tag) (al : allocs) (f : fault) : Prop :=
  (maxBytes s < keys_and s (entry_bytes d tags) /\ exists s', unprinted s s' f) \/
  (f = OutOfMemory /\ al_node al = None /\ exists x e, heap s !! x = Some e /\ vset e = k).

Lemma add_fails_from (s s1 : Store_t) k d tags al f :
  dom (lines s1) = dom (lines s) -> same_config s s1 -> same_table s s1 ->
  (forall x e, heap s1 !! x = Some e -> vset e = k -> exists y e', heap s !! y = Some e' /\ vset e' = k) ->
  add_fails s1 k d tags al f -> add_fails s k d tags al f.
Proof.
  intros Hd C T Hh [(Hm & s' & Hu)|(-> & Hn & x & e & Hx & Hv)].
  - left. pose proof C as (C1 & _). pose proof T as (T1 & T2 & T3). unfold keys_and in *. rewrite T1, T2, T3, C1 in Hm.
    split; [done|]. exists s'. by apply (unprinted_from s s1).
  - right. split_and!; try done. by apply (Hh x e).
Qed.

Lemma Add_ok (s : Store_t) k ids i d tags al time :
  Inv s -> args_ok s i d tags al -> (stillValid i = false -> tags = []) ->
  lines s !! k = Some ids ->
  (exists s' ok, Store_Add s k i d tags al time = Ok (s', ok) /\ Inv s' /\
    added s s' k i d tags al time ok /\ dom (lines s') = dom (lines s) /\
    same_config s s' /\ same_table s s' /\ same_buffer s s' /\
    (ok = true -> Store_Footprint s + entry_bytes d tags <= maxBytes s -> forall id, al_node al = Some id ->
     ep_put (evictionPolicyState s) id false = Ok (evictionPolicyState s'))) \/
  (exists f, Store_Add s k i d tags al time = Fault f /\ add_fails s k d tags al f).
Proof.
  intros HI HA Hst Hk. unfold Store_Add. fold (entry_bytes d tags).
  assert (Hn : 0 < entry_bytes d tags < bytes_max + 2 ^ 10).
  { destruct HA. pose proof (CopyInvalTagsLen_nonneg tags). apply EntryFootprint_pos; lia. }
  destruct (make_room s (entry_bytes d tags))
    as [(s1 & ok & E & HI1 & Hh1 & Hd1 & Ht1 & Hf1 & Hs1 & C1 & T1 & B1)|(s1 & f & E & Hm & Hu)];
    [done|apply HA|apply HA|done|by intros E0; rewrite E0, lookup_empty in Hk| |].
  2:{ right. exists f. cbv zeta. rewrite E. split; [done|]. left. split; [done|]. by exists s1. }
  cbv zeta. rewrite E, bind_ret_l. clear E. pose proof T1 as (Tp & Tc & Tk).
  pose proof C1 as (Cm & _).
  assert (Hroom : Store_Footprint s + entry_bytes d tags <= maxBytes s -> heap s1 = heap s).
  { intros Hr. by destruct (Hs1 Hr) as [-> _]. }
  destruct ok; cbn [negb].
  2:{ left. exists s1, false. split_and!; try done. exists (heap s1). split_and!; try done. auto 6. }
  assert (Hk1 : is_Some (lines s1 !! k)).
  { apply elem_of_dom. rewrite Hd1. by eapply elem_of_dom_2. }
  destruct Hk1 as [ids1 Hk1]. rewrite Hk1. cbn [deref]. rewrite bind_ret_l.
  destruct (al_node al) as [id|] eqn:Hnode.
  2:{ destruct ids1 as [|x ids1];
        [|destruct (tree_find (StoreVSet_CompareValue (heap s1) (lower i)) RB_EQ (x :: ids1))].
      3:{ right. exists OutOfMemory. split; [done|]. right. split_and!; try done.
          assert (Hx : x ∈ x :: ids1) by (by left). apply (inv_lines s1 HI1 k _ x Hk1) in Hx as (e & He & Hv).
          exists x, e. split; [by eapply lookup_weaken|done]. }
      all: left; exists s1, false; split_and!; try done; exists (heap s1); split_and!; try done; by left. }
  apply (Inv_weaken_node s s1) in HA as HA1; [|done..].
  destruct (ao_node _ _ _ _ _ HA1 id Hnode) as [Hpos Hid].
  assert (Hids : forall x, x ∈ ids1 -> is_Some (heap s1 !! x)) by (intros; by eapply Inv_ids).
  destruct (decide (Exists (fun x => lower_at (heap s1) x = lower i) ids1)) as [Hdup|Hlow].
  { apply Exists_exists in Hdup as (x & Hx & Hlx).
    rewrite (VSet_insert_dup _ _ _ _ x) by (done || by apply (inv_sorted s1 HI1 k)).
    left. exists s1, false. split_and!; try done. exists (heap s1). split_and!; try done.
    right. right. left. apply (inv_lines s1 HI1 k ids1 x Hk1) in Hx as (e & He & Hv).
    exists x, e. unfold lower_at in Hlx. by rewrite He in Hlx. }
  apply not_Exists_Forall in Hlow; [|apply _]. rewrite Forall_forall in Hlow.
  destruct (VSet_insert (heap s1) ids1 id (lower i) (StoreVSet_InitValue (lower i)))
    as (ids' & Eins & Hs0 & Hp); [by apply (inv_sorted s1 HI1 k)|done..|].
  destruct (VSet_insert (heap s1) ids1 id (lower i) (new_entry k i d tags time))
    as (ids2 & Eins2 & Hs' & _); [by apply (inv_sorted s1 HI1 k)|done..|].
  rewrite Eins in Eins2. injection Eins2 as <-. rewrite Eins.
  destruct (al_data al) eqn:Hdata; cbn [negb].
  2:{ rewrite (undo_insert s1 k ids1 ids' id (lower i)) by done. rewrite bind_ret_l.
      left. exists s1, false. split_and!; try done. exists (heap s1). split_and!; try done.
      right. by left. }
  rewrite (proj2 (andb_false_iff _ _)).
  2:{ destruct (ao_copy _ _ _ _ _ HA) as [->| ->]; [left|right]; done. }
  cbv zeta. cbn [heap set_heap]. rewrite insert_insert_eq.
  assert (Hnm : forall x, x ∈ invalMap s1 -> me_entry x <> id).
  { intros [xt xe] Hx. apply (inv_map s1 HI1) in Hx as (e0 & He0 & _). cbn. congruence. }
  edestruct (Register_ok (set_heap (<[id := new_entry k i d tags time]> (heap s1))
      (set_heap (<[id := StoreVSet_InitValue (lower i)]> (heap s1)) (set_lines (<[k := ids']> (lines s1)) s1)))
      id tags (inv_room s1 HI1) (inv_map_sorted s1 HI1) (ao_nodup _ _ _ _ _ HA) Hnm) as (m & Em & Hms & Hm).
  fold (new_entry k i d tags time). rewrite Em, bind_ret_l. clear Em.
  destruct (Footprint_eq s1 HI1 (ao_table _ _ _ _ _ HA1)) as (EF1 & Hkb1 & Heb1).
  pose proof (HT_Footprint_small (ht_power s1) (ht_count s1)) as HT.
  pose proof (inv_count s1 HI1). pose proof (ao_table _ _ _ _ _ HA1) as Hts. unfold table_small in Hts.
  pose proof (ao_max _ _ _ _ _ HA) as Hmx.
  specialize (HT ltac:(lia)). specialize (Ht1 eq_refl).
  match goal with |- context [MODSTAT ?X k (add_entries 1)] =>
    assert (EX : X = linked_in s1 k ids' id (new_entry k i d tags time) m (order_after s1 i id) (entry_bytes d tags))
  end.
  { unfold order_after, linked_in, new_entry, bytes_max in *.
    destruct (stillValid i); cbn [entryBytes set_invTimeOrder set_invalMap set_heap set_lines];
      rewrite u64_small by lia; reflexivity. }
  rewrite EX. clear EX.
  destruct (commit s1 k ids1 ids' id i d tags al time _ HI1 HA1 Hst Hk1 Hnode Hs' Hp ltac:(lia) Hms Hm)
    as (s' & Ec & HI' & Hh' & Hl' & Hb' & Ep' & C' & T' & B').
  cbv zeta in Ec. left. exists s', true. split; [exact Ec|]. split; [done|].
  assert (Hd' : dom (lines s') = dom (lines s)) by (by rewrite Hl', dom_insert_lookup_L, Hd1).
  split; [|split; [done|split_and!; try (etrans; eassumption)]].
  2:{ intros _ Hr ? [= <-]. by destruct (Hs1 Hr) as [-> _]. }
  exists (heap s1). split_and!; try done. exists id. split_and!; [done|done|].
  pose proof T' as (Tp' & Tc' & Tk').
  destruct (Footprint_eq s' HI') as (EF' & _); [unfold table_small; lia|].
  rewrite EF', Tp', Tc', Tk', Hb'. lia.
Qed.

(** ** New keys *)

Lemma Inv_new_key (s : Store_t) k c pw :
  Inv s -> lines s !! k = None -> key_ok k -> c = ht_count s + 1 ->
  keyBytes s + MALLOC_SIZE (Z.of_nat (length k)) < bytes_max ->
  Inv (set_keyBytes (keyBytes s + MALLOC_SIZE (Z.of_nat (length k)))
    (set_ht_power pw (set_ht_count c (set_lines (<[k := []]> (lines s)) s)))).
Proof.
  intros [I1 I2 I3 I4 I5 I6 I7 I8 I9 I10 I11 I12 I13 I14 I15 I16 I17] Hk Hok -> Hb.
  split; cbn; try done.
  - intros k' ids [[<- <-]|[_ Hk']]%lookup_insert_Some; [constructor|by eapply I1].
  - intros k' ids x [[<- <-]|[_ Hk']]%lookup_insert_Some; [|by apply I2].
    rewrite elem_of_nil. split; [done|]. intros (e & He & <-).
    destruct (I3 x e He) as [? ?]. congruence.
  - intros x e He. apply lookup_insert_is_Some'. right. by eapply I3.
  - rewrite I12, msum_insert by done. unfold key_size at 2. lia.
  - lia.
  - intros k' [ids [[<- _]|[_ Hk']]%lookup_insert_Some]; eauto.
  - rewrite I16, map_size_insert_None by done. lia.
Qed.

(** The power and the number of keys of the hash table and the bytes of the keys, once
    the key [k] is there. *)
Definition table_with (s : Store_t) (k : key) : Z * Z * Z :=
  match lines s !! k with
  | Some _ => (ht_power s, ht_count s, keyBytes s)
  | None =>
    let c := ht_count s + 1 in
    (if hashsize (ht_power s) * 3 <? c * 4 then ht_power s + 1 else ht_power s, c,
     keyBytes s + MALLOC_SIZE (Z.of_nat (length k)))
  end.

(** What the keys take with [k] among them, and [n] bytes more. *)
Definition bytes_with (s : Store_t) (k : key) (n : Z) : Z :=
  let '(pw, c, kb) := table_with s k in StoreHT_Footprint pw c + kb + n.

Lemma expand_power (c : bool) (s : Store_t) :
  room s = true ->
  (if c then need s;; Ok (set_ht_power (ht_power s + 1) s) else Ok s) =
  Ok (set_ht_power (if c then ht_power s + 1 else ht_power s) s).
Proof. intros Hr. destruct c; [by rewrite need_ok|]. by destruct s. Qed.

Lemma VSet_ok (s : Store_t) k al :
  Inv s -> key_ok k -> keyBytes s + MALLOC_SIZE (Z.of_nat (length k)) < bytes_max ->
  exists s' v, Put_VSet s k al = Ok (s', v) /\ Inv s' /\ heap s' = heap s /\
    (v = None -> s' = s /\ (al_vset al = false \/ al_key al = false)) /\
    (is_Some (lines s !! k) -> s' = s) /\
    (forall ids, v = Some ids -> lines s' !! k = Some ids /\ dom (lines s') = {[k]} ∪ dom (lines s) /\
       (ht_power s', ht_count s', keyBytes s') = table_with s k) /\
    ht_count s <= ht_count s' <= ht_count s + 1 /\
    same_config s s' /\ same_buffer s s' /\ invTimeOrder s' = invTimeOrder s.
Proof.
  intros HI Hok Hb. unfold Put_VSet, table_with. destruct (lines s !! k) as [ids|] eqn:Hk.
  { exists s, (Some ids). split_and!; try done; try lia. intros ? [= <-]. split_and!; try done.
    apply elem_of_dom_2 in Hk. set_solver. }
  assert (Hno : ~ is_Some (lines s !! k)) by (rewrite Hk; by intros [? [=]]).
  rewrite Hk in Hno. destruct (al_vset al) eqn:Av; cbn [negb].
  2:{ exists s, None. split_and!; try done; try lia. auto. }
  destruct (al_key al) eqn:Ak; cbn [negb].
  2:{ exists s, None. split_and!; try done; try lia. auto. }
  unfold StoreHT_Insert. rewrite Hk. cbv zeta. rewrite expand_power, bind_ret_l by apply HI.
  assert (Hkb : 0 <= keyBytes s).
  { rewrite (inv_keyBytes s HI). apply msum_nonneg. intros. apply MALLOC_SIZE_nonneg. }
  pose proof (MALLOC_SIZE_nonneg (Z.of_nat (length k))). unfold bytes_max in Hb.
  cbn [ht_power ht_count keyBytes set_ht_power set_ht_count set_lines].
  rewrite u64_small by lia. eexists _, _. split; [reflexivity|].
  split; [by apply Inv_new_key|]. cbn. split_and!; try done; try lia.
  intros ids [= <-]. split_and!; [apply lookup_insert_eq|by rewrite dom_insert_L|done].
Qed.

(** ** Extending an interval *)

Lemma TryExtend_ok (s : Store_t) id e i k d :
  Inv s -> heap s !! id = Some e -> interval_ok i -> key_ok k ->
  exists s' b, Store_TryExtendInterval s (Some id) i k d = Ok (s', b) /\ Inv s' /\
    (b = true <-> (exists t, covers (lastInvalTime s) (interval e) t /\ covers (lastInvalTime s) i t) /\
                  d = data e /\ lower (interval e) <= lower i) /\
    heap s' = (if b && (upper (interval e) <? upper i)
               then <[id := set_interval (set_upper (upper i) (interval e)) e]> (heap s) else heap s) /\
    lines s' = lines s /\ invTimeOrder s' = invTimeOrder s /\ entryBytes s' = entryBytes s /\
    same_config s s' /\ same_table s s' /\ same_buffer s s'.
Proof.
  intros HI Hid Hi Hkey. destruct (inv_entry s HI id e Hid) as [_ Hok].
  unfold Store_TryExtendInterval. rewrite Hid. cbn [deref]. rewrite bind_ret_l.
  rewrite Overlaps_eq by (done || apply Hok). rewrite bind_ret_l.
  pose proof (Overlaps_true_iff (interval e) i (lastInvalTime s) (proj1 Hok) Hi) as HO.
  rewrite Overlaps_eq in HO by (done || apply Hok).
  destruct (_ <? _) eqn:Ov; cbn [negb].
  2:{ exists s, false. cbn. split_and!; try done. split; [done|]. intros [Hex _].
      apply HO in Hex. done. }
  assert (Hex : exists t, covers (lastInvalTime s) (interval e) t /\ covers (lastInvalTime s) i t)
    by (by apply HO). clear HO Ov.
  unfold mem_eqb. case_bool_decide as Hd; cbn [negb orb].
  2:{ exists s, false. cbn. split_and!; try done. split; [done|]. naive_solver. }
  destruct (Z.ltb_spec (lower i) (lower (interval e))) as [Hl|Hl].
  { exists s, false. cbn. split_and!; try done. split; [done|]. intros (_ & _ & ?). lia. }
  destruct (Z.ltb_spec (upper i) (upper (interval e))) as [Hu|Hu].
  { exists s, true. cbn. rewrite (proj2 (Z.ltb_ge (upper (interval e)) (upper i))) by lia.
    split_and!; try done. }
  destruct (Z.eqb_spec (upper (interval e)) (upper i)) as [He|He].
  { exists s, true. cbn. rewrite (proj2 (Z.ltb_ge (upper (interval e)) (upper i))) by lia.
    split_and!; try done. }
  set (e' := set_interval (set_upper (upper i) (interval e)) e).
  assert (HI1 : Inv (set_heap (<[id := e']> (heap s)) s)).
  { apply (Inv_update s id e); try done. destruct Hok as (Hoi & Ht & Hs).
    unfold entry_ok, interval_ok in *. cbn. split_and!; try done; lia. }
  destruct (MODSTAT_ok (set_heap (<[id := e']> (heap s)) s) k add_extension (inv_room s HI) Hkey)
    as (s2 & -> & t & c & ->). rewrite bind_ret_l.
  apply (Inv_stats _ (set_classStats c (set_totalStats t (set_heap (<[id := e']> (heap s)) s)))) in HI1;
    [|by exists t, c].
  destruct (ep_extend_tracks _ _ id (inv_policy _ HI1)) as (p & Ep & Tp).
  { apply elem_of_dom. cbn. rewrite lookup_insert_eq. eauto. }
  rewrite Ep, bind_ret_l. eexists _, true. split; [reflexivity|].
  split; [by apply Inv_policy|]. cbn [andb].
  rewrite (proj2 (Z.ltb_lt (upper (interval e)) (upper i))) by lia.
  split_and!; try done.
Qed.

(** ** Buffered invalidations *)

Lemma BufferScan_ok i tags l :
  (Forall (fun b => buffer_matches b tags = false) l /\ BufferScan i tags l = i) \/
  exists l1 b l2, l = l1 ++ b :: l2 /\ Forall (fun b => buffer_matches b tags = false) l1 /\
    buffer_matches b tags = true /\ BufferScan i tags l = Interval (lower i) (be_pin b) false.
Proof.
  induction l as [|b l IH]; [by left|]. cbn. destruct (buffer_matches b tags) eqn:M.
  - right. exists [], b, l. split_and!; try done.
  - destruct IH as [[Hf ->]|(l1 & b' & l2 & -> & Hf & Hm & ->)].
    + left. split; [|done]. by constructor.
    + right. exists (b :: l1), b', l2. split_and!; try done. by constructor.
Qed.

Lemma tree_from_later l p :
  StronglySorted be_lt l ->
  tree_from (StoreInvalBuffer_CompareValue p None) l = filter (fun b => p < be_pin b) l.
Proof.
  intros Hs. induction Hs as [|b l Hs IH Hb]; [done|]. cbn [tree_from].
  assert (HC : 0 <= StoreInvalBuffer_CompareValue p None b <-> p < be_pin b).
  { unfold StoreInvalBuffer_CompareValue. destruct (Z.ltb_spec (be_pin b) p); [lia|].
    destruct (Z.ltb_spec p (be_pin b)); lia. }
  destruct (Z.leb_spec 0 (StoreInvalBuffer_CompareValue p None b)) as [Hc|Hc].
  - apply HC in Hc. rewrite filter_cons_True by done. symmetry. f_equal. apply filter_id.
    rewrite Forall_forall in Hb. intros x Hx. specialize (Hb x Hx). unfold be_lt in Hb. lia.
  - rewrite filter_cons_False by lia. exact IH.
Qed.

(** What a still-valid interval becomes when it is put: unchanged when it
    reaches past the last invalidation; closed at its own upper bound when it
    is older than the buffer; otherwise closed at the first buffered
    invalidation after its upper bound that hits one of its tags. *)
Lemma TruncateIf_spec (s : Store_t) i tags :
  Inv s -> interval_ok i -> stillValid i = true ->
  exists i', Store_TruncateIfAlreadyInvalidated s i tags = Ok i' /\ interval_ok i' /\
    (lastInvalTime s < upper i -> i' = i) /\
    (upper i <= lastInvalTime s -> upper i <= bufferValidFrom s -> i' = Interval (lower i) (upper i) false) /\
    (upper i <= lastInvalTime s -> bufferValidFrom s < upper i ->
       (i' = i /\ forall b, b ∈ invalBuffer s -> upper i < be_pin b -> buffer_matches b tags = false) \/
       (exists b, b ∈ invalBuffer s /\ upper i < be_pin b /\ buffer_matches b tags = true /\
          i' = Interval (lower i) (be_pin b) false /\
          forall b', b' ∈ invalBuffer s -> upper i < be_pin b' -> buffer_matches b' tags = true ->
            be_pin b <= be_pin b')).
Proof.
  intros HI Hi Hs. unfold Store_TruncateIfAlreadyInvalidated. rewrite Hs. cbn [Assert].
  rewrite bind_ret_l.
  destruct (Z.ltb_spec (lastInvalTime s) (upper i)) as [H1|H1];
    [eexists; split; [reflexivity|]; split_and!; done || lia|].
  destruct (Z.leb_spec (upper i) (bufferValidFrom s)) as [H2|H2];
    [eexists; split; [reflexivity|]; split_and!; done || lia|].
  pose proof (inv_buffer_sorted s HI) as Hbs. rewrite tree_from_later by done.
  exists (BufferScan i tags (filter (fun b => upper i < be_pin b) (invalBuffer s))). split.
  { rewrite need_ok by apply HI. by destruct (filter _ _). }
  assert (Hf : forall b, b ∈ filter (fun b => upper i < be_pin b) (invalBuffer s) <->
    upper i < be_pin b /\ b ∈ invalBuffer s) by (intros b; by rewrite list_elem_of_filter).
  destruct (BufferScan_ok i tags (filter (fun b => upper i < be_pin b) (invalBuffer s)))
    as [[HF ->]|(l1 & b & l2 & E & HF & Hm & ->)]; rewrite Forall_forall in HF.
  - split_and!; try done; try lia. intros _ _. left. split; [done|]. intros b Hb Hp. by apply HF, Hf.
  - assert (Hb : upper i < be_pin b /\ b ∈ invalBuffer s).
    { apply Hf. rewrite E. apply elem_of_app. right. by left. }
    destruct Hb as [Hb1 Hb2]. pose proof (inv_buffer s HI b Hb2). pose proof (inv_time s HI).
    split_and!; try done; try lia; [unfold interval_ok in *; cbn; lia|].
    intros _ _. right. exists b. split_and!; try done. intros b' Hb' Hp' Hm'.
    apply (StronglySorted_filter be_lt (fun b => upper i < be_pin b)) in Hbs. rewrite E in Hbs, Hf.
    assert (Hx : b' ∈ l1 ++ b :: l2) by (by apply Hf).
    apply elem_of_app in Hx as [Hx|Hx]; [apply HF in Hx; congruence|].
    apply elem_of_cons in Hx as [->|Hx]; [lia|].
    apply StronglySorted_app_1_r, StronglySorted_inv in Hbs as [_ Hbs].
    rewrite Forall_forall in Hbs. specialize (Hbs b' Hx). unfold be_lt in Hbs. lia.
Qed.

Lemma TruncateIf_ok (s : Store_t) i tags :
  Inv s -> interval_ok i -> stillValid i = true ->
  exists i', Store_TruncateIfAlreadyInvalidated s i tags = Ok i' /\ interval_ok i' /\
    lower i' = lower i /\ upper i <= upper i' /\ (stillValid i' = true -> i' = i) /\
    (lastInvalTime s < upper i -> i' = i).
Proof.
  intros HI Hi Hs. destruct (TruncateIf_spec s i tags HI Hi Hs) as (i' & E & Hi' & H1 & H2 & H3).
  exists i'. split; [done|]. split; [done|].
  destruct (Z.lt_ge_cases (lastInvalTime s) (upper i)) as [C|C]; [rewrite (H1 C); by split_and!|].
  destruct (Z.le_gt_cases (upper i) (bufferValidFrom s)) as [D|D].
  { rewrite (H2 C D). cbn. split_and!; done || lia. }
  destruct (H3 C D) as [[-> _]|(b & _ & Hp & _ & -> & _)]; cbn; split_and!; done || lia.
Qed.

(** ** Put *)

(** The interval that is stored, after the buffered invalidations. *)
Definition put_interval (s : Store_t) (i : interval_t) (tags : list tag) : interval_t :=
  if stillValid i then
    match Store_TruncateIfAlreadyInvalidated s i tags with Ok i' => i' | Fault _ => i end
  else i.

Record put_args (s : Store_t) (k : key) (i : interval_t) (d : list Z) (tags : list tag)
    (al : allocs) : Prop := {
  pa_interval : interval_ok i;
  pa_key : key_ok k;
  pa_nodup : NoDup tags;
  pa_data : Z.of_nat (length d) < 2 ^ 61;
  pa_tagsLen : Store_CopyInvalTagsLen tags < 2 ^ 61;
  pa_copy : al_tags al = true;
  pa_node id : al_node al = Some id -> 0 < id /\ heap s !! id = None;
  pa_table : ht_count s + 1 < 2 ^ 31;
  pa_max : 0 <= maxBytes s < bytes_max;
  pa_keys : keyBytes s + MALLOC_SIZE (Z.of_nat (length k)) < bytes_max
}.

(** Entries of other keys may be evicted, and are not changed. *)
Definition others_kept (k : key) (s s' : Store_t) : Prop :=
  forall id e, heap s' !! id = Some e -> vset e <> k -> heap s !! id = Some e.

#[global] Instance others_kept_preorder k : PreOrder (others_kept k).
Proof. unfold others_kept. split; red; [done|]. intros x y z H1 H2 id e He Hv. eauto. Qed.

Lemma others_kept_subset k (s s' : Store_t) : heap s' ⊆ heap s -> others_kept k s s'.
Proof. intros Hs id e He _. by eapply lookup_weaken. Qed.

Lemma others_kept_update k (s s' : Store_t) id e :
  vset e = k -> heap s' = <[id := e]> (heap s) -> others_kept k s s'.
Proof.
  intros Hv E x e' Hx Hne. rewrite E in Hx. apply lookup_insert_Some in Hx as [[_ <-]|[_ Hx]]; [done|exact Hx].
Qed.

(** The versions of a key are pairwise disjoint, and only the last one may be
    still valid. *)
Definition disjoint_versions (h : gmap Z entry_t) (k : key) : Prop :=
  forall x e y e', h !! x = Some e -> h !! y = Some e' -> vset e = k -> vset e' = k ->
    lower (interval e) < lower (interval e') ->
    stillValid (interval e) = false /\ upper (interval e) <= lower (interval e').

(** A put that does not contradict what is stored: where it overlaps the
    still-valid version it has the same data and does not start before it, and a
    still-valid value is not older than a stored version. *)
Definition consistent_put (s : Store_t) (k : key) (i : interval_t) (d : list Z) : Prop :=
  (forall id e, heap s !! id = Some e -> vset e = k -> stillValid (interval e) = true ->
     (exists t, covers (lastInvalTime s) (interval e) t /\ covers (lastInvalTime s) i t) ->
     d = data e /\ lower (interval e) <= lower i) /\
  (forall id e, heap s !! id = Some e -> vset e = k -> upper i <= lower (interval e) ->
     stillValid i = false).

(** The data is stored, over an interval that reaches to the end of [i], and
    starts with [i] or where a version that was there before ends. *)
Definition stored (s s' : Store_t) (k : key) (i : interval_t) (d : list Z) : Prop :=
  exists id e, heap s' !! id = Some e /\ vset e = k /\ data e = d /\
    lower (interval e) < upper i <= upper (interval e) /\
    (lower i < lower (interval e) -> exists x e', heap s !! x = Some e' /\ vset e' = k /\
       upper (interval e') = lower (interval e)).

Lemma disjoint_subset h h' k : h' ⊆ h -> disjoint_versions h k -> disjoint_versions h' k.
Proof.
  intros Hs Hd x e y e' Hx Hy. apply (Hd x e y e'); by eapply lookup_weaken.
Qed.

(** Adding [e] at [id] to disjoint versions. *)
Lemma disjoint_insert h k id e :
  disjoint_versions (delete id h) k ->
  (forall x e', h !! x = Some e' -> x <> id -> vset e' = k -> lower (interval e') < lower (interval e) ->
     stillValid (interval e') = false /\ upper (interval e') <= lower (interval e)) ->
  (forall x e', h !! x = Some e' -> x <> id -> vset e' = k -> lower (interval e) < lower (interval e') ->
     stillValid (interval e) = false /\ upper (interval e) <= lower (interval e')) ->
  disjoint_versions (<[id := e]> h) k.
Proof.
  intros Hd H1 H2 x a y b Hx Hy Ha Hb Hlt.
  apply lookup_insert_Some in Hx as [[<- <-]|[Hxn Hx]], Hy as [[<- <-]|[Hyn Hy]].
  - lia.
  - by apply (H2 y).
  - by apply (H1 x).
  - apply (Hd x a y b); try done; by rewrite lookup_delete_ne.
Qed.

Lemma args_of_put (s s1 : Store_t) k i d tags al i' :
  put_args s k i d tags al -> interval_ok i' ->
  (stillValid i' = true -> tags <> []) ->
  heap s1 ⊆ heap s -> ht_count s1 <= ht_count s + 1 -> maxBytes s1 = maxBytes s ->
  args_ok s1 i' d (if stillValid i' then tags else []) al.
Proof.
  intros [? ? ? ? ? ? Hn ? ? ?] Hi Ht Hh Hc Hm. split; try done.
  - by destruct (stillValid i').
  - destruct (stillValid i'); [done|constructor].
  - by destruct (stillValid i').
  - by right.
  - intros id Hid. destruct (Hn id Hid). split; [done|]. by eapply lookup_weaken_None.
  - unfold table_small. lia.
  - by rewrite Hm.
Qed.

Lemma added_heap (s s' : Store_t) k i d tags al time ok :
  added s s' k i d tags al time ok ->
  others_kept k s s' /\ (ok = true -> exists id,
    heap s' !! id = Some (new_entry k i d tags time) /\ Store_Footprint s' <= maxBytes s).
Proof.
  intros (h & Hh & _ & Hok). destruct ok.
  - destruct Hok as (id & _ & E & Hm). split.
    + intros x e Hx Hv. rewrite E in Hx. apply lookup_insert_Some in Hx as [[_ <-]|[_ Hx]]; [done|].
      by eapply lookup_weaken.
    + intros _. exists id. by rewrite E, lookup_insert_eq.
  - destruct Hok as [E _]. split; [|done]. apply others_kept_subset. by rewrite E.
Qed.

(** The closed form of the truncation an insertion performs on the version below it. *)
Lemma Implicit_ok (s : Store_t) id e i time :
  Inv s -> heap s !! id = Some e ->
  exists s', Put_Implicit s (Some id) i time = Ok s' /\ Inv s' /\
    lines s' = lines s /\ entryBytes s' = entryBytes s /\
    same_config s s' /\ same_table s s' /\ same_buffer s s' /\
    let e' := if stillValid (interval e) && (lastInvalTime s <=? lower i)
              then truncate_entry (lastInvalTime s) time e else e in
    heap s' = <[id := e']> (heap s).
Proof.
  intros HI Hid. unfold Put_Implicit. rewrite Hid. cbn [deref]. rewrite bind_ret_l.
  destruct (stillValid (interval e) && (lastInvalTime s <=? lower i)) eqn:B.
  - apply andb_true_iff in B as [B _].
    destruct (Truncate_ok s id e time HI Hid B) as (m & p & l & -> & HI' & _).
    eexists. split; [reflexivity|]. split; [exact HI'|]. split_and!; done.
  - exists s. split_and!; try done. cbn. by rewrite insert_id.
Qed.

(** Insertion above version [id], which is the last one that starts before the
    end of [i]. *)
Lemma New_ok (s : Store_t) k ids id e i d tags al time :
  Inv s -> args_ok s i d tags al -> (stillValid i = false -> tags = []) ->
  lines s !! k = Some ids -> heap s !! id = Some e -> key_ok k ->
  (exists s' ok, Put_New s (Some id) k i d tags al time = Ok (s', ok) /\ Inv s' /\
    same_config s s' /\
    let i' := if lower i <? upper (interval e) then set_lower (upper (interval e)) i else i in
    if (lower i <? upper (interval e)) && (upper i <=? upper (interval e))
    then s' = s /\ ok = false
    else exists s0, stats_only s s0 /\ interval_ok i' /\ added s0 s' k i' d tags al time ok) \/
  (exists f, Put_New s (Some id) k i d tags al time = Fault f /\ add_fails s k d tags al f).
Proof.
  intros HI HA Hst Hk Hid Hkey. unfold Put_New. rewrite Hid. cbn [deref]. rewrite bind_ret_l.
  cbv zeta. destruct ((lower i <? upper (interval e)) && (upper i <=? upper (interval e))) eqn:B.
  { left. exists s, false. split_and!; done. }
  set (i' := if _ <? _ then _ else i).
  assert (Hi' : interval_ok i' /\ stillValid i' = stillValid i).
  { pose proof (ao_interval _ _ _ _ _ HA) as Hi. subst i'.
    destruct (inv_entry s HI id e Hid) as [_ (He & _)].
    unfold interval_ok in *. destruct (Z.ltb_spec (lower i) (upper (interval e))); [|done].
    cbn in B. bools. cbn. split; [lia|done]. }
  assert (S0 : exists s0, (if mem_eqb d (data e) then MODSTAT s k add_potentialExtension else Ok s) = Ok s0 /\
    stats_only s s0).
  { destruct (mem_eqb d (data e)); [apply MODSTAT_ok; [apply HI|done]|]. exists s. split; [done|].
    exists (totalStats s), (classStats s). by destruct s. }
  destruct S0 as (s0 & -> & t & c & E0). rewrite bind_ret_l.
  assert (HI0 : Inv s0) by (apply (Inv_stats s); [by exists t, c|done]).
  assert (HA0 : args_ok s0 i' d tags al).
  { destruct HA. destruct Hi' as [? Es]. subst s0. split; try done. by rewrite Es. }
  destruct (Add_ok s0 k ids i' d tags al time HI0 HA0)
    as [(s' & ok & -> & HI' & Ha & _ & C & _)|(f & -> & Hf)].
  { rewrite (proj2 Hi'). done. }
  { by subst s0. }
  2:{ right. exists f. split; [done|]. subst s0. eapply (add_fails_from s); [| | | |exact Hf]; [done|by split_and!|by split_and!|cbn; eauto]. }
  left. exists s', ok. split; [done|]. split; [done|]. split.
  { etrans; [|exact C]. subst s0. split_and!; done. }
  exists s0. split_and!; try done; [by exists t, c|apply Hi'].
Qed.

(** [Store_Put] from the search for an existing version on. *)
Definition Put_rest (s : Store_t) (versions : list Z) (k : key) (i : interval_t) (d : list Z)
    (tags : list tag) (force : bool) (al : allocs) (time : Z) : res (Store_t * bool) :=
  let entry := StoreVSetTree_Find s versions (upper i) RB_LT in
  '(s, entry) ← Put_Force s entry force;
  s ← Put_Implicit s entry i time;
  '(s, done) ← Store_TryExtendInterval s entry i k d;
  if (done : bool) then Ok (s, true)
  else Put_New s entry k i d tags al time.

(** The version below, after the implicit invalidation. *)
Definition implicit (s : Store_t) (i : interval_t) (time : Z) (e : entry_t) : entry_t :=
  if stillValid (interval e) && (lastInvalTime s <=? lower i)
  then truncate_entry (lastInvalTime s) time e else e.

(** Where the entries of the store after a put come from. *)
Inductive origin (s : Store_t) (k : key) (i : interval_t) (d : list Z) (tags : list tag) (time : Z) :
    entry_t -> Prop :=
| origin_old id e : heap s !! id = Some e -> origin s k i d tags time e
| origin_implicit id e : heap s !! id = Some e -> vset e = k ->
    origin s k i d tags time (implicit s i time e)
| origin_extended id e e1 : heap s !! id = Some e -> vset e = k -> e1 = implicit s i time e ->
    (exists t, covers (lastInvalTime s) (interval e1) t /\ covers (lastInvalTime s) i t) ->
    data e1 = d -> lower (interval e1) <= lower i -> upper (interval e1) < upper i ->
    origin s k i d tags time (set_interval (set_upper (upper i) (interval e1)) e1)
| origin_new i' : interval_ok i' -> lower i <= lower i' -> upper i' = upper i ->
    stillValid i' = stillValid i -> origin s k i d tags time (new_entry k i' d tags time).

(** What a put does to the entries and the size. *)
Record outcome (s s' : Store_t) (k : key) (i : interval_t) (d : list Z) (tags : list tag) (time : Z)
    (ok : bool) : Prop := {
  out_inv : Inv s';
  out_config : same_config s s';
  out_others : others_kept k s s';
  out_entries id e : heap s' !! id = Some e -> origin s k i d tags time e;
  out_stored : ok = true -> stored s s' k i d;
  out_size : ok = true -> Store_Footprint s' <= maxBytes s \/
    (Store_Footprint s' <= Store_Footprint s /\ exists x e, heap s !! x = Some e /\ vset e = k)
}.

Lemma stored_new (s s' : Store_t) k i i' d tags time id :
  heap s' !! id = Some (new_entry k i' d tags time) -> interval_ok i' -> upper i' = upper i ->
  (lower i < lower i' -> exists x e', heap s !! x = Some e' /\ vset e' = k /\
     upper (interval e') = lower i') ->
  stored s s' k i d.
Proof.
  intros Hid Hi Hu Hl. exists id, (new_entry k i' d tags time). unfold interval_ok in Hi. cbn.
  split_and!; try done; lia.
Qed.

Lemma added_entries (s s' : Store_t) k i d tags al time ok id e :
  added s s' k i d tags al time ok -> heap s' !! id = Some e ->
  e = new_entry k i d tags time \/ heap s !! id = Some e.
Proof.
  intros (h & Hh & _ & Hok). destruct ok.
  - destruct Hok as (x & _ & -> & _). intros [[_ <-]|[_ Hx]]%lookup_insert_Some; [by left|].
    right. by eapply lookup_weaken.
  - destruct Hok as [-> _]. intros Hx. right. by eapply lookup_weaken.
Qed.

Lemma outcome_add (s s' : Store_t) k i d tags al time ok :
  interval_ok i -> Inv s' -> same_config s s' -> added s s' k i d tags al time ok ->
  outcome s s' k i d tags time ok.
Proof.
  intros Hi HI C Ha. destruct (added_heap _ _ _ _ _ _ _ _ _ Ha) as [Ho Hs]. split; try done.
  - intros id e He. destruct (added_entries _ _ _ _ _ _ _ _ _ _ _ Ha He) as [->|Hx].
    + apply origin_new; done || lia.
    + by eapply origin_old.
  - intros E. destruct (Hs E) as (id & Hid & _). eapply (stored_new _ _ _ _ i); try done. lia.
  - intros E. destruct (Hs E) as (id & _ & Hf). by left.
Qed.

(** A new version that starts after the end of all versions it does not precede. *)
Lemma disjoint_added (s s' : Store_t) k i d tags al time ok h0 :
  added s s' k i d tags al time ok -> heap s = h0 -> interval_ok i ->
  (forall x e, h0 !! x = Some e -> interval_ok (interval e)) ->
  (forall id, al_node al = Some id -> h0 !! id = None) ->
  disjoint_versions h0 k ->
  (forall x e, h0 !! x = Some e -> vset e = k ->
     (stillValid (interval e) = false /\ upper (interval e) <= lower i) \/
     (stillValid i = false /\ upper i <= lower (interval e))) ->
  disjoint_versions (heap s') k.
Proof.
  intros (h & Hh & _ & Hok) E0 Hi Hio Hn Hd Hx. rewrite E0 in Hh.
  destruct ok; [|destruct Hok as [-> _]; by apply (disjoint_subset h0)].
  destruct Hok as (id & Hid & -> & _).
  assert (Hw : forall x e, h !! x = Some e -> vset e = k ->
     (stillValid (interval e) = false /\ upper (interval e) <= lower i) \/
     (stillValid i = false /\ upper i <= lower (interval e))).
  { intros x e He. apply (Hx x). by eapply lookup_weaken. }
  assert (Hie : forall x e, h !! x = Some e -> interval_ok (interval e)).
  { intros x e He. apply (Hio x). by eapply lookup_weaken. }
  unfold interval_ok in *. apply disjoint_insert.
  - apply (disjoint_subset h0); [|done]. etrans; [apply delete_subseteq|done].
  - intros x e He _ Hv Hl. cbn in *. destruct (Hw x e He Hv) as [?|[_ ?]]; [done|]. lia.
  - intros x e He _ Hv Hl. cbn in *. specialize (Hie x e He).
    destruct (Hw x e He Hv) as [[_ ?]|?]; [|done]. lia.
Qed.

Lemma Rest_none (s : Store_t) ids k i d tags al time :
  Inv s -> args_ok s i d tags al -> (stillValid i = false -> tags = []) ->
  lines s !! k = Some ids -> (forall x e, heap s !! x = Some e -> vset e = k -> upper i <= lower (interval e)) ->
  (exists s' ok, Store_Add s k i d tags al time = Ok (s', ok) /\ outcome s s' k i d tags time ok /\
    (disjoint_versions (heap s) k -> consistent_put s k i d -> disjoint_versions (heap s') k)) \/
  (exists f, Store_Add s k i d tags al time = Fault f /\ add_fails s k d tags al f).
Proof.
  intros HI HA Hst Hk Hlow.
  destruct (Add_ok s k ids i d tags al time HI HA Hst Hk) as [(s' & ok & -> & HI' & Ha & _ & C & _)|?]; [|by right].
  left. exists s', ok. split; [done|]. pose proof (ao_interval _ _ _ _ _ HA) as Hi.
  split; [by eapply outcome_add|]. intros Hd [_ Hc].
  apply (disjoint_added _ _ _ _ _ _ _ _ _ _ Ha eq_refl Hi); try done.
  - intros x e He. apply (inv_entry s HI x e He).
  - intros id Hid. apply (ao_node _ _ _ _ _ HA id Hid).
  - intros x e He Hv. right. pose proof (Hlow x e He Hv). split; [|done]. by apply (Hc x e).
Qed.

Lemma Footprint_same (s s' : Store_t) :
  same_table s s' -> entryBytes s' = entryBytes s -> Store_Footprint s' = Store_Footprint s.
Proof. intros (E1 & E2 & E3) E4. unfold Store_Footprint. by rewrite E1, E2, E3, E4. Qed.

Lemma implicit_eq (s : Store_t) i time e :
  let e1 := implicit s i time e in
  vset e1 = vset e /\ data e1 = data e /\ lower (interval e1) = lower (interval e) /\
  (lower i < upper (interval e1) -> upper (interval e1) = upper (interval e)) /\
  (stillValid (interval e) = false -> e1 = e) /\
  (stillValid (interval e1) = true -> lower i < lastInvalTime s /\ e1 = e).
Proof.
  cbv zeta. unfold implicit. destruct (stillValid (interval e)) eqn:S; cbn [andb].
  - destruct (Z.leb_spec (lastInvalTime s) (lower i)); cbn; split_and!; try done; lia.
  - split_and!; try done. congruence.
Qed.

(** A version changes without moving: it keeps its lower bound, and when it is
    closed it stays closed and before the next one. *)
Lemma disjoint_update h k id e e1 :
  disjoint_versions h k -> h !! id = Some e -> vset e = k -> lower (interval e1) = lower (interval e) ->
  (stillValid (interval e) = false -> stillValid (interval e1) = false) ->
  (stillValid (interval e) = false -> forall x e', h !! x = Some e' -> vset e' = k -> x <> id ->
     lower (interval e) < lower (interval e') -> upper (interval e1) <= lower (interval e')) ->
  disjoint_versions (<[id := e1]> h) k.
Proof.
  intros Hd Hid Hv Hl Hs Hu. apply disjoint_insert.
  - apply (disjoint_subset h); [apply delete_subseteq|done].
  - intros x e' Hx Hne Hv' Hlt. rewrite Hl in *. by apply (Hd x e' id e).
  - intros x e' Hx Hne Hv' Hlt. rewrite Hl in Hlt.
    destruct (Hd id e x e' Hid Hx Hv Hv' Hlt) as [Hs' _]. split; [auto|]. by apply (Hu Hs' x).
Qed.

(** An extension. *)
Lemma Rest_extend (s s2 : Store_t) k id e e1 i d tags time :
  e1 = implicit s i time e ->
  (exists t, covers (lastInvalTime s) (interval e1) t /\ covers (lastInvalTime s) i t) ->
  Inv s2 -> heap s !! id = Some e -> vset e = k -> lower (interval e) < upper i ->
  (forall x e', heap s !! x = Some e' -> vset e' = k -> x <> id ->
     lower (interval e') < lower (interval e) \/ upper i <= lower (interval e')) ->
  same_config s s2 -> Store_Footprint s2 = Store_Footprint s ->
  vset e1 = vset e /\ data e1 = data e /\ lower (interval e1) = lower (interval e) ->
  (stillValid (interval e) = false -> e1 = e) ->
  d = data e1 -> lower (interval e1) <= lower i ->
  heap s2 = (if upper (interval e1) <? upper i
             then <[id := set_interval (set_upper (upper i) (interval e1)) e1]> (<[id := e1]> (heap s))
             else <[id := e1]> (heap s)) ->
  outcome s s2 k i d tags time true /\
  (disjoint_versions (heap s) k -> disjoint_versions (heap s2) k).
Proof.
  intros Ei Hov HI2 Hid Hv Hlt Ho C F (Ev & Ed & El) He1 Hd Hl Hh.
  set (e2 := if upper (interval e1) <? upper i
             then set_interval (set_upper (upper i) (interval e1)) e1 else e1).
  assert (Hh2 : heap s2 = <[id := e2]> (heap s)).
  { rewrite Hh. subst e2. case_if; [by rewrite insert_insert_eq|done]. }
  assert (E2 : vset e2 = k /\ data e2 = d /\ lower (interval e2) = lower (interval e) /\
    upper i <= upper (interval e2) /\ stillValid (interval e2) = stillValid (interval e1) /\
    (upper (interval e2) = upper i \/ e2 = e1) /\ origin s k i d tags time e2).
  { subst e2. destruct (Z.ltb_spec (upper (interval e1)) (upper i)); cbn; split_and!; auto;
      try (congruence || lia).
    - by apply (origin_extended _ _ _ _ _ _ id e).
    - rewrite Ei. by apply (origin_implicit _ _ _ _ _ _ id). }
  clearbody e2. destruct E2 as (Ev2 & Ed2 & El2 & Hu2 & Es2 & Hor & Hog). split.
  - split; try done.
    + by eapply others_kept_update.
    + intros x a. rewrite Hh2. intros [[_ <-]|[_ Hx]]%lookup_insert_Some; [done|].
      by eapply origin_old.
    + intros _. exists id, e2. rewrite Hh2, lookup_insert_eq. split_and!; try done; lia.
    + intros _. right. split; [lia|]. by exists id, e.
  - intros Hdis. rewrite Hh2. apply (disjoint_update _ _ _ e); try done.
    + intros Hs. rewrite Es2, He1 by done. done.
    + intros Hs x e' Hx Hv' Hne Hlow. destruct (Ho x e' Hx Hv' Hne) as [?|Hge]; [lia|].
      destruct Hor as [-> | ->]; [done|]. rewrite He1 by done.
      by destruct (Hdis id e x e' Hid Hx Hv Hv' Hlow).
Qed.

Lemma args_ok_update (s s2 : Store_t) id e e1 i d tags al :
  args_ok s i d tags al -> heap s !! id = Some e -> heap s2 = <[id := e1]> (heap s) ->
  same_config s s2 -> same_table s s2 -> args_ok s2 i d tags al.
Proof.
  intros [? ? ? ? ? ? Hn Ht Hm] Hid Hh (C & _) (_ & T & _). split; try done.
  - intros x Hx. destruct (Hn x Hx) as [? Hx0]. split; [done|]. rewrite Hh.
    rewrite lookup_insert_ne; [done|]. congruence.
  - unfold table_small in *. by rewrite T.
  - by rewrite C.
Qed.

(** The entry is not extended, and still open only when the put overlaps it. *)
Lemma not_extended (s : Store_t) id e i time d :
  heap s !! id = Some e -> interval_ok (interval e) -> interval_ok i -> lower (interval e) < upper i ->
  consistent_put s (vset e) i d ->
  ~ ((exists t, covers (lastInvalTime s) (interval (implicit s i time e)) t /\
                covers (lastInvalTime s) i t) /\
     d = data (implicit s i time e) /\ lower (interval (implicit s i time e)) <= lower i) ->
  stillValid (interval (implicit s i time e)) = false.
Proof.
  intros Hid He Hi Hlt [Hc _] Hn. destruct (stillValid _) eqn:S; [|done].
  destruct (implicit_eq s i time e) as (_ & _ & _ & _ & _ & Hs). destruct (Hs S) as [Hnow E1].
  rewrite E1 in *. exfalso. apply Hn.
  assert (Hex : exists t, covers (lastInvalTime s) (interval e) t /\ covers (lastInvalTime s) i t).
  { exists (Z.max (lower (interval e)) (lower i)). unfold covers, eff_upper, interval_ok in *.
    rewrite S. destruct (stillValid i); lia. }
  split; [done|]. by apply (Hc id e).
Qed.

Lemma Rest_new (s s2 : Store_t) ids k id e i d tags al time :
  let e1 := implicit s i time e in
  Inv s -> Inv s2 -> args_ok s i d tags al -> (stillValid i = false -> tags = []) ->
  dom (lines s2) = dom (lines s) ->
  lines s2 !! k = Some ids -> heap s !! id = Some e -> vset e = k -> key_ok k ->
  lower (interval e) < upper i ->
  (forall x e', heap s !! x = Some e' -> vset e' = k -> x <> id ->
     lower (interval e') < lower (interval e) \/ upper i <= lower (interval e')) ->
  heap s2 = <[id := e1]> (heap s) -> same_config s s2 -> same_table s s2 ->
  ~ ((exists t, covers (lastInvalTime s) (interval e1) t /\ covers (lastInvalTime s) i t) /\
     d = data e1 /\ lower (interval e1) <= lower i) ->
  (exists s' ok, Put_New s2 (Some id) k i d tags al time = Ok (s', ok) /\ outcome s s' k i d tags time ok /\
    (disjoint_versions (heap s) k -> consistent_put s k i d -> disjoint_versions (heap s') k)) \/
  (exists f, Put_New s2 (Some id) k i d tags al time = Fault f /\ add_fails s k d tags al f).
Proof.
  intros e1 HI HI2 HA Hst Hd2 Hk Hid Hv Hkey Hlt Ho Hh C T Hn.
  destruct (implicit_eq s i time e) as (Ev & Ed & El & Eu & Ec & _). fold e1 in Ev, Ed, El, Eu, Ec.
  pose proof (args_ok_update s s2 id e e1 i d tags al HA Hid Hh C T) as HA2.
  pose proof (ao_interval _ _ _ _ _ HA) as Hi.
  assert (Hid2 : heap s2 !! id = Some e1) by (rewrite Hh; apply lookup_insert_eq).
  assert (Hoth : others_kept k s s2) by (eapply others_kept_update; [|done]; congruence).
  assert (Hor : forall x a, heap s2 !! x = Some a -> origin s k i d tags time a).
  { intros x a. rewrite Hh. intros [[_ <-]|[_ Hx]]%lookup_insert_Some;
      [by eapply origin_implicit|by eapply origin_old]. }
  assert (Hd1 : disjoint_versions (heap s) k -> disjoint_versions (heap s2) k).
  { intros Hd. rewrite Hh. apply (disjoint_update _ _ _ e); try done.
    - intros Hs. by rewrite Ec.
    - intros Hs x e' Hx Hv' _ Hl. rewrite Ec by done. by destruct (Hd id e x e' Hid Hx Hv Hv' Hl). }
  destruct (New_ok s2 k ids id e1 i d tags al time HI2 HA2 Hst Hk Hid2 Hkey)
    as [(s' & ok & -> & HI' & C' & Hr)|(f & -> & Hf)].
  2:{ right. exists f. split; [done|]. apply (add_fails_from s s2); try done. intros _ _ _ _. by exists id, e. }
  cbv zeta in Hr. left. exists s', ok. split; [done|]. destruct (_ && _) eqn:B.
  { destruct Hr as [-> ->]. split; [split; done|auto]. }
  destruct Hr as (s0 & (t & c & ->) & Hi' & Ha).
  set (i' := if _ <? _ then _ else i) in *.
  assert (Ei : upper i' = upper i /\ stillValid i' = stillValid i /\ upper (interval e1) <= lower i' /\
    (lower i < lower i' -> lower i' = upper (interval e)) /\ lower i <= lower i').
  { subst i'. destruct (Z.ltb_spec (lower i) (upper (interval e1))); cbn; split_and!; done || lia. }
  clearbody i'. destruct Ei as (Eu' & Es' & Hle & Hlow & Hlow').
  destruct (added_heap _ _ _ _ _ _ _ _ _ Ha) as [Ho' Hs']. split.
  - split; try done.
    + by etrans.
    + by etrans.
    + intros x a Hx. destruct (added_entries _ _ _ _ _ _ _ _ _ _ _ Ha Hx) as [->|Hx2].
      * by apply origin_new.
      * by apply (Hor x).
    + intros E. destruct (Hs' E) as (x & Hx & _). eapply (stored_new _ _ _ _ i'); try done.
      intros Hl. exists id, e. split_and!; try done. by rewrite Hlow.
    + intros E. destruct (Hs' E) as (x & _ & Hf). left. by destruct C as (<- & _).
  - intros Hd Hc. apply (disjoint_added _ _ _ _ _ _ _ _ _ _ Ha Hh Hi').
    + intros x a. rewrite <- Hh. intros Hx. apply (inv_entry s2 HI2 x a Hx).
    + intros x Hx. rewrite <- Hh. apply (ao_node _ _ _ _ _ HA2 x Hx).
    + rewrite <- Hh. auto.
    + pose proof (not_extended s id e i time d Hid) as Hsv. rewrite Hv in Hsv.
      destruct (inv_entry s HI id e Hid) as [_ [Hie _]].
      intros x a [[<- <-]|[Hne Hx]]%lookup_insert_Some Hva; [left; by auto|].
      destruct (Ho x a Hx Hva ltac:(congruence)) as [Hl|Hge].
      * left. destruct (Hd x a id e Hx Hid Hva Hv Hl). unfold interval_ok in Hie.
        pose proof (inv_entry s2 HI2 id e1 Hid2) as [_ [Hi1 _]]. unfold interval_ok in Hi1.
        split; [done|]. lia.
      * right. rewrite Es', Eu'. split; [|done]. destruct Hc as [_ Hc]. by apply (Hc x a).
Qed.

Lemma Rest_some (s : Store_t) ids k id e i d tags al time :
  Inv s -> args_ok s i d tags al -> (stillValid i = false -> tags = []) ->
  lines s !! k = Some ids -> heap s !! id = Some e -> vset e = k -> key_ok k ->
  lower (interval e) < upper i ->
  (forall x e', heap s !! x = Some e' -> vset e' = k -> x <> id ->
     lower (interval e') < lower (interval e) \/ upper i <= lower (interval e')) ->
  let rest :=
    s ← Put_Implicit s (Some id) i time;
    '(s, done) ← Store_TryExtendInterval s (Some id) i k d;
    if (done : bool) then Ok (s, true) else Put_New s (Some id) k i d tags al time in
  (exists s' ok, rest = Ok (s', ok) /\ outcome s s' k i d tags time ok /\
    (disjoint_versions (heap s) k -> consistent_put s k i d -> disjoint_versions (heap s') k)) \/
  (exists f, rest = Fault f /\ add_fails s k d tags al f).
Proof.
  cbv zeta. intros HI HA Hst Hk Hid Hv Hkey Hlt Ho. pose proof (ao_interval _ _ _ _ _ HA) as Hi.
  destruct (Implicit_ok s id e i time HI Hid) as (s1 & -> & HI1 & Hl1 & Hb1 & C1 & T1 & B1 & Hh1).
  cbv zeta in Hh1. fold (implicit s i time e) in Hh1. rewrite bind_ret_l.
  destruct (implicit_eq s i time e) as (Ev & Ed & El & Eu & Ec & _).
  destruct (TryExtend_ok s1 id (implicit s i time e) i k d HI1) as
    (s2 & b & -> & HI2 & Hb & Hh2 & Hl2 & _ & Hb2 & C2 & T2 & B2); [by rewrite Hh1, lookup_insert_eq|done|done|].
  rewrite bind_ret_l. pose proof C1 as (_ & Ct & _). rewrite Ct in Hb.
  assert (C : same_config s s2) by (by etrans). assert (T : same_table s s2) by (by etrans).
  destruct b; cbn [andb] in Hh2.
  - destruct (proj1 Hb eq_refl) as (Hov & Hd & Hlow). left. exists s2, true. split; [done|].
    rewrite Hh1 in Hh2.
    destruct (Rest_extend s s2 k id e (implicit s i time e) i d tags time eq_refl Hov HI2 Hid Hv Hlt Ho C) as [Hout Hdis];
      try done; [|by auto].
    apply Footprint_same; [done|congruence].
  - eapply (Rest_new s s2 ids k id e); try done; try congruence.
    intros Hx. by apply Hb in Hx.
Qed.

Lemma Rest_ok (s : Store_t) ids k i d tags force al time :
  Inv s -> args_ok s i d tags al -> (stillValid i = false -> tags = []) ->
  lines s !! k = Some ids -> key_ok k ->
  (exists s' ok, Put_rest s ids k i d tags force al time = Ok (s', ok) /\
    outcome s s' k i d tags time ok /\
    (force = false -> disjoint_versions (heap s) k -> consistent_put s k i d ->
       disjoint_versions (heap s') k)) \/
  (exists f, Put_rest s ids k i d tags force al time = Fault f /\ add_fails s k d tags al f).
Proof.
  intros HI HA Hst Hk Hkey. unfold Put_rest. cbv zeta.
  pose proof (find_LT s k ids (upper i) HI Hk) as HF.
  destruct (StoreVSetTree_Find s ids (upper i) RB_LT) as [id|].
  2:{ cbn [Put_Force Put_Implicit Put_New]. rewrite !bind_ret_l.
      destruct (Rest_none s ids k i d tags al time HI HA Hst Hk HF) as [(s' & ok & E & Ho & Hd)|?]; [|by right].
      left. exists s', ok. split; [exact E|]. auto. }
  destruct HF as (e & Hid & Hv & Hlt & Ho). cbn [Put_Force]. destruct force.
  - destruct (RemoveEntry_ok s id e HI Hid) as (s1 & -> & HI1 & Hh1 & (ids1 & Hk1 & Hl1) & Hb1 & _ & C1 & T1 & B1).
    rewrite !bind_ret_l. cbn [Put_Implicit]. rewrite bind_ret_l.
    cbn [Put_New]. unfold Store_TryExtendInterval. rewrite !bind_ret_l.
    assert (Hh : heap s1 ⊆ heap s) by (rewrite Hh1; apply delete_subseteq).
    destruct (Add_ok s1 k (filter (fun x => x <> id) ids1) i d tags al time HI1)
      as [(s' & ok & -> & HI' & Ha & _ & C & _)|(f & -> & Hf)]; [|done|by rewrite Hl1, Hv, lookup_insert_eq| |].
    { apply (Inv_weaken_node s s1); try done; [apply T1|apply C1]. }
    2:{ right. exists f. split; [done|]. apply (add_fails_from s s1); try done.
        - rewrite Hl1. by apply dom_insert_lookup_L.
        - intros x a Hx Hva. exists x, a. split; [by eapply lookup_weaken|done]. }
    left. exists s', ok. split; [done|]. split; [|done].
    pose proof (ao_interval _ _ _ _ _ HA) as Hi.
    destruct (outcome_add s1 s' k i d tags al time ok Hi HI' C Ha) as [? Oc Oo Oe _ _].
    destruct (added_heap _ _ _ _ _ _ _ _ _ Ha) as [_ Hs']. split; try done.
    + by etrans.
    + etrans; [|exact Oo]. by apply others_kept_subset.
    + intros x a Hx. destruct (added_entries _ _ _ _ _ _ _ _ _ _ _ Ha Hx) as [->|Hx2].
      * apply origin_new; done || lia.
      * apply (origin_old _ _ _ _ _ _ x). by eapply lookup_weaken.
    + intros E. destruct (Hs' E) as (x & Hx & _). eapply (stored_new _ _ _ _ i); try done. lia.
    + intros E. destruct (Hs' E) as (x & _ & Hf). left. by destruct C1 as (<- & _).
  - rewrite bind_ret_l.
    destruct (Rest_some s ids k id e i d tags al time) as [(s' & ok & E & Hout & Hd)|?]; try done; [|by right].
    left. exists s', ok. split; [exact E|]. auto.
Qed.

Lemma put_interval_ok (s : Store_t) i tags :
  Inv s -> interval_ok i ->
  interval_ok (put_interval s i tags) /\ lower (put_interval s i tags) = lower i /\
  upper i <= upper (put_interval s i tags) /\
  (stillValid (put_interval s i tags) = true -> stillValid i = true) /\
  (if stillValid i then Store_TruncateIfAlreadyInvalidated s i tags else Ok i) =
    Ok (put_interval s i tags).
Proof.
  intros HI Hi. unfold put_interval. destruct (stillValid i) eqn:S; [|split_and!; done || congruence || lia].
  destruct (TruncateIf_ok s i tags HI Hi S) as (i' & -> & Hi' & El & Hu & _). by split_and!.
Qed.

Lemma Footprint_le (s s' : Store_t) :
  Inv s -> Inv s' -> table_small s -> same_table s s' -> heap s' ⊆ heap s ->
  Store_Footprint s' <= Store_Footprint s.
Proof.
  intros HI HI' Ht T Hh. pose proof T as (Tp & Tc & Tk).
  destruct (Footprint_eq s HI Ht) as (-> & _).
  destruct (Footprint_eq s' HI') as (-> & _); [unfold table_small in *; by rewrite Tc|].
  rewrite Tp, Tc, Tk, (inv_entryBytes s HI), (inv_entryBytes s' HI').
  enough (msum entry_size (heap s') <= msum entry_size (heap s)) by lia.
  apply msum_subseteq; [|done]. intros x e He. apply (inv_entry s HI) in He as [_ He].
  pose proof (entry_footprint_pos e He). unfold entry_size. lia.
Qed.

Lemma stored_weaken (s s1 s' : Store_t) k i d :
  heap s1 ⊆ heap s -> stored s1 s' k i d -> stored s s' k i d.
Proof.
  intros Hh (id & e & H1 & H2 & H3 & H4 & Hl). exists id, e. split_and!; try done; try lia.
  intros Hlt. destruct (Hl Hlt) as (x & e' & Hx & Hr). exists x, e'. split; [|done].
  by eapply lookup_weaken.
Qed.

Lemma origin_weaken (s s1 : Store_t) k i d tags time e :
  heap s1 ⊆ heap s -> lastInvalTime s1 = lastInvalTime s ->
  origin s1 k i d tags time e -> origin s k i d tags time e.
Proof.
  intros Hh El. assert (Ei : forall e, implicit s1 i time e = implicit s i time e).
  { intros a. unfold implicit. by rewrite El. }
  intros [id a Ha|id a Ha Hv|id a e1 Ha Hv He1|i' Hi']; rewrite ?El in *; rewrite ?Ei in *.
  - apply (origin_old _ _ _ _ _ _ id). by eapply lookup_weaken.
  - apply (origin_implicit _ _ _ _ _ _ id); [by eapply lookup_weaken|done].
  - apply (origin_extended _ _ _ _ _ _ id a); try done. by eapply lookup_weaken.
  - by apply origin_new.
Qed.

(** Why [Store_Put] does not return. *)
Definition put_fails (s : Store_t) (k : key) (d : list Z) (tags : list tag) (al : allocs) (f : fault) : Prop :=
  (maxBytes s < bytes_with s k (entry_bytes d tags) /\
   exists s', Inv s' /\ heap s' = ∅ /\ dom (lines s') = {[k]} ∪ dom (lines s) /\ same_config s s' /\
     Store_PrintStats s' true (classes s') = Fault f) \/
  (f = OutOfMemory /\ al_node al = None /\ exists x e, heap s !! x = Some e /\ vset e = k).

Lemma bytes_with_same (s s1 : Store_t) k n :
  dom (lines s1) = dom (lines s) -> same_table s s1 -> bytes_with s1 k n = bytes_with s k n.
Proof.
  intros Hd (T1 & T2 & T3). unfold bytes_with, table_with. rewrite T1, T2, T3.
  assert (HS : is_Some (lines s1 !! k) <-> is_Some (lines s !! k)) by (by rewrite <- !elem_of_dom, Hd).
  destruct (lines s1 !! k), (lines s !! k); try done; exfalso.
  - destruct (proj1 HS) as [? [=]]. eauto.
  - destruct (proj2 HS) as [? [=]]. eauto.
Qed.

(** The failure of the part of a put that follows the search for the key. *)
Lemma put_fails_from (s s1 s2 : Store_t) k d tags al f :
  dom (lines s1) = dom (lines s) -> same_table s s1 -> same_config s s2 -> heap s2 ⊆ heap s ->
  dom (lines s2) = {[k]} ∪ dom (lines s1) -> (ht_power s2, ht_count s2, keyBytes s2) = table_with s1 k ->
  add_fails s2 k d tags al f -> put_fails s k d tags al f.
Proof.
  intros Hd T C Hh Hd2 E [(Hm & s' & HI' & He & Hd' & C' & _ & Hp)|(-> & Hn & x & e & Hx & Hv)].
  - left. split.
    + rewrite <- (bytes_with_same s s1) by done. unfold bytes_with. rewrite <- E. pose proof C as (<- & _). exact Hm.
    + exists s'. split_and!; try done; [congruence|by etrans].
  - right. split_and!; try done. exists x, e. split; [by eapply lookup_weaken|done].
Qed.

Lemma Put_ok (s : Store_t) k i d tags force al time :
  Inv s -> put_args s k i d tags al ->
  let tags' := if stillValid (put_interval s i tags) then tags else [] in
  (exists s' ok, Store_Put s k i d tags force al time = Ok (s', ok) /\
    outcome s s' k (put_interval s i tags) d tags' time ok /\
    (force = false -> disjoint_versions (heap s) k ->
       consistent_put s k (put_interval s i tags) d -> disjoint_versions (heap s') k)) \/
  (exists f, Store_Put s k i d tags force al time = Fault f /\ put_fails s k d tags' al f).
Proof.
  intros HI HA. cbv zeta. unfold Store_Put. destruct (stillValid i && bool_decide (tags = [])) eqn:B.
  { left. exists s, false. split; [done|]. split; [|done]. split; try done. intros id e. apply origin_old. }
  destruct (put_interval_ok s i tags HI (pa_interval _ _ _ _ _ _ HA)) as (Hi & _ & _ & Hsv & ->).
  rewrite bind_ret_l. set (i' := put_interval s i tags) in *.
  assert (Ht : stillValid i' = true -> tags <> []).
  { intros S. rewrite (Hsv S) in B. cbn in B. by apply bool_decide_eq_false in B. }
  clearbody i'. cbv zeta. set (tags' := if stillValid i' then tags else []).
  destruct (RemoveUseless_ok s time HI) as (s1 & -> & HI1 & Hh1 & Hdl & _ & _ & C1 & T1 & B1).
  rewrite bind_ret_l. pose proof T1 as (_ & Tc & Tk). pose proof C1 as (Cm & Cl & _).
  pose proof (pa_key _ _ _ _ _ _ HA) as Hkey.
  assert (Hd1 : disjoint_versions (heap s) k -> disjoint_versions (heap s1) k)
    by (by apply disjoint_subset).
  destruct (VSet_ok s1 k al HI1 Hkey) as (s2 & v & -> & HI2 & Hh2 & Hv & Hsame & Hl & Hc & C2 & B2 & _).
  { rewrite Tk. apply HA. }
  rewrite bind_ret_l. assert (C : same_config s s2) by (by etrans).
  assert (Hh : heap s2 ⊆ heap s) by (by rewrite Hh2).
  destruct v as [ids|].
  2:{ left. exists s2, false. split; [done|]. rewrite Hh2. split; [|auto]. split; try done.
      - by apply others_kept_subset.
      - intros id e He. apply (origin_old _ _ _ _ _ _ id). by eapply lookup_weaken. }
  fold (Put_rest s2 ids k i' d tags' force al time).
  destruct (Hl ids eq_refl) as (Hl1 & Hl2 & Hl3).
  destruct (Rest_ok s2 ids k i' d tags' force al time HI2) as [(s' & ok & -> & Ho & Hd)|(f & -> & Hf)].
  { apply (args_of_put s s2 k i d tags al i' HA); try done; [lia|apply C]. }
  { subst tags'. by intros ->. }
  { done. }
  { done. }
  2:{ right. exists f. split; [done|]. by apply (put_fails_from s s1 s2). }
  left. exists s', ok. split; [done|]. split.
  - destruct Ho as [O1 O2 O3 Oe O4 O5]. split; [done|by etrans| |..].
    + etrans; [|exact O3]. by apply others_kept_subset.
    + intros id e He. eapply origin_weaken; [exact Hh|apply C|by eapply Oe].
    + intros E. eapply stored_weaken; [exact Hh|auto].
    + intros E. pose proof C as (Cm2 & _). destruct (O5 E) as [Hm|(Hf & x & e & Hx & Hvx)]; [left; lia|].
      right. rewrite Hh2 in Hx. assert (s2 = s1) as ->.
      { apply Hsame. rewrite <- Hvx. by apply (inv_vset s1 HI1 x). }
      pose proof (pa_table _ _ _ _ _ _ HA).
      pose proof (Footprint_le s s1 HI HI1 ltac:(unfold table_small; lia) T1 Hh1).
      split; [lia|]. exists x, e. split; [by eapply lookup_weaken|done].
  - intros Hf Hdis [Hc1 Hc2]. apply Hd; [done|rewrite Hh2; by auto|]. pose proof C as (_ & Cl2 & _).
    unfold consistent_put. rewrite Cl2. split.
    + intros x e Hx. apply (Hc1 x e). by eapply lookup_weaken.
    + intros x e Hx. apply (Hc2 x e). by eapply lookup_weaken.
Qed.

(** The entry fits next to the keys, and there is memory for its node where a version
    set is not empty. *)
Definition put_fits (s : Store_t) (k : key) (d : list Z) (tags : list tag) (al : allocs) : Prop :=
  bytes_with s k (entry_bytes d tags) <= maxBytes s /\
  (al_node al = None -> forall x e, heap s !! x = Some e -> vset e <> k).

Lemma entry_bytes_no_tags d tags :
  Z.of_nat (length d) < 2 ^ 61 -> Store_CopyInvalTagsLen tags < 2 ^ 61 -> entry_bytes d [] <= entry_bytes d tags.
Proof.
  intros Hd Ht. pose proof (CopyInvalTagsLen_nonneg tags) as H0. unfold entry_bytes.
  rewrite (proj1 (EntryFootprint_pos (Z.of_nat (length d)) (Store_CopyInvalTagsLen tags) ltac:(lia) ltac:(lia))).
  rewrite (proj1 (EntryFootprint_pos (Z.of_nat (length d)) (Store_CopyInvalTagsLen []) ltac:(lia) ltac:(by cbn; lia))).
  enough (MALLOC_SIZE (Store_CopyInvalTagsLen []) <= MALLOC_SIZE (Store_CopyInvalTagsLen tags)) by lia.
  change (MALLOC_SIZE (Store_CopyInvalTagsLen [])) with 32. apply MALLOC_SIZE_pos. lia.
Qed.

Lemma bytes_with_mono (s : Store_t) k n n' : n <= n' -> bytes_with s k n <= bytes_with s k n'.
Proof. intros Hn. unfold bytes_with. destruct (table_with s k) as [[pw c] kb]. lia. Qed.

Lemma put_returns (s : Store_t) k i d tags al f (b : bool) :
  put_args s k i d tags al -> put_fits s k d tags al -> ~ put_fails s k d (if b then tags else []) al f.
Proof.
  intros HA [Hf Hn] [[Hm _]|(_ & Ha & x & e & Hx & Hv)]; [|by apply (Hn Ha x e)].
  pose proof (entry_bytes_no_tags d tags (pa_data _ _ _ _ _ _ HA) (pa_tagsLen _ _ _ _ _ _ HA)).
  pose proof (bytes_with_mono s k (entry_bytes d (if b then tags else [])) (entry_bytes d tags)).
  destruct b; lia.
Qed.

End Put.
