(* ===== verification/StoreProps.v ===== *)
(** * Properties of the store

    What the operations of the store promise their callers: lookups, insertions,
    invalidations, eviction, and that no sequence of calls reaches an abort or a
    memory error. *)

From S2P Require Import Prelude CLib Interval Truth Memory Hash DblList OrdTree Eviction StoreData StatsText Store StoreInv StoreInval StorePut.

(** ** Lookup *)

(** The policies a store is created with. *)
Definition policy_table : list (option StoreLookupPolicy_t) :=
  [Some LookupPolicy_Latest; None; Some LookupPolicy_ScrewConsistency].

(** [id] is the version of [k] that starts last among those that start before [u]. *)
Definition latest_before (h : gmap Z entry_t) (k : key) (u id : Z) (e : entry_t) : Prop :=
  h !! id = Some e /\ vset e = k /\ lower (interval e) < u /\
  forall x e', h !! x = Some e' -> vset e' = k -> lower (interval e') < u -> x <> id ->
    lower (interval e') < lower (interval e).

(** When a policy returns the version it looks at. *)
Definition accepts (policyId now : Z) (i : interval_t) (earliestPin : Z) (e : entry_t) : Prop :=
  if policyId =? LOOKUP_POLICY_LATEST then exists t, covers now (interval e) t /\ covers now i t
  else if policyId =? LOOKUP_POLICY_SCREW_CONSISTENCY then
    stillValid (interval e) = true \/ earliestPin <= upper (interval e)
  else False.

Definition count_hit (e : entry_t) : entry_t := set_hitCount (s32 (hitCount e + 1)) e.

Section Props.

Context {P : Type} `{!EvictionPolicy P} `{!EvictionPolicyLaws P}.

Notation Store_t := (Store_t P).

Definition lookup_result (s : Store_t) (k : key) (i : interval_t) (earliestPin policyId : Z)
    (r : option Z) : Prop :=
  forall id, r = Some id <-> exists e, latest_before (heap s) k (upper i) id e /\
    accepts policyId (lastInvalTime s) i earliestPin e.

Lemma latest_unique h k u id e id' e' :
  latest_before h k u id e -> latest_before h k u id' e' -> id = id' /\ e = e'.
Proof.
  intros (H1 & H2 & H3 & H4) (H1' & H2' & H3' & H4').
  destruct (decide (id = id')) as [->|Hne]; [split; congruence|].
  pose proof (H4 id' e' H1' H2' H3' ltac:(done)). pose proof (H4' id e H1 H2 H3 ltac:(done)). lia.
Qed.

(** The version every policy looks at. *)
Lemma find_latest (s : Store_t) k ids u :
  Inv s -> lines s !! k = Some ids ->
  match StoreVSetTree_Find s ids u RB_LT with
  | None => forall id e, ~ latest_before (heap s) k u id e
  | Some id => exists e, latest_before (heap s) k u id e
  end.
Proof.
  intros HI Hk. pose proof (find_LT s k ids u HI Hk) as HF.
  destruct (StoreVSetTree_Find s ids u RB_LT) as [id|].
  - destruct HF as (e & Hid & Hv & Hlt & Ho). exists e. split_and!; try done.
    intros x e' Hx Hv' Hl Hne. destruct (Ho x e' Hx Hv' Hne); [done|lia].
  - intros id e (Hid & Hv & Hlt & _). specialize (HF id e Hid Hv). lia.
Qed.

Lemma latest_exists (s : Store_t) k u id e :
  Inv s -> heap s !! id = Some e -> vset e = k -> lower (interval e) < u ->
  exists x e', latest_before (heap s) k u x e'.
Proof.
  intros HI Hid Hv Hlt. destruct (inv_vset s HI id e Hid) as [ids Hk]. rewrite Hv in Hk.
  pose proof (find_latest s k ids u HI Hk) as HF. pose proof (find_LT s k ids u HI Hk) as HL.
  destruct (StoreVSetTree_Find s ids u RB_LT) as [x|]; [by exists x|].
  specialize (HL id e Hid Hv). lia.
Qed.

Lemma result_none (s : Store_t) k i earliestPin pid :
  (forall id e, ~ latest_before (heap s) k (upper i) id e) ->
  lookup_result s k i earliestPin pid None.
Proof. intros HF id. split; [done|]. intros (e & He & _). by destruct (HF id e). Qed.

Lemma result_some (s : Store_t) k i earliestPin pid id e (b : bool) :
  latest_before (heap s) k (upper i) id e ->
  (b = true <-> accepts pid (lastInvalTime s) i earliestPin e) ->
  lookup_result s k i earliestPin pid (if b then Some id else None).
Proof.
  intros He Hb id'. split.
  - intros E. destruct b; [|done]. injection E as <-. exists e. split; [done|]. by apply Hb.
  - intros (e' & He' & Ha). destruct (latest_unique _ _ _ _ _ _ _ He He') as [<- <-].
    by rewrite (proj2 Hb Ha).
Qed.

Definition hit_of (o : LookupOutcome_t) : option Z :=
  match o with LOOKUP_HIT id => Some id | _ => None end.

Lemma Latest_ok (s : Store_t) k ids i earliestPin :
  Inv s -> lines s !! k = Some ids -> interval_ok i ->
  exists o, LatestAcceptable_Lookup s ids i earliestPin = Ok o /\
    lookup_result s k i earliestPin LOOKUP_POLICY_LATEST (hit_of o).
Proof.
  intros HI Hk Hi. pose proof (find_latest s k ids (upper i) HI Hk) as HF.
  unfold LatestAcceptable_Lookup.
  destruct (StoreVSetTree_Find s ids (upper i) RB_LT) as [id|]; [|eexists; split; [done|by apply result_none]].
  destruct HF as (e & He). pose proof He as (Hid & _). rewrite Hid. cbn [deref]. rewrite bind_ret_l.
  destruct (inv_entry s HI id e Hid) as [_ [Hie _]].
  pose proof (Overlaps_true_iff (interval e) i (lastInvalTime s) Hie Hi) as HO.
  rewrite Overlaps_eq in HO by done. rewrite Overlaps_eq by done. rewrite bind_ret_l.
  eexists; split; [done|]. rewrite Ok_inj in HO.
  pose proof (result_some s k i earliestPin LOOKUP_POLICY_LATEST id e _ He HO) as HR.
  destruct (_ <? _); [done|]. by destruct (earliestPin <=? _).
Qed.

Lemma Screw_ok (s : Store_t) k ids i earliestPin :
  Inv s -> lines s !! k = Some ids ->
  exists o, ScrewConsistency_Lookup s ids i earliestPin = Ok o /\
    lookup_result s k i earliestPin LOOKUP_POLICY_SCREW_CONSISTENCY (hit_of o).
Proof.
  intros HI Hk. pose proof (find_latest s k ids (upper i) HI Hk) as HF.
  unfold ScrewConsistency_Lookup.
  destruct (StoreVSetTree_Find s ids (upper i) RB_LT) as [id|]; [|eexists; split; [done|by apply result_none]].
  destruct HF as (e & He). pose proof He as (Hid & _). rewrite Hid. cbn [deref]. rewrite bind_ret_l.
  eexists; split; [done|].
  assert (HR : lookup_result s k i earliestPin LOOKUP_POLICY_SCREW_CONSISTENCY
    (if stillValid (interval e) || (earliestPin <=? upper (interval e)) then Some id else None)).
  { apply (result_some _ _ _ _ _ id e); [done|]. unfold accepts. cbn [LOOKUP_POLICY_LATEST
      LOOKUP_POLICY_SCREW_CONSISTENCY Z.eqb Pos.eqb]. by rewrite orb_true_iff, Z.leb_le. }
  by destruct (_ || _).
Qed.

(** Everything but the statistics, the hit count and the order of eviction is
    as before. *)
Definition lookup_frame (s s' : Store_t) (r : option Z) : Prop :=
  heap s' = match r with Some id => alter count_hit id (heap s) | None => heap s end /\
  lines s' = lines s /\ invalMap s' = invalMap s /\ invTimeOrder s' = invTimeOrder s /\
  entryBytes s' = entryBytes s /\ same_config s s' /\ same_table s s' /\ same_buffer s s'.

Lemma stats_frame (s s1 : Store_t) : stats_only s s1 -> lookup_frame s s1 None.
Proof. intros (t & c & ->). split_and!; done. Qed.

Lemma stats_trans (s s1 s2 : Store_t) : stats_only s s1 -> stats_only s1 s2 -> stats_only s s2.
Proof. intros (t & c & ->) (t' & c' & ->). by exists t', c'. Qed.

Lemma hit_ok (s s1 s2 : Store_t) id e p :
  Inv s -> stats_only s s1 -> heap s !! id = Some e -> ep_tracks p (dom (heap s)) ->
  stats_only (set_evictionPolicyState p s1) s2 ->
  Inv (set_heap (<[id := count_hit e]> (heap s2)) s2) /\
  lookup_frame s (set_heap (<[id := count_hit e]> (heap s2)) s2) (Some id).
Proof.
  intros HI (t & c & ->) Hid Hp (t' & c' & ->). split.
  - apply (Inv_update _ id e); try done; [|by apply (inv_entry s HI id e)].
    eapply Inv_stats; [by eexists _, _|]. apply Inv_policy; [|done].
    eapply Inv_stats; [by eexists _, _|done].
  - split; [|split_and!; done]. cbn. symmetry.
    rewrite <- (insert_id (heap s) id e Hid) at 1.
    by rewrite alter_insert_eq.
Qed.

Lemma Lookup_ok (s : Store_t) k i earliestPin pid :
  Inv s -> lookupPolicyTable s = policy_table -> key_ok k -> interval_ok i -> 0 <= pid < 3 ->
  exists s' r, Store_Lookup s k i earliestPin pid = Ok (s', r) /\ Inv s' /\
    lookup_frame s s' r /\ lookup_result s k i earliestPin pid r.
Proof.
  intros HI HT Hkey Hi Hpid. unfold Store_Lookup.
  destruct (MODSTAT_ok s k add_lookup (inv_room s HI) Hkey) as (s1 & -> & HS1). rewrite bind_ret_l.
  pose proof (Inv_stats _ _ HS1 HI) as HI1.
  assert (E1 : heap s1 = heap s /\ lines s1 = lines s /\ lookupPolicyTable s1 = policy_table /\
    evictionPolicyState s1 = evictionPolicyState s /\ lastInvalTime s1 = lastInvalTime s).
  { destruct HS1 as (t & c & ->). split_and!; done. }
  destruct E1 as (Eh & El & Et & Ep & Ei). rewrite El.
  assert (Hmiss : forall f, lookup_result s k i earliestPin pid None ->
    exists s' r, (s2 ← MODSTAT s1 k f; Ok (s2, None)) = Ok (s', r) /\ Inv s' /\
      lookup_frame s s' r /\ lookup_result s k i earliestPin pid r).
  { intros f HR. destruct (MODSTAT_ok s1 k f (inv_room s1 HI1) Hkey) as (s2 & -> & HS2). rewrite bind_ret_l.
    exists s2, None. pose proof (stats_trans _ _ _ HS1 HS2) as HS.
    split_and!; try done; [by eapply Inv_stats|by apply stats_frame]. }
  destruct (lines s !! k) as [ids|] eqn:Hk.
  2:{ apply Hmiss, result_none. intros id e (Hid & Hv & _).
      destruct (inv_vset s HI id e Hid) as [? ?]. congruence. }
  rewrite (proj2 (Z.ltb_ge pid 0)) by lia. rewrite Et.
  assert (HP : match policy_table !! Z.to_nat pid with
    | None => False
    | Some None => lookup_result s k i earliestPin pid None
    | Some (Some p) => exists o, policy_lookup p s1 ids i earliestPin = Ok o /\
        lookup_result s1 k i earliestPin pid (hit_of o) end).
  { rewrite <- El in Hk. assert (pid = 0 \/ pid = 1 \/ pid = 2) as [->|[->| ->]] by lia; cbn.
    - by apply Latest_ok.
    - intros id. split; [done|]. by intros (e & _ & []).
    - by apply Screw_ok. }
  destruct (policy_table !! Z.to_nat pid) as [[p|]|]; [|exists s1, None; split_and!; try done; by apply stats_frame|done].
  destruct HP as (o & -> & HR). rewrite bind_ret_l.
  unfold lookup_result in HR. rewrite Eh, Ei in HR. fold (lookup_result s k i earliestPin pid (hit_of o)) in HR.
  destruct o as [id| | |]; cbn [hit_of] in HR; try (by apply Hmiss).
  destruct (proj1 (HR id) eq_refl) as (e & (Hid & _) & _). rewrite Ep.
  destruct (ep_hit_tracks _ _ id (inv_policy s HI)) as (q & -> & Hq); [by eapply elem_of_dom_2|].
  rewrite bind_ret_l.
  destruct (MODSTAT_ok (set_evictionPolicyState q s1) k add_hit (inv_room s1 HI1) Hkey) as (s2 & -> & HS2).
  rewrite bind_ret_l. cbv zeta.
  destruct (hit_ok s s1 s2 id e q HI HS1 Hid Hq HS2) as [HI' HF].
  assert (heap s2 = heap s) as Eh2 by (destruct HS2 as (t & c & ->); done).
  rewrite Eh2, Hid. cbn [deref]. rewrite bind_ret_l. rewrite Eh2 in HI', HF. by eexists _, _.
Qed.

(** ** Creation and eviction *)

Lemma Init_ok maxB uselessB junk :
  exists s : Store_t, Store_Init maxB uselessB true junk = Ok s /\ Inv s /\
    lookupPolicyTable s = policy_table /\ heap s = ∅ /\ lines s = ∅ /\ maxBytes s = maxB /\
    lastInvalTime s = PIN_NEG_INF /\ invalBuffer s = [] /\ ht_count s = 0 /\ keyBytes s = 0.
Proof.
  eexists. split; [reflexivity|]. split; [|split_and!; done]. split; cbn.
  - intros k ids. by rewrite lookup_empty.
  - intros k ids id. by rewrite lookup_empty.
  - intros id e. by rewrite lookup_empty.
  - intros id e. by rewrite lookup_empty.
  - rewrite dom_empty_L. apply ep_init_tracks.
  - exists []. split; [apply Init_is_list|]. intros id. rewrite elem_of_nil. split; [done|].
    intros (e & He & _). by rewrite lookup_empty in He.
  - constructor.
  - intros t id. rewrite elem_of_nil. split; [done|]. intros (e & He & _). by rewrite lookup_empty in He.
  - constructor.
  - intros b. by rewrite elem_of_nil.
  - unfold PIN_NEG_INF, PIN_INF. lia.
  - by rewrite msum_empty.
  - by rewrite msum_empty.
  - unfold bytes_max. lia.
  - intros k [ids Hk]. by rewrite lookup_empty in Hk.
  - by rewrite map_size_empty.
  - done.
Qed.

Lemma no_bytes (s : Store_t) : Inv s -> entryBytes s <= 0 -> heap s = ∅.
Proof.
  intros HI Hb. apply map_empty. intros id. destruct (heap s !! id) as [e|] eqn:He; [|done].
  pose proof (entryBytes_le s id e HI He). destruct (inv_entry s HI id e He) as [_ Hok].
  pose proof (entry_footprint_pos e Hok). lia.
Qed.

Lemma Flush_ok (s : Store_t) :
  Inv s -> lines s <> ∅ ->
  exists s', Store_Flush s = Ok s' /\ Inv s' /\ heap s' = ∅ /\ entryBytes s' = 0 /\
    dom (lines s') = dom (lines s) /\ same_config s s' /\ same_table s s' /\ same_buffer s s'.
Proof.
  intros HI Hne. unfold Store_Flush.
  destruct (Evict_ok s (entryBytes s) HI Hne)
    as [(s' & ok & -> & HI' & _ & Hd & Ht & Hf & C & T & B)|(s' & f & _ & Hlt & _)]; [|lia].
  rewrite bind_ret_l. assert (Hh : heap s' = ∅).
  { destruct ok; [|by apply Hf]. apply no_bytes; [done|]. specialize (Ht eq_refl). lia. }
  exists s'. split_and!; try done. by apply empty_bytes.
Qed.

(** ** Sequences of calls *)

Inductive call : Type :=
| CLookup (k : key) (i : interval_t) (earliestPin policyId : Z)
| CPut (k : key) (i : interval_t) (d : list Z) (tags : list tag) (force : bool) (al : allocs) (time : Z)
| CInvalidate (ts : Z) (tags : list tag) (time : Z)
| CEvict (toFree : Z)
| CFlush
| CRemoveUseless (time : Z)
| CIterReset
| CIterNext.

Definition run (s : Store_t) (c : call) : res Store_t :=
  match c with
  | CLookup k i earliestPin policyId => '(s, _) ← Store_Lookup s k i earliestPin policyId; Ok s
  | CPut k i d tags force al time => '(s, _) ← Store_Put s k i d tags force al time; Ok s
  | CInvalidate ts tags time => Store_Invalidate s ts tags time
  | CEvict toFree => '(s, _) ← Store_Evict s toFree; Ok s
  | CFlush => Store_Flush s
  | CRemoveUseless time => Store_RemoveUseless s time
  | CIterReset => Ok (Store_EvictionOrderIterReset s)
  | CIterNext => '(s, _) ← Store_EvictionOrderIterNext s; Ok s
  end.

(** What the callers have to guarantee. *)
Definition call_ok (s : Store_t) (c : call) : Prop :=
  match c with
  | CLookup k i earliestPin policyId => key_ok k /\ interval_ok i /\ 0 <= policyId < 3
  | CPut k i d tags force al time => put_args s k i d tags al
  | CInvalidate ts tags time =>
    lastInvalTime s < ts < PIN_INF /\ Forall (fun tg => last tg = Some COLON) tags
  | CEvict _ | CFlush => lines s <> ∅
  | CRemoveUseless _ | CIterReset | CIterNext => True
  end.

(** When a call is sure to return: there is room for what is put next to the keys, an
    eviction is asked for no more than there is, and the position of the iterator is
    still an entry. *)
Definition call_fits (s : Store_t) (c : call) : Prop :=
  match c with
  | CPut k i d tags force al time => put_fits s k d tags al
  | CEvict toFree => toFree <= entryBytes s
  | CIterNext => ep_iterable (evictionPolicyState s) (dom (heap s))
  | _ => True
  end.

Inductive reachable (maxB uselessB : Z) : Store_t -> Prop :=
| reach_init s junk : Store_Init maxB uselessB true junk = Ok s -> reachable maxB uselessB s
| reach_call s c s' : reachable maxB uselessB s -> call_ok s c -> run s c = Ok s' ->
    reachable maxB uselessB s'.

(** A call does its work, or it is one of the three that may not return: a put or an
    eviction for which there is no room, and a step of the iterator. *)
Lemma run_ok (s : Store_t) c :
  Inv s -> lookupPolicyTable s = policy_table -> call_ok s c ->
  (exists s', run s c = Ok s' /\ Inv s' /\ lookupPolicyTable s' = policy_table /\
    maxBytes s' = maxBytes s /\ lastInvalTime s <= lastInvalTime s') \/
  (exists f, run s c = Fault f /\ ~ call_fits s c).
Proof.
  intros HI HT Hc. destruct c as [k i ep pid|k i d tags force al time|ts tags time|n| |time| |]; cbn in *.
  - destruct Hc as (Hk & Hi & Hp).
    destruct (Lookup_ok s k i ep pid HI HT Hk Hi Hp) as (s' & r & -> & HI' & HF & _).
    destruct HF as (_ & _ & _ & _ & _ & (C1 & C2 & _ & C4 & _) & _).
    left. exists s'. split_and!; try done; (congruence || lia).
  - destruct (Put_ok s k i d tags force al time HI Hc) as [(s' & ok & -> & [HI' C _ _ _ _] & _)|(f & -> & Hf)].
    2:{ right. exists f. split; [done|]. intros Hfit. by apply (put_returns s k i d tags al) in Hf. }
    left. destruct C as (C1 & C2 & _ & C4 & _). exists s'. split_and!; try done; (congruence || lia).
  - destruct Hc as [Ht Htags].
    destruct (Invalidate_ok s ts tags time HI Ht Htags) as (s' & -> & HI' & _ & _ & El & _ & _ & Em & _ & Et).
    left. exists s'. split_and!; try done; (congruence || lia).
  - destruct (Evict_ok s n HI Hc)
      as [(s' & ok & -> & HI' & _ & _ & _ & _ & (C1 & C2 & _ & C4 & _) & _)|(s' & f & -> & Hlt & _)].
    2:{ right. exists f. split; [done|lia]. }
    left. exists s'. split_and!; try done; (congruence || lia).
  - destruct (Flush_ok s HI Hc) as (s' & -> & HI' & _ & _ & _ & (C1 & C2 & _ & C4 & _) & _).
    left. exists s'. split_and!; try done; (congruence || lia).
  - destruct (RemoveUseless_ok s time HI) as (s' & -> & HI' & _ & _ & _ & _ & (C1 & C2 & _ & C4 & _) & _).
    left. exists s'. split_and!; try done; (congruence || lia).
  - left. eexists. split; [done|]. split; [|split_and!; done].
    apply Inv_policy; [done|]. apply ep_iterReset_tracks, HI.
  - unfold Store_EvictionOrderIterNext. pose proof (inv_policy s HI) as Hp.
    destruct (ep_iterNext (evictionPolicyState s)) as [[p r]|f] eqn:E; cbn.
    + left. eexists. split; [done|]. destruct (ep_iterNext_tracks _ _ p r Hp E) as [E' _].
      split; [by apply Inv_policy|split_and!; done].
    + right. exists f. split; [done|]. intros Hi.
      destruct (ep_iterNext_ok _ _ Hp Hi) as (p & r & E' & _). congruence.
Qed.

(** ** Properties *)

(** C17: a store on which the calls that return were made as its callers have to make
    them ([call_ok]) satisfies its invariant, whatever was called in which order.  From
    every such state a call that has room ([call_fits]: a put whose entry fits next to
    the keys, with memory for its node unless the key has no version; an eviction of no
    more bytes than there are; a step of the iterator whose position has not been
    removed since it was reset) does not abort, run out of fuel or touch memory it
    should not, as long as the allocations succeed whose failure the code does not
    report. *)
Theorem Store_safe maxB uselessB (s : Store_t) :
  reachable maxB uselessB s ->
  Inv s /\ maxBytes s = maxB /\
  forall c, call_ok s c -> call_fits s c -> exists s', run s c = Ok s' /\ lastInvalTime s <= lastInvalTime s'.
Proof.
  intros Hr.
  assert (HH : Inv s /\ lookupPolicyTable s = policy_table /\ maxBytes s = maxB).
  { induction Hr as [s junk E|s c s' _ IH Hc E].
    - destruct (Init_ok maxB uselessB junk) as (s0 & E0 & HI & HT & _ & _ & Hm & _).
      rewrite E in E0. by injection E0 as ->.
    - destruct IH as (HI & HT & Hm).
      destruct (run_ok s c HI HT Hc) as [(s1 & E1 & HI1 & HT1 & Hm1 & _)|(f & E1 & _)]; [|congruence].
      rewrite E in E1. injection E1 as <-. split_and!; try done. congruence. }
  destruct HH as (HI & HT & Hm). split_and!; [done|done|]. intros c Hc Hf.
  destruct (run_ok s c HI HT Hc) as [(s1 & E1 & _ & _ & _ & Hl)|(f & _ & Hn)]; [by exists s1|done].
Qed.

(** C14: what [Store_Put] does, for arguments of reasonable size ([put_args]).  When it
    returns, entries of other keys are left as they are or evicted; when it reports
    success the data is stored up to the end of the interval, from its start or from the
    end of an older version on; and a successful put never takes the store over its size
    limit, nor lets it grow when it is over it already.  It returns when the entry fits
    next to the keys and there is memory for its node or the key has no version yet;
    otherwise, the only ways not to return are that eviction has emptied the store in
    vain and cannot print the statistics, and that there is no memory for a node of a
    version set that is not empty. *)
Theorem Store_Put_spec (s : Store_t) k i d tags force al time :
  Inv s -> put_args s k i d tags al ->
  let tags' := if stillValid (put_interval s i tags) then tags else [] in
  ((exists s' ok, Store_Put s k i d tags force al time = Ok (s', ok) /\ Inv s' /\
     others_kept k s s' /\
     (ok = true -> stored s s' k (put_interval s i tags) d /\
        Store_Footprint s' <= Z.max (Store_Footprint s) (maxBytes s))) \/
   (exists f, Store_Put s k i d tags force al time = Fault f /\ put_fails s k d tags' al f)) /\
  (put_fits s k d tags al -> exists s' ok, Store_Put s k i d tags force al time = Ok (s', ok)).
Proof.
  intros HI HA. cbv zeta. pose proof (put_returns s k i d tags al) as HR.
  destruct (Put_ok s k i d tags force al time HI HA) as [(s' & ok & E & [O1 _ O3 _ O4 O5] & _)|(f & E & Hf)].
  - split; [left|by eauto]. exists s', ok. split_and!; try done. intros Ho. split; [by apply O4|].
    destruct (O5 Ho) as [?|[? _]]; lia.
  - split; [right; by exists f|]. intros Hfit. by apply HR in Hf.
Qed.

(** C15: a put that returns keeps the versions of its key disjoint, with only the last
    one still valid, when it does not contradict them ([consistent_put]): where it
    overlaps the still-valid version it has the same data and does not start before
    it, and it is not itself still valid when it ends before a stored version starts. *)
Theorem Store_Put_disjoint (s : Store_t) k i d tags al time :
  Inv s -> put_args s k i d tags al ->
  disjoint_versions (heap s) k -> consistent_put s k (put_interval s i tags) d ->
  (forall s' ok, Store_Put s k i d tags false al time = Ok (s', ok) -> disjoint_versions (heap s') k) /\
  (put_fits s k d tags al -> exists s' ok, Store_Put s k i d tags false al time = Ok (s', ok)).
Proof.
  intros HI HA Hd Hc. pose proof (put_returns s k i d tags al) as HR.
  destruct (Put_ok s k i d tags false al time HI HA) as [(s1 & ok1 & E & _ & H)|(f & E & Hf)].
  - split; [|by eauto]. intros s' ok E'. rewrite E in E'. injection E' as <- <-. by apply H.
  - split; [congruence|]. intros Hfit. by apply HR in Hf.
Qed.

(** C18: [Store_Lookup] returns the version of the key that starts last before
    the end of the interval, exactly when the policy accepts it: the default
    policy when some pin is in both intervals, the inconsistent one when it is
    recent enough, the unregistered one never.  Nothing but statistics, hit
    count and eviction order changes. *)
Theorem Store_Lookup_spec (s : Store_t) k i earliestPin policyId :
  Inv s -> lookupPolicyTable s = policy_table -> key_ok k -> interval_ok i -> 0 <= policyId < 3 ->
  exists s' r, Store_Lookup s k i earliestPin policyId = Ok (s', r) /\ Inv s' /\
    lookup_frame s s' r /\
    forall id, r = Some id <-> exists e, latest_before (heap s) k (upper i) id e /\
      accepts policyId (lastInvalTime s) i earliestPin e.
Proof. apply Lookup_ok. Qed.

(** When the versions of a key are disjoint, a lookup under the default
    policy finds a version whenever one overlaps the interval of the request. *)
Lemma Store_Lookup_complete (s : Store_t) k i earliestPin id e t :
  Inv s -> lookupPolicyTable s = policy_table -> key_ok k -> interval_ok i ->
  stillValid i = false -> disjoint_versions (heap s) k ->
  heap s !! id = Some e -> vset e = k ->
  covers (lastInvalTime s) (interval e) t -> covers (lastInvalTime s) i t ->
  exists s' id' e', Store_Lookup s k i earliestPin LOOKUP_POLICY_LATEST = Ok (s', Some id') /\
    heap s !! id' = Some e' /\ vset e' = k /\ lower (interval e) <= lower (interval e') /\
    exists t', covers (lastInvalTime s) (interval e') t' /\ covers (lastInvalTime s) i t'.
Proof.
  intros HI HT Hkey Hi Hs Hd Hid Hv Ht1 Ht2.
  destruct (Lookup_ok s k i earliestPin LOOKUP_POLICY_LATEST HI HT Hkey Hi ltac:(done))
    as (s' & r & -> & _ & _ & HR).
  assert (Hlt : lower (interval e) < upper i).
  { unfold covers, eff_upper in *. rewrite Hs in Ht2. lia. }
  destruct (latest_exists s k (upper i) id e HI Hid Hv Hlt) as (x & e' & He').
  pose proof He' as (Hx & Hvx & Hlx & Hmax).
  assert (Hov : lower (interval e) <= lower (interval e') /\
    exists t', covers (lastInvalTime s) (interval e') t' /\ covers (lastInvalTime s) i t').
  { destruct (decide (x = id)) as [->|Hne].
    - assert (e' = e) as -> by congruence. split; [lia|]. by exists t.
    - pose proof (Hmax id e Hid Hv Hlt ltac:(done)) as Hlow. split; [lia|].
      destruct (Hd id e x e' Hid Hx Hv Hvx Hlow) as [Hse Hue].
      destruct (inv_entry s HI x e' Hx) as [_ [Hie _]]. unfold interval_ok in Hie.
      exists (lower (interval e')). unfold covers, eff_upper in *. rewrite Hs in *. rewrite Hse in *.
      destruct (stillValid (interval e')); lia. }
  destruct Hov as [Hle Hov]. exists s', x, e'.
  assert (r = Some x) as -> by (apply HR; exists e'; split; done).
  split_and!; done.
Qed.

(** C16: an invalidation message closes, at its own timestamp, exactly the
    still-valid entries that have a tag that is the same as, above or below one
    of the message's tags, and changes no other entry. *)
Theorem Store_Invalidate_spec (s : Store_t) ts tags time :
  Inv s -> lastInvalTime s < ts < PIN_INF ->
  Forall (fun tg => last tg = Some COLON) tags ->
  exists s', Store_Invalidate s ts tags time = Ok s' /\ Inv s' /\
    lastInvalTime s' = ts /\ lines s' = lines s /\
    forall id, heap s' !! id = (fun e =>
      if stillValid (interval e) &&
         existsb (fun t => existsb (fun tg => affects tg t) tags) (invalTags e)
      then set_timeInvalidated time (set_interval
             (Interval (lower (interval e)) (Z.max (upper (interval e)) ts) false) e)
      else e) <$> heap s !! id.
Proof.
  intros HI Ht Htags.
  destruct (Invalidate_ok s ts tags time HI Ht Htags) as (s' & E & HI' & Hh & Hl & Hlt & _).
  exists s'. split_and!; try done. intros id. rewrite Hh, lookup_fmap. reflexivity.
Qed.

(** C19: eviction, of a store that has a key, only removes entries, and frees the bytes
    it was asked for unless it has emptied the store; asked for no more than there is, it
    returns and succeeds.  When it has emptied the store in vain it prints the statistics
    and reports failure; not to return, because they cannot be printed, is the only other
    outcome.  Flushing empties the store. *)
Theorem Store_Evict_spec (s : Store_t) toFree :
  Inv s -> lines s <> ∅ ->
  ((exists s' ok, Store_Evict s toFree = Ok (s', ok) /\ Inv s' /\ heap s' ⊆ heap s /\
      (ok = true -> toFree <= entryBytes s - entryBytes s') /\
      (ok = false -> heap s' = ∅ /\ entryBytes s < toFree)) \/
   (exists s' f, Store_Evict s toFree = Fault f /\ entryBytes s < toFree /\ unprinted s s' f)) /\
  (toFree <= entryBytes s -> exists s', Store_Evict s toFree = Ok (s', true)) /\
  (exists s', Store_Flush s = Ok s' /\ Inv s' /\ heap s' = ∅ /\ entryBytes s' = 0).
Proof.
  intros HI Hne. split; [|split].
  - destruct (Evict_ok s toFree HI Hne) as [(s' & ok & E & HI' & Hh & _ & H1 & H2 & _)|?]; [left|by right].
    exists s', ok. split_and!; done.
  - intros Hle. destruct (Evict_ok s toFree HI Hne) as [(s' & [] & E & _ & _ & _ & _ & H2 & _)|(? & ? & _ & ? & _)];
      [by exists s'| |lia]. destruct (H2 eq_refl). lia.
  - destruct (Flush_ok s HI Hne) as (s' & E & HI' & Hh & Hb & _). exists s'. split_and!; done.
Qed.

(** A still-valid interval that is put is stored as it is when it reaches
    past the last invalidation, is closed at its own end when it is older than
    the buffer of invalidations, and otherwise is closed at the first buffered
    invalidation after its end that hits one of its tags, if there is one. *)
Lemma Store_TruncateIfAlreadyInvalidated_spec (s : Store_t) i tags :
  Inv s -> interval_ok i -> stillValid i = true ->
  exists i', Store_TruncateIfAlreadyInvalidated s i tags = Ok i' /\ interval_ok i' /\
    (lastInvalTime s < upper i -> i' = i) /\
    (upper i <= lastInvalTime s -> upper i <= bufferValidFrom s -> i' = Interval (lower i) (upper i) false) /\
    (upper i <= lastInvalTime s -> bufferValidFrom s < upper i ->
       (i' = i /\ forall b, b ∈ invalBuffer s -> upper i < be_pin b -> buffer_matches b tags = false) \/
       (exists b, b ∈ invalBuffer s /\ upper i < be_pin b /\ buffer_matches b tags = true /\
          i' = Interval (lower i) (be_pin b) false /\
          forall b', b' ∈ invalBuffer s -> upper i < be_pin b' -> buffer_matches b' tags = true ->
            be_pin b <= be_pin b')).
Proof. apply TruncateIf_spec. Qed.

End Props.

(** ** Witnesses *)

Definition ex_key : key := le_bytes 4 3 ++ str "foo/1".
Definition ex_tags : list tag := [str "t:a:"; str "t:b:"].
Definition ex_al (n : Z) : allocs := Allocs true true true (Some n) true.

Definition ok_or {A} (a : A) (m : res A) : A := match m with Ok x => x | Fault _ => a end.

Definition ex_empty : Store_t LRUEviction_State_t :=
  Store ∅ INITIAL_POWER 0 0 0 100000 PIN_NEG_INF [] [] PIN_NEG_INF policy_table
    (ep_init 7) false 60 (LIST_Init (LIST 0 0 ∅)) zero_stats ∅ true ∅ true.

(** One still-valid entry [5, 10), tagged [t:a:] and [t:b:]. *)
Definition ex_one : Store_t LRUEviction_State_t :=
  (ok_or (ex_empty, false)
     (Store_Put ex_empty ex_key (Interval 5 10 true) [1; 2; 3] ex_tags false (ex_al 1000) 7)).1.

Lemma ex_empty_reachable : reachable 100000 60 ex_empty.
Proof. by apply (reach_init _ _ _ 7). Qed.

Lemma ex_empty_Inv : Inv ex_empty.
Proof.
  destruct (Init_ok (P := LRUEviction_State_t) 100000 60 7) as (s & E & HI & _).
  vm_compute in E. injection E as <-. exact HI.
Qed.

Lemma ex_key_ok : key_ok ex_key.
Proof. exists (str "foo"). reflexivity. Qed.

Lemma ex_put_args (s : Store_t LRUEviction_State_t) n (i : interval_t) d :
  interval_ok i -> (length d < 100)%nat -> 0 < n -> heap s !! n = None -> ht_count s < 100 ->
  maxBytes s = 100000 -> keyBytes s < 1000 -> put_args s ex_key i d ex_tags (ex_al n).
Proof.
  intros Hi Hd Hn Hh Hc Hm Hk. assert (MALLOC_SIZE (Z.of_nat (length ex_key)) = 32) as Em by reflexivity.
  split; try done; rewrite ?Em; unfold bytes_max; try lia.
  - exact ex_key_ok.
  - vm_compute. repeat constructor; set_solver.
  - intros id [= <-]. by split.
Qed.

Lemma ex_one_reachable : reachable 100000 60 ex_one.
Proof.
  apply (reach_call _ _ ex_empty
    (CPut ex_key (Interval 5 10 true) [1; 2; 3] ex_tags false (ex_al 1000) 7)).
  - apply ex_empty_reachable.
  - apply ex_put_args; (done || cbn; lia).
  - vm_compute. reflexivity.
Qed.

Lemma ex_one_Inv : Inv ex_one.
Proof.
  destruct (Put_ok ex_empty ex_key (Interval 5 10 true) [1; 2; 3] ex_tags false (ex_al 1000) 7
    ex_empty_Inv) as [(s' & ok & E & [HI _ _ _ _ _] & _)|(f & E & _)].
  { apply ex_put_args; (done || cbn; lia). }
  - unfold ex_one. rewrite E. exact HI.
  - vm_compute in E. done.
Qed.

Lemma ex_one_entries :
  heap ex_one = {[ 1000 := new_entry ex_key (Interval 5 10 true) [1; 2; 3] ex_tags 7 ]}.
Proof. vm_compute. reflexivity. Qed.

Lemma ex_one_lines : lines ex_one <> ∅.
Proof.
  intros E. assert (H : lines ex_one !! ex_key = Some [1000]) by (vm_compute; reflexivity).
  by rewrite E, lookup_empty in H.
Qed.

Lemma ex_one_args n i d :
  interval_ok i -> (length d < 100)%nat -> 1000 < n -> put_args ex_one ex_key i d ex_tags (ex_al n).
Proof.
  intros Hi Hd Hn. apply ex_put_args; try done; [lia|].
  rewrite ex_one_entries.
  apply lookup_singleton_ne. lia.
Qed.

(** The only entry of [ex_one]. *)
Lemma ex_one_heap id e :
  heap ex_one !! id = Some e ->
  id = 1000 /\ e = new_entry ex_key (Interval 5 10 true) [1; 2; 3] ex_tags 7.
Proof.
  rewrite ex_one_entries.
  by intros [<- <-]%lookup_singleton_Some.
Qed.

Lemma ex_one_disjoint : disjoint_versions (heap ex_one) ex_key.
Proof. intros x e y e' [_ ->]%ex_one_heap [_ ->]%ex_one_heap _ _. lia. Qed.

Lemma Store_safe_witness :
  Inv ex_one /\ maxBytes ex_one = 100000 /\
  forall c, call_ok ex_one c -> call_fits ex_one c ->
    exists s', run ex_one c = Ok s' /\ lastInvalTime ex_one <= lastInvalTime s'.
Proof. apply (Store_safe 100000 60 ex_one). apply ex_one_reachable. Defined.

(** Other data, from the end of the stored version on. *)
Lemma Store_Put_spec_witness :
  ((exists s' ok, Store_Put ex_one ex_key (Interval 10 12 true) [4] ex_tags false (ex_al 2000) 8 = Ok (s', ok) /\
     Inv s' /\ others_kept ex_key ex_one s' /\
     (ok = true -> stored ex_one s' ex_key (put_interval ex_one (Interval 10 12 true) ex_tags) [4] /\
        Store_Footprint s' <= Z.max (Store_Footprint ex_one) (maxBytes ex_one))) \/
   (exists f, Store_Put ex_one ex_key (Interval 10 12 true) [4] ex_tags false (ex_al 2000) 8 = Fault f /\
     put_fails ex_one ex_key [4]
       (if stillValid (put_interval ex_one (Interval 10 12 true) ex_tags) then ex_tags else []) (ex_al 2000) f)) /\
  exists s' ok, Store_Put ex_one ex_key (Interval 10 12 true) [4] ex_tags false (ex_al 2000) 8 = Ok (s', ok).
Proof.
  destruct (Store_Put_spec ex_one ex_key (Interval 10 12 true) [4] ex_tags false (ex_al 2000) 8) as [H1 H2];
    [apply ex_one_Inv|apply ex_one_args; (done || cbn; lia)|].
  split; [exact H1|]. apply H2. split; [vm_compute; discriminate|discriminate 1].
Defined.

Lemma Store_Put_disjoint_witness :
  (forall s' ok, Store_Put ex_one ex_key (Interval 10 12 true) [4] ex_tags false (ex_al 2000) 8 = Ok (s', ok) ->
    disjoint_versions (heap s') ex_key) /\
  (put_fits ex_one ex_key [4] ex_tags (ex_al 2000) ->
    exists s' ok, Store_Put ex_one ex_key (Interval 10 12 true) [4] ex_tags false (ex_al 2000) 8 = Ok (s', ok)).
Proof.
  apply Store_Put_disjoint; [apply ex_one_Inv|apply ex_one_args; (done || cbn; lia)|apply ex_one_disjoint|].
  replace (put_interval ex_one (Interval 10 12 true) ex_tags) with (Interval 10 12 true)
    by (vm_compute; reflexivity).
  split; replace (lastInvalTime ex_one) with 1 by (vm_compute; reflexivity).
  - intros id e [_ ->]%ex_one_heap _ _ (t & H1 & H2). unfold covers, eff_upper in *. cbn in *. lia.
  - intros id e [_ ->]%ex_one_heap _. cbn. lia.
Defined.

Lemma Store_Lookup_spec_witness :
  exists s' r, Store_Lookup ex_one ex_key (Interval 7 9 false) 3 LOOKUP_POLICY_LATEST = Ok (s', r) /\
    Inv s' /\ lookup_frame ex_one s' r /\
    forall id, r = Some id <-> exists e, latest_before (heap ex_one) ex_key 9 id e /\
      accepts LOOKUP_POLICY_LATEST (lastInvalTime ex_one) (Interval 7 9 false) 3 e.
Proof. apply Store_Lookup_spec; [apply ex_one_Inv|done|apply ex_key_ok|done|done]. Defined.

Lemma Store_Invalidate_spec_witness :
  exists s', Store_Invalidate ex_one 20 [str "t:"] 9 = Ok s' /\ Inv s' /\
    lastInvalTime s' = 20 /\ lines s' = lines ex_one /\
    forall id, heap s' !! id = (fun e =>
      if stillValid (interval e) &&
         existsb (fun t => existsb (fun tg => affects tg t) [str "t:"]) (invalTags e)
      then set_timeInvalidated 9 (set_interval
             (Interval (lower (interval e)) (Z.max (upper (interval e)) 20) false) e)
      else e) <$> heap ex_one !! id.
Proof.
  apply Store_Invalidate_spec; [apply ex_one_Inv|vm_compute; done|by repeat constructor].
Defined.

Lemma Store_Evict_spec_witness :
  ((exists s' ok, Store_Evict ex_one 50 = Ok (s', ok) /\ Inv s' /\ heap s' ⊆ heap ex_one /\
      (ok = true -> 50 <= entryBytes ex_one - entryBytes s') /\
      (ok = false -> heap s' = ∅ /\ entryBytes ex_one < 50)) \/
   (exists s' f, Store_Evict ex_one 50 = Fault f /\ entryBytes ex_one < 50 /\ unprinted ex_one s' f)) /\
  (50 <= entryBytes ex_one -> exists s', Store_Evict ex_one 50 = Ok (s', true)) /\
  (exists s', Store_Flush ex_one = Ok s' /\ Inv s' /\ heap s' = ∅ /\ entryBytes s' = 0).
Proof. apply Store_Evict_spec; [apply ex_one_Inv|apply ex_one_lines]. Defined.

(** [ex_one] after the invalidation of [t:] at 20, which stays in the buffer. *)
Definition ex_inval : Store_t LRUEviction_State_t :=
  ok_or ex_one (Store_Invalidate ex_one 20 [str "t:"] 9).

Lemma ex_inval_Inv : Inv ex_inval.
Proof.
  destruct (Invalidate_ok ex_one 20 [str "t:"] 9 ex_one_Inv) as (s' & E & HI & _);
    [vm_compute; done|by repeat constructor|].
  unfold ex_inval. rewrite E. exact HI.
Qed.

(** ** Behaviours that differ from the comments and tests *)

(** What a lookup of [k] at pin [p] returns. *)
Definition data_at (s : Store_t LRUEviction_State_t) (k : key) (p : Z) : option (list Z * interval_t) :=
  match Store_Lookup s k (Interval p (p + 1) false) p LOOKUP_POLICY_LATEST with
  | Ok (s, Some id) => (fun e => (data e, interval e)) <$> heap s !! id
  | _ => None
  end.

Definition put_at (s : Store_t LRUEviction_State_t) (k : key) (i : interval_t) (d : list Z)
    (tags : list tag) (n : Z) : Store_t LRUEviction_State_t :=
  (ok_or (s, false) (Store_Put s k i d tags false (ex_al n) 10)).1.

Definition inval_at (s : Store_t LRUEviction_State_t) (ts : Z) (tags : list tag) :
    Store_t LRUEviction_State_t := ok_or s (Store_Invalidate s ts tags 9).

Definition ex_key2 : key := le_bytes 4 3 ++ str "foo/2".

(** A repeated tag ends the registration: later tags do not invalidate. *)
Lemma Register_stops_at_duplicate :
  let s := put_at ex_empty ex_key (Interval 5 10 true) [1] [str "t:a:"; str "t:a:"; str "t:b:"] 1000 in
  data_at (inval_at s 20 [str "t:b:"]) ex_key 19 = Some ([1], Interval 5 10 true) /\
  data_at (inval_at (inval_at s 20 [str "t:b:"]) 40 [str "u:"]) ex_key 39 = Some ([1], Interval 5 10 true).
Proof. split; vm_compute; reflexivity. Qed.

(** A put of other data inside the range a still-valid version has grown to is
    accepted, and hides that version from later lookups. *)
Lemma Put_overlaps_still_valid :
  let s := inval_at ex_one 20 [str "u:"] in
  let s' := put_at s ex_key (Interval 12 15 false) [4] [] 2000 in
  data_at s ex_key 17 = Some ([1; 2; 3], Interval 5 10 true) /\
  data_at s' ex_key 13 = Some ([4], Interval 12 15 false) /\ data_at s' ex_key 17 = None.
Proof. split_and!; vm_compute; reflexivity. Qed.

(** Calls outside [call_ok] that the server does not prevent: flushing an empty
    store, a tag without a final colon, an unknown lookup policy, an interval
    that ends before it starts. *)
Lemma Store_unchecked_arguments :
  Store_Flush ex_empty = Fault OutOfBounds /\
  Store_Invalidate ex_one 20 [str "t"] 9 = Fault OutOfBounds /\
  Store_Lookup ex_one ex_key (Interval 7 9 false) 3 7 = Fault OutOfBounds /\
  Store_Lookup (put_at ex_empty ex_key (Interval 10 5 false) [1] [] 1000) ex_key
    (Interval 7 12 false) 3 LOOKUP_POLICY_LATEST = Fault AssertFail.
Proof. split_and!; vm_compute; reflexivity. Qed.

(** The position of the iterator is uninitialised before the first reset, and it is
    not moved when the entry there is removed: the next step reads memory that is not,
    or no longer, an entry. *)
Lemma iterator_position_stale :
  Store_EvictionOrderIterNext ex_empty = Fault NullDeref /\
  (s ← Store_Flush (Store_EvictionOrderIterReset ex_one); Store_EvictionOrderIterNext s) = Fault NullDeref.
Proof. split; vm_compute; reflexivity. Qed.

(** An eviction that finds nothing prints the statistics, and reads out of bounds when
    there are none. *)
Lemma failed_eviction_prints : Store_Evict ex_empty 1 = Fault OutOfBounds.
Proof. vm_compute. reflexivity. Qed.
