(* ===== verification/StoreBuffer.v ===== *)
(** * What the buffer of invalidations misses (src/server/store.c)

    A still-valid value that arrives after messages it does not know of is checked
    against the buffer of recent invalidations ([Store_TruncateIfAlreadyInvalidated]).
    This file says which entries a message leaves in the buffer, and three ways in which
    an invalidation that affects a late value is not among them. *)

From S2P Require Import Prelude CLib Interval Truth Memory Hash DblList OrdTree Eviction StoreData StatsText Store StoreInv StoreInval StorePut StoreProps.

Section Buffer.

Context {P : Type} `{!EvictionPolicy P} `{!EvictionPolicyLaws P}.

Notation Store_t := (Store_t P).

(** ** What a message buffers *)

(** An entry that the invalidation of [tg] adds: for an ancestor, or for the tag with
    its descendants. *)
Definition from_tag (now time : Z) (tg : tag) (b : StoreInvalBufferEntry_t) : Prop :=
  be_pin b = now /\ be_time b = time /\
  (if be_descendants b then be_tag b = tg else be_tag b `prefix_of` tg).

(** From [s] to [s'] the tag index has shrunk and what is new in the buffer is in [Q]. *)
Record buffers (Q : StoreInvalBufferEntry_t -> Prop) (s s' : Store_t) : Prop := {
  bu_inv : Inv s';
  bu_time : lastInvalTime s' = lastInvalTime s;
  bu_from : bufferValidFrom s' = bufferValidFrom s;
  bu_map x : x ∈ invalMap s' -> x ∈ invalMap s;
  bu_kept b : b ∈ invalBuffer s -> b ∈ invalBuffer s';
  bu_new b : b ∈ invalBuffer s' -> b ∈ invalBuffer s \/ Q b
}.

Lemma buffers_refl Q (s : Store_t) : Inv s -> buffers Q s s.
Proof. intros HI. split; auto. Qed.

Lemma buffers_trans Q (s1 s2 s3 : Store_t) : buffers Q s1 s2 -> buffers Q s2 s3 -> buffers Q s1 s3.
Proof.
  intros [? ? ? ? ? N1] [? ? ? ? ? N2]. split; auto; try congruence.
  intros b Hb. destruct (N2 b Hb); auto.
Qed.

Lemma buffers_impl (Q Q' : StoreInvalBufferEntry_t -> Prop) (s s' : Store_t) :
  (forall b, Q b -> Q' b) -> buffers Q s s' -> buffers Q' s s'.
Proof. intros H [? ? ? ? ? N]. split; auto. intros b Hb. destruct (N b Hb); auto. Qed.

(** Closing entries takes their tags out of the index. *)
Lemma index_shrinks (s s' : Store_t) f now time x :
  Inv s -> Inv s' -> heap s' = close_if f now time <$> heap s -> x ∈ invalMap s' -> x ∈ invalMap s.
Proof.
  intros HI HI' Hh. destruct x as [t id]. rewrite (inv_map s' HI'), (inv_map s HI), Hh, lookup_fmap.
  intros (e & (a & Ha & ->)%fmap_Some & Hs & Ht). exists a. split; [done|].
  unfold close_if in *. by destruct (stillValid (interval a) && existsb f (invalTags a)) eqn:E.
Qed.

(** [p] cannot be buffered any more: it is in the buffer for the current message, or
    every registered tag sorts before it. *)
Definition taken (p : tag) (s : Store_t) : Prop :=
  (exists w, w ∈ invalBuffer s /\ be_pin w = lastInvalTime s /\ be_tag w = p) \/
  Forall (fun m => strcmp (me_tag m) p < 0) (invalMap s).

Lemma taken_buffers Q p (s s' : Store_t) : buffers Q s s' -> taken p s -> taken p s'.
Proof.
  intros [_ Et _ HM HK _] [(w & Hw & Hp & Ht)|HF].
  - left. exists w. rewrite Et. auto.
  - right. rewrite Forall_forall in *. auto.
Qed.

(** Where all registered tags sort before the tag, nothing is done at all. *)
Lemma InvalidateTag_nothing (s : Store_t) tg d time :
  Forall (fun m => strcmp (me_tag m) tg < 0) (invalMap s) -> Store_InvalidateTag s tg d time = Ok s.
Proof.
  intros HF. unfold Store_InvalidateTag. rewrite (proj2 (tree_find_GE_None _ _)); [done|].
  eapply Forall_impl; [exact HF|]. intros m Hm. apply InvalTree_Compare_lt. by left.
Qed.

Lemma InvalidateTag_buffers (s : Store_t) tg d time :
  Inv s ->
  exists s', Store_InvalidateTag s tg d time = Ok s' /\
    buffers (fun b => ~ taken tg s /\ b = InvalBufferEntry (lastInvalTime s) time tg d) s s' /\ taken tg s'.
Proof.
  intros HI. destruct (decide (Forall (fun m => strcmp (me_tag m) tg < 0) (invalMap s))) as [HF|HF].
  { exists s. split; [by apply InvalidateTag_nothing|]. split; [by apply buffers_refl|by right]. }
  destruct (InvalidateTag_ok s tg d time HI) as (s' & E & HI' & Hh & F & V & B).
  exists s'. split; [done|]. destruct F as (_ & _ & _ & _ & _ & (_ & Et & _) & _).
  assert (HM : forall x, x ∈ invalMap s' -> x ∈ invalMap s) by (intros x; by eapply index_shrinks).
  unfold taken at 2. rewrite Et. destruct B as [[_ ?]|[[B (w & Hw & Hs)]|[B Hn]]]; [done|..].
  - split; [|left; exists w; by rewrite B]. split; auto; rewrite B; auto.
  - split; [|left; eexists; rewrite B; split; [by left|done]]. split; auto.
    + intros b Hb. rewrite B. by right.
    + intros b. rewrite B. intros [->|?]%elem_of_cons; [right|by left]. split; [|done].
      intros [(w & Hw & Hs)|?]; [by apply (Hn w)|done].
Qed.

(** The walk over the components of a tag.  It takes them all; a tag that is taken
    already is not buffered with its descendants. *)
Lemma Walk_buffers rest : forall (s : Store_t) pre time,
  Inv s -> last rest = Some COLON ->
  exists s', InvalidateWalk s pre rest time = Ok s' /\
    buffers (fun b => from_tag (lastInvalTime s) time (pre ++ rest) b /\
      (be_descendants b = true -> ~ taken (pre ++ rest) s)) s s' /\
    (forall q, q `prefix_of` rest -> last q = Some COLON -> taken (pre ++ q) s').
Proof.
  induction rest as [|c rest IH]; intros s pre time HI Hl; [done|]. cbn [InvalidateWalk].
  assert (Hq1 : forall q, q `prefix_of` c :: rest -> last q = Some COLON ->
    (c = COLON /\ q = [c]) \/ exists q', q = c :: q' /\ q' `prefix_of` rest /\ last q' = Some COLON).
  { intros [|x q] Hp Hlq; [done|]. apply prefix_cons_inv_1 in Hp as Hx. subst x.
    apply prefix_cons_inv_2 in Hp. destruct q as [|y q]; cbn in Hlq; [left; naive_solver|].
    right. by exists (y :: q). }
  destruct rest as [|c' rest].
  { cbn in Hl. injection Hl as ->. rewrite Z.eqb_refl.
    destruct (InvalidateTag_buffers s (pre ++ [COLON]) true time HI) as (s' & E & B & T).
    exists s'. split; [done|]. split.
    - eapply buffers_impl; [|exact B]. intros b [? ->]. by split_and!.
    - intros q Hq Hlq. destruct (Hq1 q Hq Hlq) as [[_ ->]|(q' & _ & ->%prefix_nil_inv & ?)]; done. }
  assert (Hl' : last (c' :: rest) = Some COLON) by done.
  assert (EP : pre ++ c :: c' :: rest = (pre ++ [c]) ++ c' :: rest) by (by rewrite <- app_assoc).
  rewrite EP.
  destruct (Z.eqb_spec c COLON) as [Hc|Hc].
  - destruct (InvalidateTag_buffers s (pre ++ [c]) false time HI) as (s1 & -> & B1 & T1).
    rewrite bind_ret_l. destruct (IH s1 (pre ++ [c]) time (bu_inv _ _ _ B1) Hl') as (s' & E & B2 & T2).
    exists s'. split; [done|]. split.
    + eapply buffers_trans.
      * eapply buffers_impl; [|exact B1]. intros b [_ ->]. split; [|done]. split_and!; try done. cbn.
        by apply prefix_app_r.
      * eapply buffers_impl; [|exact B2]. rewrite (bu_time _ _ _ B1). intros b [? Ht]. split; [done|].
        intros Hd Htk. apply (Ht Hd). by eapply taken_buffers.
    + intros q Hq Hlq. destruct (Hq1 q Hq Hlq) as [[_ ->]|(q' & -> & ? & ?)].
      * by eapply taken_buffers.
      * rewrite (app_assoc pre [c] q' : pre ++ c :: q' = _). by apply T2.
  - destruct (IH s (pre ++ [c]) time HI Hl') as (s' & E & B2 & T2). exists s'. split_and!; try done.
    intros q Hq Hlq. destruct (Hq1 q Hq Hlq) as [[? ->]|(q' & -> & ? & ?)]; [done|].
    rewrite (app_assoc pre [c] q' : pre ++ c :: q' = _). by apply T2.
Qed.

Lemma Tags_buffers tags : forall (s : Store_t) time,
  Inv s -> Forall (fun tg => last tg = Some COLON) tags ->
  exists s', InvalidateTags s tags time = Ok s' /\
    buffers (fun b => exists tg, tg ∈ tags /\ from_tag (lastInvalTime s) time tg b) s s'.
Proof.
  induction tags as [|tg tags IH]; intros s time HI HF; cbn [InvalidateTags].
  { exists s. split; [done|]. by apply buffers_refl. }
  apply Forall_cons in HF as [Hl HF]. unfold Store_InvalidateTagAndAncestorsDescendants.
  destruct (Walk_buffers tg s [] time HI Hl) as (s1 & -> & B1 & _). rewrite bind_ret_l.
  destruct (IH s1 time (bu_inv _ _ _ B1) HF) as (s' & -> & B2). exists s'. split; [done|].
  eapply buffers_trans.
  - eapply buffers_impl; [|exact B1]. intros b [? _]. exists tg. split; [by left|done].
  - eapply buffers_impl; [|exact B2]. rewrite (bu_time _ _ _ B1). intros b (tg' & ? & ?).
    exists tg'. split; [by right|done].
Qed.

(** ** Late values *)

(** A still-valid value is stored as it is when no invalidation in the buffer, after
    the end of its interval, matches its tags. *)
Lemma late_kept (s : Store_t) i tags :
  Inv s -> interval_ok i -> stillValid i = true -> bufferValidFrom s < upper i ->
  (forall b, b ∈ invalBuffer s -> upper i < be_pin b -> buffer_matches b tags = false) ->
  Store_TruncateIfAlreadyInvalidated s i tags = Ok i.
Proof.
  intros HI Hi Hs Hv Hn. destruct (TruncateIf_spec s i tags HI Hi Hs) as (i' & -> & _ & H1 & _ & H3).
  f_equal. destruct (Z.lt_ge_cases (lastInvalTime s) (upper i)); [auto|].
  destruct (H3 ltac:(done) Hv) as [[-> _]|(b & Hb & Hp & Hm & _)]; [done|].
  by rewrite (Hn b Hb Hp) in Hm.
Qed.

(** After the message at [ts], for a value whose interval ends after the last message
    before: only entries that this message has buffered count. *)
Lemma after_message Q (s s1 : Store_t) ts time :
  Inv s -> lastInvalTime s < ts < PIN_INF -> buffers Q (set_lastInvalTime ts s) s1 ->
  (forall b, Q b -> be_pin b = ts /\ be_time b = time) ->
  exists s', Store_ExpireBuffer s1 time = Ok s' /\ Inv s' /\ lastInvalTime s' = ts /\
    bufferValidFrom s' <= lastInvalTime s /\
    forall b, b ∈ invalBuffer s' -> be_pin b <= lastInvalTime s \/ Q b.
Proof.
  intros HI Ht [HI1 Et Ev _ _ HN] HQ. pose proof (inv_time s HI) as Hit.
  assert (HB : forall b, b ∈ invalBuffer s1 -> be_pin b <= lastInvalTime s \/ Q b).
  { intros b Hb. destruct (HN b Hb) as [Hb'|]; [left|by right]. apply (inv_buffer s HI b Hb'). }
  destruct (ExpireLoop_ok (S (length (invalBuffer s1))) s1 time HI1) as (s' & old & E & HI' & _ & F & Eo & Ho & _ & Hv); [lia|].
  exists s'. split; [done|]. split; [done|]. destruct F as (_ & _ & _ & _ & _ & (_ & Et' & _) & _).
  cbn in Et, Ev. split; [congruence|]. split.
  - rewrite Hv. destruct (last old) as [b|] eqn:El; cbn; [|rewrite Ev; lia].
    apply last_Some_elem_of in El. rewrite Forall_forall in Ho. pose proof (Ho b El) as Hx. unfold expired in Hx.
    destruct (HB b) as [|[_ Hbt]%HQ]; [rewrite Eo; apply elem_of_app; by left|done|].
    unfold INVAL_BUFFER_TIME in Hx. lia.
  - intros b Hb. apply HB. rewrite Eo. apply elem_of_app. by right.
Qed.

Lemma Invalidate_split (s : Store_t) ts tags time s1 :
  Inv s -> lastInvalTime s < ts < PIN_INF -> InvalidateTags (set_lastInvalTime ts s) tags time = Ok s1 ->
  Store_Invalidate s ts tags time = Store_ExpireBuffer s1 time.
Proof.
  intros HI Ht E. pose proof (inv_time s HI) as Hit. unfold PIN_NEG_INF in Hit. unfold Store_Invalidate.
  rewrite (proj2 (PIN_SPECIAL_false ts)) by (unfold PIN_INVALID, PIN_NEG_INF; lia).
  rewrite (proj2 (Z.ltb_lt _ _)) by lia. cbn [negb Assert]. rewrite !bind_ret_l, E. by rewrite bind_ret_l.
Qed.

Lemma matches_one b u :
  buffer_matches b [u] = true <-> if be_descendants b then be_tag b `prefix_of` u else be_tag b = u.
Proof.
  unfold buffer_matches. cbn [existsb]. rewrite orb_false_r. destruct (be_descendants b); cbn [negb andb orb].
  - rewrite Z.eqb_eq, strncmp_sym. apply strncmp_prefix.
  - rewrite orb_false_r, Z.eqb_eq. apply strcmp_eq.
Qed.

(** ** Property *)

(** Every registered tag sorts before the tag and its ancestors. *)
Definition nothing_indexed (s : Store_t) (tg : tag) : Prop :=
  forall m q, m ∈ invalMap s -> q `prefix_of` tg -> last q = Some COLON -> strcmp (me_tag m) q < 0.

Lemma Walk_nothing rest : forall (s : Store_t) pre time,
  last rest = Some COLON ->
  (forall m q, m ∈ invalMap s -> q `prefix_of` rest -> last q = Some COLON -> strcmp (me_tag m) (pre ++ q) < 0) ->
  InvalidateWalk s pre rest time = Ok s.
Proof.
  induction rest as [|c rest IH]; intros s pre time Hl Hn; [done|]. cbn [InvalidateWalk].
  assert (H1 : c = COLON -> forall d, Store_InvalidateTag s (pre ++ [c]) d time = Ok s).
  { intros -> d. apply InvalidateTag_nothing. apply Forall_forall. intros m Hm. apply (Hn m [COLON] Hm); [|done].
    apply prefix_cons, prefix_nil. }
  destruct rest as [|c' rest].
  { cbn in Hl. injection Hl as ->. rewrite Z.eqb_refl. by apply H1. }
  assert (H2 : InvalidateWalk s (pre ++ [c]) (c' :: rest) time = Ok s).
  { apply IH; [done|]. intros m q Hm Hq Hlq. rewrite <- app_assoc. apply (Hn m (c :: q) Hm); [by apply prefix_cons|].
    destruct q; [done|]. by rewrite last_cons_cons. }
  destruct (Z.eqb_spec c COLON) as [Hc|Hc]; [|done]. by rewrite (H1 Hc), bind_ret_l.
Qed.

Lemma Tags_nothing tags (s : Store_t) time :
  Forall (fun tg => last tg = Some COLON /\ nothing_indexed s tg) tags -> InvalidateTags s tags time = Ok s.
Proof.
  induction 1 as [|tg tags [Hl Hn] _ IH]; cbn [InvalidateTags]; [done|].
  unfold Store_InvalidateTagAndAncestorsDescendants. by rewrite Walk_nothing, bind_ret_l.
Qed.

(** A value that was computed after the last message before the one at [ts], and ends
    no later than that. *)
Definition late (s : Store_t) (ts : Z) (i : interval_t) : Prop :=
  interval_ok i /\ stillValid i = true /\ lastInvalTime s < upper i <= ts.

(** C39: three ways in which a still-valid value that arrives after the message that
    invalidates it is stored as still valid, in any state of the store.  First, a message
    is not buffered at all for tags that all registered tags sort before; whatever its
    tags, a late value then keeps its interval.  Second, the message is not found when the
    interval ends exactly at its pin, because the comparison function orders a NULL tag
    last.  Third, of a message that names a tag [t] and then one of its ancestors [p] the
    buffer keeps [p] without its descendants: a late value with a tag below [p], which the
    message affects, keeps its interval when its tag is neither above nor below [t]. *)
Theorem Store_buffer_misses (s : Store_t) ts time :
  Inv s -> lastInvalTime s < ts < PIN_INF ->
  (forall tags, Forall (fun tg => last tg = Some COLON /\ nothing_indexed s tg) tags ->
     exists s', Store_Invalidate s ts tags time = Ok s' /\
       forall i tags', late s ts i -> Store_TruncateIfAlreadyInvalidated s' i tags' = Ok i) /\
  (forall tags, Forall (fun tg => last tg = Some COLON) tags ->
     exists s', Store_Invalidate s ts tags time = Ok s' /\
       forall i tags', late s ts i -> upper i = ts -> Store_TruncateIfAlreadyInvalidated s' i tags' = Ok i) /\
  (forall t p u, last t = Some COLON -> last p = Some COLON -> p `prefix_of` t -> p `prefix_of` u -> u <> p ->
     ~ u `prefix_of` t -> ~ t `prefix_of` u ->
     affects p u = true /\
     exists s', Store_Invalidate s ts [t; p] time = Ok s' /\
       forall i, late s ts i -> Store_TruncateIfAlreadyInvalidated s' i [u] = Ok i).
Proof.
  intros HI Ht. pose proof (Inv_lastInvalTime s ts HI ltac:(lia)) as HI0. split_and!.
  - intros tags HF. rewrite (Invalidate_split s ts tags time (set_lastInvalTime ts s)); [|done|done|by apply Tags_nothing].
    destruct (after_message (fun _ => False) s (set_lastInvalTime ts s) ts time HI Ht) as (s' & -> & HI' & _ & Hv & Hb);
      [by apply buffers_refl|done|].
    exists s'. split; [done|]. intros i tags' (Hi & Hs & Hu). apply late_kept; try done; [lia|].
    intros b Hin Hlt. destruct (Hb b Hin); [lia|done].
  - intros tags HF. destruct (Tags_buffers tags (set_lastInvalTime ts s) time HI0 HF) as (s1 & E & B).
    rewrite (Invalidate_split s ts tags time s1) by done.
    destruct (after_message _ s s1 ts time HI Ht B) as (s' & -> & HI' & _ & Hv & Hb).
    { intros b (tg & _ & Hp & Hbt & _). done. }
    exists s'. split; [done|]. intros i tags' (Hi & Hs & Hu) Eu. apply late_kept; try done; [lia|].
    intros b Hin Hlt. destruct (Hb b Hin) as [|(tg & _ & Hp & _)]; [lia|]. cbn in Hp. lia.
  - intros t p u Hlt Hlp Hpt Hpu Hne Hut Htu. split.
    { unfold affects. by rewrite bool_decide_eq_true_2. }
    destruct (Walk_buffers t (set_lastInvalTime ts s) [] time HI0 Hlt) as (s1 & E1 & B1 & T1).
    destruct (Walk_buffers p s1 [] time (bu_inv _ _ _ B1) Hlp) as (s2 & E2 & B2 & _).
    set (Q b := be_pin b = ts /\ be_time b = time /\ buffer_matches b [u] = false).
    assert (HN : forall b, (if be_descendants b then be_tag b = t else be_tag b `prefix_of` t) \/
        (be_descendants b = false /\ be_tag b `prefix_of` p) -> buffer_matches b [u] = false).
    { intros b Hb. apply not_true_is_false. rewrite matches_one. intros Hm. destruct (be_descendants b).
      - destruct Hb as [Hb|[[=] _]]. by rewrite Hb in Hm.
      - rewrite Hm in Hb. destruct Hb as [?|[_ Hb]]; [done|]. by apply Hne, (anti_symm prefix). }
    assert (B : buffers Q (set_lastInvalTime ts s) s2).
    { eapply buffers_trans; [eapply buffers_impl; [|exact B1]|eapply buffers_impl; [|exact B2]].
      - intros b [(? & ? & ?) _]. split_and!; try done. apply HN. by left.
      - rewrite (bu_time _ _ _ B1). intros b [(? & ? & Hb) Hd]. split_and!; try done. apply HN. right.
        destruct (be_descendants b); [|done]. by destruct (Hd eq_refl (T1 p Hpt Hlp)). }
    rewrite (Invalidate_split s ts [t; p] time s2); [|done|done|].
    2:{ cbn [InvalidateTags]. unfold Store_InvalidateTagAndAncestorsDescendants. rewrite E1, bind_ret_l, E2. done. }
    destruct (after_message Q s s2 ts time HI Ht B) as (s' & -> & HI' & _ & Hv & Hb); [by intros b (? & ? & _)|].
    exists s'. split; [done|]. intros i (Hi & Hs & Hu). apply late_kept; try done; [lia|].
    intros b Hin Hltb. destruct (Hb b Hin) as [|(_ & _ & ?)]; [lia|done].
Qed.

End Buffer.

(** ** Witness *)

(** [t:] is invalidated after [t:a:]; a value tagged [t:b:] is late. *)
Lemma Store_buffer_misses_witness :
  affects (str "t:") (str "t:b:") = true /\
  exists s', Store_Invalidate ex_one 20 [str "t:a:"; str "t:"] 9 = Ok s' /\
    forall i, late ex_one 20 i -> Store_TruncateIfAlreadyInvalidated s' i [str "t:b:"] = Ok i.
Proof.
  destruct (Store_buffer_misses ex_one 20 9) as (_ & _ & H3); [apply ex_one_Inv|vm_compute; done|].
  apply H3; try done.
  - by exists (str "a:").
  - by exists (str "b:").
  - intros [x E]. vm_compute in E. done.
  - intros [x E]. vm_compute in E. done.
Defined.

(** The three cases to the end: the late value is returned for pins at which the
    database has another one. *)
Lemma late_values_served :
  data_at (inval_at (put_at (inval_at ex_empty 20 [str "t:a:"]) ex_key (Interval 5 10 true) [1]
    [str "t:a:"] 1000) 40 [str "u:"]) ex_key 39 = Some ([1], Interval 5 10 true) /\
  (let s := inval_at ex_one 20 [str "t:a:"] in
   map be_pin (invalBuffer s) = [20; 20] /\
   data_at (inval_at (put_at s ex_key2 (Interval 5 20 true) [9] [str "t:a:"] 2000) 40 [str "u:"])
     ex_key2 39 = Some ([9], Interval 5 20 true)) /\
  (let s := put_at ex_one ex_key2 (Interval 5 10 true) [7] [str "u:"] 2000 in
   let s := inval_at s 20 [str "t:a:"; str "t:"] in
   map (fun b => (be_tag b, be_descendants b)) (invalBuffer s) =
     [(str "t:", false); (str "t:a:", true)] /\
   data_at (inval_at (put_at s (le_bytes 4 3 ++ str "foo/3") (Interval 5 15 true) [9] [str "t:b:"] 3000)
     40 [str "v:"]) (le_bytes 4 3 ++ str "foo/3") 39 = Some ([9], Interval 5 15 true)).
Proof. split; [|split; cbv zeta; split]; vm_compute; reflexivity. Qed.
