(* ===== verification/StoreTrace.v ===== *)
(** * Consistency of the cache with the database

    The database is a relation between keys, values and pins, and a stream of
    invalidation messages.  A still-valid value that is put promises to stay the
    value of its key until the stream has a message that affects one of its tags.
    Under that promise every version the store holds is, at every pin it covers,
    the value of its key, after any sequence of calls. *)

From S2P Require Import Prelude CLib Interval Truth Memory Hash DblList OrdTree Eviction StoreData StatsText Store StoreInv StoreInval StorePut StoreProps.

Section Trace.

Context {P : Type} `{!EvictionPolicy P} `{!EvictionPolicyLaws P}.

Notation Store_t := (Store_t P).

(** [V k d t]: [d] is the value of [k] at pin [t].  [log] is the whole stream,
    messages the store has not received yet included. *)
Variable V : key -> list Z -> Z -> Prop.
Variable log : list (Z * list tag).

(** Whether the still-valid entries keep their promise from the end of their own
    interval on, as a client that reads them needs it, or only from the last
    message on, as the store itself needs it. *)
Variable strict : bool.

Notation quiet := (quiet log).
Notation truthful := (truthful V log).

(** The buffer holds an invalidation for every received message, from the end
    of the interval on, that affects the tags. *)
Definition buffer_complete (s : Store_t) (i : interval_t) (tags : list tag) : Prop :=
  forall ts msg, (ts, msg) ∈ log -> upper i <= ts <= lastInvalTime s -> hits_tags msg tags = true ->
    exists b, b ∈ invalBuffer s /\ buffer_matches b tags = true /\ upper i < be_pin b <= ts.

(** A still-valid put is computed from the present, or is older than the buffer,
    or finds its invalidation in the buffer. *)
Definition timely (s : Store_t) (i : interval_t) (tags : list tag) : Prop :=
  stillValid i = true ->
  lastInvalTime s < upper i \/ upper i <= bufferValidFrom s \/ buffer_complete s i tags.

(** The last pin whose messages an entry does not depend on any more. *)
Definition since (now : Z) (i : interval_t) : Z := if strict then Z.max now (upper i - 1) else now.

(** A version without an end is of a constant. *)
Definition endless (k : key) (i : interval_t) (d : list Z) : Prop :=
  strict = true -> upper i = PIN_INF -> always (V k d).

(** The entry is right about the present, and closed before it is wrong. *)
Definition right (now : Z) (k : key) (i : interval_t) (d : list Z) (tags : list tag) : Prop :=
  (forall t, lower i <= t < upper i -> V k d t) /\
  (stillValid i = true -> forall t, upper i <= t -> quiet (since now i) t tags -> V k d t) /\
  endless k i d.

Definition right_entry (now : Z) (e : entry_t) : Prop :=
  right now (vset e) (interval e) (data e) (invalTags e).

Definition consistent (s : Store_t) : Prop :=
  forall id e, heap s !! id = Some e -> right_entry (lastInvalTime s) e.

(** The next message of the stream. *)
Definition next_message (s : Store_t) (ts : Z) (msg : list tag) : Prop :=
  (ts, msg) ∈ log /\
  forall ts' msg', (ts', msg') ∈ log -> lastInvalTime s < ts' -> ts < ts' \/ (ts' = ts /\ msg' = msg).

(** A put that is ahead of the messages does not step over one that closes a
    still-valid version with the same data. *)
Definition in_step (s : Store_t) (k : key) (i : interval_t) (d : list Z) : Prop :=
  forall id e, heap s !! id = Some e -> vset e = k -> data e = d -> stillValid (interval e) = true ->
    quiet (lastInvalTime s) (upper i - 1) (invalTags e).

Definition event_ok (s : Store_t) (c : call) : Prop :=
  call_ok s c /\
  match c with
  | CPut k i d tags force al time => 
    truthful k i d tags /\ timely s i tags /\ endless k i d /\ (strict = true -> in_step s k i d)
  | CInvalidate ts msg time => next_message s ts msg
  | _ => True
  end.

Inductive history (maxB uselessB : Z) : Store_t -> Prop :=
| history_init s junk : Store_Init maxB uselessB true junk = Ok s -> history maxB uselessB s
| history_event s c s' : history maxB uselessB s -> event_ok s c -> run s c = Ok s' ->
    history maxB uselessB s'.

(** ** Lemmas *)

Lemma since_ge now i : now <= since now i.
Proof. unfold since. destruct strict; lia. Qed.

Lemma right_covers now k i d tags t : right now k i d tags -> covers now i t -> V k d t.
Proof.
  intros (H1 & H2 & _). unfold covers, eff_upper. destruct (stillValid i) eqn:S; intros Ht; [|auto].
  destruct (Z.lt_ge_cases t (upper i)); [apply H1; lia|].
  apply (H2 eq_refl); [done|]. apply quiet_none. pose proof (since_ge now i). lia.
Qed.

Lemma right_truncate now time e :
  right_entry now e -> stillValid (interval e) = true -> now < PIN_INF ->
  right_entry now (truncate_entry now time e).
Proof.
  intros HR S Hn. unfold right_entry. cbn. split_and!; [|done|]; cbn.
  - intros t Ht. apply (right_covers now _ (interval e) _ (invalTags e)); [done|].
    unfold covers, eff_upper. by rewrite S.
  - intros Hs E. apply (proj2 (proj2 HR) Hs). cbn in E. lia.
Qed.

Lemma right_implicit (s : Store_t) i time e :
  Inv s -> right_entry (lastInvalTime s) e -> right_entry (lastInvalTime s) (implicit s i time e).
Proof.
  intros HI HR. unfold implicit. destruct (stillValid (interval e)) eqn:S; cbn [andb]; [|done].
  destruct (_ <=? _); [apply right_truncate; [done..|apply (inv_time s HI)]|done].
Qed.

(** Two overlapping intervals with the same data. *)
Lemma right_extend now k i d tags e :
  right_entry now e -> right now k i d tags -> vset e = k -> data e = d ->
  (exists t, covers now (interval e) t /\ covers now i t) ->
  lower (interval e) <= lower i -> upper (interval e) < upper i ->
  (strict = true -> stillValid (interval e) = true -> quiet now (upper i - 1) (invalTags e)) ->
  right_entry now (set_interval (set_upper (upper i) (interval e)) e).
Proof.
  intros HR HI Hv Hd (t0 & H1 & H2) Hl Hu Hs. unfold right_entry. cbn. split_and!; cbn.
  - intros t Ht. destruct (Z.lt_ge_cases t (lower i)) as [Hlt|Hge].
    + apply (right_covers now _ (interval e) _ (invalTags e)); [done|].
      unfold covers in *. lia.
    + rewrite Hv, Hd. apply (proj1 HI). lia.
  - intros S t Ht Hq. apply (proj1 (proj2 HR)); [done|lia|]. intros ts msg Hin Hts. unfold since in *. cbn in Hq.
    destruct strict eqn:E; [|by apply (Hq ts msg)].
    destruct (Z.lt_ge_cases ts (upper i)); [apply (Hs eq_refl S ts msg Hin)|apply (Hq ts msg Hin)]; lia.
  - rewrite Hv, Hd. apply HI.
Qed.

(** What is stored for a truthful and timely put. *)
Lemma right_put (s : Store_t) k i d tags :
  Inv s -> interval_ok i -> truthful k i d tags -> timely s i tags -> endless k i d ->
  right (lastInvalTime s) k (put_interval s i tags) d tags.
Proof.
  intros HI Hi [T1 T2] Ht He. unfold put_interval.
  destruct (stillValid i) eqn:S; [|split_and!; [done|congruence|done]].
  destruct (TruncateIf_spec s i tags HI Hi S) as (i' & -> & _ & H1 & H2 & H3).
  specialize (T2 eq_refl). specialize (Ht S).
  destruct (Z.lt_ge_cases (lastInvalTime s) (upper i)) as [C|C].
  { rewrite (H1 C). split_and!; [done| |done]. intros _ t Ht' Hq. apply T2; [done|].
    intros ts msg Hin Hts. apply (Hq ts msg Hin). unfold since. destruct strict; lia. }
  destruct (Z.le_gt_cases (upper i) (bufferValidFrom s)) as [D|D].
  { by rewrite (H2 C D). }
  destruct Ht as [Ht|[Ht|Ht]]; [lia..|].
  destruct (H3 C D) as [[-> Hn]|(b & Hb & Hbp & Hbm & -> & Hmin)].
  - split_and!; [done| |done]. intros _ t Ht' Hq. apply T2; [done|]. intros ts msg Hin Hts.
    destruct (Z.le_gt_cases ts (lastInvalTime s)) as [Hle|Hgt]; [|apply (Hq ts msg Hin); unfold since; destruct strict; lia].
    apply not_true_is_false. intros Hh.
    destruct (Ht ts msg Hin ltac:(lia) Hh) as (b & Hb & Hbm & Hbp).
    rewrite (Hn b Hb ltac:(lia)) in Hbm. done.
  - pose proof (inv_buffer s HI b Hb) as [_ Hbl]. pose proof (inv_time s HI) as [_ Hlt].
    split_and!; [|done|]; cbn.
    2:{ intros _ E. cbn in E. lia. }
    intros t Htt. destruct (Z.lt_ge_cases t (upper i)); [apply T1; lia|].
    apply T2; [done|]. intros ts msg Hin Hts. apply not_true_is_false. intros Hh.
    destruct (Ht ts msg Hin ltac:(lia) Hh) as (b' & Hb' & Hbm' & Hbp').
    pose proof (Hmin b' Hb' ltac:(lia) Hbm'). lia.
Qed.

(** Truncation does not move the end past the last message. *)
Lemma in_step_put (s : Store_t) k i d tags :
  Inv s -> interval_ok i -> in_step s k i d -> in_step s k (put_interval s i tags) d.
Proof.
  intros HI Hi Hs. unfold put_interval. destruct (stillValid i) eqn:S; [|done].
  destruct (TruncateIf_spec s i tags HI Hi S) as (i' & -> & _ & H1 & H2 & H3).
  assert (E : upper i' = upper i \/ upper i' <= lastInvalTime s).
  { destruct (Z.lt_ge_cases (lastInvalTime s) (upper i)) as [C|C]; [left; by rewrite (H1 C)|].
    destruct (Z.le_gt_cases (upper i) (bufferValidFrom s)) as [D|D]; [rewrite (H2 C D); cbn; lia|].
    destruct (H3 C D) as [[-> _]|(b & Hb & _ & _ & -> & _)]; [by left|right].
    pose proof (inv_buffer s HI b Hb). cbn. lia. }
  intros id e He Hv Hd Hst. destruct E as [E|E]; [rewrite E; by apply (Hs id e)|apply quiet_none; lia].
Qed.

(** ** Calls keep the store consistent *)

Lemma consistent_subset (s s' : Store_t) :
  consistent s -> heap s' ⊆ heap s -> lastInvalTime s' = lastInvalTime s -> consistent s'.
Proof. intros HC Hh El id e He. rewrite El. apply (HC id). by eapply lookup_weaken. Qed.

Lemma consistent_put_call (s s' : Store_t) k i d tags time :
  Inv s -> consistent s -> right (lastInvalTime s) k i d tags -> lastInvalTime s' = lastInvalTime s ->
  (strict = true -> in_step s k i d) ->
  (forall id e, heap s' !! id = Some e ->
     origin s k i d (if stillValid i then tags else []) time e) ->
  consistent s'.
Proof.
  intros HI HC HR El Hin Ho id e He. rewrite El.
  destruct (Ho id e He) as [x a Ha|x a Ha Hv|x a a1 Ha Hv -> Hov Hd Hl Hu|i' _ Hl Hu Hs].
  - by apply (HC x).
  - by apply right_implicit; [|apply (HC x)].
  - eapply right_extend; try done; [by apply right_implicit; [|apply (HC x)]| |].
    + rewrite (proj1 (implicit_eq s i time a)). done.
    + intros Hst S. destruct (implicit_eq s i time a) as (_ & _ & _ & _ & _ & Ei).
      destruct (Ei S) as [_ E]. rewrite E in *. by apply (Hin Hst x).
  - destruct HR as (R1 & R2 & R3). unfold right_entry, new_entry. cbn. split_and!.
    + intros t Ht. apply R1. lia.
    + rewrite Hs. intros S. rewrite S in *. intros t Ht. unfold since. cbn. rewrite Hu. apply R2; [done|lia].
    + unfold endless in *. by rewrite Hu.
Qed.

Lemma consistent_invalidate (s s' : Store_t) ts msg time :
  consistent s -> next_message s ts msg -> lastInvalTime s < ts < PIN_INF -> lastInvalTime s' = ts ->
  heap s' = invalidated msg ts time <$> heap s -> consistent s'.
Proof.
  intros HC [Hin Hnext] Hlt El Hh id e. rewrite Hh, El, lookup_fmap.
  intros (a & Ha & ->)%fmap_Some. pose proof (HC id a Ha) as HR.
  assert (Hq : forall t, t < ts -> forall tags, quiet (lastInvalTime s) t tags).
  { intros t Ht tags ts' msg' Hin' Hts'. destruct (Hnext ts' msg' Hin' ltac:(lia)); lia. }
  unfold invalidated, close_if. destruct (stillValid (interval a)) eqn:S; cbn [andb].
  2:{ split_and!; [apply HR|congruence|apply HR]. }
  fold (hits_tags msg (invalTags a)). destruct (hits_tags msg (invalTags a)) eqn:Hm.
  - unfold right_entry. cbn. split_and!; [|done|]; cbn.
    2:{ intros Hs E. apply (proj2 (proj2 HR) Hs). cbn in E. lia. }
    intros t Ht.
    destruct (Z.lt_ge_cases t (upper (interval a))); [apply (proj1 HR); lia|].
    apply (proj1 (proj2 HR) S); [done|]. intros ts' msg' Hin' Hts'.
    apply (Hq t ltac:(lia) _ ts' msg' Hin'). pose proof (since_ge (lastInvalTime s) (interval a)). lia.
  - split_and!; [apply HR| |apply HR]. intros _ t Ht Hqt. apply (proj1 (proj2 HR) S t Ht).
    intros ts' msg' Hin' Hts'. pose proof (since_ge (lastInvalTime s) (interval a)).
    destruct (Hnext ts' msg' Hin' ltac:(lia)) as [Hgt|[-> ->]]; [|done].
    apply (Hqt ts' msg' Hin'). unfold since in *. destruct strict; lia.
Qed.

Lemma consistent_run (s s' : Store_t) c :
  Inv s -> lookupPolicyTable s = policy_table -> consistent s -> event_ok s c -> run s c = Ok s' ->
  consistent s'.
Proof.
  intros HI HT HC [Hok Hev].
  destruct c as [k i ep pid|k i d tags force al time|ts tags time|n| |time| |]; cbn in *.
  - destruct Hok as (Hk & Hi & Hp).
    destruct (Lookup_ok s k i ep pid HI HT Hk Hi Hp) as (s1 & r & -> & _ & HF & _).
    intros [= <-]. destruct HF as (Hh & _ & _ & _ & _ & (_ & El & _) & _).
    intros id e. rewrite Hh, El. destruct r as [x|]; [|apply HC].
    destruct (decide (id = x)) as [->|Hne]; [|rewrite lookup_alter_ne by done; apply HC].
    rewrite lookup_alter_eq. intros (a & Ha & ->)%fmap_Some. exact (HC x a Ha).
  - destruct (Put_ok s k i d tags force al time HI Hok) as [(s1 & ok & -> & [_ C _ Oe _ _] & _)|(f & -> & _)]; [|done].
    intros [= <-]. destruct Hev as (Ht & Htm & He & Hs). pose proof (pa_interval _ _ _ _ _ _ Hok) as Hi.
    eapply consistent_put_call; [done|done|by apply right_put|apply C| |exact Oe].
    intros Hst. by apply in_step_put, Hs.
  - destruct Hok as [Ht Htags].
    destruct (Invalidate_ok s ts tags time HI Ht Htags) as (s1 & -> & _ & Hh & _ & El & _).
    intros [= <-]. by eapply consistent_invalidate; [|exact Hev|lia|exact El|exact Hh].
  - destruct (Evict_ok s n HI Hok) as [(s1 & ok & -> & _ & Hh & _ & _ & _ & C & _)|(s1 & f & -> & _)]; [|done].
    intros [= <-]. eapply consistent_subset; [done|done|apply C].
  - destruct (Flush_ok s HI Hok) as (s1 & -> & _ & Hh & _ & _ & C & _).
    intros [= <-]. eapply consistent_subset; [done|rewrite Hh; apply map_empty_subseteq|apply C].
  - destruct (RemoveUseless_ok s time HI) as (s1 & -> & _ & Hh & _ & _ & _ & C & _).
    intros [= <-]. eapply consistent_subset; [done|done|apply C].
  - intros [= <-]. exact HC.
  - unfold Store_EvictionOrderIterNext. destruct (ep_iterNext _) as [[p r]|f]; [|done]. intros [= <-]. exact HC.
Qed.

Lemma history_ok maxB uselessB (s : Store_t) :
  history maxB uselessB s -> Inv s /\ lookupPolicyTable s = policy_table /\ consistent s.
Proof.
  induction 1 as [s junk E|s c s' _ IH Hc E].
  - destruct (Init_ok maxB uselessB junk) as (s0 & E0 & HI & HT & Hh & _).
    rewrite E in E0. injection E0 as ->. split_and!; try done. intros x e. by rewrite Hh, lookup_empty.
  - destruct IH as (HI & HT & HC).
    destruct (run_ok s c HI HT (proj1 Hc)) as [(s1 & E1 & HI1 & HT1 & _)|(f & E1 & _)]; [|congruence].
    rewrite E in E1. injection E1 as <-. split_and!; try done. by eapply (consistent_run s).
Qed.

End Trace.

(** ** Property *)

(** C3: as long as clients put what is true of the database, and no late put
    misses its invalidation in the buffer, a lookup under the default policy
    only returns entries whose data is the value of the key at every pin they
    cover, up to the last invalidation received; one of these pins is in the
    interval that was asked for. *)
Theorem Store_consistent `{!EvictionPolicy P} `{!EvictionPolicyLaws P} V log maxB uselessB
    (s s' : Store_t P) k i earliestPin id :
  history V log false maxB uselessB s -> key_ok k -> interval_ok i ->
  Store_Lookup s k i earliestPin LOOKUP_POLICY_LATEST = Ok (s', Some id) ->
  exists e, heap s !! id = Some e /\ vset e = k /\
    (forall t, covers (lastInvalTime s) (interval e) t -> V k (data e) t) /\
    (exists t, covers (lastInvalTime s) (interval e) t /\ covers (lastInvalTime s) i t).
Proof.
  intros Hh Hk Hi HL. destruct (history_ok _ _ _ _ _ s Hh) as (HI & HT & HC).
  destruct (Lookup_ok s k i earliestPin LOOKUP_POLICY_LATEST HI HT Hk Hi ltac:(done))
    as (s1 & r & E & _ & _ & HR). rewrite E in HL. injection HL as <- ->.
  destruct (proj1 (HR id) eq_refl) as (e & (Hid & Hv & _) & Ha). exists e. split_and!; try done.
  intros t Ht. rewrite <- Hv. by eapply right_covers; [apply (HC id e Hid)|].
Qed.

(** ** Witness *)

(** The value of [ex_key] changes at pin 20, with a message for [t:a:]. *)
Definition ex_V (k : key) (d : list Z) (t : Z) : Prop :=
  k = ex_key /\ d = [1; 2; 3] /\ 5 <= t < 20.

Definition ex_log : list (Z * list tag) := [(20, [str "t:a:"])].

Definition ex_closed : Store_t LRUEviction_State_t := inval_at ex_one 20 [str "t:a:"].

Lemma ex_closed_history : history ex_V ex_log false 100000 60 ex_closed.
Proof.
  apply (history_event _ _ _ _ _ ex_one (CInvalidate 20 [str "t:a:"] 9)); [|split; [split|]|].
  - apply (history_event _ _ _ _ _ ex_empty
      (CPut ex_key (Interval 5 10 true) [1; 2; 3] ex_tags false (ex_al 1000) 7)).
    + by apply (history_init _ _ _ _ _ _ 7).
    + split; [apply ex_put_args; (done || cbn; lia)|]. split_and!; [split|by left|done|done].
      * intros t Ht. cbn in Ht. unfold ex_V. split_and!; done || lia.
      * intros _ t Ht Hq. cbn in *. unfold ex_V. split_and!; try done; try lia.
        apply Znot_ge_lt. intros Hge. specialize (Hq 20 [str "t:a:"] ltac:(by left) ltac:(lia)).
        vm_compute in Hq. done.
    + vm_compute. reflexivity.
  - vm_compute. done.
  - by repeat constructor.
  - split; [by left|]. intros ts' msg' [[= -> ->]|[]%elem_of_nil]%elem_of_cons _. by right.
  - vm_compute. reflexivity.
Qed.

Lemma Store_consistent_witness :
  exists s', Store_Lookup ex_closed ex_key (Interval 15 18 false) 3 LOOKUP_POLICY_LATEST = Ok (s', Some 1000) /\
  exists e, heap ex_closed !! 1000 = Some e /\ vset e = ex_key /\
    (forall t, covers (lastInvalTime ex_closed) (interval e) t -> ex_V ex_key (data e) t) /\
    (exists t, covers (lastInvalTime ex_closed) (interval e) t /\
               covers (lastInvalTime ex_closed) (Interval 15 18 false) t).
Proof.
  eexists. split; [vm_compute; reflexivity|].
  eapply (Store_consistent ex_V ex_log 100000 60 ex_closed _ ex_key (Interval 15 18 false) 3 1000);
    [apply ex_closed_history|apply ex_key_ok|done|vm_compute; reflexivity].
Defined.
