(* ===== verification/Registry.v ===== *)
(** * Registration of policies (src/server/store.c)

    The lists of lookup and eviction policies that constructor functions build
    before [main], through the [next] pointers of the policies themselves. *)

From S2P Require Import Prelude CLib Interval Truth Memory Hash DblList OrdTree Eviction StoreData StatsText Store StoreInv StoreInval StorePut StoreProps.

(** Policies are named by their addresses; [next] holds the pointers that are not
    NULL, and 0 is NULL. *)
Record registry_t : Type := Registry {
  policyHead : Z;
  next : gmap Z Z
}.

Definition empty_registry : registry_t := Registry 0 ∅.

Definition _Store_RegisterLookupPolicy (r : registry_t) (policy : Z) : res registry_t :=
  if negb (default 0 (next r !! policy) =? 0) then Fault PanicCall
  else Ok (Registry policy (<[policy := policyHead r]> (next r))).

Definition _Store_RegisterEvictionPolicy (r : registry_t) (policy : Z) : res registry_t :=
  if negb (default 0 (next r !! policy) =? 0) then Fault PanicCall
  else Ok (Registry policy (<[policy := policyHead r]> (next r))).

(** The loops over a list from [p]. *)
Fixpoint PolicyLoop (fuel : nat) (r : registry_t) (p : Z) : res (list Z) :=
  match fuel with
  | O => Fault NoFuel
  | S fuel =>
    if p =? 0 then Ok []
    else l ← PolicyLoop fuel r (default 0 (next r !! p)); Ok (p :: l)
  end.

Definition tolower (c : Z) : Z := if (65 <=? c) && (c <=? 90) then c + 32 else c.

(** Whether [strcasecmp] answers 0. *)
Definition strcasecmp0 (a b : list Z) : bool := bool_decide (map tolower a = map tolower b).

(** [names] gives the [name] of each policy. *)
Fixpoint GetPolicyLoop (fuel : nat) (r : registry_t) (names : Z -> list Z) (name : list Z) (p : Z) : res Z :=
  match fuel with
  | O => Fault NoFuel
  | S fuel =>
    if p =? 0 then Ok 0
    else if strcasecmp0 name (names p) then Ok p
    else GetPolicyLoop fuel r names name (default 0 (next r !! p))
  end.

Definition _Store_GetEvictionPolicy (fuel : nat) (r : registry_t) (names : Z -> list Z) (name : list Z) : res Z :=
  GetPolicyLoop fuel r names name (policyHead r).

(** ** Lemmas *)

Definition RegisterAll (r : registry_t) (ps : list Z) : res registry_t :=
  foldl (fun r p => r ← r; _Store_RegisterLookupPolicy r p) (Ok r) ps.

(** The list from a pointer. *)
Fixpoint chain (r : registry_t) (p : Z) (l : list Z) : Prop :=
  match l with
  | [] => p = 0
  | x :: l => p = x /\ x <> 0 /\ exists q, next r !! x = Some q /\ chain r q l
  end.

Lemma chain_loop l : forall r p n, chain r p l -> (length l <= n)%nat -> PolicyLoop (S n) r p = Ok l.
Proof.
  induction l as [|x l IH]; intros r p n Hc Hn; cbn [chain] in Hc.
  { by subst p. }
  destruct Hc as (-> & Hx & q & Hq & Hc). destruct n as [|n]; [cbn in Hn; lia|].
  change (PolicyLoop (S (S n)) r x) with
    (if x =? 0 then Ok [] else l ← PolicyLoop (S n) r (default 0 (next r !! x)); Ok (x :: l)).
  rewrite (proj2 (Z.eqb_neq x 0)), Hq by done. cbn [default]. unfold id. rewrite (IH r q n) by (done || (cbn in Hn; lia)). done.
Qed.

Lemma chain_fresh l : forall r p x h, x ∉ l -> chain r p l -> chain (Registry h (<[x := policyHead r]> (next r))) p l.
Proof.
  induction l as [|y l IH]; intros r p x h Hx; cbn [chain]; [done|]. intros (-> & Hy & q & Hq & Hc).
  apply not_elem_of_cons in Hx as [Hxy Hx]. split_and!; [done..|]. exists q. cbn [next].
  rewrite lookup_insert_ne by done. split; [done|by apply IH].
Qed.

Lemma RegisterAll_ok ps : forall r l, chain r (policyHead r) l -> dom (next r) = list_to_set l ->
  NoDup (ps ++ l) -> 0 ∉ ps ->
  exists r', RegisterAll r ps = Ok r' /\ chain r' (policyHead r') (reverse ps ++ l) /\
    dom (next r') =@{gset Z} list_to_set (reverse ps ++ l).
Proof.
  unfold RegisterAll. induction ps as [|p ps IH]; intros r l Hc Hd Hn H0; cbn [foldl].
  { by exists r. }
  apply NoDup_cons in Hn as [Hp Hn]. apply not_elem_of_cons in H0 as [H0p H0].
  apply not_elem_of_app in Hp as [Hps Hl].
  rewrite bind_ret_l. unfold _Store_RegisterLookupPolicy at 2.
  assert (E : next r !! p = None) by (apply not_elem_of_dom; rewrite Hd; set_solver).
  rewrite E. cbn [default Z.eqb negb].
  destruct (IH (Registry p (<[p := policyHead r]> (next r))) (p :: l)) as (r' & E' & C' & D').
  - cbn [chain policyHead next]. split_and!; [done..|]. exists (policyHead r). rewrite lookup_insert_eq.
    split; [done|by apply chain_fresh].
  - cbn [next]. rewrite dom_insert_L, Hd. done.
  - rewrite <- Permutation_middle. cbn. apply NoDup_cons. split; [set_solver|done].
  - done.
  - exists r'. rewrite reverse_cons, <- app_assoc. done.
Qed.

(** Policies registered once each are found in the reverse order, and none is
    lost. *)
Lemma registered_in_order ps : NoDup ps -> 0 ∉ ps ->
  exists r, RegisterAll empty_registry ps = Ok r /\ PolicyLoop (S (length ps)) r (policyHead r) = Ok (reverse ps).
Proof.
  intros Hn H0. destruct (RegisterAll_ok ps empty_registry []) as (r & E & C & _); [done|done|by rewrite app_nil_r|done|].
  exists r. split; [done|]. rewrite app_nil_r in C. apply chain_loop; [done|]. by rewrite length_reverse.
Qed.

(** The first policy of the list has no [next], so the test for a second
    registration misses it: the list then runs in a circle and the loops of
    [Store_Init] never end. *)
Lemma first_policy_twice p : p <> 0 ->
  exists r, RegisterAll empty_registry [p; p] = Ok r /\ forall fuel, PolicyLoop fuel r (policyHead r) = Fault NoFuel.
Proof.
  intros Hp. eexists. split.
  { unfold RegisterAll. cbn [foldl mbind res_bind]. unfold _Store_RegisterLookupPolicy at 2. cbn [next policyHead empty_registry].
    rewrite lookup_empty. cbn [default Z.eqb negb mbind res_bind]. unfold _Store_RegisterLookupPolicy. cbn [next policyHead].
    rewrite lookup_insert_eq. cbn. reflexivity. }
  cbn [policyHead]. intros fuel. induction fuel as [|fuel IH]; [done|]. cbn [PolicyLoop].
  rewrite (proj2 (Z.eqb_neq p 0)) by done. cbn [next]. rewrite lookup_insert_eq. cbn [default]. unfold id. by rewrite IH.
Qed.

(** The list of lookup policies that [Store_Init] turns into its table, from the
    two registrations of lookuppolicy.c. *)
Lemma lookup_table_registered :
  exists r, RegisterAll empty_registry [1; 2] = Ok r /\
    (l ← PolicyLoop 3 r (policyHead r);
     BuildLookupTable (map (fun p => if p =? 1 then LookupPolicy_Latest else LookupPolicy_ScrewConsistency) l)
       (replicate NUM_LOOKUP_POLICIES None)) =
    BuildLookupTable registered_policies (replicate NUM_LOOKUP_POLICIES None).
Proof. eexists. split; vm_compute; reflexivity. Qed.

(** The search finds a registered policy by its name in any case. *)
Lemma GetPolicy_ok l : forall r p n names name, chain r p l -> (length l <= n)%nat ->
  GetPolicyLoop (S n) r names name p = Ok (default 0 (list.head (filter (fun x => strcasecmp0 name (names x)) l))).
Proof.
  induction l as [|x l IH]; intros r p n names name Hc Hn; cbn [chain] in Hc.
  { by subst p. }
  destruct Hc as (-> & Hx & q & Hq & Hc). destruct n as [|n]; [cbn in Hn; lia|].
  remember (S n) as m. cbn [GetPolicyLoop]. rewrite (proj2 (Z.eqb_neq x 0)) by done. rewrite filter_cons. subst m.
  destruct (strcasecmp0 name (names x)) eqn:E.
  - rewrite decide_True by done. done.
  - rewrite decide_False by auto. rewrite Hq. apply IH; [done|]. cbn in Hn. lia.
Qed.
