(* ===== verification/Stats.v ===== *)
(** * Statistics of the cache server (src/server/store.c)

    When the text of [Store_DumpStats] (StatsText.v) fits its buffer, and
    [Store_ClearStats]. *)

From S2P Require Import Prelude CLib CText Interval Truth Memory Hash DblList OrdTree IOBuf Eviction StoreData StatsText Store StoreInv StoreInval StorePut StoreProps.

(** ** Resetting the statistics *)

Section Reset.

Context {P : Type} `{EvictionPolicy P}.

Notation Store_t := (Store_t P).

(** [left] are the classes that [HT_Unlink] leaves in the table
    ([HashTable.ClearStats]). *)
Definition Store_ClearStats (s : Store_t) (left : gmap key StoreClassStats_t) : res Store_t :=
  if bool_decide (classStats s = ∅) then Fault OutOfBounds
  else Ok (set_totalStats zero_stats (set_classStats left s)).

Definition Store_Release (s : Store_t) : Store_t := s.

End Reset.

(** ** Lemmas *)

Lemma round_half_even_le num den k : 0 < den -> num <= k * den -> round_half_even num den <= k.
Proof.
  intros Hd Hn. unfold round_half_even.
  pose proof (Z.mod_pos_bound num den Hd). pose proof (Z.div_mod num den ltac:(lia)).
  assert (num / den < k \/ num / den = k /\ num mod den = 0) as [?|[-> ->]] by nia.
  - repeat case_if; lia.
  - rewrite (proj2 (Z.ltb_lt (2 * 0) den)) by lia. done.
Qed.

Lemma round_half_even_nonneg num den : 0 < den -> 0 <= num -> 0 <= round_half_even num den.
Proof.
  intros Hd Hn. unfold round_half_even. pose proof (Z.div_pos num den Hn Hd). repeat case_if; lia.
Qed.

(** A quotient of at most 100 stays at most 100, and its exponent is negative. *)
Lemma round53_100 n d : 0 < d -> 0 <= n <= 100 * d ->
  exists m e, round53 n d = (m, - e) /\ 0 < e /\ 0 <= m <= 100 * 2 ^ e.
Proof.
  intros Hd Hn. unfold round53, scaled.
  assert (Hl : Z.log2 n - Z.log2 d <= 8).
  { pose proof (Z.log2_le_mono n (100 * d) ltac:(lia)). pose proof (Z.log2_mul_above 100 d ltac:(lia) ltac:(lia)).
    change (Z.log2 100) with 6 in *. lia. }
  set (e0 := Z.log2 n - Z.log2 d - 52) in *.
  set (e := if _ : bool then _ else _). assert (He : e < 0) by (subst e; case_if; lia).
  exists (round_half_even (n * 2 ^ Z.max 0 (- e)) (d * 2 ^ Z.max 0 e)), (- e).
  rewrite Z.opp_involutive, (Z.max_l 0 e), (Z.max_r 0 (- e)), Z.pow_0_r, Z.mul_1_r by lia.
  assert (0 < 2 ^ (- e)) by (apply Z.pow_pos_nonneg; lia). split_and!; [done|lia| |].
  - apply round_half_even_nonneg; nia.
  - apply round_half_even_le; nia.
Qed.

Lemma fmt_f1_width m e : 0 < e -> 0 <= m <= 100 * 2 ^ e -> (length (fmt_f1 (m, - e)) <= 5)%nat.
Proof.
  intros He Hm. unfold fmt_f1, scaled. cbn [fst snd].
  replace (- - e) with e by lia. rewrite (Z.max_r 0 e), (Z.max_l 0 (- e)), Z.pow_0_r, Z.mul_1_r, Z.mul_1_l by lia.
  assert (0 < 2 ^ e) by (apply Z.pow_pos_nonneg; lia).
  pose proof (round_half_even_le (10 * m) (2 ^ e) 1000 ltac:(lia) ltac:(lia)) as Ht.
  set (t := round_half_even _ _) in *. rewrite length_app. cbn [length].
  pose proof (digits_width 20 (t / 10) 3 ltac:(lia)) as Hw.
  enough (t / 10 < 10 ^ Z.of_nat 3) by (specialize (Hw H0); lia).
  apply Z.div_lt_upper_bound; [lia|]. change (10 ^ Z.of_nat 3) with 1000. lia.
Qed.

Lemma VAL_PCT_width v n : 0 <= v <= n -> n < 10 ^ 7 -> (length (VAL_PCT v n) <= 5)%nat.
Proof.
  intros Hv Hn. unfold VAL_PCT. case_if; [|vm_compute; lia].
  rewrite s64_small by lia. rewrite (proj2 (Z.ltb_ge (v * 100) 0)) by lia.
  unfold of_long, double_div. rewrite !(proj2 (Z.ltb_lt _ (2 ^ 53))) by lia. cbn [fst snd].
  unfold scaled. rewrite Z.sub_diag, !Z.mul_1_r.
  destruct (round53_100 (v * 100) n) as (m & e & -> & He & Hm); [lia|lia|]. by apply fmt_f1_width.
Qed.

(** Counters that stay in their columns. *)
Definition stats_fit (st : StoreClassStats_t) : Prop :=
  0 <= hits st <= lookups st /\ lookups st < 10 ^ 7 /\ hits st < 10 ^ 5 /\
  Forall (fun n => 0 <= n < 10 ^ 5)
    [keyMisses st; stalenessMisses st; capacityMisses st; consistencyMisses st; extensions st;
     potentialExtensions st; entries st].

Lemma length_col n : (6 <= length (col n))%nat /\ (0 <= n < 10 ^ 5 -> length (col n) = 6%nat).
Proof.
  unfold col. cbn [length]. rewrite length_pad_left. split; [lia|]. intros Hn.
  pose proof (fmt_ld_width n 5 ltac:(lia) Hn). lia.
Qed.

Lemma class_line_length name st :
  (84 <= length (Store_DumpClassStats name st))%nat /\
  (stats_fit st -> (length name <= 18)%nat -> length (Store_DumpClassStats name st) = 84%nat).
Proof.
  unfold Store_DumpClassStats. rewrite !length_app, length_pad_right, !length_pad_left. cbn [length]. split.
  - pose proof (fun n => proj1 (length_col n)) as L.
    pose proof (L (hits st)). pose proof (L (keyMisses st)). pose proof (L (stalenessMisses st)).
    pose proof (L (capacityMisses st)). pose proof (L (consistencyMisses st)). pose proof (L (extensions st)).
    pose proof (L (potentialExtensions st)). pose proof (L (entries st)). lia.
  - intros (Hh & Hl & Hh5 & HF) Hname. repeat apply Forall_cons in HF as [? HF].
    rewrite !(fun n => proj2 (length_col n)) by lia.
    pose proof (VAL_PCT_width (hits st) (lookups st) Hh Hl).
    pose proof (fmt_ld_width (lookups st) 7 ltac:(lia) ltac:(lia)). lia.
Qed.

Lemma length_header : length stats_header = 85%nat.
Proof. done. Qed.

(** The lines after the classes are of bounded length. *)
Lemma length_fmt_d n : (1 <= length (fmt_d n) <= 11)%nat.
Proof.
  unfold fmt_d. pose proof (fun x => digits_length 10 x) as L.
  assert (N : forall x, (1 <= length (digits 10 x))%nat).
  { intros x. pose proof (digits_nonempty 10 x ltac:(lia)). destruct (digits 10 x); [done|cbn; lia]. }
  case_if; cbn [length].
  - specialize (L (- s32 n)). lia.
  - specialize (L (s32 n)). specialize (N (s32 n)). lia.
Qed.

(** A sequence of [sprintf]s succeeds exactly when the whole text fits. *)
Lemma emit_bind {A} buf t (f : list Z -> res A) :
  (buf ← emit buf t; f buf) =
  if Z.of_nat (length (buf ++ t)) <? STATS_BUF then f (buf ++ t) else Fault OutOfBounds.
Proof. unfold emit. rewrite length_app, Nat2Z.inj_add. by case_if. Qed.

Fixpoint emits (buf : list Z) (ts : list (list Z)) : res (list Z) :=
  match ts with
  | [] => Ok buf
  | t :: ts => buf ← emit buf t; emits buf ts
  end.

Lemma emits_ok ts : forall buf, Z.of_nat (length buf) < STATS_BUF ->
  emits buf ts =
  if Z.of_nat (length (buf ++ concat ts)) <? STATS_BUF then Ok (buf ++ concat ts) else Fault OutOfBounds.
Proof.
  induction ts as [|t ts IH]; intros buf Hb; cbn [emits concat].
  { rewrite app_nil_r. by rewrite (proj2 (Z.ltb_lt _ _)). }
  rewrite emit_bind, app_assoc. destruct (Z.ltb_spec (Z.of_nat (length (buf ++ t))) STATS_BUF).
  - by apply IH.
  - rewrite (proj2 (Z.ltb_ge _ _)); [done|]. rewrite length_app. lia.
Qed.

Section Lines.

Context {P : Type} `{EvictionPolicy P}.

Notation Store_t := (Store_t P).

(** The name at the start of the key of a class. *)
Definition name_of (cls : key) : list Z := default [] (match c_string cls with Ok n => Some n | Fault _ => None end).

Definition class_lines (s : Store_t) (order : list key) : list Z :=
  concat (map (fun cls => Store_DumpClassStats (name_of cls) (default zero_stats (classStats s !! cls))) order).

Definition named (cls : key) : Prop := exists n, c_string cls = Ok n.

#[local] Instance named_dec cls : Decision (named cls).
Proof. destruct (c_string cls) as [n|f] eqn:E; [left; by exists n|right]. intros [n ?]. congruence. Defined.

Lemma StatsLoop_ok (s : Store_t) order : forall buf,
  Forall (fun cls => is_Some (classStats s !! cls) /\ named cls) order ->
  StatsLoop s order buf =
  emits buf (map (fun cls => Store_DumpClassStats (name_of cls) (default zero_stats (classStats s !! cls))) order).
Proof.
  induction order as [|cls order IH]; intros buf HF; cbn [StatsLoop map emits]; [done|].
  apply Forall_cons in HF as [[[st Hst] [n Hn]] HF]. assert (E : name_of cls = n) by (unfold name_of; by rewrite Hn).
  rewrite E, Hst, Hn. cbn [deref default]. rewrite !bind_ret_l. destruct (emit buf _) as [buf'|f]; [|done]. cbn [mbind res_bind]. by apply IH.
Qed.

Lemma class_lines_length (s : Store_t) order :
  (84 * length order <= length (class_lines s order))%nat /\
  (Forall (fun cls => (length (name_of cls) <= 18)%nat /\ exists st, classStats s !! cls = Some st /\ stats_fit st) order ->
   length (class_lines s order) = (84 * length order)%nat).
Proof.
  induction order as [|cls order [IH1 IH2]]; [done|]. unfold class_lines in *. cbn [map concat length].
  rewrite length_app. pose proof (class_line_length (name_of cls) (default zero_stats (classStats s !! cls))) as [L1 L2].
  split; [lia|]. intros HF. apply Forall_cons in HF as [(Hn & st & Hst & Hf) HF].
  rewrite Hst in *. cbn [default] in *. rewrite L2, IH2 by done. lia.
Qed.

(** The lines after those of the classes, and the whole text. *)
Definition stats_tail (s : Store_t) : list (list Z) :=
  [Store_DumpClassStats (str "Total") (totalStats s); str "keys: " ++ fmt_d (ht_count s) ++ [10];
   str "htBytes: " ++ fmt_lu (StoreHT_Footprint (ht_power s) (ht_count s)) ++ [10];
   str "keyBytes: " ++ fmt_lu (keyBytes s) ++ [10]; str "entryBytes: " ++ fmt_lu (entryBytes s) ++ [10]].

Definition stats_text (s : Store_t) (order : list key) : list Z :=
  stats_header ++ class_lines s order ++ concat (stats_tail s).

Lemma tail_length (s : Store_t) :
  (129 <= length (concat (stats_tail s)))%nat /\
  (stats_fit (totalStats s) -> (length (concat (stats_tail s)) <= 196)%nat).
Proof.
  unfold stats_tail. cbn [concat]. rewrite !length_app. cbn [length].
  pose proof (class_line_length (str "Total") (totalStats s)) as [L1 L2].
  pose proof (length_fmt_d (ht_count s)). pose proof (length_fmt_lu (StoreHT_Footprint (ht_power s) (ht_count s))).
  pose proof (length_fmt_lu (keyBytes s)). pose proof (length_fmt_lu (entryBytes s)).
  change (length (str "keys: ")) with 6%nat. change (length (str "htBytes: ")) with 9%nat.
  change (length (str "keyBytes: ")) with 10%nat. change (length (str "entryBytes: ")) with 12%nat.
  split; [lia|]. intros Hf. specialize (L2 Hf ltac:(cbn; lia)). lia.
Qed.

(** The dump is the whole text, or a write behind the buffer. *)
Lemma DumpStats_text (s : Store_t) order :
  classStats s <> ∅ -> Forall (fun cls => is_Some (classStats s !! cls) /\ named cls) order ->
  Store_DumpStats s true order =
  if Z.of_nat (length (stats_text s order)) <? STATS_BUF then Ok (stats_text s order) else Fault OutOfBounds.
Proof.
  intros Hne HF. unfold Store_DumpStats. rewrite bool_decide_eq_false_2 by done. cbn [negb].
  rewrite emit_bind, (proj2 (Z.ltb_lt _ _)) by done. rewrite app_nil_l, StatsLoop_ok by done.
  rewrite emits_ok by done. fold (class_lines s order). set (lines := stats_header ++ class_lines s order).
  assert (ET : stats_text s order = lines ++ concat (stats_tail s)) by (subst lines; by rewrite <- app_assoc).
  rewrite ET. destruct (Z.ltb_spec (Z.of_nat (length lines)) STATS_BUF).
  - rewrite bind_ret_l, <- emits_ok by done. unfold stats_tail. cbn [emits].
    repeat (destruct (emit _ _); [|done]; rewrite !bind_ret_l). done.
  - rewrite (proj2 (Z.ltb_ge _ STATS_BUF)); [done|]. rewrite !length_app in *. lia.
Qed.

(** A class without a NUL in its name is read behind its end, if the buffer has not
    overflowed before. *)
Lemma StatsLoop_unnamed (s : Store_t) order : forall buf,
  Forall (fun cls => is_Some (classStats s !! cls)) order -> Exists (fun cls => ~ named cls) order ->
  StatsLoop s order buf = Fault OutOfBounds.
Proof.
  assert (HC : forall cls f, c_string cls = Fault f -> f = OutOfBounds).
  { induction cls as [|c cls IH]; intros f; cbn; [by intros [= <-]|]. destruct (c =? 0); [done|].
    destruct (c_string cls) as [n|f']; cbn; [done|]. intros [= <-]. by apply IH. }
  induction order as [|cls order IH]; intros buf HF HE; [by inversion HE|]. cbn [StatsLoop].
  apply Forall_cons in HF as [[st ->] HF]. cbn [deref]. rewrite bind_ret_l.
  destruct (c_string cls) as [n|f] eqn:En; [|cbn; by rewrite (HC cls f)]. rewrite bind_ret_l.
  unfold emit. case_if; [|done]. rewrite bind_ret_l. apply IH; [done|].
  inversion HE as [? ? Hn|]; subst; [|done]. destruct Hn. by exists n.
Qed.

(** Whether the statistics can be printed does not depend on the order in which the
    iterator visits the classes. *)
Lemma PrintStats_order (s : Store_t) malloc order order' f :
  Forall (fun cls => is_Some (classStats s !! cls)) order -> order ≡ₚ order' ->
  Store_PrintStats s malloc order = Fault f -> Store_PrintStats s malloc order' = Fault f.
Proof.
  intros HF Hp. assert (HF' : Forall (fun cls => is_Some (classStats s !! cls)) order') by (by rewrite <- Hp).
  unfold Store_PrintStats. destruct (decide (classStats s = ∅)) as [He|He].
  { unfold Store_DumpStats. by rewrite bool_decide_eq_true_2. }
  destruct malloc; [|unfold Store_DumpStats; by rewrite bool_decide_eq_false_2].
  assert (HN : forall l, Forall (fun cls => is_Some (classStats s !! cls)) l -> Exists (fun cls => ~ named cls) l ->
    Store_DumpStats s true l = Fault OutOfBounds).
  { intros l Hl HE. unfold Store_DumpStats. rewrite bool_decide_eq_false_2 by done. cbn [negb].
    rewrite emit_bind, (proj2 (Z.ltb_lt _ _)) by done. by rewrite StatsLoop_unnamed. }
  destruct (decide (Forall named order)) as [Ha|Ha%not_Forall_Exists]; [| |apply _].
  - rewrite !DumpStats_text; try done.
    + assert (length (stats_text s order) = length (stats_text s order')) as ->.
      { unfold stats_text, class_lines. by rewrite !length_app, Hp. }
      by case_if.
    + apply Forall_and. split; [done|]. by rewrite <- Hp.
    + by apply Forall_and.
  - rewrite !HN; try done. rewrite Exists_exists in *. by setoid_rewrite <- Hp.
Qed.

End Lines.

(** The class of a key that starts with a string, as the keys of the PHP client
    do, has its name's NUL in it. *)
Lemma c_string_app n rest : Forall (fun c => c <> 0) n -> c_string (n ++ 0 :: rest) = Ok n.
Proof.
  induction 1 as [|c n Hc _ IH]; [done|]. cbn [app c_string]. rewrite (proj2 (Z.eqb_neq c 0)) by done.
  by rewrite IH.
Qed.

Lemma string_key_named n rest : Forall (fun c => c <> 0) n -> Z.of_nat (length n) < 2 ^ 31 - 1 ->
  key_class (enc (FStr n) ++ rest) = Ok (n ++ [0]) /\ named (n ++ [0]) /\ name_of (n ++ [0]) = n.
Proof.
  intros Hn Hl. assert (E : c_string (n ++ [0]) = Ok n) by by apply c_string_app.
  split_and!; [|by exists n|unfold name_of; by rewrite E]. cbn [enc]. unfold key_class.
  assert (L : Z.of_nat (length (n ++ [0])) = Z.of_nat (length n) + 1) by (rewrite length_app; cbn; lia).
  set (k := n ++ [0]) in *. rewrite <- !app_assoc, take_app_length' by by rewrite length_le_bytes.
  rewrite drop_app_length' by by rewrite length_le_bytes. rewrite le_val_bytes, Z.mod_small, s32_small by (change (256 ^ Z.of_nat 4) with (2 ^ 32); lia).
  rewrite !length_app, length_le_bytes. rewrite (proj2 (Z.ltb_ge _ 4)), (proj2 (Z.ltb_ge _ 0)) by lia.
  rewrite (proj2 (Z.ltb_ge _ _)) by lia. cbn [orb]. by rewrite Nat2Z.id, take_app_length.
Qed.

(** ** Properties *)

(** C40: the statistics text fits its buffer for few classes only.  The buffer of
    [Store_DumpStats] has room for 91 classes whose names and counters stay in
    their columns: the dump is then the table of all classes, in the order of the
    table's iterator, and the totals.  From 93 classes on it is always overrun,
    whatever the names and counters are; and a store without a class, such as a
    new one, makes the iterator read out of bounds. *)
Theorem Store_DumpStats_bounds `{EvictionPolicy P} (s : Store_t P) order :
  order ≡ₚ (map_to_list (classStats s)).*1 -> Forall named order ->
  (order = [] -> Store_DumpStats s true order = Fault OutOfBounds) /\
  ((93 <= length order)%nat -> Store_DumpStats s true order = Fault OutOfBounds) /\
  ((1 <= length order <= 91)%nat -> stats_fit (totalStats s) ->
   Forall (fun cls => (length (name_of cls) <= 18)%nat /\ exists st, classStats s !! cls = Some st /\ stats_fit st) order ->
   Store_DumpStats s true order = Ok (stats_text s order) /\
   Z.of_nat (length (stats_text s order)) < STATS_BUF).
Proof.
  intros Ho Hn.
  assert (HF : Forall (fun cls => is_Some (classStats s !! cls) /\ named cls) order).
  { apply Forall_and. split; [|done]. apply Forall_forall. intros cls Hc. rewrite Ho in Hc.
    apply list_elem_of_fmap in Hc as ([k st] & -> & Hc%elem_of_map_to_list). by exists st. }
  assert (He : order <> [] -> classStats s <> ∅).
  { intros Hne E. rewrite E, map_to_list_empty in Ho. by apply Permutation_nil_r in Ho. }
  assert (Hl : length (stats_text s order) = (85 + length (class_lines s order) + length (concat (stats_tail s)))%nat).
  { unfold stats_text. rewrite !length_app, length_header. lia. }
  destruct (class_lines_length s order) as [L1 L2]. destruct (tail_length s) as [T1 T2]. split_and!.
  - intros ->. unfold Store_DumpStats. rewrite bool_decide_eq_true_2; [done|].
    apply map_to_list_empty_iff. symmetry in Ho. apply Permutation_nil_r in Ho. by apply fmap_nil_inv in Ho.
  - intros Hb. rewrite DumpStats_text by (try apply He; done || by intros ->; cbn in Hb; lia).
    rewrite (proj2 (Z.ltb_ge _ _)); [done|]. unfold STATS_BUF. lia.
  - intros Hb Ht Hc. specialize (L2 Hc). specialize (T2 Ht).
    assert (Hs : Z.of_nat (length (stats_text s order)) < STATS_BUF) by (unfold STATS_BUF; lia).
    split; [|done]. rewrite DumpStats_text by (try apply He; done || by intros ->; cbn in Hb; lia).
    by rewrite (proj2 (Z.ltb_lt _ _)).
Qed.

(** Classes named by one character. *)
Definition ex_class (i : nat) : key := [Z.of_nat i + 33; 0].

Definition ex_stats (n : nat) : Store_t LRUEviction_State_t :=
  set_totalStats (Stats 10 4 2 2 1 1 0 0 3)
    (set_classStats (list_to_map (map (fun i => (ex_class i, Stats 5 2 1 1 0 1 0 0 1)) (seq 0 n))) ex_empty).

Lemma ex_order n : map ex_class (seq 0 n) ≡ₚ (map_to_list (classStats (ex_stats n))).*1.
Proof.
  unfold ex_stats. cbn [classStats set_totalStats set_classStats]. rewrite map_to_list_to_map.
  - rewrite <- list_fmap_compose. apply reflexive_eq. by apply list_fmap_ext.
  - rewrite <- list_fmap_compose. apply NoDup_fmap_2_strong; [|apply NoDup_seq].
    intros i j _ _ E. unfold ex_class in E. cbn in E. injection E. lia.
Qed.

Lemma Store_DumpStats_bounds_witness :
  Store_DumpStats (ex_stats 93) true (map ex_class (seq 0 93)) = Fault OutOfBounds /\
  Store_DumpStats (ex_stats 2) true (map ex_class (seq 0 2)) = Ok (stats_text (ex_stats 2) (map ex_class (seq 0 2))).
Proof.
  assert (Hn : forall n, Forall named (map ex_class (seq 0 n))).
  { intros n. apply Forall_fmap, Forall_forall. intros i _. exists [Z.of_nat i + 33].
    apply (c_string_app [Z.of_nat i + 33] []). repeat constructor. lia. }
  assert (Hf : forall st, st = Stats 10 4 2 2 1 1 0 0 3 \/ st = Stats 5 2 1 1 0 1 0 0 1 -> stats_fit st).
  { intros st [-> | ->]; unfold stats_fit; cbn; repeat constructor; lia. }
  split.
  - apply (Store_DumpStats_bounds (ex_stats 93) _ (ex_order 93) (Hn _)). rewrite length_map, length_seq. lia.
  - apply (Store_DumpStats_bounds (ex_stats 2) _ (ex_order 2) (Hn _)).
    + rewrite length_map, length_seq. lia.
    + apply Hf. by left.
    + repeat apply Forall_cons_2; [..|apply Forall_nil_2];
        (split; [vm_compute; lia|eexists; split; [vm_compute; reflexivity|apply Hf; by right]]).
Defined.
