(* ===== verification/Marshal.v ===== *)
(** * Dumps of the store (src/server/marshal.c; the file buffers of
      src/lib/iobuf.c)

    [Store_Dump] writes the still-valid entries in eviction order, each behind a
    byte 1, and a byte 0 at the end; [Store_Load] puts them into an empty store.
    A file is the list of its bytes.  The results of [write], [realloc], [mmap]
    and [malloc] are arguments. *)

From S2P Require Import Prelude CLib Interval Truth Memory Hash DblList OrdTree Eviction StoreData StatsText Store.
From S2P Require Import StoreInv StoreInval StorePut StoreProps IOBuf RPC Wire.

(** ** Files *)

Section Files.

(** [realloc] is that of IOBuf; [write n count] is what [write(fd, data, count)]
    returns when [n] bytes are in the file. *)
Context (realloc : Z -> Z -> Z) (write : Z -> Z -> Z).

Fixpoint WriteLoop (fuel : nat) (data file : list Z) : res (list Z) :=
  match fuel with
  | O => Fault NoFuel
  | S fuel =>
    if bool_decide (data = []) then Ok file
    else
      let written := write (Z.of_nat (length file)) (Z.of_nat (length data)) in
      if written <? 0 then Fault PanicCall
      else WriteLoop fuel (drop (Z.to_nat written) data) (file ++ take (Z.to_nat written) data)
  end.

(** Returns the buffer and the file. *)
Definition IOBuf_WriteFile (b : IOBuf_t) (file : list Z) : res (IOBuf_t * list Z) :=
  '(b, count, p) ← IOBuf_PeekRest b;
  p ← deref p;
  let data := mem_from b p count in
  b ← IOBuf_Skip b count;
  file ← WriteLoop (S (Z.to_nat count)) data file;
  b ← IOBuf_Shift realloc b;
  Ok (b, file).

End Files.

(** [map] is the address [mmap] returns, [None] for a failure of it or of [lseek]. *)
Definition IOBuf_InitFile (map : option Z) (file : list Z) : res IOBuf_t :=
  match map with
  | None => Fault PanicCall
  | Some addr =>
    let b := (IOBuf_InitView addr (Z.of_nat (length file)) file).1 in
    Ok (IOBuf (io_buf b) (io_pos b) (io_limit b) (io_capacity b) (io_error b)
          (io_nestedOffset b) (io_nestedBound b) true (io_mem b))
  end.

(** ** Dumping *)

Definition entry_fields (e : entry_t) (full : bool) : list field :=
  [FBuf (vset e); FBuf (data e); F32 (s32 (Z.of_nat (length (invalTags e))))] ++ map FStr (invalTags e) ++
  (if full then
     [F32 (s32 (lower (interval e))); F32 (s32 (upper (interval e)));
      F8 (if stillValid (interval e) then 1 else 0);
      F32 (s32 (timeInvalidated e)); F32 (s32 (hitCount e))]
   else []).

Section Dump.

Context {P : Type} `{EvictionPolicy P} (realloc : Z -> Z -> Z) (write : Z -> Z -> Z).

Notation Store_t := (Store_t P).

Definition Store_PutEntry (e : entry_t) (b : IOBuf_t) (full : bool) : res IOBuf_t :=
  put_fields realloc b (entry_fields e full).

Fixpoint DumpLoop (fuel : nat) (s : Store_t) (b : IOBuf_t) (file : list Z) :
    res (Store_t * IOBuf_t * list Z) :=
  match fuel with
  | O => Fault NoFuel
  | S fuel =>
    '(s, entry) ← Store_EvictionOrderIterNext s;
    match entry with
    | None => Ok (s, b, file)
    | Some entry =>
      e ← deref (heap s !! entry);
      if negb (stillValid (interval e)) then DumpLoop fuel s b file
      else
        b ← IOBuf_PutInt8 realloc b 1;
        b ← Store_PutEntry e b false;
        '(b, file) ← IOBuf_WriteFile realloc write b file;
        DumpLoop fuel s b file
    end
  end.

(** [addr] is the address of the buffer. *)
Definition Store_Dump (s : Store_t) (addr : Z) (file : list Z) : res (Store_t * list Z) :=
  let b := (IOBuf_Init addr).1 in
  let s := Store_EvictionOrderIterReset s in
  '(s, b, file) ← DumpLoop (S (size (heap s))) s b file;
  b ← IOBuf_PutInt8 realloc b 0;
  '(b, file) ← IOBuf_WriteFile realloc write b file;
  IOBuf_Release true b;;
  Ok (s, file).

(** The entries of one version set, in order; [i] counts them. *)
Fixpoint DebugEntries (s : Store_t) (versions : list Z) (i : Z) (b : IOBuf_t) : res (IOBuf_t * Z) :=
  match versions with
  | [] => Ok (b, i)
  | entry :: versions =>
    e ← deref (heap s !! entry);
    b ← Store_PutEntry e b true;
    DebugEntries s versions (i + 1) b
  end.

Fixpoint DebugLoop (s : Store_t) (order : list key) (b : IOBuf_t) (file : list Z) :
    res (IOBuf_t * list Z) :=
  match order with
  | [] => Ok (b, file)
  | k :: order =>
    versions ← deref (lines s !! k);
    b ← IOBuf_PutInt8 realloc b 1;
    b ← IOBuf_PutBuf realloc b k;
    let n := s32 (Z.of_nat (length versions)) in
    b ← IOBuf_PutInt32 realloc b n;
    b ← (if 0 <? n then
           '(b, i) ← DebugEntries s versions 0 b;
           Assert (i =? n);;
           Ok b
         else Ok b);
    '(b, file) ← IOBuf_WriteFile realloc write b file;
    DebugLoop s order b file
  end.

(** [order] is the order in which the iterator of the hash table visits the
    version sets; on an empty table the iterator reads out of bounds. *)
Definition Store_DebugDump (s : Store_t) (order : list key) (addr : Z) (file : list Z) :
    res (list Z) :=
  let b := (IOBuf_Init addr).1 in
  if bool_decide (lines s = ∅) then Fault OutOfBounds
  else
    '(b, file) ← DebugLoop s order b file;
    IOBuf_Release true b;;
    Ok file.

End Dump.

(** ** Loading *)

Definition unbounded : interval_t := Interval PIN_NEG_INF PIN_MIN true.

(** What the environment answers while the [n]-th entry is loaded: the
    allocations and the time of [Store_Put], and whether [realloc] has room for
    the array of tags; and whether [munmap] succeeds. *)
Record load_env : Type := LoadEnv {
  le_allocs : nat -> allocs;
  le_time : nat -> Z;
  le_tags : nat -> bool;
  le_munmap : bool
}.

Section Load.

Context {P : Type} `{EvictionPolicy P} (env : load_env).

Notation Store_t := (Store_t P).

(** A negative number of tags is handed to [Store_Put], which copies the tags
    into memory it does not have. *)
Fixpoint LoadLoop (fuel n : nat) (s : Store_t) (maxInvalTags : Z) (b : IOBuf_t) :
    res (Store_t * IOBuf_t) :=
  match fuel with
  | O => Fault NoFuel
  | S fuel =>
    '(b, more) ← IOBuf_GetInt8 b;
    if more =? 0 then Ok (s, b)
    else
      '(b, k) ← GetBytes b;
      '(b, d) ← GetBytes b;
      '(b, nInvalTags) ← IOBuf_GetInt32 b;
      if (maxInvalTags <? nInvalTags) && negb (le_tags env n) then Fault PanicCall
      else
        let maxInvalTags := Z.max maxInvalTags nInvalTags in
        '(b, tags) ← GetTagArray nInvalTags b;
        '(s, success) ← Store_Put s k unbounded d tags false (le_allocs env n) (le_time env n);
        Assert success;;
        LoadLoop fuel (S n) s maxInvalTags b
  end.

Definition Store_Load (s : Store_t) (map : option Z) (file : list Z) : res Store_t :=
  Assert (keyBytes s =? 0);;
  Assert (entryBytes s =? 0);;
  b ← IOBuf_InitFile map file;
  '(s, b) ← LoadLoop (S (length file)) 0 s 0 b;
  IOBuf_Release (le_munmap env) b;;
  Ok s.

End Load.

#[global] Arguments IOBuf_WriteFile : simpl never.
#[global] Arguments Store_PutEntry : simpl never.

(** ** The format *)

(** What a dump keeps of an entry. *)
Notation record := (key * list Z * list tag)%type (only parsing).

Definition content (e : entry_t) : option record :=
  if stillValid (interval e) then Some (vset e, data e, invalTags e) else None.

(** The still-valid entries among the addresses [l], in order. *)
Definition contents (h : gmap Z entry_t) (l : list Z) : list record :=
  omap (fun id => h !! id ≫= content) l.

Definition record_fields (r : record) : list field :=
  F8 1 :: [FBuf r.1.1; FBuf r.1.2; F32 (s32 (Z.of_nat (length r.2)))] ++ map FStr r.2.

Definition dump_fields (rs : list record) : list field := concat (map record_fields rs) ++ [F8 0].

Definition record_fits (r : record) : Prop := fits r.1.1 /\ fits r.1.2 /\ tags_fit r.2.

Lemma record_fields_entry e : record_fields (vset e, data e, invalTags e) = F8 1 :: entry_fields e false.
Proof. unfold record_fields, entry_fields. by rewrite app_nil_r. Qed.

Lemma record_fields_ok r : record_fits r -> Forall field_ok (record_fields r).
Proof.
  destruct r as [[k d] tags]. intros (Hk & Hd & Ht & Hn). cbn in *.
  constructor; [cbn; lia|]. constructor; [done|]. constructor; [done|].
  constructor; [apply (field_pin (Z.of_nat (length tags))); unfold pin32; lia|]. by apply fields_tags.
Qed.

Lemma contents_app h l1 l2 : contents h (l1 ++ l2) = contents h l1 ++ contents h l2.
Proof. unfold contents. by rewrite omap_app. Qed.

Lemma contents_in h l r : r ∈ contents h l -> exists id e, id ∈ l /\ h !! id = Some e /\ content e = Some r.
Proof.
  intros (id & Hid & Hr)%list_elem_of_omap. apply bind_Some in Hr as (e & He & Hr). by exists id, e.
Qed.

Section FileFacts.

Context (realloc : Z -> Z -> Z) (write : Z -> Z -> Z).

Hypothesis realloc_fits :
  forall p n, 0 < n <= 2 ^ 33 -> 0 < realloc p n /\ realloc p n + n < 2 ^ 63.

(** [write] writes some of the bytes. *)
Hypothesis write_some : forall n c, 0 < c -> 0 < write n c <= c.

Lemma WriteLoop_ok fuel bytes file :
  (length bytes < fuel)%nat -> WriteLoop write fuel bytes file = Ok (file ++ bytes).
Proof using write_some.
  revert bytes file. induction fuel as [|fuel IH]; intros bytes file Hf; [lia|]. cbn [WriteLoop].
  destruct (bool_decide_reflect (bytes = [])) as [->|Hne]; [by rewrite app_nil_r|].
  destruct bytes as [|x bytes]; [done|].
  pose proof (write_some (Z.of_nat (length file)) (Z.of_nat (length (x :: bytes))) ltac:(cbn; lia)) as Hw.
  cbv zeta. destruct (Z.ltb_spec (write (Z.of_nat (length file)) (Z.of_nat (length (x :: bytes)))) 0); [lia|].
  rewrite IH; [|rewrite length_drop; cbn [length] in *; lia].
  by rewrite <- app_assoc, take_drop.
Qed.

Lemma WriteFile_ok b file :
  io_wr b -> io_pos b = io_buf b -> io_nestedOffset b = NESTED_OFFSET_NONE ->
  exists b', IOBuf_WriteFile realloc write b file = Ok (b', file ++ io_mem b) /\ empty_buf b'.
Proof using realloc_fits write_some.
  intros Hw Hp HN. destruct (Drain_ok realloc b realloc_fits Hw Hp HN) as (EP & EM & b1 & b2 & ES & EH & Hb2).
  unfold IOBuf_WriteFile. rewrite EP, bind_ret_l. cbn [deref]. rewrite bind_ret_l, EM, ES, bind_ret_l.
  rewrite WriteLoop_ok, bind_ret_l, EH, bind_ret_l by (unfold io_len; lia). by exists b2.
Qed.

Lemma write_record b file fs :
  empty_buf b -> Forall field_ok fs -> Z.of_nat (length (enc_all fs)) < 2 ^ 32 ->
  exists b1 b2, put_fields realloc b fs = Ok b1 /\
    IOBuf_WriteFile realloc write b1 file = Ok (b2, file ++ enc_all fs) /\ empty_buf b2.
Proof using realloc_fits write_some.
  intros (Hw & Hm & Hp & HN) Hf Hl.
  destruct (put_fields_ok realloc realloc_fits b fs Hw Hf) as (b1 & E & W1 & M1 & P1 & N1).
  { unfold io_len. rewrite Hm. cbn. lia. }
  destruct (WriteFile_ok b1 file) as (b2 & E2 & H2); [done|lia|congruence|].
  exists b1, b2. split; [done|]. rewrite E2, M1, Hm. done.
Qed.

End FileFacts.

(** ** The bytes of a dump *)

(** The records before the end of a dump. *)
Definition body (rs : list record) : list Z := enc_all (concat (map record_fields rs)).

Lemma body_app rs rs' : body (rs ++ rs') = body rs ++ body rs'.
Proof. unfold body. by rewrite map_app, concat_app, enc_all_app. Qed.

Lemma body_one r : body [r] = enc_all (record_fields r).
Proof. unfold body. cbn [map concat]. by rewrite app_nil_r. Qed.

Lemma body_length rs : (2 * length rs <= length (body rs))%nat.
Proof.
  induction rs as [|r rs IH]; [cbn; lia|]. change (r :: rs) with ([r] ++ rs). rewrite body_app, length_app, body_one.
  unfold record_fields, enc_all. cbn [map concat enc app]. rewrite !length_app, !length_le_bytes. cbn [length]. lia.
Qed.

Lemma enc_all_bytes l : Forall (fun x => 0 <= x < 256) l -> enc_all (map F8 l) = l.
Proof.
  intros H. induction H as [|x l Hx _ IH]; [done|]. unfold enc_all in *. cbn [map concat enc]. rewrite IH.
  cbn [le_bytes app]. f_equal. apply Z.mod_small. lia.
Qed.

Notation LRUStore := (Store_t LRUEviction_State_t).

Section DumpFacts.

Context (realloc : Z -> Z -> Z) (write : Z -> Z -> Z).

Hypothesis realloc_fits :
  forall p n, 0 < n <= 2 ^ 33 -> 0 < realloc p n /\ realloc p n + n < 2 ^ 63.

Hypothesis write_some : forall n c, 0 < c -> 0 < write n c <= c.

(** The store once the iterator is through. *)
Definition iterated (s : LRUStore) : LRUStore :=
  set_evictionPolicyState (LRUState (lru (evictionPolicyState s)) 0) s.

Lemma DumpLoop_ok fuel (s : LRUStore) l1 l2 b file :
  is_list (lru (evictionPolicyState s)) (l1 ++ l2) -> iterPos (evictionPolicyState s) = last_or 0 l1 ->
  (forall id, id ∈ l1 -> is_Some (heap s !! id)) -> Forall record_fits (contents (heap s) (rev l1)) ->
  Z.of_nat (length (body (contents (heap s) (rev l1)))) < 2 ^ 32 ->
  empty_buf b -> (length l1 < fuel)%nat ->
  exists b', DumpLoop realloc write fuel s b file =
      Ok (iterated s, b', file ++ body (contents (heap s) (rev l1))) /\ empty_buf b'.
Proof using realloc_fits write_some.
  revert s l1 l2 b file. induction fuel as [|fuel IH]; intros s l1 l2 b file Hl Hi Hin Hr Hlen Hb Hf; [lia|].
  cbn [DumpLoop]. unfold Store_EvictionOrderIterNext. cbn [ep_iterNext EvictionPolicy_LRU].
  unfold LRUEviction_IterNext. destruct (last_or_cases l1) as [[-> E]|(x & l' & -> & E)];
    rewrite E in Hi; rewrite Hi.
  { cbn. exists b. split; [|done]. rewrite app_nil_r. unfold iterated. do 3 f_equal.
    destruct s as [? ? ? ? ? ? ? ? ? ? ? [? ip] ? ? ? ? ? ? ? ?]. cbn in *. by subst. }
  assert (Hx : x <> 0) by (apply (is_list_ne0 _ _ _ Hl); set_solver).
  rewrite (proj2 (Z.eqb_neq x 0)) by done.
  rewrite (proj2 (is_list_linked _ _ _ Hl)) by set_solver.
  rewrite rev_app_distr in *. cbn [rev app mbind res_bind] in *.
  set (s1 := set_evictionPolicyState _ s).
  destruct (Hin x) as [e He]; [set_solver|]. change (heap s1) with (heap s).
  rewrite He. cbn [deref]. rewrite bind_ret_l.
  rewrite length_app in Hf. cbn [length] in Hf. rewrite <- app_assoc in Hl.
  assert (Hnext : iterPos (evictionPolicyState s1) = last_or 0 l').
  { pose proof (il_chain _ _ Hl) as HC. apply chain_app in HC as [_ [HC _]]. cbn. by rewrite HC. }
  assert (Hc : contents (heap s) (x :: rev l') = match content e with Some r => [r] | None => [] end ++
    contents (heap s) (rev l')).
  { unfold contents. cbn [omap list_omap]. rewrite He. cbn. by destruct (content e). }
  rewrite Hc in *. unfold content in *. destruct (stillValid (interval e)) eqn:Sv; cbn [negb].
  - apply Forall_app in Hr as [Hr1 Hr]. apply Forall_inv in Hr1.
    rewrite body_app, length_app, body_one in Hlen.
    destruct (write_record realloc write realloc_fits write_some b file
      (record_fields (vset e, data e, invalTags e)) Hb) as (b1 & b2 & E1 & E2 & Hb2);
      [by apply record_fields_ok|lia|].
    rewrite record_fields_entry in E1. cbn [put_fields put_field] in E1. apply bind_Ok in E1 as (b0 & E0 & E1).
    rewrite E0, bind_ret_l. unfold Store_PutEntry. rewrite E1, bind_ret_l, E2, bind_ret_l.
    destruct (IH s1 l' (x :: l2) b2 (file ++ enc_all (record_fields (vset e, data e, invalTags e))))
      as (b' & -> & Hb'); try done; [set_solver|change (heap s1) with (heap s); lia|lia|].
    exists b'. split; [|done]. change (heap s1) with (heap s).
    by rewrite body_app, body_one, <- app_assoc.
  - cbn [app] in *.
    destruct (IH s1 l' (x :: l2) b file) as (b' & -> & Hb'); try done; [set_solver|lia|].
    by exists b'.
Qed.

Lemma lru_enumerates (s : LRUStore) :
  Inv s -> exists l, is_list (lru (evictionPolicyState s)) l /\ forall id, id ∈ l <-> is_Some (heap s !! id).
Proof using.
  intros HI. destruct (inv_policy s HI) as (l & Hl & Hd). exists l. split; [done|].
  intros id. by rewrite Hd, elem_of_dom.
Qed.

Lemma lru_length (s : LRUStore) l :
  is_list (lru (evictionPolicyState s)) l -> (forall id, id ∈ l <-> is_Some (heap s !! id)) ->
  length l = size (heap s).
Proof using.
  intros Hl Hd. rewrite <- size_dom, <- (size_list_to_set (C := gset Z)) by apply (il_nodup _ _ Hl).
  f_equal. apply set_eq. intros id. by rewrite elem_of_list_to_set, elem_of_dom.
Qed.

Lemma Dump_ok (s : LRUStore) l addr file :
  Inv s -> is_list (lru (evictionPolicyState s)) l -> (forall id, id ∈ l <-> is_Some (heap s !! id)) ->
  Forall record_fits (contents (heap s) (rev l)) ->
  Z.of_nat (length (body (contents (heap s) (rev l)))) < 2 ^ 32 ->
  0 < addr -> addr + DEFAULT_SIZE < 2 ^ 63 ->
  Store_Dump realloc write s addr file =
    Ok (iterated s, file ++ enc_all (dump_fields (contents (heap s) (rev l)))).
Proof using realloc_fits write_some.
  intros HI Hl Hd Hf Hlen H0 H1. unfold Store_Dump. cbv zeta.
  set (s1 := Store_EvictionOrderIterReset s). change (heap s1) with (heap s).
  destruct (DumpLoop_ok (S (size (heap s))) s1 l [] (IOBuf_Init addr).1 file) as (b & -> & Hb); try done.
  { by rewrite app_nil_r. }
  { apply (il_tail _ _ Hl). }
  { intros id. apply Hd. }
  { by apply Init_empty. }
  { rewrite (lru_length s l Hl Hd). lia. }
  rewrite bind_ret_l. change (heap s1) with (heap s). set (f1 := file ++ _).
  destruct (write_record realloc write realloc_fits write_some b f1 [F8 0] Hb) as (b1 & b2 & E1 & E2 & Hb2).
  { repeat constructor; cbn; lia. }
  { cbn. lia. }
  cbn [put_fields put_field] in E1. apply bind_Ok in E1 as (b0 & E0 & [= <-]).
  rewrite E0, bind_ret_l, E2, bind_ret_l. unfold IOBuf_Release.
  assert (Hr : (if io_fileBacked b2 then Ok IOBUF_NULL else Ok IOBUF_NULL) = Ok IOBUF_NULL)
    by (by destruct (io_fileBacked b2)).
  rewrite Hr, bind_ret_l. f_equal. f_equal. unfold f1, dump_fields. by rewrite enc_all_app, app_assoc.
Qed.

End DumpFacts.

(** ** Putting a new key *)

Section Fresh.

Context {P : Type} `{!EvictionPolicy P} `{!EvictionPolicyLaws P}.

Notation Store_t := (Store_t P).

(** No hash table of [count] keys that started at the initial size is larger. *)
Definition table_room (count : Z) : Z :=
  sizeof_HT + (1024 + 4 * count) * sizeof_ptr + count * MALLOC_SIZE sizeof_StoreVSet.

Definition table_grown (s : Store_t) : Prop :=
  0 <= ht_power s /\ 0 <= ht_count s /\ hashsize (ht_power s) <= 1024 + 4 * ht_count s.

Lemma hashsize_succ n : 0 <= n -> hashsize (n + 1) <= 2 * hashsize n.
Proof.
  intros Hn. unfold hashsize, u32. rewrite !Z.shiftl_mul_pow2, !Z.mul_1_l, Z.pow_add_r by lia.
  change (2 ^ 1) with 2. rewrite (Z.mul_comm (2 ^ n) 2), <- Zmult_mod_idemp_r. apply Z.mod_le; [|lia].
  pose proof (Z.mod_pos_bound (2 ^ n) (2 ^ 32)). lia.
Qed.

Lemma table_room_ok (s : Store_t) :
  table_grown s -> ht_count s < 2 ^ 31 -> StoreHT_Footprint (ht_power s) (ht_count s) <= table_room (ht_count s).
Proof.
  intros (Hp & Hc & Hs) Hlt. unfold StoreHT_Footprint, table_room, sizeof_HT, sizeof_ptr.
  change (MALLOC_SIZE sizeof_StoreVSet) with 80.
  assert (0 <= hashsize (ht_power s)) by (unfold hashsize, u32; apply Z.mod_pos_bound; lia).
  rewrite u64_small by lia. lia.
Qed.

(** The version set of a new key. *)
Lemma VSet_new (s : Store_t) k al :
  Inv s -> key_ok k -> lines s !! k = None -> al_vset al = true -> al_key al = true ->
  keyBytes s + MALLOC_SIZE (Z.of_nat (length k)) < bytes_max -> table_grown s ->
  exists s', Put_VSet s k al = Ok (s', Some []) /\ Inv s' /\ heap s' = heap s /\
    lines s' = <[k := []]> (lines s) /\ evictionPolicyState s' = evictionPolicyState s /\
    keyBytes s' = keyBytes s + MALLOC_SIZE (Z.of_nat (length k)) /\ entryBytes s' = entryBytes s /\
    ht_count s' = ht_count s + 1 /\ table_grown s' /\ same_config s s'.
Proof.
  intros HI Hok Hk Hv Ha Hb (Hp & Hc & Hs).
  destruct (VSet_ok s k al HI Hok Hb) as (s' & v & E & HI' & Hh & _ & _ & _ & _ & C & _).
  unfold Put_VSet in E. rewrite Hk, Hv, Ha in E. cbn [negb] in E. unfold StoreHT_Insert in E.
  rewrite Hk in E. cbv zeta in E. rewrite expand_power, bind_ret_l in E by apply HI. injection E as E <-.
  exists s'. split.
  { rewrite <- E. unfold Put_VSet, StoreHT_Insert. rewrite Hk, Hv, Ha. cbv zeta.
    rewrite expand_power by apply HI. reflexivity. }
  split; [done|]. split; [done|].
  clear HI' Hh C. subst s'. unfold same_config, table_grown in *. unfold bytes_max in *.
  assert (0 <= keyBytes s).
  { rewrite (inv_keyBytes s HI). apply msum_nonneg. intros. apply MALLOC_SIZE_nonneg. }
  pose proof (MALLOC_SIZE_nonneg (Z.of_nat (length k))). cbn [ht_power set_ht_count set_lines ht_count].
  destruct (Z.ltb_spec (hashsize (ht_power s) * 3) ((ht_count s + 1) * 4)); cbn; rewrite u64_small by lia;
    split_and!; try done; try lia.
  pose proof (hashsize_succ (ht_power s) Hp). lia.
Qed.

Lemma RemoveUseless_none (s : Store_t) time :
  Inv s -> (forall x e, heap s !! x = Some e -> stillValid (interval e) = true) ->
  Store_RemoveUseless s time = Ok s.
Proof.
  intros HI Hv. destruct (inv_order s HI) as (l & Hl & Hd). unfold Store_RemoveUseless. cbn [UselessLoop].
  assert (l = []) as ->.
  { destruct l as [|x l]; [done|]. destruct (proj1 (Hd x)) as (e & He & Hf); [by left|].
    rewrite (Hv x e He) in Hf. done. }
  by rewrite (proj2 (is_list_tail _ _ Hl)).
Qed.

(** A still-valid value for a new key, with room for it, into a store all of
    whose entries are still valid. *)
Lemma Put_fresh (s : Store_t) k i d tags al time id :
  Inv s -> (forall x e, heap s !! x = Some e -> stillValid (interval e) = true) ->
  put_args s k i d tags al -> lines s !! k = None -> stillValid i = true -> tags <> [] ->
  lastInvalTime s < upper i -> al_vset al = true -> al_key al = true -> al_data al = true ->
  al_node al = Some id -> table_grown s ->
  table_room (ht_count s + 1) + keyBytes s + MALLOC_SIZE (Z.of_nat (length k)) + entryBytes s +
    entry_bytes d tags <= maxBytes s ->
  exists s', Store_Put s k i d tags false al time = Ok (s', true) /\ Inv s' /\
    heap s' = <[id := new_entry k i d tags time]> (heap s) /\ dom (lines s') = {[k]} ∪ dom (lines s) /\
    ep_put (evictionPolicyState s) id false = Ok (evictionPolicyState s') /\
    keyBytes s' = keyBytes s + MALLOC_SIZE (Z.of_nat (length k)) /\
    entryBytes s' = entryBytes s + entry_bytes d tags /\
    ht_count s' = ht_count s + 1 /\ table_grown s' /\ same_config s s'.
Proof.
  intros HI Hv HA Hk Hi Ht Hlast Av Ak Ad An HG Hroom. unfold Store_Put.
  rewrite Hi, bool_decide_eq_false_2 by done. cbn [andb].
  destruct (TruncateIf_ok s i tags HI (pa_interval _ _ _ _ _ _ HA) Hi) as (i' & -> & _ & _ & _ & _ & E).
  rewrite (E Hlast), bind_ret_l. clear i' E. rewrite Hi, (RemoveUseless_none s time HI Hv), bind_ret_l.
  destruct (VSet_new s k al HI (pa_key _ _ _ _ _ _ HA) Hk Av Ak (pa_keys _ _ _ _ _ _ HA) HG)
    as (s1 & -> & HI1 & Hh1 & Hl1 & Hp1 & Hkb1 & Heb1 & Hc1 & HG1 & C1).
  rewrite bind_ret_l. cbv zeta. change (StoreVSetTree_Find s1 [] (upper i) RB_LT) with (@None Z).
  unfold Put_Force, Put_Implicit, Store_TryExtendInterval, Put_New. rewrite !bind_ret_l.
  assert (HA1 : args_ok s1 i d tags al).
  { pose proof C1 as (Cm & _). pose proof (args_of_put s s1 k i d tags al i HA) as HA'. rewrite Hi in HA'.
    apply HA'; rewrite ?Hh1; done || apply HA || lia. }
  destruct (Add_ok s1 k [] i d tags al time HI1 HA1)
    as [(s' & ok & -> & HI' & Ha & Hd & C & (Tp & Tc & Tk) & _ & Hpol)|(f & _ & Hf)].
  { by rewrite Hi. }
  { rewrite Hl1. apply lookup_insert_eq. }
  2:{ exfalso. pose proof C1 as (Cm & _). pose proof (pa_table _ _ _ _ _ _ HA).
      pose proof (table_room_ok s1 HG1 ltac:(lia)) as HT.
      assert (0 <= entryBytes s) by (apply (Footprint_eq s HI); unfold table_small; lia).
      destruct Hf as [[Hm _]|(_ & Hnone & _)]; [|congruence]. unfold keys_and in Hm. rewrite Hc1 in *. lia. }
  pose proof C1 as (Cm & _). pose proof (pa_table _ _ _ _ _ _ HA) as Htab.
  pose proof (table_room_ok s1 HG1 ltac:(lia)) as HT.
  destruct (Footprint_eq s1 HI1 ltac:(unfold table_small; lia)) as (EF & _ & Hge).
  assert (Hr : Store_Footprint s1 + entry_bytes d tags <= maxBytes s1) by (rewrite EF; rewrite Hc1 in *; lia).
  destruct Ha as (h & _ & Hh & Hok). rewrite (Hh Hr), Hh1 in *. destruct ok.
  2:{ exfalso. destruct Hok as [_ [X|[X|[(x & e & Hx & Hve & _)|X]]]]; try congruence; [|unfold keys_and in X; rewrite Hc1 in *; lia].
      destruct (inv_vset s HI x e Hx) as [ids Hids]. rewrite Hve in Hids. congruence. }
  destruct Hok as (id' & Hid' & Hh' & _). rewrite An in Hid'. injection Hid' as <-.
  exists s'. rewrite Hp1 in Hpol. split_and!; try done.
  - rewrite Hd, Hl1. apply dom_insert_L.
  - by apply Hpol.
  - lia.
  - rewrite (inv_entryBytes s' HI'), Hh', msum_insert, <- (inv_entryBytes s HI);
      [unfold entry_size; rewrite new_entry_footprint; lia|].
    by apply (pa_node _ _ _ _ _ _ HA).
  - lia.
  - unfold table_grown in *. by rewrite Tp, Tc.
  - by etrans.
Qed.

End Fresh.

(** ** Loading *)

Definition record_bytes (r : record) : Z :=
  MALLOC_SIZE (Z.of_nat (length r.1.1)) + entry_bytes r.1.2 r.2.

(** Enough memory for a store with these records. *)
Definition records_room (rs : list record) : Z :=
  table_room (Z.of_nat (length rs)) + Zsum (map record_bytes rs).

Lemma entry_bytes_nonneg d tags : 0 <= entry_bytes d tags.
Proof. unfold entry_bytes, Store_EntryFootprint, u64. apply Z.mod_pos_bound. lia. Qed.

Lemma record_bytes_nonneg r : 0 <= record_bytes r.
Proof.
  pose proof (MALLOC_SIZE_nonneg (Z.of_nat (length r.1.1))). pose proof (entry_bytes_nonneg r.1.2 r.2).
  unfold record_bytes. lia.
Qed.

Lemma room_app rs rs' :
  table_room (Z.of_nat (length rs)) <= table_room (Z.of_nat (length (rs ++ rs'))) /\
  records_room (rs ++ rs') = records_room rs + (table_room (Z.of_nat (length (rs ++ rs'))) - table_room (Z.of_nat (length rs))) +
    Zsum (map record_bytes rs') /\ 0 <= Zsum (map record_bytes rs').
Proof.
  unfold records_room. rewrite map_app, Zsum_app, length_app. unfold table_room, sizeof_HT, sizeof_ptr.
  change (MALLOC_SIZE sizeof_StoreVSet) with 80. split_and!; try lia.
  apply Zsum_nonneg, Forall_map, Forall_forall. intros r _. apply record_bytes_nonneg.
Qed.

(** One more record. *)
Lemma room_step rs k d tags :
  records_room (rs ++ [(k, d, tags)]) = table_room (Z.of_nat (length rs) + 1) + Zsum (map record_bytes rs) +
    MALLOC_SIZE (Z.of_nat (length k)) + entry_bytes d tags /\
  0 <= table_room (Z.of_nat (length rs) + 1) /\ 0 <= entry_bytes d tags.
Proof.
  unfold records_room. rewrite map_app, Zsum_app, length_app. cbn [map Zsum length]. unfold record_bytes at 2. cbn [fst snd].
  rewrite Nat2Z.inj_add. change (Z.of_nat 1) with 1. split; [lia|]. split; [|apply entry_bytes_nonneg].
  unfold table_room, sizeof_HT, sizeof_ptr. change (MALLOC_SIZE sizeof_StoreVSet) with 80. lia.
Qed.

Lemma contents_insert h id e l : id ∉ l -> contents (<[id := e]> h) l = contents h l.
Proof.
  intros Hid. induction l as [|x l IH]; [done|]. apply not_elem_of_cons in Hid as [Hne Hid].
  unfold contents in *. cbn [omap list_omap]. by rewrite lookup_insert_ne, IH by done.
Qed.

(** What [Store_Put] asks of a record. *)
Definition loadable (r : record) : Prop :=
  key_ok r.1.1 /\ r.2 <> [] /\ NoDup r.2 /\ Store_CopyInvalTagsLen r.2 < 2 ^ 61.

Section LoadFacts.

Context (env : load_env).

(** The addresses of the entries. *)
Definition load_node (n : nat) : Z := default 0 (al_node (le_allocs env n)).

(** Memory is available. *)
Record env_ok : Prop := {
  ek_allocs n : al_vset (le_allocs env n) = true /\ al_key (le_allocs env n) = true /\
    al_tags (le_allocs env n) = true /\ al_data (le_allocs env n) = true;
  ek_node n : al_node (le_allocs env n) = Some (load_node n) /\ 0 < load_node n;
  ek_fresh n m : load_node n = load_node m -> n = m;
  ek_tags n : le_tags env n = true;
  ek_munmap : le_munmap env = true
}.

(** The store after the records [rs]. *)
Record loaded (maxB : Z) (rs : list record) (s : LRUStore) : Prop := {
  ld_inv : Inv s;
  ld_max : maxBytes s = maxB;
  ld_last : lastInvalTime s = PIN_NEG_INF;
  ld_entries id e : heap s !! id = Some e -> interval e = unbounded /\ hitCount e = 0;
  ld_nodes id e : heap s !! id = Some e -> exists n, (n < length rs)%nat /\ id = load_node n;
  ld_lru : exists l, is_list (lru (evictionPolicyState s)) l /\
    (forall id, id ∈ l <-> is_Some (heap s !! id)) /\ contents (heap s) (rev l) = rs;
  ld_keys k : is_Some (lines s !! k) <-> k ∈ map (fun r => r.1.1) rs;
  ld_bytes : keyBytes s + entryBytes s = Zsum (map record_bytes rs);
  ld_count : ht_count s = Z.of_nat (length rs);
  ld_grown : table_grown s
}.

Context (Henv : env_ok) (maxB : Z) (HmaxB : maxB < bytes_max).

Lemma load_put_args (s : LRUStore) rs k d tags :
  loaded maxB rs s -> records_room (rs ++ [(k, d, tags)]) <= maxB -> Z.of_nat (length rs) + 1 < 2 ^ 31 ->
  loadable (k, d, tags) -> fits d -> put_args s k unbounded d tags (le_allocs env (length rs)).
Proof using Henv HmaxB.
  intros L Hr Hn (Hk & Ht & Hnd & Hl) Hd. cbn in *. unfold fits in Hd.
  pose proof (MALLOC_SIZE_nonneg (Z.of_nat (length k))). pose proof (room_step rs k d tags). pose proof (ld_max _ _ _ L). pose proof (ld_bytes _ _ _ L). pose proof (ld_inv _ _ _ L) as HI. pose proof (ld_count _ _ _ L).
  destruct (Footprint_eq s HI) as (_ & Hk0 & He0); [unfold table_small; lia|].
  split; try done; try lia.
  - apply Henv.
  - destruct (ek_node Henv (length rs)) as [-> Hp]. intros id [= <-]. split; [done|].
    destruct (heap s !! _) as [e|] eqn:He; [|done].
    destruct (ld_nodes _ _ _ L _ _ He) as (n & Hlt & En). apply (ek_fresh Henv) in En. lia.
Qed.

Lemma load_step (s : LRUStore) rs k d tags :
  loaded maxB rs s -> records_room (rs ++ [(k, d, tags)]) <= maxB -> Z.of_nat (length rs) + 1 < 2 ^ 31 ->
  loadable (k, d, tags) -> fits d -> k ∉ map (fun r => r.1.1) rs ->
  exists s', Store_Put s k unbounded d tags false (le_allocs env (length rs)) (le_time env (length rs)) =
      Ok (s', true) /\ loaded maxB (rs ++ [(k, d, tags)]) s'.
Proof using Henv HmaxB.
  intros L Hr Hn HL Hd Hk. set (n := length rs). pose proof (load_put_args s rs k d tags L Hr Hn HL Hd) as HA.
  destruct HL as (_ & Ht & _). destruct (ek_allocs Henv n) as (Av & Ak & _ & Ad).
  destruct (ek_node Henv n) as [An Hpos]. pose proof (room_step rs k d tags) as HR.
  pose proof (ld_max _ _ _ L). pose proof (ld_bytes _ _ _ L). pose proof (ld_count _ _ _ L) as Hc.
  destruct (Put_fresh s k unbounded d tags (le_allocs env n) (le_time env n) (load_node n))
    as (s' & -> & HI' & Hh' & Hl' & Hp' & Hkb & Heb & Hc' & HG & (Cm & Cl & _));
    try done; try apply L.
  { intros x e He. by destruct (ld_entries _ _ _ L x e He) as [-> _]. }
  { destruct (lines s !! k) eqn:E; [|done]. destruct Hk. apply (ld_keys _ _ _ L). by rewrite E. }
  { rewrite (ld_last _ _ _ L). by vm_compute. }
  { rewrite Hc. lia. }
  assert (Hid : heap s !! load_node n = None) by (by apply (pa_node _ _ _ _ _ _ HA)).
  exists s'. split; [done|]. split; [done|lia|rewrite Cl; apply L| | | | | |rewrite Hc', length_app; cbn; lia|done].
  - intros x e. rewrite Hh'. intros [[_ <-]|[_ He]]%lookup_insert_Some; [done|]. by apply (ld_entries _ _ _ L x).
  - intros x e. rewrite Hh', length_app. cbn [length]. intros [[<- _]|[_ He]]%lookup_insert_Some.
    + exists n. subst n. split; [lia|done].
    + destruct (ld_nodes _ _ _ L x e He) as (m & Hm & ->). exists m. split; [lia|done].
  - destruct (ld_lru _ _ _ L) as (l & Hl & Hd' & Hcs).
    assert (Hnl : load_node n ∉ l) by (rewrite Hd', Hid; by intros [? [=]]).
    destruct (LRU_Put_ok (evictionPolicyState s) l (load_node n) Hl Hnl) as (p & Ep & Hlp); [lia|].
    change (ep_put (evictionPolicyState s) (load_node n) false) with
      (LRUEviction_Put (evictionPolicyState s) (load_node n) false) in Hp'.
    rewrite Ep in Hp'. injection Hp' as ->. exists (load_node n :: l). split; [done|]. split.
    + intros x. rewrite elem_of_cons, Hd', Hh', lookup_insert_is_Some. destruct (decide (load_node n = x)); naive_solver.
    + cbn [rev]. rewrite contents_app, Hh'. f_equal.
      * rewrite contents_insert; [done|]. by rewrite rev_alt; fold (reverse l); rewrite elem_of_reverse.
      * unfold contents. cbn [omap list_omap]. by rewrite lookup_insert_eq.
  - intros x. rewrite <- elem_of_dom, Hl', map_app, elem_of_app, <- (ld_keys _ _ _ L), <- elem_of_dom. set_solver.
  - rewrite map_app, Zsum_app. cbn [map Zsum]. unfold record_bytes at 2. cbn [fst snd]. lia.
Qed.

Lemma LoadLoop_ok fuel (s : LRUStore) mx b done rs rest :
  loaded maxB done s -> reads b (dump_fields rs ++ rest) -> (length rs < fuel)%nat ->
  Forall record_fits rs -> Forall loadable rs -> NoDup (map (fun r => r.1.1) (done ++ rs)) ->
  records_room (done ++ rs) <= maxB -> Z.of_nat (length (done ++ rs)) < 2 ^ 31 ->
  exists s' b', LoadLoop env fuel (length done) s mx b = Ok (s', b') /\ loaded maxB (done ++ rs) s'.
Proof using Henv HmaxB.
  revert s mx b done rs. induction fuel as [|fuel IH]; intros s mx b dn rs L Hb Hf HF HL HN HR Hlen; [lia|].
  cbn [LoadLoop]. destruct rs as [|[[k d] tags] rs].
  { unfold dump_fields in Hb. cbn in Hb. destruct (reads_8 _ _ _ Hb) as (b1 & -> & _); [lia|].
    rewrite bind_ret_l, Z.eqb_refl. exists s, b1. by rewrite app_nil_r. }
  apply Forall_cons_1 in HF as [(Hk & Hd & Ht) HF]. apply Forall_cons_1 in HL as [HL1 HL]. cbn [fst snd] in Hk, Hd, Ht.
  unfold dump_fields in Hb. cbn [map concat] in Hb. unfold record_fields in Hb at 1. cbn [app fst snd] in Hb.
  destruct (reads_8 _ _ _ Hb) as (b1 & -> & H1); [lia|]. rewrite bind_ret_l. cbn [Z.eqb].
  destruct (reads_bytes _ _ _ H1 Hk) as (b2 & -> & H2). rewrite bind_ret_l.
  destruct (reads_bytes _ _ _ H2 Hd) as (b3 & -> & H3). rewrite bind_ret_l.
  rewrite <- !app_assoc in H3. destruct (reads_count _ _ _ H3 Ht) as (b4 & b5 & n & -> & E & H5).
  rewrite bind_ret_l, (ek_tags Henv), andb_false_r. cbv zeta. rewrite E, bind_ret_l.
  replace (dn ++ (k, d, tags) :: rs) with ((dn ++ [(k, d, tags)]) ++ rs) in * by (by rewrite <- app_assoc).
  destruct (room_app (dn ++ [(k, d, tags)]) rs) as (Hr1 & Hr2 & Hr3). rewrite !length_app in *. cbn [length] in *.
  destruct (load_step s dn k d tags L) as (s1 & -> & L1); try done; try lia.
  { rewrite map_app, map_app, <- app_assoc in HN. apply NoDup_app in HN as (_ & HN & _).
    intros Hin. apply (HN k Hin). cbn. by left. }
  rewrite bind_ret_l. cbn [Assert]. rewrite bind_ret_l.
  destruct (IH s1 (Z.max mx n) b5 (dn ++ [(k, d, tags)]) rs L1) as (s' & b' & E' & L'); try done; try lia.
  { unfold dump_fields. by rewrite <- app_assoc. }
  { rewrite !length_app. cbn [length]. lia. }
  rewrite length_app, Nat.add_1_r in E'. by exists s', b'.
Qed.

Lemma Init_loaded uselessB junk s :
  Store_Init maxB uselessB true junk = Ok s -> loaded maxB [] s.
Proof using.
  intros E. destruct (Init_ok (P := LRUEviction_State_t) maxB uselessB junk)
    as (s0 & E0 & HI & _ & Hh & Hl & Hm & Ht & _ & Hc & Hk).
  rewrite E in E0. injection E0 as <-. split; try done.
  - intros id e. by rewrite Hh.
  - intros id e. by rewrite Hh.
  - destruct (lru_enumerates s HI) as (l & Hd & Hin). exists l. split_and!; try done.
    assert (l = []) as ->; [|done]. apply elem_of_nil_inv. intros x Hx%Hin. rewrite Hh in Hx. by destruct Hx.
  - intros k. rewrite Hl, elem_of_nil. split; [by intros [? ?]|done].
  - rewrite Hk, (inv_entryBytes s HI), Hh, msum_empty. done.
  - injection E as <-. unfold table_grown. cbn [ht_power ht_count]. split_and!; by vm_compute.
Qed.

Lemma Load_ok (s : LRUStore) uselessB junk addr rs rest :
  Store_Init maxB uselessB true junk = Ok s -> Forall record_fits rs -> Forall loadable rs ->
  NoDup (map (fun r => r.1.1) rs) -> records_room rs <= maxB -> Z.of_nat (length rs) < 2 ^ 31 ->
  Z.of_nat (length (enc_all (dump_fields rs ++ rest))) < 2 ^ 32 -> 0 < addr -> addr + 2 ^ 32 < 2 ^ 63 ->
  exists s', Store_Load env s (Some addr) (enc_all (dump_fields rs ++ rest)) = Ok s' /\ loaded maxB rs s'.
Proof using Henv HmaxB.
  intros E HF HL HN HR Hn Hlen H0 H1. pose proof (Init_loaded uselessB junk s E) as L. unfold Store_Load.
  pose proof (ld_bytes _ _ _ L) as Hb. cbn in Hb. destruct (Footprint_eq s (ld_inv _ _ _ L)) as (_ & Hk0 & He0).
  { unfold table_small. rewrite (ld_count _ _ _ L). cbn. lia. }
  rewrite (proj2 (Z.eqb_eq _ _)) by lia. cbn [Assert]. rewrite bind_ret_l.
  rewrite (proj2 (Z.eqb_eq _ _)) by lia. cbn [Assert]. rewrite bind_ret_l.
  cbn [IOBuf_InitFile]. rewrite bind_ret_l.
  set (b := IOBuf _ _ _ _ _ _ _ _ _).
  destruct (LoadLoop_ok (S (length (enc_all (dump_fields rs ++ rest)))) s 0 b [] rs rest L)
    as (s' & b' & E' & L'); try done.
  { split; [|unfold unread, b; cbn; by rewrite Z.sub_diag].
    unfold b, io_ok, io_len. cbn. rewrite u64_small by lia. split_and!; done || lia. }
  { unfold dump_fields. rewrite <- app_assoc, enc_all_app, length_app. pose proof (body_length rs). unfold body in *. lia. }
  cbn [length] in E'. rewrite E', bind_ret_l. unfold IOBuf_Release. rewrite (ek_munmap Henv).
  exists s'. split; [|done]. by destruct (io_fileBacked b').
Qed.

End LoadFacts.

(** ** The debugging dump *)

Lemma put_fields_app realloc b fs gs :
  put_fields realloc b (fs ++ gs) = (b ← put_fields realloc b fs; put_fields realloc b gs).
Proof.
  revert b. induction fs as [|f fs IH]; intros b; cbn; [done|].
  destruct (put_field realloc b f); cbn; [apply IH|done].
Qed.

(** The entries of a version set. *)
Definition versions (s : LRUStore) (ids : list Z) : list entry_t := omap (fun id => heap s !! id) ids.

Definition vset_fields (s : LRUStore) (k : key) : list field :=
  let es := versions s (default [] (lines s !! k)) in
  [F8 1; FBuf k; F32 (s32 (Z.of_nat (length es)))] ++ concat (map (fun e => entry_fields e true) es).

(** The table is small enough, and so is what is written for each key. *)
Definition debug_fits (s : LRUStore) (k : key) : Prop :=
  fits k /\ Z.of_nat (length (default [] (lines s !! k))) < 2 ^ 31 /\
  Z.of_nat (length (enc_all (vset_fields s k))) < 2 ^ 32 /\
  forall e, e ∈ versions s (default [] (lines s !! k)) -> record_fits (vset e, data e, invalTags e).

(** The fields of a list one by one. *)
Ltac fields_ok :=
  repeat first [apply Forall_app; split | apply Forall_cons; split | apply Forall_nil];
  try apply field_flag; try (by apply fields_tags); try done; try (cbn; lia);
  try (cbn [field_ok]; unfold s32;
       match goal with |- context [signed 32 ?x] => pose proof (signed_range 32 x); lia end).

Lemma entry_fields_ok e : record_fits (vset e, data e, invalTags e) -> Forall field_ok (entry_fields e true).
Proof.
  intros (Hk & Hd & Ht & Hn). unfold entry_fields. cbn [fst snd] in *.
  fields_ok.
Qed.

Section DebugFacts.

Context (realloc : Z -> Z -> Z) (write : Z -> Z -> Z).

Hypothesis realloc_fits :
  forall p n, 0 < n <= 2 ^ 33 -> 0 < realloc p n /\ realloc p n + n < 2 ^ 63.

Hypothesis write_some : forall n c, 0 < c -> 0 < write n c <= c.

Lemma DebugEntries_ok (s : LRUStore) ids i b :
  (forall id, id ∈ ids -> is_Some (heap s !! id)) ->
  DebugEntries realloc s ids i b =
    (b ← put_fields realloc b (concat (map (fun e => entry_fields e true) (versions s ids)));
     Ok (b, i + Z.of_nat (length ids))) /\ length (versions s ids) = length ids.
Proof using.
  revert i b. induction ids as [|id ids IH]; intros i b Hin; cbn [DebugEntries].
  { cbn. split; [|done]. by rewrite Z.add_0_r. }
  destruct (Hin id) as [e He]; [by left|]. rewrite He. cbn [deref]. rewrite bind_ret_l.
  unfold versions in *. cbn [omap list_omap]. rewrite He. cbn [map concat length].
  assert (Hin' : forall x, x ∈ ids -> is_Some (heap s !! x)) by (intros x Hx; apply Hin; by right).
  destruct (IH (i + 1) b Hin') as [_ ->]. split; [|done].
  rewrite put_fields_app. unfold Store_PutEntry. destruct (put_fields realloc b (entry_fields e true)) as [b1|]; [|done].
  rewrite !bind_ret_l. destruct (IH (i + 1) b1 Hin') as [-> _].
  destruct (put_fields realloc b1 _); [|done]. rewrite !bind_ret_l. do 2 f_equal. lia.
Qed.

Lemma DebugLoop_ok (s : LRUStore) order b file :
  Inv s -> Forall (fun k => is_Some (lines s !! k) /\ debug_fits s k) order -> empty_buf b ->
  exists b', DebugLoop realloc write s order b file =
    Ok (b', file ++ enc_all (concat (map (vset_fields s) order))).
Proof using realloc_fits write_some.
  intros HI Ho. revert b file. induction Ho as [|k order [[ids Hk] HF] _ IH]; intros b file Hb; cbn [DebugLoop].
  { exists b. by rewrite app_nil_r. }
  destruct HF as (Hfk & Hn & Hl & He).
  destruct (write_record realloc write realloc_fits write_some b file (vset_fields s k) Hb) as (b1 & b2 & E1 & E2 & H2);
    [|done|].
  { unfold vset_fields. cbv zeta. fields_ok.
    apply Forall_concat, Forall_map, Forall_forall. intros e Hin. by apply entry_fields_ok, He. }
  unfold vset_fields in E1. rewrite Hk in *. cbv zeta in E1. change (default [] (Some ids)) with ids in *.
  cbn [deref app] in *. rewrite bind_ret_l.
  destruct (DebugEntries_ok s ids 0 b) as [_ El]; [intros id; by apply (Inv_ids s k ids)|].
  rewrite El in E1. rewrite s32_small in * by lia. cbn [put_fields put_field] in E1.
  apply bind_Ok in E1 as (c1 & -> & E1). rewrite bind_ret_l. apply bind_Ok in E1 as (c2 & -> & E1). rewrite bind_ret_l.
  apply bind_Ok in E1 as (c3 & -> & E1). rewrite bind_ret_l.
  assert (E3 : (if 0 <? Z.of_nat (length ids) then
      '(b, i) ← DebugEntries realloc s ids 0 c3; Assert (i =? Z.of_nat (length ids));; Ok b else Ok c3) = Ok b1).
  { destruct ids as [|id ids]; [exact E1|].
    cbn [length Z.of_nat Z.ltb Z.compare].
    destruct (DebugEntries_ok s (id :: ids) 0 c3) as [-> _]; [intros x; by apply (Inv_ids s k)|].
    rewrite E1, !bind_ret_l, Z.add_0_l, Z.eqb_refl. done. }
  rewrite E3, bind_ret_l, E2, bind_ret_l. destruct (IH b2 (file ++ enc_all (vset_fields s k)) H2) as (b' & ->).
  exists b'. cbn [map concat]. by rewrite enc_all_app, app_assoc.
Qed.

(** The debugging dump of a store with keys writes every version of every key,
    with its interval and its counters, in the order of the table. *)
Lemma DebugDump_ok (s : LRUStore) order addr file :
  Inv s -> order ≡ₚ (map_to_list (lines s)).*1 -> lines s <> ∅ -> Forall (debug_fits s) order ->
  0 < addr -> addr + DEFAULT_SIZE < 2 ^ 63 ->
  Store_DebugDump realloc write s order addr file =
    Ok (file ++ enc_all (concat (map (vset_fields s) order))).
Proof using realloc_fits write_some.
  intros HI Ho Hne Hf H0 H1. unfold Store_DebugDump. rewrite bool_decide_eq_false_2 by done.
  destruct (DebugLoop_ok s order (IOBuf_Init addr).1 file HI) as (b & ->).
  - apply Forall_and. split; [|done]. apply Forall_forall. intros k Hk. rewrite Ho in Hk.
    apply list_elem_of_fmap in Hk as ([k' ids] & -> & Hk%elem_of_map_to_list). by exists ids.
  - by apply Init_empty.
  - rewrite bind_ret_l. unfold IOBuf_Release. by destruct (io_fileBacked b).
Qed.

End DebugFacts.

(** ** Properties *)

(** What makes the records [rs] of a dump loadable into a store of [maxB] bytes,
    from a file that has [old] further bytes: one still-valid version per key,
    sizes within the types of the format, and room. *)
Record dumpable (rs : list record) (old : list Z) (maxB : Z) : Prop := {
  dm_fits : Forall record_fits rs;
  dm_tags : Forall (fun r => NoDup r.2 /\ Store_CopyInvalTagsLen r.2 < 2 ^ 61) rs;
  dm_keys : NoDup (map (fun r => r.1.1) rs);
  dm_room : records_room rs <= maxB < bytes_max;
  dm_old : Forall (fun x => 0 <= x < 256) old;
  dm_size : Z.of_nat (length (enc_all (dump_fields rs))) + Z.of_nat (length old) < 2 ^ 32
}.

Lemma dump_loadable (s : LRUStore) l old maxB :
  Inv s -> dumpable (contents (heap s) l) old maxB -> Forall loadable (contents (heap s) l).
Proof.
  intros HI D. pose proof (dm_tags _ _ _ D) as HT. rewrite Forall_forall in *. intros r Hr.
  destruct (HT r Hr) as [Hn Hl]. apply contents_in in Hr as (id & e & _ & He & Hc).
  unfold content in Hc. destruct (stillValid (interval e)) eqn:Sv; [|done]. injection Hc as <-.
  destruct (inv_entry s HI id e He) as [_ (_ & Ht & _)]. split_and!; try done; [|by apply Ht].
  apply (inv_key s HI), (inv_vset s HI id e He).
Qed.

(** C20: a dump restores the cache, when there is one still-valid version per key, with
    distinct tags, when keys, values and tags fit the format and the file stays below
    2^32 bytes, when the new store has room for all of them ([dumpable]), and when
    memory and the file are available.  Then [Store_Dump] succeeds and leaves the
    entries of the store alone; and loading its bytes into a fresh store, whatever
    older bytes follow them in the file, succeeds and gives a well-formed store
    whose entries are exactly the still-valid ones, with the same keys, values
    and tags, and whose LRU list has them in the same order. *)
Theorem Store_dump_load (realloc write : Z -> Z -> Z) (env : load_env) (s s0 : LRUStore)
    (l old : list Z) (addr addr' maxB uselessB junk : Z) :
  (forall p n, 0 < n <= 2 ^ 33 -> 0 < realloc p n /\ realloc p n + n < 2 ^ 63) ->
  (forall n c, 0 < c -> 0 < write n c <= c) ->
  Inv s -> is_list (lru (evictionPolicyState s)) l ->
  dumpable (contents (heap s) (rev l)) old maxB ->
  Store_Init maxB uselessB true junk = Ok s0 -> env_ok env ->
  0 < addr -> addr + DEFAULT_SIZE < 2 ^ 63 -> 0 < addr' -> addr' + 2 ^ 32 < 2 ^ 63 ->
  exists file s' l', Store_Dump realloc write s addr [] = Ok (iterated s, file) /\
    Store_Load env s0 (Some addr') (file ++ old) = Ok s' /\ Inv s' /\
    is_list (lru (evictionPolicyState s')) l' /\ (forall id, id ∈ l' <-> is_Some (heap s' !! id)) /\
    contents (heap s') (rev l') = contents (heap s) (rev l) /\
    forall id e, heap s' !! id = Some e -> interval e = unbounded /\ hitCount e = 0.
Proof.
  intros Hre Hwr HI Hl D E0 He Ha1 Ha2 Hb1 Hb2. set (rs := contents (heap s) (rev l)) in *.
  destruct (lru_enumerates s HI) as (l0 & Hl0 & Hd). rewrite (is_list_unique _ _ _ Hl0 Hl) in Hd. clear l0 Hl0.
  pose proof (dm_size _ _ _ D) as Hsz. pose proof (body_length rs) as Hbl.
  unfold dump_fields in Hsz. rewrite enc_all_app, length_app in Hsz. fold (body rs) in Hsz.
  assert (Hb : Z.of_nat (length (body rs)) < 2 ^ 32) by lia. exists (enc_all (dump_fields rs)).
  rewrite (Dump_ok realloc write Hre Hwr s l addr [] HI Hl Hd (dm_fits _ _ _ D)) by done.
  rewrite <- (enc_all_bytes old (dm_old _ _ _ D)), <- enc_all_app.
  destruct (Load_ok env He maxB (proj2 (dm_room _ _ _ D)) s0 uselessB junk addr' rs (map F8 old))
    as (s' & -> & L); try done; try apply D.
  { by apply (dump_loadable s (rev l) old maxB). }
  { lia. }
  { unfold dump_fields. rewrite enc_all_app, (enc_all_bytes _ (dm_old _ _ _ D)), length_app, enc_all_app, length_app.
    fold (body rs). lia. }
  destruct (ld_lru _ _ _ _ L) as (l' & Hl' & Hd' & Hc'). exists s', l'. split_and!; try done; try apply L.
Qed.

Definition ex_write (n c : Z) : Z := Z.min c 3.

Definition ex_env : load_env :=
  LoadEnv (fun n => ex_al (5000 + 8 * Z.of_nat n)) (fun _ => 9) (fun _ => true) true.

Lemma ex_env_ok : env_ok ex_env.
Proof.
  split; try done.
  - intros n. unfold load_node. cbn. split; [done|lia].
  - intros n m. unfold load_node. cbn. lia.
Qed.

Lemma ex_write_some n c : 0 < c -> 0 < ex_write n c <= c.
Proof. unfold ex_write. lia. Qed.

Lemma ex_one_lru : is_list (lru (evictionPolicyState ex_one)) [1000].
Proof.
  assert (E : lru (evictionPolicyState ex_one) = LIST_PushFront (LIST 0 0 ∅) 1000) by (vm_compute; reflexivity).
  rewrite E. apply PushFront_ok; [apply Init_is_list|apply not_elem_of_nil|lia].
Qed.

Definition ex_record : record := Eval vm_compute in (ex_key, [1; 2; 3], ex_tags).

Lemma ex_one_contents : contents (heap ex_one) (rev [1000]) = [ex_record].
Proof. vm_compute. reflexivity. Qed.

Lemma ex_one_dumpable old : Forall (fun x => 0 <= x < 256) old -> Z.of_nat (length old) < 1000 ->
  dumpable (contents (heap ex_one) (rev [1000])) old 100000.
Proof.
  intros Ho Hl. rewrite ex_one_contents. split; [| | | |exact Ho|].
  - constructor; [|constructor]. unfold record_fits, fits, tags_fit, tag_text_ok. cbn.
    split_and!; try lia. repeat constructor; cbn; lia.
  - constructor; [|constructor]. split; [|by vm_compute]. cbn. repeat constructor; set_solver.
  - cbn. repeat constructor; set_solver.
  - by vm_compute.
  - assert (E : length (enc_all (dump_fields [ex_record])) = 44%nat) by (vm_compute; reflexivity).
    rewrite E. lia.
Qed.

Lemma Store_dump_load_witness :
  exists file s' l', Store_Dump ex_realloc ex_write ex_one 4096 [] = Ok (iterated ex_one, file) /\
    Store_Load ex_env ex_empty (Some 8192) (file ++ [7; 7]) = Ok s' /\ Inv s' /\
    is_list (lru (evictionPolicyState s')) l' /\ (forall id, id ∈ l' <-> is_Some (heap s' !! id)) /\
    contents (heap s') (rev l') = contents (heap ex_one) (rev [1000]) /\
    forall id e, heap s' !! id = Some e -> interval e = unbounded /\ hitCount e = 0.
Proof.
  apply (Store_dump_load ex_realloc ex_write ex_env ex_one ex_empty [1000] [7; 7] 4096 8192 100000 60 7
    ex_realloc_fits ex_write_some ex_one_Inv ex_one_lru).
  - apply ex_one_dumpable; [repeat constructor; lia|cbn; lia].
  - reflexivity.
  - exact ex_env_ok.
  - lia.
  - unfold DEFAULT_SIZE. lia.
  - lia.
  - lia.
Defined.

Definition ex_reload (s : LRUStore) : res LRUStore :=
  '(_, file) ← Store_Dump ex_realloc ex_write s 4096 [];
  Store_Load ex_env ex_empty (Some 8192) file.

(** A dump has no intervals: a value put for the pins from 5 on is, after a
    reload and the next message, returned for pin 3, where the store that was
    dumped has nothing. *)
Lemma reload_serves_the_past :
  let s := ok_or ex_empty (ex_reload ex_one) in
  data_at (inval_at ex_one 20 [str "u:"]) ex_key 3 = None /\
  data_at (inval_at s 20 [str "u:"]) ex_key 3 = Some ([1; 2; 3], unbounded).
Proof. split; vm_compute; reflexivity. Qed.

(** Two still-valid versions of one key, which [Store_Put] accepts, end the
    reload in a failed assertion. *)
Lemma reload_of_two_versions_fails :
  let s := put_at (inval_at ex_one 20 [str "u:"]) ex_key (Interval 12 21 true) [4] [str "t:c:"] 2000 in
  length (contents (heap s) [2000; 1000]) = 2%nat /\ ex_reload s = Fault AssertFail.
Proof. split; vm_compute; reflexivity. Qed.
