(* ===== verification/Server.v ===== *)
(** * The cache server's requests (src/server/server.c, src/server/proxy.c)

    The handlers of the server and the stubs the clients call.  Both sides read
    and write messages with the operations of [IOBuf] and [RPC]. *)

From S2P Require Import Prelude CLib Interval Truth Memory Hash DblList OrdTree IOBuf RPC Wire Eviction StoreData StatsText Store StoreInv StoreInval StorePut StoreProps StoreTrace.

(** ** Calls *)

Definition SERVER_REQ_LOOKUP : Z := 76.
Definition SERVER_REQ_PUT : Z := 80.
Definition SERVER_REQ_INVAL : Z := 73.
Definition SERVER_REP_FOUND : Z := 70.
Definition SERVER_REP_EMPTY : Z := 69.

(** ** Handlers *)

Section Handlers.

Context {P : Type} `{!EvictionPolicy P}.
Context (realloc : Z -> Z -> Z).

Notation Store_t := (Store_t P).

(** The interval [HandleLookup] puts into its reply. *)
Definition ReplyInterval (s : Store_t) (e : entry_t) : interval_t :=
  let i := interval e in
  Interval (lower i)
    (if stillValid i && (upper i <? lastInvalTime s) then lastInvalTime s else upper i)
    (stillValid i).

(** The puts of [HandleLookup] for an entry. *)
Definition FoundReply (s : Store_t) (e : entry_t) : list field :=
  let i := ReplyInterval s e in
  [FBuf (data e); F32 (s32 (lower i)); F32 (s32 (upper i)); F8 (if stillValid i then 1 else 0);
   F32 (s32 (Z.of_nat (length (invalTags e))))] ++ map FStr (invalTags e).

Definition HandleLookup (s : Store_t) (h : host_t) (args : IOBuf_t) (sends : list send_result) :
    res (Store_t * host_t * list event) :=
  '(args, key) ← GetBytes args;
  '(args, lo) ← IOBuf_GetInt32 args;
  '(args, up) ← IOBuf_GetInt32 args;
  '(args, earliestPin) ← IOBuf_GetInt32 args;
  '(args, lookupPolicy) ← IOBuf_GetInt32 args;
  IOBuf_GetEOB args;;
  '(s, ent) ← Store_Lookup s key (Interval (u32 lo) (u32 up) false) (u32 earliestPin) (u32 lookupPolicy);
  '(h, err, evs) ←
    match ent with
    | None => RPC_call realloc h SERVER_REP_EMPTY [] sends
    | Some id =>
      e ← deref (heap s !! id);
      RPC_call realloc h SERVER_REP_FOUND (FoundReply s e) sends
    end;
  if err <? 0 then '(h, evs') ← RPC_Release h; Ok (s, h, evs ++ evs')
  else Ok (s, h, evs).

(** [al] and [time] are those of [Store_Put], whose result is only logged. *)
Definition HandlePut (s : Store_t) (args : IOBuf_t) (al : allocs) (time : Z) : res Store_t :=
  '(args, key) ← GetBytes args;
  '(args, lo) ← IOBuf_GetInt32 args;
  '(args, up) ← IOBuf_GetInt32 args;
  '(args, sv) ← IOBuf_GetInt8 args;
  '(args, d) ← GetBytes args;
  '(args, nTags) ← IOBuf_GetInt32 args;
  '(args, tags) ← GetTagArray nTags args;
  '(args, force) ← IOBuf_GetInt8 args;
  IOBuf_GetEOB args;;
  '(s, _) ← Store_Put s key (Interval (u32 lo) (u32 up) (negb (sv =? 0))) d tags (negb (force =? 0)) al time;
  Ok s.

(** The handler does not check the end of its arguments. *)
Definition HandleInval (s : Store_t) (args : IOBuf_t) (time : Z) : res Store_t :=
  '(args, pin) ← IOBuf_GetInt32 args;
  '(args, nTags) ← IOBuf_GetInt32 args;
  '(_, tags) ← GetTagArray nTags args;
  Store_Invalidate s (u32 pin) tags time.

End Handlers.

(** ** Stubs *)

Section Stubs.

Context (realloc : Z -> Z -> Z).

Definition LookupRequest (k : list Z) (i : interval_t) (earliestPin lookupPolicy : Z) : list field :=
  [FBuf k; F32 (s32 (lower i)); F32 (s32 (upper i)); F32 (s32 earliestPin); F32 (s32 lookupPolicy)].

(** The part of the reply after the call byte; [copy] is whether [malloc] has
    room for the data. *)
Definition ReadFound (args : IOBuf_t) (copy : bool) : res (option (list Z * interval_t * list (list Z))) :=
  '(args, d) ← GetBytes args;
  '(args, lo) ← IOBuf_GetInt32 args;
  '(args, up) ← IOBuf_GetInt32 args;
  '(args, sv) ← IOBuf_GetInt8 args;
  if negb copy then Ok None
  else
    '(args, nTags) ← IOBuf_GetInt32 args;
    '(args, tags) ← GetTags (Z.to_nat nTags) args;
    IOBuf_GetEOB args;;
    Ok (Some (d, Interval (u32 lo) (u32 up) (negb (sv =? 0)), tags)).

(** Returns the host, the data with its interval and tags or NULL, the events. *)
Definition ServerProxy_Lookup (h : host_t) (k : list Z) (i : interval_t) (earliestPin lookupPolicy : Z)
    (sends : list send_result) (recvs : list recv_result) (copy : bool) :
    res (host_t * option (list Z * interval_t * list (list Z)) * list event) :=
  '(h, err, evs) ← RPC_call realloc h SERVER_REQ_LOOKUP (LookupRequest k i earliestPin lookupPolicy) sends;
  if negb (err =? 0) then '(h, evs') ← RPC_Release h; Ok (h, None, evs ++ evs')
  else
    '(h, err, args) ← RPCC_Recv realloc h recvs;
    match args with
    | Some args =>
      if err =? SERVER_REP_FOUND then r ← ReadFound args copy; Ok (h, r, evs)
      else if err =? SERVER_REP_EMPTY then IOBuf_GetEOB args;; Ok (h, None, evs)
      else '(h, evs') ← RPC_Release h; Ok (h, None, evs ++ evs')
    | None => '(h, evs') ← RPC_Release h; Ok (h, None, evs ++ evs')
    end.

Definition PutRequest (k : list Z) (i : interval_t) (d : list Z) (tags : list (list Z)) (force : bool) :
    list field :=
  [FBuf k; F32 (s32 (lower i)); F32 (s32 (upper i)); F8 (if stillValid i then 1 else 0); FBuf d;
   F32 (s32 (Z.of_nat (length tags)))] ++ map FStr tags ++ [F8 (if force then 1 else 0)].

Definition ServerProxy_Put (h : host_t) (k : list Z) (i : interval_t) (d : list Z) (tags : list (list Z))
    (force : bool) (sends : list send_result) : res (host_t * list event) :=
  '(h, err, evs) ← RPC_call realloc h SERVER_REQ_PUT (PutRequest k i d tags force) sends;
  if negb (err =? 0) then '(h, evs') ← RPC_Release h; Ok (h, evs ++ evs') else Ok (h, evs).

Definition InvalRequest (pin : Z) (tags : list (list Z)) : list field :=
  [F32 (s32 pin); F32 (s32 (Z.of_nat (length tags)))] ++ map FStr tags.

Definition ServerProxy_Invalidate (h : host_t) (pin : Z) (tags : list (list Z)) (sends : list send_result) :
    res (host_t * list event) :=
  Assert (negb (PIN_SPECIAL pin));;
  '(h, err, evs) ← RPC_call realloc h SERVER_REQ_INVAL (InvalRequest pin tags) sends;
  if negb (err =? 0) then '(h, evs') ← RPC_Release h; Ok (h, evs ++ evs') else Ok (h, evs).

End Stubs.

Section HandlerSpecs.

Context {P : Type} `{!EvictionPolicy P}.
Context (realloc : Z -> Z -> Z).
Hypothesis realloc_fits : forall p n, 0 < n <= 2 ^ 33 -> 0 < realloc p n /\ realloc p n + n < 2 ^ 63.

Notation Store_t := (Store_t P).

(** What a lookup answers, and the message that carries the answer. *)
Definition lookup_answer (s : Store_t) (r : option Z) : option (list Z * interval_t * list (list Z)) :=
  e ← r ≫= (heap s !!.); Some (data e, ReplyInterval s e, invalTags e).

Definition reply_msg (s : Store_t) (r : option Z) : Z * list Z :=
  match r ≫= (heap s !!.) with
  | Some e => (SERVER_REP_FOUND, enc_all (FoundReply s e))
  | None => (SERVER_REP_EMPTY, [])
  end.

Definition reply_ok (s : Store_t) (r : option Z) : Prop :=
  match r with
  | None => True
  | Some id => exists e, heap s !! id = Some e /\ fits (data e) /\ interval32 (ReplyInterval s e) /\
      tags_fit (invalTags e) /\ Z.of_nat (length (enc_all (FoundReply s e))) < 2 ^ 31 - 1024
  end.

Lemma reply_found (s : Store_t) id e :
  heap s !! id = Some e -> reply_msg s (Some id) = (SERVER_REP_FOUND, enc_all (FoundReply s e)).
Proof. intros He. unfold reply_msg. cbn. by rewrite He. Qed.

Lemma FoundReply_fields (s : Store_t) e :
  fits (data e) -> interval32 (ReplyInterval s e) -> tags_fit (invalTags e) -> Forall field_ok (FoundReply s e).
Proof.
  intros Hd [Hl Hu] [Ht Hn]. apply Forall_app. split; [|by apply fields_tags].
  repeat apply Forall_cons_2; [done|by apply field_pin..|apply field_flag|apply field_pin|apply Forall_nil_2].
  unfold pin32. lia.
Qed.

Lemma ReadFound_ok (s : Store_t) e v :
  reads v (FoundReply s e) -> fits (data e) -> interval32 (ReplyInterval s e) -> tags_fit (invalTags e) ->
  ReadFound v true = Ok (Some (data e, ReplyInterval s e, invalTags e)).
Proof.
  intros H Hd [Hl Hu] [Ht Hn]. unfold ReadFound, FoundReply in *. cbn [app] in H.
  rd H. rd H. rd H. rd H. cbn [negb].
  destruct (reads_32 _ _ _ H) as (bn & -> & Hr); [rewrite s32_small; lia|]. rewrite bind_ret_l.
  rewrite s32_small, Nat2Z.id by lia. rewrite <- (app_nil_r (map FStr _)) in Hr.
  destruct (reads_tags _ _ _ Hr Ht) as (bt & -> & Hr'). rewrite bind_ret_l, (reads_end _ Hr'), bind_ret_l, flag_of.
  done.
Qed.

(** A request, in the view the dispatcher passes to the handler. *)
Definition request_ok (k : list Z) (i : interval_t) (earliestPin lookupPolicy : Z) : Prop :=
  fits k /\ interval32 i /\ pin32 earliestPin /\ pin32 lookupPolicy /\ stillValid i = false.

Lemma HandleLookup_ok (s s' : Store_t) h args sends k i earliestPin pol r :
  reads args (LookupRequest k i earliestPin pol) -> request_ok k i earliestPin pol ->
  Store_Lookup s k i earliestPin pol = Ok (s', r) -> reply_ok s' r -> idle h ->
  sends_ok (negb (h_re h)) (Z.of_nat (length (frame (reply_msg s' r)))) sends ->
  exists h' evs, HandleLookup realloc s h args sends = Ok (s', h', evs) /\
    sent_bytes evs ++ unread (h_out h') = frame (reply_msg s' r).
Proof.
  intros H (Hk & [Hl Hu] & Hp & Hpol & Hsv) HL Hr Hi Hs. unfold HandleLookup, LookupRequest in *.
  rd H. rd H. rd H. rd H. rd H. rewrite (reads_end _ H), bind_ret_l.
  replace (Interval (lower i) (upper i) false) with i by (destruct i; cbn in *; by rewrite Hsv).
  rewrite HL, bind_ret_l. destruct r as [id|]; cbn [reply_ok] in Hr.
  - destruct Hr as (e & He & Hd & Hiv & Ht & Hlen). rewrite (reply_found s' id e He) in *. rewrite He. cbn [deref].
    rewrite bind_ret_l. destruct (call_idle realloc realloc_fits h SERVER_REP_FOUND (FoundReply s' e) sends Hi) as (h' & evs & -> & E & _);
      [by apply FoundReply_fields|done|done|]. rewrite bind_ret_l. eauto.
  - destruct (call_idle realloc realloc_fits h SERVER_REP_EMPTY [] sends Hi) as (h' & evs & -> & E & _); [done|done|done|].
    rewrite bind_ret_l. eauto.
Qed.

Lemma request_fields k i earliestPin pol :
  request_ok k i earliestPin pol -> Forall field_ok (LookupRequest k i earliestPin pol).
Proof.
  intros (Hk & [Hl Hu] & Hp & Hpol & _).
  repeat apply Forall_cons_2; [done|by apply field_pin..|apply Forall_nil_2].
Qed.

Lemma ProxyLookup_ok (s : Store_t) h k i earliestPin pol sends r cs :
  ready h -> request_ok k i earliestPin pol ->
  Z.of_nat (length (enc_all (LookupRequest k i earliestPin pol))) < 2 ^ 31 - 1024 ->
  sends_ok true (Z.of_nat (length (frame (SERVER_REQ_LOOKUP, enc_all (LookupRequest k i earliestPin pol))))) sends ->
  reply_ok s r -> pieces (reply_msg s r) cs ->
  exists h' evs, ServerProxy_Lookup realloc h k i earliestPin pol sends (map Received cs) true =
      Ok (h', lookup_answer s r, evs) /\
    sent_bytes evs = frame (SERVER_REQ_LOOKUP, enc_all (LookupRequest k i earliestPin pol)).
Proof.
  intros Hrd Hq Hlen Hs Hr Hp. unfold ServerProxy_Lookup.
  assert (Hm : msg_ok (reply_msg s r)).
  { destruct r as [id|]; [|by vm_compute]. destruct Hr as (e & He & _ & _ & _ & Hl).
    rewrite (reply_found s id e He). split; [by vm_compute|done]. }
  destruct (call_recv realloc realloc_fits h SERVER_REQ_LOOKUP (LookupRequest k i earliestPin pol) sends
    (reply_msg s r) cs Hrd (request_fields _ _ _ _ Hq) Hlen Hs Hm Hp) as (h1 & evs & h2 & v & -> & E & E2 & Ov & Uv).
  rewrite bind_ret_l. cbn [negb Z.eqb]. rewrite E2.
  rewrite bind_ret_l. exists h2, evs. split; [|done]. destruct r as [id|].
  - destruct Hr as (e & He & Hd & Hiv & Ht & Hl). rewrite (reply_found s id e He) in *. cbn [fst snd] in *.
    rewrite Z.eqb_refl, (ReadFound_ok s e v) by (done || by split). rewrite bind_ret_l.
    unfold lookup_answer. cbn. by rewrite He.
  - cbn [fst snd reply_msg] in *. replace (_ =? SERVER_REP_FOUND) with false by done. rewrite Z.eqb_refl.
    rewrite (reads_end v) by (by split). done.
Qed.

(** The handlers call the store with what the stubs were given. *)
Lemma HandlePut_ok (s : Store_t) args k i d tags force al time :
  reads args (PutRequest k i d tags force) -> fits k -> interval32 i -> fits d -> tags_fit tags ->
  HandlePut s args al time = ('(s, _) ← Store_Put s k i d tags force al time; Ok s).
Proof.
  intros H Hk [Hl Hu] Hd Ht. unfold HandlePut, PutRequest in *. cbn [app] in H.
  rd H. rd H. rd H. rd H. rd H. destruct (reads_count _ _ _ H Ht) as (b1' & b2' & n & -> & E & Hr).
  rewrite bind_ret_l, E, bind_ret_l. rd Hr. rewrite (reads_end _ Hr), bind_ret_l, !flag_of. by destruct i.
Qed.

Lemma HandleInval_ok (s : Store_t) args pin tags time :
  reads args (InvalRequest pin tags) -> pin32 pin -> tags_fit tags ->
  HandleInval s args time = Store_Invalidate s pin tags time.
Proof.
  intros H Hp Ht. unfold HandleInval, InvalRequest in *. cbn [app] in H. rd H.
  rewrite <- (app_nil_r (map FStr tags)) in H.
  destruct (reads_count _ _ _ H Ht) as (b1' & b2' & n & -> & E & Hr). by rewrite bind_ret_l, E, bind_ret_l.
Qed.

Lemma request_fields_put k i d tags force :
  fits k -> interval32 i -> fits d -> tags_fit tags -> Forall field_ok (PutRequest k i d tags force).
Proof.
  intros Hk [Hl Hu] Hd [Ht Hn]. unfold PutRequest. rewrite !Forall_app. split_and!; [|by apply fields_tags|].
  - repeat apply Forall_cons_2; [done|by apply field_pin..|apply field_flag|done|apply field_pin|apply Forall_nil_2].
    unfold pin32. lia.
  - repeat constructor. apply field_flag. apply field_flag.
Qed.

Lemma request_fields_inval pin tags : pin32 pin -> tags_fit tags -> Forall field_ok (InvalRequest pin tags).
Proof.
  intros Hp [Ht Hn]. apply Forall_app. split; [|by apply fields_tags].
  repeat apply Forall_cons_2; [by apply field_pin|apply field_pin; unfold pin32; lia|apply Forall_nil_2].
Qed.

(** The stubs that do not wait for a reply. *)
Lemma ProxyPut_ok h k i d tags force sends :
  idle h -> h_re h = false -> fits k -> interval32 i -> fits d -> tags_fit tags ->
  Z.of_nat (length (enc_all (PutRequest k i d tags force))) < 2 ^ 31 - 1024 ->
  sends_ok true (Z.of_nat (length (frame (SERVER_REQ_PUT, enc_all (PutRequest k i d tags force))))) sends ->
  exists h' evs, ServerProxy_Put realloc h k i d tags force sends = Ok (h', evs) /\
    sent_bytes evs = frame (SERVER_REQ_PUT, enc_all (PutRequest k i d tags force)).
Proof.
  intros Hi Hre Hk Hiv Hd Ht Hl Hs. unfold ServerProxy_Put.
  destruct (call_idle realloc realloc_fits h SERVER_REQ_PUT (PutRequest k i d tags force) sends Hi) as (h1 & evs & -> & E & Eb & _);
    [by apply request_fields_put|done|by rewrite Hre|].
  rewrite bind_ret_l. rewrite (Eb Hre), app_nil_r in E. eauto.
Qed.

Lemma ProxyInval_ok h pin tags sends :
  idle h -> h_re h = false -> PIN_MIN <= pin < PIN_INF -> tags_fit tags ->
  Z.of_nat (length (enc_all (InvalRequest pin tags))) < 2 ^ 31 - 1024 ->
  sends_ok true (Z.of_nat (length (frame (SERVER_REQ_INVAL, enc_all (InvalRequest pin tags))))) sends ->
  exists h' evs, ServerProxy_Invalidate realloc h pin tags sends = Ok (h', evs) /\
    sent_bytes evs = frame (SERVER_REQ_INVAL, enc_all (InvalRequest pin tags)).
Proof.
  intros Hi Hre Hp Ht Hl Hs. unfold ServerProxy_Invalidate.
  rewrite (proj2 (PIN_SPECIAL_false pin)) by (unfold PIN_MIN, PIN_INVALID, PIN_NEG_INF in *; lia). cbn [negb Assert]. rewrite bind_ret_l.
  destruct (call_idle realloc realloc_fits h SERVER_REQ_INVAL (InvalRequest pin tags) sends Hi) as (h1 & evs & -> & E & Eb & _);
    [apply request_fields_inval; [unfold pin32, PIN_MIN, PIN_INF in *; lia|done]|done|by rewrite Hre|].
  rewrite bind_ret_l. rewrite (Eb Hre), app_nil_r in E. eauto.
Qed.

End HandlerSpecs.

(** ** Properties *)

(** C23: A remote lookup is a lookup.  The server's handler, given the request the
    client's stub sends, answers with what [Store_Lookup] found, and the stub,
    however the reply is cut into pieces, returns that entry's data and tags
    with the interval extended to the last invalidation, or NULL on a miss. *)
Theorem remote_lookup `{!EvictionPolicy P} realloc (s s' : Store_t P) hs hc args k i earliestPin pol r
    sends sends' cs :
  (forall p n, 0 < n <= 2 ^ 33 -> 0 < realloc p n /\ realloc p n + n < 2 ^ 63) ->
  ready hc -> idle hs -> request_ok k i earliestPin pol ->
  Z.of_nat (length (enc_all (LookupRequest k i earliestPin pol))) < 2 ^ 31 - 1024 ->
  reads args (LookupRequest k i earliestPin pol) ->
  Store_Lookup s k i earliestPin pol = Ok (s', r) -> reply_ok s' r ->
  sends_ok true (Z.of_nat (length (frame (SERVER_REQ_LOOKUP, enc_all (LookupRequest k i earliestPin pol))))) sends ->
  sends_ok (negb (h_re hs)) (Z.of_nat (length (frame (reply_msg s' r)))) sends' ->
  pieces (reply_msg s' r) cs ->
  exists hs' hc' evs evs',
    ServerProxy_Lookup realloc hc k i earliestPin pol sends (map Received cs) true =
      Ok (hc', lookup_answer s' r, evs) /\
    sent_bytes evs = frame (SERVER_REQ_LOOKUP, enc_all (LookupRequest k i earliestPin pol)) /\
    HandleLookup realloc s hs args sends' = Ok (s', hs', evs') /\
    sent_bytes evs' ++ unread (h_out hs') = frame (reply_msg s' r).
Proof.
  intros Hf Hc Hs Hq Hlen Ha HL Hr S1 S2 Hp.
  destruct (HandleLookup_ok realloc Hf s s' hs args sends' k i earliestPin pol r) as (hs' & evs' & E1 & E2); try done.
  destruct (ProxyLookup_ok realloc Hf s' hc k i earliestPin pol sends r cs) as (hc' & evs & E3 & E4); try done.
  exists hs', hc', evs, evs'. done.
Qed.

(** A lookup of the one entry of a store, answered up to the last message. *)
Definition ex_at20 : Store_t LRUEviction_State_t := inval_at ex_one 20 [str "z:"].

Definition ex_found : Store_t LRUEviction_State_t :=
  (ok_or (ex_at20, None) (Store_Lookup ex_at20 ex_key (Interval 7 9 false) 3 LOOKUP_POLICY_LATEST)).1.

Lemma ex_tags_fit : tags_fit ex_tags.
Proof.
  split; [|by vm_compute]. repeat apply Forall_cons_2; [..|apply Forall_nil_2];
    (split; [by vm_compute|by repeat apply Forall_cons_2]).
Qed.

Lemma remote_lookup_witness :
  exists hs' hc' evs evs',
    ServerProxy_Lookup ex_realloc (ex_host false) ex_key (Interval 7 9 false) 3 LOOKUP_POLICY_LATEST [Sent 34]
      [Received (frame (reply_msg ex_found (Some 1000)))] true =
      Ok (hc', Some ([1; 2; 3], Interval 5 20 true, ex_tags), evs) /\
    HandleLookup ex_realloc ex_at20 (ex_host true)
      (ex_view (LookupRequest ex_key (Interval 7 9 false) 3 LOOKUP_POLICY_LATEST)) [SendRetry] =
      Ok (ex_found, hs', evs').
Proof.
  destruct (remote_lookup ex_realloc ex_at20 ex_found (ex_host true) (ex_host false)
    (ex_view (LookupRequest ex_key (Interval 7 9 false) 3 LOOKUP_POLICY_LATEST)) ex_key (Interval 7 9 false) 3
    LOOKUP_POLICY_LATEST (Some 1000) [Sent 34] [SendRetry] [frame (reply_msg ex_found (Some 1000))])
    as (hs' & hc' & evs & evs' & E1 & _ & E2 & _).
  - apply ex_realloc_fits.
  - apply ex_host_ready.
  - split_and!; [done|apply (ex_host_out true)|done|done|vm_compute; done].
  - split; [by vm_compute|]. split; [split; split; by vm_compute|]. split_and!; by vm_compute.
  - by vm_compute.
  - split; [repeat split; vm_compute; done|by vm_compute].
  - vm_compute. reflexivity.
  - eexists. split; [vm_compute; reflexivity|]. split; [by vm_compute|]. split; [split; split; by vm_compute|].
    split; [apply ex_tags_fit|by vm_compute].
  - apply so_last; vm_compute; done.
  - apply so_wait. done.
  - split; [|by rewrite concat_cons, app_nil_r]. repeat constructor; vm_compute; done.
  - exists hs', hc', evs, evs'. split; [exact E1|exact E2].
Defined.

(** A remote put is a put, and a remote invalidation an invalidation: the
    stubs send one message, and the handlers call the store with the arguments
    the stubs were given. *)
Lemma remote_updates `{!EvictionPolicy P} realloc (s : Store_t P) h args args' k i d tags force al time pin tags'
    sends sends' :
  (forall p n, 0 < n <= 2 ^ 33 -> 0 < realloc p n /\ realloc p n + n < 2 ^ 63) ->
  idle h -> h_re h = false -> fits k -> interval32 i -> fits d -> tags_fit tags ->
  PIN_MIN <= pin < PIN_INF -> tags_fit tags' ->
  Z.of_nat (length (enc_all (PutRequest k i d tags force))) < 2 ^ 31 - 1024 ->
  Z.of_nat (length (enc_all (InvalRequest pin tags'))) < 2 ^ 31 - 1024 ->
  sends_ok true (Z.of_nat (length (frame (SERVER_REQ_PUT, enc_all (PutRequest k i d tags force))))) sends ->
  sends_ok true (Z.of_nat (length (frame (SERVER_REQ_INVAL, enc_all (InvalRequest pin tags'))))) sends' ->
  reads args (PutRequest k i d tags force) -> reads args' (InvalRequest pin tags') ->
  (exists h' evs, ServerProxy_Put realloc h k i d tags force sends = Ok (h', evs) /\
    sent_bytes evs = frame (SERVER_REQ_PUT, enc_all (PutRequest k i d tags force))) /\
  HandlePut s args al time = ('(s, _) ← Store_Put s k i d tags force al time; Ok s) /\
  (exists h' evs, ServerProxy_Invalidate realloc h pin tags' sends' = Ok (h', evs) /\
    sent_bytes evs = frame (SERVER_REQ_INVAL, enc_all (InvalRequest pin tags'))) /\
  HandleInval s args' time = Store_Invalidate s pin tags' time.
Proof.
  intros Hf Hi Hre Hk Hiv Hd Ht Hp Ht' Hl Hl' Hs Hs' Ha Ha'. split_and!.
  - by apply ProxyPut_ok.
  - by apply HandlePut_ok.
  - by apply ProxyInval_ok.
  - apply HandleInval_ok; [done| |done]. unfold pin32, PIN_MIN, PIN_INF in *. lia.
Qed.

Definition ex_put : list field := PutRequest ex_key (Interval 5 10 true) [1; 2; 3] ex_tags false.
Definition ex_inv : list field := InvalRequest 20 [str "z:"].
