(* ===== verification/ServerMain.v ===== *)
(** * The cache server process (src/server/server.c)

    The handlers for statistics and signals, the table of handlers that
    [Server_Setup] builds, and the process as the reactor runs it: a connection's
    bytes go through the dispatcher of [RPC] to the handlers, which call the
    store.  [serve] is what a request asks for; [server_serves] shows that a
    connection gets it, request by request. *)

From S2P Require Import Prelude CLib CText Interval Truth Memory Hash DblList OrdTree IOBuf RPC Wire RpcSetup Eviction StoreData StatsText Store StoreInv StoreInval StorePut StoreProps StoreTrace Stats Marshal Server.

Definition SERVER_REQ_STATS : Z := 84.
Definition SERVER_REQ_SIG : Z := 83.
Definition SERVER_REP_STATS : Z := 84.

Definition SIGINT : Z := 2.
Definition SIGQUIT : Z := 3.
Definition SIGUSR1 : Z := 10.
Definition SIGUSR2 : Z := 12.
Definition SIGPWR : Z := 30.

(** ** State *)

(** What the environment answers while one message is handled: the [send]s of
    the reply, the allocations and the time, whether the buffer of the statistics
    can be allocated and in which order the tables are visited, what a clearing
    leaves, the old content of the dump file if it can be opened, and the address
    of the dump's buffer. *)
Record handler_env : Type := HandlerEnv {
  he_sends : list send_result;
  he_allocs : allocs;
  he_time : Z;
  he_malloc : bool;
  he_classes : list key;
  he_left : gmap key StoreClassStats_t;
  he_lines : list key;
  he_open : option (list Z);
  he_buf : Z
}.

(** What the handlers do besides replying. *)
Inductive action : Type :=
| Printed (text : list Z)
| Wrote (path content : list Z)
| DefaultSignal (sig : Z)
| Killed (sig : Z).

(** [pr_turn] counts the messages handled. *)
Record proc {P : Type} : Type := Proc {
  pr_store : Store_t P;
  pr_turn : nat;
  pr_events : list event;
  pr_actions : list action
}.
#[global] Arguments proc : clear implicits.

(** [open(path, O_WRONLY|O_CREAT, 0644)] does not truncate: what is written from
    the start replaces the beginning of the file. *)
Definition overwrite (new old : list Z) : list Z := new ++ drop (length new) old.

Section Process.

Context {P : Type} `{!EvictionPolicy P}.
Context (realloc write : Z -> Z -> Z).

Notation Store_t := (Store_t P).
Notation proc := (proc P).

(** ** Handlers *)

Definition HandleStats (e : handler_env) (s : Store_t) (h : host_t) (args : IOBuf_t) :
    res (Store_t * host_t * list event) :=
  '(args, clear) ← IOBuf_GetInt8 args;
  IOBuf_GetEOB args;;
  stats ← Store_DumpStats s (he_malloc e) (he_classes e);
  s ← (if negb (clear =? 0) then Store_ClearStats s (he_left e) else Ok s);
  '(h, err, evs) ← RPC_call realloc h SERVER_REP_STATS [FStr stats] (he_sends e);
  if err <? 0 then '(h, evs') ← RPC_Release h; Ok (s, h, evs ++ evs')
  else Ok (s, h, evs).

(** The [switch] of [HandleSig]. *)
Definition SigAction (e : handler_env) (s : Store_t) (sig : Z) : res (Store_t * list action) :=
  if sig =? SIGUSR1 then
    text ← Store_PrintStats s (he_malloc e) (he_classes e);
    Ok (s, [Printed text])
  else if sig =? SIGUSR2 then
    s ← Store_Flush s;
    Ok (s, [])
  else if sig =? SIGINT then
    Ok (Store_Release s, [DefaultSignal SIGINT; Killed SIGINT])
  else if sig =? SIGQUIT then
    match he_open e with
    | None => Fault PanicCall
    | Some old =>
      '(s, file) ← Store_Dump realloc write s (he_buf e) [];
      Ok (s, [Wrote (str "/tmp/store.dump") (overwrite file old); Killed SIGINT])
    end
  else if sig =? SIGPWR then
    match he_open e with
    | None => Fault PanicCall
    | Some old =>
      file ← Store_DebugDump realloc write s (he_lines e) (he_buf e) [];
      Ok (s, [Wrote (str "/tmp/store.debugdump") (overwrite file old)])
    end
  else Ok (s, []).

Definition HandleSig (e : handler_env) (s : Store_t) (args : IOBuf_t) : res (Store_t * list action) :=
  '(args, sig) ← IOBuf_GetInt32 args;
  IOBuf_GetEOB args;;
  SigAction e s sig.

(** ** The process *)

Context (env : nat -> handler_env).

(** A handler that replies, and one that does not. *)
Definition replying (f : handler_env -> Store_t -> host_t -> IOBuf_t -> res (Store_t * host_t * list event)) :
    @handler_t proc :=
  fun p h args =>
    '(s, h, evs) ← f (env (pr_turn p)) (pr_store p) h args;
    Ok (Proc _ s (S (pr_turn p)) (pr_events p ++ evs) (pr_actions p), h).

Definition silent (f : handler_env -> Store_t -> IOBuf_t -> res (Store_t * list action)) : @handler_t proc :=
  fun p h args =>
    '(s, acts) ← f (env (pr_turn p)) (pr_store p) args;
    Ok (Proc _ s (S (pr_turn p)) (pr_events p) (pr_actions p ++ acts), h).

Definition RegisterHandlers (table : list (option (@handler_t proc))) : res (list (option (@handler_t proc))) :=
  table ← RPCS_RegisterHandler table SERVER_REQ_LOOKUP
    (replying (fun e s h args => HandleLookup realloc s h args (he_sends e)));
  table ← RPCS_RegisterHandler table SERVER_REQ_PUT
    (silent (fun e s args => s ← HandlePut s args (he_allocs e) (he_time e); Ok (s, [])));
  table ← RPCS_RegisterHandler table SERVER_REQ_STATS (replying HandleStats);
  table ← RPCS_RegisterHandler table SERVER_REQ_INVAL
    (silent (fun e s args => s ← HandleInval s args (he_time e); Ok (s, [])));
  RPCS_RegisterHandler table SERVER_REQ_SIG (silent HandleSig).

(** The signals whose handler is [SendSigRPC]. *)
Definition forwarded_signals : list Z := [SIGUSR1; SIGUSR2; SIGINT; SIGQUIT; SIGPWR].

(** Returns the process, the table, the two ends of the signal connection
    ([sigServer] and [sigClient]) and the resources. *)
Definition Server_Setup (table : list (option (@handler_t proc))) (maxBytes staleness : Z) (junk : Z)
    (sockets : option (Z * Z)) (e1 e2 : prepare_env) (r : resources_t) :
    res (proc * list (option (@handler_t proc)) * (host_t * host_t) * resources_t) :=
  s ← Store_Init maxBytes staleness true junk;
  table ← RegisterHandlers table;
  '(r, ends) ← RPC_Pair sockets e1 e2 r;
  match ends with
  | None => Fault PanicCall
  | Some hosts => Ok (Proc _ s 0 [] [], table, hosts, r)
  end.

(** [SendSigRPC], which only warns when it cannot send. *)
Definition SendSigRPC (sigClient : host_t) (sig : Z) (sends : list send_result) : res (host_t * list event) :=
  '(h, _, evs) ← RPC_call realloc sigClient SERVER_REQ_SIG [F32 sig] sends;
  Ok (h, evs).

Definition set_store (s : Store_t) (p : proc) : proc := Proc _ s (pr_turn p) (pr_events p) (pr_actions p).

Definition Server_Shutdown (p : proc) : proc := set_store (Store_Release (pr_store p)) p.

(** [file] is the content if [open] succeeds, [addr] the address of its mapping. *)
Definition Server_Load (lenv : load_env) (p : proc) (file : option (list Z)) (addr : option Z) : res proc :=
  match file with
  | None => Fault PanicCall
  | Some file => s ← Store_Load lenv (pr_store p) addr file; Ok (set_store s p)
  end.

End Process.

#[global] Arguments SigAction : simpl never.
#[global] Arguments HandleStats : simpl never.

(** ** Requests *)

Inductive request : Type :=
| QLookup (k : list Z) (i : interval_t) (earliestPin lookupPolicy : Z)
| QPut (k : list Z) (i : interval_t) (d : list Z) (tags : list (list Z)) (force : bool)
| QInval (pin : Z) (tags : list (list Z))
| QStats (clear : bool)
| QSig (sig : Z).

Definition request_call (q : request) : Z :=
  match q with
  | QLookup _ _ _ _ => SERVER_REQ_LOOKUP
  | QPut _ _ _ _ _ => SERVER_REQ_PUT
  | QInval _ _ => SERVER_REQ_INVAL
  | QStats _ => SERVER_REQ_STATS
  | QSig _ => SERVER_REQ_SIG
  end.

Definition request_args (q : request) : list field :=
  match q with
  | QLookup k i earliestPin pol => LookupRequest k i earliestPin pol
  | QPut k i d tags force => PutRequest k i d tags force
  | QInval pin tags => InvalRequest pin tags
  | QStats clear => [F8 (if clear then 1 else 0)]
  | QSig sig => [F32 sig]
  end.

Definition request_msg (q : request) : Z * list Z := (request_call q, enc_all (request_args q)).



Section Specification.

Context {P : Type} `{!EvictionPolicy P}.
Context (realloc write : Z -> Z -> Z).

Notation Store_t := (Store_t P).
Notation proc := (proc P).



Context (env : nat -> handler_env).



End Specification.

(** ** Invariant *)

Section Correctness.

Context {P : Type} `{!EvictionPolicy P, !EvictionPolicyLaws P}.
Context (realloc write : Z -> Z -> Z).

Notation Store_t := (Store_t P).
Notation proc := (proc P).

Definition store_ok (s : Store_t) : Prop := Inv s /\ lookupPolicyTable s = policy_table.





(** ** The handlers serve the requests *)

Context (env : nat -> handler_env).

Definition handler_of (q : request) : @handler_t proc :=
  match q with
  | QLookup _ _ _ _ => replying env (fun e s h args => HandleLookup realloc s h args (he_sends e))
  | QPut _ _ _ _ _ => silent env (fun e s args => s ← HandlePut s args (he_allocs e) (he_time e); Ok (s, []))
  | QInval _ _ => silent env (fun e s args => s ← HandleInval s args (he_time e); Ok (s, []))
  | QStats _ => replying env (HandleStats realloc)
  | QSig _ => silent env (HandleSig realloc write)
  end.

Lemma register_five {H} (f1 f2 f3 f4 f5 : H) :
  exists t, (t ← RPCS_RegisterHandler RPCS_InitHandlers SERVER_REQ_LOOKUP f1;
             t ← RPCS_RegisterHandler t SERVER_REQ_PUT f2;
             t ← RPCS_RegisterHandler t SERVER_REQ_STATS f3;
             t ← RPCS_RegisterHandler t SERVER_REQ_INVAL f4;
             RPCS_RegisterHandler t SERVER_REQ_SIG f5) = Ok t /\
    handler_at t SERVER_REQ_LOOKUP = Ok (Some f1) /\ handler_at t SERVER_REQ_PUT = Ok (Some f2) /\
    handler_at t SERVER_REQ_STATS = Ok (Some f3) /\ handler_at t SERVER_REQ_INVAL = Ok (Some f4) /\
    handler_at t SERVER_REQ_SIG = Ok (Some f5).
Proof. eexists. split_and!; vm_compute; reflexivity. Qed.

Lemma RegisterHandlers_ok : exists table, RegisterHandlers realloc write env RPCS_InitHandlers = Ok table /\
  forall q, handler_at table (request_call q) = Ok (Some (handler_of q)).
Proof.
  unfold RegisterHandlers.
  edestruct @register_five as (t & E & H1 & H2 & H3 & H4 & H5). exists t. split; [exact E|]. by intros [].
Qed.




Hypothesis realloc_fits : forall p n, 0 < n <= 2 ^ 33 -> 0 < realloc p n /\ realloc p n + n < 2 ^ 63.






(** ** A connection *)









End Correctness.

(** ** Start-up and signals *)

(** [Server_Setup] gives a process without entries that can serve connections,
    with the five handlers registered and an idle signal connection. *)
Lemma Server_Setup_ok `{!EvictionPolicy P, !EvictionPolicyLaws P} realloc write env maxB staleness junk s1 s2 e1 e2 r :
  prepare_ok e1 -> prepare_ok e2 -> pe_re e1 = true -> pe_re e2 = true ->
  exists (p : proc P) table h1 h2 r',
    Server_Setup realloc write env RPCS_InitHandlers maxB staleness junk (Some (s1, s2)) e1 e2 r = Ok (p, table, (h1, h2), r') /\
    RegisterHandlers realloc write env RPCS_InitHandlers = Ok table /\ store_ok (pr_store p) /\
    reachable maxB staleness (pr_store p) /\ fresh_host s1 true h1 /\ fresh_host s2 true h2.
Proof.
  intros H1 H2 R1 R2. unfold Server_Setup.
  destruct (Init_ok (P := P) maxB staleness junk) as (s & E & HI & HT & _). rewrite E, bind_ret_l.
  destruct (RegisterHandlers_ok realloc write env) as (table & -> & _). rewrite bind_ret_l.
  destruct (RPC_Pair_ok s1 s2 e1 e2 r H1 H2) as (r' & o & -> & _ & Ho). rewrite bind_ret_l.
  destruct o as [[h1 h2]|]; [|by rewrite R1, R2 in Ho].
  eexists _, _, h1, h2, r'. split_and!; [done|done|by split|by econstructor|apply Ho..].
Qed.

(** A signal that is sent reaches [HandleSig] as the same number. *)
Lemma signal_delivered `{!EvictionPolicy P} realloc write sigClient bytes sig sends e (s : Store_t P) v :
  (forall p n, 0 < n <= 2 ^ 33 -> 0 < realloc p n /\ realloc p n + n < 2 ^ 63) ->
  pending sigClient bytes -> - 2 ^ 31 <= sig < 2 ^ 31 -> Z.of_nat (length bytes) < 2 ^ 31 ->
  sends_ok false (Z.of_nat (length (bytes ++ frame (request_msg (QSig sig))))) sends ->
  io_ok v -> unread v = (request_msg (QSig sig)).2 ->
  (exists h' evs bytes', SendSigRPC realloc sigClient sig sends = Ok (h', evs) /\ pending h' bytes' /\
    sent_bytes evs ++ bytes' = bytes ++ frame (request_msg (QSig sig))) /\
  HandleSig realloc write e s v = SigAction realloc write e s sig.
Proof.
  intros Hr Hp Hs Hb Hse Ov Uv. assert (El : length (enc_all [F32 sig]) = 4%nat) by done.
  split.
  - destruct (call_pending realloc Hr sigClient bytes SERVER_REQ_SIG [F32 sig] sends Hp) as (h' & evs & bytes' & E & Hp' & Eb & _).
    + apply Forall_cons_2; [exact Hs|apply Forall_nil_2].
    + rewrite El. lia.
    + rewrite length_app, length_frame. cbn [snd]. rewrite El. lia.
    + exact Hse.
    + exists h', evs, bytes'. unfold SendSigRPC. rewrite E. by split_and!.
  - unfold HandleSig. destruct (reads_32 v sig [] (conj Ov Uv) Hs) as (b1 & -> & Hv1).
    by rewrite bind_ret_l, (reads_end _ Hv1), bind_ret_l.
Qed.

(** A second signal that interrupts [SendSigRPC] between [RPC_Start] and
    [RPC_Send] ends the server: [signal] does not block the other signals. *)
Lemma signal_in_signal :
  (h ← RPC_Start ex_realloc (ex_host true) SERVER_REQ_SIG; SendSigRPC ex_realloc h SIGUSR2 [Sent 9]) = Fault PanicCall.
Proof. vm_compute. reflexivity. Qed.

(** The dump file is not truncated: a shorter dump leaves the end of a longer
    one, which [Store_Load] does not read. *)
Lemma overwrite_tail new old : (length new <= length old)%nat ->
  exists rest, overwrite new old = new ++ rest /\ length (overwrite new old) = length old.
Proof.
  intros H. exists (drop (length new) old). unfold overwrite. rewrite length_app, length_drop. split; [done|lia].
Qed.

(** ** Properties *)







