(* ===== verification/CommitMap.v ===== *)
(** * The commit map (src/pgsql/src/backend/utils/time/xstamp.c)

    The database's map from transaction ids to their places in the commit order:
    an array of entries threaded on hash buckets, on a chain in commit order from
    which old entries expire, and on a free list.  The pointer structure is shown
    to implement a log of commits.  Operations hold the map's locks and are
    atomic here. *)

From S2P Require Import Prelude CLib DblList.

(** ** Data *)

Definition InvalidXStamp : Z := 0.
Definition XStampMinusInfinity : Z := 1.
Definition FirstXStamp : Z := 2.
Definition XStampInfinity : Z := 2 ^ 32 - 1.

Definition XSTAMP_IS_VALID (x : Z) : bool := negb (x =? InvalidXStamp).

Definition MAX_COMMIT_MAP_ENTRIES : Z := 262144.
Definition COMMIT_MAP_BUCKETS : Z := 8192.

(** Addresses of entries are positive, 0 is NULL. *)
Record CommitMapEntry : Type := CMEntry {
  xid : Z;
  xstamp : Z;
  bucketPrev : Z;
  bucketNext : Z;
  expirePrev : Z;
  expireNext : Z
}.

Record CommitMapBucket : Type := CMBucket {
  bucket_head : Z;
  bucket_tail : Z
}.

Record CommitMap : Type := CMap {
  entries : gmap Z CommitMapEntry;
  buckets : gmap Z CommitMapBucket;
  expireHead : Z;
  expireTail : Z;
  freeHead : Z
}.

(** Shared memory starts zeroed. *)
Definition CMZero : CommitMapEntry := CMEntry 0 0 0 0 0 0.

Definition ent (m : CommitMap) (a : Z) : CommitMapEntry := default CMZero (entries m !! a).

Definition bkt (m : CommitMap) (b : Z) : CommitMapBucket := default (CMBucket 0 0) (buckets m !! b).

Definition set_ent (a : Z) (e : CommitMapEntry) (m : CommitMap) : CommitMap :=
  CMap (<[a := e]> (entries m)) (buckets m) (expireHead m) (expireTail m) (freeHead m).

Definition set_bkt (b : Z) (k : CommitMapBucket) (m : CommitMap) : CommitMap :=
  CMap (entries m) (<[b := k]> (buckets m)) (expireHead m) (expireTail m) (freeHead m).

Definition set_expire (h t : Z) (m : CommitMap) : CommitMap :=
  CMap (entries m) (buckets m) h t (freeHead m).

Definition set_free (f : Z) (m : CommitMap) : CommitMap :=
  CMap (entries m) (buckets m) (expireHead m) (expireTail m) f.

(** Assignments to one field of an entry. *)
Definition set_ids (x s a : Z) (m : CommitMap) : CommitMap :=
  let e := ent m a in set_ent a (CMEntry x s (bucketPrev e) (bucketNext e) (expirePrev e) (expireNext e)) m.

Definition set_bucketPrev (p a : Z) (m : CommitMap) : CommitMap :=
  let e := ent m a in set_ent a (CMEntry (xid e) (xstamp e) p (bucketNext e) (expirePrev e) (expireNext e)) m.

Definition set_bucketNext (n a : Z) (m : CommitMap) : CommitMap :=
  let e := ent m a in set_ent a (CMEntry (xid e) (xstamp e) (bucketPrev e) n (expirePrev e) (expireNext e)) m.

Definition set_expirePrev (p a : Z) (m : CommitMap) : CommitMap :=
  let e := ent m a in set_ent a (CMEntry (xid e) (xstamp e) (bucketPrev e) (bucketNext e) p (expireNext e)) m.

Definition set_expireNext (n a : Z) (m : CommitMap) : CommitMap :=
  let e := ent m a in set_ent a (CMEntry (xid e) (xstamp e) (bucketPrev e) (bucketNext e) (expirePrev e) n) m.

(** ** Operations *)

Definition HashXid (x : Z) : Z := x mod COMMIT_MAP_BUCKETS.

Definition CommitMapEntryAlloc (m : CommitMap) : res (CommitMap * Z) :=
  if freeHead m =? 0 then Fault PanicCall
  else let e := freeHead m in Ok (set_free (expireNext (ent m e)) m, e).

Definition CommitMapEntryFree (m : CommitMap) (e : Z) : CommitMap :=
  set_free e (set_expireNext (freeHead m) e m).

(** The loops of [CommitMapInit] over [nb] buckets and [ne] entries. *)
Definition InitLoops (nb ne : nat) (m : CommitMap) : CommitMap :=
  let m := fold_left (fun m i => set_bkt (Z.of_nat i) (CMBucket 0 0) m) (seq 0 nb) m in
  let m := set_expire 0 0 m in
  let m := set_free 0 m in
  fold_left (fun m i => CommitMapEntryFree m (Z.of_nat i + 1)) (seq 0 ne) m.

Definition CommitMapInit (m : CommitMap) : CommitMap :=
  InitLoops (Z.to_nat COMMIT_MAP_BUCKETS) (Z.to_nat MAX_COMMIT_MAP_ENTRIES) m.

(** The first half of [CommitMapAddEntry], up to the bucket. *)
Definition AddToExpireChain (m : CommitMap) (e : Z) : CommitMap :=
  let m := set_expirePrev (expireTail m) e m in
  let m := set_expireNext 0 e m in
  let m := if expireTail m =? 0 then m else set_expireNext e (expireTail m) m in
  set_expire (if expireHead m =? 0 then e else expireHead m) e m.

Definition AddToBucket (m : CommitMap) (e : Z) : CommitMap :=
  let hash := HashXid (xid (ent m e)) in
  let bucket := bkt m hash in
  let m := set_bucketPrev (bucket_tail bucket) e m in
  let m := set_bucketNext 0 e m in
  let m := if bucket_tail bucket =? 0 then m else set_bucketNext e (bucket_tail bucket) m in
  set_bkt hash (CMBucket (if bucket_head bucket =? 0 then e else bucket_head bucket) e) m.

Definition CommitMapAddEntry (m : CommitMap) (e : Z) : res CommitMap :=
  Assert ((expireTail m =? 0) || (xstamp (ent m (expireTail m)) <? xstamp (ent m e)));;
  Ok (AddToBucket (AddToExpireChain m e) e).

Definition CommitMapRemove (m : CommitMap) (e : Z) : CommitMap :=
  let hash := HashXid (xid (ent m e)) in
  let p := bucketPrev (ent m e) in
  let n := bucketNext (ent m e) in
  let m := if n =? 0 then set_bkt hash (CMBucket (bucket_head (bkt m hash)) p) m
           else set_bucketPrev p n m in
  let m := if p =? 0 then set_bkt hash (CMBucket n (bucket_tail (bkt m hash))) m
           else set_bucketNext n p m in
  CommitMapEntryFree m e.

(** A chain has at most all the entries. *)
Definition map_fuel : nat := S (Z.to_nat MAX_COMMIT_MAP_ENTRIES).

(** [while (ptr != NULL)] of [CommitMapLookup]. *)
Fixpoint BucketLoop (fuel : nat) (m : CommitMap) (ptr x : Z) : res Z :=
  match fuel with
  | O => Fault NoFuel
  | S fuel =>
    if ptr =? 0 then Ok InvalidXStamp
    else if xid (ent m ptr) =? x then Ok (xstamp (ent m ptr))
    else BucketLoop fuel m (bucketNext (ent m ptr)) x
  end.

Definition CommitMapLookup (m : CommitMap) (x : Z) : res Z :=
  BucketLoop map_fuel m (bucket_head (bkt m (HashXid x))) x.

Definition CommitMapAdd (m : CommitMap) (x s : Z) : res CommitMap :=
  '(m, e) ← CommitMapEntryAlloc m;
  CommitMapAddEntry (set_ids x s e m) e.

(** The loop of [CommitMapExpire]; returns the first entry kept. *)
Fixpoint ExpireChainLoop (fuel : nat) (m : CommitMap) (e earliestToKeep : Z) : res (CommitMap * Z) :=
  match fuel with
  | O => Fault NoFuel
  | S fuel =>
    if negb (e =? 0) && (xstamp (ent m e) <? earliestToKeep) then
      let n := expireNext (ent m e) in
      ExpireChainLoop fuel (CommitMapRemove m e) n earliestToKeep
    else Ok (m, e)
  end.

Definition CommitMapExpire (m : CommitMap) (earliestToKeep : Z) : res CommitMap :=
  '(m, e) ← ExpireChainLoop map_fuel m (expireHead m) earliestToKeep;
  Ok (set_expire e (if e =? 0 then 0 else expireTail m) m).

#[global] Arguments set_ids : simpl never.
#[global] Arguments set_bucketPrev : simpl never.
#[global] Arguments set_bucketNext : simpl never.
#[global] Arguments set_expirePrev : simpl never.
#[global] Arguments set_expireNext : simpl never.

(** ** Meaning *)

(** [l] is linked by [nx] and ends at [q]. *)
Fixpoint nchain (nx : Z -> Z) (l : list Z) (q : Z) : Prop :=
  match l with
  | [] => True
  | a :: l => nx a = hd_or q l /\ nchain nx l q
  end.

(** [l] is linked by [nx] and back by [pv] between [p] and [q]. *)
Fixpoint dchain (pv nx : Z -> Z) (p : Z) (l : list Z) (q : Z) : Prop :=
  match l with
  | [] => True
  | a :: l => pv a = p /\ nx a = hd_or q l /\ dchain pv nx a l q
  end.

Definition in_bucket (m : CommitMap) (b : Z) (ch : list Z) : list Z :=
  filter (fun a => HashXid (xid (ent m a)) = b) ch.

(** [ch] are the entries in use, in commit order, [fr] the free ones. *)
Record cm_ok (m : CommitMap) (ch fr : list Z) : Prop := {
  cm_free : freeHead m = hd_or 0 fr;
  cm_free_chain : nchain (fun a => expireNext (ent m a)) fr 0;
  cm_chain : nchain (fun a => expireNext (ent m a)) ch 0;
  cm_bucket b : 0 <= b < COMMIT_MAP_BUCKETS ->
    bkt m b = CMBucket (hd_or 0 (in_bucket m b ch)) (last_or 0 (in_bucket m b ch)) /\
    dchain (fun a => bucketPrev (ent m a)) (fun a => bucketNext (ent m a)) 0 (in_bucket m b ch) 0;
  cm_nodup : NoDup (ch ++ fr);
  cm_null : 0 ∉ ch ++ fr;
  cm_length : Z.of_nat (length (ch ++ fr)) = MAX_COMMIT_MAP_ENTRIES
}.

Record cm_inv (m : CommitMap) (ch fr : list Z) : Prop := {
  cm_is_ok : cm_ok m ch fr;
  cm_head : expireHead m = hd_or 0 ch;
  cm_tail : expireTail m = last_or 0 ch
}.

(** The commits in the map, oldest first. *)
Definition commit_of (m : CommitMap) (a : Z) : Z * Z := (xid (ent m a), xstamp (ent m a)).

Definition log_of (m : CommitMap) (ch : list Z) : list (Z * Z) := map (commit_of m) ch.

(** ** Lemmas: chains *)

Lemma nchain_ext f g l q : (forall a, a ∈ l -> g a = f a) -> nchain f l q -> nchain g l q.
Proof.
  induction l as [|a l IH]; intros E; cbn; [done|]. intros [H1 H2]. rewrite (E a) by left. split; [done|].
  apply IH; [|done]. intros x Hx. apply E. by right.
Qed.

Lemma nchain_snoc nx l a q : nchain nx (l ++ [a]) q <-> nchain nx l a /\ nx a = q.
Proof.
  induction l as [|x l IH]; cbn; [tauto|]. rewrite IH, hd_or_app. cbn. tauto.
Qed.

Lemma dchain_ext f f' g g' p l q :
  (forall a, a ∈ l -> f' a = f a /\ g' a = g a) -> dchain f g p l q -> dchain f' g' p l q.
Proof.
  revert p. induction l as [|a l IH]; intros p E; cbn; [done|]. intros (H1 & H2 & H3).
  destruct (E a) as [-> ->]; [by left|]. split_and!; [done|done|]. apply IH; [|done]. intros x Hx. apply E. by right.
Qed.

Lemma dchain_snoc f g p l a q : dchain f g p (l ++ [a]) q <-> dchain f g p l a /\ f a = last_or p l /\ g a = q.
Proof.
  revert p. induction l as [|x l IH]; intros p; cbn.
  - unfold last_or, hd_or. cbn. tauto.
  - rewrite IH, hd_or_app, last_or_cons. cbn. tauto.
Qed.

(** A new element at the end. *)
Lemma nchain_push nx nx' l a :
  a ∉ l -> NoDup l -> nchain nx l 0 -> nx' a = 0 -> (l <> [] -> nx' (last_or 0 l) = a) ->
  (forall x, x ∈ l -> x <> last_or 0 l -> nx' x = nx x) -> nchain nx' (l ++ [a]) 0.
Proof.
  intros Ha Hd H Hn Hl Hx. apply nchain_snoc. split; [|done]. destruct l as [|y l _] using rev_ind; [done|].
  rewrite last_or_snoc in *. apply nchain_snoc in H as [H _]. apply nchain_snoc. split; [|apply Hl; by destruct l].
  apply NoDup_app in Hd as (_ & Hd & _). eapply nchain_ext; [|exact H]. intros x Hin. apply Hx; [set_solver|].
  intros ->. apply (Hd y Hin). by left.
Qed.

Lemma dchain_push f f' g g' l a :
  a ∉ l -> NoDup l -> dchain f g 0 l 0 -> f' a = last_or 0 l -> g' a = 0 -> (l <> [] -> g' (last_or 0 l) = a) ->
  (forall x, x ∈ l -> f' x = f x) -> (forall x, x ∈ l -> x <> last_or 0 l -> g' x = g x) ->
  dchain f' g' 0 (l ++ [a]) 0.
Proof.
  intros Ha Hd H Hf Hn Hl Hfx Hx. apply dchain_snoc. split; [|done]. destruct l as [|y l _] using rev_ind; [done|].
  rewrite last_or_snoc in *. apply dchain_snoc in H as (H & Hy & _). apply dchain_snoc.
  apply NoDup_app in Hd as (_ & Hd & _). split_and!.
  - eapply dchain_ext; [|exact H]. intros x Hin. split; [apply Hfx; set_solver|]. apply Hx; [set_solver|].
    intros ->. apply (Hd y Hin). by left.
  - rewrite Hfx by set_solver. done.
  - apply Hl. by destruct l.
Qed.

(** ** Lemmas: fields *)

Lemma ent_set_ent a e m b : ent (set_ent a e m) b = if decide (a = b) then e else ent m b.
Proof. unfold ent. cbn. by case_decide as E; [subst; rewrite lookup_insert_eq|rewrite lookup_insert_ne]. Qed.

Lemma bkt_set_bkt b k m c : bkt (set_bkt b k m) c = if decide (b = c) then k else bkt m c.
Proof. unfold bkt. cbn. by case_decide as E; [subst; rewrite lookup_insert_eq|rewrite lookup_insert_ne]. Qed.

Lemma ent_set_bkt b k m a : ent (set_bkt b k m) a = ent m a.
Proof. done. Qed.

Lemma ent_set_expire h t m a : ent (set_expire h t m) a = ent m a.
Proof. done. Qed.

Lemma ent_set_free f m a : ent (set_free f m) a = ent m a.
Proof. done. Qed.

Lemma bkt_set_ent a e m b : bkt (set_ent a e m) b = bkt m b.
Proof. done. Qed.

(** Evaluates the fields of entries after assignments. *)
Ltac ents :=
  unfold set_ids, set_bucketPrev, set_bucketNext, set_expirePrev, set_expireNext;
  repeat (rewrite ?ent_set_bkt, ?ent_set_expire, ?ent_set_free, ?ent_set_ent; cbn;
          first [ rewrite decide_True by congruence | rewrite decide_False by congruence
                | case_decide; subst ]; cbn);
  rewrite ?ent_set_bkt, ?ent_set_expire, ?ent_set_free.

(** What [CommitMapAdd] does to the fields. *)
Record added (m : CommitMap) (e x s : Z) (m' : CommitMap) : Prop := {
  ad_ids b : commit_of m' b = if decide (e = b) then (x, s) else commit_of m b;
  ad_expireNext b : b <> 0 -> expireNext (ent m' b) =
    if decide (e = b) then 0 else if decide (expireTail m = b) then e else expireNext (ent m b);
  ad_bucketPrev b : bucketPrev (ent m' b) =
    if decide (e = b) then bucket_tail (bkt m (HashXid x)) else bucketPrev (ent m b);
  ad_bucketNext b : b <> 0 -> bucketNext (ent m' b) =
    if decide (e = b) then 0 else if decide (bucket_tail (bkt m (HashXid x)) = b) then e else bucketNext (ent m b);
  ad_bkt b : bkt m' b =
    if decide (HashXid x = b)
    then CMBucket (if bucket_head (bkt m b) =? 0 then e else bucket_head (bkt m b)) e else bkt m b;
  ad_head : expireHead m' = if expireHead m =? 0 then e else expireHead m;
  ad_tail : expireTail m' = e;
  ad_free : freeHead m' = expireNext (ent m e)
}.

Lemma chain_fields m e : expireTail m <> e ->
  let m' := AddToExpireChain m e in
  (forall b, commit_of m' b = commit_of m b) /\ (forall b, bkt m' b = bkt m b) /\
  (forall b, bucketPrev (ent m' b) = bucketPrev (ent m b) /\ bucketNext (ent m' b) = bucketNext (ent m b)) /\
  (forall b, b <> 0 -> expireNext (ent m' b) =
    if decide (e = b) then 0 else if decide (expireTail m = b) then e else expireNext (ent m b)) /\
  expireHead m' = (if expireHead m =? 0 then e else expireHead m) /\ expireTail m' = e /\ freeHead m' = freeHead m.
Proof.
  intros Ht. cbv zeta. unfold AddToExpireChain, commit_of.
  change (expireTail (set_expireNext 0 e (set_expirePrev (expireTail m) e m))) with (expireTail m).
  destruct (Z.eqb_spec (expireTail m) 0) as [E|E]; split_and!; try done; intros b; intros; ents; done || congruence.
Qed.

Lemma bucket_fields m e : let h := HashXid (xid (ent m e)) in bucket_tail (bkt m h) <> e ->
  let m' := AddToBucket m e in
  (forall b, commit_of m' b = commit_of m b) /\ (forall b, expireNext (ent m' b) = expireNext (ent m b)) /\
  (forall b, bucketPrev (ent m' b) = if decide (e = b) then bucket_tail (bkt m h) else bucketPrev (ent m b)) /\
  (forall b, b <> 0 -> bucketNext (ent m' b) =
    if decide (e = b) then 0 else if decide (bucket_tail (bkt m h) = b) then e else bucketNext (ent m b)) /\
  (forall b, bkt m' b = if decide (h = b)
    then CMBucket (if bucket_head (bkt m b) =? 0 then e else bucket_head (bkt m b)) e else bkt m b) /\
  expireHead m' = expireHead m /\ expireTail m' = expireTail m /\ freeHead m' = freeHead m.
Proof.
  cbv zeta. intros Ht. unfold AddToBucket, commit_of. set (k := bkt m (HashXid (xid (ent m e)))) in *.
  destruct (Z.eqb_spec (bucket_tail k) 0) as [E|E]; split_and!; try done; intros b; intros; rewrite ?bkt_set_bkt;
    try (case_decide; subst; done); ents; done || congruence.
Qed.

Lemma Add_added m x s :
  freeHead m <> 0 -> expireTail m <> freeHead m -> bucket_tail (bkt m (HashXid x)) <> freeHead m ->
  expireTail m = 0 \/ xstamp (ent m (expireTail m)) < s ->
  exists m', CommitMapAdd m x s = Ok m' /\ added m (freeHead m) x s m'.
Proof.
  intros Hf Ht Hb Hs. unfold CommitMapAdd, CommitMapEntryAlloc. rewrite (proj2 (Z.eqb_neq _ _)), bind_ret_l by done.
  set (e := freeHead m) in *. clearbody e. unfold CommitMapAddEntry.
  assert (Ha : (expireTail m =? 0) || (xstamp (ent m (expireTail m)) <? s) = true).
  { apply orb_true_iff. destruct Hs as [->|Hs]; [by left|right; by apply Z.ltb_lt]. }
  set (m1 := set_ids x s e (set_free (expireNext (ent m e)) m)).
  assert (M : forall b, ent m1 b = if decide (e = b) then CMEntry x s (bucketPrev (ent m e)) (bucketNext (ent m e))
    (expirePrev (ent m e)) (expireNext (ent m e)) else ent m b) by (intros b; exact (ent_set_ent _ _ (set_free _ m) b)).
  change (expireTail m1) with (expireTail m). rewrite !M, decide_False, decide_True by congruence. cbn [xstamp].
  rewrite Ha. cbn [Assert]. rewrite bind_ret_l. eexists. split; [reflexivity|].
  destruct (chain_fields m1 e Ht) as (C1 & C2 & C3 & C4 & C5 & C6 & C7). set (m2 := AddToExpireChain m1 e) in *.
  assert (Ex : xid (ent m2 e) = x).
  { pose proof (C1 e) as E. unfold commit_of in E. injection E as -> _. by rewrite M, decide_True. }
  destruct (bucket_fields m2 e) as (B1 & B2 & B3 & B4 & B5 & B6 & B7 & B8); [by rewrite Ex, C2|]. rewrite Ex in *.
  rewrite C2 in B3, B4. set (m3 := AddToBucket m2 e) in *.
  split; [intros b; rewrite B1, C1|intros b Hn; rewrite B2, C4|intros b; rewrite B3|intros b Hn; rewrite B4|
    intros b; rewrite B5, C2|by rewrite B6, C5|by rewrite B7, C6|by rewrite B8, C7]; try done.
  all: unfold commit_of; rewrite ?M; repeat case_decide; try done.
  all: destruct (C3 b) as [E1 E2]; by rewrite ?E1, ?E2, M, decide_False by done.
Qed.

(** ** Lemmas: additions *)

Lemma last_or_in l : l <> [] -> last_or 0 l ∈ l.
Proof.
  intros Hl. destruct l as [|y l _] using rev_ind; [done|]. rewrite last_or_snoc. apply elem_of_app. right. by left.
Qed.

Lemma last_or_out l e : e ∉ l -> e <> 0 -> last_or 0 l <> e.
Proof.
  intros He H0. destruct (decide (l = [])) as [->|Hl]; [done|]. intros <-. by apply He, last_or_in.
Qed.

Lemma in_bucket_sub m b ch a : a ∈ in_bucket m b ch -> a ∈ ch.
Proof. unfold in_bucket. by intros [_ ?]%list_elem_of_filter. Qed.

Lemma in_bucket_nodup m b ch : NoDup ch -> NoDup (in_bucket m b ch).
Proof. apply NoDup_filter. Qed.

Lemma in_bucket_ext m m' b ch :
  (forall a, a ∈ ch -> xid (ent m' a) = xid (ent m a)) -> in_bucket m' b ch = in_bucket m b ch.
Proof.
  intros E. unfold in_bucket. induction ch as [|a ch IH]; [done|]. rewrite !filter_cons, (E a) by left.
  rewrite IH by (intros x Hx; apply E; by right). done.
Qed.

Lemma in_bucket_snoc m b ch a :
  in_bucket m b (ch ++ [a]) = in_bucket m b ch ++ (if decide (HashXid (xid (ent m a)) = b) then [a] else []).
Proof. unfold in_bucket. by rewrite filter_app, filter_cons, filter_nil. Qed.

Lemma HashXid_range x : 0 <= HashXid x < COMMIT_MAP_BUCKETS.
Proof. apply Z.mod_pos_bound. done. Qed.

Lemma ids_eq m' b p : commit_of m' b = p -> xid (ent m' b) = fst p /\ xstamp (ent m' b) = snd p.
Proof. by intros <-. Qed.

Lemma log_ext m m' ch : (forall a, a ∈ ch -> commit_of m' a = commit_of m a) -> log_of m' ch = log_of m ch.
Proof. intros E. apply map_ext_in. intros a Ha. apply E. by apply list_elem_of_In. Qed.

Lemma hd_or_push l e : (if hd_or 0 l =? 0 then e else hd_or 0 l) = hd_or 0 (l ++ [e]) \/ 0 ∈ l.
Proof. destruct l as [|y l]; [by left|]. cbn. destruct (Z.eqb_spec y 0) as [->|]; [right; by left|by left]. Qed.

Section Add.

Context (m m' : CommitMap) (ch fr : list Z) (e x s : Z).
Hypothesis Hm : cm_inv m ch (e :: fr).
Hypothesis Hadd : added m e x s m'.

Lemma add_fresh : e ∉ ch /\ e ∉ fr /\ e <> 0 /\ NoDup ch /\ NoDup fr /\ 0 ∉ ch.
Proof.
  destruct Hm as [[H1 H2 H3 H4 H5 H6 H7] _ _]. apply NoDup_app in H5 as (Hc & Hd & [He Hf]%NoDup_cons).
  rewrite not_elem_of_app, not_elem_of_cons in H6. destruct H6 as (? & ? & ?).
  split_and!; [|done|done|done|done|done]. intros Hin. apply (Hd e Hin). by left.
Qed.

Lemma add_old a : a ∈ ch -> commit_of m' a = commit_of m a.
Proof. intros Ha. rewrite (ad_ids _ _ _ _ _ Hadd). rewrite decide_False; [done|].
  intros E. subst a. by destruct add_fresh as (? & _). Qed.

Lemma add_bucket b : in_bucket m' b (ch ++ [e]) = in_bucket m b ch ++ (if decide (HashXid x = b) then [e] else []).
Proof.
  assert (E : xid (ent m' e) = x).
  { destruct (ids_eq m' e _ (ad_ids _ _ _ _ _ Hadd e)) as [-> _]. by rewrite decide_True. }
  rewrite in_bucket_snoc, E. f_equal. apply in_bucket_ext. intros a Ha. destruct (ids_eq m' a _ (add_old a Ha)) as [-> _]. done.
Qed.

Lemma add_bucket_ok b : 0 <= b < COMMIT_MAP_BUCKETS ->
  bkt m' b = CMBucket (hd_or 0 (in_bucket m' b (ch ++ [e]))) (last_or 0 (in_bucket m' b (ch ++ [e]))) /\
  dchain (fun a => bucketPrev (ent m' a)) (fun a => bucketNext (ent m' a)) 0 (in_bucket m' b (ch ++ [e])) 0.
Proof.
  intros Hb. destruct add_fresh as (Hch & _ & H0 & Hd & _ & Hnc).
  destruct (cm_bucket _ _ _ (cm_is_ok _ _ _ Hm) b Hb) as [Eb Hc].
  destruct (cm_bucket _ _ _ (cm_is_ok _ _ _ Hm) (HashXid x) (HashXid_range x)) as [Eh _].
  assert (Hin : forall c a, a ∈ in_bucket m c ch -> a <> e /\ a <> 0).
  { intros c a Ha%in_bucket_sub. split; intros ->; [by apply Hch|by apply Hnc]. }
  rewrite add_bucket, (ad_bkt _ _ _ _ _ Hadd). set (l := in_bucket m b ch) in *. case_decide as E.
  - rewrite last_or_snoc, Eb. cbn [bucket_head]. split.
    + f_equal. destruct (hd_or_push l e) as [->|Hz]; [done|]. by destruct (Hin b 0 Hz).
    + subst b. fold l in Eh. eapply dchain_push; [by intros [[] _]%Hin|by apply in_bucket_nodup|exact Hc|..].
      * rewrite (ad_bucketPrev _ _ _ _ _ Hadd), decide_True, Eh by done. done.
      * by rewrite (ad_bucketNext _ _ _ _ _ Hadd), decide_True.
      * intros Hl. pose proof (Hin _ _ (last_or_in l Hl)) as [? ?].
        rewrite (ad_bucketNext _ _ _ _ _ Hadd), decide_False, decide_True by (done || by rewrite Eh). done.
      * intros a Ha. destruct (Hin _ a Ha). by rewrite (ad_bucketPrev _ _ _ _ _ Hadd), decide_False.
      * intros a Ha Hne. destruct (Hin _ a Ha). rewrite (ad_bucketNext _ _ _ _ _ Hadd), !decide_False; try done.
        rewrite Eh. by intros <-.
  - rewrite app_nil_r. split; [done|]. eapply dchain_ext; [|exact Hc]. intros a Ha. destruct (Hin _ a Ha).
    rewrite (ad_bucketPrev _ _ _ _ _ Hadd), (ad_bucketNext _ _ _ _ _ Hadd), decide_False by done.
    split; [done|]. rewrite !decide_False; try done. intros Ea. rewrite Eh in Ea. cbn in Ea.
    assert (Hl : in_bucket m (HashXid x) ch <> []) by (intros El; rewrite El in Ea; by subst a).
    pose proof (last_or_in _ Hl) as Hla. rewrite Ea in Hla. unfold l, in_bucket in *.
    apply list_elem_of_filter in Ha as [? _]. apply list_elem_of_filter in Hla as [? _]. congruence.
Qed.

Lemma add_inv : cm_inv m' (ch ++ [e]) fr /\ log_of m' (ch ++ [e]) = log_of m ch ++ [(x, s)].
Proof.
  destruct add_fresh as (Hch & Hfr & H0 & Hd & Hdf & Hnc). destruct Hm as [[H1 H2 H3 H4 H5 H6 H7] Hh Ht].
  split.
  - split; [split|..].
    + rewrite (ad_free _ _ _ _ _ Hadd). apply H2.
    + eapply nchain_ext; [|exact (proj2 H2)]. intros a Ha. rewrite (ad_expireNext _ _ _ _ _ Hadd), !decide_False; [done|..].
      * rewrite Ht. intros <-. apply NoDup_app in H5 as (_ & H5 & _).
        destruct (decide (ch = [])) as [->|Hne]; [apply H6, elem_of_app; right; by right|].
        apply (H5 _ (last_or_in ch Hne)). by right.
      * by intros <-.
      * intros ->. apply H6, elem_of_app. right. by right.
    + eapply nchain_push; [done|done|exact H3|..].
      * by rewrite (ad_expireNext _ _ _ _ _ Hadd), decide_True.
      * intros Hl. pose proof (last_or_in ch Hl) as Hin.
        assert (last_or 0 ch <> 0) by (intros E; by rewrite E in Hin).
        assert (e <> last_or 0 ch) by (intros E; by rewrite <- E in Hin).
        by rewrite (ad_expireNext _ _ _ _ _ Hadd), decide_False, decide_True by done.
      * intros a Ha Hne. assert (a <> 0) by (by intros ->). assert (e <> a) by (by intros <-).
        rewrite (ad_expireNext _ _ _ _ _ Hadd), !decide_False; try done. rewrite Ht. by intros <-.
    + apply add_bucket_ok.
    + by rewrite <- app_assoc.
    + by rewrite <- app_assoc.
    + rewrite <- app_assoc. done.
    + rewrite (ad_head _ _ _ _ _ Hadd), Hh. by destruct (hd_or_push ch e) as [->|].
    + by rewrite (ad_tail _ _ _ _ _ Hadd), last_or_snoc.
  - unfold log_of. rewrite map_app. cbn. rewrite (ad_ids _ _ _ _ _ Hadd e), decide_True by done. f_equal.
    apply log_ext. apply add_old.
Qed.

End Add.

(** ** Logs of commits *)

Definition log_add (log : list (Z * Z)) (x s : Z) : res (list (Z * Z)) :=
  if Z.of_nat (length log) =? MAX_COMMIT_MAP_ENTRIES then Fault PanicCall
  else
    Assert (match last log with None => true | Some c => snd c <? s end);;
    Ok (log ++ [(x, s)]).

Fixpoint log_lookup (log : list (Z * Z)) (x : Z) : Z :=
  match log with
  | [] => InvalidXStamp
  | c :: log => if fst c =? x then snd c else log_lookup log x
  end.

Fixpoint log_expire (log : list (Z * Z)) (earliestToKeep : Z) : list (Z * Z) :=
  match log with
  | [] => []
  | c :: log' => if snd c <? earliestToKeep then log_expire log' earliestToKeep else log
  end.

(** [m] holds the commits [log]. *)
Definition cm_log (m : CommitMap) (log : list (Z * Z)) : Prop :=
  exists ch fr, cm_inv m ch fr /\ log_of m ch = log.

Lemma last_log m ch : last (log_of m ch) = if decide (ch = []) then None else Some (commit_of m (last_or 0 ch)).
Proof.
  destruct ch as [|y ch _] using rev_ind; [done|]. rewrite decide_False by (by destruct ch).
  unfold log_of. rewrite map_app, last_or_snoc. exact (last_snoc _ _).
Qed.

Lemma Add_log m log x s : cm_log m log ->
  match log_add log x s with
  | Ok log' => exists m', CommitMapAdd m x s = Ok m' /\ cm_log m' log'
  | Fault f => CommitMapAdd m x s = Fault f
  end.
Proof.
  intros (ch & fr & Hm & <-). unfold log_add. pose proof (cm_length _ _ _ (cm_is_ok _ _ _ Hm)) as Hlen.
  rewrite length_app in Hlen. unfold log_of at 1. rewrite length_map.
  destruct Hm as [Ho Hh Ht] eqn:Em. clear Em. pose proof (cm_free _ _ _ Ho) as Hf. destruct fr as [|e fr].
  - cbn in Hlen. rewrite (proj2 (Z.eqb_eq _ _)) by lia. unfold CommitMapAdd, CommitMapEntryAlloc. by rewrite Hf.
  - rewrite (proj2 (Z.eqb_neq _ _)) by (cbn in Hlen; lia). rewrite last_log. cbn [hd_or] in Hf. unfold hd_or in Hf. cbn in Hf.
    destruct (add_fresh m ch fr e Hm) as (Hch & _ & H0 & _). pose proof (last_or_out ch e Hch H0) as Hl.
    assert (Hb : bucket_tail (bkt m (HashXid x)) <> e).
    { destruct (cm_bucket _ _ _ Ho _ (HashXid_range x)) as [-> _]. cbn. apply last_or_out; [|done].
      by intros ?%in_bucket_sub. }
    destruct (decide (ch = [])) as [->|Hne]; cbn [snd commit_of].
    + cbn [Assert]. rewrite bind_ret_l. destruct (Add_added m x s) as (m' & E & Had); rewrite ?Hf, ?Ht; auto.
      exists m'. split; [done|]. rewrite Hf in Had. destruct (add_inv m m' _ fr e x s Hm Had) as [? ?]. by eexists _, _.
    + unfold Assert. destruct (Z.ltb_spec (xstamp (ent m (last_or 0 ch))) s) as [Hs|Hs].
      * rewrite bind_ret_l. destruct (Add_added m x s) as (m' & E & Had); rewrite ?Hf, ?Ht; auto.
        exists m'. split; [done|]. rewrite Hf in Had. destruct (add_inv m m' _ fr e x s Hm Had) as [? ?]. by eexists _, _.
      * cbn. unfold CommitMapAdd, CommitMapEntryAlloc. rewrite Hf, (proj2 (Z.eqb_neq e 0)), bind_ret_l by done.
        unfold CommitMapAddEntry. change (expireTail (set_ids _ _ _ _)) with (expireTail m). rewrite Ht.
        assert (last_or 0 ch <> 0) as Hz.
        { intros E. apply (cm_null _ _ _ Ho). apply elem_of_app. left. rewrite <- E. by apply last_or_in. }
        rewrite (proj2 (Z.eqb_neq _ _)) by done. unfold set_ids. rewrite !ent_set_ent, decide_False, decide_True by congruence.
        cbn [xstamp orb]. apply Z.ltb_ge in Hs. by rewrite !ent_set_free, Hs.
Qed.

(** ** Lemmas: lookups *)

Lemma log_cons m a ch : log_of m (a :: ch) = commit_of m a :: log_of m ch.
Proof. done. Qed.

Lemma Loop_lookup m x fuel p l :
  dchain (fun a => bucketPrev (ent m a)) (fun a => bucketNext (ent m a)) p l 0 ->
  0 ∉ l -> (length l < fuel)%nat -> BucketLoop fuel m (hd_or 0 l) x = Ok (log_lookup (log_of m l) x).
Proof.
  revert p l. induction fuel as [|fuel IH]; intros p l H H0 Hf; [lia|]. destruct l as [|a l]; [done|].
  destruct H as (_ & Hn & Hc). apply not_elem_of_cons in H0 as [Ha H0]. unfold hd_or at 1. cbn.
  rewrite (proj2 (Z.eqb_neq a 0)) by congruence.
  destruct (xid (ent m a) =? x); [done|]. rewrite Hn. eapply IH; [done|done|cbn in Hf; lia].
Qed.

Lemma lookup_filter m ch x : log_lookup (log_of m (in_bucket m (HashXid x) ch)) x = log_lookup (log_of m ch) x.
Proof.
  unfold in_bucket. induction ch as [|a ch IH]; [done|]. rewrite filter_cons. case_decide as E.
  - rewrite !log_cons. cbn [log_lookup]. by rewrite IH.
  - rewrite log_cons. cbn [log_lookup]. rewrite IH.
    unfold commit_of. cbn. destruct (Z.eqb_spec (xid (ent m a)) x) as [<-|]; done.
Qed.

Lemma Lookup_log m log x : cm_log m log -> CommitMapLookup m x = Ok (log_lookup log x).
Proof.
  intros (ch & fr & [Ho _ _] & <-). unfold CommitMapLookup.
  destruct (cm_bucket _ _ _ Ho (HashXid x) (HashXid_range x)) as [-> Hc]. cbn [bucket_head].
  rewrite (Loop_lookup m x map_fuel 0), lookup_filter; [done|done|..].
  - intros ?%in_bucket_sub. apply (cm_null _ _ _ Ho), elem_of_app. by left.
  - pose proof (cm_length _ _ _ Ho) as Hl. rewrite length_app in Hl.
    pose proof (length_filter (fun a => HashXid (xid (ent m a)) = HashXid x) ch) as Hf.
    unfold map_fuel, in_bucket in *. rewrite <- Hl, Nat2Z.id. lia.
Qed.

(** ** Lemmas: expiry *)

(** [CommitMapRemove] on the first entry of its bucket. *)
Lemma Remove_fields m e n : bucketPrev (ent m e) = 0 -> bucketNext (ent m e) = n -> n <> e ->
  let h := HashXid (xid (ent m e)) in
  let m' := CommitMapRemove m e in
  (forall b, commit_of m' b = commit_of m b) /\
  (forall b, expireNext (ent m' b) = if decide (e = b) then freeHead m else expireNext (ent m b)) /\
  (forall b, b <> 0 -> bucketPrev (ent m' b) = if decide (n = b) then 0 else bucketPrev (ent m b)) /\
  (forall b, bucketNext (ent m' b) = bucketNext (ent m b)) /\
  (forall b, bkt m' b = if decide (h = b) then CMBucket n (if n =? 0 then 0 else bucket_tail (bkt m b)) else bkt m b) /\
  expireHead m' = expireHead m /\ expireTail m' = expireTail m /\ freeHead m' = e.
Proof.
  intros Hp Hn Hne. cbv zeta. unfold CommitMapRemove, CommitMapEntryFree, commit_of. rewrite Hp, Hn. cbn [Z.eqb].
  destruct (Z.eqb_spec n 0) as [->|H0]; split_and!; try done; intros b; intros;
    try (unfold set_expireNext; rewrite ?bkt_set_ent; cbn [bkt];
         unfold bkt, set_bkt, set_ent, set_free, set_bucketPrev; cbn; case_decide; subst;
         rewrite ?lookup_insert_eq, ?lookup_insert_ne by done; done);
    ents; done || congruence.
Qed.

Lemma in_bucket_cons m b a ch :
  in_bucket m b (a :: ch) = if decide (HashXid (xid (ent m a)) = b) then a :: in_bucket m b ch else in_bucket m b ch.
Proof. unfold in_bucket. by rewrite filter_cons. Qed.

Lemma hd_or_in q l : hd_or q l = q \/ hd_or q l ∈ l.
Proof. destruct l; [by left|right; by left]. Qed.

Lemma dchain_first f f' g l e :
  NoDup l -> 0 ∉ l -> dchain f g e l 0 -> (l <> [] -> f' (hd_or 0 l) = 0) ->
  (forall a, a ∈ l -> a <> hd_or 0 l -> f' a = f a) -> dchain f' g 0 l 0.
Proof.
  destruct l as [|a l]; [done|]. intros [Ha Hd]%NoDup_cons H0 (_ & H2 & H3) Hf Hx. split_and!; [by apply Hf|done|].
  eapply dchain_ext; [|exact H3]. intros x Hin. split; [|done]. apply Hx; [by right|]. unfold hd_or. cbn. by intros ->.
Qed.

Lemma remove_ok m e ch fr : cm_ok m (e :: ch) fr ->
  cm_ok (CommitMapRemove m e) ch (e :: fr) /\ (forall a, commit_of (CommitMapRemove m e) a = commit_of m a) /\
  expireTail (CommitMapRemove m e) = expireTail m /\ expireNext (ent m e) = hd_or 0 ch.
Proof.
  intros [H1 H2 [H3 H3'] H4 H5 H6 H7]. rewrite <- app_comm_cons in *. apply NoDup_cons in H5 as [He H5].
  apply not_elem_of_cons in H6 as [H0 H6]. apply not_elem_of_app in He as [He1 He2].
  pose proof (NoDup_app ch fr) as Hd. apply Hd in H5 as (Hdc & Hdx & Hdf). clear Hd.
  set (h := HashXid (xid (ent m e))) in *. set (n := hd_or 0 (in_bucket m h ch)).
  destruct (H4 h (HashXid_range _)) as [Eh Ch]. rewrite in_bucket_cons, decide_True in Eh, Ch by done.
  destruct Ch as (Hp & Hn & Ch).
  assert (Hsub : forall b a, a ∈ in_bucket m b ch -> a <> e /\ a <> 0).
  { intros b a Ha%in_bucket_sub. split; intros ->; [done|apply H6, elem_of_app; by left]. }
  assert (Hne : n <> e) by (destruct (hd_or_in 0 (in_bucket m h ch)) as [E|E]; unfold n; [by rewrite E|by apply Hsub in E as []]).
  destruct (Remove_fields m e n Hp Hn Hne) as (R1 & R2 & R3 & R4 & R5 & R6 & R7 & R8). set (m' := CommitMapRemove m e) in *.
  assert (Ei : forall b, in_bucket m' b ch = in_bucket m b ch).
  { intros b. apply in_bucket_ext. intros a _. by destruct (ids_eq m' a _ (R1 a)) as [-> _]. }
  split_and!; [split|done|done|done].
  - by rewrite R8.
  - cbn [nchain]. split; [by rewrite R2, decide_True, H1|]. eapply nchain_ext; [|exact H2].
    intros a Ha. rewrite R2, decide_False; [done|]. by intros <-.
  - eapply nchain_ext; [|exact H3']. intros a Ha. rewrite R2, decide_False; [done|]. by intros <-.
  - intros b Hb. rewrite Ei, R5. fold h. destruct (H4 b Hb) as [Eb Cb]. rewrite in_bucket_cons in Eb, Cb. fold h in Eb, Cb.
    case_decide as E.
    + subst b. split.
      * fold n. f_equal. rewrite Eb. cbn [bucket_tail]. rewrite last_or_cons. unfold n.
        destruct (in_bucket m h ch) as [|y l] eqn:El; [done|]. unfold hd_or. cbn.
        rewrite (proj2 (Z.eqb_neq y 0)) by (apply (Hsub h); rewrite El; by left). by rewrite !last_or_cons.
      * eapply dchain_ext; [intros a Ha; split; [reflexivity|apply R4]|].
        apply (dchain_first (fun a => bucketPrev (ent m a)) _ _ _ e); [by apply in_bucket_nodup| |done|..].
        -- intros Hz. by apply Hsub in Hz as [].
        -- intros Hl. fold n. rewrite R3, decide_True; [done|done|]. unfold n.
           destruct (in_bucket m h ch) as [|y l] eqn:El; [done|]. apply (Hsub h). rewrite El. by left.
        -- intros a Ha Hna. rewrite R3, decide_False; [done| |by eapply Hsub]. fold n in Hna. congruence.
    + split; [done|]. eapply dchain_ext; [|exact Cb]. intros a Ha. rewrite R4. split; [|done].
      rewrite R3 by (by eapply Hsub). rewrite decide_False; [done|]. intros Ena.
      destruct (hd_or_in 0 (in_bucket m h ch)) as [Z0|Hin]; fold n in Z0 || fold n in Hin.
      * apply Hsub in Ha as [_ Ha]. congruence.
      * rewrite Ena in Hin. unfold in_bucket in Ha, Hin. apply list_elem_of_filter in Ha as [? _].
        apply list_elem_of_filter in Hin as [? _]. congruence.
  - apply NoDup_app. split_and!; [done| |by constructor]. intros a Ha [->|Hf]%elem_of_cons; [done|by eapply Hdx].
  - rewrite not_elem_of_app, not_elem_of_cons in *. tauto.
  - rewrite length_app in *. cbn in *. rewrite length_app in H7. lia.
Qed.

Lemma Expire_loop k fuel : forall m ch fr, cm_ok m ch fr -> (length ch < fuel)%nat -> 0 ∉ ch ->
  exists m' ch' fr', ExpireChainLoop fuel m (hd_or 0 ch) k = Ok (m', hd_or 0 ch') /\ cm_ok m' ch' fr' /\
    log_of m' ch' = log_expire (log_of m ch) k /\ expireTail m' = expireTail m /\ exists ch0, ch = ch0 ++ ch'.
Proof.
  induction fuel as [|fuel IH]; intros m ch fr Hm Hf H0; [lia|]. destruct ch as [|e ch].
  { exists m, [], fr. split_and!; try done. by exists []. }
  apply not_elem_of_cons in H0 as [He H0]. change (hd_or 0 (e :: ch)) with e. cbn [ExpireChainLoop].
  rewrite (proj2 (Z.eqb_neq e 0)) by congruence. cbn [negb andb]. rewrite log_cons. cbn [log_expire snd commit_of].
  destruct (xstamp (ent m e) <? k).
  - destruct (remove_ok m e ch fr Hm) as (Hok & Ids & Ht & ->).
    destruct (IH _ ch (e :: fr) Hok ltac:(cbn in Hf; lia) H0) as (m' & ch' & fr' & -> & O & L & T & ch0 & ->).
    exists m', ch', fr'. split_and!; [done|done| |congruence|by exists (e :: ch0)].
    rewrite L. f_equal. apply log_ext. auto.
  - exists m, (e :: ch), fr. split_and!; [done|done|done|done|by exists []].
Qed.

Lemma Expire_log m log k : cm_log m log ->
  exists m', CommitMapExpire m k = Ok m' /\ cm_log m' (log_expire log k).
Proof.
  intros (ch & fr & [Ho Hh Ht] & <-). pose proof (cm_null _ _ _ Ho) as H0. pose proof (cm_length _ _ _ Ho) as Hl.
  rewrite not_elem_of_app in H0. rewrite length_app in Hl.
  assert (Hf : (length ch < map_fuel)%nat) by (unfold map_fuel; rewrite <- Hl, Nat2Z.id; lia).
  destruct (Expire_loop k map_fuel m ch fr Ho Hf (proj1 H0)) as (m' & ch' & fr' & E & O & L & T & ch0 & Ech).
  unfold CommitMapExpire. rewrite Hh, E, bind_ret_l. eexists. split; [reflexivity|]. exists ch', fr'. split; [|exact L].
  split; [by destruct O; split|done|]. cbn [expireTail set_expire]. rewrite T, Ht, Ech. destruct ch' as [|y ch']; [done|].
  change (hd_or 0 (y :: ch')) with y.
  rewrite (proj2 (Z.eqb_neq y 0)) by (intros ->; apply (proj1 H0); rewrite Ech; apply elem_of_app; right; by left).
  by rewrite last_or_app, last_or_cons.
Qed.

(** ** Lemmas: the initial map *)

Lemma init_buckets n m :
  let m' := fold_left (fun m i => set_bkt (Z.of_nat i) (CMBucket 0 0) m) (seq 0 n) m in
  (forall b, 0 <= b < Z.of_nat n -> bkt m' b = CMBucket 0 0) /\ entries m' = entries m.
Proof.
  induction n as [|n IH]; [split; [lia|done]|]. rewrite seq_S, fold_left_app. cbn [fold_left]. destruct IH as [IH1 IH2].
  split; [|exact IH2]. intros b Hb. rewrite bkt_set_bkt. case_decide; [done|]. apply IH1. lia.
Qed.

(** The addresses of the first [n] entries, last first. *)
Fixpoint addresses (n : nat) : list Z := match n with O => [] | S n => Z.of_nat n + 1 :: addresses n end.

Lemma addresses_in n a : a ∈ addresses n <-> 1 <= a <= Z.of_nat n.
Proof. induction n as [|n IH]; cbn [addresses]; [rewrite elem_of_nil; lia|]. rewrite elem_of_cons, IH. lia. Qed.

Lemma addresses_nodup n : NoDup (addresses n).
Proof. induction n as [|n IH]; cbn [addresses]; [constructor|]. constructor; [rewrite addresses_in; lia|done]. Qed.

Lemma addresses_length n : length (addresses n) = n.
Proof. induction n as [|n IH]; cbn; [done|]. by rewrite IH. Qed.

Lemma init_free n m : freeHead m = 0 ->
  let m' := fold_left (fun m i => CommitMapEntryFree m (Z.of_nat i + 1)) (seq 0 n) m in
  freeHead m' = hd_or 0 (addresses n) /\ nchain (fun a => expireNext (ent m' a)) (addresses n) 0 /\
  (forall b, bkt m' b = bkt m b) /\ expireHead m' = expireHead m /\ expireTail m' = expireTail m.
Proof.
  intros Hm. induction n as [|n IH]; [done|]. rewrite seq_S, fold_left_app. cbn [fold_left]. cbv zeta in IH.
  set (m1 := fold_left _ (seq 0 n) m) in *. destruct IH as (I1 & I2 & I3 & I4 & I5). split_and!; [done| |done|done|done].
  unfold CommitMapEntryFree. rewrite I1. cbn [addresses nchain]. split.
  - unfold set_expireNext. rewrite ent_set_free, ent_set_ent, decide_True by done. done.
  - eapply nchain_ext; [|exact I2]. intros a Ha. unfold set_expireNext. rewrite ent_set_free, ent_set_ent, decide_False; [done|].
    apply addresses_in in Ha. lia.
Qed.

Lemma InitLoops_log nb ne m :
  Z.of_nat nb = COMMIT_MAP_BUCKETS -> Z.of_nat ne = MAX_COMMIT_MAP_ENTRIES -> cm_log (InitLoops nb ne m) [].
Proof.
  intros Hb He. unfold InitLoops. destruct (init_buckets nb m) as [B _]. set (m1 := fold_left _ _ m) in *.
  destruct (init_free ne (set_free 0 (set_expire 0 0 m1)) eq_refl) as (F1 & F2 & F3 & F4 & F5).
  exists [], (addresses ne). split; [|done]. split; [split|by rewrite F4|by rewrite F5].
  - exact F1.
  - exact F2.
  - done.
  - intros b Hr. rewrite F3. split; [|done]. apply B. by rewrite Hb.
  - apply addresses_nodup.
  - cbn [app]. rewrite addresses_in. lia.
  - cbn [app]. by rewrite addresses_length.
Qed.

Lemma Init_log m : cm_log (CommitMapInit m) [].
Proof. apply InitLoops_log; by rewrite Z2Nat.id. Qed.

(** ** Refinement *)

Inductive cm_op : Type :=
| OpAdd (x s : Z)
| OpExpire (earliestToKeep : Z)
| OpLookup (x : Z).

(** The results of the lookups, and the map in the end. *)
Fixpoint cm_run (ops : list cm_op) (m : CommitMap) : res (CommitMap * list Z) :=
  match ops with
  | [] => Ok (m, [])
  | OpAdd x s :: ops => m ← CommitMapAdd m x s; cm_run ops m
  | OpExpire k :: ops => m ← CommitMapExpire m k; cm_run ops m
  | OpLookup x :: ops => r ← CommitMapLookup m x; '(m, rs) ← cm_run ops m; Ok (m, r :: rs)
  end.

Fixpoint log_run (ops : list cm_op) (log : list (Z * Z)) : res (list (Z * Z) * list Z) :=
  match ops with
  | [] => Ok (log, [])
  | OpAdd x s :: ops => log ← log_add log x s; log_run ops log
  | OpExpire k :: ops => log_run ops (log_expire log k)
  | OpLookup x :: ops => '(log', rs) ← log_run ops log; Ok (log', log_lookup log x :: rs)
  end.

Definition same_outcome (r : res (CommitMap * list Z)) (a : res (list (Z * Z) * list Z)) : Prop :=
  match r, a with
  | Ok (m, rs), Ok (log, rs') => rs = rs' /\ cm_log m log
  | Fault f, Fault f' => f = f'
  | _, _ => False
  end.

Lemma run_log ops : forall m log, cm_log m log -> same_outcome (cm_run ops m) (log_run ops log).
Proof.
  induction ops as [|[x s|k|x] ops IH]; intros m log Hm; cbn [cm_run log_run]; [done|..].
  - pose proof (Add_log m log x s Hm) as H. destruct (log_add log x s) as [log'|f].
    + destruct H as (m' & -> & Hm'). rewrite !bind_ret_l. auto.
    + by rewrite H.
  - destruct (Expire_log m log k Hm) as (m' & -> & Hm'). rewrite bind_ret_l. auto.
  - rewrite (Lookup_log m log x Hm), bind_ret_l. specialize (IH m log Hm).
    destruct (cm_run ops m) as [[m' rs]|f], (log_run ops log) as [[log' rs']|f']; try done. cbn in *.
    destruct IH as [-> ?]. done.
Qed.

(** C24: The commit map, a pointer structure of hash buckets, an expiry chain and
    a free list in shared memory, behaves as a log of commits: for every sequence
    of operations after [CommitMapInit], whatever the memory held, lookups give
    what they give on the log, additions fail exactly when all the entries are in
    use (a panic) or the stamp does not grow (an assertion), and the map ends up
    holding the log. *)
Theorem CommitMap_refines_log (ops : list cm_op) (m : CommitMap) :
  same_outcome (cm_run ops (CommitMapInit m)) (log_run ops []).
Proof. apply run_log, Init_log. Qed.
