(* ===== verification/DBStatus.v ===== *)
(** * The status text of the database (pgsql: backend/commands/inval.c, tcop/pquery.c)

    The modified database reports the validity interval of a query, and the
    invalidation tags when the result is still valid, in the text of the command
    status, which the client parses.  This file models how the text is written,
    in buffers of a fixed size. *)

From S2P Require Import Prelude CLib CText.

(** ** Operations *)

(** [snprintf(buf, size, ...)] of a text. *)
Definition snprintf (size : nat) (text : list Z) : list Z := take (size - 1) text.

(** Appends behind what [buf] holds. *)
Definition snprintfcat (buf : list Z) (bufSize : nat) (text : list Z) : list Z :=
  buf ++ snprintf (bufSize - length buf) text.

(** [queryTags] in the order of the scan of the hash table. *)
Definition GetQueryTagSet (queryTags : list (list Z)) : list Z :=
  foldl (fun buf tag => snprintfcat buf 1024 (str " " ++ tag))
    (snprintf 1024 (str " TAGS " ++ digits 20 (Z.of_nat (length queryTags)))) queryTags.

Definition COMPLETION_TAG_BUFSIZE : nat := 1024.

(** The command tag of a SELECT with a validity interval. *)
Definition SelectTag (start fin : Z) (unbounded : bool) (queryTags : list (list Z)) : list Z :=
  snprintf COMPLETION_TAG_BUFSIZE
    (str "SELECT VALIDITY " ++ fmt_u start ++ str " " ++ fmt_u fin ++
     (if unbounded then GetQueryTagSet queryTags else [])).

(** The command tag of PIN, for saved snapshot [ssnap]. *)
Definition PinTag (ssnap sec usec : Z) : list Z :=
  str "PIN " ++ fmt_lld (ssnap - 1) ++ str " " ++ fmt_lld sec ++ str " " ++ fmt_lld usec.

(** ** Meaning *)

(** The tags behind the count, each after a space. *)
Definition tag_words (tags : list (list Z)) : list Z := concat (map (fun t => str " " ++ t) tags).

Definition tags_text (tags : list (list Z)) : list Z :=
  str " TAGS " ++ digits 20 (Z.of_nat (length tags)) ++ tag_words tags.

(** The status has room for all of the text. *)
Definition status_fits (start fin : Z) (tags : list (list Z)) : Prop :=
  (length (str "SELECT VALIDITY " ++ fmt_u start ++ str " " ++ fmt_u fin ++ tags_text tags) < 1024)%nat.

(** A tag that the client's parser does not split. *)
Definition tag_ok (t : list Z) : Prop := Forall (fun c => isspace c = false) t /\ t <> [].

(** ** Lemmas *)

Lemma snprintf_id size text : (length text < size)%nat -> snprintf size text = text.
Proof. intros H. unfold snprintf. apply take_ge. lia. Qed.

Lemma tag_words_fold buf tags :
  (length buf + length (tag_words tags) < 1024)%nat ->
  foldl (fun buf tag => snprintfcat buf 1024 (str " " ++ tag)) buf tags = buf ++ tag_words tags.
Proof.
  revert buf. induction tags as [|t tags IH]; intros buf Hl; cbn [foldl tag_words map concat].
  { by rewrite app_nil_r. }
  cbn [tag_words map concat] in Hl. rewrite length_app in Hl.
  unfold snprintfcat at 2. rewrite snprintf_id by lia. rewrite IH.
  - by rewrite <- (assoc_L (++)).
  - rewrite length_app. unfold tag_words. lia.
Qed.

Lemma GetQueryTagSet_eq tags :
  (length (tags_text tags) < 1024)%nat -> GetQueryTagSet tags = tags_text tags.
Proof.
  unfold tags_text, GetQueryTagSet. intros H. rewrite !length_app in H.
  rewrite snprintf_id by (rewrite length_app; lia).
  rewrite tag_words_fold; [by rewrite <- (assoc_L (++))|]. rewrite length_app. lia.
Qed.

Lemma SelectTag_closed start fin tags :
  SelectTag start fin false tags = str "SELECT VALIDITY " ++ fmt_u start ++ str " " ++ fmt_u fin.
Proof.
  unfold SelectTag. rewrite app_nil_r. apply snprintf_id. rewrite !length_app.
  pose proof (digits_length 10 (u32 start)). pose proof (digits_length 10 (u32 fin)).
  unfold fmt_u, COMPLETION_TAG_BUFSIZE. cbn [str length]. lia.
Qed.

Lemma SelectTag_open start fin tags :
  status_fits start fin tags ->
  SelectTag start fin true tags =
    str "SELECT VALIDITY " ++ fmt_u start ++ str " " ++ fmt_u fin ++ tags_text tags.
Proof.
  unfold status_fits, SelectTag. intros H. rewrite GetQueryTagSet_eq.
  - by apply snprintf_id.
  - rewrite !length_app in H. lia.
Qed.
