(* ===== verification/DBTags.v ===== *)
(** * Invalidation tags (pgsql: backend/commands/inval.c, executor/execUtils.c)

    The modified database names what a query has read, and what an update has
    changed, by tags: "r:" for the whole of relation [r], and "r:i.k1,k2:" for the
    rows that have key (k1, k2) in index [i].  This file models how the tags are
    built, and shows which changes affect which queries. *)

From S2P Require Import Prelude CLib CText Truth DBStatus.

(** ** Data *)

Definition MAX_INVALTAG_LEN : nat := 64.

(** [%x] of a 32-bit number. *)
Definition hexdigit (d : Z) : Z := if d <? 10 then 48 + d else 87 + d.

Fixpoint hexdigits (fuel : nat) (n : Z) : list Z :=
  match fuel with
  | O => []
  | S fuel => (if n <? 16 then [] else hexdigits fuel (n / 16)) ++ [hexdigit (n mod 16)]
  end.

Definition fmt_x (n : Z) : list Z := hexdigits 8 (u32 n).

(** A machine word, and the bytes it points to when its type is passed by
    reference. *)
Record Datum : Type := Dat {
  word : Z;
  bytes : list Z
}.

(** The columns of an index, passed by value or by reference. *)
Record IndexDesc : Type := Index {
  index_id : Z;
  attbyval : list bool
}.

Record Relation : Type := Rel {
  rd_id : Z;
  system_relation : bool
}.

Definition BTEqualStrategyNumber : Z := 3.

Record ScanKey : Type := Key {
  sk_attno : Z;
  sk_strategy : Z;
  sk_argument : Datum
}.

(** ** Tags *)

Section Tags.

(** [hash_any] on the bytes of a datum. *)
Context (hash_any : list Z -> Z).

Definition MakeInvalTagFromRelation (rel : Relation) : list Z :=
  snprintf MAX_INVALTAG_LEN (fmt_x (rd_id rel) ++ str ":").

(** The start of a tag for an index. *)
Definition IndexTag (rel : Relation) (index : IndexDesc) : list Z :=
  snprintf MAX_INVALTAG_LEN (fmt_x (rd_id rel) ++ str ":" ++ fmt_x (index_id index) ++ str ".").

(** [snprintfcat(buf, sizeof(buf), "%s%x", ((i != 0) ? "," : ""), hash)] *)
Definition PutHash (i : nat) (hash : Z) (buf : list Z) : list Z :=
  snprintfcat buf MAX_INVALTAG_LEN ((if (i =? 0)%nat then [] else str ",") ++ fmt_x hash).

(** The loop of [MakeInvalTagFromScanKey] from key [i] on. *)
Fixpoint ScanKeyLoop (index : IndexDesc) (i : nat) (keys : list ScanKey) (buf : list Z) : res (list Z) :=
  match keys with
  | [] => Ok buf
  | key :: keys =>
    Assert (sk_attno key =? Z.of_nat i + 1);;
    typeByVal ← deref (attbyval index !! i);
    let hash := if (typeByVal : bool) then u32 (word (sk_argument key)) else u32 (hash_any (bytes (sk_argument key))) in
    ScanKeyLoop index (S i) keys (PutHash i hash buf)
  end.

Definition MakeInvalTagFromScanKey (rel : Relation) (index : option (IndexDesc * list ScanKey)) : res (list Z) :=
  match index with
  | None => Ok (MakeInvalTagFromRelation rel)
  | Some (index, keys) =>
    if existsb (fun k => negb (sk_strategy k =? BTEqualStrategyNumber)) keys then Ok (MakeInvalTagFromRelation rel)
    else
      buf ← ScanKeyLoop index 0 keys (IndexTag rel index);
      Ok (snprintfcat buf MAX_INVALTAG_LEN (str ":"))
  end.

(** The loop of [MakeInvalTagFromValues] from column [i] on: a column passed by
    value is read from [values[0]]. *)
Fixpoint ValuesLoop (i : nat) (cols : list bool) (values : list Datum) (buf : list Z) : res (list Z) :=
  match cols with
  | [] => Ok buf
  | typeByVal :: cols =>
    hash ← (if (typeByVal : bool)
            then v ← deref (values !! 0%nat); Ok (u32 (word v))
            else v ← deref (values !! i); Ok (u32 (hash_any (bytes v))));
    ValuesLoop (S i) cols values (PutHash i hash buf)
  end.

Definition MakeInvalTagFromValues (rel : Relation) (index : option (IndexDesc * list Datum)) : res (list Z) :=
  match index with
  | None => Ok (MakeInvalTagFromRelation rel)
  | Some (index, values) =>
    Assert (negb (bool_decide (attbyval index = [])));;
    buf ← ValuesLoop 0 (attbyval index) values (IndexTag rel index);
    Ok (snprintfcat buf MAX_INVALTAG_LEN (str ":"))
  end.

(** ** Queries and updates *)

(** [AddInvalidationTag]: the tags a scan adds to the query's. *)
Definition AddInvalidationTag (serializable : bool) (rel : Relation) (index : option (IndexDesc * list ScanKey)) :
    res (list (list Z)) :=
  if system_relation rel then Ok []
  else if negb serializable then Ok []
  else tag ← MakeInvalTagFromScanKey rel index; Ok [tag].

(** A sequential scan, and an index scan, which names its keys only when there
    is one for every column. *)
Definition SeqScanTag (serializable : bool) (rel : Relation) : res (list (list Z)) :=
  AddInvalidationTag serializable rel None.

Definition IndexScanTag (serializable : bool) (rel : Relation) (index : IndexDesc) (keys : list ScanKey) :
    res (list (list Z)) :=
  AddInvalidationTag serializable rel
    (if (length keys =? length (attbyval index))%nat then Some (index, keys) else None).

(** [InvalidateTag]: the tag a change enqueues. *)
Definition InvalidateTag (serializable : bool) (rel : Relation) (index : option (IndexDesc * list Datum)) :
    res (list (list Z)) :=
  if system_relation rel then Ok []
  else if negb serializable then Ok []
  else tag ← MakeInvalTagFromValues rel index; Ok [tag].

(** An index of the changed relation, whether its predicate holds for the row,
    and the row's values in it. *)
Record RowIndex : Type := RowIdx {
  ri_index : IndexDesc;
  ri_applies : bool;
  ri_values : list Datum
}.

(** The loop of [ExecInsertIndexTuples]. *)
Fixpoint IndexTuplesLoop (serializable : bool) (rel : Relation) (indices : list RowIndex) : res (list (list Z)) :=
  match indices with
  | [] => Ok []
  | x :: indices =>
    if negb (ri_applies x) then IndexTuplesLoop serializable rel indices
    else
      tags ← InvalidateTag serializable rel (Some (ri_index x, ri_values x));
      tags' ← IndexTuplesLoop serializable rel indices;
      Ok (tags ++ tags')
  end.

Definition ExecInsertIndexTuples (serializable : bool) (rel : Relation) (indices : list RowIndex) :
    res (list (list Z)) :=
  tags ← IndexTuplesLoop serializable rel indices;
  if bool_decide (indices = []) then tags' ← InvalidateTag serializable rel None; Ok (tags ++ tags')
  else Ok tags.

(** What an INSERT enqueues for its row, an UPDATE for the row it makes of
    [old], and a DELETE for the row it removes; each row with all the indexes of
    the relation. *)
Definition InsertTags (serializable : bool) (rel : Relation) (indices : list RowIndex) : res (list (list Z)) :=
  if negb (bool_decide (indices = [])) then ExecInsertIndexTuples serializable rel indices else Ok [].

Definition UpdateTags (serializable : bool) (rel : Relation) (old new : list RowIndex) : res (list (list Z)) :=
  if negb (bool_decide (new = [])) then ExecInsertIndexTuples serializable rel new else Ok [].

Definition DeleteTags (serializable : bool) (rel : Relation) (indices : list RowIndex) : res (list (list Z)) :=
  if serializable then ExecInsertIndexTuples serializable rel indices else Ok [].

(** ** Lemmas *)

Lemma hexdigits_length fuel n : (length (hexdigits fuel n) <= fuel)%nat.
Proof.
  revert n. induction fuel as [|fuel IH]; intros n; cbn [hexdigits]; [done|]. rewrite length_app.
  destruct (n <? 16); cbn [length]; [lia|]. specialize (IH (n / 16)). lia.
Qed.

Lemma rel_tag_eq rel : MakeInvalTagFromRelation rel = fmt_x (rd_id rel) ++ str ":".
Proof.
  apply snprintf_id. rewrite length_app. pose proof (hexdigits_length 8 (u32 (rd_id rel))). unfold fmt_x, MAX_INVALTAG_LEN.
  cbn [str length]. lia.
Qed.

Lemma IndexTag_eq rel index :
  IndexTag rel index = MakeInvalTagFromRelation rel ++ fmt_x (index_id index) ++ str ".".
Proof.
  rewrite rel_tag_eq, <- app_assoc. apply snprintf_id. rewrite !length_app.
  pose proof (hexdigits_length 8 (u32 (rd_id rel))). pose proof (hexdigits_length 8 (u32 (index_id index))).
  unfold fmt_x, MAX_INVALTAG_LEN. cbn [str length]. lia.
Qed.

Lemma snprintfcat_prefix buf n text : buf `prefix_of` snprintfcat buf n text.
Proof. by eexists. Qed.

Lemma ValuesLoop_prefix cols : forall i values buf t, ValuesLoop i cols values buf = Ok t -> buf `prefix_of` t.
Proof.
  induction cols as [|b cols IH]; intros i values buf t H; cbn [ValuesLoop] in H; [by injection H as ->|].
  apply bind_Ok in H as (hash & _ & H). etrans; [|by eapply IH]. apply snprintfcat_prefix.
Qed.

Lemma rel_tag_colon rel : ends_in_colon (MakeInvalTagFromRelation rel) = true.
Proof. rewrite rel_tag_eq. apply bool_decide_eq_true_2. exact (last_snoc _ _). Qed.

Lemma affects_refl t : affects t t = true.
Proof. unfold affects. by rewrite bool_decide_eq_true_2. Qed.

(** Every change to a relation affects the relation's tag. *)
Lemma values_affect_relation rel index t :
  MakeInvalTagFromValues rel index = Ok t -> affects t (MakeInvalTagFromRelation rel) = true.
Proof.
  unfold MakeInvalTagFromValues. destruct index as [[index values]|]; [|intros [= <-]; apply affects_refl].
  intros H. apply bind_Ok in H as (_ & _ & H). apply bind_Ok in H as (buf & H & [= <-]).
  unfold affects. rewrite rel_tag_colon. apply orb_true_iff. right. apply bool_decide_eq_true_2.
  etrans; [|apply snprintfcat_prefix]. etrans; [|by eapply ValuesLoop_prefix]. rewrite IndexTag_eq. by eexists.
Qed.

Lemma hits_one tags t q : t ∈ tags -> affects t q = true -> hits_tags tags [q] = true.
Proof.
  intros Hin Ha. unfold hits_tags. cbn. rewrite orb_false_r. apply existsb_exists. exists t.
  split; [by apply list_elem_of_In|done].
Qed.

Lemma IndexTuplesLoop_in rel indices tags x :
  system_relation rel = false -> IndexTuplesLoop true rel indices = Ok tags -> x ∈ indices -> ri_applies x = true ->
  exists t, MakeInvalTagFromValues rel (Some (ri_index x, ri_values x)) = Ok t /\ t ∈ tags.
Proof.
  intros Hs. revert tags. induction indices as [|y l IH]; intros tags H Hx Ha; [by apply elem_of_nil in Hx|].
  cbn [IndexTuplesLoop] in H. apply elem_of_cons in Hx as [<-|Hx].
  - rewrite Ha in H. cbn [negb] in H. apply bind_Ok in H as (t1 & H1 & H). apply bind_Ok in H as (t2 & _ & [= <-]).
    unfold InvalidateTag in H1. rewrite Hs in H1. apply bind_Ok in H1 as (t & -> & [= <-]). exists t. split; [done|]. by left.
  - destruct (ri_applies y); cbn [negb] in H; [|by apply IH].
    apply bind_Ok in H as (t1 & _ & H). apply bind_Ok in H as (t2 & H2 & [= <-]).
    destruct (IH t2 H2 Hx Ha) as (t & E & Hin). exists t. split; [done|]. apply elem_of_app. by right.
Qed.

(** The scan keys are the row's values, column by column. *)
Fixpoint keys_match (cols : list bool) (i : nat) (keys : list ScanKey) (values : list Datum) : Prop :=
  match cols, keys, values with
  | [], [], [] => True
  | b :: cols, k :: keys, v :: values =>
    sk_attno k = Z.of_nat i + 1 /\ sk_strategy k = BTEqualStrategyNumber /\
    (if (b : bool) then u32 (word (sk_argument k)) = u32 (word v) else bytes (sk_argument k) = bytes v) /\
    keys_match cols (S i) keys values
  | _, _, _ => False
  end.

(** Only the first column may be passed by value. *)
Definition by_value_first (cols : list bool) : Prop := Forall (fun b => b = false) (tail cols).

Lemma loops_agree index : forall cols dn keys values old buf,
  attbyval index = dn ++ cols -> length old = length dn ->
  (dn <> [] -> Forall (fun b => b = false) cols) -> by_value_first cols ->
  keys_match cols (length dn) keys values ->
  ScanKeyLoop index (length dn) keys buf = ValuesLoop (length dn) cols (old ++ values) buf.
Proof.
  induction cols as [|b cols IH]; intros dn keys values old buf Ec Eo Hd Hb Hk; destruct keys as [|k keys], values as [|v values]; try done.
  destruct Hk as (Hn & Hs & Hv & Hk). cbn [ScanKeyLoop ValuesLoop]. rewrite Hn, Z.eqb_refl. cbn [Assert]. rewrite bind_ret_l.
  rewrite Ec, (lookup_app_r dn), Nat.sub_diag by lia. cbn [lookup list_lookup deref]. rewrite bind_ret_l.
  rewrite (lookup_app_r old (v :: values) (length dn)), Eo, Nat.sub_diag by lia. cbn [lookup list_lookup].
  assert (E : (if b then v0 ← deref ((old ++ v :: values) !! 0%nat); Ok (u32 (word v0))
               else v0 ← deref (Some v); Ok (u32 (hash_any (bytes v0)))) =
              Ok (if b then u32 (word (sk_argument k)) else u32 (hash_any (bytes (sk_argument k))))).
  { destruct b; [|cbn [deref]; by rewrite bind_ret_l, Hv]. destruct dn as [|d dn].
    - destruct old; [|done]. cbn [app lookup list_lookup deref]. by rewrite bind_ret_l, Hv.
    - specialize (Hd ltac:(done)). apply Forall_cons in Hd as [? _]. done. }
  rewrite E, bind_ret_l. specialize (IH (dn ++ [b]) keys values (old ++ [v])). rewrite !length_app in IH. cbn [length] in IH.
  rewrite !Nat.add_1_r, <- !app_assoc in IH. cbn [app] in IH. apply IH; [done|by rewrite Eo| | |done].
  - intros _. exact Hb.
  - unfold by_value_first in *. cbn [tail] in Hb. by destruct Hb.
Qed.

Lemma scan_tag_eq rel index keys values :
  attbyval index <> [] -> by_value_first (attbyval index) -> keys_match (attbyval index) 0 keys values ->
  MakeInvalTagFromScanKey rel (Some (index, keys)) = MakeInvalTagFromValues rel (Some (index, values)).
Proof.
  intros Hne Hb Hk. cbn [MakeInvalTagFromScanKey MakeInvalTagFromValues].
  assert (Es : existsb (fun k => negb (sk_strategy k =? BTEqualStrategyNumber)) keys = false).
  { clear Hb Hne. revert Hk. generalize 0%nat as i. generalize (attbyval index) as cols. intros cols. revert keys values.
    induction cols as [|b cols IH]; intros [|k keys] [|v values] i H; try done. destruct H as (_ & Hs & _ & H).
    cbn [existsb]. rewrite Hs, Z.eqb_refl. cbn [negb orb]. by eapply IH. }
  rewrite Es, bool_decide_false by done. cbn [negb Assert]. rewrite bind_ret_l.
  rewrite (loops_agree index (attbyval index) [] keys values [] _); done.
Qed.

(** The tags of a change reach those of an index that applies to the row. *)
Lemma change_tags_in (insert : bool) rel indices tags x :
  system_relation rel = false -> x ∈ indices -> ri_applies x = true ->
  (if insert then InsertTags true rel indices else DeleteTags true rel indices) = Ok tags ->
  exists t, MakeInvalTagFromValues rel (Some (ri_index x, ri_values x)) = Ok t /\ t ∈ tags.
Proof.
  intros Hs Hx Ha H. assert (Hne : indices <> []) by (by intros ->; apply elem_of_nil in Hx).
  assert (E : ExecInsertIndexTuples true rel indices = Ok tags).
  { unfold InsertTags, DeleteTags in H. rewrite bool_decide_false in H by done. by destruct insert. }
  unfold ExecInsertIndexTuples in E. rewrite bool_decide_false in E by done. apply bind_Ok in E as (tags' & E & [= <-]).
  by eapply IndexTuplesLoop_in.
Qed.

End Tags.

(** ** The text of tags *)

#[local] Arguments fmt_x : simpl never.
#[local] Arguments u32 : simpl never.
#[local] Arguments IndexTag : simpl never.
#[local] Arguments PutHash : simpl never.
#[local] Arguments snprintfcat : simpl never.
#[local] Arguments str : simpl never.

Lemma u32_bound x : 0 <= u32 x < 2 ^ 32.
Proof. unfold u32. apply Z.mod_pos_bound. lia. Qed.

Lemma u32_u32 x : u32 (u32 x) = u32 x.
Proof. apply u32_small, u32_bound. Qed.

(** Reading [%x]. *)
Definition hexvalue (c : Z) : Z := if c <? 58 then c - 48 else c - 87.

Definition unhex (l : list Z) : Z := foldl (fun n c => 16 * n + hexvalue c) 0 l.

Lemma hexvalue_digit d : 0 <= d < 16 -> hexvalue (hexdigit d) = d.
Proof. intros Hd. unfold hexvalue, hexdigit. destruct (Z.ltb_spec d 10); [rewrite (proj2 (Z.ltb_lt _ _)) by lia|rewrite (proj2 (Z.ltb_ge _ _)) by lia]; lia. Qed.

Lemma unhex_digits fuel n : 0 <= n < 16 ^ Z.of_nat fuel -> unhex (hexdigits fuel n) = n.
Proof.
  revert n. induction fuel as [|fuel IH]; intros n Hn; [cbn in *; lia|]. cbn [hexdigits]. unfold unhex. rewrite foldl_app. cbn [foldl].
  rewrite hexvalue_digit by (apply Z.mod_pos_bound; lia). fold (unhex (if n <? 16 then [] else hexdigits fuel (n / 16))).
  pose proof (Z.div_mod n 16 ltac:(lia)) as Hd. rewrite Nat2Z.inj_succ, Z.pow_succ_r in Hn by lia.
  destruct (Z.ltb_spec n 16) as [Hs|Hs].
  - rewrite Z.mod_small by lia. cbn. lia.
  - rewrite IH; [lia|]. split; [apply Z.div_pos; lia|apply Z.div_lt_upper_bound; lia].
Qed.

Lemma fmt_x_inj a b : fmt_x a = fmt_x b -> u32 a = u32 b.
Proof.
  intros H%(f_equal unhex). unfold fmt_x in H. pose proof (u32_bound a). pose proof (u32_bound b).
  rewrite !unhex_digits in H by (change (16 ^ Z.of_nat 8) with (2 ^ 32); lia). done.
Qed.

(** A number has none of the separators, which are all below 48 or 58. *)
Lemma hexdigits_plain fuel n c : 0 <= n -> c ∈ hexdigits fuel n -> c <> 58 /\ 48 <= c.
Proof.
  revert n. induction fuel as [|fuel IH]; intros n Hn; cbn [hexdigits]; [by intros ?%elem_of_nil|].
  intros [Hc|Hc%list_elem_of_singleton]%elem_of_app.
  - destruct (n <? 16); [by apply elem_of_nil in Hc|]. apply (IH (n / 16)); [apply Z.div_pos; lia|done].
  - pose proof (Z.mod_pos_bound n 16 ltac:(lia)). subst c. unfold hexdigit. destruct (Z.ltb_spec (n mod 16) 10); lia.
Qed.

Lemma fmt_x_plain n c : c ∈ fmt_x n -> c <> 58 /\ 48 <= c.
Proof. apply hexdigits_plain. pose proof (u32_bound n). lia. Qed.

(** Texts up to their first separator. *)
Lemma prefix_sep (a b x y : list Z) c :
  c ∉ a -> c ∉ b -> a ++ c :: x `prefix_of` b ++ c :: y -> a = b /\ x `prefix_of` y.
Proof.
  revert b. induction a as [|d a IH]; intros b Ha Hb Hp; destruct b as [|e b]; cbn [app] in *.
  - split; [done|]. by apply prefix_cons_inv_2 in Hp.
  - apply prefix_cons_inv_1 in Hp as <-. destruct Hb. by left.
  - apply prefix_cons_inv_1 in Hp as ->. destruct Ha. by left.
  - apply not_elem_of_cons in Ha as [_ Ha], Hb as [_ Hb]. pose proof (prefix_cons_inv_1 _ _ _ _ Hp) as ->.
    apply prefix_cons_inv_2 in Hp. destruct (IH b Ha Hb Hp) as [-> Hx]. done.
Qed.

(** The tag of one value in an index of one column. *)
Definition tag1 (rel : Relation) (id v : Z) : list Z :=
  fmt_x (rd_id rel) ++ 58 :: fmt_x id ++ 46 :: fmt_x v ++ [58].

(** And of two. *)
Definition tag2 (rel : Relation) (id v w : Z) : list Z :=
  fmt_x (rd_id rel) ++ 58 :: fmt_x id ++ 46 :: fmt_x v ++ 44 :: fmt_x w ++ [58].

Lemma sep_plain n c : c = 58 \/ c < 48 -> c ∉ fmt_x n.
Proof. intros Hc [H1 H2]%fmt_x_plain. lia. Qed.

Lemma tag1_prefix rel i v i' v' :
  tag1 rel i v `prefix_of` tag1 rel i' v' -> u32 i = u32 i' /\ u32 v = u32 v'.
Proof.
  intros [_ [Ei [Ev _]%prefix_sep]%prefix_sep]%prefix_sep; try (apply sep_plain; lia).
  split; by apply fmt_x_inj.
Qed.

Lemma tag2_prefix rel i v w i' v' w' :
  tag2 rel i v w `prefix_of` tag2 rel i' v' w' -> u32 w = u32 w'.
Proof.
  intros [_ [_ [_ [Ew _]%prefix_sep]%prefix_sep]%prefix_sep]%prefix_sep; try (apply sep_plain; lia). by apply fmt_x_inj.
Qed.

Lemma fmt_x_u32 n : fmt_x (u32 n) = fmt_x n.
Proof. unfold fmt_x. by rewrite u32_u32. Qed.

Lemma cat_fits buf text : (length buf + length text < MAX_INVALTAG_LEN)%nat ->
  snprintfcat buf MAX_INVALTAG_LEN text = buf ++ text.
Proof. intros H. unfold snprintfcat. rewrite snprintf_id by (unfold MAX_INVALTAG_LEN in *; lia). done. Qed.

Lemma IndexTag_text rel index : IndexTag rel index = fmt_x (rd_id rel) ++ 58 :: fmt_x (index_id index) ++ [46].
Proof. rewrite IndexTag_eq, rel_tag_eq, <- app_assoc. done. Qed.

Ltac fmt_lengths :=
  repeat match goal with |- context [fmt_x ?n] =>
    lazymatch goal with
    | _ : (length (fmt_x n) <= 8)%nat |- _ => fail
    | _ => pose proof (hexdigits_length 8 (u32 n) : (length (fmt_x n) <= 8)%nat)
    end end.

(** Works out the text of a tag, from the inside. *)
Ltac tag_text :=
  unfold PutHash; cbn [Nat.eqb]; rewrite ?fmt_x_u32, ?IndexTag_text; cbn [index_id app];
  change (str ":") with [58]; try change (str ",") with [44]; fmt_lengths;
  repeat match goal with |- context [snprintfcat ?b MAX_INVALTAG_LEN ?t] =>
    lazymatch b with
    | context [snprintfcat] => fail
    | _ => rewrite (cat_fits b t) by (repeat (rewrite ?length_app; cbn [length]); unfold MAX_INVALTAG_LEN; lia)
    end end;
  repeat (rewrite <- ?app_assoc; cbn [app]).

(** ** Properties *)

(** A row that is inserted into, or deleted from, a relation with an index
    enqueues tags that affect every sequential scan of the relation, and every
    index scan whose keys are the row's, when no column of the index after the
    first is passed by value. *)
Lemma changes_affect_scans (hash_any : list Z -> Z) (insert : bool) (rel : Relation) (indices : list RowIndex)
    (tags : list (list Z)) (x : RowIndex)
    (Hs : system_relation rel = false) (Hx : x ∈ indices) (Ha : ri_applies x = true)
    (Htags : (if insert then InsertTags hash_any true rel indices else DeleteTags hash_any true rel indices) = Ok tags) :
  (forall q, SeqScanTag hash_any true rel = Ok q -> hits_tags tags q = true) /\
  (forall keys q, attbyval (ri_index x) <> [] -> by_value_first (attbyval (ri_index x)) ->
     keys_match (attbyval (ri_index x)) 0 keys (ri_values x) ->
     IndexScanTag hash_any true rel (ri_index x) keys = Ok q -> hits_tags tags q = true).
Proof.
  destruct (change_tags_in hash_any insert rel indices tags x Hs Hx Ha Htags) as (t & Et & Hin).
  unfold SeqScanTag, IndexScanTag, AddInvalidationTag. rewrite Hs. cbn [negb]. split.
  - intros q [= <-]. eapply hits_one; [done|]. by eapply values_affect_relation.
  - intros keys q Hne Hb Hk H. apply bind_Ok in H as (t' & H & [= <-]). eapply hits_one; [done|].
    destruct (length keys =? length (attbyval (ri_index x)))%nat.
    + rewrite (scan_tag_eq hash_any rel _ keys (ri_values x) Hne Hb Hk), Et in H. injection H as <-. apply affects_refl.
    + injection H as <-. by eapply values_affect_relation.
Qed.

(** Relation 4096 with an index on a column passed by value. *)
Definition ex_rel : Relation := Rel 4096 false.
Definition ex_index : IndexDesc := Index 4200 [true].
Definition ex_row (v : Z) : list RowIndex := [RowIdx ex_index true [Dat v []]].
Definition ex_scan (v : Z) : list ScanKey := [Key 1 BTEqualStrategyNumber (Dat v [])].

(** A row in a relation whose indexes [ids] have one column each, passed by value. *)
Definition single_row (ids : list Z) (value : Z -> Datum) : list RowIndex :=
  map (fun i => RowIdx (Index i [true]) true [value i]) ids.

Definition single_key (v : Datum) : list ScanKey := [Key 1 BTEqualStrategyNumber v].

Section Missed.

Context (hash_any : list Z -> Z) (rel : Relation).
Hypothesis user_relation : system_relation rel = false.

Lemma values_tag1 id v : MakeInvalTagFromValues hash_any rel (Some (Index id [true], [v])) = Ok (tag1 rel id (word v)).
Proof using.
  cbn. by tag_text.
Qed.

Lemma scan_tag1 id v : IndexScanTag hash_any true rel (Index id [true]) (single_key v) = Ok [tag1 rel id (word v)].
Proof using All.
  unfold IndexScanTag, AddInvalidationTag. rewrite user_relation.
  cbn [length attbyval single_key Nat.eqb negb]. rewrite (scan_tag_eq hash_any rel _ _ [v]) by (done || constructor || by split_and!).
  by rewrite values_tag1.
Qed.

Lemma row_tags1 ids value : IndexTuplesLoop hash_any true rel (single_row ids value) =
  Ok (map (fun i => tag1 rel i (word (value i))) ids).
Proof using All.
  induction ids as [|i ids IH]; [done|]. cbn [single_row map IndexTuplesLoop ri_applies ri_index ri_values negb].
  unfold InvalidateTag. rewrite user_relation. cbn [negb]. rewrite values_tag1, !bind_ret_l.
  fold (single_row ids value). by rewrite IH.
Qed.

Lemma row_tags ids value : ids <> [] -> ExecInsertIndexTuples hash_any true rel (single_row ids value) =
  Ok (map (fun i => tag1 rel i (word (value i))) ids).
Proof using All.
  intros Hne. unfold ExecInsertIndexTuples. rewrite row_tags1, bind_ret_l.
  rewrite bool_decide_false; [done|]. by destruct ids.
Qed.

Lemma affects_tag1 i v i' v' : affects (tag1 rel i v) (tag1 rel i' v') = true -> u32 i = u32 i' /\ u32 v = u32 v'.
Proof using.
  unfold affects. intros [H%bool_decide_eq_true|[_ H%bool_decide_eq_true]%andb_true_iff]%orb_true_iff.
  - by apply tag1_prefix in H.
  - by apply tag1_prefix in H as [-> ->].
Qed.

End Missed.

(** C38: Changes that no message announces to a query they change, in every
    relation of a user.
    (1) An UPDATE enqueues the tags of the new row only: whatever indexes of one
    column passed by value the relation has, the tags do not affect the scan for
    the key the row had before, which the tags of a DELETE do.
    (2) The tag of a row with two key columns passed by value repeats the first:
    if the second differs, INSERT's tag does not affect the scan for the row's key.
    (3) Without indexes INSERT and UPDATE enqueue nothing, not the tag of the
    relation that DELETE does, and no scan is affected. *)
Theorem changes_missed (hash_any : list Z -> Z) (rel : Relation) (Hrel : system_relation rel = false) :
  (forall ids old new i, i ∈ ids -> (forall j, j ∈ ids -> u32 j = u32 i -> j = i) ->
     u32 (word (old i)) <> u32 (word (new i)) ->
     exists tags deleted q, UpdateTags hash_any true rel (single_row ids old) (single_row ids new) = Ok tags /\
       DeleteTags hash_any true rel (single_row ids old) = Ok deleted /\
       IndexScanTag hash_any true rel (Index i [true]) (single_key (old i)) = Ok q /\
       hits_tags tags q = false /\ hits_tags deleted q = true) /\
  (forall id v w, u32 (word v) <> u32 (word w) ->
     exists tags q, InsertTags hash_any true rel [RowIdx (Index id [true; true]) true [v; w]] = Ok tags /\
       IndexScanTag hash_any true rel (Index id [true; true])
         [Key 1 BTEqualStrategyNumber v; Key 2 BTEqualStrategyNumber w] = Ok q /\ hits_tags tags q = false) /\
  exists q, SeqScanTag hash_any true rel = Ok q /\
    InsertTags hash_any true rel [] = Ok [] /\ UpdateTags hash_any true rel [] [] = Ok [] /\ hits_tags [] q = false /\
    exists deleted, DeleteTags hash_any true rel [] = Ok deleted /\ hits_tags deleted q = true.
Proof.
  split_and!.
  - intros ids old new i Hi Hid Hv. assert (Hne : ids <> []) by (by intros ->; apply elem_of_nil in Hi).
    unfold UpdateTags, DeleteTags. rewrite !row_tags, scan_tag1 by done. rewrite bool_decide_false by (by destruct ids).
    cbn [negb]. do 3 eexists. split_and!; try done.
    + unfold hits_tags. cbn [existsb]. rewrite orb_false_r. apply not_true_is_false.
      intros (t & (j & <- & Hj%list_elem_of_In)%in_map_iff & [Ei Ev]%affects_tag1)%existsb_exists.
      rewrite (Hid j Hj Ei) in Ev. by rewrite Ev in Hv.
    + eapply hits_one; [|apply affects_refl]. apply list_elem_of_In, in_map_iff. exists i. split; [done|by apply list_elem_of_In].
  - intros id v w Hvw. exists [tag2 rel id (word v) (word v)], [tag2 rel id (word v) (word w)]. split_and!.
    + unfold InsertTags, ExecInsertIndexTuples. cbn [bool_decide negb IndexTuplesLoop ri_applies ri_index ri_values].
      unfold InvalidateTag. rewrite Hrel. cbn. by tag_text.
    + unfold IndexScanTag, AddInvalidationTag. rewrite Hrel. cbn. change (Z.of_nat 0 + 1) with 1.
      change (Z.of_nat 1 + 1) with 2. cbn. by tag_text.
    + apply not_true_is_false. unfold hits_tags. cbn [existsb]. rewrite !orb_false_r. unfold affects.
      intros [H%bool_decide_eq_true|[_ H%bool_decide_eq_true]%andb_true_iff]%orb_true_iff; by apply tag2_prefix in H.
  - unfold SeqScanTag, AddInvalidationTag, DeleteTags, ExecInsertIndexTuples, InvalidateTag. rewrite Hrel. cbn [negb MakeInvalTagFromScanKey].
    eexists. split_and!; [done..|]. eexists. split; [done|]. eapply hits_one; [by left|apply affects_refl].
Qed.

Lemma changes_missed_witness :
  exists tags q, UpdateTags (fun _ => 0) true ex_rel (single_row [4200] (fun _ => Dat 17 [])) (single_row [4200] (fun _ => Dat 18 [])) = Ok tags /\
    IndexScanTag (fun _ => 0) true ex_rel ex_index (ex_scan 17) = Ok q /\ hits_tags tags q = false.
Proof.
  destruct (changes_missed (fun _ => 0) ex_rel eq_refl) as (H & _).
  destruct (H [4200] (fun _ => Dat 17 []) (fun _ => Dat 18 []) 4200) as (tags & deleted & q & E1 & _ & E2 & E3 & _).
  - by left.
  - by intros j Hj%list_elem_of_singleton.
  - by vm_compute.
  - exists tags, q. split_and!; [exact E1|exact E2|exact E3].
Defined.
