(* ===== verification/DBInval.v ===== *)
(** * The invalidation queue (pgsql: backend/commands/inval.c)

    A transaction gathers the tags of what it changes; its commit puts them into
    a queue in shared memory, with the transaction's stamp, from which the
    invalidation daemon takes them.  A pin adds an entry without a tag, which
    tells the cache that everything up to the pin has been announced. *)

From S2P Require Import Prelude CLib CText CommitMap.

(** ** Data *)

Definition MAX_PENDING_INVALIDATIONS : Z := 16384.

(** [null] entries have no tag. *)
Record InvalidationQueueEntry : Type := QEntry {
  qe_xstamp : Z;
  qe_tag : option (list Z)
}.

(** The free list by its length. *)
Record InvalidationQueue : Type := IQueue {
  queue : list InvalidationQueueEntry;
  freeList : Z;
  lastInvalidation : Z
}.

Definition InvalidationInit : InvalidationQueue := IQueue [] MAX_PENDING_INVALIDATIONS XStampMinusInfinity.

(** What a backend keeps of its transaction; [notified] is whether
    [Async_Notify] was called. *)
Record Backend : Type := BackendState {
  XactInvalidated : bool;
  pendingInvalidations : option (list (list Z));
  notified : bool
}.

Definition StartTransaction : Backend := BackendState false None false.

(** ** Operations *)

(** [hash_search(..., HASH_ENTER, ...)] in a table of strings. *)
Definition hash_enter (tag : list Z) (l : list (list Z)) : list (list Z) :=
  if bool_decide (tag ∈ l) then l else l ++ [tag].

Definition EnqueueInvalidate (b : Backend) (tag : list Z) : Backend :=
  BackendState true
    (Some (hash_enter tag (match pendingInvalidations b with Some l => l | None => [] end)))
    (notified b || negb (XactInvalidated b)).

Definition DropPendingInvalidations (b : Backend) : Backend :=
  BackendState (XactInvalidated b) None (notified b).

Definition AddInvalidationToQueue (q : InvalidationQueue) (xstamp : Z) (tag : option (list Z)) :
    res InvalidationQueue :=
  if freeList q =? 0 then Fault ErrorReport
  else Ok (IQueue (queue q ++ [QEntry xstamp tag]) (freeList q - 1) (lastInvalidation q)).

(** [while ((tag = hash_seq_search(&status)) != NULL)] *)
Fixpoint AddAll (q : InvalidationQueue) (xstamp : Z) (tags : list (list Z)) : res InvalidationQueue :=
  match tags with
  | [] => Ok q
  | tag :: tags => q ← AddInvalidationToQueue q xstamp (Some tag); AddAll q xstamp tags
  end.

Definition set_last (x : Z) (q : InvalidationQueue) : InvalidationQueue := IQueue (queue q) (freeList q) x.

Section Queue.

(** The order in which a hash table is scanned. *)
Context (scan : list (list Z) -> list (list Z)).

Definition AtCommit_Invalidate (q : InvalidationQueue) (b : Backend) (xstamp : Z) :
    res (InvalidationQueue * Backend) :=
  match pendingInvalidations b with
  | None => Ok (q, b)
  | Some tags =>
    Assert (lastInvalidation q <? xstamp);;
    q ← AddAll (set_last xstamp q) xstamp (scan tags);
    Ok (q, DropPendingInvalidations b)
  end.

(** Returns whether it calls [Async_Notify]. *)
Definition SendNullInvalidation (q : InvalidationQueue) (xstamp : Z) : res (InvalidationQueue * bool) :=
  if xstamp <=? lastInvalidation q then Ok (q, false)
  else q ← AddInvalidationToQueue (set_last xstamp q) xstamp None; Ok (q, true).

(** The rows of [pg_invalidations]: the stamp as an [int4], and the tag or NULL. *)
Definition InvalRow (e : InvalidationQueueEntry) : list Z * option (list Z) := (fmt_d (qe_xstamp e), qe_tag e).

Definition pg_get_and_clear_invalidations (q : InvalidationQueue) :
    InvalidationQueue * list (list Z * option (list Z)) :=
  (IQueue [] (freeList q + Z.of_nat (length (queue q))) (lastInvalidation q), map InvalRow (queue q)).

End Queue.

(** ** Lemmas *)

Lemma AddAll_ok tags : forall q xstamp q', AddAll q xstamp tags = Ok q' ->
  queue q' = queue q ++ map (fun t => QEntry xstamp (Some t)) tags /\ lastInvalidation q' = lastInvalidation q /\
  freeList q' + Z.of_nat (length (queue q')) = freeList q + Z.of_nat (length (queue q)).
Proof.
  induction tags as [|t tags IH]; intros q x q' H; cbn [AddAll] in H.
  - injection H as <-. by rewrite app_nil_r.
  - apply bind_Ok in H as (q1 & H1 & H). unfold AddInvalidationToQueue in H1. destruct (_ =? _) in H1; [done|].
    injection H1 as <-. destruct (IH _ _ _ H) as (E1 & E2 & E3). cbn in *. rewrite E1, <- app_assoc. split_and!; [done|done|].
    rewrite E1 in E3. rewrite !length_app in *. cbn in *. lia.
Qed.

Lemma AddAll_total tags : forall q xstamp, Z.of_nat (length tags) <= freeList q ->
  exists q', AddAll q xstamp tags = Ok q'.
Proof.
  induction tags as [|t tags IH]; intros q x H; cbn [AddAll]; [eauto|]. cbn [length] in H.
  unfold AddInvalidationToQueue. rewrite (proj2 (Z.eqb_neq _ _)), bind_ret_l by lia. apply IH. cbn. lia.
Qed.

Lemma hash_enter_nodup tag l : NoDup l -> NoDup (hash_enter tag l).
Proof.
  intros H. unfold hash_enter. case_bool_decide as E; [done|]. apply NoDup_app. split_and!; [done| |apply NoDup_singleton].
  intros x Hx ->%list_elem_of_singleton. done.
Qed.

Lemma hash_enter_in tag l t : t ∈ hash_enter tag l <-> t = tag \/ t ∈ l.
Proof. unfold hash_enter. case_bool_decide as E; [naive_solver|]. rewrite elem_of_app, list_elem_of_singleton. tauto. Qed.
