(* ===== verification/Snapshots.v ===== *)
(** * Saved snapshots (pgsql: backend/utils/time/ssnap.c, tcop/utility.c,
      access/transam/xact.c)

    PIN saves the snapshot of a transaction under the stamp the next commit will
    have, UNPIN forgets it.  The commit of a transaction that wrote through the
    executor takes the next stamp, and is kept in the commit map as long as some
    saved snapshot is older than it; other ids commit without a stamp.  Locks are
    held throughout each operation, which is atomic here. *)

From S2P Require Import Prelude CLib CommitMap DBInval.

(** ** State *)

(** The transactions that had not finished; [None] for subtransactions that did
    not fit. *)
Record Snapshot : Type := Snap {
  s_xmin : Z;
  s_xmax : Z;
  s_xip : list Z;
  s_subxip : option (list Z)
}.

Record SSnapSharedData : Type := Shared {
  NextXStamp : Z;
  LastSSnapXStamp : Z;
  EarliestSSnapXStamp : Z
}.

Record Database : Type := DB {
  SSnapShared : SSnapSharedData;
  SSnapHash : gmap Z Snapshot;
  TheCommitMap : CommitMap;
  invalQueue : InvalidationQueue
}.

Definition SSnapInit (m : CommitMap) : Database :=
  DB (Shared FirstXStamp InvalidXStamp InvalidXStamp) ∅ (CommitMapInit m) InvalidationInit.

Definition set_queue (q : InvalidationQueue) (db : Database) : Database :=
  DB (SSnapShared db) (SSnapHash db) (TheCommitMap db) q.

(** ** Operations *)

Definition MAX_CONNECTIONS : Z := 500.

(** The two [memcpy]s into the arrays of an [SSNAP]; [subxcnt] is -1 for
    subtransactions that did not fit. *)
Definition CopyXids (snapshot : Snapshot) : res () :=
  if MAX_CONNECTIONS <? Z.of_nat (length (s_xip snapshot)) then Fault OutOfBounds
  else
    match s_subxip snapshot with
    | None => Fault OutOfBounds
    | Some subxip => if MAX_CONNECTIONS <? Z.of_nat (length subxip) then Fault OutOfBounds else Ok tt
    end.

(** [snapshot] is what [GetTransactionSnapshot] gives, [room] whether the hash
    table can take another entry.  Without room [hash_search] reports an error,
    [None], when the stamps have been set. *)
Definition SaveSnapshot (db : Database) (hasSerializableSnapshot : bool) (snapshot : Snapshot) (room : bool) :
    res (Database * option Z) :=
  if hasSerializableSnapshot then Fault ErrorReport
  else
    let ssnapId := NextXStamp (SSnapShared db) in
    if ssnapId =? LastSSnapXStamp (SSnapShared db) then Ok (db, Some ssnapId)
    else
      let earliest := if XSTAMP_IS_VALID (EarliestSSnapXStamp (SSnapShared db))
                      then EarliestSSnapXStamp (SSnapShared db) else ssnapId in
      let shared := Shared (NextXStamp (SSnapShared db)) ssnapId earliest in
      if negb room && bool_decide (SSnapHash db !! ssnapId = None) then
        Ok (DB shared (SSnapHash db) (TheCommitMap db) (invalQueue db), None)
      else
        CopyXids snapshot;;
        Ok (DB shared (<[ssnapId := snapshot]> (SSnapHash db)) (TheCommitMap db) (invalQueue db), Some ssnapId).

Definition GetSavedSnapshot (db : Database) (id : Z) : option Snapshot := SSnapHash db !! id.

(** [while ((ssnap = hash_seq_search(&status)) != NULL)] *)
Definition EarliestTag (m : gmap Z Snapshot) : Z :=
  fold_left (fun earliest k => if k <? earliest then k else earliest) (map fst (map_to_list m)) XStampInfinity.

Definition RemoveSavedSnapshot (db : Database) (id : Z) : res (Database * bool) :=
  let found := bool_decide (is_Some (SSnapHash db !! id)) in
  let hash := delete id (SSnapHash db) in
  let last := if LastSSnapXStamp (SSnapShared db) =? id then InvalidXStamp else LastSSnapXStamp (SSnapShared db) in
  if EarliestSSnapXStamp (SSnapShared db) =? id then
    let earliest := EarliestTag hash in
    map ← CommitMapExpire (TheCommitMap db) earliest;
    let earliest := if earliest =? XStampInfinity then InvalidXStamp else earliest in
    Ok (DB (Shared (NextXStamp (SSnapShared db)) last earliest) hash map (invalQueue db), found)
  else
    Ok (DB (Shared (NextXStamp (SSnapShared db)) last (EarliestSSnapXStamp (SSnapShared db))) hash
          (TheCommitMap db) (invalQueue db), found).

Definition XidToXStamp (db : Database) (xid : Z) : res Z := CommitMapLookup (TheCommitMap db) xid.

Definition XidIsInvisibleToSomeSavedSnapshot (db : Database) (xid : Z) : res bool :=
  x ← CommitMapLookup (TheCommitMap db) xid; Ok (XSTAMP_IS_VALID x).

Definition GetNextXStamp (db : Database) : Z := NextXStamp (SSnapShared db).

Definition GetEarliestSavedSnapshotID (db : Database) : Z := EarliestSSnapXStamp (SSnapShared db).

Definition FirstNormalTransactionId : Z := 3.

Definition TransactionIdIsNormal (x : Z) : bool := FirstNormalTransactionId <=? x.

Definition TransactionIdPrecedes (id1 id2 : Z) : bool :=
  if negb (TransactionIdIsNormal id1) || negb (TransactionIdIsNormal id2) then id1 <? id2
  else s32 (id1 - id2) <? 0.

Definition TransactionIdFollowsOrEquals (id1 id2 : Z) : bool :=
  if negb (TransactionIdIsNormal id1) || negb (TransactionIdIsNormal id2) then id2 <=? id1
  else 0 <=? s32 (id1 - id2).

(** [topmost] is [SubTransGetTopmostTransaction]. *)
Definition XidInSnapshot (topmost : Z -> Z) (x : Z) (s : Snapshot) : bool :=
  if TransactionIdPrecedes x (s_xmin s) then false
  else if TransactionIdFollowsOrEquals x (s_xmax s) then true
  else
    match s_subxip s with
    | Some subxip => bool_decide (x ∈ subxip) || bool_decide (x ∈ s_xip s)
    | None =>
      let x := topmost x in
      if TransactionIdPrecedes x (s_xmin s) then false else bool_decide (x ∈ s_xip s)
    end.

Section Database.

Context (scan : list (list Z) -> list (list Z)).

(** With [invalidate], as at the end of a transaction. *)
Definition GetCommitXStamp (db : Database) (b : Backend) (xid : Z) : res (Database * Backend * Z) :=
  let xstamp := NextXStamp (SSnapShared db) in
  let shared := Shared (u32 (xstamp + 1)) (LastSSnapXStamp (SSnapShared db)) (EarliestSSnapXStamp (SSnapShared db)) in
  map ← (if XSTAMP_IS_VALID (EarliestSSnapXStamp shared) then CommitMapAdd (TheCommitMap db) xid xstamp
         else Ok (TheCommitMap db));
  '(q, b) ← AtCommit_Invalidate scan (invalQueue db) b xstamp;
  Ok (DB shared (SSnapHash db) map q, b, xstamp).

(** The PIN command: returns the saved snapshot; the pin it reports is the stamp
    before. *)
Definition PinCommand (db : Database) (hasSerializableSnapshot : bool) (snapshot : Snapshot) (room : bool) :
    res (Database * option Z) :=
  '(db, ssnap) ← SaveSnapshot db hasSerializableSnapshot snapshot room;
  match ssnap with
  | None => Ok (db, None)
  | Some ssnap =>
    if FirstXStamp <? ssnap then
      '(q, _) ← SendNullInvalidation (invalQueue db) (ssnap - 1);
      Ok (set_queue q db, Some ssnap)
    else Ok (db, Some ssnap)
  end.

(** The UNPIN command for a pin. *)
Definition UnpinCommand (db : Database) (pin : Z) : res Database :=
  '(db, found) ← RemoveSavedSnapshot db (u32 (pin + 1));
  if negb found then Fault ErrorReport else Ok db.

(** [SetTransactionXStamp]: the snapshot of BEGIN ... SNAPSHOTID. *)
Definition SetTransactionXStamp (db : Database) (pin : Z) : res Snapshot :=
  match GetSavedSnapshot db (u32 (pin + 1)) with
  | None => Fault ErrorReport
  | Some s => Ok s
  end.

(** The end of a transaction that has enqueued [tags]: the id [xid] of its
    process gets a stamp if the executor ran a statement that changes rows
    ([XactWrote]); otherwise it gets none, and the tags are dropped. *)
Definition CommitTransaction (db : Database) (XactWrote : bool) (tags : list (list Z)) (xid : Z) :
    res (Database * Backend * option Z) :=
  let b := fold_left EnqueueInvalidate tags StartTransaction in
  if XactWrote then '(db, b, xstamp) ← GetCommitXStamp db b xid; Ok (db, b, Some xstamp)
  else Ok (db, if XactInvalidated b then DropPendingInvalidations b else b, None).

End Database.

(** ** Commits and saved snapshots *)

(** The saved snapshots' bound on the commits to keep. *)
Definition horizon (db : Database) : Z :=
  if XSTAMP_IS_VALID (EarliestSSnapXStamp (SSnapShared db)) then EarliestSSnapXStamp (SSnapShared db)
  else XStampInfinity.

(** [commits] are all the transactions that took a stamp. *)
Record ssnap_inv (db : Database) (commits : list (Z * Z)) : Prop := {
  si_stamps i c : commits !! i = Some c -> snd c = FirstXStamp + Z.of_nat i;
  si_next : NextXStamp (SSnapShared db) = FirstXStamp + Z.of_nat (length commits);
  si_bound : NextXStamp (SSnapShared db) < XStampInfinity;
  si_saved k s : SSnapHash db !! k = Some s -> FirstXStamp <= k <= NextXStamp (SSnapShared db);
  si_last : LastSSnapXStamp (SSnapShared db) = InvalidXStamp \/
    is_Some (SSnapHash db !! LastSSnapXStamp (SSnapShared db));
  si_earliest : if XSTAMP_IS_VALID (EarliestSSnapXStamp (SSnapShared db))
    then is_Some (SSnapHash db !! EarliestSSnapXStamp (SSnapShared db)) /\
      forall k s, SSnapHash db !! k = Some s -> EarliestSSnapXStamp (SSnapShared db) <= k
    else SSnapHash db = ∅;
  si_map : cm_log (TheCommitMap db) (log_expire commits (horizon db))
}.

(** *** Lemmas on logs *)

Definition increasing (log : list (Z * Z)) : Prop := StronglySorted (fun a b => snd a < snd b) log.

Lemma log_expire_le log k k' : k <= k' -> log_expire (log_expire log k) k' = log_expire log k'.
Proof.
  intros Hk. induction log as [|c log IH]; [done|]. cbn [log_expire]. destruct (Z.ltb_spec (snd c) k).
  - rewrite IH, (proj2 (Z.ltb_lt _ _)) by lia. done.
  - done.
Qed.

Lemma log_expire_all log k : Forall (fun c => snd c < k) log -> log_expire log k = [].
Proof. induction 1 as [|c log H _ IH]; [done|]. cbn. by rewrite (proj2 (Z.ltb_lt _ _)). Qed.

Lemma log_expire_snoc log c k : k <= snd c -> log_expire (log ++ [c]) k = log_expire log k ++ [c].
Proof.
  intros Hc. induction log as [|d log IH]; cbn [app log_expire].
  - by rewrite (proj2 (Z.ltb_ge _ _)).
  - destruct (snd d <? k); [done|]. done.
Qed.

Lemma log_expire_suffix log k : exists l, log = l ++ log_expire log k.
Proof.
  induction log as [|c log [l IH]]; [by exists []|]. cbn [log_expire]. destruct (snd c <? k); [|by exists []].
  exists (c :: l). cbn. by f_equal.
Qed.

Lemma log_expire_in log k c : increasing log -> c ∈ log_expire log k <-> c ∈ log /\ k <= snd c.
Proof.
  induction 1 as [|d log Hs IH Hd]; cbn [log_expire]; [rewrite elem_of_nil; tauto|].
  destruct (Z.ltb_spec (snd d) k) as [Hk|Hk].
  - rewrite IH, elem_of_cons. split; [tauto|]. intros [[->|?] ?]; [lia|done].
  - split; [|tauto]. intros Hin. split; [done|]. apply elem_of_cons in Hin as [->|Hin]; [done|].
    rewrite Forall_forall in Hd. specialize (Hd c Hin). lia.
Qed.

Lemma stamps_increasing commits :
  (forall i c, commits !! i = Some c -> snd c = FirstXStamp + Z.of_nat i) -> increasing commits.
Proof.
  induction commits as [|c commits IH] using rev_ind; intros H; [constructor|].
  apply StronglySorted_app_2; [|apply IH|by repeat constructor].
  - intros a b (i & Hi)%list_elem_of_lookup ->%list_elem_of_singleton. pose proof (lookup_lt_Some _ _ _ Hi).
    rewrite (H i a) by (by rewrite lookup_app_l). rewrite (H (length commits) c) by (by rewrite lookup_app_r, Nat.sub_diag by lia).
    lia.
  - intros i d Hi. apply H. rewrite lookup_app_l; [done|]. by eapply lookup_lt_Some.
Qed.

Lemma log_lookup_valid log x :
  Forall (fun c => snd c <> InvalidXStamp) log ->
  XSTAMP_IS_VALID (log_lookup log x) = true <-> exists s, (x, s) ∈ log.
Proof.
  intros Hl. unfold XSTAMP_IS_VALID. induction Hl as [|[y s] log Hc _ IH]; cbn [log_lookup].
  - split; [done|]. by intros [s Hs%elem_of_nil].
  - cbn [fst snd] in *. destruct (Z.eqb_spec y x) as [->|Hne].
    + rewrite (proj2 (Z.eqb_neq _ _)) by done. split; [|done]. intros _. exists s. by left.
    + rewrite IH. split; intros [s' Hs']; exists s'; [by right|]. apply elem_of_cons in Hs' as [[= -> ->]|?]; done.
Qed.

(** *** Operations *)

Lemma fold_min l : forall acc,
  let r := fold_left (fun e k => if k <? e then k else e) l acc in
  (r = acc \/ r ∈ l) /\ r <= acc /\ Forall (fun k => r <= k) l.
Proof.
  induction l as [|k l IH]; intros acc; cbn [fold_left]; [split_and!; [by left|lia|constructor]|].
  destruct (IH (if k <? acc then k else acc)) as (H1 & H2 & H3). cbv zeta in *.
  set (r := fold_left _ l _) in *. destruct (Z.ltb_spec k acc).
  - split_and!; [|lia|by constructor]. destruct H1 as [->|H1]; [right; by left|right; by right].
  - split_and!; [|lia|constructor; [lia|done]]. destruct H1 as [->|H1]; [by left|right; by right].
Qed.

Lemma EarliestTag_spec m : (forall k s, m !! k = Some s -> k < XStampInfinity) ->
  if EarliestTag m =? XStampInfinity then m = ∅
  else is_Some (m !! EarliestTag m) /\ forall k s, m !! k = Some s -> EarliestTag m <= k.
Proof.
  intros Hm. unfold EarliestTag. destruct (fold_min (map fst (map_to_list m)) XStampInfinity) as (H1 & H2 & H3).
  cbv zeta in *. set (r := fold_left _ _ _) in *. rewrite Forall_forall in H3.
  assert (Hin : forall k s, m !! k = Some s -> r <= k).
  { intros k s Hk. apply H3. apply list_elem_of_In, in_map_iff. exists (k, s). split; [done|].
    by apply list_elem_of_In, elem_of_map_to_list. }
  destruct (Z.eqb_spec r XStampInfinity) as [E|E].
  - apply map_empty. intros k. destruct (m !! k) as [s|] eqn:Hk; [|done]. pose proof (Hin k s Hk). pose proof (Hm k s Hk). lia.
  - split; [|done]. destruct H1 as [?|H1]; [done|]. apply list_elem_of_In, in_map_iff in H1 as ([k s] & <- & Hk).
    apply list_elem_of_In, elem_of_map_to_list in Hk. by exists s.
Qed.

Lemma Init_inv m : ssnap_inv (SSnapInit m) [].
Proof.
  split; cbn; try done; [by left|]. unfold horizon. cbn. apply Init_log.
Qed.

Lemma stamps_below db commits k : ssnap_inv db commits -> NextXStamp (SSnapShared db) <= k ->
  Forall (fun c => snd c < k) commits.
Proof.
  intros HI Hk. apply Forall_lookup. intros i c Hi. rewrite (si_stamps _ _ HI i c Hi).
  apply lookup_lt_Some in Hi. pose proof (si_next _ _ HI). lia.
Qed.

Lemma valid_iff x : XSTAMP_IS_VALID x = true <-> x <> InvalidXStamp.
Proof. unfold XSTAMP_IS_VALID. rewrite negb_true_iff. apply Z.eqb_neq. Qed.

Lemma Save_inv db commits hs snap room db' id :
  ssnap_inv db commits -> SaveSnapshot db hs snap room = Ok (db', Some id) ->
  ssnap_inv db' commits /\ id = NextXStamp (SSnapShared db) /\ NextXStamp (SSnapShared db') = id /\
  is_Some (SSnapHash db' !! id) /\ invalQueue db' = invalQueue db.
Proof.
  intros HI H. unfold SaveSnapshot in H. destruct hs; [done|]. pose proof (si_next _ _ HI) as Hn.
  remember (NextXStamp (SSnapShared db)) as n eqn:En. destruct (Z.eqb_spec n (LastSSnapXStamp (SSnapShared db))) as [E|E].
  - injection H as <- <-. split_and!; try done. destruct (si_last _ _ HI) as [E'|?]; [|by rewrite E].
    unfold FirstXStamp, InvalidXStamp in *. lia.
  - destruct (_ && _) in H; [done|]. apply bind_Ok in H as (u & _ & H).
    injection H as <- <-. split_and!; [|done..|cbn; by rewrite lookup_insert_eq|done].
    assert (Hv : XSTAMP_IS_VALID n = true) by (apply valid_iff; unfold FirstXStamp, InvalidXStamp in *; lia).
    pose proof (si_earliest _ _ HI) as He. destruct HI as [H1 H2 H3 H4 H5 _ H7].
    assert (Hsave : forall k s, <[n := snap]> (SSnapHash db) !! k = Some s -> k = n \/ SSnapHash db !! k = Some s).
    { intros k s [[<- _]|[_ ?]]%lookup_insert_Some; auto. }
    split; cbn [SSnapShared SSnapHash TheCommitMap NextXStamp LastSSnapXStamp EarliestSSnapXStamp]; rewrite <- ?En in *; try done.
    + intros k s [->|Hk]%Hsave; [unfold FirstXStamp in *; lia|by eapply H4].
    + right. by rewrite lookup_insert_eq.
    + destruct (XSTAMP_IS_VALID (EarliestSSnapXStamp (SSnapShared db))) eqn:Ee; [rewrite Ee|rewrite Hv].
      * destruct He as [[s Hs] He]. split; [|intros k s' [->|?]%Hsave; [by eapply H4|by eapply He]].
        destruct (decide (EarliestSSnapXStamp (SSnapShared db) = n)) as [->|]; [by rewrite lookup_insert_eq|].
        rewrite lookup_insert_ne by done. eauto.
      * split; [by rewrite lookup_insert_eq|]. intros k s [->|Hk]%Hsave; [lia|]. by rewrite He in Hk.
    + unfold horizon in *. cbn [SSnapShared EarliestSSnapXStamp].
      destruct (XSTAMP_IS_VALID (EarliestSSnapXStamp (SSnapShared db))) eqn:Ee; [by rewrite Ee|]. rewrite Hv.
      assert (Hb : forall k, n <= k -> Forall (fun c => snd c < k) commits).
      { intros k Hk. apply Forall_lookup. intros i c Hi. rewrite (H1 i c Hi). apply lookup_lt_Some in Hi. lia. }
      rewrite log_expire_all by (apply Hb; lia). rewrite log_expire_all in H7 by (apply Hb; lia). done.
Qed.

Lemma horizon_le db commits k s : ssnap_inv db commits -> SSnapHash db !! k = Some s -> horizon db <= k.
Proof.
  intros HI Hk. pose proof (si_earliest _ _ HI) as He. unfold horizon. destruct (XSTAMP_IS_VALID _); [by eapply He|].
  by rewrite He in Hk.
Qed.

Lemma horizon_bound db commits : ssnap_inv db commits -> horizon db <= XStampInfinity.
Proof.
  intros HI. pose proof (si_earliest _ _ HI) as He. unfold horizon. destruct (XSTAMP_IS_VALID _); [|done].
  destruct He as [[s Hs] _]. pose proof (si_saved _ _ HI _ _ Hs). pose proof (si_bound _ _ HI). lia.
Qed.

(** The bound after the oldest saved snapshot is gone. *)
Lemma new_horizon db commits h :
  ssnap_inv db commits -> (forall k s, h !! k = Some s -> SSnapHash db !! k = Some s) ->
  let e := EarliestTag h in
  let e' := if e =? XStampInfinity then InvalidXStamp else e in
  horizon db <= e /\ (if XSTAMP_IS_VALID e' then e' else XStampInfinity) = e /\
  if XSTAMP_IS_VALID e' then is_Some (h !! e') /\ forall k s, h !! k = Some s -> e' <= k else h = ∅.
Proof.
  intros HI Hsub. cbv zeta.
  assert (Hb : forall k s, h !! k = Some s -> k < XStampInfinity).
  { intros k s Hk%Hsub. pose proof (si_saved _ _ HI k s Hk). pose proof (si_bound _ _ HI). lia. }
  pose proof (EarliestTag_spec h Hb) as He. destruct (Z.eqb_spec (EarliestTag h) XStampInfinity) as [E|E].
  - rewrite E. split_and!; [by eapply horizon_bound|done|done].
  - destruct He as [[s Hs] He]. pose proof (Hsub _ _ Hs) as Hs'.
    assert (XSTAMP_IS_VALID (EarliestTag h) = true) as ->.
    { apply valid_iff. pose proof (si_saved _ _ HI _ _ Hs'). unfold FirstXStamp, InvalidXStamp in *. lia. }
    split_and!; [by eapply horizon_le|done|by eexists|done].
Qed.

Lemma Remove_inv db commits id db' found :
  ssnap_inv db commits -> RemoveSavedSnapshot db id = Ok (db', found) ->
  ssnap_inv db' commits /\ SSnapHash db' = delete id (SSnapHash db) /\
  NextXStamp (SSnapShared db') = NextXStamp (SSnapShared db) /\ invalQueue db' = invalQueue db.
Proof.
  intros HI H. pose proof HI as [H1 H2 H3 H4 H5 H6 H7]. unfold RemoveSavedSnapshot in H.
  set (h := delete id (SSnapHash db)) in *.
  assert (Hsub : forall k s, h !! k = Some s -> SSnapHash db !! k = Some s).
  { by intros k s [_ Hk]%lookup_delete_Some. }
  assert (Hlast : let x := LastSSnapXStamp (SSnapShared db) in let y := if x =? id then InvalidXStamp else x in
    y = InvalidXStamp \/ is_Some (h !! y)).
  { cbv zeta. destruct (Z.eqb_spec (LastSSnapXStamp (SSnapShared db)) id); [by left|].
    destruct H5 as [?|H5]; [by left|]. right. unfold h. by rewrite lookup_delete_ne. }
  destruct (Z.eqb_spec (EarliestSSnapXStamp (SSnapShared db)) id) as [E|E].
  - apply bind_Ok in H as (m & Hm & [= <- <-]). split_and!; [|done..].
    destruct (new_horizon db commits h HI Hsub) as (N1 & N2 & N3). set (e := EarliestTag h) in *.
    split; cbn [SSnapShared SSnapHash TheCommitMap NextXStamp LastSSnapXStamp EarliestSSnapXStamp]; try done.
    + intros k s Hk%Hsub. by eapply H4.
    + destruct (Expire_log _ _ e H7) as (m' & Em & Hm'). rewrite Hm in Em. injection Em as <-.
      rewrite log_expire_le in Hm' by done. unfold horizon. cbn [SSnapShared EarliestSSnapXStamp]. by rewrite N2.
  - injection H as <- <-. split_and!; [|done..].
    split; cbn [SSnapShared SSnapHash TheCommitMap NextXStamp LastSSnapXStamp EarliestSSnapXStamp]; try done.
    + intros k s Hk%Hsub. by eapply H4.
    + destruct (XSTAMP_IS_VALID (EarliestSSnapXStamp (SSnapShared db))); [|by unfold h; rewrite H6, delete_empty].
      destruct H6 as [Hs He]. split; [unfold h; by rewrite lookup_delete_ne|]. intros k s Hk%Hsub. by eapply He.
Qed.

Lemma Commit_inv scan db commits b xid db' b' x :
  ssnap_inv db commits -> NextXStamp (SSnapShared db) + 1 < XStampInfinity ->
  GetCommitXStamp scan db b xid = Ok (db', b', x) ->
  ssnap_inv db' (commits ++ [(xid, x)]) /\ x = NextXStamp (SSnapShared db) /\
  NextXStamp (SSnapShared db') = x + 1 /\ SSnapHash db' = SSnapHash db /\
  AtCommit_Invalidate scan (invalQueue db) b x = Ok (invalQueue db', b').
Proof.
  intros HI Hb H. pose proof HI as [H1 H2 H3 H4 H5 H6 H7]. unfold GetCommitXStamp in H.
  pose proof (si_next _ _ HI) as Hn. set (n := NextXStamp (SSnapShared db)) in *.
  apply bind_Ok in H as (m & Hm & H). apply bind_Ok in H as ([q b1] & Hq & H).
  assert (Hu : u32 (n + 1) = n + 1) by (apply u32_small; unfold XStampInfinity, FirstXStamp in *; lia).
  rewrite Hu in H. injection H as <- <- <-. split_and!; [|done..].
  split; cbn [SSnapShared SSnapHash TheCommitMap NextXStamp LastSSnapXStamp EarliestSSnapXStamp]; try done.
  - intros i c Hi. apply lookup_app_Some in Hi as [Hi|[Hl Hi]]; [by eapply H1|].
    apply list_lookup_singleton_Some in Hi as [Ei <-]. cbn. lia.
  - rewrite length_app. cbn. lia.
  - intros k s Hk. pose proof (H4 k s Hk). lia.
  - unfold horizon in *. cbn [SSnapShared EarliestSSnapXStamp] in *.
    destruct (XSTAMP_IS_VALID (EarliestSSnapXStamp (SSnapShared db))) eqn:Ev.
    + pose proof (Add_log _ _ xid n H7) as Ha. unfold log_add in Ha. destruct (_ =? _) in Ha; [congruence|].
      destruct (match last _ with Some _ => _ | None => _ end) in Ha; cbn [Assert] in Ha; [|cbn in Ha; congruence].
      rewrite bind_ret_l in Ha. destruct Ha as (m' & Em & Hm'). rewrite Hm in Em. injection Em as <-.
      rewrite log_expire_snoc; [done|]. cbn. destruct H6 as [[s Hs] _]. by eapply H4.
    + injection Hm as <-. assert (Hall : Forall (fun c => snd c < XStampInfinity) commits).
      { eapply stamps_below; [done|]. fold n. lia. }
      rewrite log_expire_all in H7 by done. rewrite log_expire_all; [done|].
      apply Forall_app. split; [done|]. constructor; [cbn; lia|constructor].
Qed.

(** ** Announcements *)

(** What is announced about a stamp: tags, or nothing but the stamp. *)
Definition announcement : Type := Z * list (list Z).

(** The entries of the queue for an announcement. *)
Definition block (a : announcement) : list InvalidationQueueEntry :=
  match snd a with
  | [] => [QEntry (fst a) None]
  | tags => map (fun t => QEntry (fst a) (Some t)) tags
  end.

(** The rows in which the daemon reads them. *)
Definition rows_of (anns : list announcement) : list (list Z * option (list Z)) :=
  map InvalRow (concat (map block anns)).

Definition last_stamp (ann : list announcement) : Z :=
  match last ann with Some a => fst a | None => XStampMinusInfinity end.

(** [ann] is everything that was announced, the first [taken] taken by the daemon. *)
Record queue_inv (db : Database) (ann : list announcement) (taken : nat) : Prop := {
  qi_queue : queue (invalQueue db) = concat (map block (drop taken ann));
  qi_taken : (taken <= length ann)%nat;
  qi_last : lastInvalidation (invalQueue db) = last_stamp ann;
  qi_sorted : StronglySorted (fun a b => fst a < fst b) ann;
  qi_range : Forall (fun a => FirstXStamp <= fst a < NextXStamp (SSnapShared db)) ann;
  qi_room : freeList (invalQueue db) + Z.of_nat (length (queue (invalQueue db))) = MAX_PENDING_INVALIDATIONS
}.

Lemma last_stamp_snoc ann a : last_stamp (ann ++ [a]) = fst a.
Proof. unfold last_stamp. by rewrite last_snoc. Qed.

Lemma sorted_below ann a :
  StronglySorted (fun a b : announcement => fst a < fst b) ann -> a ∈ ann -> fst a <= last_stamp ann.
Proof.
  destruct ann as [|b ann _] using rev_ind; [by intros _ ?%elem_of_nil|]. intros Hs Ha. rewrite last_stamp_snoc.
  apply elem_of_app in Ha as [Ha| ->%list_elem_of_singleton]; [|done].
  assert (fst a < fst b); [|lia].
  by eapply (StronglySorted_app_1_elem_of (fun a b : announcement => fst a < fst b)); [exact Hs| |apply list_elem_of_here].
Qed.

Lemma sorted_snoc ann a :
  StronglySorted (fun a b : announcement => fst a < fst b) ann -> last_stamp ann < fst a ->
  StronglySorted (fun a b : announcement => fst a < fst b) (ann ++ [a]).
Proof.
  intros Hs Ha. apply StronglySorted_app_2; [|done|by repeat constructor].
  intros b c Hb ->%list_elem_of_singleton. pose proof (sorted_below ann b Hs Hb). lia.
Qed.

(** One more announcement at the end of the queue. *)
Lemma announce_inv db db' ann taken a :
  queue_inv db ann taken -> last_stamp ann < fst a -> FirstXStamp <= fst a < NextXStamp (SSnapShared db') ->
  NextXStamp (SSnapShared db) <= NextXStamp (SSnapShared db') ->
  queue (invalQueue db') = queue (invalQueue db) ++ block a -> lastInvalidation (invalQueue db') = fst a ->
  freeList (invalQueue db') + Z.of_nat (length (queue (invalQueue db'))) = MAX_PENDING_INVALIDATIONS ->
  queue_inv db' (ann ++ [a]) taken.
Proof.
  intros [H1 H2 H3 H4 H5 H6] Ha Hr Hn Hq Hl Hf. split.
  - rewrite Hq, H1, drop_app_le, map_app, concat_app by done. cbn. by rewrite app_nil_r.
  - rewrite length_app. lia.
  - by rewrite last_stamp_snoc.
  - by apply sorted_snoc.
  - apply Forall_app. split; [|by constructor]. eapply Forall_impl; [exact H5|]. cbn. lia.
  - done.
Qed.

Lemma queue_inv_next db db' ann taken :
  queue_inv db ann taken -> invalQueue db' = invalQueue db ->
  NextXStamp (SSnapShared db) <= NextXStamp (SSnapShared db') -> queue_inv db' ann taken.
Proof.
  intros [H1 H2 H3 H4 H5 H6] E Hn. split; rewrite ?E; try done. eapply Forall_impl; [exact H5|]. cbn. lia.
Qed.

(** ** Runs *)

Inductive db_event : Type :=
| EvPin (pin : Z) (snapshot : Snapshot)
| EvUnpin (pin : Z)
| EvCommit (xid xstamp : Z) (tags : list (list Z))
| EvQuiet (xid : Z)
| EvDrain (rows : list (list Z * option (list Z))).

Section Runs.

Context (topmost : Z -> Z) (scan : list (list Z) -> list (list Z)).

(** What changes the database.  A commit takes a stamp, or takes none: that of a
    transaction for which [XactWrote] is not set, such as one whose rows come from
    COPY; those of subtransactions and of prepared transactions do not come here
    at all ([step_other]). *)
Inductive db_step : Database -> db_event -> Database -> Prop :=
| step_pin db hasSerializable snapshot room db' ssnap :
    PinCommand db hasSerializable snapshot room = Ok (db', Some ssnap) -> db_step db (EvPin (ssnap - 1) snapshot) db'
| step_unpin db pin db' :
    UnpinCommand db pin = Ok db' -> db_step db (EvUnpin pin) db'
| step_commit db tags xid db' b xstamp :
    NextXStamp (SSnapShared db) + 1 < XStampInfinity ->
    CommitTransaction scan db true tags xid = Ok (db', b, Some xstamp) -> db_step db (EvCommit xid xstamp tags) db'
| step_quiet db tags xid db' b :
    CommitTransaction scan db false tags xid = Ok (db', b, None) -> db_step db (EvQuiet xid) db'
| step_other db xid : db_step db (EvQuiet xid) db
| step_drain db q rows :
    pg_get_and_clear_invalidations (invalQueue db) = (q, rows) -> db_step db (EvDrain rows) (set_queue q db).

(** The commits of a history, in order. *)
Definition commit_event (e : db_event) : list (Z * Z) :=
  match e with EvCommit xid xstamp _ => [(xid, xstamp)] | _ => [] end.

Definition commits_of (h : list db_event) : list (Z * Z) := concat (map commit_event h).

(** The id commits in the history, with a stamp or without. *)
Definition committed_in (h : list db_event) (xid : Z) : Prop :=
  EvQuiet xid ∈ h \/ exists xstamp, (xid, xstamp) ∈ commits_of h.

(** What [GetSnapshotData] promises: a snapshot does not count finished
    transactions as running, and a transaction that is to commit is running for
    all the snapshots taken before; transactions commit once. *)
Definition snapshot_contract (db : Database) (h : list db_event) (e : db_event) : Prop :=
  match e with
  | EvPin _ s => forall xid xstamp, (xid, xstamp) ∈ commits_of h -> XidInSnapshot topmost xid s = false
  | EvCommit xid _ _ =>
    (forall k s, SSnapHash db !! k = Some s -> XidInSnapshot topmost xid s = true) /\ ~ committed_in h xid
  | EvQuiet xid =>
    (forall k s, SSnapHash db !! k = Some s -> XidInSnapshot topmost xid s = true) /\ ~ committed_in h xid
  | _ => True
  end.

Inductive db_run (m : CommitMap) : Database -> list db_event -> Prop :=
| run_init : db_run m (SSnapInit m) []
| run_step db h e db' :
    db_run m db h -> db_step db e db' -> snapshot_contract db h e -> db_run m db' (h ++ [e]).

(** What the events announce after [last]. *)
Definition announce_event (last : Z) (e : db_event) : list announcement :=
  match e with
  | EvCommit _ xstamp tags => if bool_decide (tags = []) then [] else [(xstamp, scan (foldl (fun l t => hash_enter t l) [] tags))]
  | EvPin pin _ => if (FirstXStamp <=? pin) && (last <? pin) then [(pin, [])] else []
  | _ => []
  end.

Fixpoint announced (ann : list announcement) (h : list db_event) : list announcement :=
  match h with
  | [] => ann
  | e :: h => announced (ann ++ announce_event (last_stamp ann) e) h
  end.

Definition announcements (h : list db_event) : list announcement := announced [] h.

(** What the daemon takes at each notification. *)
Definition drain_event (e : db_event) : list (list (list Z * option (list Z))) :=
  match e with EvDrain rows => [rows] | _ => [] end.

Definition batches (h : list db_event) : list (list (list Z * option (list Z))) := concat (map drain_event h).

(** *** Lemmas *)

Lemma commits_snoc h e : commits_of (h ++ [e]) = commits_of h ++ commit_event e.
Proof. unfold commits_of. rewrite map_app, concat_app. cbn. by rewrite app_nil_r. Qed.

Lemma announced_snoc h e : forall ann, announced ann (h ++ [e]) =
  announced ann h ++ announce_event (last_stamp (announced ann h)) e.
Proof. induction h as [|x h IH]; intros ann; [done|]. apply IH. Qed.

Lemma enqueued tags : tags <> [] -> forall b,
  pendingInvalidations (fold_left EnqueueInvalidate tags b) =
  Some (foldl (fun l t => hash_enter t l) (default [] (pendingInvalidations b)) tags).
Proof.
  intros Hne. assert (forall b, pendingInvalidations (fold_left EnqueueInvalidate tags b) =
    if bool_decide (tags = []) then pendingInvalidations b
    else Some (foldl (fun l t => hash_enter t l) (default [] (pendingInvalidations b)) tags)) as H.
  { clear Hne. induction tags as [|t tags IH]; intros b; [by rewrite bool_decide_true|]. cbn [fold_left foldl]. rewrite IH.
    rewrite (bool_decide_false (t :: tags = [])) by done. case_bool_decide as E; [subst; cbn|cbn]; by destruct (pendingInvalidations b). }
  intros b. rewrite H. by rewrite bool_decide_false.
Qed.

Hypothesis scan_perm : forall l, scan l ≡ₚ l.

Lemma pending_nonempty tags : tags <> [] -> scan (foldl (fun l t => hash_enter t l) [] tags) <> [].
Proof.
  intros Hne E. pose proof (scan_perm (foldl (fun l t => hash_enter t l) [] tags)) as P. rewrite E in P.
  apply Permutation_nil in P. destruct tags as [|t tags _] using rev_ind; [done|]. rewrite foldl_snoc in P.
  pose proof (proj2 (hash_enter_in t (foldl (fun l t => hash_enter t l) [] tags) t) (or_introl eq_refl)) as Hin.
  rewrite P in Hin. by apply elem_of_nil in Hin.
Qed.

Lemma block_tags x tags : tags <> [] -> block (x, tags) = map (fun t => QEntry x (Some t)) tags.
Proof. by destruct tags. Qed.

Lemma Commit_queue db commits ann taken tags xid db' b x :
  ssnap_inv db commits -> queue_inv db ann taken -> NextXStamp (SSnapShared db) + 1 < XStampInfinity ->
  CommitTransaction scan db true tags xid = Ok (db', b, Some x) ->
  ssnap_inv db' (commits ++ [(xid, x)]) /\ queue_inv db' (ann ++ announce_event (last_stamp ann) (EvCommit xid x tags)) taken /\
  SSnapHash db' = SSnapHash db /\ x = NextXStamp (SSnapShared db).
Proof.
  intros HI HQ Hb H. unfold CommitTransaction in H. apply bind_Ok in H as ([[db1 b1] x1] & H & [= <- _ <-]).
  destruct (Commit_inv scan db commits _ xid db1 b1 x1 HI Hb H) as (I & Ex & En & Eh & Ea). split_and!; [done| |done|done].
  unfold AtCommit_Invalidate in Ea. cbn [announce_event]. case_bool_decide as Et.
  - subst tags. cbn in Ea. injection Ea as Eq _. rewrite app_nil_r. eapply queue_inv_next; [exact HQ|done|lia].
  - rewrite (enqueued tags Et) in Ea. cbn [pendingInvalidations StartTransaction default] in Ea.
    set (l := foldl _ [] tags) in *. apply bind_Ok in Ea as (? & [Hl%Z.ltb_lt _]%Assert_Ok & Ea).
    apply bind_Ok in Ea as (q & Hq & [= Eq _]). subst q. destruct (AddAll_ok _ _ _ _ Hq) as (A1 & A2 & A3). cbn in A1, A2, A3.
    rewrite (qi_last _ _ _ HQ) in Hl. pose proof (si_next _ _ HI).
    eapply announce_inv; [exact HQ|exact Hl|cbn; unfold FirstXStamp in *; lia|lia| |done|].
    + rewrite A1, block_tags by (by apply pending_nonempty). done.
    + rewrite A3. apply (qi_room _ _ _ HQ).
Qed.

Lemma Pin_queue db commits ann taken hs snap room db' ssnap :
  ssnap_inv db commits -> queue_inv db ann taken -> PinCommand db hs snap room = Ok (db', Some ssnap) ->
  ssnap_inv db' commits /\ queue_inv db' (ann ++ announce_event (last_stamp ann) (EvPin (ssnap - 1) snap)) taken /\
  ssnap = NextXStamp (SSnapShared db).
Proof.
  intros HI HQ H. unfold PinCommand in H. apply bind_Ok in H as ([db1 [s1|]] & H1 & H); [|done].
  destruct (Save_inv db commits hs snap room db1 s1 HI H1) as (I & Es & En & _ & Eq).
  assert (HQ1 : queue_inv db1 ann taken) by (eapply queue_inv_next; [exact HQ|done|lia]). cbn [announce_event].
  destruct (Z.ltb_spec FirstXStamp s1) as [Hf|Hf].
  - apply bind_Ok in H as ([q n] & Hq & [= <- <-]). unfold SendNullInvalidation in Hq.
    rewrite (proj2 (Z.leb_le _ _)) by lia. rewrite (qi_last _ _ _ HQ1) in Hq.
    assert (I' : ssnap_inv (set_queue q db1) commits) by (destruct I; split; done).
    split_and!; [done| |done]. destruct (Z.leb_spec (s1 - 1) (last_stamp ann)) as [Hl|Hl].
    + injection Hq as <- <-. rewrite (proj2 (Z.ltb_ge _ _)), app_nil_r by lia. eapply queue_inv_next; [exact HQ1|done|done].
    + rewrite (proj2 (Z.ltb_lt _ _)) by lia. cbn [andb]. apply bind_Ok in Hq as (q1 & Hq & [= <- <-]).
      unfold AddInvalidationToQueue in Hq. destruct (_ =? _) in Hq; [done|]. injection Hq as <-. cbn in *.
      eapply announce_inv; [exact HQ1|cbn; lia|cbn; lia|done|done|done|]. cbn. rewrite length_app. cbn.
      pose proof (qi_room _ _ _ HQ1). lia.
  - injection H as <- <-. rewrite (proj2 (Z.leb_gt _ _)), app_nil_r by lia. done.
Qed.

(** The rows the daemon has taken are those of the first announcements. *)
Lemma db_run_parts m db h : db_run m db h ->
  exists parts rest, announcements h = concat parts ++ rest /\ batches h = map rows_of parts /\
    ssnap_inv db (commits_of h) /\ queue_inv db (announcements h) (length (concat parts)) /\
    (forall rows, last h = Some (EvDrain rows) -> rest = []).
Proof.
  induction 1 as [|db h e db' _ (parts & rest & Ea & Eb & HI & HQ & _) Hs _].
  { exists [], []. split_and!; [done|done|apply Init_inv| |done]. split; cbn; try done; constructor. }
  unfold announcements, batches. rewrite commits_snoc, announced_snoc, map_app, concat_app. fold (announcements h) (batches h).
  setoid_rewrite last_snoc.
  destruct Hs as [db hs snap room db' ssnap H|db pin db' H|db tags xid db' b x Hb H|db tags xid db' b [= <- _]|db xid|db q rows H];
    cbn [commit_event map concat drain_event]; rewrite ?app_nil_r.
  4-5: by exists parts, rest; cbn [announce_event]; rewrite ?app_nil_r; split_and!.
  - destruct (Pin_queue _ _ _ _ _ _ _ _ _ HI HQ H) as (I & Q & _). exists parts, (rest ++ announce_event (last_stamp (announcements h)) (EvPin (ssnap - 1) snap)).
    rewrite Ea at 1. split_and!; try done. by rewrite <- app_assoc.
  - cbn [announce_event]. rewrite ?app_nil_r. unfold UnpinCommand in H.
    apply bind_Ok in H as ([db1 found] & H & H'). destruct found; [|done]. injection H' as <-.
    destruct (Remove_inv _ _ _ _ _ HI H) as (I & _ & En & Eq). exists parts, rest. split_and!; try done.
    eapply queue_inv_next; [done|done|lia].
  - destruct (Commit_queue _ _ _ _ _ _ _ _ _ HI HQ Hb H) as (I & Q & _).
    exists parts, (rest ++ announce_event (last_stamp (announcements h)) (EvCommit xid x tags)).
    rewrite Ea at 1. split_and!; try done. by rewrite <- app_assoc.
  - cbn [announce_event]. rewrite ?app_nil_r. unfold pg_get_and_clear_invalidations in H.
    injection H as <- <-. exists (parts ++ [rest]), []. rewrite ?app_nil_r, concat_app. cbn [concat]. rewrite ?app_nil_r, <- Ea.
    destruct HQ as [H1 H2 H3 H4 H5 H6]. split_and!; [done| |by destruct HI| |done].
    + rewrite Eb, map_app. cbn. do 2 f_equal. rewrite H1. unfold rows_of. by rewrite Ea, drop_app_length.
    + split; cbn; try done; [by rewrite drop_all|lia].
Qed.

Lemma announced_incl h : forall ann a, a ∈ ann -> a ∈ announced ann h.
Proof.
  induction h as [|e h IH]; intros ann a Ha; [done|]. cbn [announced]. apply IH, elem_of_app. by left.
Qed.

Lemma hash_tags tags : forall l, NoDup l ->
  NoDup (foldl (fun l t => hash_enter t l) l tags) /\
  forall t, t ∈ foldl (fun l t => hash_enter t l) l tags <-> t ∈ l \/ t ∈ tags.
Proof.
  induction tags as [|x tags IH]; intros l Hl; cbn [foldl].
  - split; [done|]. intros t. rewrite elem_of_nil. tauto.
  - destruct (IH (hash_enter x l) (hash_enter_nodup x l Hl)) as [H1 H2]. split; [done|]. intros t.
    rewrite H2, hash_enter_in, elem_of_cons. tauto.
Qed.

(** Every commit that enqueued tags is announced with them. *)
Lemma announced_commit h xid x tags : EvCommit xid x tags ∈ h -> tags <> [] ->
  exists tags', (x, tags') ∈ announcements h /\ NoDup tags' /\ forall t, t ∈ tags' <-> t ∈ tags.
Proof.
  intros Hin Hne. exists (scan (foldl (fun l t => hash_enter t l) [] tags)).
  destruct (hash_tags tags [] ltac:(constructor)) as [H1 H2]. split_and!.
  - unfold announcements. generalize (@nil announcement). induction h as [|e h IH]; intros ann; [by apply elem_of_nil in Hin|].
    cbn [announced]. apply elem_of_cons in Hin as [<-|Hin]; [|by apply IH]. apply announced_incl, elem_of_app. right.
    cbn [announce_event]. rewrite bool_decide_false by done. by left.
  - by rewrite (scan_perm _).
  - intros t. rewrite (scan_perm _), H2, elem_of_nil. tauto.
Qed.

Lemma db_run_inv m db h : db_run m db h ->
  exists taken, ssnap_inv db (commits_of h) /\ queue_inv db (announcements h) taken.
Proof. intros H. destruct (db_run_parts m db h H) as (parts & rest & _ & _ & HI & HQ & _). eauto. Qed.

Lemma commits_once m db h : db_run m db h -> forall xid x y,
  (xid, x) ∈ commits_of h -> (xid, y) ∈ commits_of h -> x = y.
Proof.
  induction 1 as [|db h e db' Hrun IH Hs Hc]; intros xid x y Hx Hy; [by apply elem_of_nil in Hx|].
  rewrite commits_snoc in Hx, Hy. destruct e as [| |xid1 x1 tags| |]; cbn [commit_event] in Hx, Hy; rewrite ?app_nil_r in Hx, Hy; try by eapply IH.
  destruct Hc as [_ Hc]. apply elem_of_app in Hx as [Hx|Hx%list_elem_of_singleton], Hy as [Hy|Hy%list_elem_of_singleton]; simplify_eq.
  - by eapply IH.
  - destruct Hc. right. eauto.
  - destruct Hc. right. eauto.
  - done.
Qed.

(** An id that commits without a stamp has none. *)
Lemma quiet_unstamped m db h xid : db_run m db h -> EvQuiet xid ∈ h -> forall x, (xid, x) ∉ commits_of h.
Proof.
  induction 1 as [|db h e db' Hrun IH Hs Hc]; [by intros ?%elem_of_nil|]. intros Hq x Hx. rewrite commits_snoc in Hx.
  apply elem_of_app in Hq as [Hq|Hq%list_elem_of_singleton], Hx as [Hx|Hx]; simplify_eq; try by apply elem_of_nil in Hx.
  - by apply (IH Hq x).
  - destruct e; try by apply elem_of_nil in Hx. apply list_elem_of_singleton in Hx. simplify_eq. destruct Hc as [_ []]. by left.
  - destruct Hc as [_ []]. right. eauto.
Qed.

(** A saved snapshot sees the commits before its stamp. *)
Lemma db_run_sees m db h : db_run m db h -> forall k s xid xstamp,
  SSnapHash db !! k = Some s -> (xid, xstamp) ∈ commits_of h -> XidInSnapshot topmost xid s = (k <=? xstamp).
Proof.
  induction 1 as [|db h e db' Hrun IH Hs Hc]; intros k s xid x Hk Hx; [by apply elem_of_nil in Hx|].
  destruct (db_run_inv m db h Hrun) as (taken & HI & HQ). rewrite commits_snoc in Hx.
  destruct Hs as [db hs snap room db' ssnap H|db pin db' H|db tags xid1 db' b x1 Hb H|db tags xid1 db' b [= <- _]|db xid1|db q rows H];
    cbn [commit_event] in Hx; rewrite ?app_nil_r in Hx; try by eapply IH.
  - assert (Hh : SSnapHash db !! k = Some s \/ (k = NextXStamp (SSnapShared db) /\ s = snap)).
    { unfold PinCommand in H. apply bind_Ok in H as ([db1 [s1|]] & H1 & H); [|done].
      assert (Eh : SSnapHash db' = SSnapHash db1).
      { destruct (_ <? _) in H; [|by injection H as <- _]. apply bind_Ok in H as ([q n] & _ & H). by injection H as <- _. }
      rewrite Eh in Hk. unfold SaveSnapshot in H1. destruct hs; [done|]. destruct (_ =? _) in H1; [injection H1 as <- <-; by left|].
      destruct (_ && _) in H1; [done|]. apply bind_Ok in H1 as (u & _ & [= <- <-]). cbn in Hk. apply lookup_insert_Some in Hk as [[<- <-]|[_ Hk]]; auto. }
    destruct Hh as [Hh|[-> ->]]; [by eapply IH|]. cbn in Hc. rewrite (Hc xid x Hx). symmetry. apply Z.leb_gt.
    apply list_elem_of_lookup in Hx as (i & Hi). pose proof (stamps_below _ _ _ HI (Z.le_refl _)) as Hf.
    rewrite Forall_lookup in Hf. apply (Hf i _ Hi).
  - unfold UnpinCommand in H. apply bind_Ok in H as ([db1 found] & H & H'). destruct found; [|done]. injection H' as <-.
    destruct (Remove_inv _ _ _ _ _ HI H) as (_ & Eh & _). rewrite Eh in Hk. apply lookup_delete_Some in Hk as [_ Hk]. by eapply IH.
  - destruct (Commit_queue _ _ _ _ _ _ _ _ _ HI HQ Hb H) as (_ & _ & Eh & Ex). rewrite Eh in Hk.
    apply elem_of_app in Hx as [Hx|Hx]; [by eapply IH|]. apply list_elem_of_singleton in Hx as [= -> ->].
    destruct Hc as [Hc _]. rewrite (Hc k s Hk). symmetry. apply Z.leb_le. rewrite Ex. by eapply (si_saved _ _ HI).
Qed.

(** The stamp of a transaction, as long as a saved snapshot needs it. *)
Lemma lookup_spec m db h xid : db_run m db h ->
  XidToXStamp db xid = Ok (log_lookup (log_expire (commits_of h) (horizon db)) xid) /\
  (forall xstamp, (xid, xstamp) ∈ log_expire (commits_of h) (horizon db) <->
     (xid, xstamp) ∈ commits_of h /\ exists k s, SSnapHash db !! k = Some s /\ k <= xstamp).
Proof.
  intros Hrun. destruct (db_run_inv m db h Hrun) as (taken & HI & HQ). split; [apply Lookup_log, HI|].
  intros x. rewrite log_expire_in by (apply stamps_increasing, (si_stamps _ _ HI)). cbn [snd].
  split; intros [Hx He]; (split; [done|]).
  - unfold horizon in He. pose proof (si_earliest _ _ HI) as Hs. destruct (XSTAMP_IS_VALID _).
    + destruct Hs as [[s Hs] _]. eauto.
    + apply list_elem_of_lookup in Hx as (i & Hi). pose proof (stamps_below _ _ _ HI (Z.lt_le_incl _ _ (si_bound _ _ HI))) as Hf.
      rewrite Forall_lookup in Hf. specialize (Hf i _ Hi). cbn in Hf. lia.
  - destruct He as (k & s & Hk & Hkx). pose proof (horizon_le _ _ _ _ HI Hk). lia.
Qed.

End Runs.

(** ** Properties *)

(** C12: The rule by which vacuum keeps deleted rows.  After any history of pins
    that are saved, unpins and commits, a transaction id counts as invisible to
    some saved snapshot exactly when it committed with a stamp and one of the
    snapshots saved at the moment still takes it for running; its stamp is known
    exactly then.  An id that committed without a stamp, as those of
    subtransactions, of prepared transactions and of transactions whose rows come
    from COPY do, never counts as invisible, although all the snapshots that were
    saved before take it for running: the rows it deleted are not kept. *)
Theorem invisible_iff (topmost : Z -> Z) (scan : list (list Z) -> list (list Z)) (m : CommitMap) (db : Database)
    (h : list db_event) (xid : Z)
    (Hscan : forall l, scan l ≡ₚ l) (Hrun : db_run topmost scan m db h) :
  exists b x, XidIsInvisibleToSomeSavedSnapshot db xid = Ok b /\ XidToXStamp db xid = Ok x /\
    (b = true <-> exists xstamp k s, (xid, xstamp) ∈ commits_of h /\ SSnapHash db !! k = Some s /\
       XidInSnapshot topmost xid s = true) /\
    (b = true -> (xid, x) ∈ commits_of h) /\ (b = false -> x = InvalidXStamp) /\
    (EvQuiet xid ∈ h -> b = false).
Proof.
  destruct (lookup_spec topmost scan Hscan m db h xid Hrun) as [E Hin]. pose proof (db_run_sees topmost scan Hscan m db h Hrun) as Hsees.
  destruct (db_run_inv topmost scan Hscan m db h Hrun) as (taken & HI & _).
  set (log := log_expire (commits_of h) (horizon db)) in *. exists (XSTAMP_IS_VALID (log_lookup log xid)), (log_lookup log xid).
  assert (Hcom : XSTAMP_IS_VALID (log_lookup log xid) = true -> (xid, log_lookup log xid) ∈ commits_of h).
  { intros Hb. destruct (log_expire_suffix (commits_of h) (horizon db)) as [l El]. rewrite El. apply elem_of_app. right.
    fold log. clear -Hb. induction log as [|[y s] log IH]; [done|]. cbn [log_lookup fst snd] in *.
    destruct (Z.eqb_spec y xid) as [->|]; [by left|right; auto]. }
  assert (Hv : Forall (fun c => snd c <> InvalidXStamp) log).
  { apply Forall_forall. intros c Hc. destruct (log_expire_suffix (commits_of h) (horizon db)) as [l El].
    assert (Hc' : c ∈ commits_of h) by (rewrite El; apply elem_of_app; by right). apply list_elem_of_lookup in Hc' as (i & Hi).
    rewrite (si_stamps _ _ HI i c Hi). unfold FirstXStamp, InvalidXStamp. lia. }
  unfold XidIsInvisibleToSomeSavedSnapshot. unfold XidToXStamp in E. rewrite E, bind_ret_l. split_and!; [done|exact E|..].
  - rewrite (log_lookup_valid log xid Hv). split.
    + intros (x & Hx). apply Hin in Hx as (Hx & k & s & Hk & Hkx). exists x, k, s. split_and!; [done|done|].
      rewrite (Hsees k s xid x Hk Hx). by apply Z.leb_le.
    + intros (x & k & s & Hx & Hk & Hs). exists x. apply Hin. split; [done|]. exists k, s. split; [done|].
      rewrite (Hsees k s xid x Hk Hx) in Hs. by apply Z.leb_le.
  - exact Hcom.
  - unfold XSTAMP_IS_VALID. intros Hb%negb_false_iff%Z.eqb_eq. exact Hb.
  - intros Hq. apply not_true_is_false. intros Hb. exact (quiet_unstamped topmost scan m db h xid Hrun Hq _ (Hcom Hb)).
Qed.

(** A PIN that fails because the table of saved snapshots is full leaves its mark:
    the next one reports a pin whose snapshot was never saved. *)
Lemma SaveSnapshot_full db snap snap' room :
  NextXStamp (SSnapShared db) <> LastSSnapXStamp (SSnapShared db) ->
  SSnapHash db !! NextXStamp (SSnapShared db) = None ->
  exists db', SaveSnapshot db false snap false = Ok (db', None) /\
    SaveSnapshot db' false snap' room = Ok (db', Some (NextXStamp (SSnapShared db))) /\
    GetSavedSnapshot db' (NextXStamp (SSnapShared db)) = None.
Proof.
  intros Hl Hh. unfold SaveSnapshot at 1. rewrite (proj2 (Z.eqb_neq _ _)) by done. rewrite bool_decide_true by done.
  cbn [negb andb]. eexists. split; [reflexivity|]. unfold SaveSnapshot. cbn. by rewrite Z.eqb_refl.
Qed.

(** A pin, then a commit of transaction 5, which was running at the pin. *)
Definition ex_snap : Snapshot := Snap 5 5 [] (Some []).
Definition ex_map : CommitMap := CMap ∅ ∅ 0 0 0.
Definition ex_tags : list (list Z) := [str "1000:1068.11:"].
Definition ex_history : list db_event := [EvPin 1 ex_snap; EvCommit 5 2 ex_tags].

Lemma ex_db_run : exists db, db_run id id ex_map db ex_history /\ SSnapHash db !! 2 = Some ex_snap.
Proof.
  assert (R1 : db_run id id ex_map (DB (Shared 2 2 2) (<[2 := ex_snap]> ∅) (CommitMapInit ex_map) InvalidationInit) [EvPin 1 ex_snap]).
  { apply (run_step id id ex_map (SSnapInit ex_map) [] (EvPin 1 ex_snap)); [constructor| |].
    - apply (step_pin id (SSnapInit ex_map) false ex_snap true _ 2). done.
    - by intros xid x Hx%elem_of_nil. }
  destruct (Add_log (CommitMapInit ex_map) [] 5 2 (Init_log ex_map)) as (m' & E & _).
  eexists. split.
  - eapply (run_step id id ex_map _ [EvPin 1 ex_snap] (EvCommit 5 2 ex_tags)); [exact R1| |].
    + eapply step_commit; [done|]. unfold CommitTransaction, GetCommitXStamp. cbn [SSnapShared NextXStamp EarliestSSnapXStamp TheCommitMap].
      change (XSTAMP_IS_VALID 2) with true. cbv iota. rewrite E, bind_ret_l. reflexivity.
    + split; [|intros [Hq|[x Hx]]; [by apply list_elem_of_singleton in Hq|by apply elem_of_nil in Hx]]. cbn [SSnapHash]. intros k s [[<- <-]|[_ Hs]]%lookup_insert_Some; [done|]. by rewrite lookup_empty in Hs.
  - done.
Qed.

Lemma invisible_iff_witness : exists db b x,
  XidIsInvisibleToSomeSavedSnapshot db 5 = Ok b /\ XidToXStamp db 5 = Ok x /\ b = true /\ (5, x) ∈ [(5, 2)].
Proof.
  destruct ex_db_run as (db & Hrun & Hs).
  destruct (invisible_iff id id ex_map db ex_history 5 (fun l => Permutation_refl l) Hrun)
    as (b & x & E1 & E2 & Hb & Hx & _).
  assert (Hbt : b = true).
  { apply Hb. exists 2, 2, ex_snap. split_and!; [by left|exact Hs|done]. }
  exists db, b, x. split_and!; [exact E1|exact E2|exact Hbt|exact (Hx Hbt)].
Defined.
