(* ===== verification/Validity.v ===== *)
(** * Validity intervals of queries (pgsql: backend/utils/time/valint.c, tqual.c,
    executor/execMain.c, execScan.c, execTuples.c)

    While a query runs on a saved snapshot, the database gathers for how long
    each row it returns has been visible, and when a row it did not see would
    have become so.  The interval it reports is shown to be one over which the
    query has the same result, and, when it has no end yet, to stay so until an
    announcement affects the query's tags. *)

From S2P Require Import Prelude CLib Interval Truth CommitMap DBInval Snapshots.

(** ** Intervals of stamps *)

Record ValidityInterval : Type := VInt {
  vstart : Z;
  vend : Z
}.

Definition InfiniteValidityInterval : ValidityInterval := VInt XStampMinusInfinity XStampInfinity.

Definition ValidityIntervalIsEmpty (v : ValidityInterval) : bool := vstart v <? vend v.

Definition ValidityIntervalIntersect (a b : ValidityInterval) : ValidityInterval :=
  VInt (if vstart b <? vstart a then vstart a else vstart b) (if vend a <? vend b then vend a else vend b).

Definition ValidityIntervalExclude (orig : ValidityInterval) (x now : Z) : ValidityInterval :=
  if x <? now then VInt (if x <? vstart orig then vstart orig else x) (vend orig)
  else VInt (vstart orig) (if vend orig <? x then vend orig else x).

(** ** Row versions *)

(** A version of a row: who inserted and who deleted or locked it, and the bits
    of [t_infomask] that the visibility rules read. *)
Record Tuple : Type := Tup {
  t_xmin : Z;
  t_cmin : Z;
  t_xmax : Z;
  t_field4 : Z;
  XMIN_COMMITTED : bool;
  XMIN_INVALID : bool;
  XMAX_COMMITTED : bool;
  XMAX_INVALID : bool;
  IS_LOCKED : bool;
  XMAX_IS_MULTI : bool;
  MOVED_OFF : bool;
  MOVED_IN : bool;
  t_row : list Z
}.

(** The union [t_field4]. *)
Definition t_cmax (t : Tuple) : Z := t_field4 t.
Definition t_xvac (t : Tuple) : Z := t_field4 t.

(** [tuple->t_infomask |= ...] *)
Definition set_xmin (committed invalid : bool) (t : Tuple) : Tuple :=
  Tup (t_xmin t) (t_cmin t) (t_xmax t) (t_field4 t) (XMIN_COMMITTED t || committed) (XMIN_INVALID t || invalid)
    (XMAX_COMMITTED t) (XMAX_INVALID t) (IS_LOCKED t) (XMAX_IS_MULTI t) (MOVED_OFF t) (MOVED_IN t) (t_row t).

Definition set_xmax (committed invalid : bool) (t : Tuple) : Tuple :=
  Tup (t_xmin t) (t_cmin t) (t_xmax t) (t_field4 t) (XMIN_COMMITTED t) (XMIN_INVALID t)
    (XMAX_COMMITTED t || committed) (XMAX_INVALID t || invalid) (IS_LOCKED t) (XMAX_IS_MULTI t) (MOVED_OFF t)
    (MOVED_IN t) (t_row t).

Inductive HTSS_Reason : Type :=
| HeapTupleVisible
| HeapTupleNotInsertedYet
| HeapTupleAlreadyDeleted
| HeapTupleCurrentTransaction
| HeapTupleInvalid.

Section Visibility.

Context (topmost : Z -> Z).

(** What the backend can ask about transactions. *)
Context (IsCurrentTransactionId IsInProgress DidCommit DidAbort : Z -> bool).

(** The part of [HeapTupleSatisfiesSnapshot] about the inserting transaction;
    [inr] for a transaction that has committed. *)
Definition XminStatus (t : Tuple) (curcid : Z) : res (bool * HTSS_Reason * Tuple + Tuple) :=
  if XMIN_COMMITTED t then Ok (inr t)
  else if XMIN_INVALID t then Ok (inl (false, HeapTupleInvalid, t))
  else if MOVED_OFF t then
    if IsCurrentTransactionId (t_xvac t) then Ok (inl (false, HeapTupleCurrentTransaction, t))
    else if negb (IsInProgress (t_xvac t)) then
      if DidCommit (t_xvac t) then Ok (inl (false, HeapTupleInvalid, set_xmin false true t))
      else Ok (inr (set_xmin true false t))
    else Ok (inr t)
  else if MOVED_IN t then
    if negb (IsCurrentTransactionId (t_xvac t)) then
      if IsInProgress (t_xvac t) then Ok (inl (false, HeapTupleInvalid, t))
      else if DidCommit (t_xvac t) then Ok (inr (set_xmin true false t))
      else Ok (inl (false, HeapTupleInvalid, set_xmin false true t))
    else Ok (inr t)
  else if IsCurrentTransactionId (t_xmin t) then
    if curcid <=? t_cmin t then Ok (inl (false, HeapTupleCurrentTransaction, t))
    else if XMAX_INVALID t then Ok (inl (true, HeapTupleCurrentTransaction, t))
    else if IS_LOCKED t then Ok (inl (true, HeapTupleCurrentTransaction, t))
    else
      Assert (negb (XMAX_IS_MULTI t));;
      if DidAbort (t_xmax t) then Ok (inl (true, HeapTupleCurrentTransaction, set_xmax false true t))
      else
        Assert (IsCurrentTransactionId (t_xmax t));;
        Ok (inl (curcid <=? t_cmax t, HeapTupleCurrentTransaction, t))
  else if IsInProgress (t_xmin t) then Ok (inl (false, HeapTupleInvalid, t))
  else if DidCommit (t_xmin t) then Ok (inr (set_xmin true false t))
  else Ok (inl (false, HeapTupleInvalid, set_xmin false true t)).

(** Whether the deleting transaction counts; the rest of the function. *)
Definition XmaxStatus (t : Tuple) (snapshot : Snapshot) (curcid : Z) : res (bool * HTSS_Reason * Tuple) :=
  let last t := if XidInSnapshot topmost (t_xmax t) snapshot then Ok (true, HeapTupleVisible, t)
                else Ok (false, HeapTupleAlreadyDeleted, t) in
  if XMAX_INVALID t then Ok (true, HeapTupleVisible, t)
  else if IS_LOCKED t then Ok (true, HeapTupleVisible, t)
  else if XMAX_IS_MULTI t then Assert (IS_LOCKED t);; Ok (true, HeapTupleVisible, t)
  else if XMAX_COMMITTED t then last t
  else if IsCurrentTransactionId (t_xmax t) then Ok (curcid <=? t_cmax t, HeapTupleCurrentTransaction, t)
  else if IsInProgress (t_xmax t) then Ok (true, HeapTupleVisible, t)
  else if negb (DidCommit (t_xmax t)) then Ok (true, HeapTupleVisible, set_xmax false true t)
  else last (set_xmax true false t).

(** Returns whether the tuple is visible, why, and the tuple with its new hint
    bits. *)
Definition HeapTupleSatisfiesSnapshot (t : Tuple) (snapshot : Snapshot) (curcid : Z) :
    res (bool * HTSS_Reason * Tuple) :=
  r ← XminStatus t curcid;
  match r with
  | inl r => Ok r
  | inr t =>
    if XidInSnapshot topmost (t_xmin t) snapshot then Ok (false, HeapTupleNotInsertedYet, t)
    else XmaxStatus t snapshot curcid
  end.

(** ** Gathering the interval *)

Definition ValidityIntervalExcludeInvisibleTuple (db : Database) (inv : ValidityInterval) (reason : HTSS_Reason)
    (t : Tuple) (now : Z) : res ValidityInterval :=
  if negb (XSTAMP_IS_VALID now) then Ok inv
  else
    match reason with
    | HeapTupleVisible => Fault AssertFail
    | HeapTupleCurrentTransaction => Ok inv
    | HeapTupleInvalid => Ok inv
    | HeapTupleNotInsertedYet =>
      x ← XidToXStamp db (t_xmin t);
      if negb (x =? InvalidXStamp) then Assert (now <=? x);; Ok (ValidityIntervalExclude inv x now)
      else Fault AssertFail
    | HeapTupleAlreadyDeleted =>
      x ← XidToXStamp db (t_xmax t);
      if negb (x =? InvalidXStamp) then Assert (x <=? now);; Ok (ValidityIntervalExclude inv x now)
      else Ok inv
    end.

Definition GetHeapTupleValidity (db : Database) (t : Tuple) : res ValidityInterval :=
  x ← XidToXStamp db (t_xmin t);
  let start := if XSTAMP_IS_VALID x then x else XStampMinusInfinity in
  if XMAX_INVALID t || IS_LOCKED t then Ok (VInt start XStampInfinity)
  else
    y ← XidToXStamp db (t_xmax t);
    Ok (VInt start (if XSTAMP_IS_VALID y then y else XStampInfinity)).

(** What a slot of the executor holds. *)
Inductive TupleTableSlot : Type :=
| SlotEmpty
| SlotMinimal (t_valint : ValidityInterval) (values : list Z)
| SlotPhysical (tuple : Tuple)
| SlotVirtual (tts_valint : ValidityInterval) (values : list Z).

Definition GetTupleValidity (db : Database) (slot : TupleTableSlot) : res ValidityInterval :=
  match slot with
  | SlotEmpty => Ok InfiniteValidityInterval
  | SlotMinimal t_valint _ => Ok t_valint
  | SlotPhysical t => Assert (negb (XMIN_INVALID t));; GetHeapTupleValidity db t
  | SlotVirtual tts_valint _ => Ok tts_valint
  end.

Definition slot_values (slot : TupleTableSlot) : list Z :=
  match slot with
  | SlotEmpty => []
  | SlotMinimal _ values => values
  | SlotPhysical t => t_row t
  | SlotVirtual _ values => values
  end.

(** The executor's account of the query. *)
Record EState : Type := ES {
  es_snapshot : Snapshot;
  es_curcid : Z;
  es_xstamp : Z;
  es_invalidityMask : ValidityInterval;
  es_tupleValidity : ValidityInterval
}.

Definition set_mask (mask : ValidityInterval) (es : EState) : EState :=
  ES (es_snapshot es) (es_curcid es) (es_xstamp es) mask (es_tupleValidity es).
Definition set_tuple (v : ValidityInterval) (es : EState) : EState :=
  ES (es_snapshot es) (es_curcid es) (es_xstamp es) (es_invalidityMask es) v.

(** A forward scan without keys: the tuples of the current page behind
    [rs_cindex], and the pages behind [rs_cblock]; an unused item is [None]. *)
Record HeapScan : Type := HScan {
  rs_vistuples : list Tuple;
  rs_pages : list (list (option Tuple))
}.

(** The tuples of a page that are visible, or all of them. *)
Fixpoint heapgetpage (snapshot : Snapshot) (curcid : Z) (page : list (option Tuple)) (ignoreVis : bool) :
    res (list Tuple) :=
  match page with
  | [] => Ok []
  | None :: page => heapgetpage snapshot curcid page ignoreVis
  | Some t :: page =>
    '(valid, _, t) ← (if ignoreVis then Ok (true, HeapTupleVisible, t) else HeapTupleSatisfiesSnapshot t snapshot curcid);
    l ← heapgetpage snapshot curcid page ignoreVis;
    Ok (if (valid : bool) then t :: l else l)
  end.

(** [while (linesleft > 0)] *)
Fixpoint PageLoop (db : Database) (snapshot : Snapshot) (curcid now : Z) (makeInvalidityMask timeQual : bool)
    (vistuples : list Tuple) (inv : ValidityInterval) : res (option Tuple * list Tuple * ValidityInterval) :=
  match vistuples with
  | [] => Ok (None, [], inv)
  | t :: vistuples =>
    '(valid, reason, t) ←
      (if makeInvalidityMask && timeQual then HeapTupleSatisfiesSnapshot t snapshot curcid
       else Ok (true, HeapTupleVisible, t));
    if (valid : bool) then Ok (Some t, vistuples, inv)
    else
      inv ← ValidityIntervalExcludeInvisibleTuple db inv reason t now;
      PageLoop db snapshot curcid now makeInvalidityMask timeQual vistuples inv
  end.

(** [heapgettup_pagemode] from its position on. *)
Fixpoint PagesLoop (db : Database) (snapshot : Snapshot) (curcid now : Z) (makeInvalidityMask timeQual : bool)
    (vistuples : list Tuple) (pages : list (list (option Tuple))) (inv : ValidityInterval) :
    res (option Tuple * HeapScan * ValidityInterval) :=
  '(t, vistuples, inv) ← PageLoop db snapshot curcid now makeInvalidityMask timeQual vistuples inv;
  match t, pages with
  | Some t, _ => Ok (Some t, HScan vistuples pages, inv)
  | None, [] => Ok (None, HScan [] [], inv)
  | None, page :: pages =>
    vistuples ← heapgetpage snapshot curcid page makeInvalidityMask;
    PagesLoop db snapshot curcid now makeInvalidityMask timeQual vistuples pages inv
  end.

(** With a mask to fill in. *)
Definition heapgettup_pagemode (db : Database) (scan : HeapScan) (snapshot : Snapshot) (curcid now : Z)
    (timeQual : bool) : res (option Tuple * HeapScan * ValidityInterval) :=
  PagesLoop db snapshot curcid now (negb (now =? InvalidXStamp)) timeQual (rs_vistuples scan) (rs_pages scan)
    InfiniteValidityInterval.

Definition SeqNext (db : Database) (es : EState) (scan : HeapScan) (timeQual : bool) :
    res (EState * HeapScan * TupleTableSlot) :=
  '(t, scan, inv) ← heapgettup_pagemode db scan (es_snapshot es) (es_curcid es) (es_xstamp es) timeQual;
  let es := set_mask (ValidityIntervalIntersect (es_invalidityMask es) inv) es in
  Ok (es, scan, match t with Some t => SlotPhysical t | None => SlotEmpty end).

(** The scan node: the qualification and the target list, which gives one row
    for each. *)
Record ScanState : Type := SState {
  qual : option (list Z -> bool);
  ps_ProjInfo : option (list Z -> list Z)
}.

Definition ExecQual (q : option (list Z -> bool)) (values : list Z) : bool :=
  match q with Some q => q values | None => true end.

Definition ExecProject (db : Database) (proj : list Z -> list Z) (scantuple : TupleTableSlot) : res TupleTableSlot :=
  v ← GetTupleValidity db scantuple;
  Ok (SlotVirtual (ValidityIntervalIntersect InfiniteValidityInterval v) (proj (slot_values scantuple))).

(** The check of visibility that was put off. *)
Definition LateTimeQual (db : Database) (es : EState) (slot : TupleTableSlot) : res (EState * bool * TupleTableSlot) :=
  match slot with
  | SlotPhysical t =>
    '(valid, reason, t) ← HeapTupleSatisfiesSnapshot t (es_snapshot es) (es_curcid es);
    if (valid : bool) then Ok (es, true, SlotPhysical t)
    else
      mask ← ValidityIntervalExcludeInvisibleTuple db (es_invalidityMask es) reason t (es_xstamp es);
      Ok (set_mask mask es, false, SlotPhysical t)
  | _ => Fault NullDeref
  end.

(** [for (;;)] of [ExecScan] *)
Fixpoint ScanLoop (fuel : nat) (db : Database) (node : ScanState) (lateTimeQual : bool) (es : EState)
    (scan : HeapScan) : res (EState * HeapScan * TupleTableSlot) :=
  match fuel with
  | O => Fault NoFuel
  | S fuel =>
    '(es, scan, slot) ← SeqNext db es scan (negb lateTimeQual);
    match slot with
    | SlotEmpty => Ok (es, scan, SlotEmpty)
    | _ =>
      if ExecQual (qual node) (slot_values slot) then
        '(es, valid, slot) ← (if lateTimeQual then LateTimeQual db es slot else Ok (es, true, slot));
        if (valid : bool) then
          match ps_ProjInfo node with
          | Some proj => slot ← ExecProject db proj slot; Ok (es, scan, slot)
          | None => Ok (es, scan, slot)
          end
        else ScanLoop fuel db node lateTimeQual es scan
      else ScanLoop fuel db node lateTimeQual es scan
    end
  end.

(** [ExecScan] with [SeqNext], asked to check visibility late. *)
Definition ExecScan (fuel : nat) (db : Database) (node : ScanState) (es : EState) (scan : HeapScan) :
    res (EState * HeapScan * TupleTableSlot) :=
  let lateTimeQual := XSTAMP_IS_VALID (es_xstamp es) in
  match qual node, ps_ProjInfo node with
  | None, None => SeqNext db es scan true
  | _, _ => ScanLoop fuel db node lateTimeQual es scan
  end.

(** [ExecutePlan] for a query that is one scan: the rows it sends. *)
Fixpoint ExecutePlan (fuel : nat) (db : Database) (node : ScanState) (es : EState) (scan : HeapScan) :
    res (EState * list (list Z)) :=
  match fuel with
  | O => Fault NoFuel
  | S fuel' =>
    '(es, scan, slot) ← ExecScan fuel db node es scan;
    match slot with
    | SlotEmpty => Ok (es, [])
    | _ =>
      es ← (if XSTAMP_IS_VALID (es_xstamp es) then
              tupVal ← GetTupleValidity db slot;
              Ok (set_tuple (ValidityIntervalIntersect tupVal (es_tupleValidity es)) es)
            else Ok es);
      '(es, rows) ← ExecutePlan fuel' db node es scan;
      Ok (es, slot_values slot :: rows)
    end
  end.

(** What a transaction remembers. *)
Record TransactionState : Type := TState {
  xstamp : Z;
  latestXstampAtStart : Z
}.

Definition SetLatestXStampAtTransactionStartIfUnset (ts : TransactionState) (x : Z) : TransactionState :=
  if negb (XSTAMP_IS_VALID (latestXstampAtStart ts)) then TState (xstamp ts) x else ts.

Definition ExecutorStart (db : Database) (ts : TransactionState) (snapshot : Snapshot) (curcid : Z) :
    TransactionState * EState :=
  (SetLatestXStampAtTransactionStartIfUnset ts (GetNextXStamp db),
   ES snapshot curcid (xstamp ts) InfiniteValidityInterval InfiniteValidityInterval).

(** The final interval, and whether it is unbounded. *)
Definition FinalValidity (db : Database) (ts : TransactionState) (es : EState) : ValidityInterval * bool :=
  let final := ValidityIntervalIntersect (es_invalidityMask es) (es_tupleValidity es) in
  let unbounded := vend final =? XStampInfinity in
  let final := if unbounded then VInt (vstart final) (latestXstampAtStart ts) else final in
  let final := if vstart final =? XStampMinusInfinity then VInt (u32 (GetEarliestSavedSnapshotID db - 1)) (vend final)
               else final in
  (final, unbounded).

(** Start and run a query with a stamp. *)
Definition ExecutorRun (db : Database) (ts : TransactionState) (snapshot : Snapshot) (curcid : Z) (node : ScanState)
    (pages : list (list (option Tuple))) : res (TransactionState * ValidityInterval * bool * list (list Z)) :=
  let '(ts, es) := ExecutorStart db ts snapshot curcid in
  '(es, rows) ← ExecutePlan (S (length (concat pages))) db node es (HScan [] pages);
  let '(final, unbounded) := FinalValidity db ts es in
  Ok (ts, final, unbounded, rows).

End Visibility.

(** ** Meaning *)

(** When a transaction committed; those that did before the history began count
    as the oldest. *)
Definition stamp (before : Z -> bool) (commits : list (Z * Z)) (xid : Z) : option Z :=
  if before xid then Some XStampMinusInfinity
  else let x := log_lookup commits xid in if XSTAMP_IS_VALID x then Some x else None.

(** A pin sees the commits up to it. *)
Definition sees (st : Z -> option Z) (p xid : Z) : bool :=
  match st xid with Some x => x <=? p | None => false end.

Definition deleter (t : Tuple) : option Z := if XMAX_INVALID t || IS_LOCKED t then None else Some (t_xmax t).

Definition deleted_at (st : Z -> option Z) (p : Z) (t : Tuple) : bool :=
  match deleter t with Some x => sees st p x | None => false end.

Definition visible_at (st : Z -> option Z) (p : Z) (t : Tuple) : bool :=
  sees st p (t_xmin t) && negb (deleted_at st p t).

Definition target (node : ScanState) (values : list Z) : list Z :=
  match ps_ProjInfo node with Some proj => proj values | None => values end.

(** The rows of the query at a pin. *)
Definition row_at (st : Z -> option Z) (node : ScanState) (p : Z) (t : Tuple) : option (list Z) :=
  if ExecQual (qual node) (t_row t) && visible_at st p t then Some (target node (t_row t)) else None.

Definition rows_at (st : Z -> option Z) (node : ScanState) (tuples : list Tuple) (p : Z) : list (list Z) :=
  omap (row_at st node p) tuples.

(** The tuples of a relation. *)
Definition used (pages : list (list (option Tuple))) : list Tuple := concat (map (omap id) pages).

(** What the backend finds out about a transaction is right: one in progress has
    no stamp, and the others have one, or committed before all that have, exactly
    if they committed.  (It is not so for the ids that commit without a stamp.) *)
Definition status_ok (IsInProgress DidCommit : Z -> bool) (st : Z -> option Z) (x : Z) : Prop :=
  if IsInProgress x then st x = None else DidCommit x = bool_decide (is_Some (st x)).

(** Versions of rows as a transaction finds them that has not written: none is its
    own or was moved, the bits are right, and so is the status of those who
    inserted or deleted it. *)
Record tuple_ok (IsCurrent IsInProgress DidCommit : Z -> bool) (st : Z -> option Z) (t : Tuple) : Prop := {
  ok_moved : MOVED_OFF t = false /\ MOVED_IN t = false;
  ok_inserter : IsCurrent (t_xmin t) = false;
  ok_deleter x : deleter t = Some x -> IsCurrent x = false;
  ok_committed : XMIN_COMMITTED t = true -> is_Some (st (t_xmin t));
  ok_invalid : XMIN_INVALID t = true -> st (t_xmin t) = None;
  ok_deleted x : XMAX_COMMITTED t = true -> deleter t = Some x -> is_Some (st x);
  ok_multi : XMAX_IS_MULTI t = true -> IS_LOCKED t = true;
  ok_status x : t_xmin t = x \/ deleter t = Some x -> status_ok IsInProgress DidCommit st x
}.

(** How the versions change: new ones are put among the old ones, and old ones are
    deleted, by transactions without a stamp so far.  Those that vacuum takes away
    are still counted. *)
Inductive grows (st : Z -> option Z) : list Tuple -> list Tuple -> Prop :=
| grows_nil : grows st [] []
| grows_keep t t' l l' :
    t_xmin t' = t_xmin t -> t_row t' = t_row t ->
    (deleter t' = deleter t \/
     (forall x, deleter t = Some x -> st x = None) /\ forall x, deleter t' = Some x -> st x = None) ->
    grows st l l' -> grows st (t :: l) (t' :: l')
| grows_new t' l l' : st (t_xmin t') = None -> grows st l l' -> grows st l (t' :: l').

(** Every later commit that inserts or deletes a version of interest has tags that
    affect those of the query. *)
Definition covered (node : ScanState) (tags : list (list Z)) (tuples : list Tuple) (h : list db_event) : Prop :=
  forall t x y ctags, t ∈ tuples -> ExecQual (qual node) (t_row t) = true -> t_xmin t = x \/ deleter t = Some x ->
    EvCommit x y ctags ∈ h -> hits_tags ctags tags = true.

(** ** Intervals around a snapshot *)

(** The interval contains the pin of snapshot [k]; it begins with a stamp from the
    bound of the saved snapshots on, if anywhere, and ends with one that is taken. *)
Definition around (hor next k : Z) (v : ValidityInterval) : Prop :=
  vstart v < k <= vend v /\ (vstart v = XStampMinusInfinity \/ hor <= vstart v) /\
  (vend v = XStampInfinity \/ vend v < next).

Definition within (v w : ValidityInterval) : Prop := vstart w <= vstart v /\ vend v <= vend w.

#[global] Instance within_preorder : PreOrder within.
Proof. split; [split; lia|]. intros u v w [] []. split; lia. Qed.

Lemma Intersect_within v w : within (ValidityIntervalIntersect v w) v /\ within (ValidityIntervalIntersect v w) w.
Proof.
  unfold within, ValidityIntervalIntersect. cbn. destruct (Z.ltb_spec (vstart w) (vstart v)), (Z.ltb_spec (vend v) (vend w)); lia.
Qed.

Lemma Intersect_around hor next k v w : FirstXStamp <= hor -> next < XStampInfinity ->
  around hor next k v -> around hor next k w -> around hor next k (ValidityIntervalIntersect v w).
Proof.
  unfold around, ValidityIntervalIntersect, FirstXStamp, XStampMinusInfinity. cbn. intros.
  destruct (Z.ltb_spec (vstart w) (vstart v)), (Z.ltb_spec (vend v) (vend w)); lia.
Qed.

Lemma Intersect_least u v w : within u v -> within u w -> within u (ValidityIntervalIntersect v w).
Proof. unfold within, ValidityIntervalIntersect. cbn. intros. destruct (_ <? _), (_ <? _); lia. Qed.

Lemma Infinite_around hor next k : FirstXStamp <= k < XStampInfinity -> around hor next k InfiniteValidityInterval.
Proof. unfold around, FirstXStamp. cbn. unfold XStampMinusInfinity. lia. Qed.

(** Over the interval, down to the bound of the saved snapshots, the version is
    visible as it is to snapshot [k]. *)
Definition steady (st : Z -> option Z) (hor k : Z) (v : ValidityInterval) (t : Tuple) : Prop :=
  forall p, vstart v <= p -> hor - 1 <= p -> p < vend v -> visible_at st p t = visible_at st (k - 1) t.

Lemma steady_within st hor k v w t : steady st hor k v t -> within w v -> steady st hor k w t.
Proof. intros H [] p ???. apply H; lia. Qed.

#[export] Hint Resolve steady_within Intersect_around Intersect_least : txc.
#[export] Hint Extern 1 (within _ _) => reflexivity : txc.
#[export] Hint Extern 2 (within _ _) => etransitivity : txc.

Lemma Exclude_spec hor next k inv x :
  around hor next k inv -> hor <= x < next -> let r := ValidityIntervalExclude inv x k in
  around hor next k r /\ within r inv /\ (x < k -> x <= vstart r) /\ (k <= x -> vend r <= x).
Proof.
  unfold around, within, ValidityIntervalExclude. intros H.
  destruct (Z.ltb_spec x k); cbn; [destruct (Z.ltb_spec x (vstart inv))|destruct (Z.ltb_spec (vend inv) x)]; lia.
Qed.

(** ** A scan at a saved snapshot *)

Section Query.

Context (topmost : Z -> Z) (scan_tags : list (list Z) -> list (list Z)).
Context (IsCurrent IsInProgress DidCommit DidAbort : Z -> bool) (before : Z -> bool).
Hypothesis scan_perm : forall l, scan_tags l ≡ₚ l.

Context (m : CommitMap) (db : Database) (h : list db_event) (k : Z) (s : Snapshot).
Hypothesis Hrun : db_run topmost scan_tags m db h.
Hypothesis Hsaved : SSnapHash db !! k = Some s.
Hypothesis Hbefore : forall x, before x = true -> XidInSnapshot topmost x s = false /\ forall y, (x, y) ∉ commits_of h.

Notation st := (stamp before (commits_of h)).

Notation HTSS := (HeapTupleSatisfiesSnapshot topmost IsCurrent IsInProgress DidCommit DidAbort).
Notation ok := (tuple_ok IsCurrent IsInProgress DidCommit st).
Notation hor := (horizon db).
Notation next := (NextXStamp (SSnapShared db)).
Notation around_k := (around hor next k).

Lemma saved_range : FirstXStamp <= k <= next /\ next < XStampInfinity /\
  FirstXStamp <= hor <= k.
Proof using All.
  destruct (db_run_inv topmost scan_tags scan_perm m db h Hrun) as (taken & HI & _). pose proof (si_saved _ _ HI _ _ Hsaved).
  pose proof (si_bound _ _ HI). pose proof (horizon_le _ _ _ _ HI Hsaved). pose proof (si_earliest _ _ HI) as He.
  unfold horizon in *. destruct (XSTAMP_IS_VALID _).
  - destruct He as [[s' Hs'] _]. pose proof (si_saved _ _ HI _ _ Hs'). lia.
  - rewrite He in Hsaved. by rewrite lookup_empty in Hsaved.
Qed.

Lemma earliest_horizon : GetEarliestSavedSnapshotID db = hor.
Proof using All.
  destruct (db_run_inv topmost scan_tags scan_perm m db h Hrun) as (taken & HI & _). pose proof (si_earliest _ _ HI) as He.
  unfold horizon, GetEarliestSavedSnapshotID in *. destruct (XSTAMP_IS_VALID _); [done|]. by rewrite He, lookup_empty in Hsaved.
Qed.

Lemma commit_range x y : (x, y) ∈ commits_of h -> FirstXStamp <= y < next.
Proof using All.
  destruct (db_run_inv topmost scan_tags scan_perm m db h Hrun) as (taken & HI & _). intros (i & Hi)%list_elem_of_lookup.
  pose proof (si_stamps _ _ HI _ _ Hi). pose proof (si_next _ _ HI). apply lookup_lt_Some in Hi. cbn in *. lia.
Qed.

Lemma lookup_in log x : XSTAMP_IS_VALID (log_lookup log x) = true -> (x, log_lookup log x) ∈ log.
Proof using.
  induction log as [|[y z] log IH]; [done|]. cbn [log_lookup fst snd]. destruct (Z.eqb_spec y x) as [->|]; [by left|right; auto].
Qed.

(** A stamp is that of a commit, or of a transaction before all of them. *)
Lemma stamp_cases x y : st x = Some y -> (y = XStampMinusInfinity /\ before x = true) \/ (x, y) ∈ commits_of h.
Proof using All.
  unfold stamp. destruct (before x); [intros [= <-]; by left|]. destruct (XSTAMP_IS_VALID _) eqn:E; [|done].
  intros [= <-]. right. by apply lookup_in.
Qed.

Lemma stamp_range x y : st x = Some y -> XStampMinusInfinity <= y < next.
Proof using All.
  pose proof saved_range. unfold FirstXStamp, XStampMinusInfinity in *.
  intros [[-> _]|Hc%commit_range]%stamp_cases; unfold XStampMinusInfinity, FirstXStamp in *; lia.
Qed.

Lemma stamp_snapshot x y : st x = Some y -> XidInSnapshot topmost x s = (k <=? y).
Proof using All.
  intros [[-> Hb]|Hc]%stamp_cases.
  - rewrite (proj1 (Hbefore x Hb)). symmetry. apply Z.leb_gt. pose proof saved_range. unfold FirstXStamp, XStampMinusInfinity in *. lia.
  - by apply (db_run_sees topmost scan_tags scan_perm m db h Hrun).
Qed.

(** The stamp is found from the bound of the saved snapshots on. *)
Lemma XidToXStamp_stamp x :
  XidToXStamp db x = Ok (match st x with Some y => if hor <=? y then y else InvalidXStamp | None => InvalidXStamp end).
Proof using All.
  destruct (lookup_spec topmost scan_tags scan_perm m db h x Hrun) as [-> Hin]. f_equal. pose proof saved_range as (R1 & R2 & R3).
  destruct (db_run_inv topmost scan_tags scan_perm m db h Hrun) as (taken & HI & _).
  set (log := log_expire (commits_of h) hor) in *.
  assert (Hnone : (forall y, (x, y) ∈ commits_of h -> y < hor) -> log_lookup log x = InvalidXStamp).
  { intros Hlt. destruct (XSTAMP_IS_VALID (log_lookup log x)) eqn:E.
    - apply lookup_in in E. apply log_expire_in in E as [E He]; [|apply stamps_increasing, (si_stamps _ _ HI)]. apply Hlt in E.
      cbn in He. lia.
    - unfold XSTAMP_IS_VALID in E. by apply negb_false_iff, Z.eqb_eq in E. }
  unfold stamp. destruct (before x) eqn:Eb.
  - unfold FirstXStamp, XStampMinusInfinity in *. rewrite (proj2 (Z.leb_gt _ _)) by lia. apply Hnone. intros y Hy.
    by destruct (proj2 (Hbefore x Eb) y).
  - destruct (XSTAMP_IS_VALID (log_lookup (commits_of h) x)) eqn:Ev.
    + apply lookup_in in Ev. set (y := log_lookup (commits_of h) x) in *. destruct (Z.leb_spec hor y) as [Hy|Hy].
      * assert (Hl : (x, y) ∈ log) by (apply log_expire_in; [apply stamps_increasing, (si_stamps _ _ HI)|done]).
        eapply (commits_once topmost scan_tags m db h Hrun x); [|exact Ev].
        destruct (log_expire_suffix (commits_of h) hor) as [l El]. rewrite El. apply elem_of_app. right. fold log.
        apply lookup_in, log_lookup_valid; [|by exists y]. apply Forall_forall. intros c Hc.
        apply log_expire_in in Hc as [_ Hc]; [|apply stamps_increasing, (si_stamps _ _ HI)]. unfold FirstXStamp, InvalidXStamp in *. lia.
      * apply Hnone. intros z Hz. by rewrite (commits_once topmost scan_tags m db h Hrun x z y Hz Ev).
    + apply Hnone. intros y Hy. exfalso. assert (XSTAMP_IS_VALID (log_lookup (commits_of h) x) = true); [|congruence].
      apply log_lookup_valid; [|by exists y]. apply Forall_forall. intros [a b] Hc%commit_range. cbn. unfold FirstXStamp, InvalidXStamp in *. lia.
Qed.

(** What [HeapTupleSatisfiesSnapshot] finds out about a version, and the hint bits
    it leaves. *)
Definition outcome (t : Tuple) (valid : bool) (reason : HTSS_Reason) (t' : Tuple) : Prop :=
  t_xmin t' = t_xmin t /\ t_row t' = t_row t /\ valid = visible_at st (k - 1) t /\
  if valid then XMIN_INVALID t' = false /\
    match deleter t' with Some x => deleter t = Some x | None => forall x, deleter t = Some x -> st x = None end
  else
    match reason with
    | HeapTupleNotInsertedYet => exists x, st (t_xmin t) = Some x /\ k <= x
    | HeapTupleAlreadyDeleted => exists x, deleter t = Some (t_xmax t') /\ st (t_xmax t') = Some x /\ x < k
    | HeapTupleInvalid => st (t_xmin t) = None
    | _ => False
    end.

Lemma sees_snapshot x y : st x = Some y -> sees st (k - 1) x = negb (XidInSnapshot topmost x s).
Proof using All.
  intros E. rewrite (stamp_snapshot x y E). unfold sees. rewrite E. destruct (Z.leb_spec k y), (Z.leb_spec y (k - 1)); lia || done.
Qed.

Lemma sees_none p x : st x = None -> sees st p x = false.
Proof using. unfold sees. by intros ->. Qed.

(** The inserting transaction. *)
Lemma XminStatus_spec t curcid : ok t -> exists r, XminStatus IsCurrent IsInProgress DidCommit DidAbort t curcid = Ok r /\
  match r with
  | inl (v, reason, t') => v = false /\ reason = HeapTupleInvalid /\ st (t_xmin t) = None /\ t_xmin t' = t_xmin t /\ t_row t' = t_row t
  | inr t' => is_Some (st (t_xmin t)) /\ exists b, t' = set_xmin b false t
  end.
Proof using All.
  intros Ht. unfold XminStatus. destruct (ok_moved _ _ _ _ _ Ht) as [-> ->]. rewrite (ok_inserter _ _ _ _ _ Ht).
  assert (E0 : t = set_xmin false false t) by (destruct t; unfold set_xmin; cbn; by rewrite !orb_false_r).
  destruct (XMIN_COMMITTED t) eqn:Ec.
  { eexists. split; [done|]. split; [by apply (ok_committed _ _ _ _ _ Ht)|eauto]. }
  destruct (XMIN_INVALID t) eqn:Ei.
  { eexists. split; [done|]. split_and!; try done. by apply (ok_invalid _ _ _ _ _ Ht). }
  pose proof (ok_status _ _ _ _ _ Ht (t_xmin t) (or_introl eq_refl)) as Hs. unfold status_ok in Hs. destruct (IsInProgress (t_xmin t)).
  { eexists. split; [done|]. by split_and!. }
  rewrite Hs. case_bool_decide as E; (eexists; split; [done|]).
  - split; [done|]. by exists true.
  - split_and!; try done. by apply eq_None_not_Some.
Qed.

Lemma set_xmax_id t : set_xmax false false t = t.
Proof using. destruct t. unfold set_xmax. cbn. by rewrite !orb_false_r. Qed.

(** The deleting transaction, once the inserting one is seen. *)
Lemma XmaxStatus_spec t b curcid : ok t -> sees st (k - 1) (t_xmin t) = true ->
  exists v reason t', XmaxStatus topmost IsCurrent IsInProgress DidCommit (set_xmin b false t) s curcid = Ok (v, reason, t') /\
    outcome t v reason t'.
Proof using All.
  intros Ht Hsee. assert (Hinv : XMIN_INVALID t = false).
  { destruct (XMIN_INVALID t) eqn:E; [|done]. by rewrite (sees_none _ _ (ok_invalid _ _ _ _ _ Ht E)) in Hsee. }
  pose proof (ok_multi _ _ _ _ _ Ht) as Hm. pose proof (ok_deleter _ _ _ _ _ Ht) as Hcur. pose proof (ok_deleted _ _ _ _ _ Ht) as Hdel.
  pose proof (fun x => ok_status _ _ _ _ _ Ht x) as Hst.
  unfold XmaxStatus, outcome, visible_at. rewrite Hsee. unfold deleted_at, deleter in *. cbn.
  destruct (XMAX_INVALID t) eqn:Ei; cbn in *.
  { do 3 eexists. split; [done|]. cbn. rewrite Ei, Hinv. by split_and!. }
  destruct (IS_LOCKED t) eqn:El; cbn in *.
  { do 3 eexists. split; [done|]. cbn. rewrite Ei, El, Hinv. by split_and!. }
  destruct (XMAX_IS_MULTI t); [by specialize (Hm eq_refl)|].
  assert (Hlast : forall c, is_Some (st (t_xmax t)) -> exists v reason t', (if XidInSnapshot topmost (t_xmax t) s
      then Ok (true, HeapTupleVisible, set_xmax c false (set_xmin b false t))
      else Ok (false, HeapTupleAlreadyDeleted, set_xmax c false (set_xmin b false t))) = Ok (v, reason, t') /\ outcome t v reason t').
  { intros c [y Hy]. unfold outcome, visible_at. rewrite Hsee. unfold deleted_at, deleter. cbn. rewrite Ei, El. cbn.
    rewrite (sees_snapshot _ _ Hy). destruct (XidInSnapshot topmost (t_xmax t) s) eqn:Ein; (do 3 eexists; split; [done|]); cbn.
    - rewrite Ei, El, Hinv. by split_and!.
    - split_and!; try done. exists y. split_and!; try done. rewrite (stamp_snapshot _ _ Hy) in Ein. by apply Z.leb_gt. }
  unfold outcome, visible_at in Hlast. rewrite Hsee in Hlast. unfold deleted_at, deleter in Hlast. rewrite Ei, El in Hlast. cbn in Hlast.
  destruct (XMAX_COMMITTED t) eqn:Ec.
  { specialize (Hlast false (Hdel _ eq_refl eq_refl)). by rewrite set_xmax_id in Hlast. }
  rewrite (Hcur _ eq_refl). pose proof (Hst (t_xmax t) (or_intror eq_refl)) as Hs. unfold status_ok in Hs. destruct (IsInProgress (t_xmax t)).
  { do 3 eexists. split; [done|]. cbn. rewrite Ei, El, Hinv, (sees_none _ _ Hs). by split_and!. }
  rewrite Hs. case_bool_decide as E; cbn; [apply (Hlast true E)|]. do 3 eexists. split; [done|]. cbn.
  apply eq_None_not_Some in E. rewrite Ei, El, Hinv, (sees_none _ _ E). split_and!; try done. by intros ? [= <-].
Qed.

Lemma HTSS_spec t curcid : ok t -> exists v reason t', HTSS t s curcid = Ok (v, reason, t') /\ outcome t v reason t'.
Proof using All.
  intros Ht. unfold HeapTupleSatisfiesSnapshot. destruct (XminStatus_spec t curcid Ht) as (r & -> & Hr). run.
  destruct r as [[[v reason] t1]|t1]; cbn.
  { destruct Hr as (-> & -> & Hn & E1 & E2). do 3 eexists. split; [done|]. split_and!; try done.
    unfold visible_at. by rewrite sees_none. }
  destruct Hr as ([x Hx] & b & ->). cbn [t_xmin set_xmin]. pose proof (sees_snapshot _ _ Hx) as Hsee.
  destruct (XidInSnapshot topmost (t_xmin t) s) eqn:Ein; [|by apply XmaxStatus_spec].
  do 3 eexists. split; [done|]. split_and!; try done; [unfold visible_at; by rewrite Hsee|].
  exists x. split; [done|]. rewrite (stamp_snapshot _ _ Hx) in Ein. by apply Z.leb_le.
Qed.

Lemma sees_stamp x y p : st x = Some y -> sees st p x = (y <=? p).
Proof using. unfold sees. by intros ->. Qed.

(** A version the snapshot does not see keeps to the mask. *)
Lemma ExcludeInvisible_spec inv t reason t' : outcome t false reason t' -> around_k inv ->
  exists inv', ValidityIntervalExcludeInvisibleTuple db inv reason t' k = Ok inv' /\
    around_k inv' /\ within inv' inv /\ steady st hor k inv' t.
Proof using All.
  pose proof saved_range as (R1 & R2 & R3). unfold FirstXStamp in *. intros (E1 & _ & Hv & Hr) Ha.
  unfold ValidityIntervalExcludeInvisibleTuple, steady. rewrite <- Hv. rewrite (proj2 (valid_iff k)) by (unfold InvalidXStamp; lia).
  cbn [negb]. destruct reason; try done.
  - destruct Hr as (x & Hx & Hk). pose proof (stamp_range _ _ Hx). rewrite E1, XidToXStamp_stamp, Hx, (proj2 (Z.leb_le _ _)), bind_ret_l by lia.
    rewrite (proj2 (Z.eqb_neq _ _)), (proj2 (Z.leb_le _ _)) by (unfold InvalidXStamp; lia). cbn [negb Assert]. run.
    destruct (Exclude_spec _ _ k inv x Ha ltac:(lia)) as (A & W & _ & He). eexists. split_and!; [done..|]. intros p _ _ Hp. specialize (He Hk).
    unfold visible_at. by rewrite (sees_stamp _ _ _ Hx), (proj2 (Z.leb_gt _ _)) by lia.
  - destruct Hr as (x & Hd & Hx & Hk). pose proof (stamp_range _ _ Hx). rewrite XidToXStamp_stamp, Hx, bind_ret_l.
    assert (Hsteady : forall p, x <= p -> visible_at st p t = false).
    { intros p Hp. unfold visible_at, deleted_at. rewrite Hd, (sees_stamp _ _ _ Hx), (proj2 (Z.leb_le _ _)) by done. apply andb_false_r. }
    destruct (Z.leb_spec hor x) as [Hh|Hh].
    + rewrite (proj2 (Z.eqb_neq _ _)), (proj2 (Z.leb_le _ _)) by (unfold InvalidXStamp; lia). cbn [negb Assert]. run.
      destruct (Exclude_spec _ _ k inv x Ha ltac:(lia)) as (A & W & He & _). eexists. split_and!; [done..|]. intros p Hp _ _. apply Hsteady.
      specialize (He Hk). lia.
    + eexists. split_and!; [done..|]. intros p _ Hp _. apply Hsteady. lia.
  - eexists. split_and!; [done..|]. intros p _ _ _. unfold visible_at. by rewrite (sees_none _ _ Hr).
Qed.

(** A version the snapshot sees is valid for the time it was there. *)
Lemma GetHeapTupleValidity_spec t reason t' : outcome t true reason t' ->
  exists v, GetHeapTupleValidity db t' = Ok v /\ around_k v /\ steady st hor k v t.
Proof using All.
  pose proof saved_range as (R1 & R2 & R3). unfold FirstXStamp in *. intros (E1 & _ & Hv & _ & Hd).
  unfold GetHeapTupleValidity, steady, around. rewrite <- Hv. symmetry in Hv. unfold visible_at in Hv. apply andb_prop in Hv as [Hs Hn].
  apply negb_true_iff in Hn. unfold sees in Hs. destruct (st (t_xmin t)) as [y|] eqn:Hy; [|done]. apply Z.leb_le in Hs.
  rewrite E1, !XidToXStamp_stamp, Hy, !bind_ret_l. set (a := if XSTAMP_IS_VALID _ then _ else XStampMinusInfinity).
  assert (Ha : (a < k /\ (a = XStampMinusInfinity \/ hor <= a)) /\ forall p, a <= p -> hor - 1 <= p -> sees st p (t_xmin t) = true).
  { assert (Hp : forall p, y <= p -> sees st p (t_xmin t) = true).
    { intros p Hp. rewrite (sees_stamp _ _ _ Hy). by apply Z.leb_le. }
    unfold a. destruct (Z.leb_spec hor y) as [Hh|Hh].
    - rewrite (proj2 (valid_iff y)) by (unfold InvalidXStamp; lia). split; [lia|auto].
    - cbn. split; [unfold XStampMinusInfinity; lia|]. intros p _ ?. apply Hp. lia. }
  clearbody a. unfold deleter in Hd at 1. destruct (XMAX_INVALID t' || IS_LOCKED t') eqn:Ef.
  - eexists. split; [done|]. cbn. split; [lia|]. intros p H1 H2 _. unfold visible_at, deleted_at. rewrite (proj2 Ha p) by lia.
    destruct (deleter t) as [x|]; [|done]. by rewrite (sees_none _ _ (Hd x eq_refl)).
  - eexists. split; [done|]. cbn. unfold visible_at, deleted_at in *. rewrite Hd in *.
    destruct (st (t_xmax t')) as [z|] eqn:Hz.
    + pose proof (stamp_range _ _ Hz). rewrite (sees_stamp _ _ _ Hz) in Hn. apply Z.leb_gt in Hn. rewrite (proj2 (Z.leb_le _ _)) by lia.
      rewrite (proj2 (valid_iff z)) by (unfold InvalidXStamp; lia). split; [lia|]. intros p H1 H2 H3.
      by rewrite (proj2 Ha p), (sees_stamp _ _ _ Hz), (proj2 (Z.leb_gt _ _)) by lia.
    + cbn. split; [lia|]. intros p H1 H2 _. by rewrite (proj2 Ha p), (sees_none _ _ Hz) by lia.
Qed.

Lemma both_around v w : around_k v -> around_k w -> around_k (ValidityIntervalIntersect v w).
Proof using All. pose proof saved_range as (_ & R2 & R3). apply Intersect_around; lia. Qed.

(** *** The scan *)

Definition ahead (scan : HeapScan) : list Tuple := rs_vistuples scan ++ used (rs_pages scan).

(** A version that was passed over, with what the mask says of it. *)
Definition passed (inv : ValidityInterval) (t : Tuple) : Prop :=
  visible_at st (k - 1) t = false /\ steady st hor k inv t.

Lemma passed_within inv inv' t : passed inv t -> within inv' inv -> passed inv' t.
Proof using. intros [H1 H2] H. split; eauto with txc. Qed.

(** The next version of a list: one that the snapshot sees when [timeQual], and
    those before it passed over. *)
Definition next_of (timeQual : bool) (l : list Tuple) (t : option Tuple) (rest : list Tuple) (inv : ValidityInterval) : Prop :=
  exists pre, Forall (passed inv) pre /\
    match t with
    | Some t' => exists t0, l = pre ++ t0 :: rest /\ if timeQual then exists reason, outcome t0 true reason t' else t' = t0
    | None => l = pre /\ rest = []
    end.

Lemma next_of_cons timeQual u l t rest inv : passed inv u -> next_of timeQual l t rest inv -> next_of timeQual (u :: l) t rest inv.
Proof using.
  intros Hu (pre & Hp & H). exists (u :: pre). split; [by constructor|]. destruct t as [t|].
  - destruct H as (t0 & -> & H). by exists t0.
  - destruct H as [-> ->]. done.
Qed.

Notation PageL := (PageLoop topmost IsCurrent IsInProgress DidCommit DidAbort).
Notation PagesL := (PagesLoop topmost IsCurrent IsInProgress DidCommit DidAbort).

Lemma PageLoop_spec curcid tq vis : forall inv, Forall ok vis -> around_k inv ->
  exists t rest inv', PageL db s curcid k true tq vis inv = Ok (t, rest, inv') /\ around_k inv' /\ within inv' inv /\
    next_of tq vis t rest inv'.
Proof using All.
  induction vis as [|u vis IH]; intros inv Hok Ha; cbn [PageLoop].
  { do 3 eexists. split_and!; [done|done|done|]. by exists []. }
  apply Forall_cons in Hok as [Hu Hok]. destruct tq; cbn [andb].
  - destruct (HTSS_spec u curcid Hu) as (v & reason & u' & -> & Ho). run. destruct v.
    { do 3 eexists. split_and!; [done|done|done|]. exists []. split; [constructor|]. exists u. split; [done|]. by exists reason. }
    destruct (ExcludeInvisible_spec inv u reason u' Ho Ha) as (inv1 & -> & A1 & W1 & S1). run.
    destruct (IH inv1 Hok A1) as (t & rest & inv' & -> & A2 & W2 & Hn). do 3 eexists. split_and!; [done|done|by etransitivity|].
    apply next_of_cons; [|done]. eapply passed_within; [|exact W2]. split; [|done]. by destruct Ho as (_ & _ & <- & _).
  - run. do 3 eexists. split_and!; [done|done|done|]. exists []. split; [constructor|]. by exists u.
Qed.

Lemma heapgetpage_all curcid page :
  heapgetpage topmost IsCurrent IsInProgress DidCommit DidAbort s curcid page true = Ok (omap id page).
Proof using.
  induction page as [|[t|] page IH]; [done| |]; cbn [heapgetpage omap list_omap id]; [|by rewrite IH].
  rewrite bind_ret_l, IH, bind_ret_l. done.
Qed.

Lemma PagesLoop_spec curcid tq pages : forall vis inv, Forall ok (vis ++ used pages) -> around_k inv ->
  exists t scan inv', PagesL db s curcid k true tq vis pages inv = Ok (t, scan, inv') /\ around_k inv' /\ within inv' inv /\
    next_of tq (vis ++ used pages) t (ahead scan) inv'.
Proof using All.
  induction pages as [|page pages IH]; intros vis inv Hok Ha; pose proof Hok as [Hv Hp]%Forall_app; cbn [PagesLoop].
  all: destruct (PageLoop_spec curcid tq vis inv Hv Ha) as (t & rest & inv1 & -> & A1 & W1 & pre & Hpre & Hn); run.
  all: destruct t as [t|]; [destruct Hn as (t0 & -> & Ht); do 3 eexists; split_and!; [done|done|done|]; exists pre; split; [done|];
    exists t0; split; [by rewrite <- app_assoc|done]|].
  - destruct Hn as [-> _]. do 3 eexists. split_and!; [done|done|done|]. exists pre. split; [done|]. split; [apply app_nil_r|done].
  - destruct Hn as [-> _]. rewrite heapgetpage_all, bind_ret_l. unfold used in *. cbn [map concat] in *.
    destruct (IH (omap id page) inv1 Hp A1) as (t & scan & inv' & -> & A2 & W2 & pre' & Hpre' & Hn').
    do 3 eexists. split_and!; [done|done|by etransitivity|]. exists (pre ++ pre'). split.
    { apply Forall_app. split; [|done]. eapply Forall_impl; [exact Hpre|]. intros u Hu. by eapply passed_within. }
    destruct t as [t|]; [destruct Hn' as (t0 & E & Ht); exists t0|destruct Hn' as [E Ht]]; split; try done; by rewrite E, <- ?app_assoc.
Qed.

(** The account of a query that runs at the snapshot. *)
Definition running (es : EState) : Prop :=
  es_snapshot es = s /\ es_xstamp es = k /\ around_k (es_invalidityMask es) /\ around_k (es_tupleValidity es).

Lemma valid_k : (k =? InvalidXStamp) = false /\ XSTAMP_IS_VALID k = true.
Proof using All.
  pose proof saved_range as (R1 & _). unfold FirstXStamp in *. split; [apply Z.eqb_neq|apply valid_iff]; unfold InvalidXStamp; lia.
Qed.

Lemma SeqNext_spec es scan tq : running es -> Forall ok (ahead scan) ->
  exists es' scan' t, SeqNext topmost IsCurrent IsInProgress DidCommit DidAbort db es scan tq =
      Ok (es', scan', match t with Some t => SlotPhysical t | None => SlotEmpty end) /\
    running es' /\ es_tupleValidity es' = es_tupleValidity es /\ within (es_invalidityMask es') (es_invalidityMask es) /\
    next_of tq (ahead scan) t (ahead scan') (es_invalidityMask es').
Proof using All.
  intros (E1 & E2 & A1 & A2) Hok. pose proof saved_range as (R1 & R2 & _). unfold SeqNext, heapgettup_pagemode. rewrite E1, E2.
  rewrite (proj1 valid_k). cbn [negb].
  destruct (PagesLoop_spec (es_curcid es) tq (rs_pages scan) (rs_vistuples scan) InfiniteValidityInterval Hok) as
    (t & scan' & inv & -> & A & _ & pre & Hp & Hn); [apply Infinite_around; lia|]. run.
  destruct (Intersect_within (es_invalidityMask es) inv) as [W1 W2]. do 3 eexists. split; [done|].
  split_and!; try done; [split_and!; try done; by apply both_around|]. exists pre. split; [|done].
  eapply Forall_impl; [exact Hp|]. intros u Hu. by eapply passed_within.
Qed.

(** A version whose row the query does not return. *)
Definition skipped (node : ScanState) (inv : ValidityInterval) (t : Tuple) : Prop :=
  ExecQual (qual node) (t_row t) = true -> passed inv t.

(** A slot with a row of the query. *)
Definition found (node : ScanState) (t : Tuple) (slot : TupleTableSlot) : Prop :=
  ExecQual (qual node) (t_row t) = true /\ visible_at st (k - 1) t = true /\ slot_values slot = target node (t_row t) /\
  slot <> SlotEmpty /\ exists v, GetTupleValidity db slot = Ok v /\ around_k v /\ steady st hor k v t.

(** What one call of [ExecScan] does. *)
Definition scan_result (node : ScanState) (es : EState) (scan : HeapScan) (r : res (EState * HeapScan * TupleTableSlot)) : Prop :=
  exists es' scan' slot, r = Ok (es', scan', slot) /\
    running es' /\ es_tupleValidity es' = es_tupleValidity es /\ within (es_invalidityMask es') (es_invalidityMask es) /\
    exists pre, Forall (skipped node (es_invalidityMask es')) pre /\
      match slot with
      | SlotEmpty => ahead scan = pre
      | _ => exists t, ahead scan = pre ++ t :: ahead scan' /\ found node t slot
      end.

Lemma Physical_validity t reason t' : outcome t true reason t' ->
  exists v, GetTupleValidity db (SlotPhysical t') = Ok v /\ around_k v /\ steady st hor k v t.
Proof using All.
  intros H. destruct (GetHeapTupleValidity_spec t reason t' H) as (v & E & Hv). exists v. split; [|done].
  cbn [GetTupleValidity]. destruct H as (_ & _ & _ & -> & _). done.
Qed.

Lemma found_slot node t reason t' : outcome t true reason t' -> ExecQual (qual node) (t_row t) = true ->
  exists slot, (match ps_ProjInfo node with
    | Some proj => slot ← ExecProject db proj (SlotPhysical t'); Ok slot
    | None => Ok (SlotPhysical t')
    end) = Ok slot /\ found node t slot.
Proof using All.
  intros H Hq. destruct (Physical_validity t reason t' H) as (v & Ev & A & S). destruct H as (_ & Er & Hv & _).
  unfold found, target. destruct (ps_ProjInfo node) as [proj|].
  - unfold ExecProject. rewrite Ev, !bind_ret_l. eexists. split; [done|]. cbn. rewrite Er. split_and!; try done.
    pose proof saved_range as (R1 & R2 & _). destruct (Intersect_within InfiniteValidityInterval v) as [_ W].
    eexists. split_and!; [done|apply both_around; [apply Infinite_around; lia|done]|by eapply steady_within].
  - eexists. split; [done|]. split_and!; try done. eauto.
Qed.

Lemma scan_result_skip node es scan es1 scan1 pre r :
  ahead scan = pre ++ ahead scan1 -> Forall (skipped node (es_invalidityMask es1)) pre ->
  es_tupleValidity es1 = es_tupleValidity es -> within (es_invalidityMask es1) (es_invalidityMask es) ->
  scan_result node es1 scan1 r -> scan_result node es scan r.
Proof using.
  intros Ea Ht E1 W1 (es' & scan' & slot & -> & Hr & E2 & W2 & pre' & Hp & H). do 3 eexists. split; [done|].
  split_and!; [done|congruence|by etransitivity|]. exists (pre ++ pre'). split.
  { apply Forall_app. split; [|done]. eapply Forall_impl; [exact Ht|]. intros u Hu Hq. eapply passed_within; [by apply Hu|done]. }
  rewrite Ea. destruct slot; [by rewrite H|..]; destruct H as (t0 & -> & Hf); exists t0; by rewrite <- app_assoc.
Qed.

Lemma passed_skipped node inv pre : Forall (passed inv) pre -> Forall (skipped node inv) pre.
Proof using. intros H. eapply Forall_impl; [exact H|]. by intros u Hu _. Qed.

(** A slot at the end of a call. *)
Lemma scan_result_found node es scan es' scan' slot t pre :
  running es' -> es_tupleValidity es' = es_tupleValidity es -> within (es_invalidityMask es') (es_invalidityMask es) ->
  Forall (passed (es_invalidityMask es')) pre -> ahead scan = pre ++ t :: ahead scan' -> found node t slot ->
  scan_result node es scan (Ok (es', scan', slot)).
Proof using.
  intros Hr E W Hp Ea Hf. do 3 eexists. split; [done|]. split_and!; try done. exists pre. split; [by eapply passed_skipped|].
  destruct slot; [by destruct Hf as (_ & _ & _ & [] & _)|..]; eauto.
Qed.

Lemma ScanLoop_spec fuel node : forall es scan, running es -> Forall ok (ahead scan) -> (length (ahead scan) < fuel)%nat ->
  scan_result node es scan (ScanLoop topmost IsCurrent IsInProgress DidCommit DidAbort fuel db node true es scan).
Proof using All.
  induction fuel as [|fuel IH]; intros es scan Hr Hok Hf; [lia|]. cbn [ScanLoop negb].
  destruct (SeqNext_spec es scan false Hr Hok) as (es1 & scan1 & t & -> & Hr1 & E1 & W1 & pre & Hp & Hn). run.
  destruct t as [t|].
  2: { do 3 eexists. split; [done|]. split_and!; try done. exists pre. split; [by eapply passed_skipped|by destruct Hn]. }
  destruct Hn as (t0 & Ea & ->). rewrite Ea in Hok, Hf. apply Forall_app in Hok as [_ [Ht0 Hok]%Forall_cons].
  rewrite length_app in Hf. cbn in Hf. cbn [slot_values].
  assert (Hskip : forall es2, running es2 -> es_tupleValidity es2 = es_tupleValidity es1 ->
    within (es_invalidityMask es2) (es_invalidityMask es1) -> skipped node (es_invalidityMask es2) t0 ->
    scan_result node es scan (ScanLoop topmost IsCurrent IsInProgress DidCommit DidAbort fuel db node true es2 scan1)).
  { intros es2 Hr2 E2 W2 Hs. eapply (scan_result_skip _ _ _ es2 scan1 (pre ++ [t0])); [by rewrite Ea, <- app_assoc| |congruence|
      by etransitivity|apply IH; [done|done|lia]].
    apply Forall_app. split; [|by constructor]. apply passed_skipped. eapply Forall_impl; [exact Hp|]. intros u Hu.
    by eapply passed_within. }
  destruct (ExecQual (qual node) (t_row t0)) eqn:Eq; [|apply Hskip; [done|done|done|unfold skipped; congruence]].
  destruct Hr1 as (Es & Ex & A1 & A2). cbn [LateTimeQual]. rewrite Es, Ex.
  destruct (HTSS_spec t0 (es_curcid es1) Ht0) as (v & reason & t' & -> & Ho). run. destruct v.
  - run. destruct (found_slot node t0 reason t' Ho Eq) as (slot & Eslot & Hfound). destruct (ps_ProjInfo node) as [proj|].
    + apply bind_Ok in Eslot as (slot' & -> & [= ->]). run. by eapply scan_result_found.
    + injection Eslot as <-. by eapply scan_result_found.
  - destruct (ExcludeInvisible_spec _ t0 reason t' Ho A1) as (inv & -> & A & W & S). run.
    apply Hskip; [by split_and!|done|done|]. intros _. split; [|done]. by destruct Ho as (_ & _ & <- & _).
Qed.

Lemma ExecScan_spec fuel node es scan : running es -> Forall ok (ahead scan) -> (length (ahead scan) < fuel)%nat ->
  scan_result node es scan (ExecScan topmost IsCurrent IsInProgress DidCommit DidAbort fuel db node es scan).
Proof using All.
  intros Hr Hok Hf. pose proof (ScanLoop_spec fuel node es scan Hr Hok Hf) as Hloop. unfold ExecScan.
  replace (XSTAMP_IS_VALID (es_xstamp es)) with true by (destruct Hr as (_ & -> & _); by rewrite (proj2 valid_k)).
  destruct (qual node) as [q|] eqn:Eq; [done|]. destruct (ps_ProjInfo node) as [proj|] eqn:Ep; [done|].
  destruct (SeqNext_spec es scan true Hr Hok) as (es1 & scan1 & t & -> & Hr1 & E1 & W1 & pre & Hp & Hn). destruct t as [t|].
  - destruct Hn as (t0 & Ea & reason & Ho). eapply scan_result_found; [done..|]. pose proof (Physical_validity t0 reason t Ho).
    destruct Ho as (_ & Er & Hv & _). unfold found, target. rewrite Eq, Ep. by split_and!.
  - do 3 eexists. split; [done|]. split_and!; try done. exists pre. split; [by eapply passed_skipped|by destruct Hn].
Qed.

(** The interval over which the account knows of no change. *)
Definition account (es : EState) : ValidityInterval := ValidityIntervalIntersect (es_invalidityMask es) (es_tupleValidity es).

(** What [ExecutePlan] does with the versions ahead: the rows at the pin, and an
    account that holds for all that matter. *)
Definition plan_result (node : ScanState) (es : EState) (l : list Tuple) (r : res (EState * list (list Z))) : Prop :=
  exists es', r = Ok (es', rows_at st node l (k - 1)) /\ running es' /\
    within (es_invalidityMask es') (es_invalidityMask es) /\ within (es_tupleValidity es') (es_tupleValidity es) /\
    Forall (fun t => ExecQual (qual node) (t_row t) = true -> steady st hor k (account es') t) l.

Lemma account_within es : within (account es) (es_invalidityMask es) /\ within (account es) (es_tupleValidity es).
Proof using. apply Intersect_within. Qed.

Lemma skipped_rows node v pre : Forall (skipped node v) pre -> rows_at st node pre (k - 1) = [].
Proof using.
  induction 1 as [|u pre Hu _ IH]; [done|]. unfold rows_at in *. cbn [omap list_omap]. rewrite IH.
  unfold row_at. destruct (ExecQual _ _) eqn:Eq; [|done]. by rewrite (proj1 (Hu Eq)).
Qed.

Lemma skipped_steady node v w pre : Forall (skipped node v) pre -> within w v ->
  Forall (fun t => ExecQual (qual node) (t_row t) = true -> steady st hor k w t) pre.
Proof using. intros H W. eapply Forall_impl; [exact H|]. intros u Hu Hq. eapply steady_within; [apply (Hu Hq)|done]. Qed.

Notation Plan := (ExecutePlan topmost IsCurrent IsInProgress DidCommit DidAbort).

(** The rest of the loop once a row is found. *)
Lemma plan_row node fuel es scan slot pre t l :
  running es -> Forall (skipped node (es_invalidityMask es)) pre -> found node t slot -> l = pre ++ t :: ahead scan ->
  (forall es1, running es1 -> plan_result node es1 (ahead scan) (Plan fuel db node es1 scan)) ->
  plan_result node es l (
      es ← (if XSTAMP_IS_VALID (es_xstamp es) then
              tupVal ← GetTupleValidity db slot;
              Ok (set_tuple (ValidityIntervalIntersect tupVal (es_tupleValidity es)) es)
            else Ok es);
      '(es, rows) ← Plan fuel db node es scan;
      Ok (es, slot_values slot :: rows)).
Proof using All.
  intros (Es & Ex & A1 & A2) Hp (Hq & Hvis & Eval & _ & v & Ev & Av & Sv) -> IH. rewrite Ex, (proj2 valid_k), Ev, !bind_ret_l.
  destruct (IH (set_tuple (ValidityIntervalIntersect v (es_tupleValidity es)) es)) as (es' & -> & Hr' & W1 & W2 & Hall).
  { split_and!; try done. by apply both_around. }
  run. cbn in W1, W2. destruct (Intersect_within v (es_tupleValidity es)) as [I1 I2].
  assert (W3 : within (account es') (es_invalidityMask es)) by (etransitivity; [apply (proj1 (account_within es'))|done]).
  exists es'. split_and!; [|done|done|by etransitivity|].
  - do 2 f_equal. unfold rows_at at 2. rewrite omap_app. fold (rows_at st node pre (k - 1)). rewrite (skipped_rows _ _ _ Hp).
    cbn [omap list_omap app]. assert (row_at st node (k - 1) t = Some (slot_values slot)) as ->; [|done].
    unfold row_at. by rewrite Hq, Hvis, Eval.
  - apply Forall_app. split; [by eapply skipped_steady|]. constructor; [|done]. intros _. eapply steady_within; [exact Sv|].
    etransitivity; [apply (proj2 (account_within es'))|]. by etransitivity.
Qed.

Lemma plan_result_within node es es1 l r : within (es_invalidityMask es1) (es_invalidityMask es) ->
  es_tupleValidity es1 = es_tupleValidity es -> plan_result node es1 l r -> plan_result node es l r.
Proof using.
  intros W E (es' & -> & Hr & W1 & W2 & H). exists es'. rewrite <- E. split_and!; try done. by etransitivity.
Qed.

Lemma ExecutePlan_spec node fuel : forall es scan, running es -> Forall ok (ahead scan) -> (length (ahead scan) < fuel)%nat ->
  plan_result node es (ahead scan) (Plan fuel db node es scan).
Proof using All.
  induction fuel as [|fuel IH]; intros es scan Hr Hok Hf; [lia|]. cbn [ExecutePlan].
  destruct (ExecScan_spec (S fuel) node es scan Hr Hok Hf) as (es1 & scan1 & slot & -> & Hr1 & E1 & W1 & pre & Hp & Hs).
  run. apply (plan_result_within node es es1); [done|done|].
  assert (Hrow : forall t, ahead scan = pre ++ t :: ahead scan1 -> forall es2, running es2 ->
    plan_result node es2 (ahead scan1) (Plan fuel db node es2 scan1)).
  { intros t Ea es2 Hr2. rewrite Ea in Hok, Hf. rewrite length_app in Hf. cbn in Hf. apply Forall_app in Hok as [_ [_ Hok]%Forall_cons].
    apply IH; [done|done|lia]. }
  destruct slot as [|v values|t|v values];
    [|by destruct Hs as (u & Ea & Hu); apply (plan_row node fuel es1 scan1 _ pre u (ahead scan) Hr1 Hp Hu Ea), (Hrow u Ea)..].
  exists es1. rewrite Hs, (skipped_rows _ _ _ Hp). split_and!; [done..|]. eapply skipped_steady; [exact Hp|]. apply account_within.
Qed.

Lemma used_length pages : (length (used pages) <= length (concat pages))%nat.
Proof using.
  assert (H : forall page : list (option Tuple), (length (omap id page) <= length page)%nat).
  { induction page as [|[t|] page IH]; cbn in *; lia. }
  induction pages as [|page pages IH]; [done|]. unfold used in *. cbn. rewrite !length_app. specialize (H page). lia.
Qed.

Lemma visible_at_late p q t : next - 1 <= p -> next - 1 <= q ->
  visible_at st p t = visible_at st q t.
Proof using All.
  intros Hp Hq. assert (H : forall x, sees st p x = sees st q x).
  { intros x. unfold sees. destruct (st x) as [y|] eqn:E; [|done]. apply stamp_range in E.
    by rewrite !(proj2 (Z.leb_le _ _)) by lia. }
  unfold visible_at, deleted_at. rewrite H. destruct (deleter t); [by rewrite H|done].
Qed.

(** What the query has to say of the stamps known when it runs. *)
Lemma ExecutorRun_spec ts curcid node pages :
  xstamp ts = k -> (XSTAMP_IS_VALID (latestXstampAtStart ts) = true -> k <= latestXstampAtStart ts <= next) ->
  Forall ok (used pages) ->
  exists ts' v unbounded, ExecutorRun topmost IsCurrent IsInProgress DidCommit DidAbort db ts s curcid node pages =
      Ok (ts', v, unbounded, rows_at st node (used pages) (k - 1)) /\
    1 <= vstart v < k /\ k <= vend v <= next /\
    Forall (fun t => ExecQual (qual node) (t_row t) = true -> forall p, vstart v <= p -> p < vend v \/ unbounded = true ->
      visible_at st p t = visible_at st (k - 1) t) (used pages).
Proof using All.
  intros Ets Hl Hok. pose proof saved_range as (R1 & R2 & R3). unfold ExecutorRun, ExecutorStart.
  set (L := latestXstampAtStart _) in Hl. set (ts' := SetLatestXStampAtTransactionStartIfUnset _ _).
  assert (HL : k <= latestXstampAtStart ts' <= next).
  { unfold ts', SetLatestXStampAtTransactionStartIfUnset, GetNextXStamp. fold L. destruct (XSTAMP_IS_VALID L); cbn; [by apply Hl|lia]. }
  clearbody ts'. rewrite Ets.
  destruct (ExecutePlan_spec node (S (length (concat pages))) (ES s curcid k InfiniteValidityInterval InfiniteValidityInterval) (HScan [] pages))
    as (es & -> & (_ & _ & A1 & A2) & W1 & W2 & Hall); [|done|pose proof (used_length pages); change (ahead _) with (used pages); lia|].
  { split_and!; try done; apply Infinite_around; lia. }
  run. pose proof (both_around _ _ A1 A2) as Ha. fold (account es) in Ha.
  assert (HW : within (account es) InfiniteValidityInterval) by (etransitivity; [apply (proj1 (account_within es))|done]).
  unfold FinalValidity. fold (account es). set (unb := vend (account es) =? XStampInfinity). rewrite earliest_horizon.
  set (a := vstart (account es)) in *. set (e := vend (account es)) in *.
  unfold around, within in *. cbn in HW. unfold FirstXStamp, XStampMinusInfinity in *. change (ahead _) with (used pages) in *.
  assert (Eu : u32 (hor - 1) = hor - 1) by (apply u32_small; unfold XStampInfinity in *; lia).
  set (a' := if a =? 1 then hor - 1 else a). set (e' := if unb then latestXstampAtStart ts' else e).
  exists ts', (VInt a' e'), unb. split_and!.
  - unfold a', e'. rewrite Eu. destruct unb; cbn [vstart vend]; fold a e; by destruct (a =? 1).
  - cbn. unfold a'. destruct (Z.eqb_spec a 1); lia.
  - cbn. unfold a'. destruct (Z.eqb_spec a 1); lia.
  - cbn. unfold e'. destruct unb; lia.
  - cbn. unfold e'. destruct unb eqn:Eu'; [lia|]. apply Z.eqb_neq in Eu'. lia.
  - cbn. eapply Forall_impl; [exact Hall|]. intros t Ht Hq p Hp Hpe. specialize (Ht Hq).
    assert (Hp' : a <= p /\ hor - 1 <= p) by (unfold a' in Hp; destruct (Z.eqb_spec a 1); lia).
    destruct (Z.lt_ge_cases p e) as [He|He]; [apply Ht; lia|].
    assert (unb = true) as Hu by (unfold e' in Hpe; destruct unb; [done|lia]). unfold unb in Hu. apply Z.eqb_eq in Hu.
    rewrite <- (Ht (e - 1)) by lia. apply visible_at_late; lia.
Qed.

(** *** Later *)

Section Later.

Context (db' : Database) (h2 : list db_event).
Hypothesis Hrun' : db_run topmost scan_tags m db' (h ++ h2).
Hypothesis Hbefore' : forall x, before x = true -> forall y, (x, y) ∉ commits_of h2.

Notation st' := (stamp before (commits_of (h ++ h2))).

Lemma commits_app : commits_of (h ++ h2) = commits_of h ++ commits_of h2.
Proof using. unfold commits_of. by rewrite map_app, concat_app. Qed.

Lemma lookup_app log1 log2 x : Forall (fun c => snd c <> InvalidXStamp) log1 ->
  log_lookup (log1 ++ log2) x = if XSTAMP_IS_VALID (log_lookup log1 x) then log_lookup log1 x else log_lookup log2 x.
Proof using.
  induction 1 as [|[y z] log1 Hc _ IH]; [done|]. cbn [app log_lookup fst snd]. destruct (y =? x); [|done].
  by rewrite (proj2 (valid_iff z)).
Qed.

(** Stamps do not change, and new ones come after all others. *)
Lemma stamp_later x : match st x with
  | Some y => st' x = Some y
  | None => st' x = None \/ exists y tags, st' x = Some y /\ next <= y /\ EvCommit x y tags ∈ h2
  end.
Proof using All.
  unfold stamp. destruct (before x) eqn:Eb; [done|]. rewrite commits_app, lookup_app.
  2: { apply Forall_forall. intros [a b] Hc%commit_range. cbn. unfold FirstXStamp, InvalidXStamp in *. lia. }
  destruct (XSTAMP_IS_VALID (log_lookup (commits_of h) x)) eqn:E; [by rewrite E|].
  destruct (XSTAMP_IS_VALID (log_lookup (commits_of h2) x)) eqn:E2; [|by left]. right. apply lookup_in in E2.
  set (y := log_lookup (commits_of h2) x) in *. destruct (db_run_inv topmost scan_tags scan_perm m db h Hrun) as (? & HI & _).
  destruct (db_run_inv topmost scan_tags scan_perm m db' _ Hrun') as (? & HI' & _).
  clearbody y. pose proof E2 as (i & Hi)%list_elem_of_lookup. unfold commits_of in E2.
  apply list_elem_of_In, in_concat in E2 as (l & Hin & Hl%list_elem_of_In). apply in_map_iff in Hin as (e & <- & Hin%list_elem_of_In).
  destruct e as [| |xid z tags| |]; cbn in Hl; try by apply elem_of_nil in Hl. apply list_elem_of_singleton in Hl as [= -> ->].
  exists z, tags. split_and!; [done| |done].
  pose proof (si_stamps _ _ HI' (length (commits_of h) + i)%nat (xid, z)) as Hs. rewrite commits_app, lookup_app_r in Hs by lia.
  replace (length (commits_of h) + i - length (commits_of h))%nat with i in Hs by lia. specialize (Hs Hi). cbn in Hs.
  rewrite (si_next _ _ HI). lia.
Qed.

(** A transaction without a stamp so far is not seen at the pin later either. *)
Definition unseen (p x : Z) : Prop := st x = None -> sees st' p x = false.

Lemma sees_later p x : unseen p x -> sees st' p x = sees st p x.
Proof using All.
  intros H. pose proof (stamp_later x) as Hx. unfold unseen, sees in *. destruct (st x) as [y|]; [by rewrite Hx|by apply H].
Qed.

Lemma rows_later node l l' p : grows st l l' ->
  (forall t, t ∈ l' -> ExecQual (qual node) (t_row t) = true -> unseen p (t_xmin t) /\ forall x, deleter t = Some x -> unseen p x) ->
  rows_at st' node l' p = rows_at st node l p.
Proof using All.
  intros Hg. induction Hg as [|t t' l l' Ex Er Hd _ IH|t' l l' Hn _ IH]; intros H; [done| |].
  all: specialize (IH (fun u Hu => H u (list_elem_of_further _ _ _ Hu))); specialize (H t' (list_elem_of_here _ _));
    unfold rows_at in *; cbn [omap list_omap].
  - assert (row_at st' node p t' = row_at st node p t) as ->; [|by rewrite IH]. unfold row_at. rewrite Er in *.
    destruct (ExecQual _ _); [|done]. destruct (H eq_refl) as [H1 H2]. unfold visible_at. rewrite (sees_later _ _ H1), Ex.
    assert (deleted_at st' p t' = deleted_at st p t) as ->; [|done]. unfold deleted_at. destruct Hd as [E|[D1 D2]].
    + rewrite <- E. destruct (deleter t') as [x|] eqn:Ed; [|done]. by apply sees_later, H2.
    + transitivity false; [|symmetry].
      * destruct (deleter t') as [x|]; [|done]. by apply (H2 x), D2.
      * destruct (deleter t) as [x|]; [|done]. by apply sees_none, D1.
  - assert (row_at st' node p t' = None) as ->; [|done]. unfold row_at. destruct (ExecQual _ _); [|done].
    destruct (H eq_refl) as [H1 _]. unfold visible_at. by rewrite (H1 Hn).
Qed.

(** Without an announcement for the query's tags, the rows of interest stay. *)
Lemma unseen_quiet node tags l' p : covered node tags l' h2 ->
  (p < next \/
   exists e, e <= next /\ quiet (announcements scan_tags (h ++ h2)) (e - 1) p tags) ->
  forall t, t ∈ l' -> ExecQual (qual node) (t_row t) = true -> unseen p (t_xmin t) /\ forall x, deleter t = Some x -> unseen p x.
Proof using All.
  intros Hc Hp t Ht Hq.
  assert (H : forall x, t_xmin t = x \/ deleter t = Some x -> unseen p x); [|split; [|intros x ?]; apply H; auto].
  intros x Hx Hn. pose proof (stamp_later x) as Hl. rewrite Hn in Hl. destruct Hl as [E|(y & ctags & E & Hy & Hin)]; unfold sees; rewrite E; [done|].
  apply Z.leb_gt. destruct Hp as [?|(e & He & Hquiet)]; [lia|]. destruct (Z.lt_ge_cases p y) as [|Hpy]; [done|]. exfalso.
  pose proof (Hc t x y ctags Ht Hq Hx Hin) as Hh.
  assert (Hne : ctags <> []).
  { intros ->. apply existsb_exists in Hh as (? & _ & Hh). done. }
  destruct (announced_commit topmost scan_tags scan_perm (h ++ h2) x y ctags) as (tags' & Ha & _ & Htags);
    [apply elem_of_app; by right|done|].
  assert (hits_tags tags' tags = true) by (eapply hits_tags_more; [|exact Hh]; intros; by apply Htags).
  rewrite (Hquiet y tags' Ha) in *; [done|lia].
Qed.

Lemma query_later node tags pages l' a e unb :
  a <= e <= next ->
  Forall (fun t => ExecQual (qual node) (t_row t) = true -> forall p, a <= p -> p < e \/ unb = true ->
    visible_at st p t = visible_at st (k - 1) t) (used pages) ->
  grows st (used pages) l' -> covered node tags l' h2 ->
  valid_over (announcements scan_tags (h ++ h2)) (fun p => rows_at st' node l' p = rows_at st node (used pages) (k - 1))
    (Interval a e unb) tags.
Proof using All.
  intros He Hsteady Hg Hc.
  assert (Hrows : forall p, a <= p -> p < e \/ unb = true -> rows_at st node (used pages) p = rows_at st node (used pages) (k - 1)).
  { intros p Hp Hpe. clear Hg. unfold rows_at. induction Hsteady as [|t l Ht _ IH]; [done|]. cbn [omap list_omap]. rewrite IH.
    assert (row_at st node p t = row_at st node (k - 1) t) as ->; [|done]. unfold row_at. destruct (ExecQual _ _); [|done].
    by rewrite (Ht eq_refl p Hp Hpe). }
  split; cbn; [intros p Hp|intros Hunb p Hp Hquiet]; (rewrite (rows_later node (used pages) l' p Hg); [apply Hrows; auto; lia|]).
  - apply (unseen_quiet node tags l' p Hc). left. lia.
  - apply (unseen_quiet node tags l' p Hc). right. exists e. split; [lia|done].
Qed.

End Later.

End Query.

(** ** Rows without stamps *)

(** A row whose inserter committed without a stamp after the pin fails the scan's
    assertion, and one whose deleter did so counts as valid for ever. *)
Lemma quiet_rows topmost scan_tags m db h t : (forall l, scan_tags l ≡ₚ l) -> db_run topmost scan_tags m db h ->
  (EvQuiet (t_xmin t) ∈ h -> forall inv now, XSTAMP_IS_VALID now = true ->
     ValidityIntervalExcludeInvisibleTuple db inv HeapTupleNotInsertedYet t now = Fault AssertFail) /\
  (EvQuiet (t_xmax t) ∈ h -> exists v, GetHeapTupleValidity db t = Ok v /\ vend v = XStampInfinity).
Proof.
  intros Hscan Hrun.
  assert (Hno : forall x, EvQuiet x ∈ h -> XidToXStamp db x = Ok InvalidXStamp).
  { intros x Hq. destruct (lookup_spec topmost scan_tags Hscan m db h x Hrun) as [-> Hin]. f_equal.
    destruct (XSTAMP_IS_VALID (log_lookup (log_expire (commits_of h) (horizon db)) x)) eqn:E.
    - apply lookup_in in E. apply Hin in E as [E _]. by destruct (quiet_unstamped topmost scan_tags m db h x Hrun Hq _ E).
    - unfold XSTAMP_IS_VALID in E. by apply negb_false_iff, Z.eqb_eq in E. }
  split; intros Hq.
  - intros inv now Hn. unfold ValidityIntervalExcludeInvisibleTuple. by rewrite Hn, (Hno _ Hq), bind_ret_l.
  - unfold GetHeapTupleValidity.
    destruct (lookup_spec topmost scan_tags Hscan m db h (t_xmin t) Hrun) as [-> _]. rewrite bind_ret_l.
    destruct (_ || _); [by eexists|]. rewrite (Hno _ Hq), bind_ret_l. by eexists.
Qed.

(** ** Properties *)

(** C11: What the database reports about a query is true.  A query that is one
    sequential scan, in a transaction that began at a pin whose snapshot is still
    saved and has not written, does not fail, provided that the versions of the
    relation were not moved and that every transaction that inserted or deleted
    one is in progress, or aborted, or took a stamp, or committed before all
    that did ([tuple_ok]; it is not so for COPY, subtransactions and prepared
    transactions, see [quiet_rows]).  It returns the rows of that pin; the pin is
    in the interval; and, whatever is pinned, unpinned, and inserted and deleted
    by transactions that take stamps from then on, the interval and the tags are
    right for these rows: at each pin of the interval the query has them as its
    result, and, when the interval is unbounded, at each later pin as long as no
    announcement affects the tags.  What is assumed of the tags is that every
    later commit that inserts or deletes a version that qualifies is announced
    with one that affects them. *)
Theorem query_valid_over (topmost : Z -> Z) (scan_tags : list (list Z) -> list (list Z))
    (IsCurrent IsInProgress DidCommit DidAbort before : Z -> bool) (m : CommitMap) (db : Database) (h : list db_event)
    (pin : Z) (s : Snapshot) (ts : TransactionState) (curcid : Z) (node : ScanState) (pages : list (list (option Tuple)))
    (Hscan : forall l, scan_tags l ≡ₚ l) (Hrun : db_run topmost scan_tags m db h)
    (Hpin : 0 <= pin < XStampInfinity) (Hbegin : SetTransactionXStamp db pin = Ok s) (Hts : xstamp ts = pin + 1)
    (Hlatest : XSTAMP_IS_VALID (latestXstampAtStart ts) = true -> pin < latestXstampAtStart ts <= GetNextXStamp db)
    (Hbefore : forall x, before x = true -> XidInSnapshot topmost x s = false /\ forall y, (x, y) ∉ commits_of h)
    (Hok : Forall (tuple_ok IsCurrent IsInProgress DidCommit (stamp before (commits_of h))) (used pages)) :
  exists ts' v unbounded rows,
    ExecutorRun topmost IsCurrent IsInProgress DidCommit DidAbort db ts s curcid node pages = Ok (ts', v, unbounded, rows) /\
    rows = rows_at (stamp before (commits_of h)) node (used pages) pin /\ vstart v <= pin < vend v /\
    forall db' h2 tuples' tags, db_run topmost scan_tags m db' (h ++ h2) ->
      (forall x, before x = true -> forall y, (x, y) ∉ commits_of h2) ->
      grows (stamp before (commits_of h)) (used pages) tuples' -> covered node tags tuples' h2 ->
      valid_over (announcements scan_tags (h ++ h2)) (fun p => rows_at (stamp before (commits_of (h ++ h2))) node tuples' p = rows)
        (Interval (vstart v) (vend v) unbounded) tags.
Proof.
  unfold SetTransactionXStamp, GetSavedSnapshot, GetNextXStamp in *. rewrite u32_small in Hbegin by (unfold XStampInfinity in *; lia).
  assert (exists k, pin = k - 1) as [k ->] by (exists (pin + 1); lia). replace (k - 1 + 1) with k in * by lia.
  destruct (SSnapHash db !! k) as [s'|] eqn:Hsaved; [|done]. injection Hbegin as ->.
  destruct (ExecutorRun_spec topmost scan_tags IsCurrent IsInProgress DidCommit DidAbort before Hscan m db h k s
    Hrun Hsaved Hbefore ts curcid node pages Hts) as (ts' & v & unb & E & Hv & Hn & Hsteady); [|done|].
  { intros Hl. specialize (Hlatest Hl). lia. }
  exists ts', v, unb, (rows_at (stamp before (commits_of h)) node (used pages) (k - 1)).
  split_and!; [done|done|lia|lia|]. intros db' h2 tuples' tags Hrun' Hbefore' Hg Hc. by eapply query_later; try done; lia.
Qed.

(** A table with a row of an old transaction, one that transaction 5 inserted after
    the pin and one that it deleted. *)
Definition ex_tuple (xmin xmax : Z) (deleted : bool) (value : Z) : Tuple :=
  Tup xmin 0 xmax 0 false false false (negb deleted) false false false false [value].

Definition ex_pages : list (list (option Tuple)) :=
  [[Some (ex_tuple 3 0 false 7); None]; [Some (ex_tuple 5 0 false 8); Some (ex_tuple 3 5 true 9)]].

Definition ex_before (x : Z) : bool := x =? 3.

Lemma ex_tuples_ok : Forall (tuple_ok (fun _ => false) (fun _ => false) (fun x => (x =? 3) || (x =? 5))
  (stamp ex_before (commits_of ex_history))) (used ex_pages).
Proof.
  repeat constructor; cbn; try done; intros x; try (intros [?|?]); intros; simplify_eq; try done; vm_compute; eauto.
Qed.

Lemma query_valid_over_witness : exists db ts' v unbounded,
  ExecutorRun id (fun _ => false) (fun _ => false) (fun x => (x =? 3) || (x =? 5)) (fun _ => false) db
    (TState 2 InvalidXStamp) ex_snap 0 (SState None None) ex_pages = Ok (ts', v, unbounded, [[7]; [9]]) /\ vstart v <= 1 < vend v.
Proof.
  destruct ex_db_run as (db & Hrun & Hsaved). exists db.
  destruct (query_valid_over id id (fun _ => false) (fun _ => false) (fun x => (x =? 3) || (x =? 5)) (fun _ => false) ex_before
    ex_map db ex_history 1 ex_snap (TState 2 InvalidXStamp) 0 (SState None None) ex_pages) as (ts' & v & u & rows & E & -> & Hv & _).
  - done.
  - exact Hrun.
  - done.
  - unfold SetTransactionXStamp, GetSavedSnapshot. change (u32 (1 + 1)) with 2. by rewrite Hsaved.
  - done.
  - done.
  - intros x Hx%Z.eqb_eq. subst x. split; [done|]. intros y Hy. apply list_elem_of_singleton in Hy. done.
  - exact ex_tuples_ok.
  - exists ts', v, u. split; [exact E|exact Hv].
Defined.
