(* ===== verification/Invald.v ===== *)
(** * The invalidation daemon (src/invald/invald.c)

    The daemon takes the rows of the database's invalidation queue, puts the tags
    of one stamp together, and sends them to every cache node.  With the queue of
    the database it is shown to forward the history of commits and pins as a
    stream of messages with growing stamps. *)

From S2P Require Import Prelude CLib CText Interval IOBuf RPC Wire Server CommitMap DBInval Snapshots.

(** ** What the nodes are to get *)

(** The message of an announcement: the stamp and its tags. *)
Definition inval_msg (a : announcement) : Z * list Z :=
  (SERVER_REQ_INVAL, enc_all (InvalRequest (fst a) (snd a))).

(** Its tags are C strings, and the message has room in the buffer. *)
Definition announcement_fits (a : announcement) : Prop :=
  tags_fit (snd a) /\ Z.of_nat (length (enc_all (InvalRequest (fst a) (snd a)))) < 2 ^ 31 - 1024.

(** A connection of the daemon, which blocks, between two messages. *)
Definition node_up (h : host_t) : Prop := idle h /\ h_re h = false.

(** The sockets of [n] nodes take the message as [send] is documented to. *)
Definition sockets_take (a : announcement) (n : nat) (sends : list (list send_result)) : Prop :=
  length sends = n /\ Forall (sends_ok true (Z.of_nat (length (frame (inval_msg a))))) sends.

(** ** The daemon *)

Section Daemon.

Context (realloc : Z -> Z -> Z).

(** The tags of [invals] for the message, none when the entry is NULL. *)
Fixpoint TagLoop (cnt : Z) (invals : list (option (list Z))) : res (Z * list (list Z)) :=
  match invals with
  | [] => Ok (cnt, [])
  | None :: invals => Assert (cnt =? 1);; TagLoop 0 invals
  | Some tag :: invals => '(cnt, tags) ← TagLoop cnt invals; Ok (cnt, tag :: tags)
  end.

(** [for (node = cacheNodes.head; node; node = node->link.next)]; [sends] has
    the outcomes of the sends for each node. *)
Fixpoint NodesLoop (nodes : list host_t) (pin : Z) (tags : list (list Z)) (sends : list (list send_result)) :
    res (list host_t * list (list event)) :=
  match nodes with
  | [] => Ok ([], [])
  | node :: nodes =>
    '(node, evs) ← ServerProxy_Invalidate realloc node pin tags (default [] (head sends));
    '(nodes, evss) ← NodesLoop nodes pin tags (tail sends);
    Ok (node :: nodes, evs :: evss)
  end.

Definition SendInvalidationNotice (nodes : list host_t) (pin : Z) (invals : list (option (list Z)))
    (sends : list (list send_result)) : res (list host_t * list (list event)) :=
  '(cnt, tags) ← TagLoop (Z.of_nat (length invals)) invals;
  NodesLoop nodes pin (if cnt =? 0 then [] else tags) sends.

(** The loop over the rows; [sendss] has the outcomes for each message to come. *)
Fixpoint RowsLoop (nodes : list host_t) (rows : list (list Z * option (list Z))) (lastPin : Z)
    (invals : list (option (list Z))) (sendss : list (list (list send_result))) :
    res (list host_t * list (list (list send_result)) * list (list (list event))) :=
  match rows with
  | [] =>
    '(nodes, evs) ← SendInvalidationNotice nodes lastPin invals (default [] (head sendss));
    Ok (nodes, tail sendss, [evs])
  | (pinptr, tag) :: rows =>
    let pin := u32 (strtol pinptr) in
    Assert (negb (PIN_SPECIAL pin));;
    if negb (pin =? lastPin) && negb (lastPin =? PIN_INVALID) then
      '(nodes, evs) ← SendInvalidationNotice nodes lastPin invals (default [] (head sendss));
      '(nodes, sendss, evss) ← RowsLoop nodes rows pin [tag] (tail sendss);
      Ok (nodes, sendss, evs :: evss)
    else RowsLoop nodes rows pin (invals ++ [tag]) sendss
  end.

Definition InvaldProcessNotification (nodes : list host_t) (rows : list (list Z * option (list Z)))
    (sendss : list (list (list send_result))) :
    res (list host_t * list (list (list send_result)) * list (list (list event))) :=
  match rows with
  | [] => Ok (nodes, sendss, [])
  | _ => RowsLoop nodes rows PIN_INVALID [] sendss
  end.

(** The notifications one after the other. *)
Fixpoint RunDaemon (nodes : list host_t) (batches : list (list (list Z * option (list Z))))
    (sendss : list (list (list send_result))) :
    res (list host_t * list (list (list send_result)) * list (list (list event))) :=
  match batches with
  | [] => Ok (nodes, sendss, [])
  | rows :: batches =>
    '(nodes, sendss, evss) ← InvaldProcessNotification nodes rows sendss;
    '(nodes, sendss, evss') ← RunDaemon nodes batches sendss;
    Ok (nodes, sendss, evss ++ evss')
  end.

(** ** Lemmas *)

(** The notices of the announcements one after the other: what the loop over the
    rows comes to. *)
Fixpoint Deliver (nodes : list host_t) (anns : list announcement) (sendss : list (list (list send_result))) :
    res (list host_t * list (list (list send_result)) * list (list (list event))) :=
  match anns with
  | [] => Ok (nodes, sendss, [])
  | (pin, tags) :: anns =>
    '(nodes, evs) ← NodesLoop nodes pin tags (default [] (head sendss));
    '(nodes, sendss, evss) ← Deliver nodes anns (tail sendss);
    Ok (nodes, sendss, evs :: evss)
  end.

Lemma strtol_fmt_d x : 0 <= x < 2 ^ 32 -> u32 (strtol (fmt_d x)) = x.
Proof.
  intros Hx. unfold strtol, fmt_d. pose proof (signed_range 32 x ltac:(lia)) as Hr. fold (s32 x) in Hr.
  assert (Hp : 10 ^ Z.of_nat 10 = 10000000000) by done.
  destruct (Z.ltb_spec (s32 x) 0) as [Hn|Hn].
  - pose proof (digits_digit 10 (- s32 x) ltac:(lia)) as Hd. pose proof (digits_nonempty 10 (- s32 x) ltac:(lia)) as Hne.
    pose proof (scan_digits_digits 10 (- s32 x) ltac:(lia)) as Hs.
    unfold scan_number. cbn [skip_spaces]. change (isspace 45) with false. cbv iota. change (45 =? 45) with true. cbv iota beta.
    destruct (digits 10 (- s32 x)) as [|c l] eqn:E; [done|]. apply Forall_cons in Hd as [Hc Hd]. rewrite Hc.
    destruct (scan_digits 0 (c :: l)) as [v rest]. cbn [fst] in Hs. subst v. unfold conv_lld.
    rewrite Z.max_l by lia. rewrite Z.opp_involutive, u32_s32. by apply u32_small.
  - pose proof (scan_number_digits 10 (s32 x) [] ltac:(lia) ltac:(lia) I) as E. rewrite app_nil_r in E. rewrite E.
    unfold conv_lld. rewrite Z.min_l by lia. rewrite u32_s32. by apply u32_small.
Qed.

Lemma TagLoop_tags tags : forall n, TagLoop n (map Some tags) = Ok (n, tags).
Proof. induction tags as [|t tags IH]; intros n; [done|]. cbn. by rewrite IH. Qed.

Lemma Notice_block nodes a sends :
  SendInvalidationNotice nodes (fst a) (map qe_tag (block a)) sends = NodesLoop nodes (fst a) (snd a) sends.
Proof.
  destruct a as [x [|t tags]]; [done|]. unfold SendInvalidationNotice, block. cbn [fst snd].
  rewrite map_map. change (map (fun z => qe_tag (QEntry x (Some z))) (t :: tags)) with (map Some (t :: tags)).
  rewrite TagLoop_tags, bind_ret_l, length_map. done.
Qed.

(** A stamp that is a pin of a message. *)
Definition stamp32 (x : Z) : Prop := FirstXStamp <= x < XStampInfinity.

Lemma stamp_row e : stamp32 (qe_xstamp e) ->
  u32 (strtol (fst (InvalRow e))) = qe_xstamp e /\ PIN_SPECIAL (qe_xstamp e) = false.
Proof.
  unfold stamp32, FirstXStamp, XStampInfinity. intros H. cbn [InvalRow fst]. rewrite strtol_fmt_d by lia.
  split; [done|]. apply PIN_SPECIAL_false. unfold PIN_INVALID, PIN_NEG_INF, PIN_INF. lia.
Qed.

Lemma RowsLoop_row nodes e rows lastPin invals ss : stamp32 (qe_xstamp e) ->
  RowsLoop nodes (InvalRow e :: rows) lastPin invals ss =
  if negb (qe_xstamp e =? lastPin) && negb (lastPin =? PIN_INVALID) then
    '(nodes, evs) ← SendInvalidationNotice nodes lastPin invals (default [] (head ss));
    '(nodes, ss, evss) ← RowsLoop nodes rows (qe_xstamp e) [qe_tag e] (tail ss);
    Ok (nodes, ss, evs :: evss)
  else RowsLoop nodes rows (qe_xstamp e) (invals ++ [qe_tag e]) ss.
Proof.
  intros H. destruct (stamp_row e H) as [E1 E2]. unfold InvalRow in *. cbn [fst] in E1. cbn [RowsLoop].
  rewrite E1, E2. cbn [negb Assert]. by rewrite bind_ret_l.
Qed.

Lemma RowsLoop_same nodes rows x ss es : stamp32 x -> Forall (fun e => qe_xstamp e = x) es ->
  forall invals, RowsLoop nodes (map InvalRow es ++ rows) x invals ss = RowsLoop nodes rows x (invals ++ map qe_tag es) ss.
Proof.
  intros Hx. induction 1 as [|e es He _ IH]; intros invals; cbn [map app]; [by rewrite app_nil_r|].
  rewrite RowsLoop_row, He, Z.eqb_refl by (by rewrite He). cbn [negb andb]. rewrite IH, <- app_assoc. done.
Qed.

Lemma block_cons a : exists e es, block a = e :: es /\ Forall (fun e => qe_xstamp e = fst a) (e :: es).
Proof.
  destruct a as [x [|t tags]]; [by eexists _, []; split; [done|]; repeat constructor|].
  eexists _, _. split; [done|]. cbn. constructor; [done|]. apply Forall_map, Forall_forall. done.
Qed.

Lemma rows_cons a anns : rows_of (a :: anns) = map InvalRow (block a) ++ rows_of anns.
Proof. unfold rows_of. cbn. by rewrite map_app. Qed.

Lemma RowsLoop_anns anns : forall a nodes ss,
  StronglySorted (fun a b : announcement => fst a < fst b) (a :: anns) -> Forall (fun a => stamp32 (fst a)) (a :: anns) ->
  RowsLoop nodes (rows_of anns) (fst a) (map qe_tag (block a)) ss = Deliver nodes (a :: anns) ss.
Proof.
  induction anns as [|b anns IH]; intros a nodes ss [Hs Ha]%StronglySorted_inv [Hx Hr]%Forall_cons.
  { cbn [rows_of map concat RowsLoop]. rewrite Notice_block. by destruct a. }
  apply Forall_cons in Ha as [Hab _]. pose proof (proj1 (proj1 (Forall_cons _ _ _) Hr)) as Hb.
  rewrite rows_cons. destruct (block_cons b) as (e & es & Eb & He). rewrite Eb. apply Forall_cons in He as [He Hes].
  cbn [map app]. rewrite RowsLoop_row, He, (proj2 (Z.eqb_neq _ _)) by (rewrite ?He; lia || done).
  rewrite (proj2 (Z.eqb_neq (fst a) PIN_INVALID)) by (unfold stamp32, FirstXStamp, PIN_INVALID in *; lia). cbn [negb andb].
  rewrite Notice_block. destruct a as [x tags]. cbn [fst snd Deliver]. destruct (NodesLoop _ _ _ _) as [[nodes' evs]|f]; [|done].
  rewrite !bind_ret_l, RowsLoop_same by done. change ([qe_tag e] ++ map qe_tag es) with (map qe_tag (e :: es)).
  rewrite <- Eb, IH by done. done.
Qed.

Lemma Process_anns nodes anns ss :
  StronglySorted (fun a b : announcement => fst a < fst b) anns -> Forall (fun a => stamp32 (fst a)) anns ->
  InvaldProcessNotification nodes (rows_of anns) ss = Deliver nodes anns ss.
Proof.
  destruct anns as [|a anns]; [done|]. intros Hs Hr. rewrite <- RowsLoop_anns by done.
  pose proof (proj1 (proj1 (Forall_cons _ _ _) Hr)) as Ha.
  rewrite rows_cons. destruct (block_cons a) as (e & es & Eb & He). rewrite Eb. apply Forall_cons in He as [He Hes].
  cbn [map app InvaldProcessNotification]. rewrite RowsLoop_row, He by (by rewrite He).
  change (PIN_INVALID =? PIN_INVALID) with true. cbn [negb]. rewrite andb_false_r, RowsLoop_same by done. done.
Qed.

Lemma Deliver_app nodes a b ss :
  Deliver nodes (a ++ b) ss =
  ('(nodes, ss, evss) ← Deliver nodes a ss; '(nodes, ss, evss') ← Deliver nodes b ss; Ok (nodes, ss, evss ++ evss')).
Proof.
  revert nodes ss. induction a as [|[x tags] a IH]; intros nodes ss; cbn [app Deliver].
  - rewrite bind_ret_l. by destruct (Deliver nodes b ss) as [[[? ?] ?]|].
  - destruct (NodesLoop _ _ _ _) as [[nodes' evs]|f]; [|done]. rewrite !bind_ret_l, IH.
    destruct (Deliver nodes' a (tail ss)) as [[[n1 s1] e1]|f]; [|done]. rewrite !bind_ret_l.
    by destruct (Deliver n1 b s1) as [[[? ?] ?]|].
Qed.

Lemma RunDaemon_parts parts : forall nodes ss,
  StronglySorted (fun a b : announcement => fst a < fst b) (concat parts) -> Forall (fun a => stamp32 (fst a)) (concat parts) ->
  RunDaemon nodes (map rows_of parts) ss = Deliver nodes (concat parts) ss.
Proof.
  induction parts as [|p parts IH]; intros nodes ss Hs Hr; [done|]. cbn [map RunDaemon concat] in *.
  apply Forall_app in Hr as [Hr1 Hr2]. pose proof (StronglySorted_app_1_l _ _ _ Hs). pose proof (StronglySorted_app_1_r _ _ _ Hs).
  rewrite Process_anns, Deliver_app by done. destruct (Deliver nodes p ss) as [[[n1 s1] e1]|f]; [|done].
  rewrite !bind_ret_l. by rewrite IH.
Qed.

(** *** What the nodes get *)

Hypothesis realloc_fits : forall p n, 0 < n <= 2 ^ 33 -> 0 < realloc p n /\ realloc p n + n < 2 ^ 63.

Lemma ProxyInval_up node a sends :
  node_up node -> stamp32 (fst a) -> announcement_fits a ->
  sends_ok true (Z.of_nat (length (frame (inval_msg a)))) sends ->
  exists node' evs, ServerProxy_Invalidate realloc node (fst a) (snd a) sends = Ok (node', evs) /\
    sent_bytes evs = frame (inval_msg a) /\ node_up node'.
Proof using All.
  intros [Hi Hre] Hx [Ht Hl] Hs. unfold ServerProxy_Invalidate, stamp32, FirstXStamp, XStampInfinity in *.
  rewrite (proj2 (PIN_SPECIAL_false (fst a))) by (unfold PIN_INVALID, PIN_NEG_INF, PIN_INF; lia).
  cbn [negb Assert]. rewrite bind_ret_l.
  destruct (call_blocking realloc realloc_fits node SERVER_REQ_INVAL (InvalRequest (fst a) (snd a)) sends Hi Hre)
    as (h' & evs & -> & E & Hi' & Hre'); [apply request_fields_inval; [unfold pin32; lia|done]|done|done|].
  rewrite bind_ret_l. exists h', evs. by split_and!.
Qed.

Lemma NodesLoop_up a nodes : forall sends,
  Forall node_up nodes -> stamp32 (fst a) -> announcement_fits a -> sockets_take a (length nodes) sends ->
  exists nodes' evs, NodesLoop nodes (fst a) (snd a) sends = Ok (nodes', evs) /\ length nodes' = length nodes /\
    Forall node_up nodes' /\ map sent_bytes evs = replicate (length nodes) (frame (inval_msg a)).
Proof using All.
  induction nodes as [|node nodes IH]; intros sends Hn Hx Ha [Hl Hs]; [by exists [], []|].
  destruct sends as [|s sends]; [done|]. apply Forall_cons in Hn as [Hn1 Hn], Hs as [Hs1 Hs]. cbn [NodesLoop tail]. change (default [] (head (s :: sends))) with s.
  destruct (ProxyInval_up node a s Hn1 Hx Ha Hs1) as (node' & ev & -> & E1 & Hn1'). rewrite bind_ret_l.
  destruct (IH sends Hn Hx Ha) as (nodes' & evs & -> & El & Hn' & E2); [split; [by injection Hl|done]|]. rewrite bind_ret_l.
  exists (node' :: nodes'), (ev :: evs). split_and!; [done|cbn; by rewrite El|by constructor|cbn; by rewrite E1, E2].
Qed.

Lemma Deliver_up anns : forall nodes sendss more,
  Forall node_up nodes -> Forall (fun a => stamp32 (fst a)) anns -> Forall announcement_fits anns ->
  Forall2 (fun a => sockets_take a (length nodes)) anns sendss ->
  exists nodes' evss, Deliver nodes anns (sendss ++ more) = Ok (nodes', more, evss) /\ length nodes' = length nodes /\
    map (map sent_bytes) evss = map (fun a => replicate (length nodes) (frame (inval_msg a))) anns.
Proof using All.
  induction anns as [|[x tags] anns IH]; intros nodes sendss more Hn Hx Ha Hs.
  { apply Forall2_nil_inv_l in Hs as ->. by exists nodes, []. }
  apply Forall2_cons_inv_l in Hs.
  destruct Hs as (s & sendss' & Hs1 & Hs & ->). apply Forall_cons in Hx as [Hx1 Hx], Ha as [Ha1 Ha].
  cbn [app Deliver tail]. change (default [] (head (s :: sendss' ++ more))) with s. destruct (NodesLoop_up (x, tags) nodes s Hn Hx1 Ha1 Hs1) as (n1 & evs & E & El & Hn1 & Es).
  cbn [fst snd] in E. rewrite E, bind_ret_l.
  destruct (IH n1 sendss' more Hn1 Hx Ha) as (n2 & evss & -> & El2 & Es2); [by rewrite El|].
  rewrite bind_ret_l. exists n2, (evs :: evss). rewrite El in *. split_and!; [done|done|]. cbn [map]. by rewrite Es, Es2.
Qed.

End Daemon.

(** ** Properties *)

(** C13: The daemon forwards the history of the database.  While the connections to
    the cache nodes stay up, with tags and messages that fit, it runs without a
    fault, and what it has sent when it has worked through its notifications is,
    to every node, the bytes of exactly one INVALIDATE message per announcement
    it has taken, in their order: for each commit that enqueued tags its stamp
    with these tags, each once, and for a pin without a newer announcement the
    pin with no tags.  The stamps grow, and after a notification nothing is
    left. *)
Theorem invald_forwards (realloc : Z -> Z -> Z) (topmost : Z -> Z) (scan : list (list Z) -> list (list Z)) (m : CommitMap)
    (db : Database) (h : list db_event) (nodes : list host_t) (sendss : list (list (list send_result)))
    (Hrealloc : forall p n, 0 < n <= 2 ^ 33 -> 0 < realloc p n /\ realloc p n + n < 2 ^ 63)
    (Hscan : forall l, scan l ≡ₚ l) (Hrun : db_run topmost scan m db h) (Hnodes : Forall node_up nodes)
    (Hfit : Forall announcement_fits (announcements scan h))
    (Hsends : Forall2 (fun a => sockets_take a (length nodes)) (announcements scan h) sendss) :
  exists sent rest, announcements scan h = sent ++ rest /\
    (exists nodes' sendss' evss, RunDaemon realloc nodes (batches h) sendss = Ok (nodes', sendss', evss) /\
       map (map sent_bytes) evss = map (fun a => replicate (length nodes) (frame (inval_msg a))) sent) /\
    (forall rows, last h = Some (EvDrain rows) -> rest = []) /\
    StronglySorted (fun a b => fst a < fst b) (sent ++ rest) /\
    (forall xid xstamp tags, EvCommit xid xstamp tags ∈ h -> tags <> [] ->
       exists tags', (xstamp, tags') ∈ sent ++ rest /\ NoDup tags' /\ forall t, t ∈ tags' <-> t ∈ tags).
Proof.
  destruct (db_run_parts topmost scan Hscan m db h Hrun) as (parts & rest & Ea & Eb & HI & HQ & Hl).
  exists (concat parts), rest. pose proof (qi_sorted _ _ _ HQ) as Hs. pose proof (qi_range _ _ _ HQ) as Hr. rewrite Ea in Hs, Hr.
  split_and!; [done| |done|done|].
  - rewrite Ea in Hfit, Hsends. apply Forall_app in Hfit as [Hfit _], Hr as [Hr _].
    apply Forall2_app_inv_l in Hsends as (ss1 & ss2 & Hss & _ & ->).
    assert (Hx : Forall (fun a => stamp32 (fst a)) (concat parts)).
    { eapply Forall_impl; [exact Hr|]. intros a Hx. pose proof (si_bound _ _ HI). unfold stamp32. cbn in Hx. lia. }
    rewrite Eb, RunDaemon_parts by (done || exact (StronglySorted_app_1_l _ _ _ Hs)).
    destruct (Deliver_up realloc Hrealloc (concat parts) nodes ss1 ss2 Hnodes Hx Hfit Hss) as (n' & evss & -> & _ & E). eauto.
  - intros xid x tags Hin Hne. rewrite <- Ea. by eapply announced_commit.
Qed.

(** The history of a pin and a commit, and the daemon's notification. *)
Definition ex_drained : list db_event := ex_history ++ [EvDrain (rows_of [(2, ex_tags)])].

Lemma ex_drained_run : exists db, db_run id id ex_map db ex_drained.
Proof.
  destruct ex_db_run as (db & Hrun & _).
  destruct (db_run_parts id id (fun l => Permutation_refl l) ex_map db ex_history Hrun) as (parts & rest & _ & Eb & _ & HQ & _).
  assert (parts = []) as -> by (destruct parts; [done|by cbn in Eb]).
  pose proof (qi_queue _ _ _ HQ) as Eq. cbn [concat length] in Eq. rewrite drop_0 in Eq.
  eexists. eapply (run_step id id ex_map db ex_history); [exact Hrun| |done]. apply step_drain.
  unfold pg_get_and_clear_invalidations. rewrite Eq. reflexivity.
Qed.

Lemma ex_announced : announcements id ex_drained = [(2, ex_tags)].
Proof. by vm_compute. Qed.

Lemma ex_node_up : node_up (ex_host false).
Proof. destruct ex_host_ready as (Hi & Hre & _). by split. Qed.

Lemma invald_forwards_witness : exists nodes' sendss' evss,
  RunDaemon ex_realloc [ex_host false; ex_host false] (batches ex_drained) [[[Sent 31]; [Sent 10; Sent 21]]] =
    Ok (nodes', sendss', evss) /\
  map (map sent_bytes) evss = [[frame (inval_msg (2, ex_tags)); frame (inval_msg (2, ex_tags))]].
Proof.
  destruct ex_drained_run as (db & Hrun).
  destruct (invald_forwards ex_realloc id id ex_map db ex_drained [ex_host false; ex_host false]
    [[[Sent 31]; [Sent 10; Sent 21]]] ex_realloc_fits (fun l => Permutation_refl l) Hrun)
    as (sent & rest & Ea & (nodes' & sendss' & evss & E & Es) & Hl & _).
  - repeat (apply Forall_cons_2; [exact ex_node_up|]). apply Forall_nil_2.
  - rewrite ex_announced. apply Forall_cons_2; [|apply Forall_nil_2]. split; [|by vm_compute]. split; [|by vm_compute].
    apply Forall_cons_2; [|apply Forall_nil_2]. split; [by vm_compute|]. repeat (apply Forall_cons_2; [done|]). apply Forall_nil_2.
  - rewrite ex_announced. constructor; [|constructor]. split; [done|].
    apply Forall_cons_2; [apply so_last; vm_compute; (done || split; discriminate)|]. apply Forall_cons_2; [|apply Forall_nil_2].
    apply so_part; [done|vm_compute; split; (done || discriminate)|]. apply so_last; vm_compute; (done || split; discriminate).
  - rewrite (Hl _ eq_refl), app_nil_r, ex_announced in Ea. subst sent. exists nodes', sendss', evss.
    split; [exact E|exact Es].
Defined.
