(* ===== verification/Client.v ===== *)
(** * The client library (src/client/client.c, client.h)

    A client runs read-only transactions.  It keeps the set of pins at which all
    the transaction has seen so far is valid, and, for every cacheable function
    that is being called, the interval over which what the call has seen is
    valid, so that its result can be put into the cache with that interval.

    The memory of the frames, which belong to the callers, is [frames], a map
    from addresses; [bottom] and [parent] are addresses, 0 is NULL.  What the
    database, the pincushion, the cache nodes and the clock answer are arguments
    of the operations; what the client sends is appended to [out].  Allocations
    succeed. *)

From S2P Require Import Prelude CLib CText Interval Timeval PinSet Policy Hash OrdTree.

(** ** Data *)

(** A result of libpq.  The rows are opaque here. *)
Inductive ExecStatusType : Type :=
| PGRES_EMPTY_QUERY
| PGRES_COMMAND_OK
| PGRES_TUPLES_OK
| PGRES_COPY_OUT
| PGRES_COPY_IN
| PGRES_BAD_RESPONSE
| PGRES_NONFATAL_ERROR
| PGRES_FATAL_ERROR.

#[global] Instance ExecStatusType_eq_dec : EqDecision ExecStatusType.
Proof. solve_decision. Defined.

Record PGresult : Type := PGRes {
  r_status : ExecStatusType;
  r_cmdStatus : list Z;
  r_rows : list (list Z)
}.

(** [PQresultStatus]; NULL counts as a fatal error. *)
Definition PQresultStatus (r : option PGresult) : ExecStatusType :=
  match r with Some r => r_status r | None => PGRES_FATAL_ERROR end.

Definition status_is (r : option PGresult) (s : ExecStatusType) : bool :=
  bool_decide (PQresultStatus r = s).

(** [PQmakeEmptyPGresult(conn, PGRES_BAD_RESPONSE)]. *)
Definition bad_response : PGresult := PGRes PGRES_BAD_RESPONSE [] [].

Record ClientCacheableFrame_t : Type := Frame {
  fkey : keyref;
  interval : interval_t;
  invalTags : list (list Z);
  willingToDealWithInvalidations : bool;
  parent : Z
}.

(** A node; [connected] is [RPC_IsValid] of its [host]. *)
Record ClientNode_t : Type := Node {
  hostname : list Z;
  port : list Z;
  connected : bool
}.

Inductive ClientStat : Type :=
| roQueries | rwQueries | roCacheXactions | roDBXactions
| cacheHits | cacheMisses | cacheSkips | cacheableAborts.

#[global] Instance ClientStat_eq_dec : EqDecision ClientStat.
Proof. solve_decision. Defined.

(** What the client sends: SQL to the database, requests to the pincushion, and
    lookups and puts to the cache node with a number. *)
Inductive event : Type :=
| ESql (sql : list Z)
| ERequest
| ERelease
| EInsertPin (p : PinStamp_t)
| ELookup (node : nat) (k : list Z) (iv : interval_t) (earliest : Z) (screw : bool)
| EPut (node : nat) (k : list Z) (iv : interval_t) (data : list Z) (tags : list (list Z)) (force : bool).

(** [pg] is whether the connection to the database is open, [pending] its results
    that have not been fetched. *)
Record Client_t : Type := Client {
  pg : bool;
  pending : list PGresult;
  choosePin : option ClientPolicyChoosePin_t;
  pincushion : option ClientNode_t;
  cacheNodes : list ClientNode_t;
  nCacheNodes : Z;
  bypassMode : bool;
  memcachedMode : bool;
  pinSet : PinSet_t;
  activePin : Z;
  earliestPin : Z;
  frames : gmap Z ClientCacheableFrame_t;
  bottom : Z;
  stats : ClientStat -> Z;
  out : list event
}.

Definition set_pg (x : bool) (c : Client_t) : Client_t :=
  Client x (pending c) (choosePin c) (pincushion c) (cacheNodes c) (nCacheNodes c) (bypassMode c)
    (memcachedMode c) (pinSet c) (activePin c) (earliestPin c) (frames c) (bottom c) (stats c)
    (out c).
Definition set_pending (x : list PGresult) (c : Client_t) : Client_t :=
  Client (pg c) x (choosePin c) (pincushion c) (cacheNodes c) (nCacheNodes c) (bypassMode c)
    (memcachedMode c) (pinSet c) (activePin c) (earliestPin c) (frames c) (bottom c) (stats c)
    (out c).
Definition set_pincushion (x : option ClientNode_t) (c : Client_t) : Client_t :=
  Client (pg c) (pending c) (choosePin c) x (cacheNodes c) (nCacheNodes c) (bypassMode c)
    (memcachedMode c) (pinSet c) (activePin c) (earliestPin c) (frames c) (bottom c) (stats c)
    (out c).
Definition set_cacheNodes (x : list ClientNode_t) (c : Client_t) : Client_t :=
  Client (pg c) (pending c) (choosePin c) (pincushion c) x (nCacheNodes c) (bypassMode c)
    (memcachedMode c) (pinSet c) (activePin c) (earliestPin c) (frames c) (bottom c) (stats c)
    (out c).
Definition set_bypassMode (x : bool) (c : Client_t) : Client_t :=
  Client (pg c) (pending c) (choosePin c) (pincushion c) (cacheNodes c) (nCacheNodes c) x
    (memcachedMode c) (pinSet c) (activePin c) (earliestPin c) (frames c) (bottom c) (stats c)
    (out c).
Definition set_memcachedMode (x : bool) (c : Client_t) : Client_t :=
  Client (pg c) (pending c) (choosePin c) (pincushion c) (cacheNodes c) (nCacheNodes c)
    (bypassMode c) x (pinSet c) (activePin c) (earliestPin c) (frames c) (bottom c) (stats c)
    (out c).
Definition set_pinSet (x : PinSet_t) (c : Client_t) : Client_t :=
  Client (pg c) (pending c) (choosePin c) (pincushion c) (cacheNodes c) (nCacheNodes c)
    (bypassMode c) (memcachedMode c) x (activePin c) (earliestPin c) (frames c) (bottom c)
    (stats c) (out c).
Definition set_activePin (x : Z) (c : Client_t) : Client_t :=
  Client (pg c) (pending c) (choosePin c) (pincushion c) (cacheNodes c) (nCacheNodes c)
    (bypassMode c) (memcachedMode c) (pinSet c) x (earliestPin c) (frames c) (bottom c) (stats c)
    (out c).
Definition set_earliestPin (x : Z) (c : Client_t) : Client_t :=
  Client (pg c) (pending c) (choosePin c) (pincushion c) (cacheNodes c) (nCacheNodes c)
    (bypassMode c) (memcachedMode c) (pinSet c) (activePin c) x (frames c) (bottom c) (stats c)
    (out c).
Definition set_frames (x : gmap Z ClientCacheableFrame_t) (c : Client_t) : Client_t :=
  Client (pg c) (pending c) (choosePin c) (pincushion c) (cacheNodes c) (nCacheNodes c)
    (bypassMode c) (memcachedMode c) (pinSet c) (activePin c) (earliestPin c) x (bottom c)
    (stats c) (out c).
Definition set_bottom (x : Z) (c : Client_t) : Client_t :=
  Client (pg c) (pending c) (choosePin c) (pincushion c) (cacheNodes c) (nCacheNodes c)
    (bypassMode c) (memcachedMode c) (pinSet c) (activePin c) (earliestPin c) (frames c) x
    (stats c) (out c).
Definition set_stats (x : ClientStat -> Z) (c : Client_t) : Client_t :=
  Client (pg c) (pending c) (choosePin c) (pincushion c) (cacheNodes c) (nCacheNodes c)
    (bypassMode c) (memcachedMode c) (pinSet c) (activePin c) (earliestPin c) (frames c)
    (bottom c) x (out c).
Definition set_out (x : list event) (c : Client_t) : Client_t :=
  Client (pg c) (pending c) (choosePin c) (pincushion c) (cacheNodes c) (nCacheNodes c)
    (bypassMode c) (memcachedMode c) (pinSet c) (activePin c) (earliestPin c) (frames c)
    (bottom c) (stats c) x.

(** The address of [rootFrame], which is inside the client. *)
Definition ROOT : Z := 8.

Definition bump (s : ClientStat) (c : Client_t) : Client_t :=
  set_stats (fun t => if decide (t = s) then stats c t + 1 else stats c t) c.

Definition emit (e : event) (c : Client_t) : Client_t := set_out (out c ++ [e]) c.

(** [client->bottom] as an object. *)
Definition bottom_frame (c : Client_t) : res ClientCacheableFrame_t :=
  if bottom c =? 0 then Fault NullDeref else deref (frames c !! bottom c).

Definition set_frame (a : Z) (f : ClientCacheableFrame_t) (c : Client_t) : Client_t :=
  set_frames (<[a := f]> (frames c)) c.

Definition frame_interval (iv : interval_t) (f : ClientCacheableFrame_t) : ClientCacheableFrame_t :=
  Frame (fkey f) iv (invalTags f) (willingToDealWithInvalidations f) (parent f).

Definition frame_tags (tags : list (list Z)) (f : ClientCacheableFrame_t) : ClientCacheableFrame_t :=
  Frame (fkey f) (interval f) tags (willingToDealWithInvalidations f) (parent f).

(** ** Set-up *)

Definition no_key : keyref := KeyRef 0 [] 0.

(** The fields that [Client_InitWith] leaves alone are those of [c]. *)
Definition Client_InitWith (c : Client_t) (choosePin : option ClientPolicyChoosePin_t)
    (pincushion : option ClientNode_t) (nCacheNodes : Z) (cacheNodes : list ClientNode_t) : Client_t :=
  let root := match frames c !! ROOT with
              | Some f => interval f
              | None => Interval PIN_INVALID PIN_INVALID false
              end in
  Client false [] choosePin pincushion cacheNodes nCacheNodes false false (pinSet c) (activePin c)
    (earliestPin c) (<[ROOT := Frame no_key root [] false 0]> (frames c)) 0 (fun _ => 0) (out c).

Definition disconnect (n : ClientNode_t) : ClientNode_t := Node (hostname n) (port n) false.

Definition Client_Release (c : Client_t) : res Client_t :=
  if negb (bottom c =? 0) then Fault PanicCall
  else Ok (set_pincushion None (set_cacheNodes [] c)).

Definition Client_ConnectPG (c : Client_t) (cb : bool) : Client_t * bool :=
  if pg c then (c, true)
  else if cb then (set_pg true c, true) else (c, false).

Definition Client_ReleasePG (c : Client_t) : res (Client_t * bool) :=
  if negb (bottom c =? 0) then Fault PanicCall else Ok (set_pg false c, true).

Definition Client_SetBypass (c : Client_t) (bypass : bool) : Client_t := set_bypassMode bypass c.
Definition Client_SetMemcached (c : Client_t) (memcachedMode : bool) : Client_t :=
  set_memcachedMode memcachedMode c.

(** [connect] is the outcome of [RPCC_Connect], asked only when needed. *)
Definition NodeToHost (n : ClientNode_t) (connect : bool) : ClientNode_t * bool :=
  if connected n then (n, true)
  else if connect then (Node (hostname n) (port n) true, true) else (n, false).

(** The number of the node that is responsible for a key. *)
Definition Client_GetNode (c : Client_t) (k : keyref) : res nat :=
  Assert (negb (bypassMode c));;
  h ← hash (kr_addr k) (kr_mem k) (Z.of_nat (kr_len k)) 1188769677;
  if u32 (nCacheNodes c) =? 0 then Fault DivByZero
  else
    let n := s32 (h mod u32 (nCacheNodes c)) in
    if (0 <=? n) && (n <? Z.of_nat (length (cacheNodes c)))
    then Ok (Z.to_nat n) else Fault OutOfBounds.

(** ** Transactions *)

(** What the pincushion answers: whether [RPCC_Connect] succeeds, the array and
    the count that [PincushionProxy_Request] leaves, and whether the host is
    still connected afterwards. *)
Record begin_env : Type := BeginEnv {
  be_connect : bool;
  be_pins : option (list PinStamp_t);
  be_nPins : Z;
  be_host : bool;
  be_reconnect : bool;
  be_host2 : bool
}.

Definition set_connected (b : bool) (n : ClientNode_t) : ClientNode_t := Node (hostname n) (port n) b.

(** The first [if] of [Client_BeginRO]: the pin set, and whether to go on. *)
Definition BeginPins (c : Client_t) (e : begin_env) : res (Client_t * bool) :=
  if bypassMode c then
    '(ps, ok) ← PinSet_Init (pinSet c) None 0 true;
    Ok (set_pinSet ps c, (ok : bool))
  else
    node ← deref (pincushion c);
    let '(node, host) := NodeToHost node (be_connect e) in
    let c := set_pincushion (Some node) c in
    if negb host then Ok (c, false)
    else
      let c := emit ERequest (set_pincushion (Some (set_connected (be_host e) node)) c) in
      '(ps, ok) ← PinSet_Init (pinSet c) (be_pins e) (s32 (be_nPins e)) true;
      let c := set_pinSet ps c in
      if (ok : bool) then Ok (c, true)
      else
        node ← deref (pincushion c);
        let '(node, host) := NodeToHost node (be_reconnect e) in
        if (host : bool)
        then Ok (emit ERelease (set_pincushion (Some (set_connected (be_host2 e) node)) c), false)
        else Ok (set_pincushion (Some node) c, false).

Definition Client_BeginRO (c : Client_t) (e : begin_env) : res (Client_t * bool) :=
  if negb (bottom c =? 0) then Ok (c, false)
  else
    '(c, ok) ← BeginPins c e;
    if negb (ok : bool) then Ok (c, false)
    else
      let c := set_activePin PIN_INVALID c in
      earliest ← (if PinSet_JustStar (pinSet c) then Ok PIN_INVALID
                  else x ← pload (pinSet c) no_arg (PinSetFirstPin (pinSet c)); Ok (pin x));
      let c := set_earliestPin earliest c in
      iv ← (if memcachedMode c then
              if negb (PinSet_JustStar (pinSet c)) then PinSet_BoundsWithoutStar (pinSet c)
              else Ok (Interval PIN_NEG_INF PIN_MIN true)
            else Ok (Interval PIN_NEG_INF PIN_INF true));
      root ← deref (frames c !! ROOT);
      let c := set_frame ROOT (Frame (fkey root) iv [] false (parent root)) c in
      Ok (bump roCacheXactions (set_bottom ROOT c), true).

(** The result of the COMMIT, and the connection to the pincushion. *)
Record commit_env : Type := CommitEnv {
  ce_result : option PGresult;
  ce_connect : bool;
  ce_host : bool
}.

Definition Client_Commit (c : Client_t) (e : commit_env) : res (Client_t * bool) :=
  if bottom c =? 0 then Ok (c, false)
  else if negb (bottom c =? ROOT) then Ok (c, false)
  else
    let c := set_bottom 0 c in
    '(c, result) ←
      (if negb (activePin c =? PIN_INVALID) then
         Assert (pg c);;
         let c := set_pending [] (emit (ESql (str "COMMIT")) c) in
         Ok (set_activePin PIN_INVALID c, status_is (ce_result e) PGRES_COMMAND_OK)
       else Ok (c, true));
    if negb (bypassMode c) then
      node ← deref (pincushion c);
      let '(node, host) := NodeToHost node (ce_connect e) in
      if (host : bool)
      then Ok (emit ERelease (set_pincushion (Some (set_connected (ce_host e) node)) c), (result : bool))
      else Ok (set_pincushion (Some node) c, result)
    else Ok (c, result).

(** ** Validity of what was seen *)

Definition Client_UpdateInterval (c : Client_t) (iv : interval_t) : res Client_t :=
  if memcachedMode c then
    f ← bottom_frame c;
    let i := interval f in
    let i := if (upper i <? upper iv) || (upper i =? PIN_INF) then set_upper (upper iv) i else i in
    let i := if stillValid i then set_stillValid (stillValid iv) i else i in
    Ok (set_frame (bottom c) (frame_interval i f) c)
  else if bypassMode c then Ok c
  else
    f ← bottom_frame c;
    i ← Interval_Intersect (interval f) iv PIN_NEG_INF;
    let c := set_frame (bottom c) (frame_interval i f) c in
    ps ← PinSet_IntersectWith (pinSet c) iv;
    Ok (set_pinSet ps c).

(** [ClientInvalTagSet_CompareValue]: tags are ordered by [strcmp]. *)
Definition ClientInvalTagSet_CompareValue (val key : list Z) : Z := strcmp val key.

Definition Client_AddInvalTag (c : Client_t) (tag : list Z) : res Client_t :=
  f ← bottom_frame c;
  let cmp v := ClientInvalTagSet_CompareValue v tag in
  match tree_find cmp RB_EQ (invalTags f) with
  | Some _ => Ok c
  | None =>
    match tree_insert cmp tag (invalTags f) with
    | Some tags => Ok (set_frame (bottom c) (frame_tags tags f) c)
    | None => Fault AssertFail
    end
  end.

Fixpoint Client_UpdateInvalTagsFromSet (c : Client_t) (tagSet : list (list Z)) : res Client_t :=
  match tagSet with
  | [] => Ok c
  | tag :: tagSet => c ← Client_AddInvalTag c tag; Client_UpdateInvalTagsFromSet c tagSet
  end.

(** ** Queries *)

(** [PQgetResult] on the results that are waiting. *)
Definition PQgetResult (c : Client_t) : Client_t * option PGresult :=
  match pending c with
  | [] => (c, None)
  | r :: rest => (set_pending rest c, Some r)
  end.

(** [strncmp(status, expect, strlen(expect)) == 0] *)
Definition starts_with (status expect : list Z) : bool :=
  strncmp status expect (length expect) =? 0.

(** NULL when the result is as expected. *)
Definition Client_ExecConsumeOne (c : Client_t) (expect1 : list Z) (expect2 : option (list Z)) :
    Client_t * option PGresult :=
  let '(c, r) := PQgetResult c in
  if negb (status_is r PGRES_COMMAND_OK) then (c, r)
  else
    let status := match r with Some r => r_cmdStatus r | None => [] end in
    if starts_with status expect1 ||
       match expect2 with Some e => starts_with status e | None => false end
    then (c, None)
    else (c, Some bad_response).

(** [bad] is whether [PQstatus] is [CONNECTION_BAD]. *)
Fixpoint ExecFinishLoop (results : list PGresult) (last : option PGresult) (bad : bool) :
    res (list PGresult * option PGresult) :=
  match results with
  | [] => Ok ([], last)
  | r :: results =>
    match last with
    | Some l => Assert (negb (status_is (Some l) PGRES_FATAL_ERROR))
    | None => Ok tt
    end;;
    if status_is (Some r) PGRES_COPY_IN || status_is (Some r) PGRES_COPY_OUT || bad
    then Ok (results, Some r)
    else ExecFinishLoop results (Some r) bad
  end.

Definition Client_ExecFinish (c : Client_t) (bad : bool) : res (Client_t * option PGresult) :=
  '(rest, last) ← ExecFinishLoop (pending c) None bad;
  Ok (set_pending rest c, last).

(** A buffer of [cap] bytes that [strcat] and [sprintf] append to; the NUL takes
    one byte. *)
Definition append (cap : Z) (buf s : list Z) : res (list Z) :=
  if cap <=? strlen buf + strlen s then Fault OutOfBounds else Ok (buf ++ s).

Definition cmdCommit : list Z := str "COMMIT; ".
Definition cmdBeginPresent : list Z := str "BEGIN READ ONLY; PIN; ".
Definition cmdBeginPresentBypass : list Z := str "BEGIN READ ONLY; ".
Definition cmdBeginAt : list Z := str "BEGIN READ ONLY SNAPSHOTID %d; ".

(** The text of [cmdBeginAt] for a pin. *)
Definition sprintfBeginAt (pin : Z) : list Z :=
  str "BEGIN READ ONLY SNAPSHOTID " ++ fmt_d pin ++ str "; ".

Definition BuildSql (needCommit needNewPin bypass : bool) (pin : Z) (sql : list Z) : res (list Z) :=
  let size := (if needCommit then strlen cmdCommit else 0) in
  let size := size + (if needNewPin then strlen cmdBeginPresent
                      else if bypass then strlen cmdBeginPresentBypass
                      else strlen cmdBeginAt + 20) in
  let cap := size + strlen sql + 1 in
  buf ← (if needCommit then append cap [] cmdCommit else Ok []);
  buf ← append cap buf (if needNewPin then cmdBeginPresent
                        else if bypass then cmdBeginPresentBypass
                        else sprintfBeginAt pin);
  append cap buf sql.

(** The answers during a query: the connection callback, the policy's clock and
    random numbers, [PQexec] outside a transaction, [PQsendQuery] and the results
    it leads to, whether the connection is bad, and the pincushion. *)
Record exec_env : Type := ExecEnv {
  xe_connectPG : bool;
  xe_choose : choose_env;
  xe_exec : option PGresult;
  xe_send : bool;
  xe_results : list PGresult;
  xe_bad : bool;
  xe_connect : bool;
  xe_host : bool
}.

(** The reply to PIN; [None] when the query is over with the outer [res]. *)
Definition ExecPin (c : Client_t) (e : exec_env) : res (Client_t * option Z) :=
  let '(c, r) := PQgetResult c in
  if negb (status_is r PGRES_COMMAND_OK) then Ok (c, None)
  else
    let status := match r with Some r => r_cmdStatus r | None => [] end in
    match sscanf status (str "PIN %u %lld %lld") with
    | ([pin; tssec; tsusec], _) =>
      let pinstamp := PinStamp pin (Timeval tssec tsusec) in
      ps ← PinSet_ReifyStar (pinSet c) pinstamp;
      let c := set_pinSet ps c in
      let c := if earliestPin c =? PIN_INVALID then set_earliestPin pin c else c in
      c ← (if memcachedMode c then
             f ← bottom_frame c;
             Ok (if upper (interval f) <? pin
                 then set_frame (bottom c) (frame_interval (set_upper pin (interval f)) f) c else c)
           else Ok c);
      node ← deref (pincushion c);
      let '(node, host) := NodeToHost node (xe_connect e) in
      if (host : bool)
      then Ok (emit (EInsertPin pinstamp) (set_pincushion (Some (set_connected (xe_host e) node)) c), Some pin)
      else Ok (set_pincushion (Some node) c, Some pin)
    | _ => Ok (c, None)
    end.

(** [while (status != NULL)], [i] tags so far. *)
Fixpoint AddTags (fuel : nat) (c : Client_t) (status : list Z) (i : Z) : res (Client_t * Z) :=
  match fuel with
  | O => Fault NoFuel
  | S fuel =>
    let '(tag, rest) := strsep status 32 in
    c ← Client_AddInvalTag c tag;
    match rest with
    | Some status => AddTags fuel c status (i + 1)
    | None => Ok (c, i + 1)
    end
  end.

(** The validity interval in the status of the database. *)
Definition ExecValidity (c : Client_t) (status : list Z) : res Client_t :=
  match sscanf status (str "SELECT VALIDITY %u %u TAGS %u %n") with
  | ([lo; hi; nTags], n) =>
    Assert (0 <? s32 nTags);;
    let rest := drop (Z.to_nat (default 0 n)) status in
    '(c, i) ← AddTags (S (length rest)) c rest 0;
    Assert (i =? s32 nTags);;
    Client_UpdateInterval c (Interval lo hi true)
  | ([lo; hi], _) => Client_UpdateInterval c (Interval lo hi false)
  | _ => Ok c
  end.

(** What follows [PQsendQuery]: the replies to COMMIT, BEGIN and PIN, then the
    query's own result. *)
Definition ExecReplies (c : Client_t) (e : exec_env) (needCommit needBegin needNewPin : bool) (pin : Z) :
    res (Client_t * option PGresult) :=
  let '(c, r) := if needCommit then Client_ExecConsumeOne c (str "COMMIT") (Some (str "ROLLBACK"))
                 else (c, None) in
  match r with
  | Some r => Ok (c, Some r)
  | None =>
    let '(c, r) := if needBegin then Client_ExecConsumeOne c (str "BEGIN") None else (c, None) in
    match r with
    | Some r => Ok (c, Some r)
    | None =>
      let c := if needBegin then bump roDBXactions c else c in
      '(c, p) ← (if needNewPin then ExecPin c e else Ok (c, Some pin));
      match (p : option Z) with
      | None => Ok (c, None)
      | Some pin =>
        let c := if needBegin then set_activePin pin c else c in
        Assert (negb (bypassMode c) || (activePin c =? PIN_INF));;
        '(c, r) ← Client_ExecFinish c (xe_bad e);
        if negb (bypassMode c) && status_is r PGRES_TUPLES_OK
        then c ← ExecValidity c (match r with Some r => r_cmdStatus r | None => [] end); Ok (c, r)
        else Ok (c, r)
      end
    end
  end.

Definition Client_Exec (c : Client_t) (e : exec_env) (sql : list Z) : res (Client_t * option PGresult) :=
  let '(c, ok) := Client_ConnectPG c (xe_connectPG e) in
  if negb ok then Fault PanicCall
  else if bottom c =? 0 then
    Ok (set_pending [] (emit (ESql sql) (bump rwQueries c)), xe_exec e)
  else
    policy ← deref (choosePin c);
    pin ← fn policy (xe_choose e) (pinSet c);
    Assert (negb (pin =? PIN_INVALID));;
    '(needCommit, needBegin, needNewPin, newSql) ←
      (if negb (pin =? activePin c) then
         has ← PinSet_Contains (pinSet c) pin;
         if negb (has : bool) then Fault PanicCall
         else
           let needCommit := negb (activePin c =? PIN_INVALID) in
           let needNewPin := (pin =? PIN_INF) && negb (bypassMode c) in
           newSql ← BuildSql needCommit needNewPin (bypassMode c) pin sql;
           Ok (needCommit, true, needNewPin, newSql)
       else Ok (false, false, false, sql));
    let c := bump roQueries c in
    if negb (xe_send e) then Ok (c, None)
    else ExecReplies (set_pending (xe_results e) (emit (ESql newSql) c)) e needCommit needBegin needNewPin pin.

(** ** Cacheable functions *)

Definition Client_MightCache (c : Client_t) : bool := negb (bottom c =? 0).

(** The cache node: [RPCC_Connect], the answer of [ServerProxy_Lookup] (data,
    interval, tags) or NULL, and whether the host is still connected. *)
Record lookup_env : Type := LookupEnv {
  le_connect : bool;
  le_answer : option (list Z * interval_t * list (list Z));
  le_host : bool
}.

(** The lookup of [Client_TryEnterCacheable]: data on a hit. *)
Definition TryLookup (c : Client_t) (k : keyref) (e : lookup_env) : res (Client_t * option (list Z)) :=
  if negb (PinSet_JustStar (pinSet c)) then
    n ← Client_GetNode c k;
    node ← deref (cacheNodes c !! n);
    let '(node, host) := NodeToHost node (le_connect e) in
    let c := set_cacheNodes (<[n := node]> (cacheNodes c)) c in
    if negb host then Ok (c, None)
    else
      lookupInterval ← PinSet_BoundsWithoutStar (pinSet c);
      let c := emit (ELookup n (kbytes k) lookupInterval (earliestPin c) (memcachedMode c)) c in
      let c := set_cacheNodes (<[n := set_connected (le_host e) node]> (cacheNodes c)) c in
      match le_answer e with
      | Some (data, iv, tags) =>
        let c := bump cacheHits c in
        c ← Client_UpdateInvalTagsFromSet c tags;
        c ← Client_UpdateInterval c iv;
        Ok (c, Some data)
      | None => Ok (bump cacheMisses c, None)
      end
  else Ok (bump cacheSkips c, None).

(** [frameOut] is the address of the caller's frame. *)
Definition Client_TryEnterCacheable (c : Client_t) (k : keyref) (frameOut : Z) (e : lookup_env) :
    res (Client_t * option (list Z)) :=
  if bottom c =? 0 then Fault PanicCall
  else
    '(c, data) ← TryLookup c k e;
    match (data : option (list Z)) with
    | Some d => Ok (c, Some d)
    | None =>
      let c := set_frame frameOut (Frame k (Interval PIN_NEG_INF PIN_INF true) [] false (bottom c)) c in
      Ok (set_bottom frameOut c, None)
    end.

Definition Client_Pop (c : Client_t) (frame : Z) : res (Client_t * ClientCacheableFrame_t) :=
  if bottom c =? 0 then Fault PanicCall
  else if negb (bottom c =? frame) then Fault PanicCall
  else
    f ← deref (frames c !! frame);
    if parent f =? 0 then Fault PanicCall
    else Ok (set_bottom (parent f) c, f).

(** The cache node of a put. *)
Record put_env : Type := PutEnv {
  pe_connect : bool;
  pe_host : bool
}.

(** The interval and the tags of the item that is put. *)
Definition ItemInterval (c : Client_t) (f : ClientCacheableFrame_t) : res (interval_t * list (list Z)) :=
  let item := interval f in
  if stillValid item && negb (bypassMode c) then
    (if bool_decide (invalTags f = []) then Assert (negb (willingToDealWithInvalidations f)) else Ok tt);;
    if negb (willingToDealWithInvalidations f) then Ok (set_stillValid false item, [])
    else Ok (item, invalTags f)
  else Ok (item, []).

Definition Client_ExitCacheable (c : Client_t) (frame : Z) (data : list Z) (e : put_env) : res Client_t :=
  '(c, f) ← Client_Pop c frame;
  c ← Client_UpdateInterval c (interval f);
  c ← Client_UpdateInvalTagsFromSet c (invalTags f);
  '(item, tags) ← ItemInterval c f;
  c ← (if negb (bypassMode c) then
         n ← Client_GetNode c (fkey f);
         node ← deref (cacheNodes c !! n);
         let '(node, host) := NodeToHost node (pe_connect e) in
         let c := set_cacheNodes (<[n := node]> (cacheNodes c)) c in
         if negb host then Ok c
         else
           let c := emit (EPut n (kbytes (fkey f)) item data tags (memcachedMode c)) c in
           Ok (set_cacheNodes (<[n := set_connected (pe_host e) node]> (cacheNodes c)) c)
       else Ok c);
  Ok (set_frame frame (frame_tags [] f) c).

Definition Client_ExitCacheableAbort (c : Client_t) (frame : Z) : res Client_t :=
  '(c, _) ← Client_Pop c frame;
  Ok (bump cacheableAborts c).

Definition Client_AddExplicitInvalTag (c : Client_t) (tag : list Z) : res Client_t :=
  if bottom c =? 0 then Ok c else Client_AddInvalTag c tag.

Definition Client_ExplicitlyInvalidate (c : Client_t) (tag : list Z) (cb : bool) (result : option PGresult) :
    res Client_t :=
  if negb (bottom c =? 0) then Fault PanicCall
  else
    let '(c, ok) := Client_ConnectPG c cb in
    if negb ok then Fault PanicCall
    else
      let sql := str "INVALIDATE " ++ [34] ++ tag ++ [34; 59] in
      let c := set_pending [] (emit (ESql sql) (bump rwQueries c)) in
      if status_is result PGRES_BAD_RESPONSE || status_is result PGRES_NONFATAL_ERROR ||
         status_is result PGRES_FATAL_ERROR
      then Fault PanicCall else Ok c.

(** Written by the caller of a cacheable function, into its own frame. *)
Definition SetWilling (c : Client_t) (frame : Z) (b : bool) : res Client_t :=
  f ← deref (frames c !! frame);
  Ok (set_frame frame (Frame (fkey f) (interval f) (invalTags f) b (parent f)) c).

(** ** The registry of policies

    A policy object has an address; [next] is the memory of the link fields. *)

Record registry : Type := Registry {
  policy_at : gmap Z ClientPolicyChoosePin_t;
  policy_next : gmap Z Z;
  policyHead : Z
}.

Definition Client_RegisterPolicy (g : registry) (policy : Z) : res registry :=
  next ← deref (policy_next g !! policy);
  if negb (next =? 0) then Fault PanicCall
  else Ok (Registry (policy_at g) (<[policy := policyHead g]> (policy_next g)) policy).

Fixpoint LookupLoop (fuel : nat) (g : registry) (p : Z) (name : list Z) : res (option ClientPolicyChoosePin_t) :=
  match fuel with
  | O => Fault NoFuel
  | S fuel =>
    if p =? 0 then Ok None
    else
      policy ← deref (policy_at g !! p);
      if strcmp name (Policy.name policy) =? 0 then Ok (Some policy)
      else next ← deref (policy_next g !! p); LookupLoop fuel g next name
  end.

Definition Client_LookupPolicy (g : registry) (name : list Z) : res (option ClientPolicyChoosePin_t) :=
  LookupLoop (S (size (policy_next g))) g (policyHead g) name.

(** ** Reading nodes.txt *)

(** The local variables of [Client_Init]. *)
Record init_state : Type := InitState {
  is_choosePin : option ClientPolicyChoosePin_t;
  is_pincushion : option ClientNode_t;
  is_cacheNodes : list ClientNode_t
}.

Fixpoint strip_front (f : Z -> bool) (s : list Z) : list Z :=
  match s with
  | c :: s' => if f c then strip_front f s' else s
  | [] => []
  end.

(** One line, without its NUL.  [None]: malformed, [goto end].  The line is not
    cut at a comment sign, as [p = '\0'] overwrites the pointer only. *)
Definition InitLine (g : registry) (st : init_state) (line : list Z) : res (option init_state) :=
  let line := reverse (strip_front isspace (reverse line)) in
  if bool_decide (line = []) then Ok (Some st)
  else
    let p := strip_front isspace line in
    match is_choosePin st with
    | None =>
      policy ← Client_LookupPolicy g p;
      match policy with
      | None => Fault PanicCall
      | Some policy => Ok (Some (InitState (Some policy) (is_pincushion st) (is_cacheNodes st)))
      end
    | Some _ =>
      let '(hostname, port) := strsep p 58 in
      match port with
      | None => Ok None
      | Some port =>
        if bool_decide (port = []) then Ok None
        else if (32 <? strlen hostname + 1) || (16 <? strlen port + 1) then Ok None
        else
          let node := Node hostname port false in
          match is_pincushion st with
          | None => Ok (Some (InitState (is_choosePin st) (Some node) (is_cacheNodes st)))
          | Some _ => Ok (Some (InitState (is_choosePin st) (is_pincushion st) (is_cacheNodes st ++ [node])))
          end
      end
    end.

(** The lines [fgets] returns, and whether the last one failed with an error. *)
Fixpoint InitLoop (g : registry) (st : init_state) (lines : list (list Z)) (ferror : bool) :
    res (init_state * bool) :=
  match lines with
  | [] => Ok (st, negb ferror)
  | line :: lines =>
    st' ← InitLine g st line;
    match st' with
    | None => Ok (st, false)
    | Some st => InitLoop g st lines ferror
    end
  end.

(** [file]: the lines of nodes.txt, or [None] when it cannot be opened. *)
Definition Client_Init (g : registry) (c : Client_t) (file : option (list (list Z))) (ferror : bool) :
    res (Client_t * bool) :=
  let empty := InitState None None [] in
  '(st, result) ← match file with
                  | None => Ok (empty, false)
                  | Some lines => InitLoop g empty lines ferror
                  end;
  let c := Client_InitWith c (is_choosePin st) (is_pincushion st)
             (Z.of_nat (length (is_cacheNodes st))) (is_cacheNodes st) in
  if (result : bool) then Ok (c, true) else c ← Client_Release c; Ok (c, false).
