(* ===== verification/InvaldSetup.v ===== *)
(** * Starting the invalidation daemon (src/invald/invald.c)

    [Invald_Setup] reads the addresses of the cache nodes from the file that the
    clients read with [Client_Init], and connects to them. *)

From S2P Require Import Prelude CLib CText Interval Timeval PinSet Policy Hash OrdTree IOBuf RPC Wire RpcSetup DBStatus Client.

(** What the calls answer while one line is handled: whether [malloc] has room,
    and the answers of [RPCC_Connect]'s calls. *)
Record node_env : Type := NodeEnv {
  ne_malloc : bool;
  ne_family : option Z;
  ne_socket : Z;
  ne_connect : bool;
  ne_prepare : prepare_env
}.

(** A connected node, with the host and the port it was connected to. *)
Definition node_t : Type := list Z * list Z * host_t.

(** The loop over the lines [fgets] returns, after the first two. *)
Fixpoint NodeLoop (lines : list (list Z)) (envs : list node_env) (r : resources_t) (cacheNodes : list node_t) :
    res (resources_t * list node_t) :=
  match lines with
  | [] => Ok (r, cacheNodes)
  | nodeBuf :: lines =>
    match envs with
    | [] => Fault NoFuel
    | e :: envs =>
      if negb (ne_malloc e) then Fault PanicCall
      else
        let '(host, sep) := strsep nodeBuf 58 in
        match sep with
        | None => Fault PanicCall
        | Some sep =>
          let port := (strsep sep 10).1 in
          '(r, h) ← RPCC_Connect (ne_family e) (ne_socket e) (ne_connect e) (ne_prepare e) r;
          match h with
          | None => NodeLoop lines envs r cacheNodes
          | Some h => NodeLoop lines envs r (cacheNodes ++ [(host, port, h)])
          end
        end
    end
  end.

(** [db] and [listen]: whether the database accepts the connection and the LISTEN
    command; [ps] its socket; [re] whether the reactor has room. *)
Definition Invald_Setup (db listen : bool) (ps : Z) (re : bool) (lines : list (list Z)) (envs : list node_env)
    (r : resources_t) : res (resources_t * list node_t) :=
  if negb db then Fault PanicCall
  else if negb listen then Fault PanicCall
  else if ps <=? 0 then Fault PanicCall
  else if negb re then Fault PanicCall
  else
    match lines with
    | _ :: _ :: lines =>
      '(r, cacheNodes) ← NodeLoop lines envs r [];
      match cacheNodes with
      | [] => Fault PanicCall
      | _ => Ok (r, cacheNodes)
      end
    | _ => Fault PanicCall
    end.

(** The connection to the database is never marked writable. *)
Definition InvaldOnPGWritable : res unit := Fault PanicCall.

(** ** The nodes of the clients *)

(** A line with the address of a node. *)
Definition address : Type := list Z * list Z.

Definition address_line (a : address) : list Z := a.1 ++ 58 :: a.2 ++ [10].

(** Names without white space and colons that fit into the client's fields. *)
Definition address_ok (a : address) : Prop :=
  a.1 <> [] /\ a.2 <> [] /\ Forall (fun c => isspace c = false /\ c <> 58) (a.1 ++ a.2) /\
  strlen a.1 < 32 /\ strlen a.2 < 16.

Definition the_node (a : address) : ClientNode_t := Node a.1 a.2 false.

Lemma strsep_cut d a rest : Forall (fun c => c <> d) a -> strsep (a ++ d :: rest) d = (a, Some rest).
Proof.
  induction 1 as [|c a Hc _ IH]; cbn [app strsep]; [by rewrite Z.eqb_refl|].
  rewrite (proj2 (Z.eqb_neq c d)) by done. by rewrite IH.
Qed.

Lemma address_sep a : address_ok a -> strsep (address_line a) 58 = (a.1, Some (a.2 ++ [10])) /\ strsep (a.2 ++ [10]) 10 = (a.2, Some []).
Proof.
  intros (_ & _ & HF & _). apply Forall_app in HF as [H1 H2]. split; apply strsep_cut.
  - eapply Forall_impl; [exact H1|]. by intros c [_ ?].
  - eapply Forall_impl; [exact H2|]. intros c [Hc _] ->. done.
Qed.

(** The nodes whose connection succeeds, with what [RPCC_Connect] makes of them. *)
Definition reached (e : node_env) : bool :=
  match ne_family e with Some _ => ne_connect e | None => false end.

Definition env_fine (e : node_env) : Prop :=
  ne_malloc e = true /\ (ne_family e = None \/ ne_family e = Some AF_INET) /\
  (ne_socket e < 0 -> ne_connect e = false) /\ prepare_ok (ne_prepare e).

Lemma Connect_outcome e r : env_fine e ->
  exists r' o, RPCC_Connect (ne_family e) (ne_socket e) (ne_connect e) (ne_prepare e) r = Ok (r', o) /\
    if reached e then exists h, o = Some h /\ fresh_host (ne_socket e) false h else o = None.
Proof.
  intros (_ & Hf & _ & Hp). unfold RPCC_Connect, reached. destruct (ne_family e) as [f|]; [|by eexists _, _].
  destruct Hf as [|[= ->]]; [done|]. rewrite Z.eqb_refl. cbn [negb].
  destruct (ne_connect e); cbn [negb]; [|by eexists _, _].
  destruct (Prepare_ok (ne_prepare e) (ne_socket e) false Hp) as (h & -> & Hh). cbn [mbind res_bind negb orb] in *.
  eexists _, _. split; [reflexivity|]. eauto.
Qed.

(** The addresses the daemon is connected to, in the order of the file. *)
Lemma NodeLoop_ok addrs : forall envs r nodes,
  Forall address_ok addrs -> length envs = length addrs -> Forall env_fine envs ->
  exists r' nodes', NodeLoop (map address_line addrs) envs r nodes = Ok (r', nodes ++ nodes') /\
    map fst nodes' = map fst (filter (fun x => reached x.2 = true) (zip addrs envs)) /\
    Forall (fun n => exists s, fresh_host s false n.2) nodes'.
Proof.
  induction addrs as [|a addrs IH]; intros envs r nodes Ha Hl He; cbn [map NodeLoop].
  { exists r, []. by rewrite app_nil_r. }
  destruct envs as [|e envs]; [done|]. apply Forall_cons in Ha as [Ha1 Ha]. apply Forall_cons in He as [He1 He].
  rewrite (proj1 He1). cbn [negb]. destruct (address_sep a Ha1) as [-> Ep]. rewrite Ep. cbn [fst].
  destruct (Connect_outcome e r He1) as (r1 & o & -> & Ho). rewrite bind_ret_l. cbn [zip zip_with]. rewrite filter_cons.
  cbn [length] in Hl. injection Hl as Hl. cbn [snd]. destruct (reached e).
  - destruct Ho as (h & -> & Hh). rewrite decide_True by done.
    destruct (IH envs r1 (nodes ++ [(a.1, a.2, h)]) Ha Hl He) as (r' & nodes' & -> & En & Hf).
    exists r', ((a.1, a.2, h) :: nodes'). rewrite <- app_assoc. split_and!; [done| |].
    + cbn [map fst]. rewrite En. by destruct a.
    + constructor; [by eexists|done].
  - rewrite Ho, decide_False by done. destruct (IH envs r1 nodes Ha Hl He) as (r' & nodes' & -> & R). eauto.
Qed.

Lemma strip_stop f c s : f c = false -> strip_front f (c :: s) = c :: s.
Proof. intros H. cbn [strip_front]. by rewrite H. Qed.

(** Text that starts and ends without white space, before the end of the line. *)
Lemma line_stripped c s d s' : c :: s = s' ++ [d] -> isspace c = false -> isspace d = false ->
  strip_front isspace (reverse (strip_front isspace (reverse ((c :: s) ++ [10])))) = c :: s /\
  reverse (strip_front isspace (reverse ((c :: s) ++ [10]))) = c :: s.
Proof.
  intros E Hc Hd. rewrite reverse_app. cbn [reverse]. change (reverse [10]) with [10]. cbn [app strip_front].
  change (isspace 10) with true. cbn match. rewrite E at 1. rewrite reverse_snoc, strip_stop, <- reverse_snoc, <- E by done.
  rewrite reverse_involutive, strip_stop by done. split; [done|].
  rewrite E, reverse_snoc, strip_stop, <- reverse_snoc by done. by rewrite reverse_involutive.
Qed.

Lemma InitLine_address g st a pol : address_ok a -> is_choosePin st = Some pol ->
  InitLine g st (address_line a) =
  Ok (Some (match is_pincushion st with
            | None => InitState (Some pol) (Some (the_node a)) (is_cacheNodes st)
            | Some pc => InitState (Some pol) (Some pc) (is_cacheNodes st ++ [the_node a])
            end)).
Proof.
  intros (H1 & H2 & HF & L1 & L2) Hp. destruct a as [host port]. cbn [fst snd] in *.
  destruct host as [|c host]; [done|]. destruct (exists_last H2) as (p' & d & Ed).
  apply Forall_app in HF as [HF1 HF2]. pose proof (proj1 (Forall_cons_1 _ _ _ HF1)) as [Hc _].
  assert (Hd : isspace d = false) by (rewrite Ed in HF2; apply Forall_app in HF2 as [_ HF2]; apply Forall_cons in HF2 as [[? _] _]; done).
  assert (Hsep : strsep (c :: host ++ 58 :: port) 58 = (c :: host, Some port)).
  { apply (strsep_cut 58 (c :: host)). eapply Forall_impl; [exact HF1|]. by intros x [_ ?]. }
  assert (El : address_line (c :: host, port) = (c :: host ++ 58 :: port) ++ [10]).
  { unfold address_line. cbn [fst snd app]. by rewrite <- app_assoc. }
  destruct (line_stripped c (host ++ 58 :: port) d (c :: host ++ 58 :: p')) as [S1 S2]; [|done|done|].
  { rewrite Ed. cbn. by rewrite <- app_assoc. }
  unfold InitLine. rewrite El, S2. rewrite bool_decide_eq_false_2 by done.
  rewrite S2 in S1. rewrite S1, Hp, Hsep. rewrite bool_decide_eq_false_2 by done.
  rewrite (proj2 (Z.ltb_ge _ _)), (proj2 (Z.ltb_ge 16 _)) by lia. cbn [orb]. by destruct (is_pincushion st).
Qed.

Lemma InitLine_policy g name pol : Client_LookupPolicy g name = Ok (Some pol) -> name <> [] ->
  Forall (fun c => isspace c = false) name ->
  InitLine g (InitState None None []) (name ++ [10]) = Ok (Some (InitState (Some pol) None [])).
Proof.
  intros Hg Hne Hn. destruct name as [|x name]; [done|]. destruct (exists_last (l := x :: name)) as (p' & d & Ed); [done|].
  assert (Hd : isspace d = false) by (rewrite Ed in Hn; apply Forall_app in Hn as [_ Hn]; by apply Forall_cons in Hn as [? _]).
  destruct (line_stripped x name d p' Ed (proj1 (Forall_cons_1 _ _ _ Hn)) Hd) as [S1 S2].
  unfold InitLine. rewrite S2. rewrite S2 in S1. rewrite S1, bool_decide_eq_false_2 by done.
  cbn [is_choosePin]. by rewrite Hg.
Qed.

Lemma InitLoop_nodes g pol pc addrs : forall nodes, Forall address_ok addrs ->
  InitLoop g (InitState (Some pol) (Some pc) nodes) (map address_line addrs) false =
  Ok (InitState (Some pol) (Some pc) (nodes ++ map the_node addrs), true).
Proof.
  induction addrs as [|a addrs IH]; intros nodes HF; cbn [map InitLoop]; [by rewrite app_nil_r|].
  apply Forall_cons in HF as [Ha HF]. rewrite (InitLine_address g _ a pol Ha) by done. cbn [mbind res_bind is_pincushion is_cacheNodes].
  rewrite (IH _ HF), <- app_assoc. done.
Qed.

(** A file with a policy, the pincushion and the cache nodes. *)
Definition nodes_file (policy : list Z) (pc : address) (addrs : list address) : list (list Z) :=
  (policy ++ [10]) :: address_line pc :: map address_line addrs.

(** Whatever the first two lines are, the daemon connects to the addresses in the
    other lines. *)
Lemma Setup_nodes l1 l2 addrs db_socket envs r : Forall address_ok addrs -> 0 < db_socket ->
  length envs = length addrs -> Forall env_fine envs -> Exists (fun e => reached e = true) envs ->
  exists r' nodes, Invald_Setup true true db_socket true (l1 :: l2 :: map address_line addrs) envs r = Ok (r', nodes) /\
    map fst nodes = map fst (filter (fun x => reached x.2 = true) (zip addrs envs)).
Proof.
  intros Ha Hdb Hl He Hex. unfold Invald_Setup. cbn [negb]. rewrite (proj2 (Z.leb_gt _ _)) by lia.
  destruct (NodeLoop_ok addrs envs r [] Ha Hl He) as (r' & nodes & -> & En & _). rewrite bind_ret_l. cbn [app].
  destruct nodes as [|n nodes]; [|by eexists _, _]. exfalso. cbn [map] in En. symmetry in En. apply map_eq_nil in En.
  apply Exists_exists in Hex as (e & Hin & Hr). apply list_elem_of_lookup in Hin as (i & Hi).
  destruct (lookup_lt_is_Some_2 addrs i) as [a Hai]; [rewrite <- Hl; by eapply lookup_lt_Some|].
  assert (Hz : (a, e) ∈ filter (fun x => reached x.2 = true) (zip addrs envs)).
  { apply list_elem_of_filter. split; [done|]. apply list_elem_of_lookup. exists i. by apply lookup_zip_with_Some; exists a, e. }
  rewrite En in Hz. by apply not_elem_of_nil in Hz.
Qed.

Lemma Init_nodes g c name pol pc addrs :
  Client_LookupPolicy g name = Ok (Some pol) -> name <> [] -> Forall (fun c => isspace c = false) name ->
  address_ok pc -> Forall address_ok addrs ->
  exists c', Client_Init g c (Some (nodes_file name pc addrs)) false = Ok (c', true) /\
    cacheNodes c' = map the_node addrs /\ pincushion c' = Some (the_node pc).
Proof.
  intros Hg Hne Hn Hpc Ha. unfold Client_Init, nodes_file. cbn [InitLoop].
  rewrite (InitLine_policy g name pol Hg Hne Hn). cbn [mbind res_bind].
  rewrite (InitLine_address g _ pc pol Hpc) by done.
  cbn [mbind res_bind is_pincushion is_cacheNodes]. rewrite InitLoop_nodes by done. cbn [mbind res_bind].
  eexists. split; [reflexivity|]. by split.
Qed.

(** The daemon and the clients read the same nodes: from a file without blank
    lines, [Client_Init] takes the addresses in their order, and [Invald_Setup] is
    connected to the same ones, up to those that could not be reached. *)
Lemma same_nodes g c name pol pc addrs db_socket envs r :
  Client_LookupPolicy g name = Ok (Some pol) -> name <> [] -> Forall (fun c => isspace c = false) name ->
  address_ok pc -> Forall address_ok addrs -> 0 < db_socket ->
  length envs = length addrs -> Forall env_fine envs -> Exists (fun e => reached e = true) envs ->
  (exists c', Client_Init g c (Some (nodes_file name pc addrs)) false = Ok (c', true) /\
    cacheNodes c' = map the_node addrs /\ pincushion c' = Some (the_node pc)) /\
  exists r' nodes, Invald_Setup true true db_socket true (nodes_file name pc addrs) envs r = Ok (r', nodes) /\
    map fst nodes = map fst (filter (fun x => reached x.2 = true) (zip addrs envs)).
Proof.
  intros Hg Hne Hn Hpc Ha Hdb Hl He Hex. split; [by eapply Init_nodes|by apply Setup_nodes].
Qed.

(** A blank line before the policy: the clients skip it, and the daemon, which
    drops two lines as they are, takes the pincushion for a cache node. *)
Lemma blank_line_misread g c name pol pc addrs db_socket envs r :
  Client_LookupPolicy g name = Ok (Some pol) -> name <> [] -> Forall (fun c => isspace c = false) name ->
  address_ok pc -> Forall address_ok addrs -> 0 < db_socket ->
  length envs = S (length addrs) -> Forall env_fine envs -> Exists (fun e => reached e = true) envs ->
  (exists c', Client_Init g c (Some ([10] :: nodes_file name pc addrs)) false = Ok (c', true) /\
    cacheNodes c' = map the_node addrs /\ pincushion c' = Some (the_node pc)) /\
  exists r' nodes, Invald_Setup true true db_socket true ([10] :: nodes_file name pc addrs) envs r = Ok (r', nodes) /\
    map fst nodes = map fst (filter (fun x => reached x.2 = true) (zip (pc :: addrs) envs)).
Proof.
  intros Hg Hne Hn Hpc Ha Hdb Hl He Hex. split.
  - by destruct (Init_nodes g c name pol pc addrs Hg Hne Hn Hpc Ha) as (c' & E & R); exists c'.
  - apply (Setup_nodes [10] (name ++ [10]) (pc :: addrs)); [by constructor|done..].
Qed.
