(* ===== verification/Indexes.v ===== *)
(** * The ordered indexes as red-black trees

    The store's index of tags, its buffer of invalidations and the versions of a key
    (src/server/store.c, storevset.c), and the tag sets of the client
    (src/client/client.c), are instances of the tree template.  Their comparison
    functions satisfy what the template asks for, so that the trees are the ordered
    sequences the models of the store and the client use. *)

From S2P Require Import Prelude CLib Interval OrdTree RBTree RBShape RBChain RBPath RBInv RBInsert RBRemove RBProps StoreData StatsText Store StoreInv Client.

(** ** The instances *)

#[export] Instance StoreInvalTree_keys : RBKeys StoreInvalMapEntry_t StoreInvalMapEntry_t.
Proof.
  refine {| compare := StoreInvalTree_CompareValue; init k := k; storable _ := True; lt := me_lt |}.
  - apply me_lt_trans.
  - intros k x y. apply InvalTree_monotone.
  - intros k _. by apply InvalTree_Compare_eq.
  - intros k x _. apply InvalTree_Compare_lt.
  - intros k x _. apply InvalTree_Compare_gt.
Defined.

(** The key of a search for a pin has no tag. *)
Definition buffer_key (k : StoreInvalBufferEntry_t + Z) : StoreInvalBufferEntry_t -> Z :=
  match k with inl e => StoreInvalBuffer_CompareValue (be_pin e) (Some (be_tag e)) | inr pin => StoreInvalBuffer_CompareValue pin None end.

#[export] Instance StoreInvalBuffer_keys : RBKeys (StoreInvalBufferEntry_t + Z) StoreInvalBufferEntry_t.
Proof.
  refine {| compare := buffer_key; init k := match k with inl e => e | inr pin => InvalBufferEntry pin 0 [] false end;
            storable k := match k with inl _ => True | inr _ => False end; lt := be_lt |}.
  - apply be_lt_trans.
  - intros [e|pin] x y Hxy Hx; cbn in *.
    + apply InvalBuffer_Compare_gt. assert (Hx' : x = x) by done. pose proof (InvalBuffer_Compare_lt (be_pin e) (be_tag e) x) as Hl.
      destruct (decide (StoreInvalBuffer_CompareValue (be_pin e) (Some (be_tag e)) x = 0)) as [H0|H0].
      * apply InvalBuffer_Compare_eq in H0 as [<- <-]. exact Hxy.
      * assert (Hg : be_lt e x) by (apply InvalBuffer_Compare_gt; lia). exact (be_lt_trans _ _ _ Hg Hxy).
    + unfold StoreInvalBuffer_CompareValue, be_lt in *. destruct (Z.ltb_spec (be_pin x) pin); [lia|]. destruct (Z.ltb_spec pin (be_pin x)); [|lia].
      destruct (Z.ltb_spec (be_pin y) pin); [lia|]. destruct (Z.ltb_spec pin (be_pin y)); lia.
  - intros [e|pin] H; [|done]. by apply InvalBuffer_Compare_eq.
  - intros [e|pin] x H; [|done]. apply InvalBuffer_Compare_lt.
  - intros [e|pin] x H; [|done]. apply InvalBuffer_Compare_gt.
Defined.

(** The tree of a key's versions holds the entries themselves. *)
#[export] Instance StoreVSet_keys : RBKeys Z entry_t.
Proof.
  refine {| compare l e := StoreVSet_CompareValue {[0 := e]} l 0; init := StoreVSet_InitValue; storable _ := True;
            lt e e' := lower (StoreData.interval e) < lower (StoreData.interval e') |}; intros; cbn in *; unfold StoreVSet_CompareValue in *; rewrite ?lookup_singleton_eq in *; cbn in *.
  - lia.
  - repeat case_match; bools; lia.
  - by rewrite Z.ltb_irrefl, Z.eqb_refl.
  - repeat case_match; bools; lia.
  - repeat case_match; bools; lia.
Defined.

#[export] Instance ClientInvalTagSet_keys : RBKeys (list Z) (list Z).
Proof.
  refine {| compare k v := ClientInvalTagSet_CompareValue v k; init k := k; storable _ := True; lt a b := strcmp a b < 0 |};
    unfold ClientInvalTagSet_CompareValue.
  - apply strcmp_lt_trans.
  - intros k x y Hxy Hx. destruct (decide (strcmp x k = 0)) as [E|E].
    + apply strcmp_eq in E as ->. rewrite strcmp_antisym. lia.
    + rewrite strcmp_antisym. assert (strcmp k x < 0) by (rewrite strcmp_antisym; lia).
      pose proof (strcmp_lt_trans k x y). lia.
  - intros k _. apply strcmp_refl.
  - done.
  - intros k x _ H. rewrite strcmp_antisym. lia.
Defined.

(** ** The versions of a key *)

(** The model of the store has the nodes of a tree by their addresses, and the
    entries in the heap. *)
Definition versions_of (h : gmap Z entry_t) (ids : list Z) : list (Z * entry_t) :=
  omap (fun id => pair id <$> h !! id) ids.

Lemma versions_cons h id e ids : h !! id = Some e -> versions_of h (id :: ids) = (id, e) :: versions_of h ids.
Proof. intros He. unfold versions_of. cbn. by rewrite He. Qed.

Lemma versions_fst h ids : Forall (fun id => is_Some (h !! id)) ids -> (versions_of h ids).*1 = ids.
Proof. induction 1 as [|id ids [e He] _ IH]; [done|]. rewrite (versions_cons _ _ _ _ He). cbn. by rewrite IH. Qed.

Lemma versions_cmp h l id e : h !! id = Some e -> cmp2 (compare l) (id, e) = StoreVSet_CompareValue h l id.
Proof. intros He. unfold cmp2. cbn. unfold StoreVSet_CompareValue. by rewrite lookup_singleton_eq, He. Qed.

Lemma versions_find_first (f : Z * entry_t -> bool) (g : Z -> bool) h ids : Forall (fun id => is_Some (h !! id)) ids ->
  (forall id e, h !! id = Some e -> f (id, e) = g id) -> fst <$> find_first f (versions_of h ids) = find_first g ids.
Proof.
  intros H Hfg. induction H as [|id ids [e He] _ IH]; [done|]. rewrite (versions_cons _ _ _ _ He). cbn. rewrite (Hfg _ _ He). by destruct (g id).
Qed.

Lemma versions_rev h ids : versions_of h (rev ids) = rev (versions_of h ids).
Proof.
  induction ids as [|id ids IH]; [done|]. cbn [rev]. unfold versions_of in *. rewrite omap_app, IH. cbn. destruct (h !! id); cbn; [done|by rewrite app_nil_r].
Qed.

Lemma versions_find h l rel ids : Forall (fun id => is_Some (h !! id)) ids ->
  fst <$> tree_find (cmp2 (compare l)) rel (versions_of h ids) = tree_find (StoreVSet_CompareValue h l) rel ids.
Proof.
  intros H. destruct rel; cbn [tree_find]; rewrite <- ?versions_rev; (apply versions_find_first; [by try apply Forall_rev|]);
    intros id e He; by rewrite (versions_cmp _ _ _ _ He).
Qed.

Lemma versions_remove h l ids : Forall (fun id => is_Some (h !! id)) ids ->
  tree_remove (cmp2 (compare l)) (versions_of h ids) = versions_of h (tree_remove (StoreVSet_CompareValue h l) ids).
Proof.
  induction 1 as [|id ids [e He] _ IH]; [done|]. rewrite (versions_cons _ _ _ _ He). cbn [tree_remove].
  rewrite (versions_cmp _ _ _ _ He). destruct (StoreVSet_CompareValue h l id =? 0); [done|]. by rewrite (versions_cons _ _ _ _ He), IH.
Qed.

Lemma versions_insert h l a e0 ids : Forall (fun id => is_Some (h !! id)) ids -> a ∉ ids ->
  tree_insert (cmp2 (compare l)) (a, e0) (versions_of h ids) =
    versions_of (<[a := e0]> h) <$> tree_insert (StoreVSet_CompareValue h l) a ids.
Proof.
  assert (Hv : forall ids, a ∉ ids -> versions_of (<[a := e0]> h) ids = versions_of h ids).
  { clear ids. intros ids. induction ids as [|i ids IH]; [reflexivity|]. intros [Hi Ha]%not_elem_of_cons. unfold versions_of in *. cbn. rewrite lookup_insert_ne by done. by rewrite IH. }
  induction 1 as [|id ids [e He] Hids IH]; intros Ha.
  - cbn [tree_insert fmap option_fmap option_map]. by rewrite (versions_cons _ _ e0) by apply lookup_insert_eq.
  - pose proof Ha as [Hai Ha']%not_elem_of_cons. rewrite (versions_cons _ _ _ _ He). cbn [tree_insert]. rewrite (versions_cmp _ _ _ _ He).
    destruct (StoreVSet_CompareValue h l id <? 0).
    + rewrite (IH Ha'). destruct (tree_insert _ a ids) as [ids'|]; [|done]. cbn [fmap option_fmap option_map].
      by rewrite (versions_cons _ _ e) by (by rewrite lookup_insert_ne).
    + destruct (StoreVSet_CompareValue h l id =? 0); [done|]. cbn [fmap option_fmap option_map].
      rewrite (versions_cons _ a e0) by apply lookup_insert_eq. by rewrite (Hv (id :: ids)), (versions_cons _ _ _ _ He).
Qed.

(** C21: the versions of a key in the store are a red-black tree.  Where the memory
    holds the tree of the entries [ids] of the heap, in the order of their lower
    bounds, the lookups, the insertion of a new entry and the removal that the model of
    the store does on the addresses are those of the tree: they return the same nodes
    and leave the tree of the new sequence. *)
Theorem VSet_is_tree (zero : entry_t) (T : RB_t entry_t) h ids l :
  is_rbtree T (versions_of h ids) -> versions_sorted h ids -> Forall (fun id => is_Some (h !! id)) ids ->
  (forall rel, RB_Find T (compare l) rel = Ok (default 0 (tree_find (StoreVSet_CompareValue h l) rel ids))) /\
  (forall a, a <> 0 -> a <> HEAD -> a ∉ ids -> exists T', RB_Insert zero T (compare l) (init l) (Some a) =
      Ok (T', match tree_insert (StoreVSet_CompareValue h l) a ids with Some _ => a | None => 0 end) /\
    is_rbtree T' (match tree_insert (StoreVSet_CompareValue h l) a ids with
                  | Some ids' => versions_of (<[a := StoreVSet_InitValue l]> h) ids' | None => versions_of h ids end)) /\
  (exists T', RB_Remove zero T (compare l) = Ok (T', tree_find (StoreVSet_CompareValue h l) RB_EQ ids ≫= (h !!.)) /\
    is_rbtree T' (versions_of h (tree_remove (StoreVSet_CompareValue h l) ids))).
Proof.
  intros HT Hs Hids. assert (Ho : in_order (versions_of h ids)).
  { unfold in_order. revert Hs. unfold versions_sorted. clear HT. induction Hids as [|id ids [e He] Hids IH]; [constructor|].
    intros [Hs Hid]%StronglySorted_inv. rewrite (versions_cons _ _ _ _ He). constructor; [auto|].
    clear IH Hs. induction Hids as [|id' ids [e' He'] Hids IH]; [constructor|]. apply Forall_cons in Hid as [Hi Hid]. rewrite (versions_cons _ _ _ _ He').
    constructor; [|auto]. unfold lower_at in Hi. by rewrite He, He' in Hi. }
  pose proof (in_order_for _ l Ho) as Hso. split_and!.
  - intros rel. rewrite (RB_Find_spec _ _ _ _ HT Hso). by rewrite (versions_find h l rel ids Hids).
  - intros a Ha0 HaH Ha. destruct (rb_run_ok zero (OpInsert l a) T (versions_of h ids) HT Ho) as (T' & E & I).
    { split_and!; try done. by rewrite versions_fst. }
    cbn [rb_run seq_run] in E, I. rewrite (versions_insert h l a (init l) ids Hids Ha) in E, I. apply bind_Ok in E as ([T1 r] & E & E'). injection E' as -> E'.
    exists T'. rewrite E. destruct (tree_insert (StoreVSet_CompareValue h l) a ids); cbn in *; split; congruence || done.
  - destruct (RB_Remove_ok (compare l) zero T _ HT Hso) as (T' & E & I). exists T'. rewrite <- (versions_remove _ _ _ Hids). split; [|done].
    rewrite E, <- (versions_find h l RB_EQ ids Hids). do 2 f_equal. destruct (tree_find _ RB_EQ (versions_of h ids)) as [[id e]|] eqn:Ef; [|done].
    cbn. cbn [tree_find] in Ef. apply find_first_Some in Ef as (l1 & l2 & Ev & _). assert (Hin : (id, e) ∈ versions_of h ids) by (rewrite Ev; set_solver).
    unfold versions_of in Hin. apply list_elem_of_omap in Hin as (id' & _ & Hin). destruct (h !! id') eqn:Hh; [|done]. by injection Hin as -> ->.
Qed.

Lemma VSet_is_tree_witness :
  exists T : RB_t entry_t, is_rbtree T (versions_of {[1 := StoreVSet_InitValue 5]} [1]) /\
    RB_Find T (compare 7) RB_LT = Ok 1 /\ exists T', RB_Insert (StoreVSet_InitValue 0) T (compare 7) (init 7) (Some 2) = Ok (T', 2).
Proof.
  destruct (rb_run_ok (StoreVSet_InitValue 0) (OpInsert 5 1) (RB_Init (RBT 0 0 0 0 ∅)) []) as (T & _ & I); [by apply is_rbtree_init|constructor|by cbn; set_solver|].
  exists T. split; [exact I|].
  destruct (VSet_is_tree (StoreVSet_InitValue 0) T {[1 := StoreVSet_InitValue 5]} [1] 7) as (Hf & Hi & _);
    [exact I|repeat constructor|constructor; [rewrite lookup_singleton_eq; by eexists|constructor]|].
  split; [exact (Hf RB_LT)|]. destruct (Hi 2) as (T' & E & _); [done|done|set_solver|]. exists T'. exact E.
Defined.
