(* ===== verification/ClientParse.v ===== *)
(** * What the client reads is what the database wrote

    The parsers of [Client_Exec] on the status texts of [DBStatus]. *)

From S2P Require Import Prelude CLib CText Interval Timeval PinSet Policy Hash OrdTree DBStatus Client.

(** ** [sscanf] on printed text *)

Lemma scanf_lit c f s pos : scanf_from (DLit c :: f) (c :: s) pos = scanf_from f s (pos + 1).
Proof. cbn. by rewrite Z.eqb_refl. Qed.

Lemma scanf_space c f s pos :
  isspace c = false -> scanf_from (DSpace :: f) (32 :: c :: s) pos = scanf_from f (c :: s) (pos + 1).
Proof.
  intros Hc. cbn [scanf_from skip_spaces isspace Z.eqb Pos.eqb orb]. cbn. rewrite Hc.
  f_equal. unfold strlen. cbn [length]. lia.
Qed.

(** Leaves the conversion of the number folded. *)
Lemma scanf_u fuel n f s pos :
  (0 < fuel)%nat -> 0 <= n < 10 ^ Z.of_nat fuel -> n < 2 ^ 32 -> no_digit s ->
  scanf_from (DU :: f) (digits fuel n ++ s) pos =
    let '(vs, k) := scanf_from f s (pos + strlen (digits fuel n)) in (n :: vs, k).
Proof.
  intros Hf Hn H32 Hs. cbn [scanf_from]. rewrite scan_number_digits by done.
  replace (strlen (digits fuel n ++ s) - strlen s) with (strlen (digits fuel n))
    by (unfold strlen; rewrite length_app; lia).
  assert (conv_u false n = n) as ->; [|done].
  unfold conv_u. rewrite (proj2 (Z.leb_gt _ _)) by lia. apply u32_small. lia.
Qed.

Lemma scanf_lld n f s pos :
  0 <= n < 2 ^ 63 -> no_digit s ->
  scanf_from (DLld :: f) (fmt_lld n ++ s) pos =
    let '(vs, k) := scanf_from f s (pos + strlen (fmt_lld n)) in (n :: vs, k).
Proof.
  intros Hn Hs. cbn [scanf_from]. unfold fmt_lld.
  rewrite scan_number_digits; [|lia|cbn; lia|done].
  replace (strlen (digits 20 n ++ s) - strlen s) with (strlen (digits 20 n))
    by (unfold strlen; rewrite length_app; lia).
  assert (conv_lld false n = n) as ->; [|done]. unfold conv_lld. lia.
Qed.

(** A printed number starts with a character that is not white space. *)
Lemma digits_head fuel n :
  (0 < fuel)%nat -> 0 <= n -> exists c l, digits fuel n = c :: l /\ isspace c = false.
Proof.
  intros Hf Hn. pose proof (digits_nonempty fuel n Hf). pose proof (digits_digit fuel n Hn) as Hd.
  destruct (digits fuel n) as [|c l]; [done|]. exists c, l. split; [done|].
  apply Forall_cons in Hd as [Hc _]. apply isdigit_bounds in Hc.
  unfold isspace. rewrite orb_false_iff, andb_false_iff, Z.eqb_neq, !Z.leb_gt. lia.
Qed.

Lemma scanf_space_digits fuel n f s pos :
  (0 < fuel)%nat -> 0 <= n ->
  scanf_from (DSpace :: f) (32 :: digits fuel n ++ s) pos = scanf_from f (digits fuel n ++ s) (pos + 1).
Proof.
  intros Hf Hn. destruct (digits_head fuel n Hf Hn) as (c & l & -> & Hc). by apply scanf_space.
Qed.

(** The format, and the words of the text, as characters. *)
Lemma validity_format_eq :
  parse_format (str "SELECT VALIDITY %u %u TAGS %u %n") =
    map DLit [83; 69; 76; 69; 67; 84] ++ DSpace :: map DLit [86; 65; 76; 73; 68; 73; 84; 89] ++
    DSpace :: DU :: DSpace :: DU :: parse_format (str " TAGS %u %n").
Proof. vm_compute. reflexivity. Qed.

Lemma tags_format_eq :
  parse_format (str " TAGS %u %n") = DSpace :: map DLit [84; 65; 71; 83] ++ [DSpace; DU; DSpace; DN].
Proof. vm_compute. reflexivity. Qed.

Lemma select_words :
  str "SELECT VALIDITY " = [83; 69; 76; 69; 67; 84; 32; 86; 65; 76; 73; 68; 73; 84; 89; 32] /\
  str " " = [32] /\ str " TAGS " = [32; 84; 65; 71; 83; 32].
Proof. vm_compute. done. Qed.

(** The part of the status up to the upper bound of the interval. *)
Lemma scan_validity lo hi s :
  0 <= lo < 2 ^ 32 -> 0 <= hi < 2 ^ 32 -> no_digit s ->
  sscanf (str "SELECT VALIDITY " ++ fmt_u lo ++ str " " ++ fmt_u hi ++ s)
    (str "SELECT VALIDITY %u %u TAGS %u %n") =
  let '(vs, k) := scanf_from (parse_format (str " TAGS %u %n")) s
    (strlen (str "SELECT VALIDITY " ++ fmt_u lo ++ str " " ++ fmt_u hi)) in (lo :: hi :: vs, k).
Proof.
  intros Hlo Hhi Hs. unfold sscanf, fmt_u. rewrite !u32_small by lia.
  rewrite validity_format_eq. generalize (parse_format (str " TAGS %u %n")) as f. intros f.
  destruct select_words as (-> & -> & _). cbn [app map].
  do 6 rewrite scanf_lit. rewrite scanf_space by done. do 8 rewrite scanf_lit.
  rewrite scanf_space_digits by lia. rewrite scanf_u by (done || cbn; lia).
  rewrite scanf_space_digits by lia. rewrite scanf_u by (done || cbn; lia).
  match goal with |- context [scanf_from f s ?p] => set (pos := p) end.
  match goal with |- context [scanf_from f s (strlen ?l)] => assert (pos = strlen l) as -> end; [|by destruct (scanf_from f s _)].
  unfold pos, strlen. cbn [length]. rewrite ?length_app. cbn [length]. rewrite ?length_app. cbn [length]. lia.
Qed.

Lemma scan_closed lo hi tags :
  0 <= lo < 2 ^ 32 -> 0 <= hi < 2 ^ 32 ->
  sscanf (SelectTag lo hi false tags) (str "SELECT VALIDITY %u %u TAGS %u %n") = ([lo; hi], None).
Proof.
  intros Hlo Hhi. rewrite SelectTag_closed.
  rewrite <- (app_nil_r (fmt_u hi)). by rewrite scan_validity.
Qed.

Lemma tag_words_length tags : (length tags <= length (tag_words tags))%nat.
Proof.
  unfold tag_words. induction tags as [|t tags IH]; cbn [length map concat]; [lia|].
  rewrite !length_app. pose proof (eq_refl : length (str " ") = 1%nat). lia.
Qed.

(** The tags after the count, without the first space. *)
Definition join_tags (tags : list (list Z)) : list Z := tl (tag_words tags).

Lemma drop_strlen (a b : list Z) : drop (Z.to_nat (strlen a)) (a ++ b) = b.
Proof. unfold strlen. rewrite Nat2Z.id. apply drop_app_length. Qed.

Lemma scan_open lo hi tags :
  0 <= lo < 2 ^ 32 -> 0 <= hi < 2 ^ 32 -> status_fits lo hi tags -> Forall tag_ok tags -> tags <> [] ->
  exists n, sscanf (SelectTag lo hi true tags) (str "SELECT VALIDITY %u %u TAGS %u %n") =
      ([lo; hi; Z.of_nat (length tags)], Some n) /\
    drop (Z.to_nat n) (SelectTag lo hi true tags) = join_tags tags.
Proof.
  intros Hlo Hhi Hfit Htags Hne. rewrite SelectTag_open by done.
  assert (Hlen : 0 <= Z.of_nat (length tags) < 2 ^ 32).
  { pose proof (tag_words_length tags).
    unfold status_fits, tags_text in Hfit. rewrite !length_app in Hfit. lia. }
  rewrite scan_validity by done. destruct tags as [|t tags]; [done|].
  apply Forall_cons in Htags as [[Hs Ht] _]. destruct t as [|c t]; [done|].
  apply Forall_cons in Hs as [Hc _].
  set (pre := str "SELECT VALIDITY " ++ fmt_u lo ++ str " " ++ fmt_u hi).
  set (N := Z.of_nat (length ((c :: t) :: tags))) in *.
  assert (Hw : tags_text ((c :: t) :: tags) =
    [32; 84; 65; 71; 83; 32] ++ digits 20 N ++ [32] ++ join_tags ((c :: t) :: tags)).
  { unfold tags_text, join_tags, tag_words. destruct select_words as (_ & E & ->).
    cbn [map concat]. rewrite E. done. }
  assert (Hj : join_tags ((c :: t) :: tags) = c :: t ++ tag_words tags) by done.
  rewrite Hw, tags_format_eq. cbn [app map].
  rewrite scanf_space by done. do 4 rewrite scanf_lit. rewrite scanf_space_digits by lia.
  rewrite scanf_u by (done || cbn; lia). rewrite Hj, scanf_space by done. cbn [scanf_from].
  eexists. split; [reflexivity|]. rewrite <- Hj.
  match goal with |- drop (Z.to_nat ?p) ?l = _ =>
    replace l with ((pre ++ [32; 84; 65; 71; 83; 32] ++ digits 20 N ++ [32]) ++ join_tags ((c :: t) :: tags));
    [replace p with (strlen (pre ++ [32; 84; 65; 71; 83; 32] ++ digits 20 N ++ [32])); [apply drop_strlen|]|]
  end.
  - unfold strlen. rewrite !length_app. cbn [length]. lia.
  - unfold pre. rewrite <- !(assoc_L (++)). cbn [app]. by rewrite <- ?(assoc_L (++)).
Qed.

(** ** Tags *)

Lemma strsep_none t : Forall (fun c => isspace c = false) t -> strsep t 32 = (t, None).
Proof.
  induction 1 as [|c t Hc _ IH]; [done|]. cbn. rewrite IH.
  rewrite (proj2 (Z.eqb_neq c 32)); [done|]. by intros ->.
Qed.

Lemma strsep_some t rest :
  Forall (fun c => isspace c = false) t -> strsep (t ++ 32 :: rest) 32 = (t, Some rest).
Proof.
  induction 1 as [|c t Hc _ IH]; [done|]. cbn. rewrite IH.
  rewrite (proj2 (Z.eqb_neq c 32)); [done|]. by intros ->.
Qed.

Lemma join_tags_cons t t' tags : join_tags (t :: t' :: tags) = t ++ 32 :: join_tags (t' :: tags).
Proof. reflexivity. Qed.

(** The loop adds the tags one after the other. *)
Lemma AddTags_ok fuel c tags i :
  Forall tag_ok tags -> tags <> [] -> (length (join_tags tags) < fuel)%nat ->
  AddTags fuel c (join_tags tags) i =
    (c ← Client_UpdateInvalTagsFromSet c tags; Ok (c, i + Z.of_nat (length tags))).
Proof.
  revert fuel c i. induction tags as [|t tags IH]; intros fuel c i Ht Hne Hf; [done|].
  apply Forall_cons in Ht as [[Hs Ht0] Ht]. destruct fuel as [|fuel]; [lia|]. cbn [AddTags].
  destruct tags as [|t' tags].
  - assert (join_tags [t] = t) as -> by (unfold join_tags, tag_words; cbn; apply app_nil_r).
    rewrite strsep_none by done. cbn [Client_UpdateInvalTagsFromSet length].
    by destruct (Client_AddInvalTag c t).
  - rewrite join_tags_cons in *. rewrite strsep_some by done.
    cbn [Client_UpdateInvalTagsFromSet]. destruct (Client_AddInvalTag c t) as [c'|f]; [|done].
    rewrite !bind_ret_l. rewrite length_app in Hf. cbn [length] in Hf.
    rewrite IH; [|done|done|lia]. cbn [Client_UpdateInvalTagsFromSet length].
    destruct (Client_AddInvalTag c' t') as [c2|f]; [|done]. rewrite !bind_ret_l.
    destruct (Client_UpdateInvalTagsFromSet c2 tags); [|done]. rewrite !bind_ret_l. do 2 f_equal. lia.
Qed.

(** ** The validity of a query *)

Lemma ExecValidity_closed c lo hi tags :
  0 <= lo < 2 ^ 32 -> 0 <= hi < 2 ^ 32 ->
  ExecValidity c (SelectTag lo hi false tags) = Client_UpdateInterval c (Interval lo hi false).
Proof. intros Hlo Hhi. unfold ExecValidity. by rewrite scan_closed. Qed.

Lemma ExecValidity_open c lo hi tags :
  0 <= lo < 2 ^ 32 -> 0 <= hi < 2 ^ 32 -> status_fits lo hi tags -> Forall tag_ok tags -> tags <> [] ->
  ExecValidity c (SelectTag lo hi true tags) =
    (c ← Client_UpdateInvalTagsFromSet c tags; Client_UpdateInterval c (Interval lo hi true)).
Proof.
  intros Hlo Hhi Hfit Ht Hne. destruct (scan_open lo hi tags Hlo Hhi Hfit Ht Hne) as (n & Hs & Hd).
  unfold ExecValidity. rewrite Hs. change (default 0 (Some n)) with n. rewrite Hd.
  assert (Hl : 0 < Z.of_nat (length tags) < 2 ^ 31).
  { split; [destruct tags; [done|cbn; lia]|].
    pose proof (tag_words_length tags).
    unfold status_fits, tags_text in Hfit. rewrite !length_app in Hfit. lia. }
  rewrite s32_small by lia. rewrite (proj2 (Z.ltb_lt _ _)) by lia. cbn [Assert]. rewrite bind_ret_l.
  rewrite AddTags_ok by (done || lia). destruct (Client_UpdateInvalTagsFromSet c tags); [|done].
  rewrite !bind_ret_l. by rewrite (proj2 (Z.eqb_eq _ _)) by lia.
Qed.

(** The unbounded status of a query without tags stops the client. *)
Lemma ExecValidity_no_tags c lo hi :
  0 <= lo < 2 ^ 32 -> 0 <= hi < 2 ^ 32 ->
  ExecValidity c (SelectTag lo hi true []) = Fault AssertFail.
Proof.
  intros Hlo Hhi. unfold ExecValidity. rewrite SelectTag_open.
  - rewrite scan_validity by done. rewrite tags_format_eq. reflexivity.
  - unfold status_fits. rewrite !length_app. unfold fmt_u.
    pose proof (digits_length 10 (u32 lo)). pose proof (digits_length 10 (u32 hi)). 
    pose proof (eq_refl : length (str "SELECT VALIDITY ") = 16%nat).
    pose proof (eq_refl : length (str " ") = 1%nat). pose proof (eq_refl : length (tags_text []) = 7%nat). lia.
Qed.

(** ** The reply to PIN *)

Lemma scan_pin ssnap sec usec :
  0 <= ssnap - 1 < 2 ^ 32 -> 0 <= sec < 2 ^ 63 -> 0 <= usec < 2 ^ 63 ->
  sscanf (PinTag ssnap sec usec) (str "PIN %u %lld %lld") = ([ssnap - 1; sec; usec], None).
Proof.
  intros Hp Hs Hu. unfold sscanf, PinTag.
  assert (parse_format (str "PIN %u %lld %lld") =
    map DLit [80; 73; 78] ++ [DSpace; DU; DSpace; DLld; DSpace; DLld]) as -> by (vm_compute; reflexivity).
  assert (str "PIN " = [80; 73; 78; 32]) as -> by reflexivity.
  assert (str " " = [32]) as -> by reflexivity. cbn [app map].
  do 3 rewrite scanf_lit. unfold fmt_lld at 1. rewrite scanf_space_digits by lia.
  rewrite scanf_u by (done || cbn; lia).
  unfold fmt_lld at 1. rewrite scanf_space_digits by lia. fold (fmt_lld sec).
  rewrite scanf_lld by done. unfold fmt_lld at 1. rewrite <- (app_nil_r (digits 20 usec)).
  rewrite scanf_space_digits by lia. fold (fmt_lld usec). rewrite scanf_lld by done. reflexivity.
Qed.
