(* ===== verification/ClientInv.v ===== *)
(** * The client's bookkeeping is sound

    Lemmas on the operations of [Client] in the normal mode, and the invariant:
    what the client has seen in a call holds over the interval and under the tags
    of the call's frame, and what it has seen in a transaction holds at every pin
    that is left in the pin set. *)

From S2P Require Import Prelude CLib CText Interval Truth Timeval PinSet Policy Hash OrdTree DBStatus Client ClientParse.

(** ** Tags *)

Lemma set_frame_id c f : frames c !! bottom c = Some f -> set_frame (bottom c) f c = c.
Proof. intros Hf. destruct c. unfold set_frame, set_frames. cbn in *. by rewrite insert_id. Qed.

Lemma frame_tags_id f : frame_tags (invalTags f) f = f.
Proof. by destruct f. Qed.

Lemma tree_insert_elem {A} (cmp : A -> Z) v l l' :
  tree_insert cmp v l = Some l' -> forall x, x ∈ l' <-> x = v \/ x ∈ l.
Proof.
  revert l'. induction l as [|w l IH]; intros l'; cbn.
  - intros [= <-] x. rewrite list_elem_of_singleton, elem_of_nil. tauto.
  - case_if.
    + intros (l1 & E1 & ->)%fmap_Some x. rewrite !elem_of_cons, (IH l1 E1). tauto.
    + case_if; [done|]. intros [= <-] x. rewrite !elem_of_cons. tauto.
Qed.

Lemma bottom_frame_lookup c f : bottom_frame c = Ok f -> frames c !! bottom c = Some f.
Proof. unfold bottom_frame. case_if; [done|]. by intros ?%deref_Ok. Qed.

(** Adding a tag always succeeds inside a transaction. *)
Lemma AddInvalTag_ok c f tag :
  bottom_frame c = Ok f ->
  exists tags, Client_AddInvalTag c tag = Ok (set_frame (bottom c) (frame_tags tags f) c) /\
    forall t, t ∈ tags <-> t = tag \/ t ∈ invalTags f.
Proof.
  intros Hf. unfold Client_AddInvalTag. rewrite Hf, bind_ret_l. cbv zeta.
  unfold ClientInvalTagSet_CompareValue. cbn [tree_find].
  destruct (find_first _ _) as [v|] eqn:E.
  - apply find_first_Some in E as (l1 & l2 & Hl & Hv & _). apply Z.eqb_eq, strcmp_eq in Hv.
    subst v. exists (invalTags f). split.
    + rewrite frame_tags_id, set_frame_id by (by apply bottom_frame_lookup). done.
    + intros t. split; [by right|]. intros [->|?]; [|done]. rewrite Hl, elem_of_app, elem_of_cons. tauto.
  - destruct (tree_insert _ _ _) as [tags|] eqn:Ei.
    + exists tags. split; [done|]. by eapply tree_insert_elem.
    + apply tree_insert_None in Ei as (w & Hw & H0). apply find_first_None in E.
      rewrite Forall_forall in E. specialize (E w Hw). cbn in E. by rewrite H0 in E.
Qed.

Lemma bottom_frame_set c f f' : bottom_frame c = Ok f -> bottom_frame (set_frame (bottom c) f' c) = Ok f'.
Proof.
  unfold bottom_frame. intros H. cbn [bottom frames set_frame set_frames]. case_if; [done|].
  by rewrite lookup_insert_eq.
Qed.

Lemma set_frame_twice c f f' :
  set_frame (bottom c) f' (set_frame (bottom c) f c) = set_frame (bottom c) f' c.
Proof. unfold set_frame, set_frames. cbn. by rewrite insert_insert_eq. Qed.

Lemma UpdateTags_ok c f tags :
  bottom_frame c = Ok f ->
  exists tags', Client_UpdateInvalTagsFromSet c tags = Ok (set_frame (bottom c) (frame_tags tags' f) c) /\
    forall t, t ∈ tags' <-> t ∈ tags \/ t ∈ invalTags f.
Proof.
  revert c f. induction tags as [|tag tags IH]; intros c f Hf; cbn [Client_UpdateInvalTagsFromSet].
  - exists (invalTags f). rewrite frame_tags_id, set_frame_id by (by apply bottom_frame_lookup).
    split; [done|]. intros t. rewrite elem_of_nil. tauto.
  - destruct (AddInvalTag_ok c f tag Hf) as (tags1 & -> & H1). rewrite bind_ret_l.
    destruct (IH (set_frame (bottom c) (frame_tags tags1 f) c) (frame_tags tags1 f)) as (tags2 & H2 & H3).
    { by eapply bottom_frame_set. }
    exists tags2. split; [|intros t; rewrite H3, elem_of_cons; cbn; rewrite H1; tauto].
    rewrite H2. cbn [bottom set_frame set_frames]. fold (set_frame (bottom c) (frame_tags tags1 f) c).
    change (set_frames _ (set_frames _ c)) with
      (set_frame (bottom c) (frame_tags tags2 f) (set_frame (bottom c) (frame_tags tags1 f) c)).
    by rewrite set_frame_twice.
Qed.

(** ** Intervals *)

(** The intersection, when its assertions let it through. *)
Lemma Intersect_inv a b r :
  interval_ok a -> pin_ok (lower b) -> pin_ok (upper b) -> Interval_Intersect a b PIN_NEG_INF = Ok r ->
  interval_ok b /\ interval_ok r /\
  r = Interval (Z.max (lower a) (lower b)) (Z.min (upper a) (upper b)) (stillValid a && stillValid b).
Proof.
  intros Ha Hl Hu H. pose proof H as H'. unfold Interval_Intersect in H'.
  apply bind_Ok in H' as (o & Ho & H'). apply bind_Ok in H' as ([] & [Ht _]%Assert_Ok & _).
  unfold Interval_Overlaps in Ho. apply bind_Ok in Ho as ([] & _ & Ho).
  apply bind_Ok in Ho as ([] & Hb & _). apply AssertValid_Ok in Hb; [|done..]. subst o.
  assert (Hov : Interval_Overlaps a b PIN_NEG_INF = Ok true).
  { unfold Interval_Intersect in H. destruct (Interval_Overlaps a b PIN_NEG_INF) as [[]|]; done. }
  apply Overlaps_true_iff in Hov; [|done..]. pose proof Hov as (t & Ht1 & Ht2).
  rewrite Intersect_Ok in H by done. injection H as <-.
  assert (E : forall i, interval_ok i -> eff_upper PIN_NEG_INF i = upper i).
  { intros i Hi. unfold eff_upper, interval_ok in *. destruct (stillValid i); lia. }
  rewrite !E by done. unfold covers in *. rewrite E in Ht1, Ht2 by done.
  split_and!; [done| |done]. unfold interval_ok in *. cbn. lia.
Qed.

(** [Client_UpdateInterval] in the normal mode. *)
Lemma UpdateInterval_inv c c' f iv :
  bypassMode c = false -> memcachedMode c = false -> bottom_frame c = Ok f ->
  interval_ok (interval f) -> pin_ok (lower iv) -> pin_ok (upper iv) -> pinset_ok (pinSet c) ->
  Client_UpdateInterval c iv = Ok c' ->
  exists ps, c' = set_pinSet ps (set_frame (bottom c) (frame_interval
      (Interval (Z.max (lower (interval f)) (lower iv)) (Z.min (upper (interval f)) (upper iv))
                (stillValid (interval f) && stillValid iv)) f) c) /\
    interval_ok iv /\
    Z.max (lower (interval f)) (lower iv) < Z.min (upper (interval f)) (upper iv) /\
    pinset_ok ps /\ pin_list ps = filter (fun x => lower iv <= pin x < upper iv) (pin_list (pinSet c)) /\
    andStar ps = andStar (pinSet c) && (upper iv =? PIN_INF).
Proof.
  intros Hb Hm Hf Hi Hl Hu Hps. unfold Client_UpdateInterval. rewrite Hb, Hm, Hf, bind_ret_l.
  intros (i & Hint & H)%bind_Ok.
  destruct (Intersect_inv _ _ _ Hi Hl Hu Hint) as (Hiv & Hir & ->).
  apply bind_Ok in H as (ps & Hp & H). injection H as <-.
  cbn [pinSet set_frame set_frames] in Hp.
  pose proof (PinSet_IntersectWith_ok (pinSet c) iv Hps) as HI. cbv zeta in HI.
  destruct (andStar (pinSet c) || _); [|by rewrite HI in Hp].
  destruct HI as (ps' & Hp' & HI). rewrite Hp in Hp'. injection Hp' as <-.
  exists ps. split; [done|]. split; [done|]. split; [|done].
  unfold interval_ok in Hir. cbn in Hir. lia.
Qed.

(** ** What a transaction sees *)

(** Data of a cacheable function from the cache, and rows of a query. *)
Inductive saw : Type :=
| SawHit (k data : list Z)
| SawRows (sql : list Z) (rows : list (list Z)).

Section Inv.

(** [V k d t]: [d] is the value of the cacheable function call [k] at pin [t].
    [Q sql rows t]: query [sql] returns [rows] at pin [t].  [log] is the stream of
    invalidation messages. *)
Variable V : list Z -> list Z -> Z -> Prop.
Variable Q : list Z -> list (list Z) -> Z -> Prop.
Variable log : list (Z * list (list Z)).

Definition holds (s : saw) (t : Z) : Prop :=
  match s with
  | SawHit k d => V k d t
  | SawRows sql rows => Q sql rows t
  end.

(** What the environment promises of what it lets the client see. *)
Record promised (s : saw) (iv : interval_t) (tags : list (list Z)) : Prop := {
  pr_lower : pin_ok (lower iv);
  pr_upper : pin_ok (upper iv);
  pr_valid : valid_over log (holds s) iv tags;
  pr_always : upper iv = PIN_INF -> always (holds s)
}.

(** ** The invariant *)

Record frame_ok (f : ClientCacheableFrame_t) (fs : list saw) : Prop := {
  fo_interval : interval_ok (interval f);
  fo_always s : s ∈ fs -> upper (interval f) = PIN_INF -> always (holds s);
  fo_valid s : s ∈ fs -> valid_over log (holds s) (interval f) (invalTags f)
}.

(** The stack from the bottom to the root, with what each call has seen. *)
Fixpoint stack_ok (fr : gmap Z ClientCacheableFrame_t) (b : Z) (stk : list (Z * list saw)) : Prop :=
  match stk with
  | [] => b = 0
  | (a, fs) :: stk => b = a /\ a <> 0 /\ a ∉ stk.*1 /\
      exists f, fr !! a = Some f /\ frame_ok f fs /\ stack_ok fr (parent f) stk
  end.

Record pins_inv (ps : PinSet_t) (seen : list saw) : Prop := {
  pi_ok : pinset_ok ps;
  pi_pin s x : s ∈ seen -> x ∈ pin_list ps -> holds s (pin x);
  pi_star s : andStar ps = true -> s ∈ seen -> always (holds s)
}.

Definition puts_ok (es : list event) : Prop :=
  forall n k iv d tags force, EPut n k iv d tags force ∈ es ->
    truthful V log k iv d tags /\ interval_ok iv /\ (upper iv = PIN_INF -> always (V k d)).

Record client_inv (c : Client_t) (stk : list (Z * list saw)) (seen : list saw) : Prop := {
  ci_mode : bypassMode c = false /\ memcachedMode c = false;
  ci_root : exists f, frames c !! ROOT = Some f /\ parent f = 0;
  ci_stack : stack_ok (frames c) (bottom c) stk;
  ci_last : stk = [] \/ last stk.*1 = Some ROOT;
  ci_pins : bottom c <> 0 -> pins_inv (pinSet c) seen;
  ci_puts : puts_ok (out c)
}.

(** ** Frames and stacks *)

Lemma bottom_frame_stack c a fs stk :
  stack_ok (frames c) (bottom c) ((a, fs) :: stk) ->
  exists f, bottom c = a /\ bottom_frame c = Ok f /\ frames c !! a = Some f /\ frame_ok f fs /\
    stack_ok (frames c) (parent f) stk /\ a <> 0 /\ a ∉ stk.*1.
Proof.
  cbn. intros (Hb & Hne & Hni & f & Hf & Hfo & Hs). exists f. split_and!; try done.
  unfold bottom_frame. rewrite Hb, (proj2 (Z.eqb_neq a 0)) by done. by rewrite Hf.
Qed.

(** A stack only depends on its own frames. *)
Lemma stack_ok_ext fr fr' b stk :
  (forall a, a ∈ stk.*1 -> fr' !! a = fr !! a) -> stack_ok fr b stk -> stack_ok fr' b stk.
Proof.
  revert b. induction stk as [|[a fs] stk IH]; intros b Hx; cbn; [done|].
  intros (Hb & Hne & Hni & f & Hf & Hfo & Hs). split_and!; try done. exists f.
  rewrite Hx by (cbn; by left). split_and!; try done. apply IH; [|done].
  intros x Hin. apply Hx. cbn. by right.
Qed.

(** Changing the bottom frame. *)
Lemma stack_ok_update fr a f f' fs fs' stk :
  stack_ok fr a ((a, fs) :: stk) -> fr !! a = Some f -> parent f' = parent f -> frame_ok f' fs' ->
  stack_ok (<[a := f']> fr) a ((a, fs') :: stk).
Proof.
  cbn. intros (_ & Hne & Hni & f0 & Hf0 & _ & Hs) Hf Hp Hfo. split_and!; try done.
  exists f'. rewrite lookup_insert_eq. split_and!; try done. rewrite Hp.
  rewrite Hf in Hf0. injection Hf0 as <-. eapply stack_ok_ext; [|done].
  intros x Hx. apply lookup_insert_ne. by intros ->.
Qed.

Lemma frame_ok_nil f : interval_ok (interval f) -> frame_ok f [].
Proof. intros H. split; [done| |]; by intros s ?%elem_of_nil. Qed.

(** ** Narrowing *)

(** What was seen stays valid over a smaller interval and under more tags. *)
Lemma frame_ok_narrow f fs iv tags :
  frame_ok f fs -> lower (interval f) <= lower iv -> upper iv <= upper (interval f) ->
  interval_ok iv ->
  (stillValid iv = true -> stillValid (interval f) = true) ->
  (forall t, t ∈ invalTags f -> t ∈ tags) ->
  frame_ok (frame_interval iv (frame_tags tags f)) fs.
Proof.
  intros [Hi Ha Hv] Hl Hu Hiv Hsv Ht. split; cbn; [done| |]; intros s Hs.
  { intros E. apply (Ha s Hs). unfold interval_ok in *. lia. }
  eapply valid_over_tags; [exact Ht|]. destruct iv as [lo up sv]. cbn in *.
  unfold interval_ok in Hiv. cbn in Hiv. apply (valid_over_shrink log (holds s) (interval f)); try done; try lia.
  by apply Hv.
Qed.

Lemma frame_ok_app f fs fs' : frame_ok f fs -> frame_ok f fs' -> frame_ok f (fs ++ fs').
Proof.
  intros [H1 H2 H3] [_ H2' H3']. split; [done| |]; intros s [?|?]%elem_of_app; auto.
Qed.

(** The pins that are left are inside the interval. *)
Lemma pins_inv_filter ps ps' seen iv :
  pins_inv ps seen -> pinset_ok ps' ->
  pin_list ps' = filter (fun x => lower iv <= pin x < upper iv) (pin_list ps) ->
  andStar ps' = andStar ps && (upper iv =? PIN_INF) -> pins_inv ps' seen.
Proof.
  intros [H1 H2 H3] Hok Hl Hs. split; [done| |].
  - intros s x Hin. rewrite Hl. intros [_ Hx]%list_elem_of_filter. by apply H2.
  - intros s. rewrite Hs. intros [Hst _]%andb_true_iff. by apply H3.
Qed.

Lemma pins_inv_add ps ps' seen iv s tags :
  pins_inv ps seen -> pinset_ok ps' -> promised s iv tags ->
  pin_list ps' = filter (fun x => lower iv <= pin x < upper iv) (pin_list ps) ->
  andStar ps' = andStar ps && (upper iv =? PIN_INF) -> pins_inv ps' (s :: seen).
Proof.
  intros HP Hok Hpr Hl Hs. pose proof (pins_inv_filter _ _ _ _ HP Hok Hl Hs) as [_ H2 H3].
  destruct Hpr as [_ _ [Hv _] Hal]. split; [done| |].
  - intros s' x [->|Hin]%elem_of_cons Hx; [|by apply H2]. rewrite Hl in Hx.
    apply list_elem_of_filter in Hx as [Hx _]. by apply Hv.
  - intros s' Hst [->|Hin]%elem_of_cons; [|by apply H3]. rewrite Hs in Hst.
    apply andb_true_iff in Hst as [_ Hu%Z.eqb_eq]. by apply Hal.
Qed.

(** Seeing something: its tags are added, then its interval is intersected. *)
Lemma observe_ok c c' f a fs stk seen s iv tags :
  client_inv c ((a, fs) :: stk) seen -> bottom_frame c = Ok f -> promised s iv tags ->
  (c ← Client_UpdateInvalTagsFromSet c tags; Client_UpdateInterval c iv) = Ok c' ->
  client_inv c' ((a, s :: fs) :: stk) (s :: seen) /\ out c' = out c /\ bottom c' = bottom c.
Proof.
  intros [Hmode Hroot Hst Hlast Hpins Hputs] Hf Hpr H. destruct Hmode as [Hby Hmc].
  destruct (bottom_frame_stack _ _ _ _ Hst) as (f0 & Hb & Hf0 & Hl & Hfo & Hs & Ha0 & Hni).
  rewrite Hf in Hf0. injection Hf0 as <-.
  destruct (UpdateTags_ok c f tags Hf) as (tags' & E & Htags). rewrite E, bind_ret_l in H. clear E.
  assert (Hpi : pins_inv (pinSet c) seen) by (apply Hpins; congruence).
  destruct (UpdateInterval_inv (set_frame (bottom c) (frame_tags tags' f) c) c' (frame_tags tags' f) iv Hby Hmc) as
    (ps & -> & Hiv & Hlt & Hps & Hpl & Hstar); try done.
  { by eapply bottom_frame_set. } { apply Hfo. } { apply Hpr. } { apply Hpr. } { apply Hpi. }
  cbn [interval frame_tags] in *. set (iv' := Interval _ _ _). rewrite <- Hb in *.
  split; [|done]. split; cbn [bypassMode memcachedMode frames bottom pinSet out set_pinSet set_frame set_frames].
  - done.
  - destruct Hroot as (r & Hr & Hrp). destruct (decide (bottom c = ROOT)) as [E|E].
    + rewrite E, lookup_insert_eq. eexists. split; [done|]. cbn. rewrite E, Hr in Hl. by injection Hl as <-.
    + exists r. by rewrite !lookup_insert_ne.
  - rewrite insert_insert_eq. eapply stack_ok_update; [exact Hst|done|done|].
    assert (Hiv' : interval_ok iv').
    { pose proof (fo_interval _ _ Hfo). unfold interval_ok in *. cbn. lia. }
    change (s :: fs) with ([s] ++ fs). apply frame_ok_app.
    + split; [done| |]; intros s' ->%list_elem_of_singleton; cbn.
      { pose proof (fo_interval _ _ Hfo). pose proof (pr_upper _ _ _ Hpr). intros E. apply (pr_always _ _ _ Hpr).
        unfold interval_ok, pin_ok in *. lia. }
      eapply valid_over_tags; [|eapply (valid_over_shrink _ _ iv); [apply Hpr|lia|lia|lia|]].
      * intros t Ht. apply Htags. by left.
      * intros [_ ?]%andb_true_iff. done.
    + apply frame_ok_narrow; [done|cbn; lia|cbn; lia|done| |].
      * cbn. intros [? _]%andb_true_iff. done.
      * intros t Ht. apply Htags. by right.
  - destruct Hlast as [|Hlast]; [done|by right].
  - intros _. by eapply pins_inv_add.
  - done.
Qed.

End Inv.
