(* ===== verification/ClientSteps.v ===== *)
(** * Every client operation keeps the invariant *)

From S2P Require Import Prelude CLib CText Interval Truth Timeval PinSet Policy Hash OrdTree DBStatus Client ClientParse ClientInv.

Section Steps.

#[local] Opaque sscanf str PinSet_ReifyStar.

Variable V : list Z -> list Z -> Z -> Prop.
Variable Q : list Z -> list (list Z) -> Z -> Prop.
Variable log : list (Z * list (list Z)).

Notation holds := (holds V Q).
Notation promised := (promised V Q log).
Notation frame_ok := (frame_ok V Q log).
Notation stack_ok := (stack_ok V Q log).
Notation pins_inv := (pins_inv V Q).
Notation puts_ok := (puts_ok V log).
Notation client_inv := (client_inv V Q log).

(** ** What the environment promises *)

(** The pincushion sends an ordered array of snapshots, and its length. *)
Definition begin_ok (e : begin_env) : Prop :=
  match be_pins e with
  | Some l => s32 (be_nPins e) = Z.of_nat (length l) /\ pins_ok l
  | None => s32 (be_nPins e) = 0
  end.

(** Rows come with a status that the database wrote and that fits its buffer;
    the interval and the tags in it are right about the rows. *)
Definition rows_ok (sql : list Z) (r : PGresult) : Prop :=
  r_status r = PGRES_TUPLES_OK ->
  exists lo hi unbounded tags,
    r_cmdStatus r = SelectTag lo hi unbounded tags /\ 0 <= lo < 2 ^ 32 /\ 0 <= hi < 2 ^ 32 /\
    (unbounded = true -> status_fits lo hi tags /\ Forall tag_ok tags /\ tags <> []) /\
    promised (SawRows sql (r_rows r)) (Interval lo hi unbounded) (if unbounded then tags else []).

(** A reply to PIN names a snapshot. *)
Definition pin_reply_ok (r : PGresult) : Prop :=
  r_status r = PGRES_COMMAND_OK ->
  forall p s u n, sscanf (r_cmdStatus r) (str "PIN %u %lld %lld") = ([p; s; u], n) ->
    PIN_NEG_INF <= p < PIN_INF.

Definition has_rows (r : option PGresult) : bool := status_is r PGRES_TUPLES_OK.

(** The number of commands in front of the query. *)
Definition controls (needCommit needBegin needNewPin : bool) : nat :=
  Nat.b2n needCommit + Nat.b2n needBegin + Nat.b2n needNewPin.

(** The replies to the commands in front of the query have no rows. *)
Definition replies_ok (sql : list Z) (n : nat) (rs : list PGresult) : Prop :=
  Forall (fun r => has_rows (Some r) = false) (take n rs) /\
  Forall (fun r => rows_ok sql r /\ pin_reply_ok r) rs.

(** ** Changes that do not matter *)

(** [c'] has the modes, the frames, the stack and the pin set of [c]. *)
Record same_core (c c' : Client_t) : Prop := {
  sc_bypass : bypassMode c' = bypassMode c;
  sc_memcached : memcachedMode c' = memcachedMode c;
  sc_frames : frames c' = frames c;
  sc_bottom : bottom c' = bottom c;
  sc_pinSet : pinSet c' = pinSet c;
  sc_out : puts_ok (out c) -> puts_ok (out c')
}.

#[local] Instance same_core_refl : Reflexive same_core.
Proof. intros c. by split. Qed.

#[local] Instance same_core_trans : Transitive same_core.
Proof. intros a b c [] []. split; [congruence..|auto]. Qed.

Lemma core_inv c c' stk seen : client_inv c stk seen -> same_core c c' -> client_inv c' stk seen.
Proof.
  intros [H1 H2 H3 H4 H5 H6] [E1 E2 E3 E4 E5 E6].
  split; rewrite ?E1, ?E2, ?E3, ?E4, ?E5; auto.
Qed.

Lemma puts_ok_emit es e :
  (forall n k iv d tags force, e <> EPut n k iv d tags force) -> puts_ok es -> puts_ok (es ++ [e]).
Proof.
  intros He H n k iv d tags force [Hin|Hin%list_elem_of_singleton]%elem_of_app; [by eapply H|].
  by destruct (He n k iv d tags force).
Qed.

Ltac core := split; cbn; try done; try (intros; apply puts_ok_emit; done).

Lemma core_bump s c : same_core c (bump s c).
Proof. core. Qed.
Lemma core_pending x c : same_core c (set_pending x c).
Proof. core. Qed.
Lemma core_emit e c :
  (forall n k iv d tags force, e <> EPut n k iv d tags force) -> same_core c (emit e c).
Proof. intros He. split; cbn; try done. by apply puts_ok_emit. Qed.
Lemma core_pincushion x c : same_core c (set_pincushion x c).
Proof. core. Qed.
Lemma core_cacheNodes x c : same_core c (set_cacheNodes x c).
Proof. core. Qed.
Lemma core_activePin x c : same_core c (set_activePin x c).
Proof. core. Qed.
Lemma core_earliestPin x c : same_core c (set_earliestPin x c).
Proof. core. Qed.
Lemma core_pg x c : same_core c (set_pg x c).
Proof. core. Qed.

Lemma ConnectPG_core c cb : same_core c (Client_ConnectPG c cb).1.
Proof. unfold Client_ConnectPG. destruct (pg c); [done|]. destruct cb; [apply core_pg|done]. Qed.

Lemma getResult_core c : same_core c (PQgetResult c).1.
Proof. unfold PQgetResult. destruct (pending c); [done|apply core_pending]. Qed.

(** [PQgetResult] takes the first of the replies. *)
Lemma getResult_replies sql n c :
  replies_ok sql n (pending c) ->
  replies_ok sql (n - 1) (pending (PQgetResult c).1) /\
  match (PQgetResult c).2 with
  | Some r => rows_ok sql r /\ pin_reply_ok r /\ (0 < n -> has_rows (Some r) = false)%nat
  | None => True
  end.
Proof.
  unfold PQgetResult. destruct (pending c) as [|r rs] eqn:E; cbn [fst snd].
  - rewrite E. intros _. split; [|done]. split; [by rewrite take_nil|constructor].
  - cbn [pending set_pending]. intros [Hn Hr]. apply Forall_cons in Hr as [Hr Hrs]. split.
    + split; [|done]. destruct n as [|n]; cbn in *; [constructor|].
      rewrite Nat.sub_0_r. by apply Forall_cons in Hn as [_ Hn].
    + split_and!; [apply Hr|apply Hr|]. intros H0. destruct n; [lia|]. by apply Forall_cons in Hn as [Hn _].
Qed.

Lemma ConsumeOne_ok sql n c e1 e2 :
  replies_ok sql n (pending c) -> (0 < n)%nat ->
  same_core c (Client_ExecConsumeOne c e1 e2).1 /\
  replies_ok sql (n - 1) (pending (Client_ExecConsumeOne c e1 e2).1) /\
  has_rows (Client_ExecConsumeOne c e1 e2).2 = false.
Proof.
  intros Hr Hn. unfold Client_ExecConsumeOne.
  pose proof (getResult_core c) as Hc. destruct (getResult_replies sql n c Hr) as [Hr' Hh].
  destruct (PQgetResult c) as [c' r]. cbn [fst snd] in *.
  destruct (status_is r PGRES_COMMAND_OK); cbn [negb].
  - case_if; split_and!; done.
  - split_and!; [done|done|]. destruct r as [r|]; [|done]. cbn [snd]. by apply Hh.
Qed.

(** ** Queries *)

(** A set with the star becomes the set of the new snapshot. *)
Lemma pins_inv_reify ps ps' seen real :
  pins_inv ps seen -> PIN_NEG_INF <= pin real < PIN_INF -> PinSet_ReifyStar ps real = Ok ps' ->
  pins_inv ps' seen.
Proof.
  intros [H1 H2 H3] Hp HR.
  pose proof (PinSet_ReifyStar_ok ps real H1 ltac:(unfold PIN_INVALID, PIN_NEG_INF in *; lia)) as H.
  destruct (andStar ps) eqn:Hs; [|by rewrite H in HR]. destruct H as (ps1 & E & Hok & Hl & Hst).
  rewrite HR in E. injection E as <-. split; [done| |congruence].
  intros s x Hin. rewrite Hl. intros ->%list_elem_of_singleton. by apply H3.
Qed.

Lemma inv_pinSet c ps stk seen :
  client_inv c stk seen -> pins_inv ps seen -> client_inv (set_pinSet ps c) stk seen.
Proof. intros [H1 H2 H3 H4 H5 H6] HP. split; cbn; auto. Qed.

Lemma ExecPin_ok sql n c c' e p stk seen :
  client_inv c stk seen -> bottom c <> 0 -> replies_ok sql n (pending c) -> (0 < n)%nat ->
  ExecPin c e = Ok (c', p) ->
  client_inv c' stk seen /\ bottom c' = bottom c /\ replies_ok sql (n - 1) (pending c').
Proof.
  intros HI Hb Hr Hn H. unfold ExecPin in H.
  pose proof (getResult_core c) as Hc. destruct (getResult_replies sql n c Hr) as [Hr' Hh].
  destruct (PQgetResult c) as [c1 r]. cbn [fst snd] in *.
  pose proof (core_inv _ _ _ _ HI Hc) as HI1. pose proof (sc_bottom _ _ Hc) as Hb1.
  destruct (status_is r PGRES_COMMAND_OK) eqn:Est; cbn [negb] in H; [|by injection H as <- <-].
  destruct r as [r|]; [|done].
  destruct (sscanf (r_cmdStatus r) _) as [vs k] eqn:Es.
  destruct vs as [|pn [|ts [|tu [|]]]]; try (by injection H as <- <-).
  destruct Hh as (_ & Hpin & _).
  assert (Hp : PIN_NEG_INF <= pn < PIN_INF).
  { eapply Hpin; [|exact Es]. by apply bool_decide_eq_true in Est. }
  apply bind_Ok in H as (ps & HR & H). cbv zeta in H.
  assert (HI2 : client_inv (set_pinSet ps c1) stk seen).
  { apply inv_pinSet; [done|]. eapply (pins_inv_reify _ _ _ (PinStamp pn _)); [|exact Hp|exact HR].
    apply (ci_pins _ _ _ _ _ _ HI1). congruence. }
  set (c2 := if earliestPin _ =? PIN_INVALID then _ else _) in H.
  assert (Hc2 : same_core (set_pinSet ps c1) c2 /\ pending c2 = pending c1).
  { unfold c2. case_if; [split; [apply core_earliestPin|done]|done]. }
  destruct Hc2 as [Hc2 Hpd2]. rewrite (sc_memcached _ _ Hc2) in H. cbn [memcachedMode set_pinSet] in H.
  rewrite (proj2 (ci_mode _ _ _ _ _ _ HI1)), bind_ret_l in H.
  pose proof (core_inv _ _ _ _ HI2 Hc2) as HI3. pose proof (sc_bottom _ _ Hc2) as Hb3. cbn in Hb3.
  apply bind_Ok in H as (node & _ & H).
  destruct (NodeToHost node (xe_connect e)) as [node' host]. destruct host; injection H as <- <-.
  - split_and!; [|cbn; congruence|cbn; by rewrite Hpd2].
    eapply core_inv; [exact HI3|]. etrans; [apply core_pincushion|]. by apply core_emit.
  - split_and!; [|cbn; congruence|cbn; by rewrite Hpd2].
    eapply core_inv; [exact HI3|]. apply core_pincushion.
Qed.

Lemma ExecFinishLoop_ok (P : PGresult -> Prop) rs last bad rest r :
  Forall P rs -> (forall l, last = Some l -> P l) -> ExecFinishLoop rs last bad = Ok (rest, r) ->
  forall x, r = Some x -> P x.
Proof.
  revert last. induction rs as [|y rs IH]; intros last Hrs Hl; cbn [ExecFinishLoop].
  - intros [= _ <-]. done.
  - apply Forall_cons in Hrs as [Hy Hrs]. intros ([] & _ & H)%bind_Ok. destruct (_ || bad).
    + injection H as _ <-. by intros x [= <-].
    + apply (IH (Some y)); [done| |done]. by intros l [= <-].
Qed.

(** The validity of the rows is taken into account. *)
Lemma ExecValidity_ok sql r c c' a fs stk seen :
  client_inv c ((a, fs) :: stk) seen -> rows_ok sql r -> r_status r = PGRES_TUPLES_OK ->
  ExecValidity c (r_cmdStatus r) = Ok c' ->
  client_inv c' ((a, SawRows sql (r_rows r) :: fs) :: stk) (SawRows sql (r_rows r) :: seen) /\
  bottom c' = bottom c.
Proof.
  intros HI Hr Hs H. destruct (Hr Hs) as (lo & hi & unb & tags & E & Hlo & Hhi & Hfit & Hpr).
  rewrite E in H. destruct (bottom_frame_stack _ _ _ _ _ _ _ (ci_stack _ _ _ _ _ _ HI)) as (f & _ & Hf & _).
  destruct unb.
  - destruct (Hfit eq_refl) as (Hft & Ht & Hne). rewrite ExecValidity_open in H by done.
    destruct (observe_ok V Q log c c' f a fs stk seen _ _ _ HI Hf Hpr H) as (? & _ & ?). done.
  - rewrite ExecValidity_closed in H by done.
    destruct (observe_ok V Q log c c' f a fs stk seen _ _ [] HI Hf Hpr) as (? & _ & ?); done.
Qed.

(** The state after a query: the rows, if any, have been seen. *)
Definition query_seen (sql : list Z) (r : option PGresult) (l : list saw) : list saw :=
  match r with
  | Some r => if has_rows (Some r) then SawRows sql (r_rows r) :: l else l
  | None => l
  end.

Lemma query_seen_none sql r l : has_rows r = false -> query_seen sql r l = l.
Proof. destruct r; cbn; [|done]. by intros ->. Qed.

Lemma ExecFinal_ok sql c c' e r a fs stk seen pin (needBegin : bool) :
  client_inv c ((a, fs) :: stk) seen -> bottom c <> 0 -> replies_ok sql 0 (pending c) ->
  (let c := if needBegin then set_activePin pin c else c in
   Assert (negb (bypassMode c) || (activePin c =? PIN_INF));;
   '(c, r) ← Client_ExecFinish c (xe_bad e);
   if negb (bypassMode c) && status_is r PGRES_TUPLES_OK
   then c ← ExecValidity c (match r with Some r => r_cmdStatus r | None => [] end); Ok (c, r)
   else Ok (c, r)) = Ok (c', r) ->
  client_inv c' ((a, query_seen sql r fs) :: stk) (query_seen sql r seen) /\ bottom c' = bottom c.
Proof.
  intros HI Hb [_ Hrs] H. cbv zeta in H.
  set (c1 := if needBegin then _ else _) in H.
  assert (Hc1 : same_core c c1 /\ pending c1 = pending c).
  { unfold c1. destruct needBegin; [split; [apply core_activePin|done]|done]. }
  destruct Hc1 as [Hc1 Hpd]. pose proof (core_inv _ _ _ _ HI Hc1) as HI1.
  apply bind_Ok in H as ([] & _ & H). apply bind_Ok in H as ([c2 r2] & HF & H).
  unfold Client_ExecFinish in HF. apply bind_Ok in HF as ([rest l] & HL & HF).
  injection HF as <- <-. rewrite Hpd in HL. cbn [bypassMode set_pending] in H.
  rewrite (proj1 (ci_mode _ _ _ _ _ _ HI1)) in H. cbn [negb andb] in H.
  assert (HI2 : client_inv (set_pending rest c1) ((a, fs) :: stk) seen)
    by (eapply core_inv; [exact HI1|apply core_pending]).
  pose proof (sc_bottom _ _ Hc1) as Hb1. destruct (status_is l PGRES_TUPLES_OK) eqn:El.
  - apply bind_Ok in H as (c3 & HV & H). injection H as <- <-. destruct l as [x|]; [|done].
    assert (Hx : rows_ok sql x).
    { apply (ExecFinishLoop_ok (fun r => rows_ok sql r /\ pin_reply_ok r) _ None _ _ _ Hrs) with (x := x) in HL; [|done|done].
      apply HL. }
    unfold query_seen, has_rows. rewrite El. apply bool_decide_eq_true in El.
    destruct (ExecValidity_ok sql x _ c3 a fs stk seen HI2 Hx El HV) as [HI3 Hb3].
    split; [done|]. by rewrite Hb3.
  - injection H as <- <-. rewrite !query_seen_none by done. done.
Qed.

Lemma ExecReplies_ok sql c c' e (nC nB nP : bool) pin r a fs stk seen :
  client_inv c ((a, fs) :: stk) seen -> bottom c <> 0 ->
  replies_ok sql (controls nC nB nP) (pending c) ->
  ExecReplies c e nC nB nP pin = Ok (c', r) ->
  client_inv c' ((a, query_seen sql r fs) :: stk) (query_seen sql r seen) /\ bottom c' = bottom c.
Proof.
  intros HI Hb Hr H. unfold ExecReplies in H.
  set (p1 := if nC then _ else _) in H.
  assert (H1 : same_core c p1.1 /\ replies_ok sql (controls false nB nP) (pending p1.1) /\ has_rows p1.2 = false).
  { unfold p1. destruct nC; [|done].
    replace (controls false nB nP) with (controls true nB nP - 1)%nat by (unfold controls; cbn; lia).
    apply ConsumeOne_ok; [done|]. unfold controls. cbn. lia. }
  destruct p1 as [c1 r1]. cbn [fst snd] in H1. destruct H1 as (Hc1 & Hr1 & Hn1).
  pose proof (core_inv _ _ _ _ HI Hc1) as HI1. pose proof (sc_bottom _ _ Hc1) as Hb1.
  destruct r1 as [r1|]; [injection H as <- <-; rewrite !query_seen_none by done; done|].
  set (p2 := if nB then _ else _) in H.
  assert (H2 : same_core c1 p2.1 /\ replies_ok sql (controls false false nP) (pending p2.1) /\ has_rows p2.2 = false).
  { unfold p2. destruct nB; [|done].
    replace (controls false false nP) with (controls false true nP - 1)%nat by (unfold controls; cbn; lia).
    apply ConsumeOne_ok; [done|]. unfold controls. cbn. lia. }
  destruct p2 as [c2 r2]. cbn [fst snd] in H2. destruct H2 as (Hc2 & Hr2 & Hn2).
  pose proof (core_inv _ _ _ _ HI1 Hc2) as HI2. pose proof (sc_bottom _ _ Hc2) as Hb2.
  destruct r2 as [r2|]; [injection H as <- <-; rewrite !query_seen_none by done; split; [done|congruence]|].
  cbv zeta in H. set (c3 := if nB then bump roDBXactions c2 else c2) in H.
  assert (H3 : same_core c2 c3 /\ pending c3 = pending c2).
  { unfold c3. destruct nB; [split; [apply core_bump|done]|done]. }
  destruct H3 as [Hc3 Hp3]. pose proof (core_inv _ _ _ _ HI2 Hc3) as HI3. pose proof (sc_bottom _ _ Hc3) as Hb3.
  apply bind_Ok in H as ([c4 p4] & HP & H).
  assert (H4 : client_inv c4 ((a, fs) :: stk) seen /\ bottom c4 = bottom c3 /\ replies_ok sql 0 (pending c4)).
  { destruct nP.
    - apply (ExecPin_ok sql 1 c3 c4 e p4); [done|congruence|by rewrite Hp3|lia|done].
    - injection HP as <- <-. rewrite Hp3. done. }
  destruct H4 as (HI4 & Hb4 & Hr4).
  destruct p4 as [p4|]; [|injection H as <- <-; split; [done|congruence]].
  destruct (ExecFinal_ok sql c4 c' e r a fs stk seen p4 nB HI4 ltac:(congruence) Hr4 H) as [HI5 Hb5].
  split; [done|congruence].
Qed.

(** The commands that [Client_Exec] puts in front of a query at [pin]. *)
Definition exec_controls (c : Client_t) (pin : Z) : nat :=
  if pin =? activePin c then 0%nat
  else controls (negb (activePin c =? PIN_INVALID)) true ((pin =? PIN_INF) && negb (bypassMode c)).

Definition exec_ok (c : Client_t) (e : exec_env) (sql : list Z) : Prop :=
  forall policy pin, choosePin c = Some policy -> fn policy (xe_choose e) (pinSet c) = Ok pin ->
    replies_ok sql (exec_controls c pin) (xe_results e).

Lemma ConnectPG_fields c cb :
  choosePin (Client_ConnectPG c cb).1 = choosePin c /\ activePin (Client_ConnectPG c cb).1 = activePin c.
Proof. unfold Client_ConnectPG. destruct (pg c); [done|]. by destruct cb. Qed.

(** Inside a transaction. *)
Lemma Exec_ok c c' e sql r a fs stk seen :
  client_inv c ((a, fs) :: stk) seen -> exec_ok c e sql -> Client_Exec c e sql = Ok (c', r) ->
  client_inv c' ((a, query_seen sql r fs) :: stk) (query_seen sql r seen) /\ bottom c' = bottom c.
Proof.
  intros HI He H. unfold Client_Exec in H.
  assert (Hb : bottom c <> 0).
  { destruct (bottom_frame_stack _ _ _ _ _ _ _ (ci_stack _ _ _ _ _ _ HI)) as (f & -> & _ & _ & _ & _ & ? & _). done. }
  pose proof (ConnectPG_core c (xe_connectPG e)) as Hc.
  pose proof (ConnectPG_fields c (xe_connectPG e)) as [Hch Hac].
  destruct (Client_ConnectPG c (xe_connectPG e)) as [c1 ok]. cbn [fst] in *.
  pose proof (core_inv _ _ _ _ HI Hc) as HI1. destruct ok; [|done]. cbn [negb] in H.
  rewrite (sc_bottom _ _ Hc), (proj2 (Z.eqb_neq _ _)) in H by done.
  apply bind_Ok in H as (policy & Hpol%deref_Ok & H). apply bind_Ok in H as (pin & Hpin & H).
  rewrite Hch in Hpol. rewrite (sc_pinSet _ _ Hc) in Hpin. specialize (He policy pin Hpol Hpin).
  apply bind_Ok in H as ([] & _ & H). apply bind_Ok in H as ([[[nC nB] nP] newSql] & Hneed & H).
  assert (Hn : controls nC nB nP = exec_controls c pin).
  { unfold exec_controls. rewrite <- Hac, <- (sc_bypass _ _ Hc). destruct (pin =? activePin c1); cbn [negb] in Hneed.
    - by injection Hneed as <- <- <- _.
    - apply bind_Ok in Hneed as (has & _ & Hneed). destruct has; [|done]. cbn [negb] in Hneed.
      apply bind_Ok in Hneed as (sql' & _ & Hneed). by injection Hneed as <- <- <- _. }
  destruct (xe_send e); cbn [negb] in H.
  - destruct (ExecReplies_ok sql (set_pending (xe_results e) (emit (ESql newSql) (bump roQueries c1)))
      c' e nC nB nP pin r a fs stk seen) as [HI2 Hb2]; [|cbn; rewrite (sc_bottom _ _ Hc); done|by rewrite Hn|done|].
    + eapply core_inv; [exact HI1|]. etrans; [apply core_bump|]. etrans; [by apply (core_emit (ESql newSql))|apply core_pending].
    + split; [done|]. rewrite Hb2. apply (sc_bottom _ _ Hc).
  - injection H as <- <-. split; [|apply (sc_bottom _ _ Hc)].
    eapply core_inv; [exact HI1|apply core_bump].
Qed.

(** Outside a transaction the query is passed through. *)
Lemma Exec_outside c c' e sql r :
  client_inv c [] [] -> Client_Exec c e sql = Ok (c', r) -> client_inv c' [] [] /\ bottom c' = bottom c.
Proof.
  intros HI H. unfold Client_Exec in H. pose proof (ci_stack _ _ _ _ _ _ HI) as Hb. cbn in Hb.
  pose proof (ConnectPG_core c (xe_connectPG e)) as Hc.
  destruct (Client_ConnectPG c (xe_connectPG e)) as [c1 ok]. cbn [fst] in Hc.
  destruct ok; [|done]. cbn [negb] in H. rewrite (sc_bottom _ _ Hc), Hb in H. cbn in H.
  injection H as <- <-. split; [|apply (sc_bottom _ _ Hc)].
  eapply core_inv; [exact HI|]. etrans; [exact Hc|]. etrans; [apply core_bump|].
  etrans; [by apply (core_emit (ESql sql))|apply core_pending].
Qed.

(** ** Transactions *)

(** The pin set of the pincushion's answer. *)
Lemma Init_pins ps ps' b e :
  begin_ok e -> PinSet_Init ps (be_pins e) (s32 (be_nPins e)) true = Ok (ps', b) ->
  pinset_ok ps' /\ b = true.
Proof.
  unfold begin_ok. destruct (be_pins e) as [l|].
  - intros [-> Hl] H. destruct (PinSet_Init_ok ps l true Hl ltac:(by right)) as (ps1 & E & Hok & _).
    rewrite H in E. by injection E as <- <-.
  - intros -> H. cbn in H. injection H as <- <-. split; [by left|done].
Qed.

Lemma begin_outside c stk seen : client_inv c stk seen -> bottom c = 0 -> stk = [].
Proof.
  intros HI Hb. pose proof (ci_stack _ _ _ _ _ _ HI) as Hs. destruct stk as [|[a fs] stk]; [done|].
  destruct Hs as (E & Hne & _). congruence.
Qed.

Lemma BeginPins_ok c c' e b stk seen :
  client_inv c stk seen -> bottom c = 0 -> begin_ok e -> BeginPins c e = Ok (c', b) ->
  client_inv c' stk seen /\ bottom c' = 0 /\ (b = true -> pinset_ok (pinSet c')).
Proof.
  intros HI Hb He H. unfold BeginPins in H. rewrite (proj1 (ci_mode _ _ _ _ _ _ HI)) in H.
  apply bind_Ok in H as (node & _ & H). destruct (NodeToHost node (be_connect e)) as [n1 host].
  destruct host; cbn [negb] in H.
  2:{ injection H as <- <-. split_and!; [|done|done]. eapply core_inv; [exact HI|apply core_pincushion]. }
  apply bind_Ok in H as ([ps ok] & Hps & H). cbn [pinSet emit set_pincushion set_out] in Hps.
  destruct (Init_pins _ _ _ _ He Hps) as [Hok ->]. injection H as <- <-.
  split_and!; [|done|done]. cbn in Hb.
  destruct HI as [H1 H2 H3 H4 H5 H6]. split; cbn; auto; [by rewrite Hb|]. by apply puts_ok_emit.
Qed.

Lemma Begin_ok c c' e b stk seen :
  client_inv c stk seen -> begin_ok e -> Client_BeginRO c e = Ok (c', b) ->
  if b then stk = [] /\ client_inv c' [(ROOT, [])] [] else client_inv c' stk seen.
Proof.
  intros HI He H. unfold Client_BeginRO in H.
  destruct (Z.eqb_spec (bottom c) 0) as [Hb|Hb]; cbn [negb] in H; [|by injection H as <- <-].
  apply bind_Ok in H as ([c1 ok] & HB & H).
  destruct (BeginPins_ok _ _ _ _ _ _ HI Hb He HB) as (HI1 & Hb1 & Hok).
  destruct ok; cbn [negb] in H; [|by injection H as <- <-]. specialize (Hok eq_refl).
  apply bind_Ok in H as (earliest & _ & H). apply bind_Ok in H as (iv & Hiv & H).
  cbn [memcachedMode set_earliestPin set_activePin] in Hiv.
  rewrite (proj2 (ci_mode _ _ _ _ _ _ HI1)) in Hiv. injection Hiv as <-.
  apply bind_Ok in H as (root & Hroot%deref_Ok & H). cbn [frames set_earliestPin set_activePin] in Hroot.
  injection H as <- <-. split; [by apply (begin_outside c stk seen)|].
  destruct HI1 as [H1 (f & Hf & Hp) H3 H4 H5 H6]. rewrite Hf in Hroot. injection Hroot as <-.
  split; cbn.
  - done.
  - eexists. rewrite lookup_insert_eq. done.
  - split_and!; [done|done|by apply not_elem_of_nil|]. eexists. rewrite lookup_insert_eq. split_and!; [done| |done].
    apply frame_ok_nil. vm_compute. split; [split|]; congruence.
  - by right.
  - intros _. split; [done| |]; [by intros s x ?%elem_of_nil|by intros s _ ?%elem_of_nil].
  - done.
Qed.

Lemma Commit_ok c c' e b stk seen :
  client_inv c stk seen -> Client_Commit c e = Ok (c', b) ->
  (bottom c' = 0 /\ client_inv c' [] []) \/ c' = c.
Proof.
  intros HI H. unfold Client_Commit in H. destruct (bottom c =? 0); [injection H as <- <-; by right|].
  destruct (bottom c =? ROOT); cbn [negb] in H; [left|injection H as <- <-; by right].
  apply bind_Ok in H as ([c1 r] & H1 & H).
  assert (Hc1 : same_core (set_bottom 0 c) c1).
  { destruct (negb _) in H1; [|by injection H1 as <- <-].
    apply bind_Ok in H1 as ([] & _ & H1). injection H1 as <- <-.
    etrans; [by apply (core_emit (ESql (str "COMMIT")))|]. etrans; [apply core_pending|apply core_activePin]. }
  assert (HI0 : client_inv (set_bottom 0 c) [] []).
  { destruct HI as [? ? ? ? ? ?]. split; cbn; auto. done. }
  pose proof (core_inv _ _ _ _ HI0 Hc1) as HI1.
  rewrite (proj1 (ci_mode _ _ _ _ _ _ HI1)) in H. cbn [negb] in H.
  apply bind_Ok in H as (node & _ & H). destruct (NodeToHost node (ce_connect e)) as [n1 host].
  pose proof (sc_bottom _ _ Hc1) as Hb.
  destruct host; injection H as <- <-; (split; [done|]); (eapply core_inv; [exact HI1|]).
  - etrans; [apply core_pincushion|by apply core_emit].
  - apply core_pincushion.
Qed.

(** ** Cacheable functions *)

(** A hit is right about the call. *)
Definition lookup_ok (k : keyref) (e : lookup_env) : Prop :=
  forall d iv tags, le_answer e = Some (d, iv, tags) -> promised (SawHit (kbytes k) d) iv tags.

Definition hit_seen (k : keyref) (r : option (list Z)) (l : list saw) : list saw :=
  match r with Some d => SawHit (kbytes k) d :: l | None => l end.

Lemma TryLookup_ok c c' k e r a fs stk seen :
  client_inv c ((a, fs) :: stk) seen -> lookup_ok k e -> TryLookup c k e = Ok (c', r) ->
  client_inv c' ((a, hit_seen k r fs) :: stk) (hit_seen k r seen) /\ bottom c' = bottom c.
Proof.
  intros HI He H. unfold TryLookup in H. destruct (PinSet_JustStar (pinSet c)); cbn [negb] in H.
  { injection H as <- <-. split; [|done]. eapply core_inv; [exact HI|apply core_bump]. }
  apply bind_Ok in H as (n & _ & H). apply bind_Ok in H as (node & _ & H).
  destruct (NodeToHost node (le_connect e)) as [n1 host]. destruct host; cbn [negb] in H.
  2:{ injection H as <- <-. split; [|done]. eapply core_inv; [exact HI|apply core_cacheNodes]. }
  apply bind_Ok in H as (b & _ & H). cbv zeta in H.
  match type of H with context [bump cacheMisses ?x] => set (c1 := x) in H end.
  assert (Hc1 : same_core c c1).
  { unfold c1. etrans; [|apply core_cacheNodes]. etrans; [apply core_cacheNodes|]. by apply core_emit. }
  destruct (le_answer e) as [[[d iv] tags]|] eqn:Ea.
  - assert (HI1 : client_inv (bump cacheHits c1) ((a, fs) :: stk) seen).
    { eapply core_inv; [exact HI|]. etrans; [exact Hc1|apply core_bump]. }
    destruct (bottom_frame_stack _ _ _ _ _ _ _ (ci_stack _ _ _ _ _ _ HI1)) as (f & _ & Hf & _).
    apply bind_Ok in H as (c2 & H2 & H). apply bind_Ok in H as (c3 & H3 & H). injection H as <- <-.
    destruct (observe_ok V Q log (bump cacheHits c1) c3 f a fs stk seen (SawHit (kbytes k) d) iv tags)
      as (HI3 & _ & Hb3); [done|done|by apply He| |].
    + by rewrite H2, bind_ret_l.
    + split; [done|]. rewrite Hb3. apply (sc_bottom _ _ Hc1).
  - injection H as <- <-. split; [|apply (sc_bottom _ _ Hc1)].
    eapply core_inv; [exact HI|]. etrans; [exact Hc1|apply core_bump].
Qed.

Lemma TryEnter_ok c c' k frameOut e r a fs stk seen :
  client_inv c ((a, fs) :: stk) seen -> lookup_ok k e -> frameOut <> 0 -> frameOut ∉ a :: stk.*1 ->
  Client_TryEnterCacheable c k frameOut e = Ok (c', r) ->
  match r with
  | Some d => client_inv c' ((a, SawHit (kbytes k) d :: fs) :: stk) (SawHit (kbytes k) d :: seen)
  | None => client_inv c' ((frameOut, []) :: (a, fs) :: stk) seen /\
      fkey <$> frames c' !! frameOut = Some k
  end.
Proof.
  intros HI He H0 Hn H. unfold Client_TryEnterCacheable in H. destruct (bottom c =? 0); [done|].
  apply bind_Ok in H as ([c1 d] & HL & H).
  destruct (TryLookup_ok _ _ _ _ _ _ _ _ _ HI He HL) as [HI1 Hb1].
  destruct d as [d|]; injection H as <- <-; [done|]. cbn [hit_seen] in HI1.
  split; [|cbn; by rewrite lookup_insert_eq].
  destruct HI1 as [H1 (f & Hf & Hp) H3 H4 H5 H6].
  assert (Hba : bottom c1 = a) by (apply H3).
  assert (HR : frameOut <> ROOT).
  { intros ->. destruct H4 as [|H4]; [done|]. apply Hn. apply last_Some_elem_of in H4. done. }
  split; cbn [frames bottom set_bottom set_frame set_frames bypassMode memcachedMode pinSet out].
  - done.
  - exists f. by rewrite lookup_insert_ne.
  - split_and!; [done|done|done|]. eexists. rewrite lookup_insert_eq. split_and!; [done| |].
    + apply frame_ok_nil. vm_compute. split; [split|]; congruence.
    + cbn [parent]. eapply stack_ok_ext; [|exact H3]. intros x Hx. apply lookup_insert_ne. by intros ->.
  - right. destruct H4 as [|H4]; [done|]. done.
  - intros _. apply H5. cbn in H3. destruct H3 as (-> & ? & _). done.
  - done.
Qed.

(** ** Leaving a cacheable function *)

Lemma Pop_ok c c' a f fs stk seen :
  client_inv c ((a, fs) :: stk) seen -> Client_Pop c a = Ok (c', f) ->
  frames c !! a = Some f /\ frame_ok f fs /\ stk <> [] /\ c' = set_bottom (parent f) c /\
  client_inv c' stk seen.
Proof.
  intros HI H. destruct (bottom_frame_stack _ _ _ _ _ _ _ (ci_stack _ _ _ _ _ _ HI)) as
    (f0 & Hb & _ & Hf0 & Hfo & Hs & Ha0 & Hni).
  unfold Client_Pop in H. rewrite Hb, (proj2 (Z.eqb_neq a 0)), Z.eqb_refl in H by done. cbn [negb] in H.
  rewrite Hf0 in H. cbn [deref] in H. rewrite bind_ret_l in H.
  destruct (Z.eqb_spec (parent f0) 0) as [|Hp]; [done|]. injection H as <- <-.
  assert (Hne : stk <> []) by (by intros ->). split_and!; try done.
  destruct HI as [H1 H2 H3 H4 H5 H6]. split; cbn; auto.
  - right. destruct H4 as [|H4]; [done|]. by destruct stk as [|[a' fs'] stk].
  - intros _. apply H5. congruence.
Qed.

(** What determines the value of a call holds over the interval of the item. *)
Lemma valid_over_determined (R : Z -> Prop) (fs : list saw) iv tags :
  (forall t, (forall s, s ∈ fs -> holds s t) -> R t) ->
  (forall s, s ∈ fs -> valid_over log (holds s) iv tags) -> valid_over log R iv tags.
Proof.
  intros HR Hv. split.
  - intros t Ht. apply HR. intros s Hs. by apply (proj1 (Hv s Hs)).
  - intros S t Ht Hq. apply HR. intros s Hs. by apply (proj2 (Hv s Hs)).
Qed.

Lemma ItemInterval_ok c f fs item tags k d :
  bypassMode c = false -> frame_ok f fs -> ItemInterval c f = Ok (item, tags) ->
  (forall t, (forall s, s ∈ fs -> holds s t) -> V k d t) ->
  truthful V log k item d tags /\ interval_ok item /\ (upper item = PIN_INF -> always (V k d)).
Proof.
  intros Hby [H1 H2 H3] H Hd. unfold ItemInterval in H. rewrite Hby in H.
  assert (Ha : upper (interval f) = PIN_INF -> always (V k d)).
  { intros E t Ht. apply Hd. intros s Hs. by apply (H2 s Hs E). }
  destruct (stillValid (interval f)) eqn:S; cbn [negb andb] in H.
  - apply bind_Ok in H as ([] & _ & H). destruct (willingToDealWithInvalidations f); cbn [negb] in H;
      injection H as <- <-.
    + split; [|done]. by eapply valid_over_determined.
    + split; [|done]. split; [|done]. cbn. intros t Ht. apply Hd. intros s Hs. by apply (proj1 (H3 s Hs)).
  - injection H as <- <-. split; [|done]. split; [|congruence].
    intros t Ht. apply Hd. intros s Hs. by apply (proj1 (H3 s Hs)).
Qed.

(** The caller's frame takes over what the call has seen. *)
Lemma absorb_ok c c' f a' fs fs' stk seen :
  client_inv c ((a', fs') :: stk) seen -> frame_ok f fs ->
  (c ← Client_UpdateInterval c (interval f); Client_UpdateInvalTagsFromSet c (invalTags f)) = Ok c' ->
  client_inv c' ((a', fs ++ fs') :: stk) seen /\ out c' = out c.
Proof.
  intros [[Hby Hmc] Hroot Hst Hlast Hpins Hputs] Hfo H.
  destruct (bottom_frame_stack _ _ _ _ _ _ _ Hst) as (p & Hb & Hp & Hl & Hpo & Hs & Ha0 & Hni).
  assert (Hpi : pins_inv (pinSet c) seen) by (apply Hpins; congruence).
  apply bind_Ok in H as (c1 & HU & HT). pose proof (fo_interval _ _ _ _ _ Hfo) as Hfi.
  pose proof (fo_interval _ _ _ _ _ Hpo) as Hpoi.
  destruct (UpdateInterval_inv c c1 p (interval f) Hby Hmc Hp Hpoi) as (ps & -> & _ & Hlt & Hps & Hpl & Hstar);
    [unfold interval_ok, pin_ok, PIN_NEG_INF, PIN_INF in *; lia..|apply Hpi|done|].
  set (iv := Interval _ _ _) in *.
  match type of HT with Client_UpdateInvalTagsFromSet ?x _ = _ => set (c1 := x) in HT end.
  destruct (UpdateTags_ok c1 (frame_interval iv p) (invalTags f)) as (tags & E & Htags).
  { unfold bottom_frame in *. cbn [c1 bottom frames set_pinSet set_frame set_frames].
    destruct (bottom c =? 0); [done|]. by rewrite lookup_insert_eq. }
  rewrite E in HT. injection HT as <-. split; [|done]. rewrite <- Hb in *. cbn [invalTags frame_interval] in Htags.
  split; cbn [c1 bypassMode memcachedMode frames bottom pinSet out set_pinSet set_frame set_frames].
  - done.
  - destruct Hroot as (r & Hr & Hrp). destruct (decide (bottom c = ROOT)) as [Eb|Eb].
    + rewrite Eb, lookup_insert_eq. eexists. split; [done|]. cbn. rewrite Eb, Hr in Hl. by injection Hl as <-.
    + exists r. by rewrite !lookup_insert_ne.
  - rewrite insert_insert_eq. eapply stack_ok_update; [exact Hst|done|done|].
    assert (Hiv : interval_ok iv) by (unfold interval_ok in *; cbn; lia).
    apply frame_ok_app; [|change (frame_ok (frame_interval iv (frame_tags tags p)) fs'); apply frame_ok_narrow].
    + split; [done| |]; cbn; intros s Hs'.
      { intros Eu. apply (fo_always _ _ _ _ _ Hfo s Hs'). unfold interval_ok in *. lia. }
      eapply (valid_over_tags _ _ _ (invalTags f)); [intros t Ht; apply Htags; by left|].
      apply (valid_over_shrink log (holds s) (interval f)); [by apply Hfo|lia|lia|lia|].
      intros [_ ?]%andb_true_iff. done.
    + done.
    + cbn. lia.
    + cbn. lia.
    + done.
    + cbn. intros [? _]%andb_true_iff. done.
    + intros t Ht. apply Htags. by right.
  - destruct Hlast as [|Hlast]; [done|by right].
  - intros _. by eapply pins_inv_filter.
  - done.
Qed.

(** A frame that is not on the stack may change. *)
Lemma inv_other_frame c a f stk seen :
  client_inv c stk seen -> a ∉ stk.*1 -> a <> ROOT -> client_inv (set_frame a f c) stk seen.
Proof.
  intros [H1 (r & Hr & Hrp) H3 H4 H5 H6] Hn HR. split; cbn; auto.
  - exists r. by rewrite lookup_insert_ne.
  - eapply stack_ok_ext; [|exact H3]. intros x Hx. apply lookup_insert_ne. by intros ->.
Qed.

Lemma inv_put c n k iv d tags force stk seen :
  client_inv c stk seen -> truthful V log k iv d tags -> interval_ok iv ->
  (upper iv = PIN_INF -> always (V k d)) -> client_inv (emit (EPut n k iv d tags force) c) stk seen.
Proof.
  intros [H1 H2 H3 H4 H5 H6] Ht Hi Ha. split; cbn; auto.
  intros n' k' iv' d' tags' force' [Hin|Hin%list_elem_of_singleton]%elem_of_app; [by eapply H6|].
  injection Hin as -> -> -> -> -> ->. done.
Qed.

Lemma Exit_ok c c' a f d e fs a' fs' stk seen :
  client_inv c ((a, fs) :: (a', fs') :: stk) seen -> frames c !! a = Some f ->
  (forall t, (forall s, s ∈ fs -> holds s t) -> V (kbytes (fkey f)) d t) ->
  Client_ExitCacheable c a d e = Ok c' -> client_inv c' ((a', fs ++ fs') :: stk) seen.
Proof.
  intros HI Hf Hd H. unfold Client_ExitCacheable in H.
  apply bind_Ok in H as ([c1 f1] & HP & H).
  destruct (Pop_ok _ _ _ _ _ _ _ HI HP) as (Hf1 & Hfo & _ & _ & HI1).
  rewrite Hf in Hf1. injection Hf1 as <-.
  apply bind_Ok in H as (c2 & HU & H). apply bind_Ok in H as (c3 & HT & H).
  destruct (absorb_ok c1 c3 f a' fs fs' stk seen HI1 Hfo) as [HI3 _]; [by rewrite HU, bind_ret_l|].
  apply bind_Ok in H as ([item tags] & Hit & H).
  pose proof (ItemInterval_ok c3 f fs item tags (kbytes (fkey f)) d (proj1 (ci_mode _ _ _ _ _ _ HI3)) Hfo Hit Hd)
    as (Htr & Hiv & Hal).
  apply bind_Ok in H as (c4 & H4 & H). injection H as <-.
  assert (HI4 : client_inv c4 ((a', fs ++ fs') :: stk) seen).
  { rewrite (proj1 (ci_mode _ _ _ _ _ _ HI3)) in H4. cbn [negb] in H4.
    apply bind_Ok in H4 as (n & _ & H4). apply bind_Ok in H4 as (node & _ & H4).
    destruct (NodeToHost node (pe_connect e)) as [n1 host]. cbv zeta in H4.
    assert (HI5 : client_inv (set_cacheNodes (<[n := n1]> (cacheNodes c3)) c3) ((a', fs ++ fs') :: stk) seen).
    { eapply core_inv; [exact HI3|apply core_cacheNodes]. }
    destruct host; cbn [negb] in H4; injection H4 as <-; [|done].
    eapply core_inv; [|apply core_cacheNodes]. by apply inv_put. }
  destruct (ci_stack _ _ _ _ _ _ HI) as (_ & _ & Hni & _). cbn in Hni.
  apply inv_other_frame; [done|done|]. intros ->. apply Hni.
  destruct (ci_last _ _ _ _ _ _ HI) as [|Hl]; [done|]. cbn in Hl. by apply last_Some_elem_of in Hl.
Qed.

Lemma Abort_ok c c' a fs stk seen :
  client_inv c ((a, fs) :: stk) seen -> Client_ExitCacheableAbort c a = Ok c' -> client_inv c' stk seen.
Proof.
  intros HI H. unfold Client_ExitCacheableAbort in H. apply bind_Ok in H as ([c1 f] & HP & H).
  injection H as <-. destruct (Pop_ok _ _ _ _ _ _ _ HI HP) as (_ & _ & _ & _ & HI1).
  eapply core_inv; [exact HI1|apply core_bump].
Qed.

(** Writes to the bottom frame that keep its interval. *)
Lemma inv_bottom_frame c f f' a fs stk seen :
  client_inv c ((a, fs) :: stk) seen -> frames c !! a = Some f -> parent f' = parent f -> frame_ok f' fs ->
  client_inv (set_frame a f' c) ((a, fs) :: stk) seen.
Proof.
  intros [H1 (r & Hr & Hrp) H3 H4 H5 H6] Hf Hp Hfo. pose proof (proj1 H3) as Hb.
  split; cbn [bypassMode memcachedMode frames bottom pinSet out set_frame set_frames]; auto.
  - destruct (decide (a = ROOT)) as [->|E].
    + exists f'. rewrite lookup_insert_eq. split; [done|]. rewrite Hr in Hf. by injection Hf as <-; rewrite Hp.
    + exists r. by rewrite lookup_insert_ne.
  - rewrite Hb in *. by eapply stack_ok_update.
Qed.

Lemma AddTag_ok c c' tag a fs stk seen :
  client_inv c ((a, fs) :: stk) seen -> Client_AddExplicitInvalTag c tag = Ok c' ->
  client_inv c' ((a, fs) :: stk) seen.
Proof.
  intros HI H. destruct (bottom_frame_stack _ _ _ _ _ _ _ (ci_stack _ _ _ _ _ _ HI)) as
    (f & Hb & Hf & Hl & Hfo & _ & Ha0 & _).
  unfold Client_AddExplicitInvalTag in H. rewrite Hb, (proj2 (Z.eqb_neq a 0)) in H by done.
  destruct (AddInvalTag_ok c f tag Hf) as (tags & E & Ht). rewrite E in H. injection H as <-. rewrite Hb.
  eapply inv_bottom_frame; [done|done|done|]. destruct Hfo as [H1 H2 H3]. split; cbn; [done|done|].
  intros s Hs. eapply valid_over_tags; [|by apply H3]. intros t Hin. apply Ht. by right.
Qed.

Lemma SetWilling_ok c c' b a fs stk seen :
  client_inv c ((a, fs) :: stk) seen -> SetWilling c a b = Ok c' -> client_inv c' ((a, fs) :: stk) seen.
Proof.
  intros HI H. unfold SetWilling in H. apply bind_Ok in H as (f & Hf%deref_Ok & H). injection H as <-.
  destruct (bottom_frame_stack _ _ _ _ _ _ _ (ci_stack _ _ _ _ _ _ HI)) as (f0 & _ & _ & Hl & Hfo & _).
  rewrite Hf in Hl. injection Hl as <-. eapply inv_bottom_frame; [done|done|done|].
  destruct Hfo as [H1 H2 H3]. split; cbn; done.
Qed.

End Steps.
