(* ===== verification/ClientTrace.v ===== *)
(** * Read-only transactions see a snapshot

    Any sequence of client operations, against a database, a pincushion and cache
    nodes whose answers are right: everything a transaction has seen holds at
    each pin that is left in its pin set, and every value it puts into the cache
    is right over the interval and under the tags it is put with. *)

From S2P Require Import Prelude CLib CText Interval Truth Timeval PinSet Policy Hash OrdTree DBStatus Client ClientParse ClientInv ClientSteps.

(** A client, with the calls in progress and what each has seen, and what the
    transaction has seen. *)
Record tx_state : Type := TX {
  cl : Client_t;
  stk : list (Z * list saw);
  seen : list saw
}.

Section Trace.

Variable V : list Z -> list Z -> Z -> Prop.
Variable Q : list Z -> list (list Z) -> Z -> Prop.
Variable log : list (Z * list (list Z)).

Notation holds := (holds V Q).
Notation client_inv := (client_inv V Q log).

(** Steps that do not ask the cache. *)
Inductive local_step : tx_state -> tx_state -> Prop :=
| step_begin c stk seen e c' :
    begin_ok e -> Client_BeginRO c e = Ok (c', true) ->
    local_step (TX c stk seen) (TX c' [(ROOT, [])] [])
| step_begin_fails c stk seen e c' :
    begin_ok e -> Client_BeginRO c e = Ok (c', false) ->
    local_step (TX c stk seen) (TX c' stk seen)
| step_commit c stk seen e c' b :
    Client_Commit c e = Ok (c', b) ->
    local_step (TX c stk seen) (if bottom c' =? 0 then TX c' [] [] else TX c' stk seen)
| step_exec c a fs stk seen e sql c' r :
    exec_ok V Q log c e sql -> Client_Exec c e sql = Ok (c', r) ->
    local_step (TX c ((a, fs) :: stk) seen)
      (TX c' ((a, query_seen sql r fs) :: stk) (query_seen sql r seen))
| step_exec_outside c e sql c' r :
    Client_Exec c e sql = Ok (c', r) -> local_step (TX c [] []) (TX c' [] [])
(** The call's value is a function of what it has seen. *)
| step_exit c a fs a' fs' stk seen f d e c' :
    frames c !! a = Some f ->
    (forall t, (forall s, s ∈ fs -> holds s t) -> V (kbytes (fkey f)) d t) ->
    Client_ExitCacheable c a d e = Ok c' ->
    local_step (TX c ((a, fs) :: (a', fs') :: stk) seen) (TX c' ((a', fs ++ fs') :: stk) seen)
(** The caller does not use what the aborted call has seen. *)
| step_abort c a fs stk seen c' :
    Client_ExitCacheableAbort c a = Ok c' -> local_step (TX c ((a, fs) :: stk) seen) (TX c' stk seen)
| step_tag c a fs stk seen tag c' :
    Client_AddExplicitInvalTag c tag = Ok c' ->
    local_step (TX c ((a, fs) :: stk) seen) (TX c' ((a, fs) :: stk) seen)
| step_willing c a fs stk seen b c' :
    SetWilling c a b = Ok c' ->
    local_step (TX c ((a, fs) :: stk) seen) (TX c' ((a, fs) :: stk) seen)
| step_connect c stk seen cb :
    local_step (TX c stk seen) (TX (Client_ConnectPG c cb).1 stk seen)
| step_release c stk seen c' b :
    Client_ReleasePG c = Ok (c', b) -> local_step (TX c stk seen) (TX c' stk seen).

(** The stack after a lookup. *)
Definition entered (k : keyref) (frame : Z) (r : option (list Z)) (a : Z) (fs : list saw)
    (stk : list (Z * list saw)) : list (Z * list saw) :=
  match r with
  | Some d => (a, SawHit (kbytes k) d :: fs) :: stk
  | None => (frame, []) :: (a, fs) :: stk
  end.

Inductive client_step : tx_state -> tx_state -> Prop :=
| step_local s s' : local_step s s' -> client_step s s'
| step_lookup c a fs stk seen k frame e c' r :
    lookup_ok V Q log k e -> frame <> 0 -> frame ∉ a :: stk.*1 ->
    Client_TryEnterCacheable c k frame e = Ok (c', r) ->
    client_step (TX c ((a, fs) :: stk) seen) (TX c' (entered k frame r a fs stk) (hit_seen k r seen)).

Inductive client_run : tx_state -> Prop :=
| run_init c0 policy pincushion nodes :
    out c0 = [] ->
    client_run (TX (Client_InitWith c0 (Some policy) (Some pincushion) (Z.of_nat (length nodes)) nodes) [] [])
| run_step s s' : client_run s -> client_step s s' -> client_run s'.

Lemma init_inv c0 policy pincushion n nodes :
  out c0 = [] -> client_inv (Client_InitWith c0 policy pincushion n nodes) [] [].
Proof.
  intros Ho. split; cbn; try done.
  - eexists. by rewrite lookup_insert_eq.
  - by left.
  - rewrite Ho. by intros n' k iv d tags force ?%elem_of_nil.
Qed.

Lemma local_inv s s' :
  local_step s s' -> client_inv (cl s) (stk s) (seen s) -> client_inv (cl s') (stk s') (seen s').
Proof.
  destruct 1; cbn [cl stk seen]; intros HI.
  - by destruct (Begin_ok _ _ _ _ _ _ _ _ _ HI H H0) as [_ ?].
  - exact (Begin_ok _ _ _ _ _ _ _ _ _ HI H H0).
  - destruct (Commit_ok _ _ _ _ _ _ _ _ _ HI H) as [[Hb HI']| ->].
    + by rewrite Hb.
    + destruct (Z.eqb_spec (bottom c) 0) as [Hb|Hb]; [|done].
      pose proof (begin_outside _ _ _ _ _ _ HI Hb) as E. subst. destruct HI. by split.
  - by apply (Exec_ok _ _ _ _ _ _ _ _ _ _ _ _ HI) in H0 as [? _].
  - by apply (Exec_outside _ _ _ _ _ _ _ _ HI) in H as [? _].
  - by eapply Exit_ok.
  - by eapply Abort_ok.
  - by eapply AddTag_ok.
  - by eapply SetWilling_ok.
  - eapply core_inv; [exact HI|]. apply ConnectPG_core.
  - unfold Client_ReleasePG in H. destruct (negb _) in H; [done|]. injection H as <- <-.
    eapply core_inv; [exact HI|]. apply core_pg.
Qed.

Lemma lookup_inv c a fs stk seen k frame e c' r :
  client_inv c ((a, fs) :: stk) seen -> lookup_ok V Q log k e -> frame <> 0 -> frame ∉ a :: stk.*1 ->
  Client_TryEnterCacheable c k frame e = Ok (c', r) ->
  client_inv c' (entered k frame r a fs stk) (hit_seen k r seen).
Proof.
  intros HI H1 H2 H3 H4. pose proof (TryEnter_ok _ _ _ _ _ _ _ _ _ _ _ _ _ HI H1 H2 H3 H4) as HT.
  destruct r; [done|]. apply HT.
Qed.

Lemma step_inv s s' :
  client_step s s' -> client_inv (cl s) (stk s) (seen s) -> client_inv (cl s') (stk s') (seen s').
Proof. destruct 1; [by apply local_inv|]. cbn [cl stk seen]. intros HI. by eapply lookup_inv. Qed.

Lemma run_inv s : client_run s -> client_inv (cl s) (stk s) (seen s).
Proof. induction 1; [by apply init_inv|by eapply step_inv]. Qed.

End Trace.

(** ** A transaction that calls a cacheable function *)

(** The database's one table has had its rows since pin 7, and no message has
    come. *)
Definition ex_V (k d : list Z) (t : Z) : Prop := 7 <= t.
Definition ex_Q (sql : list Z) (rows : list (list Z)) (t : Z) : Prop := 7 <= t.

Definition blank : Client_t :=
  Client false [] None None [] 0 false false ex_set PIN_INVALID PIN_INVALID ∅ 0 (fun _ => 0) [].

Definition ex_c0 : Client_t :=
  Client_InitWith blank (Some Policy_LargestBoundedPin) (Some (Node (str "pins") (str "1") false))
    (Z.of_nat (length [Node (str "cache") (str "2") false])) [Node (str "cache") (str "2") false].

Definition ex_begin : begin_env := BeginEnv true (Some [ex_pin 5; ex_pin 9]) 2 true true true.
Definition ex_call : keyref := KeyRef 0 (le_bytes 4 3 ++ str "foo/1" ++ [0; 0; 0]) 9.
Definition ex_dbtags : list (list Z) := [str "t:a:"; str "t:b:"].
Definition ex_exec : exec_env :=
  ExecEnv true (ChooseEnv (Some (Timeval 12 0)) 7) None true
    [PGRes PGRES_COMMAND_OK (str "BEGIN") [];
     PGRes PGRES_TUPLES_OK (SelectTag 7 10 true ex_dbtags) [str "row"]] false true true.
Definition ex_sql : list Z := str "SELECT * FROM items".

Definition ex_c1 : Client_t := (get (ex_c0, false) (Client_BeginRO ex_c0 ex_begin)).1.
Definition ex_miss : Client_t :=
  (get (ex_c1, None) (Client_TryEnterCacheable ex_c1 ex_call 16 (LookupEnv true None true))).1.
Definition ex_c2 : Client_t := get ex_miss (SetWilling ex_miss 16 true).
Definition ex_c3 : Client_t := (get (ex_c2, None) (Client_Exec ex_c2 ex_exec ex_sql)).1.
Definition ex_c4 : Client_t := get ex_c3 (Client_ExitCacheable ex_c3 16 (str "data") (PutEnv true true)).

Lemma ex_begin_ok : begin_ok ex_begin.
Proof. split; [done|]. unfold pins_ok. pins_ok_tac. Qed.

Lemma ex_promised V :
  promised V ex_Q [] (SawRows ex_sql [str "row"]) (Interval 7 10 true) ex_dbtags.
Proof.
  split; [by vm_compute|by vm_compute| |done].
  split; [intros t Ht; apply Ht|]. intros _ t Ht _. unfold holds, ex_Q. cbn in Ht. lia.
Qed.

Lemma ex_replies V : replies_ok V ex_Q [] ex_sql 1 (xe_results ex_exec).
Proof.
  split; [by repeat constructor|]. repeat apply Forall_cons_2; [..|apply Forall_nil_2].
  - split; [done|]. intros _ p s u n H. vm_compute in H. done.
  - split; [|done]. intros _. exists 7, 10, true, ex_dbtags.
    split; [done|]. split; [lia|]. split; [lia|]. split; [|apply ex_promised].
    intros _. split; [|split; [|done]].
    + unfold status_fits. apply Nat.ltb_lt. by vm_compute.
    + repeat apply Forall_cons_2; [..|apply Forall_nil_2]; (split; [by repeat constructor|done]).
Qed.

Lemma ex_exec_ok : exec_ok ex_V ex_Q [] ex_c2 ex_exec ex_sql.
Proof.
  assert (E1 : choosePin ex_c2 = Some Policy_LargestBoundedPin) by reflexivity.
  assert (E2 : fn Policy_LargestBoundedPin (xe_choose ex_exec) (pinSet ex_c2) = Ok 9) by (by vm_compute).
  assert (E3 : exec_controls ex_c2 9 = 1%nat) by (by vm_compute).
  intros policy p Hp Hc. rewrite E1 in Hp. injection Hp as <-. rewrite E2 in Hc. injection Hc as <-.
  rewrite E3. apply ex_replies.
Qed.

(** The steps of the transaction. *)
Definition ex_rows : saw := SawRows ex_sql [str "row"].

Lemma ex_step1 : local_step ex_V ex_Q [] (TX ex_c0 [] []) (TX ex_c1 [(ROOT, [])] []).
Proof.
  apply (step_begin _ _ _ ex_c0 [] [] ex_begin ex_c1 ex_begin_ok). by apply get_pair; vm_compute.
Qed.

Lemma ex_step2 : Client_TryEnterCacheable ex_c1 ex_call 16 (LookupEnv true None true) = Ok (ex_miss, None).
Proof. by apply get_pair; vm_compute. Qed.

Lemma ex_step3 :
  local_step ex_V ex_Q [] (TX ex_miss [(16, []); (ROOT, [])] []) (TX ex_c2 [(16, []); (ROOT, [])] []).
Proof.
  apply (step_willing _ _ _ ex_miss 16 [] [(ROOT, [])] [] true ex_c2). by apply get_Ok; vm_compute.
Qed.

Lemma ex_step4 :
  local_step ex_V ex_Q [] (TX ex_c2 [(16, []); (ROOT, [])] []) (TX ex_c3 [(16, [ex_rows]); (ROOT, [])] [ex_rows]).
Proof.
  apply (step_exec _ _ _ ex_c2 16 [] [(ROOT, [])] [] ex_exec ex_sql ex_c3
    (Some (PGRes PGRES_TUPLES_OK (SelectTag 7 10 true ex_dbtags) [str "row"])) ex_exec_ok).
  by apply get_pair; vm_compute.
Qed.

Lemma ex_step5 :
  local_step ex_V ex_Q [] (TX ex_c3 [(16, [ex_rows]); (ROOT, [])] [ex_rows]) (TX ex_c4 [(ROOT, [ex_rows])] [ex_rows]).
Proof.
  apply (step_exit _ _ _ ex_c3 16 [ex_rows] ROOT [] [] [ex_rows]
    (get (Frame no_key (Interval 0 0 false) [] false 0) (bottom_frame ex_c3)) (str "data") (PutEnv true true) ex_c4).
  - by vm_compute.
  - intros t H. apply (H ex_rows). by left.
  - by apply get_Ok; vm_compute.
Qed.

Lemma ex_run3 : client_run ex_V ex_Q [] (TX ex_c3 [(16, [ex_rows]); (ROOT, [])] [ex_rows]).
Proof.
  eapply run_step; [eapply run_step; [eapply run_step; [eapply run_step|]|]|].
  - apply (run_init _ _ _ blank Policy_LargestBoundedPin (Node (str "pins") (str "1") false)
      [Node (str "cache") (str "2") false]). reflexivity.
  - apply step_local, ex_step1.
  - apply (step_lookup _ _ _ ex_c1 ROOT [] [] [] ex_call 16 (LookupEnv true None true) ex_miss None);
      [done|done|cbn; set_solver|apply ex_step2].
  - apply step_local, ex_step3.
  - apply step_local, ex_step4.
Qed.

Lemma ex_run4 : client_run ex_V ex_Q [] (TX ex_c4 [(ROOT, [ex_rows])] [ex_rows]).
Proof. eapply run_step; [apply ex_run3|]. apply step_local, ex_step5. Qed.

(** ** Properties *)

(** C4: Read-only transactions see a snapshot.  In every reachable state inside a
    transaction, everything the transaction has seen, from the cache and from the
    database, in whatever calls, holds at every pin that is left in its pin set,
    when the answers it got were right about their own intervals and tags. *)
Theorem Client_sees_snapshot V Q log s :
  client_run V Q log s -> bottom (cl s) <> 0 ->
  forall x o, x ∈ pin_list (pinSet (cl s)) -> o ∈ seen s -> holds V Q o (pin x).
Proof.
  intros Hr Hb x o Hx Ho. apply (pi_pin _ _ _ _ (ci_pins _ _ _ _ _ _ (run_inv _ _ _ s Hr) Hb) o x Ho Hx).
Qed.

(** The pin 9 is left, and the rows are right there. *)
Lemma Client_sees_snapshot_witness :
  pin_list (pinSet ex_c3) = [ex_pin 9] /\ holds ex_V ex_Q ex_rows 9.
Proof.
  split; [by vm_compute|].
  apply (Client_sees_snapshot _ _ _ _ ex_run3 ltac:(by vm_compute) (ex_pin 9)).
  - vm_compute. left.
  - by left.
Defined.

(** C5: What a client puts into the cache is right.  In the runs in which the answers
    of the database and of the cache are right about their own intervals and tags
    ([exec_ok], [lookup_ok]) and in which the data that a call is left with is its
    value at every pin at which all it has seen holds (the condition of [step_exit];
    [aborted_call_forgotten] is what happens without it), every put has a valid
    interval, and its data is the value of its key at the pins of the interval, and
    after it for as long as no invalidation message affects its tags. *)
Theorem Client_puts_truthful V Q log s n k iv d tags force :
  client_run V Q log s -> EPut n k iv d tags force ∈ out (cl s) ->
  truthful V log k iv d tags /\ interval_ok iv.
Proof. intros Hr Hin. destruct (ci_puts _ _ _ _ _ _ (run_inv _ _ _ s Hr) _ _ _ _ _ _ Hin) as (? & ? & _). done. Qed.

(** The call's data goes to the cache with the interval and the tag of its query. *)
Lemma Client_puts_truthful_witness :
  exists n, EPut n (kbytes ex_call) (Interval 7 10 true) (str "data") ex_dbtags false ∈ out ex_c4 /\
    truthful ex_V [] (kbytes ex_call) (Interval 7 10 true) (str "data") ex_dbtags.
Proof.
  exists 0%nat.
  assert (H : EPut 0 (kbytes ex_call) (Interval 7 10 true) (str "data") ex_dbtags false ∈ out ex_c4).
  { apply list_elem_of_In. vm_compute. tauto. }
  split; [exact H|]. apply (Client_puts_truthful _ _ _ _ _ _ _ _ _ _ ex_run4 H).
Defined.
