(* ===== verification/Answers.v ===== *)
(** * The database meets the clients' contract

    What the theorems about clients assume of the database's answers is what the
    model of the database gives: a query by sequential scan, in a transaction at
    a saved snapshot, is answered with rows, an interval and tags that are right
    for the whole history of the database.  That later commits are announced
    with tags that affect the query follows from the tags the executor enqueues
    for every row that is inserted or deleted. *)

From S2P Require Import Prelude CLib CText Interval Truth Timeval PinSet Policy Hash OrdTree.
From S2P Require Import CommitMap DBStatus DBTags DBInval Snapshots Validity.
From S2P Require Import Client ClientParse ClientInv ClientSteps ClientTrace.

(** ** Changes and their tags *)

Section Changes.

Context (hash_any : list Z -> Z) (rel : Relation).

(** A row that a transaction inserts, updates or deletes, with its values in the
    indexes. *)
Inductive change : Type :=
| ChInsert (new : list RowIndex)
| ChUpdate (old new : list RowIndex)
| ChDelete (old : list RowIndex).

Definition change_tags (c : change) : res (list (list Z)) :=
  match c with
  | ChInsert new => InsertTags hash_any true rel new
  | ChUpdate old new => UpdateTags hash_any true rel old new
  | ChDelete old => DeleteTags hash_any true rel old
  end.

(** The row whose tags are enqueued. *)
Definition ch_indices (c : change) : list RowIndex :=
  match c with ChInsert new => new | ChUpdate _ new => new | ChDelete old => old end.

(** [writes x] are the changes of transaction [x]: its commit carries the tags
    the executor enqueued for them; *)
Definition tagged (writes : Z -> list change) (h : list db_event) : Prop :=
  forall x y ctags c, EvCommit x y ctags ∈ h -> c ∈ writes x ->
    exists tags, change_tags c = Ok tags /\ forall t, t ∈ tags -> t ∈ ctags.

(** and a transaction that inserted or deleted a version changed a row for which
    the relation has an index that applies. *)
Definition written (writes : Z -> list change) (tuples : list Tuple) (h : list db_event) : Prop :=
  forall t x y ctags, t ∈ tuples -> t_xmin t = x \/ deleter t = Some x -> EvCommit x y ctags ∈ h ->
    exists c i, c ∈ writes x /\ i ∈ ch_indices c /\ ri_applies i = true.

Lemma scan_covered writes node tuples h :
  system_relation rel = false -> tagged writes h -> written writes tuples h ->
  covered node [MakeInvalTagFromRelation rel] tuples h.
Proof.
  intros Hs HT HW t x y ctags Ht _ Hx Hc. destruct (HW t x y ctags Ht Hx Hc) as (c & i & Hw & Hi & Ha).
  destruct (HT x y ctags c Hc Hw) as (tags & E & Hsub). apply (hits_tags_more tags); [done|].
  destruct (change_tags_in hash_any (match c with ChDelete _ => false | _ => true end) rel (ch_indices c) tags i Hs Hi Ha)
    as (tg & Etg & Hin); [by destruct c|].
  apply (hits_one tags tg); [done|]. by eapply values_affect_relation.
Qed.

End Changes.

(** ** The tag of a scan in the status text *)

Lemma hexdigit_text d : 0 <= d < 16 -> isspace (hexdigit d) = false.
Proof. intros Hd. unfold hexdigit, isspace. destruct (Z.ltb_spec d 10); bools; lia. Qed.

Lemma hexdigits_text fuel n : 0 <= n -> Forall (fun c => isspace c = false) (hexdigits fuel n).
Proof.
  revert n. induction fuel as [|fuel IH]; intros n Hn; cbn [hexdigits]; [constructor|].
  apply Forall_app. split.
  - destruct (n <? 16); [constructor|]. apply IH. apply Z.div_pos; lia.
  - constructor; [|constructor]. apply hexdigit_text. apply Z.mod_pos_bound. lia.
Qed.

Lemma rel_tag_text rel : tag_ok (MakeInvalTagFromRelation rel) /\ (length (MakeInvalTagFromRelation rel) <= 9)%nat.
Proof.
  rewrite rel_tag_eq. pose proof (hexdigits_length 8 (u32 (rd_id rel))). unfold fmt_x. split; [split|].
  - apply Forall_app. split; [|by repeat constructor]. apply hexdigits_text. unfold u32. apply Z.mod_pos_bound. lia.
  - intros E. by apply app_eq_nil in E as [_ E].
  - rewrite length_app. cbn [str length]. lia.
Qed.

Lemma rel_tag_fits lo hi rel : status_fits lo hi [MakeInvalTagFromRelation rel].
Proof.
  unfold status_fits, tags_text, tag_words. cbn [map concat]. rewrite app_nil_r, !length_app.
  pose proof (digits_length 10 (u32 lo)). pose proof (digits_length 10 (u32 hi)).
  pose proof (digits_length 20 (Z.of_nat (length [MakeInvalTagFromRelation rel]))).
  pose proof (proj2 (rel_tag_text rel)). unfold fmt_u. cbn [str length] in *. lia.
Qed.

(** ** A query and its reply *)

Section Answers.

Context (topmost : Z -> Z) (scan_tags : list (list Z) -> list (list Z)) (hash_any : list Z -> Z).
Context (IsCurrent IsInProgress DidCommit DidAbort before : Z -> bool).

(** A serializable transaction scans [rel]: the tag of the scan, the rows with
    their interval, and the status text. *)
Definition AnswerScan (db : Database) (ts : TransactionState) (s : Snapshot) (curcid : Z) (rel : Relation)
    (node : ScanState) (pages : list (list (option Tuple))) : res PGresult :=
  tags ← SeqScanTag hash_any true rel;
  '(_, v, unbounded, rows) ← ExecutorRun topmost IsCurrent IsInProgress DidCommit DidAbort db ts s curcid node pages;
  Ok (PGRes PGRES_TUPLES_OK (SelectTag (vstart v) (vend v) unbounded tags) rows).

(** The database as the clients see it, after the history [h]: [plan] is the scan
    a query is, [tuples] are the versions of the relation. *)
Definition db_rows (h : list db_event) (plan : list Z -> ScanState) (tuples : list Tuple)
    (sql : list Z) (rows : list (list Z)) (p : Z) : Prop :=
  rows_at (stamp before (commits_of h)) (plan sql) tuples p = rows.

(** The replies to COMMIT and BEGIN, and to PIN. *)
Definition control_reply (r : PGresult) : Prop :=
  r = PGRes PGRES_COMMAND_OK (str "COMMIT") [] \/ r = PGRes PGRES_COMMAND_OK (str "BEGIN") [] \/
  exists ssnap sec usec, FirstXStamp <= ssnap < XStampInfinity /\ 0 <= sec < 2 ^ 63 /\ 0 <= usec < 2 ^ 63 /\
    r = PGRes PGRES_COMMAND_OK (PinTag ssnap sec usec) [].

End Answers.

Lemma control_ok V Q log sql r :
  control_reply r -> has_rows (Some r) = false /\ rows_ok V Q log sql r /\ pin_reply_ok r.
Proof.
  intros [->|[->|(ssnap & sec & usec & Hp & Hs & Hu & ->)]]; split_and!; try done.
  intros _ p s u n E. cbn [r_cmdStatus] in E. unfold FirstXStamp, XStampInfinity, PIN_NEG_INF, PIN_INF in *.
  rewrite scan_pin in E by lia. injection E as <- _ _ _. lia.
Qed.

(** The replies of one [Client_Exec]: those of the commands in front, then the
    answer. *)
Lemma exec_of_replies V Q log c e sql ctl r :
  xe_results e = ctl ++ [r] -> Forall control_reply ctl -> rows_ok V Q log sql r -> r_status r = PGRES_TUPLES_OK ->
  (forall policy pin, choosePin c = Some policy -> fn policy (xe_choose e) (pinSet c) = Ok pin ->
     (exec_controls c pin <= length ctl)%nat) ->
  exec_ok V Q log c e sql.
Proof.
  intros E Hctl Hr Hst Hn policy pin Hp Hf. specialize (Hn policy pin Hp Hf). unfold replies_ok. rewrite E.
  split.
  - rewrite take_app_le by done. apply Forall_take. eapply Forall_impl; [exact Hctl|].
    intros x Hx. by apply (control_ok V Q log sql).
  - apply Forall_app. split.
    + eapply Forall_impl; [exact Hctl|]. intros x Hx. by apply (control_ok V Q log sql).
    + constructor; [|constructor]. split; [done|]. intros Hc. rewrite Hst in Hc. done.
Qed.

(** ** Properties *)

(** C10: the database meets the contract that the theorems about clients rest on.
    A query that is a sequential scan of a relation that is not a system one, in
    a serializable transaction that began at a saved snapshot and has not
    written, over versions as [tuple_ok] describes them, does not fail.  Let the
    history of the database go on as it may, as long as the transactions that
    insert or delete versions of the relation take stamps, and each of them
    commits with the tags the executor enqueues for its changes ([tagged]), at
    least one of which is a change of a row to which an index of the relation
    applies ([written]: a relation without indexes has no tags for its changes).
    Then, with what queries return at each pin given by the versions the relation
    has in the end, and with the announcements of the whole history as the stream
    of messages, any client that gets this answer behind the replies to its
    commands is in a step of [exec_ok]. *)
Theorem database_meets_contract (topmost : Z -> Z) (scan_tags : list (list Z) -> list (list Z)) (hash_any : list Z -> Z)
    (IsCurrent IsInProgress DidCommit DidAbort before : Z -> bool) (m : CommitMap) (db : Database) (h : list db_event)
    (pin : Z) (s : Snapshot) (ts : TransactionState) (curcid : Z) (rel : Relation) (node : ScanState)
    (pages : list (list (option Tuple)))
    (Hscan : forall l, scan_tags l ≡ₚ l) (Hrun : db_run topmost scan_tags m db h)
    (Hpin : 0 <= pin < XStampInfinity) (Hbegin : SetTransactionXStamp db pin = Ok s) (Hts : xstamp ts = pin + 1)
    (Hlatest : XSTAMP_IS_VALID (latestXstampAtStart ts) = true -> pin < latestXstampAtStart ts <= GetNextXStamp db)
    (Hbefore : forall x, before x = true -> XidInSnapshot topmost x s = false /\ forall y, (x, y) ∉ commits_of h)
    (Hok : Forall (tuple_ok IsCurrent IsInProgress DidCommit (stamp before (commits_of h))) (used pages))
    (Hrel : system_relation rel = false) :
  exists r, AnswerScan topmost hash_any IsCurrent IsInProgress DidCommit DidAbort db ts s curcid rel node pages = Ok r /\
    forall db' h2 tuples' writes V plan sql, db_run topmost scan_tags m db' (h ++ h2) ->
      (forall x, before x = true -> forall y, (x, y) ∉ commits_of h2) ->
      grows (stamp before (commits_of h)) (used pages) tuples' ->
      tagged hash_any rel writes h2 -> written writes tuples' h2 -> plan sql = node ->
      forall c e ctl, xe_results e = ctl ++ [r] -> Forall control_reply ctl ->
        (forall policy p, choosePin c = Some policy -> fn policy (xe_choose e) (pinSet c) = Ok p ->
           (exec_controls c p <= length ctl)%nat) ->
        exec_ok V (db_rows before (h ++ h2) plan tuples') (announcements scan_tags (h ++ h2)) c e sql.
Proof.
  unfold SetTransactionXStamp, GetSavedSnapshot, GetNextXStamp in *. rewrite u32_small in Hbegin by (unfold XStampInfinity in *; lia).
  assert (exists k, pin = k - 1) as [k ->] by (exists (pin + 1); lia). replace (k - 1 + 1) with k in * by lia.
  destruct (SSnapHash db !! k) as [s'|] eqn:Hsaved; [|done]. injection Hbegin as ->.
  destruct (ExecutorRun_spec topmost scan_tags IsCurrent IsInProgress DidCommit DidAbort before Hscan m db h k s
    Hrun Hsaved Hbefore ts curcid node pages Hts) as (ts' & v & unb & E & Hv1 & Hv2 & Hsteady); [|done|].
  { intros Hl. specialize (Hlatest Hl). lia. }
  pose proof (saved_range topmost scan_tags IsCurrent IsInProgress DidCommit DidAbort before Hscan m db h k s
    Hrun Hsaved Hbefore) as Hrange. unfold XStampInfinity in Hrange.
  unfold AnswerScan, SeqScanTag, AddInvalidationTag. rewrite Hrel. cbn [negb MakeInvalTagFromScanKey].
  rewrite !bind_ret_l, E, bind_ret_l. eexists. split; [done|].
  intros db' h2 tuples' writes V plan sql Hrun' Hbefore' Hg HT HW Hplan c e ctl He Hctl Hn.
  eapply exec_of_replies; [exact He|done| |done|done]. intros _.
  exists (vstart v), (vend v), unb, [MakeInvalTagFromRelation rel]. cbn [r_cmdStatus r_rows].
  split; [done|]. split; [lia|]. split; [lia|]. split.
  { intros _. split; [apply rel_tag_fits|]. split; [|done]. constructor; [apply rel_tag_text|constructor]. }
  pose proof (scan_covered hash_any rel writes node tuples' h2 Hrel HT HW) as Hc.
  assert (HV : valid_over (announcements scan_tags (h ++ h2))
    (fun p => rows_at (stamp before (commits_of (h ++ h2))) node tuples' p =
              rows_at (stamp before (commits_of h)) node (used pages) (k - 1))
    (Interval (vstart v) (vend v) unb) [MakeInvalTagFromRelation rel]) by (eapply query_later; try done; lia).
  split; cbn [lower upper]; [unfold pin_ok, PIN_INF; lia|unfold pin_ok, PIN_INF; lia| |unfold PIN_INF; lia].
  unfold holds, db_rows. rewrite Hplan. destruct unb; [exact HV|]. split; [apply HV|done].
Qed.

(** ** Example *)

(** A snapshot is pinned and the query runs while transaction 5 is in progress;
    then transaction 5 inserts the row 8, deletes the row 9 and commits. *)
Definition ex_pinned : Database :=
  DB (Shared 2 2 2) (<[2 := ex_snap]> ∅) (CommitMapInit ex_map) InvalidationInit.

Lemma ex_pinned_run : db_run id id ex_map ex_pinned [EvPin 1 ex_snap].
Proof.
  apply (Snapshots.run_step id id ex_map (SSnapInit ex_map) [] (EvPin 1 ex_snap)); [constructor| |].
  - by apply (step_pin id (SSnapInit ex_map) false ex_snap true _ 2).
  - by intros xid x Hx%elem_of_nil.
Qed.

Definition ex_pages1 : list (list (option Tuple)) :=
  [[Some (ex_tuple 3 0 false 7); None]; [Some (ex_tuple 3 0 false 9)]].

Definition ex_tuples2 : list Tuple := [ex_tuple 3 0 false 7; ex_tuple 5 0 false 8; ex_tuple 3 5 true 9].

Definition ex_writes (x : Z) : list change := if x =? 5 then [ChInsert (ex_row 17)] else [].

Definition ex_client (r : PGresult) : exec_env :=
  ExecEnv true (ChooseEnv (Some (Timeval 12 0)) 7) None true [PGRes PGRES_COMMAND_OK (str "BEGIN") []; r] false true true.

Lemma ex_grows : grows (stamp ex_before (commits_of [EvPin 1 ex_snap])) (used ex_pages1) ex_tuples2.
Proof.
  apply grows_keep; [done|done|by left|]. apply grows_new; [by vm_compute|].
  apply grows_keep; [done|done| |constructor]. right. split; [done|]. intros x [= <-]. by vm_compute.
Qed.

Lemma ex_commit x y ctags : EvCommit x y ctags ∈ [EvCommit 5 2 Snapshots.ex_tags] -> x = 5 /\ ctags = Snapshots.ex_tags.
Proof. intros H. apply list_elem_of_singleton in H. by injection H as -> _ ->. Qed.

Lemma ex_tagged : tagged (fun _ => 0) ex_rel ex_writes [EvCommit 5 2 Snapshots.ex_tags].
Proof.
  intros x y ctags c [-> ->]%ex_commit Hc. apply list_elem_of_singleton in Hc as ->.
  exists Snapshots.ex_tags. split; [by vm_compute|done].
Qed.

Lemma ex_written : written ex_writes ex_tuples2 [EvCommit 5 2 Snapshots.ex_tags].
Proof.
  intros t x y ctags _ _ [-> _]%ex_commit. exists (ChInsert (ex_row 17)), (RowIdx ex_index true [Dat 17 []]).
  split_and!; [by left|by left|done].
Qed.

Lemma ex_client_controls r policy p :
  choosePin ex_c2 = Some policy -> fn policy (xe_choose (ex_client r)) (pinSet ex_c2) = Ok p ->
  (exec_controls ex_c2 p <= length [PGRes PGRES_COMMAND_OK (str "BEGIN") []])%nat.
Proof.
  assert (E1 : choosePin ex_c2 = Some Policy_LargestBoundedPin) by reflexivity.
  assert (E2 : fn Policy_LargestBoundedPin (ChooseEnv (Some (Timeval 12 0)) 7) (pinSet ex_c2) = Ok 9) by (by vm_compute).
  assert (E3 : exec_controls ex_c2 9 = 1%nat) by (by vm_compute).
  rewrite E1. intros [= <-]. cbn [xe_choose ex_client]. rewrite E2. intros [= <-]. by rewrite E3.
Qed.

Lemma database_meets_contract_witness : exists r,
  AnswerScan id (fun _ => 0) (fun _ => false) (fun x => x =? 5) (fun x => x =? 3) (fun _ => false) ex_pinned
    (TState 2 InvalidXStamp) ex_snap 0 ex_rel (SState None None) ex_pages1 = Ok r /\
  exec_ok (fun _ _ _ => False) (db_rows ex_before ex_history (fun _ => SState None None) ex_tuples2)
    (announcements id ex_history) ex_c2 (ex_client r) ex_sql.
Proof.
  destruct (database_meets_contract id id (fun _ => 0) (fun _ => false) (fun x => x =? 5) (fun x => x =? 3) (fun _ => false)
    ex_before ex_map ex_pinned [EvPin 1 ex_snap] 1 ex_snap (TState 2 InvalidXStamp) 0 ex_rel (SState None None) ex_pages1)
    as (r & E & H).
  - intros l. apply Permutation_refl.
  - exact ex_pinned_run.
  - done.
  - reflexivity.
  - done.
  - done.
  - intros x Hx%Z.eqb_eq. subst x. split; [done|]. intros y Hy. by apply elem_of_nil in Hy.
  - repeat constructor; cbn; try done; intros x; try (intros [?|?]); intros; simplify_eq; try done; vm_compute; eauto.
  - done.
  - exists r. split; [exact E|]. destruct ex_db_run as (db' & Hrun & _).
    apply (H db' [EvCommit 5 2 Snapshots.ex_tags] ex_tuples2 ex_writes (fun _ _ _ => False) (fun _ => SState None None) ex_sql
      Hrun) with (ctl := [PGRes PGRES_COMMAND_OK (str "BEGIN") []]).
    + intros x Hx%Z.eqb_eq y Hy. apply list_elem_of_singleton in Hy. by simplify_eq.
    + exact ex_grows.
    + exact ex_tagged.
    + exact ex_written.
    + done.
    + done.
    + constructor; [|constructor]. right. by left.
    + apply ex_client_controls.
Defined.
