(* ===== verification/System.v ===== *)
(** * The whole system is transactionally consistent

    Clients, cache nodes and the stream of invalidation messages together.  The
    nodes answer the clients' lookups, and receive the clients' puts in any
    order, late, repeated or not at all.  Nothing is assumed of the cache: what
    the clients see of it is what the nodes answer. *)

From S2P Require Import Prelude CLib CText Interval Truth Timeval PinSet Policy Memory Hash DblList OrdTree Eviction StoreData StatsText Store StoreInv StoreInval StorePut StoreProps StoreTrace.
From S2P Require IOBuf RPC Server.
From S2P Require Import DBStatus Client ClientParse ClientInv ClientSteps ClientTrace.

Section System.

Context {P : Type} `{!EvictionPolicy P} `{!EvictionPolicyLaws P}.

Notation Store_t := (Store_t P).

(** The database: the values of cacheable calls, the rows of queries, and the
    stream of messages. *)
Variable V : list Z -> list Z -> Z -> Prop.
Variable Q : list Z -> list (list Z) -> Z -> Prop.
Variable log : list (Z * list (list Z)).

Notation consistent := (consistent V log true).
Notation history := (history V log true).

(** ** Steps *)

Record system : Type := System {
  clients : list tx_state;
  nodes : list Store_t
}.

(** Calls to a node that neither come from a client nor from the stream. *)
Definition maintenance (x : call) : bool :=
  match x with
  | CEvict _ | CFlush | CRemoveUseless _ | CIterReset | CIterNext => true
  | _ => false
  end.

Inductive system_step : system -> system -> Prop :=
(** A client on its own, or with the database. *)
| sys_local cs ns i s s' :
    cs !! i = Some s -> local_step V Q log s s' ->
    system_step (System cs ns) (System (<[i := s']> cs) ns)
(** A lookup that a node answers. *)
| sys_lookup cs ns i c a fs stk seen k frame e c' r n st iv st' id :
    cs !! i = Some (TX c ((a, fs) :: stk) seen) ->
    Client_GetNode c k = Ok n -> ns !! n = Some st ->
    PinSet_BoundsWithoutStar (pinSet c) = Ok iv -> interval_ok iv -> key_ok (kbytes k) ->
    Store_Lookup st (kbytes k) iv (earliestPin c) LOOKUP_POLICY_LATEST = Ok (st', id) ->
    le_answer e = Server.lookup_answer st' id -> frame <> 0 -> frame ∉ a :: stk.*1 ->
    Client_TryEnterCacheable c k frame e = Ok (c', r) ->
    system_step (System cs ns)
      (System (<[i := TX c' (entered k frame r a fs stk) (hit_seen k r seen)]> cs) (<[n := st']> ns))
(** A lookup that no node answers. *)
| sys_unanswered cs ns i c a fs stk seen k frame e c' r :
    cs !! i = Some (TX c ((a, fs) :: stk) seen) -> le_answer e = None -> frame <> 0 -> frame ∉ a :: stk.*1 ->
    Client_TryEnterCacheable c k frame e = Ok (c', r) ->
    system_step (System cs ns)
      (System (<[i := TX c' (entered k frame r a fs stk) (hit_seen k r seen)]> cs) ns)
(** A put that a client has sent, at whatever time. *)
| sys_put cs ns i s n k iv d tags force al time st st' ok :
    cs !! i = Some s -> EPut n k iv d tags force ∈ out (cl s) -> ns !! n = Some st ->
    put_args st k iv d tags al -> timely log st iv tags -> in_step log st k iv d ->
    Store_Put st k iv d tags force al time = Ok (st', ok) ->
    system_step (System cs ns) (System cs (<[n := st']> ns))
(** The next message of the stream reaches a node. *)
| sys_invalidate cs ns n st ts msg time st' :
    ns !! n = Some st -> call_ok st (CInvalidate ts msg time) -> next_message log st ts msg ->
    Store_Invalidate st ts msg time = Ok st' ->
    system_step (System cs ns) (System cs (<[n := st']> ns))
| sys_maintenance cs ns n st x st' :
    ns !! n = Some st -> maintenance x = true -> call_ok st x -> run st x = Ok st' ->
    system_step (System cs ns) (System cs (<[n := st']> ns)).

Inductive system_run : system -> Prop :=
| system_init cs ns :
    Forall (fun s => exists c0 policy pincushion hosts, out c0 = [] /\
      s = TX (Client_InitWith c0 (Some policy) (Some pincushion) (Z.of_nat (length hosts)) hosts) [] []) cs ->
    Forall (fun st => exists maxB uselessB junk, Store_Init maxB uselessB true junk = Ok st) ns ->
    system_run (System cs ns)
| system_next s s' : system_run s -> system_step s s' -> system_run s'.

(** ** The invariant *)

Definition client_good (s : tx_state) : Prop := client_inv V Q log (cl s) (ClientTrace.stk s) (ClientTrace.seen s).

Definition node_good (st : Store_t) : Prop := exists maxB uselessB, history maxB uselessB st.

Definition system_good (s : system) : Prop :=
  Forall client_good (clients s) /\ Forall node_good (nodes s).

(** What a node answers is right about its interval and tags. *)
Lemma reply_promised (st : Store_t) e k :
  right_entry V log true (lastInvalTime st) e -> lastInvalTime st < PIN_INF -> entry_ok e -> vset e = kbytes k ->
  0 <= lastInvalTime st ->
  promised V Q log (SawHit (kbytes k) (data e)) (Server.ReplyInterval st e) (StoreData.invalTags e).
Proof.
  intros (R1 & R2 & R3) Hlt (Hi & _) Hv H0. rewrite Hv in *. unfold Server.ReplyInterval.
  set (i := StoreData.interval e) in *. set (u := if stillValid i && _ then _ else _).
  assert (Hu : upper i <= u /\ (stillValid i = true -> u = Z.max (upper i) (lastInvalTime st)) /\
               (stillValid i = false -> u = upper i)).
  { unfold u. destruct (stillValid i); cbn [andb]; [|done].
    destruct (Z.ltb_spec (upper i) (lastInvalTime st)); lia. }
  destruct Hu as (Hu1 & Hu2 & Hu3). unfold interval_ok, pin_ok, PIN_NEG_INF in Hi.
  split; cbn [lower upper stillValid holds].
  - unfold pin_ok. lia.
  - unfold pin_ok. destruct (stillValid i); [rewrite Hu2 by done|rewrite Hu3 by done]; lia.
  - split; cbn [lower upper stillValid].
    + intros t Ht. apply (right_covers V log true (lastInvalTime st) _ i _ (StoreData.invalTags e)); [done|].
      unfold covers, eff_upper. destruct (stillValid i); [rewrite Hu2 in Ht by done|rewrite Hu3 in Ht by done]; lia.
    + intros S t Ht Hq. rewrite Hu2 in * by done. apply R2; [done|lia|]. intros ts msg Hin Hts.
      apply (Hq ts msg Hin). unfold since in Hts. fold i in Hts. lia.
  - intros E. apply R3; [done|]. fold i. destruct (stillValid i); [rewrite Hu2 in E by done|rewrite Hu3 in E by done]; lia.
Qed.

(** A lookup at a good node: the node stays good, and its answer is right. *)
Lemma lookup_good (st st' : Store_t) k iv earliestPin id e :
  node_good st -> interval_ok iv -> key_ok (kbytes k) ->
  Store_Lookup st (kbytes k) iv earliestPin LOOKUP_POLICY_LATEST = Ok (st', id) ->
  le_answer e = Server.lookup_answer st' id -> node_good st' /\ lookup_ok V Q log k e.
Proof.
  intros (maxB & uB & Hh) Hiv Hk HL He.
  destruct (history_ok _ _ _ _ _ st Hh) as (HI & HT & HC).
  assert (Hh' : history maxB uB st').
  { apply (history_event _ _ _ _ _ st (CLookup (kbytes k) iv earliestPin LOOKUP_POLICY_LATEST)); [done| |].
    - split; [|done]. done.
    - cbn. by rewrite HL. }
  split; [by exists maxB, uB|]. destruct (history_ok _ _ _ _ _ st' Hh') as (HI' & _ & HC').
  destruct (Lookup_ok st (kbytes k) iv earliestPin LOOKUP_POLICY_LATEST HI HT Hk Hiv ltac:(done))
    as (s1 & r1 & E & _ & (Hheap & _) & HR).
  rewrite HL in E. injection E as <- <-.
  intros d iv' tags. rewrite He. unfold Server.lookup_answer. destruct id as [id|]; [|done]. cbn.
  destruct (heap st' !! id) as [e'|] eqn:He'; [|done]. cbn. intros [= <- <- <-].
  destruct (proj1 (HR id) eq_refl) as (e0 & (Hid & Hv & _) & _).
  rewrite Hheap, lookup_alter_eq, Hid in He'. injection He' as <-.
  destruct (inv_time st' HI') as ([Ht1 Ht2] & Ht3). unfold PIN_NEG_INF in *.
  apply reply_promised; [|done| |done|lia].
  - apply (HC' id). by rewrite Hheap, lookup_alter_eq, Hid.
  - apply (inv_entry st' HI' id). by rewrite Hheap, lookup_alter_eq, Hid.
Qed.

Lemma event_good (st st' : Store_t) x :
  node_good st -> event_ok V log true st x -> run st x = Ok st' -> node_good st'.
Proof. intros (maxB & uB & Hh) Hx Hr. exists maxB, uB. by eapply history_event. Qed.

(** A put that a good client has sent. *)
Lemma put_good (st st' : Store_t) s n k iv d tags force al time ok :
  client_good s -> EPut n k iv d tags force ∈ out (cl s) -> node_good st ->
  put_args st k iv d tags al -> timely log st iv tags -> in_step log st k iv d ->
  Store_Put st k iv d tags force al time = Ok (st', ok) -> node_good st'.
Proof.
  intros Hs Hin Hn Ha Ht Hst HP. destruct (ci_puts _ _ _ _ _ _ Hs _ _ _ _ _ _ Hin) as (Htr & _ & Hal).
  eapply (event_good st st' (CPut k iv d tags force al time)); [done| |cbn; by rewrite HP].
  split; [done|]. split_and!; [done|done| |done]. by intros _.
Qed.

Lemma step_good s s' : system_step s s' -> system_good s -> system_good s'.
Proof.
  intros H [Hc Hn].
  destruct H as [cs ns i s s' Hi Hl|cs ns i c a fs stk seen k frame e c' r n st iv st' id Hi Hg Hst Hb Hiv Hk HL He Hf Hni HT
    |cs ns i c a fs stk seen k frame e c' r Hi He Hf Hni HT|cs ns i s n k iv d tags force al time st st' ok Hi Hin Hst Ha Ht Hs HP
    |cs ns n st ts msg time st' Hst Hok Hnx HI|cs ns n st x st' Hst Hm Hok Hr]; cbn [clients nodes] in *;
    try (pose proof (Forall_lookup_1 _ _ _ _ Hc Hi) as HI0); try (pose proof (Forall_lookup_1 _ _ _ _ Hn Hst) as HN0);
    split; cbn [clients nodes]; try done; (apply Forall_insert; [done|]).
  - by apply (local_inv V Q log s s' Hl).
  - eapply lookup_inv; [exact HI0| |done|done|exact HT]. by eapply (lookup_good st st' k iv).
  - by eapply (lookup_good st st' k iv).
  - eapply lookup_inv; [exact HI0| |done|done|exact HT]. intros d iv tags. by rewrite He.
  - by eapply put_good.
  - by eapply (event_good st st' (CInvalidate ts msg time)); [|split|].
  - eapply (event_good st st' x); [done|split; [done|]|exact Hr]. by destruct x.
Qed.

Lemma run_good s : system_run s -> system_good s.
Proof.
  induction 1 as [cs ns Hc Hn|s s' _ IH Hs]; [|by eapply step_good].
  split; cbn [clients nodes].
  - eapply Forall_impl; [exact Hc|]. intros s (c0 & p & pc & hosts & Ho & ->). by apply init_inv.
  - eapply Forall_impl; [exact Hn|]. intros st (maxB & uB & junk & E). exists maxB, uB. by eapply history_init.
Qed.

End System.

(** ** Properties *)

(** C1: The system is transactionally consistent.  In the runs of clients, cache
    nodes and the stream of messages described below, everything a read-only
    transaction has seen, of the database and of what any transaction put into the
    cache, holds at every pin that is left in its pin set.  What is assumed of a run
    ([system_step]) is that the database's answers are right; that the data of a call
    is a function of what the call has seen; that a node gets the messages of the
    stream in their order, and puts with arguments of reasonable size ([put_args]);
    that a put that arrives behind the message that invalidates it is found in the
    node's buffer ([timely]); and that a put that is ahead of a node's messages does
    not step over one that closes the version it extends ([in_step]).  The code does
    not enforce the last two: [Store_buffer_misses] and [extended_reply_wrong] show
    what a store does without them.  Nothing else is assumed of the nodes: puts may
    be late, repeated or lost. *)
Theorem System_consistent `{!EvictionPolicy P} `{!EvictionPolicyLaws P} V Q log (s : @system P) i t :
  system_run V Q log s -> clients s !! i = Some t -> bottom (cl t) <> 0 ->
  forall x o, x ∈ pin_list (pinSet (cl t)) -> o ∈ seen t -> holds V Q o (pin x).
Proof.
  intros Hr Hi Hb x o Hx Ho. destruct (run_good V Q log s Hr) as [Hc _].
  pose proof (Forall_lookup_1 _ _ _ _ Hc Hi) as HI.
  apply (pi_pin _ _ _ _ (ci_pins _ _ _ _ _ _ HI Hb) o x Ho Hx).
Qed.

(** ** Witness: one client puts a value, another one finds it *)

Definition ex_node1 : Store_t LRUEviction_State_t :=
  (ok_or (ex_empty, false)
     (Store_Put ex_empty (kbytes ex_call) (Interval 7 10 true) (str "data") ex_dbtags false (ex_al 1000) 7)).1.

Definition ex_node2 : Store_t LRUEviction_State_t :=
  (ok_or (ex_node1, None)
     (Store_Lookup ex_node1 (kbytes ex_call) (Interval 5 10 false) 5 LOOKUP_POLICY_LATEST)).1.

Definition ex_hit : lookup_env := LookupEnv true (Server.lookup_answer ex_node2 (Some 1000)) true.

Definition ex_c5 : Client_t := (get (ex_c1, None) (Client_TryEnterCacheable ex_c1 ex_call 16 ex_hit)).1.

Definition ex_seen : saw := SawHit (kbytes ex_call) (str "data").

Lemma ex_system_local s s' t ns :
  local_step ex_V ex_Q [] s s' -> @system_run LRUEviction_State_t _ ex_V ex_Q [] (System [s; t] ns) ->
  system_run ex_V ex_Q [] (System [s'; t] ns).
Proof. intros Hs Hr. eapply system_next; [exact Hr|]. by apply (sys_local _ _ _ [s; t] ns 0 s s'). Qed.

Lemma ex_system0 : @system_run LRUEviction_State_t _ ex_V ex_Q [] (System [TX ex_c0 [] []; TX ex_c0 [] []] [ex_empty]).
Proof.
  assert (H : exists c0 policy pincushion hosts, out c0 = [] /\
    TX ex_c0 [] [] = TX (Client_InitWith c0 (Some policy) (Some pincushion) (Z.of_nat (length hosts)) hosts) [] []).
  { exists blank, Policy_LargestBoundedPin, (Node (str "pins") (str "1") false), [Node (str "cache") (str "2") false].
    split; reflexivity. }
  apply system_init; [by repeat constructor|]. constructor; [|constructor]. exists 100000, 60, 7. reflexivity.
Qed.

(** The first client's transaction, up to the put. *)
Lemma ex_system1 :
  system_run ex_V ex_Q [] (System [TX ex_c4 [(ROOT, [ex_rows])] [ex_rows]; TX ex_c0 [] []] [ex_empty]).
Proof.
  apply (ex_system_local _ _ _ _ ex_step5), (ex_system_local _ _ _ _ ex_step4), (ex_system_local _ _ _ _ ex_step3).
  eapply system_next; [exact (ex_system_local _ _ _ _ ex_step1 ex_system0)|].
  apply (sys_unanswered _ _ _ [TX ex_c1 [(ROOT, [])] []; TX ex_c0 [] []] [ex_empty] 0 ex_c1 ROOT [] [] [] ex_call 16
    (LookupEnv true None true) ex_miss None); [done|done|done|cbn; set_solver|apply ex_step2].
Qed.

(** The node gets the put, and the second client begins a transaction. *)
Lemma ex_system2 :
  system_run ex_V ex_Q []
    (System [TX ex_c4 [(ROOT, [ex_rows])] [ex_rows]; TX ex_c1 [(ROOT, [])] []] [ex_node1]).
Proof.
  eapply system_next; [eapply system_next; [apply ex_system1|]|].
  - apply (sys_put _ _ _ _ [ex_empty] 0 (TX ex_c4 [(ROOT, [ex_rows])] [ex_rows]) 0 (kbytes ex_call) (Interval 7 10 true)
      (str "data") ex_dbtags false (ex_al 1000) 7 ex_empty ex_node1 true).
    + reflexivity.
    + apply list_elem_of_In. vm_compute. tauto.
    + reflexivity.
    + apply (ex_put_args ex_empty 1000 (Interval 7 10 true) (str "data")); (done || cbn; lia).
    + by left.
    + intros id e He. assert (E : heap ex_empty = ∅) by (vm_compute; reflexivity). by rewrite E, lookup_empty in He.
    + vm_compute. reflexivity.
  - apply (sys_local _ _ _ [TX ex_c4 [(ROOT, [ex_rows])] [ex_rows]; TX ex_c0 [] []] [ex_node1] 1 _ _ eq_refl ex_step1).
Qed.

Lemma ex_system3 :
  system_run ex_V ex_Q []
    (System [TX ex_c4 [(ROOT, [ex_rows])] [ex_rows]; TX ex_c5 [(ROOT, [ex_seen])] [ex_seen]] [ex_node2]).
Proof.
  eapply system_next; [apply ex_system2|].
  apply (sys_lookup _ _ _ [TX ex_c4 [(ROOT, [ex_rows])] [ex_rows]; TX ex_c1 [(ROOT, [])] []] [ex_node1] 1 ex_c1 ROOT [] [] []
    ex_call 16 ex_hit ex_c5 (Some (str "data")) 0 ex_node1 (Interval 5 10 false) ex_node2 (Some 1000)).
  - reflexivity.
  - vm_compute. reflexivity.
  - reflexivity.
  - vm_compute. reflexivity.
  - done.
  - apply ex_key_ok.
  - vm_compute. reflexivity.
  - reflexivity.
  - done.
  - cbn. set_solver.
  - by apply get_pair; vm_compute.
Qed.

Lemma System_consistent_witness :
  pin_list (pinSet ex_c5) = [ex_pin 9] /\ holds ex_V ex_Q ex_seen 9.
Proof.
  split; [by vm_compute|].
  apply (System_consistent _ _ _ _ 1 (TX ex_c5 [(ROOT, [ex_seen])] [ex_seen]) ex_system3 eq_refl
    ltac:(by vm_compute) (ex_pin 9)).
  - vm_compute. left.
  - by left.
Defined.

(** ** Why puts must be in step *)

(** The value is right from pin 5 to pin 30; the message at 12 is for the tag of
    the first put, although the value stays, and the one at 30 for the tag of
    the second. *)
Definition ex_V2 (k d : list Z) (t : Z) : Prop := 5 <= t < 30.
Definition ex_log2 : list (Z * list (list Z)) := [(11, [str "z:"]); (12, [str "t:"]); (30, [str "u:"])].

Definition ex_extended : Store_t LRUEviction_State_t :=
  (ok_or (ex_empty, false)
    ('(s, _) ← Store_Put ex_empty ex_key (Interval 5 10 true) [1] [str "t:"] false (ex_al 1000) 7;
     s ← Store_Invalidate s 11 [str "z:"] 7;
     Store_Put s ex_key (Interval 9 15 true) [1] [str "u:"] false (ex_al 1001) 7)).1.

Definition ex_extended_at : Store_t LRUEviction_State_t :=
  (ok_or (ex_extended, None) (Store_Lookup ex_extended ex_key (Interval 9 10 false) 9 LOOKUP_POLICY_LATEST)).1.

Lemma ex_quiet a t tag :
  (forall ts msg, (ts, msg) ∈ ex_log2 -> a < ts <= t -> hits_tags msg [tag] = false) ->
  (a < 12 <= t -> hits_tags [str "t:"] [tag] = false) /\ (a < 30 <= t -> hits_tags [str "u:"] [tag] = false).
Proof. intros H. split; intros Ht; [apply (H 12)|apply (H 30)]; try done; unfold ex_log2; set_solver. Qed.

(** C37: An entry that a put extends keeps its own tags.  Two puts of the same data
    that are both right, with a message in between, leave an entry whose reply is wrong: it says that the
    value stays as long as there is no message for the tag of the first put, from
    the end of the second one on, which can be after the last such message. *)
Theorem extended_reply_wrong :
  truthful ex_V2 ex_log2 ex_key (Interval 5 10 true) [1] [str "t:"] /\
  truthful ex_V2 ex_log2 ex_key (Interval 9 15 true) [1] [str "u:"] /\
  Server.lookup_answer ex_extended_at (Some 1000) = Some ([1], Interval 5 15 true, [str "t:"]) /\
  ~ valid_over ex_log2 (ex_V2 ex_key [1]) (Interval 5 15 true) [str "t:"].
Proof.
  assert (T : hits_tags [str "t:"] [str "t:"] = true) by (by vm_compute).
  assert (U : hits_tags [str "u:"] [str "u:"] = true) by (by vm_compute).
  split_and!.
  - split; cbn [lower upper stillValid]; unfold ex_V2; [lia|]. intros _ t Ht [H1 _]%ex_quiet.
    destruct (Z.lt_ge_cases t 12); [lia|]. rewrite T in H1. by specialize (H1 ltac:(lia)).
  - split; cbn [lower upper stillValid]; unfold ex_V2; [lia|]. intros _ t Ht [_ H2]%ex_quiet.
    destruct (Z.lt_ge_cases t 30); [lia|]. rewrite U in H2. by specialize (H2 ltac:(lia)).
  - vm_compute. reflexivity.
  - intros [_ H]. specialize (H eq_refl 40 ltac:(cbn; lia)). unfold ex_V2 in H. cbn [lower upper stillValid] in H.
    enough (5 <= 40 < 30) by lia. apply H. intros ts msg Hin Hts.
    apply list_elem_of_In in Hin. destruct Hin as [[= <- <-]|[[= <- <-]|[[= <- <-]|[]]]]; [lia|lia|by vm_compute].
Qed.
