(* ===== verification/ClientKeys.v ===== *)
(** * The keys of the calls in progress

    A frame keeps the key of its call while it is on the stack, whatever the client
    does in between. *)

From S2P Require Import Prelude CLib CText Interval Timeval PinSet Policy Hash OrdTree Client ClientInv ClientSteps.

Definition fkeys (c : Client_t) : gmap Z keyref := fkey <$> frames c.

Lemma fkeys_frame a f f' c : frames c !! a = Some f -> fkey f' = fkey f -> fkeys (set_frame a f' c) = fkeys c.
Proof.
  intros Hf Hk. unfold fkeys. cbn. rewrite fmap_insert, Hk. apply insert_id. by rewrite lookup_fmap, Hf.
Qed.

Lemma getResult_keys c : fkeys (PQgetResult c).1 = fkeys c.
Proof. unfold PQgetResult. by destruct (pending c). Qed.

Lemma ConnectPG_keys c cb : fkeys (Client_ConnectPG c cb).1 = fkeys c.
Proof. unfold Client_ConnectPG. by destruct (pg c), cb. Qed.

Lemma UpdateInterval_keys c c' iv : Client_UpdateInterval c iv = Ok c' -> fkeys c' = fkeys c.
Proof.
  unfold Client_UpdateInterval. destruct (memcachedMode c); [|destruct (bypassMode c)]; intros H; res_inv; [|done|];
    match goal with H : bottom_frame _ = Ok _ |- _ => apply bottom_frame_lookup in H end; by eapply fkeys_frame.
Qed.

Lemma AddInvalTag_keys c c' tag : Client_AddInvalTag c tag = Ok c' -> fkeys c' = fkeys c.
Proof.
  unfold Client_AddInvalTag. intros (f & Hf & H)%bind_Ok. cbv zeta in H.
  destruct (tree_find _ _ _); [by injection H as <-|]. destruct (tree_insert _ _ _); [|done]. injection H as <-.
  apply bottom_frame_lookup in Hf. by eapply fkeys_frame.
Qed.

Lemma UpdateTags_keys tags : forall c c', Client_UpdateInvalTagsFromSet c tags = Ok c' -> fkeys c' = fkeys c.
Proof.
  induction tags as [|tag tags IH]; intros c c'; cbn [Client_UpdateInvalTagsFromSet]; [by intros [= <-]|].
  intros (c1 & H1 & H)%bind_Ok. rewrite (IH _ _ H). by eapply AddInvalTag_keys.
Qed.

Lemma AddTags_keys fuel : forall c status i c' j, AddTags fuel c status i = Ok (c', j) -> fkeys c' = fkeys c.
Proof.
  induction fuel as [|fuel IH]; intros c status i c' j; cbn [AddTags]; [done|].
  destruct (strsep status 32) as [tag rest]. intros (c1 & H1 & H)%bind_Ok. apply AddInvalTag_keys in H1.
  destruct rest; [by rewrite (IH _ _ _ _ _ H)|by injection H as <- _].
Qed.

Lemma ExecValidity_keys c c' status : ExecValidity c status = Ok c' -> fkeys c' = fkeys c.
Proof.
  unfold ExecValidity. destruct (sscanf _ _) as [[|lo [|hi [|n [|]]]] m]; try (by intros [= <-]).
  - by apply UpdateInterval_keys.
  - intros H. res_inv. repeat case_match; res_inv.
    match goal with H : AddTags _ _ _ _ = Ok _ |- _ => apply AddTags_keys in H as <- end. by eapply UpdateInterval_keys.
Qed.

Lemma ExecPin_keys c c' e p : ExecPin c e = Ok (c', p) -> fkeys c' = fkeys c.
Proof.
  unfold ExecPin. pose proof (getResult_keys c) as Hk. destruct (PQgetResult c) as [c1 r].
  cbn [fst] in Hk. rewrite <- Hk. clear Hk. destruct (negb _); [by intros [= <- _]|].
  destruct (sscanf _ _) as [[|pin [|s [|u [|]]]] m]; try (by intros [= <- _]).
  intros (ps & _ & H)%bind_Ok. cbv zeta in H. apply bind_Ok in H as (c2 & H2 & H).
  apply bind_Ok in H as (node & _ & H). destruct (NodeToHost _ _) as [n1 host].
  assert (Hk : fkeys c' = fkeys c2) by (destruct host; injection H as <- _; done). rewrite Hk. clear - H2.
  match type of H2 with context [memcachedMode ?x] => set (c3 := x) in H2 end.
  assert (E : fkeys c3 = fkeys c1) by (unfold c3; by destruct (_ =? _)). rewrite <- E.
  destruct (memcachedMode c3); [|by injection H2 as <-].
  apply bind_Ok in H2 as (f & Hf%bottom_frame_lookup & H2). injection H2 as <-.
  destruct (_ <? _); [|done]. by eapply fkeys_frame.
Qed.

Lemma ConsumeOne_keys c e1 e2 : fkeys (Client_ExecConsumeOne c e1 e2).1 = fkeys c.
Proof.
  unfold Client_ExecConsumeOne. pose proof (getResult_keys c) as Hk.
  destruct (PQgetResult c) as [c1 r]. cbn [fst] in Hk. by repeat case_if.
Qed.

Lemma ExecReplies_keys c c' e nC nB nP pin r : ExecReplies c e nC nB nP pin = Ok (c', r) -> fkeys c' = fkeys c.
Proof.
  unfold ExecReplies. intros H.
  set (p1 := if nC then _ else _) in H.
  assert (E1 : fkeys p1.1 = fkeys c) by (unfold p1; destruct nC; [apply ConsumeOne_keys|done]).
  destruct p1 as [c1 [r1|]]; cbn [fst] in E1; [by injection H as <- _|]. rewrite <- E1. clear E1.
  set (p2 := if nB then _ else _) in H.
  assert (E2 : fkeys p2.1 = fkeys c1) by (unfold p2; destruct nB; [apply ConsumeOne_keys|done]).
  destruct p2 as [c2 [r2|]]; cbn [fst] in E2; [by injection H as <- _|]. rewrite <- E2. clear E2. cbv zeta in H.
  apply bind_Ok in H as ([c3 p] & H3 & H).
  assert (E3 : fkeys c3 = fkeys c2).
  { destruct nP; [rewrite (ExecPin_keys _ _ _ _ H3)|injection H3 as <- _]; by destruct nB. }
  rewrite <- E3. destruct p as [p|]; [|by injection H as <- _]. apply bind_Ok in H as ([] & _ & H).
  apply bind_Ok in H as ([c4 r4] & H4 & H). unfold Client_ExecFinish in H4.
  apply bind_Ok in H4 as ([rest last] & _ & H4). injection H4 as <- <-.
  destruct (_ && _); [apply bind_Ok in H as (c5 & H5%ExecValidity_keys & H)|]; injection H as <- _;
    [rewrite H5|]; by destruct nB.
Qed.

Lemma Exec_keys c c' e sql r : Client_Exec c e sql = Ok (c', r) -> fkeys c' = fkeys c.
Proof.
  unfold Client_Exec. pose proof (ConnectPG_keys c (xe_connectPG e)) as Hk.
  destruct (Client_ConnectPG c (xe_connectPG e)) as [c1 ok]. cbn [fst] in Hk. rewrite <- Hk. clear Hk.
  destruct (negb ok); [done|]. destruct (bottom c1 =? 0); [by intros [= <- _]|].
  intros H. apply bind_Ok in H as (policy & _ & H). apply bind_Ok in H as (pin & _ & H).
  apply bind_Ok in H as ([] & _ & H). apply bind_Ok in H as ([[[nC nB] nP] newSql] & _ & H).
  destruct (negb (xe_send e)); [by injection H as <- _|]. by rewrite (ExecReplies_keys _ _ _ _ _ _ _ _ H).
Qed.

(** A lookup that misses adds the frame with its key. *)
Lemma TryEnter_keys c c' k a e r :
  Client_TryEnterCacheable c k a e = Ok (c', r) ->
  fkeys c' = match r with Some _ => fkeys c | None => <[a := k]> (fkeys c) end.
Proof.
  unfold Client_TryEnterCacheable. destruct (bottom c =? 0); [done|]. intros ([c1 d] & H1 & H)%bind_Ok.
  assert (E : fkeys c1 = fkeys c).
  { unfold TryLookup in H1. destruct (negb _); [|by injection H1 as <- _].
    apply bind_Ok in H1 as (n & _ & H1). apply bind_Ok in H1 as (node & _ & H1).
    destruct (NodeToHost _ _) as [n1 host]. destruct (negb host); [by injection H1 as <- _|].
    apply bind_Ok in H1 as (iv & _ & H1). destruct (le_answer e) as [[[data i] tags]|]; [|by injection H1 as <- _].
    apply bind_Ok in H1 as (c2 & H2%UpdateTags_keys & H1). apply bind_Ok in H1 as (c3 & H3%UpdateInterval_keys & H1).
    injection H1 as <- _. by rewrite H3, H2. }
  destruct d; injection H as <- <-; [done|]. unfold fkeys in *. cbn. by rewrite fmap_insert, E.
Qed.

Lemma Pop_keys c c' a f : Client_Pop c a = Ok (c', f) -> fkeys c' = fkeys c /\ frames c !! a = Some f.
Proof.
  unfold Client_Pop. destruct (bottom c =? 0); [done|]. destruct (negb (bottom c =? a)); [done|].
  intros (f1 & Hf%deref_Ok & H)%bind_Ok. destruct (parent f1 =? 0); [done|]. by injection H as <- <-.
Qed.

Lemma Exit_keys c c' a d e : Client_ExitCacheable c a d e = Ok c' -> fkeys c' = fkeys c.
Proof.
  unfold Client_ExitCacheable. intros H. apply bind_Ok in H as ([c1 f] & [E1 Hf]%Pop_keys & H).
  apply bind_Ok in H as (c2 & E2%UpdateInterval_keys & H). apply bind_Ok in H as (c3 & E3%UpdateTags_keys & H).
  apply bind_Ok in H as ([item tags] & _ & H). apply bind_Ok in H as (c4 & H4 & H). injection H as <-.
  assert (E4 : fkeys c4 = fkeys c3).
  { destruct (negb (bypassMode c3)); [|by injection H4 as <-]. apply bind_Ok in H4 as (n & _ & H4).
    apply bind_Ok in H4 as (node & _ & H4). destruct (NodeToHost _ _) as [n1 host].
    destruct (negb host); by injection H4 as <-. }
  assert (E : fkeys c4 = fkeys c) by congruence.
  assert (Ha : fkeys c !! a = Some (fkey f)) by (unfold fkeys; by rewrite lookup_fmap, Hf).
  unfold fkeys in *. cbn. rewrite fmap_insert, E. by apply insert_id.
Qed.

Lemma Abort_keys c c' a : Client_ExitCacheableAbort c a = Ok c' -> fkeys c' = fkeys c.
Proof.
  unfold Client_ExitCacheableAbort. intros ([c1 f] & [E _]%Pop_keys & H)%bind_Ok. by injection H as <-.
Qed.

Lemma AddTag_keys c c' tag : Client_AddExplicitInvalTag c tag = Ok c' -> fkeys c' = fkeys c.
Proof. unfold Client_AddExplicitInvalTag. case_if; [by intros [= <-]|apply AddInvalTag_keys]. Qed.

Lemma SetWilling_keys c c' a b : SetWilling c a b = Ok c' -> fkeys c' = fkeys c.
Proof. unfold SetWilling. intros (f & Hf%deref_Ok & H)%bind_Ok. injection H as <-. by eapply fkeys_frame. Qed.
