(* ===== verification/PhpMarshal.v ===== *)
(** * Marshalling PHP values (src/phpclient/marshal.c)

    The PHP extension stores arguments and results of cacheable functions as bytes.
    Values and arrays belong to the Zend engine, which is not part of the sources:
    an array is the sequence of its elements in the order of iteration; the type codes
    and the functions that build arrays are the class [Zend], and what the code relies
    on are its laws. *)

From S2P Require Import Prelude CLib IOBuf.

(** ** Values *)

(** A key is a string, with its final NUL as the engine counts it, or an index. *)
Inductive zkey : Type :=
| KString (k : list Z)
| KIndex (i : Z).

(** A [double] is its 64 bits; objects, resources and values of other types are
    opaque. *)
Inductive zval : Type :=
| ZNull
| ZBool (v : Z)
| ZLong (v : Z)
| ZDouble (bits : Z)
| ZString (s : list Z)
| ZArray (arr : list (zkey * zval))
| ZObject (o : Z)
| ZResource (r : Z)
| ZOther (type : Z).

#[global] Instance zkey_eq_dec : EqDecision zkey.
Proof. solve_decision. Defined.

Class Zend : Type := {
  IS_NULL : Z; IS_LONG : Z; IS_DOUBLE : Z; IS_BOOL : Z; IS_ARRAY : Z; IS_OBJECT : Z; IS_STRING : Z; IS_RESOURCE : Z;
  array_init : option (list (zkey * zval));
  add_index_zval : list (zkey * zval) -> Z -> zval -> option (list (zkey * zval));
  add_assoc_zval_ex : list (zkey * zval) -> list Z -> zval -> option (list (zkey * zval));
  (** The keys [add_assoc_zval_ex] takes as strings; it reads others as numbers. *)
  symbolic : list Z -> Prop
}.

Definition zend_codes `{Zend} : list Z :=
  [IS_NULL; IS_LONG; IS_DOUBLE; IS_BOOL; IS_ARRAY; IS_OBJECT; IS_STRING; IS_RESOURCE].

Class ZendLaws `{Zend} : Prop := {
  zl_codes : NoDup zend_codes;
  zl_range : Forall (fun t => - 2 ^ 31 <= t < 2 ^ 31) zend_codes;
  zl_init : array_init = Some [];
  zl_index : forall arr i v, KIndex i ∉ arr.*1 -> add_index_zval arr i v = Some (arr ++ [(KIndex i, v)]);
  zl_assoc : forall arr k v, symbolic k -> KString k ∉ arr.*1 -> add_assoc_zval_ex arr k v = Some (arr ++ [(KString k, v)])
}.

(** ** Operations *)

Section Operations.

Context `{Zend} (realloc : Z -> Z -> Z).

(** [Z_TYPE_P] *)
Definition Z_TYPE (v : zval) : Z :=
  match v with
  | ZNull => IS_NULL
  | ZBool _ => IS_BOOL
  | ZLong _ => IS_LONG
  | ZDouble _ => IS_DOUBLE
  | ZString _ => IS_STRING
  | ZArray _ => IS_ARRAY
  | ZObject _ => IS_OBJECT
  | ZResource _ => IS_RESOURCE
  | ZOther t => t
  end.

Definition PutKey (b : IOBuf_t) (k : zkey) : res IOBuf_t :=
  match k with
  | KString k => b ← IOBuf_PutInt32 realloc b (s32 (Z.of_nat (length k))); IOBuf_PutBytes realloc b k
  | KIndex i => b ← IOBuf_PutInt32 realloc b (s32 (2 ^ 32 - 1)); IOBuf_PutInt64 realloc b (s64 i)
  end.

(** [put] is [Marshal_PutZVal]. *)
Definition MarshalPutArray (put : IOBuf_t -> zval -> res (IOBuf_t * bool)) (b : IOBuf_t) (arr : list (zkey * zval)) :
    res (IOBuf_t * bool) :=
  b ← IOBuf_PutInt32 realloc b (s32 (Z.of_nat (length arr)));
  (fix elements b arr :=
     match arr with
     | [] => Ok (b, true)
     | (k, v) :: arr =>
       b ← PutKey b k;
       '(b, ok) ← put b v;
       if (ok : bool) then elements b arr else Ok (b, false)
     end) b arr.

(** Returns whether the value could be marshalled. *)
Fixpoint Marshal_PutZVal (b : IOBuf_t) (v : zval) : res (IOBuf_t * bool) :=
  b ← IOBuf_PutInt32 realloc b (Z_TYPE v);
  match v with
  | ZNull => Ok (b, true)
  | ZBool x => b ← IOBuf_PutInt8 realloc b (s8 x); Ok (b, true)
  | ZLong x => b ← IOBuf_PutInt64 realloc b x; Ok (b, true)
  | ZDouble x => b ← IOBuf_PutDouble realloc b x; Ok (b, true)
  | ZString s => b ← IOBuf_PutBuf realloc b s; Ok (b, true)
  | ZResource _ => Ok (b, false)
  | ZArray arr => MarshalPutArray Marshal_PutZVal b arr
  | ZObject _ => Ok (b, false)
  | ZOther _ => Ok (b, false)
  end.

(** The loop over the elements.  On every failure [valOut] is destroyed, whose one
    reference is the caller's, and the caller writes to it again: memory that has been
    freed. *)
Fixpoint ArrayLoop (get : IOBuf_t -> res (IOBuf_t * option zval)) (fuel : nat) (i count : Z) (b : IOBuf_t)
    (arr : list (zkey * zval)) : res (IOBuf_t * list (zkey * zval)) :=
  match fuel with
  | O => Fault NoFuel
  | S fuel =>
    if i <? count then
      '(b, keyLen) ← IOBuf_TryGetInt32 b;
      keyLen ← deref keyLen;
      if u32 keyLen =? 2 ^ 32 - 1 then
        '(b, index) ← IOBuf_TryGetInt64 b;
        index ← deref index;
        '(b, value) ← get b;
        value ← deref value;
        arr ← deref (add_index_zval arr (u64 index) value);
        ArrayLoop get fuel (i + 1) count b arr
      else
        '(b, p) ← IOBuf_TryGetBytes b (u64 keyLen);
        p ← deref p;
        key ← read_mem b p (u32 keyLen);
        '(b, value) ← get b;
        value ← deref value;
        arr ← deref (add_assoc_zval_ex arr key value);
        ArrayLoop get fuel (i + 1) count b arr
    else Ok (b, arr)
  end.

Definition MarshalGetArray (get : IOBuf_t -> res (IOBuf_t * option zval)) (b : IOBuf_t) : res (IOBuf_t * option zval) :=
  match array_init with
  | None => Ok (b, None)
  | Some arr =>
    '(b, count) ← IOBuf_TryGetInt32 b;
    count ← deref count;
    '(b, arr) ← ArrayLoop get (S (length (unread b))) 0 count b arr;
    Ok (b, Some (ZArray arr))
  end.

(** [None]: the value could not be read. *)
Fixpoint Marshal_GetZVal (fuel : nat) (b : IOBuf_t) : res (IOBuf_t * option zval) :=
  match fuel with
  | O => Fault NoFuel
  | S fuel =>
    '(b, type) ← IOBuf_TryGetInt32 b;
    match type with
    | None => Ok (b, None)
    | Some type =>
      if type =? IS_NULL then Ok (b, Some ZNull)
      else if type =? IS_BOOL then '(b, v) ← IOBuf_TryGetInt8 b; Ok (b, option_map ZBool v)
      else if type =? IS_LONG then '(b, v) ← IOBuf_TryGetInt64 b; Ok (b, option_map ZLong v)
      else if type =? IS_DOUBLE then '(b, v) ← IOBuf_TryGetDouble b; Ok (b, option_map ZDouble v)
      else if type =? IS_STRING then
        '(b, v) ← IOBuf_TryGetBuf b;
        match v with
        | None => Ok (b, None)
        | Some (p, len) => Ok (b, Some (ZString (mem_from b p len)))
        end
      else if type =? IS_ARRAY then MarshalGetArray (Marshal_GetZVal fuel) b
      else Ok (b, None)
    end
  end.

End Operations.

(** The whole of what is unread is enough fuel: every level takes four bytes. *)
Definition GetZVal `{Zend} (b : IOBuf_t) : res (IOBuf_t * option zval) :=
  Marshal_GetZVal (S (length (unread b))) b.

(** [addr] is what [malloc] returned; FALSE when a step fails. *)
Definition txcache_test_marshal `{Zend} (realloc : Z -> Z -> Z) (addr : Z) (val : zval) : res zval :=
  let '(b, ok) := IOBuf_Init addr in
  if negb ok then Fault PanicCall
  else
    '(b, ok) ← Marshal_PutZVal realloc b val;
    if negb (ok : bool) then Ok (ZBool 0)
    else
      '(_, v) ← GetZVal b;
      match v with Some v => Ok v | None => Ok (ZBool 0) end.

(** ** Meaning *)

(** Induction on values, with the hypothesis for every element of an array. *)
Section Induction.

Variable P : zval -> Prop.
Hypothesis Pleaf : forall v, (forall arr, v <> ZArray arr) -> P v.
Hypothesis Parray : forall arr, Forall (fun kv => P kv.2) arr -> P (ZArray arr).

Fixpoint zval_nested (v : zval) : P v :=
  match v with
  | ZArray arr => Parray arr
      ((fix all (arr : list (zkey * zval)) : Forall (fun kv => P kv.2) arr :=
          match arr with
          | [] => Forall_nil_2 _
          | kv :: arr => Forall_cons_2 _ kv arr (zval_nested kv.2) (all arr)
          end) arr)
  | v => Pleaf v ltac:(discriminate)
  end.

End Induction.

Section Encoding.

Context `{Zend}.

Definition kenc (k : zkey) : list Z :=
  match k with
  | KString k => le_bytes 4 (Z.of_nat (length k)) ++ k
  | KIndex i => le_bytes 4 (-1) ++ le_bytes 8 i
  end.

(** The bytes of a value. *)
Fixpoint zenc (v : zval) : list Z :=
  le_bytes 4 (Z_TYPE v) ++
  match v with
  | ZBool x => le_bytes 1 x
  | ZLong x => le_bytes 8 x
  | ZDouble x => le_bytes 8 x
  | ZString s => le_bytes 4 (Z.of_nat (length s)) ++ s
  | ZArray arr => le_bytes 4 (Z.of_nat (length arr)) ++ concat (map (fun kv => kenc kv.1 ++ zenc kv.2) arr)
  | _ => []
  end.

Definition aenc (arr : list (zkey * zval)) : list Z := concat (map (fun kv => kenc kv.1 ++ zenc kv.2) arr).

(** Nothing in the value is an object, a resource or of an unknown type. *)
Fixpoint plain (v : zval) : bool :=
  match v with
  | ZArray arr => forallb (fun kv => plain kv.2) arr
  | ZObject _ | ZResource _ | ZOther _ => false
  | _ => true
  end.

Definition key_ok (k : zkey) : Prop :=
  match k with
  | KString k => Z.of_nat (length k) < 2 ^ 31 /\ symbolic k
  | KIndex i => 0 <= i < 2 ^ 64
  end.

(** Values as the engine has them: numbers of their width, distinct keys, and other
    types that are none of those above. *)
Fixpoint zval_ok (v : zval) : Prop :=
  match v with
  | ZBool x => - 2 ^ 7 <= x < 2 ^ 7
  | ZLong x => - 2 ^ 63 <= x < 2 ^ 63
  | ZDouble x => 0 <= x < 2 ^ 64
  | ZString s => Z.of_nat (length s) < 2 ^ 31
  | ZArray arr => Z.of_nat (length arr) < 2 ^ 31 /\ NoDup (map fst arr) /\ Forall (fun kv => key_ok kv.1) arr /\
      (fix all (arr : list (zkey * zval)) : Prop :=
         match arr with [] => True | kv :: arr => zval_ok kv.2 /\ all arr end) arr
  | ZOther t => t ∉ zend_codes
  | _ => True
  end.

Definition storable (v : zval) : Prop := zval_ok v /\ plain v = true.

Lemma zval_ok_array arr :
  zval_ok (ZArray arr) <-> Z.of_nat (length arr) < 2 ^ 31 /\ NoDup (map fst arr) /\
    Forall (fun kv => key_ok kv.1) arr /\ Forall (fun kv => zval_ok kv.2) arr.
Proof.
  cbn [zval_ok]. assert (E : forall arr, (fix all (arr : list (zkey * zval)) : Prop :=
    match arr with [] => True | kv :: arr => zval_ok kv.2 /\ all arr end) arr <-> Forall (fun kv => zval_ok kv.2) arr).
  { clear arr. induction arr as [|kv arr IH]; [split; [constructor|done]|]. rewrite Forall_cons, IH. done. }
  by rewrite E.
Qed.

Lemma zenc_len v : (4 <= length (zenc v))%nat.
Proof. destruct v; cbn [zenc]; rewrite length_app, length_le_bytes; lia. Qed.

Lemma kenc_len k : (4 <= length (kenc k))%nat.
Proof. destruct k; cbn [kenc]; rewrite length_app, length_le_bytes; lia. Qed.

Lemma aenc_cons k v arr : aenc ((k, v) :: arr) = kenc k ++ zenc v ++ aenc arr.
Proof. unfold aenc. cbn [map concat fst snd]. by rewrite <- app_assoc. Qed.

Lemma zenc_array arr :
  zenc (ZArray arr) = le_bytes 4 IS_ARRAY ++ le_bytes 4 (Z.of_nat (length arr)) ++ aenc arr.
Proof. done. Qed.

Lemma aenc_len arr : (length arr <= length (aenc arr))%nat.
Proof.
  induction arr as [|[k v] arr IH]; [done|]. rewrite aenc_cons, !length_app. cbn [length].
  pose proof (zenc_len v). lia.
Qed.

Lemma aenc_elem arr kv : kv ∈ arr -> (length (zenc kv.2) <= length (aenc arr))%nat.
Proof.
  induction arr as [|[k v] arr IH]; [by intros ?%elem_of_nil|].
  rewrite aenc_cons, !length_app. intros [->|Hin%IH]%elem_of_cons; cbn [snd] in *; lia.
Qed.

End Encoding.

#[global] Arguments zenc : simpl never.
#[local] Arguments le_bytes : simpl never.

(** ** Writing *)

Section Writing.

Context `{Zend} (realloc : Z -> Z -> Z).

Hypothesis realloc_fits : forall p n, 0 < n <= 2 ^ 33 -> 0 < realloc p n /\ realloc p n + n < 2 ^ 63.

Notation put := (Marshal_PutZVal realloc).

(** What marshalling does: all of the encoding when it succeeds, a part of it
    otherwise. *)
Definition put_done (b : IOBuf_t) (bytes : list Z) (ok : bool) (r : res (IOBuf_t * bool)) : Prop :=
  exists b' written, r = Ok (b', ok) /\ extends b written b' /\ written `prefix_of` bytes /\
    (ok = true -> written = bytes).

Lemma put_done_all b bytes b' : extends b bytes b' -> put_done b bytes true (Ok (b', true)).
Proof. intros HE. by exists b', bytes. Qed.

Lemma put_done_app b x b' y ok r :
  extends b x b' -> put_done b' y ok r -> put_done b (x ++ y) ok r.
Proof.
  intros HE (b2 & w & -> & HE2 & Hp & Hall). exists b2, (x ++ w). split_and!; [done|by eapply extends_app| |].
  - by apply prefix_app.
  - intros ->. by rewrite Hall.
Qed.

Lemma PutKey_ok b k :
  io_wr b -> key_ok k -> io_len b + Z.of_nat (length (kenc k)) < 2 ^ 32 ->
  exists b', PutKey realloc b k = Ok b' /\ extends b (kenc k) b'.
Proof using realloc_fits.
  intros Hb Hk Hl. destruct k as [k|i]; cbn [PutKey kenc key_ok] in *; rewrite length_app, length_le_bytes in Hl.
  - rewrite s32_small by lia.
    destruct (PutInt32_ok realloc realloc_fits b (Z.of_nat (length k)) Hb ltac:(lia)) as (b1 & -> & E1).
    rewrite bind_ret_l. pose proof (extends_len _ _ _ E1) as L1. rewrite length_le_bytes in L1.
    destruct (PutBytes_ok realloc realloc_fits b1 k (proj1 E1) ltac:(lia)) as (b2 & -> & E2).
    exists b2. split; [done|]. by eapply extends_app.
  - rewrite length_le_bytes in Hl. change (s32 (2 ^ 32 - 1)) with (-1).
    destruct (PutInt32_ok realloc realloc_fits b (-1) Hb ltac:(lia)) as (b1 & -> & E1).
    rewrite bind_ret_l. pose proof (extends_len _ _ _ E1) as L1. rewrite length_le_bytes in L1.
    destruct (PutInt64_ok realloc realloc_fits b1 (s64 i) (proj1 E1) ltac:(lia)) as (b2 & -> & E2).
    exists b2. split; [done|]. rewrite (le_bytes_s64 i) in E2. by eapply extends_app.
Qed.

(** The loop of [MarshalPutArray], for elements [put] is right about. *)
Lemma elements_ok arr b :
  Forall (fun kv => forall b, zval_ok kv.2 -> io_wr b -> io_len b + Z.of_nat (length (zenc kv.2)) < 2 ^ 32 ->
            put_done b (zenc kv.2) (plain kv.2) (put b kv.2)) arr ->
  Forall (fun kv => key_ok kv.1) arr -> Forall (fun kv => zval_ok kv.2) arr ->
  io_wr b -> io_len b + Z.of_nat (length (aenc arr)) < 2 ^ 32 ->
  put_done b (aenc arr) (forallb (fun kv => plain kv.2) arr)
    ((fix elements b arr :=
        match arr with
        | [] => Ok (b, true)
        | (k, v) :: arr =>
          b ← PutKey realloc b k;
          '(b, ok) ← put b v;
          if (ok : bool) then elements b arr else Ok (b, false)
        end) b arr).
Proof using realloc_fits.
  intros IH Hk Hv. revert b. induction arr as [|[k v] arr IHl]; intros b Hb Hl.
  { apply put_done_all. by apply extends_nil. }
  apply Forall_cons in IH as [IHv IH]. apply Forall_cons in Hk as [Hk Hks]. apply Forall_cons in Hv as [Hv Hvs].
  rewrite aenc_cons, !length_app in Hl. rewrite aenc_cons. cbn [forallb fst snd] in *.
  destruct (PutKey_ok b k Hb Hk ltac:(lia)) as (b1 & -> & E1). rewrite bind_ret_l.
  pose proof (extends_len _ _ _ E1) as L1. eapply put_done_app; [exact E1|].
  destruct (IHv b1 Hv (proj1 E1) ltac:(lia)) as (b2 & w & -> & E2 & Hp & Hall). rewrite bind_ret_l.
  destruct (plain v); cbn [andb].
  - rewrite Hall in E2 by done. pose proof (extends_len _ _ _ E2) as L2.
    eapply put_done_app; [exact E2|]. apply IHl; [done..|apply E2|lia].
  - exists b2, w. split_and!; [done|done| |done]. by apply prefix_app_r.
Qed.

Lemma PutZVal_ok v b :
  zval_ok v -> io_wr b -> io_len b + Z.of_nat (length (zenc v)) < 2 ^ 32 ->
  put_done b (zenc v) (plain v) (put b v).
Proof using realloc_fits.
  revert b. induction v as [v Hleaf|arr IH] using zval_nested; intros b Hv Hb Hl.
  - pose proof (zenc_len v).
    destruct (PutInt32_ok realloc realloc_fits b (Z_TYPE v) Hb ltac:(lia)) as (b1 & E & E1).
    pose proof (extends_len _ _ _ E1) as L1. rewrite length_le_bytes in L1.
    assert (Hdone : forall body ok r, zenc v = le_bytes 4 (Z_TYPE v) ++ body -> plain v = ok ->
      put b v = (b ← IOBuf_PutInt32 realloc b (Z_TYPE v); r b) -> put_done b1 body ok (r b1) ->
      put_done b (zenc v) (plain v) (put b v)).
    { intros body ok r -> -> -> Hd. rewrite E, bind_ret_l. by eapply put_done_app. }
    destruct v as [|x|x|x|s|arr|o|r|t]; cbn [zval_ok] in Hv; [..|by destruct (Hleaf arr)| | |];
      (eapply Hdone; [reflexivity..|]); try (rewrite <- (app_nil_r (zenc _)) in Hl);
      unfold zenc in Hl; rewrite !length_app, ?length_le_bytes in Hl.
    + apply put_done_all, extends_nil, E1.
    + destruct (PutInt8_ok realloc realloc_fits b1 (s8 x) (proj1 E1) ltac:(lia)) as (b2 & -> & E2).
      rewrite bind_ret_l. rewrite s8_small in E2 by done. by apply put_done_all.
    + destruct (PutInt64_ok realloc realloc_fits b1 x (proj1 E1) ltac:(lia)) as (b2 & -> & E2).
      rewrite bind_ret_l. by apply put_done_all.
    + destruct (PutInt64_ok realloc realloc_fits b1 x (proj1 E1) ltac:(lia)) as (b2 & E2' & E2).
      change (IOBuf_PutDouble realloc b1 x) with (IOBuf_PutInt64 realloc b1 x).
      rewrite E2', bind_ret_l. by apply put_done_all.
    + destruct (PutBuf_ok realloc realloc_fits b1 s (proj1 E1) ltac:(lia) ltac:(lia)) as (b2 & -> & E2).
      rewrite bind_ret_l. by apply put_done_all.
    + exists b1, []. split_and!; [done|apply extends_nil, E1|done|done].
    + exists b1, []. split_and!; [done|apply extends_nil, E1|done|done].
    + exists b1, []. split_and!; [done|apply extends_nil, E1|done|done].
  - apply zval_ok_array in Hv as (Hn & _ & Hk & Hv). rewrite zenc_array in *.
    rewrite !length_app, !length_le_bytes in Hl. cbn [Marshal_PutZVal plain Z_TYPE].
    destruct (PutInt32_ok realloc realloc_fits b IS_ARRAY Hb ltac:(lia)) as (b1 & -> & E1).
    rewrite bind_ret_l. pose proof (extends_len _ _ _ E1) as L1. rewrite length_le_bytes in L1.
    eapply put_done_app; [exact E1|]. unfold MarshalPutArray. rewrite s32_small by lia.
    destruct (PutInt32_ok realloc realloc_fits b1 (Z.of_nat (length arr)) (proj1 E1) ltac:(lia)) as (b2 & -> & E2).
    rewrite bind_ret_l. pose proof (extends_len _ _ _ E2) as L2. rewrite length_le_bytes in L2.
    eapply put_done_app; [exact E2|]. apply elements_ok; [done..|apply E2|lia].
Qed.

End Writing.

(** ** Reading *)

Section Reading.

Context `{ZendLaws}.

Lemma code_small t : t ∈ zend_codes -> s32 t = t.
Proof. intros Ht. apply s32_small. by apply (proj1 (Forall_forall _ _) zl_range). Qed.

Lemma plain_code v : plain v = true -> Z_TYPE v ∈ zend_codes.
Proof. unfold zend_codes. destruct v; cbn [plain Z_TYPE]; intros; try done; set_solver. Qed.

Lemma TryGetDouble_ok b x rest :
  io_ok b -> 0 <= x < 2 ^ 64 -> unread b = le_bytes 8 x ++ rest ->
  IOBuf_TryGetDouble b = Ok (advance 8 b, Some x).
Proof.
  intros Hb Hx Hu. pose proof (TRY_GET_ok u64 8 b x rest Hb Hu) as E.
  unfold IOBuf_TryGetDouble. change (Z.of_nat 8) with 8 in E. rewrite E.
  change (256 ^ 8) with (2 ^ 64). by rewrite Z.mod_small, u64_small.
Qed.

(** [get] reads [v] at the read position of any buffer. *)
Definition gets (get : IOBuf_t -> res (IOBuf_t * option zval)) (v : zval) : Prop :=
  forall b rest, io_ok b -> unread b = zenc v ++ rest ->
    get b = Ok (advance (Z.of_nat (length (zenc v))) b, Some v).

Lemma ArrayLoop_ok get arr : forall fuel i count b done_ rest,
  io_ok b -> unread b = aenc arr ++ rest -> Forall (fun kv => gets get kv.2) arr ->
  Forall (fun kv => key_ok kv.1) arr -> NoDup (map fst (done_ ++ arr)) ->
  count = i + Z.of_nat (length arr) -> (length arr < fuel)%nat ->
  ArrayLoop get fuel i count b done_ = Ok (advance (Z.of_nat (length (aenc arr))) b, done_ ++ arr).
Proof.
  induction arr as [|[k v] arr IH]; intros fuel i count b done_ rest Hb Hu Hg Hk Hnd -> Hf;
    (destruct fuel as [|fuel]; [cbn in Hf; lia|]); cbn [ArrayLoop length] in *.
  { rewrite (proj2 (Z.ltb_ge _ _)) by lia. by rewrite advance_0, app_nil_r. }
  rewrite (proj2 (Z.ltb_lt _ _)) by lia. apply Forall_cons in Hg as [Hg Hgs]. apply Forall_cons in Hk as [Hk Hks].
  cbn [fst snd] in *. rewrite aenc_cons, <- !app_assoc in Hu. rewrite aenc_cons.
  destruct (unread_next b _ _ Hb Hu) as [Hb1 Hu1]. destruct (unread_next _ _ _ Hb1 Hu1) as [Hb2 Hu2].
  specialize (Hg _ _ Hb1 Hu1).
  assert (Hfresh : k ∉ map fst done_).
  { rewrite map_app in Hnd. apply NoDup_app in Hnd as (_ & Hnd & _). intros Hin. apply (Hnd k Hin). cbn. by left. }
  assert (Hrec : ArrayLoop get fuel (i + 1) (i + Z.of_nat (S (length arr)))
      (advance (Z.of_nat (length (zenc v))) (advance (Z.of_nat (length (kenc k))) b)) (done_ ++ [(k, v)]) =
    Ok (advance (Z.of_nat (length (kenc k ++ zenc v ++ aenc arr))) b, done_ ++ (k, v) :: arr)).
  { rewrite (IH fuel (i + 1) _ _ _ rest Hb2 Hu2); [|done|done| |lia|lia].
    - rewrite !advance_advance, <- (app_assoc done_), !length_app. do 3 f_equal. lia.
    - by rewrite <- app_assoc. }
  destruct k as [k|x]; cbn [kenc key_ok] in *; rewrite <- app_assoc in Hu.
  - destruct Hk as [Hk Hsym]. rewrite (TryGetInt32_ok b _ _ Hb Hu), bind_ret_l. cbn [deref]. rewrite bind_ret_l.
    rewrite s32_small by lia. rewrite u32_small by lia. rewrite (proj2 (Z.eqb_neq _ _)) by lia.
    destruct (unread_next b _ _ Hb Hu) as [Hb4 Hu4]. rewrite length_le_bytes in Hb4, Hu4.
    rewrite u64_small by lia. rewrite TryGetBytes_ok; [|done|].
    2:{ change 4 with (Z.of_nat 4). rewrite Hu4, length_app. lia. }
    rewrite bind_ret_l. cbn [deref]. rewrite bind_ret_l. rewrite length_app, length_le_bytes in Hg, Hrec.
    replace (io_pos (advance 4 b)) with (io_pos (advance 4 b) + 0) by lia.
    rewrite (read_mem_unread (advance 4 b) 0 k [] _ _ Hb4 Hu4 eq_refl), bind_ret_l.
    rewrite advance_advance. replace (4 + Z.of_nat (length k)) with (Z.of_nat (4 + length k)) by lia.
    rewrite Hg, bind_ret_l. cbn [deref]. rewrite bind_ret_l, zl_assoc by done. cbn [deref]. rewrite bind_ret_l.
    exact Hrec.
  - rewrite (TryGetInt32_ok b _ _ Hb Hu), bind_ret_l. cbn [deref]. rewrite bind_ret_l.
    change (u32 (s32 (-1)) =? 2 ^ 32 - 1) with true. cbn match.
    destruct (unread_next b _ _ Hb Hu) as [Hb4 Hu4]. rewrite length_le_bytes in Hb4, Hu4.
    change (Z.of_nat 4) with 4 in *. rewrite (TryGetInt64_ok _ _ _ Hb4 Hu4), bind_ret_l. cbn [deref]. rewrite bind_ret_l, advance_advance.
    change (4 + 8) with (Z.of_nat (length (le_bytes 4 (-1) ++ le_bytes 8 x))).
    rewrite Hg, bind_ret_l. cbn [deref]. rewrite bind_ret_l, u64_s64, u64_small by lia.
    rewrite zl_index by done. cbn [deref]. rewrite bind_ret_l. exact Hrec.
Qed.

(** The tests of type codes. *)
Lemma codes_distinct :
  (IS_BOOL =? IS_NULL) = false /\
  (IS_LONG =? IS_NULL) = false /\ (IS_LONG =? IS_BOOL) = false /\
  (IS_DOUBLE =? IS_NULL) = false /\ (IS_DOUBLE =? IS_BOOL) = false /\ (IS_DOUBLE =? IS_LONG) = false /\
  (IS_STRING =? IS_NULL) = false /\ (IS_STRING =? IS_BOOL) = false /\
  (IS_STRING =? IS_LONG) = false /\ (IS_STRING =? IS_DOUBLE) = false /\
  (IS_ARRAY =? IS_NULL) = false /\ (IS_ARRAY =? IS_BOOL) = false /\
  (IS_ARRAY =? IS_LONG) = false /\ (IS_ARRAY =? IS_DOUBLE) = false /\ (IS_ARRAY =? IS_STRING) = false.
Proof.
  pose proof zl_codes as HN. unfold zend_codes in HN. rewrite !NoDup_cons, !not_elem_of_cons in HN.
  destruct_and!. split_and!; apply Z.eqb_neq; congruence.
Qed.

Ltac codes :=
  destruct codes_distinct as (E0 & E1 & E2 & E3 & E4 & E5 & E6 & E7 & E8 & E9 & E10 & E11 & E12 & E13 & E14);
  rewrite ?Z.eqb_refl, ?E0, ?E1, ?E2, ?E3, ?E4, ?E5, ?E6, ?E7, ?E8, ?E9, ?E10, ?E11, ?E12, ?E13, ?E14; clear E0 E1 E2 E3 E4 E5 E6 E7 E8 E9 E10 E11 E12 E13 E14.

Lemma GetZVal_ok v : forall fuel b rest,
  storable v -> io_ok b -> unread b = zenc v ++ rest -> (length (zenc v) < fuel)%nat ->
  Marshal_GetZVal fuel b = Ok (advance (Z.of_nat (length (zenc v))) b, Some v).
Proof.
  induction v as [v Hleaf|arr IH] using zval_nested; intros fuel b rest [Hv Hp] Hb Hu Hf;
    (destruct fuel as [|fuel]; [lia|]); cbn [Marshal_GetZVal].
  - pose proof (code_small _ (plain_code v Hp)) as Hcode.
    destruct v as [|x|x|x|s|arr|o|r|t]; try done; [..|by destruct (Hleaf arr)];
      unfold zenc in Hu; rewrite <- app_assoc in Hu; cbn [zval_ok Z_TYPE] in *;
      rewrite (TryGetInt32_ok b _ _ Hb Hu), bind_ret_l, Hcode;
      destruct (unread_next b _ _ Hb Hu) as [Hb4 Hu4]; rewrite length_le_bytes in Hb4, Hu4;
      change (Z.of_nat 4) with 4 in *; codes.
    + done.
    + rewrite (TryGetInt8_ok _ _ _ Hb4 Hu4), bind_ret_l, advance_advance, s8_small by done. done.
    + rewrite (TryGetInt64_ok _ _ _ Hb4 Hu4), bind_ret_l, advance_advance, s64_small by done. done.
    + rewrite (TryGetDouble_ok _ _ _ Hb4 Hv Hu4), bind_ret_l, advance_advance. done.
    + rewrite <- app_assoc in Hu4. rewrite (TryGetBuf_ok _ _ _ Hb4 Hv Hu4), bind_ret_l.
      pose proof (mem_from_unread _ _ _ _ (4 + Z.of_nat (length s)) Hb4 Hu4) as Hm.
      rewrite length_le_bytes in Hm. change (Z.of_nat 4) with 4 in Hm. rewrite Hm, advance_advance.
      unfold zenc. rewrite !length_app, !length_le_bytes. do 3 f_equal. lia.
  - pose proof (code_small _ (plain_code _ Hp)) as Hcode. apply zval_ok_array in Hv as (Hn & Hnd & Hk & Hv).
    rewrite zenc_array in *. rewrite <- !app_assoc in Hu. cbn [plain Z_TYPE] in *.
    rewrite (TryGetInt32_ok b _ _ Hb Hu), bind_ret_l, Hcode.
    destruct (unread_next b _ _ Hb Hu) as [Hb4 Hu4]. rewrite length_le_bytes in Hb4, Hu4.
    change (Z.of_nat 4) with 4 in *. codes. unfold MarshalGetArray. rewrite zl_init.
    rewrite (TryGetInt32_ok _ _ _ Hb4 Hu4), bind_ret_l. cbn [deref]. rewrite bind_ret_l, s32_small by lia.
    destruct (unread_next _ _ _ Hb4 Hu4) as [Hb8 Hu8]. rewrite length_le_bytes in Hb8, Hu8.
    change (Z.of_nat 4) with 4 in *. rewrite !length_app, !length_le_bytes in Hf.
    rewrite (ArrayLoop_ok _ arr _ _ _ _ [] rest Hb8 Hu8); [| |exact Hk|exact Hnd|lia|].
    + rewrite bind_ret_l, !advance_advance, !length_app, !length_le_bytes. do 3 f_equal. lia.
    + apply Forall_forall. intros kv Hin b' rest' Hb' Hu'.
      apply (proj1 (Forall_forall _ _) IH kv Hin _ _ rest'); [|exact Hb'|exact Hu'|].
      * split; [exact (proj1 (Forall_forall _ _) Hv kv Hin)|].
        apply (proj1 (forallb_forall _ _) Hp kv). by apply list_elem_of_In.
      * assert (length (zenc kv.2) <= length (aenc arr))%nat; [|lia]. by apply aenc_elem.
    + rewrite Hu8, length_app. pose proof (aenc_len arr). lia.
Qed.

Lemma GetZVal_next v b rest :
  storable v -> io_ok b -> unread b = zenc v ++ rest ->
  GetZVal b = Ok (advance (Z.of_nat (length (zenc v))) b, Some v).
Proof.
  intros Hv Hb Hu. unfold GetZVal. apply (GetZVal_ok v _ b rest Hv Hb Hu).
  rewrite Hu, length_app. lia.
Qed.

(** A view of bytes that lie in the user half of the address space. *)
Lemma InitView_ok addr bytes :
  0 < addr -> addr + Z.of_nat (length bytes) < 2 ^ 63 -> Z.of_nat (length bytes) < 2 ^ 32 ->
  exists b, IOBuf_InitView addr (Z.of_nat (length bytes)) bytes = (b, true) /\ io_ok b /\ unread b = bytes.
Proof.
  intros Ha0 Ha1 Ha2. eexists. split; [done|]. rewrite u64_small by lia. split.
  - unfold io_ok, io_len. cbn. split_and!; try done; lia.
  - unfold unread. cbn. by rewrite Z.sub_diag, drop_0.
Qed.

Lemma Init_fresh addr :
  0 < addr -> addr + DEFAULT_SIZE < 2 ^ 63 ->
  exists b, IOBuf_Init addr = (b, true) /\ io_wr b /\ io_len b = 0 /\ unread b = [] /\ io_pos b = io_buf b.
Proof.
  intros Ha0 Ha1. destruct (Init_empty addr Ha0 Ha1) as (Hw & Hm & Hp & _). exists (IOBuf_Init addr).1.
  split_and!; [|done| | |done].
  - unfold IOBuf_Init. by rewrite (proj2 (Z.eqb_neq addr 0)) by lia.
  - unfold io_len. by rewrite Hm.
  - unfold unread. by rewrite Hm, drop_nil.
Qed.

(** No encoding is the beginning of another one. *)
Lemma zenc_unique v v' r r' :
  storable v -> storable v' -> Z.of_nat (length (zenc v ++ r)) < 2 ^ 32 -> zenc v ++ r = zenc v' ++ r' ->
  v = v' /\ r = r'.
Proof.
  intros Hv Hv' Hl E.
  destruct (InitView_ok 1 (zenc v ++ r)) as (b & _ & Hb & Hu); [lia..|].
  pose proof (GetZVal_next v b r Hv Hb Hu) as G. rewrite E in Hu.
  rewrite (GetZVal_next v' b r' Hv' Hb Hu) in G. injection G as _ ->. split; [done|]. by apply app_inv_head in E.
Qed.

Lemma zencs_unique vs vs' :
  Forall storable vs -> Forall storable vs' -> Z.of_nat (length (concat (map zenc vs))) < 2 ^ 32 ->
  concat (map zenc vs) = concat (map zenc vs') -> vs = vs'.
Proof.
  intros Hvs. revert vs'. induction Hvs as [|v vs Hv Hvs IH]; intros [|v' vs'] Hvs' Hl E; cbn [map concat] in *; [done|..].
  - apply (f_equal length) in E. rewrite length_app in E. pose proof (zenc_len v'). cbn in E. lia.
  - apply (f_equal length) in E. rewrite length_app in E. pose proof (zenc_len v). cbn in E. lia.
  - apply Forall_cons in Hvs' as [Hv' Hvs']. destruct (zenc_unique v v' _ _ Hv Hv' Hl E) as [-> E'].
    f_equal. apply IH; [done| |done]. rewrite length_app in Hl. lia.
Qed.

End Reading.

(** ** Properties *)

(** C27: marshalling round trip.  A PHP value that is marshalled and unmarshalled comes
    back as it was, with the order of its arrays and their nesting, when nothing in it
    is an object, a resource or of an unknown type; otherwise marshalling fails, and
    nothing faults. *)
Theorem Marshal_roundtrip `{ZendLaws} (realloc : Z -> Z -> Z) addr v :
  (forall p n, 0 < n <= 2 ^ 33 -> 0 < realloc p n /\ realloc p n + n < 2 ^ 63) ->
  0 < addr -> addr + DEFAULT_SIZE < 2 ^ 63 -> zval_ok v -> Z.of_nat (length (zenc v)) < 2 ^ 32 ->
  txcache_test_marshal realloc addr v = Ok (if plain v then v else ZBool 0).
Proof.
  intros Hre Ha0 Ha1 Hv Hl. unfold txcache_test_marshal.
  destruct (Init_fresh addr Ha0 Ha1) as (b0 & -> & Hw & Hz & Hu & _). cbn [negb].
  destruct (PutZVal_ok realloc Hre v b0 Hv Hw ltac:(lia)) as (b & w & -> & HE & _ & Hall). rewrite bind_ret_l.
  destruct (plain v) eqn:Hp; [|done]. rewrite Hall in HE by done. cbn [negb].
  rewrite (GetZVal_next v b [] (conj Hv Hp)); [by rewrite bind_ret_l|apply HE|].
  rewrite (extends_unread _ _ _ (proj1 Hw) HE), Hu. by rewrite app_nil_r.
Qed.

(** The engine of PHP 5: its type codes, and arrays without the special treatment of
    strings that are numbers. *)
#[global] Instance ex_zend : Zend := {|
  IS_NULL := 0; IS_LONG := 1; IS_DOUBLE := 2; IS_BOOL := 3; IS_ARRAY := 4; IS_OBJECT := 5; IS_STRING := 6;
  IS_RESOURCE := 7;
  array_init := Some [];
  add_index_zval arr i v := Some (filter (fun kv => kv.1 <> KIndex i) arr ++ [(KIndex i, v)]);
  add_assoc_zval_ex arr k v := Some (filter (fun kv => kv.1 <> KString k) arr ++ [(KString k, v)]);
  symbolic k := True
|}.

Lemma filter_absent (arr : list (zkey * zval)) k : k ∉ map fst arr -> filter (fun kv => kv.1 <> k) arr = arr.
Proof.
  intros Hk. apply filter_id. intros kv Hin <-. apply Hk. apply list_elem_of_In, in_map.
  by apply list_elem_of_In.
Qed.

#[global] Instance ex_zend_laws : ZendLaws.
Proof.
  split.
  - apply (bool_decide_unpack _). by vm_compute.
  - apply (bool_decide_unpack _). by vm_compute.
  - reflexivity.
  - intros arr i v Hk. cbn. by rewrite filter_absent.
  - intros arr k v _ Hk. cbn. by rewrite filter_absent.
Qed.

(** [array("id" => 7, 3 => array(true, 2.5), "s" => "ab")] *)
Definition ex_zval : zval :=
  ZArray [(KString (str "id" ++ [0]), ZLong 7);
          (KIndex 3, ZArray [(KIndex 0, ZBool 1); (KIndex 1, ZDouble (2 ^ 62 + 2 ^ 50))]);
          (KString (str "s" ++ [0]), ZString (str "ab"))].

Ltac zval_ok_tac :=
  repeat match goal with
  | |- zval_ok (ZArray _) =>
    apply zval_ok_array; split_and!; [by vm_compute|apply (bool_decide_unpack _); by vm_compute| |]
  | |- Forall _ (_ :: _) => apply Forall_cons_2
  | |- Forall _ [] => apply Forall_nil_2
  | |- zval_ok (snd (_, ?v)) => change (zval_ok v)
  | |- key_ok (fst (KString ?k, _)) => split; [by vm_compute|exact I]
  | |- key_ok (fst (KIndex ?i, _)) => split; by vm_compute
  | |- zval_ok _ => split; by vm_compute
  | |- zval_ok _ => by vm_compute
  end.

Lemma Marshal_roundtrip_witness :
  txcache_test_marshal ex_realloc 4096 ex_zval = Ok ex_zval /\
  txcache_test_marshal ex_realloc 4096 (ZArray [(KIndex 0, ZResource 5)]) = Ok (ZBool 0).
Proof.
  assert (H0 : 0 < 4096) by lia. assert (H1 : 4096 + DEFAULT_SIZE < 2 ^ 63) by (unfold DEFAULT_SIZE; lia). split.
  - apply (Marshal_roundtrip ex_realloc 4096 ex_zval ex_realloc_fits H0 H1); [|by vm_compute].
    unfold ex_zval. zval_ok_tac.
  - apply (Marshal_roundtrip ex_realloc 4096 (ZArray [(KIndex 0, ZResource 5)]) ex_realloc_fits H0 H1); [|by vm_compute].
    zval_ok_tac.
Defined.
