(* ===== verification/Php.v ===== *)
(** * The PHP extension (src/phpclient/txcache.c)

    PHP programs reach the cache through functions of this extension.  Of the engine,
    which is not part of the sources, the model has the values, the stack of output
    buffers, whether a value is a callback and a cache resource, and calls of user
    functions, which are an argument of [txcache_wrap].  What the cache, the database,
    memory allocation and the clock answer is an argument of each function; calls of
    the latency library are appended to a log. *)

From S2P Require Import Prelude CLib Interval PinSet Hash IOBuf Latency LatencySpec Client PhpMarshal.

(** ** Data *)

Inductive latency_id : Type := roWrap | rwWrap | roCall | rwCall.

(** [cr_pg] is whether [pg] is set. *)
Record cache_rsrc : Type := CacheRsrc {
  pgconnect : option zval;
  pgsql : option zval;
  cr_pg : bool;
  client : Client_t;
  doItAnywayMode : bool;
  inXaction : bool
}.

Definition set_client (x : Client_t) (c : cache_rsrc) : cache_rsrc :=
  CacheRsrc (pgconnect c) (pgsql c) (cr_pg c) x (doItAnywayMode c) (inXaction c).
Definition set_inXaction (x : bool) (c : cache_rsrc) : cache_rsrc :=
  CacheRsrc (pgconnect c) (pgsql c) (cr_pg c) (client c) (doItAnywayMode c) x.
Definition set_link (x : option zval) (c : cache_rsrc) : cache_rsrc :=
  CacheRsrc (pgconnect c) x (bool_decide (is_Some x)) (client c) (doItAnywayMode c) (inXaction c).
Definition set_pgconnect (x : option zval) (c : cache_rsrc) : cache_rsrc :=
  CacheRsrc x (pgsql c) (cr_pg c) (client c) (doItAnywayMode c) (inXaction c).

(** The resource, the output buffers, the active one first and the page last, and the
    measurements. *)
Record php_state : Type := Php {
  rsrc : cache_rsrc;
  ob : list (list Z);
  lat : list (latency_id * lat_op)
}.

Definition on_rsrc (f : cache_rsrc -> cache_rsrc) (s : php_state) : php_state := Php (f (rsrc s)) (ob s) (lat s).
Definition set_ob (x : list (list Z)) (s : php_state) : php_state := Php (rsrc s) x (lat s).
Definition note (w : latency_id) (op : lat_op) (s : php_state) : php_state :=
  Php (rsrc s) (ob s) (lat s ++ [(w, op)]).
Definition put_client (c : Client_t) (s : php_state) : php_state := on_rsrc (set_client c) s.
Definition the_client (s : php_state) : Client_t := client (rsrc s).

(** How a call of a user function ends. *)
Inductive outcome : Type :=
| Returned (v : zval)
| CallFailed
| BailedOut.

(** ** Output *)

(** [OG(ob_nesting_level)] *)
Definition ob_nesting_level (s : php_state) : nat := length (ob s) - 1.

(** [zend_write] *)
Definition zend_write (bytes : list Z) (s : php_state) : php_state :=
  set_ob (match ob s with [] => [bytes] | top :: rest => (top ++ bytes) :: rest end) s.

Definition php_start_ob_buffer (s : php_state) : php_state := set_ob ([] :: ob s) s.

(** [php_end_ob_buffer(1, 0)]: the active buffer is sent to the one below. *)
Definition php_end_ob_buffer (s : php_state) : php_state :=
  match ob s with
  | top :: below :: rest => set_ob ((below ++ top) :: rest) s
  | _ => s
  end.

Section Extension.

Context `{Zend} (realloc : Z -> Z -> Z).
(** Whether a value is a cache resource, and a PostgreSQL link. *)
Context (resToCache resToPGconn : zval -> bool).
(** Whether a value is a callback, and its name. *)
Context (zend_is_callable : zval -> bool * list Z).

(** ** Wrapped calls *)

(** Addresses of the frames and of allocated memory, the memory behind the key, times,
    and the answers of the cache. *)
Record wrap_env : Type := WrapEnv {
  we_frame : Z;
  we_latencyFrame : Z;
  we_callLatencyFrame : Z;
  we_clock : nat -> timespec;
  we_keyAddr : Z;
  we_after : list Z;
  we_lookup : lookup_env;
  we_data : Z;
  we_startOb : bool;
  we_resultAddr : Z;
  we_put : put_env
}.

Fixpoint PutArgs (key : IOBuf_t) (args : list zval) : res (IOBuf_t * bool) :=
  match args with
  | [] => Ok (key, true)
  | v :: args =>
    '(key, ok) ← Marshal_PutZVal realloc key v;
    if (ok : bool) then PutArgs key args else Ok (key, false)
  end.

(** The forwarded arguments from [first] on. *)
Definition keyed (args : list zval) : list zval :=
  match args with
  | v :: args' => if Z_TYPE v =? IS_RESOURCE then args' else args
  | [] => []
  end.

(** The key; [None] when it could not be made. *)
Definition WrapKey (e : wrap_env) (callback_name : list Z) (args : list zval) : res (option keyref) :=
  let '(key, ok) := IOBuf_Init (we_keyAddr e) in
  if negb ok then Fault PanicCall
  else
    key ← IOBuf_PutString realloc key callback_name;
    '(key, ok) ← PutArgs key (keyed args);
    if negb (ok : bool) then Ok None
    else if negb (IOBuf_Error key =? 0) then Ok None
    else
      '(key, keyLen, keyData) ← IOBuf_PeekRest key;
      match keyData with
      | None => Fault PanicCall
      | Some keyData => Ok (Some (KeyRef keyData (unread key ++ we_after e) (Z.to_nat keyLen)))
      end.

(** A hit: the return value, and the output that is written. *)
Definition WrapHit (e : wrap_env) (data : list Z) : res (zval * list Z) :=
  let '(result, ok) := IOBuf_InitView (we_data e) (Z.of_nat (length data)) data in
  if negb ok then Fault PanicCall
  else
    '(result, v) ← GetZVal result;
    match v with
    | None => Fault PanicCall
    | Some v =>
      '(result, obBuf) ← IOBuf_TryGetBuf result;
      match obBuf with
      | None => Fault PanicCall
      | Some (p, len) => Ok (v, mem_from result p len)
      end
    end.

(** The data that is put into the cache; [None] when it could not be marshalled. *)
Definition WrapResult (e : wrap_env) (return_value : zval) (active_ob_buffer : list Z) : res (option (list Z)) :=
  let '(result, ok) := IOBuf_Init (we_resultAddr e) in
  if negb ok then Fault PanicCall
  else
    '(result, ok) ← Marshal_PutZVal realloc result return_value;
    if negb (ok : bool) then Ok None
    else
      result ← IOBuf_PutBuf realloc result active_ob_buffer;
      if negb (IOBuf_Error result =? 0) then Ok None
      else
        '(result, resultLen, resultData) ← IOBuf_PeekRest result;
        match resultData with
        | None => Fault PanicCall
        | Some p => Ok (Some (mem_from result p resultLen))
        end.

(** The part under [if (framePushed)], and the new [status]. *)
Definition WrapLeave (s : php_state) (e : wrap_env) (status : bool) (return_value : zval) (obNesting : nat) :
    res (php_state * bool) :=
  let status := status && Nat.eqb obNesting (ob_nesting_level s) in
  data ← (if status then WrapResult e return_value (default [] (head (ob s))) else Ok None);
  match (data : option (list Z)) with
  | Some data =>
    c ← Client_ExitCacheable (the_client s) (we_frame e) data (we_put e);
    Ok (put_client c s, true)
  | None =>
    c ← Client_ExitCacheableAbort (the_client s) (we_frame e);
    Ok (put_client c s, false)
  end.

(** From the label [end] on.  The result is the return value, [None] when the bailout
    goes on. *)
Definition WrapEnd (s : php_state) (e : wrap_env) (latency : latency_id) (o : outcome)
    (framePushed bufferPushed : bool) (obNesting : nat) : res (php_state * option zval) :=
  let status := match o with Returned _ => true | _ => false end in
  let return_value := match o with Returned v => v | _ => ZNull end in
  '(s, status) ← (if framePushed then WrapLeave s e status return_value obNesting else Ok (s, status));
  let s := if bufferPushed then php_end_ob_buffer s else s in
  let type := if framePushed then if (status : bool) then 77 else 65 else 33 in
  let s := note latency (LEnd (we_latencyFrame e) type (we_clock e 5)) s in
  Ok (s, match o with BailedOut => None | _ => Some return_value end).

(** The call of the user function, and what follows. *)
Definition WrapCall (call : php_state -> res (php_state * outcome)) (s : php_state) (e : wrap_env)
    (tryCache framePushed : bool) : res (php_state * option zval) :=
  let latency := if tryCache then roWrap else rwWrap in
  let callLatency := if tryCache then roCall else rwCall in
  if tryCache && negb (we_startOb e) then Fault PanicCall
  else
    let s := if tryCache then php_start_ob_buffer s else s in
    let obNesting := if tryCache then ob_nesting_level s else 0%nat in
    let s := note latency (LPause (we_clock e 1)) s in
    let s := note callLatency (LStart (we_callLatencyFrame e) (we_clock e 2)) s in
    '(s, o) ← call s;
    let type := match o with
                | Returned _ => if negb (doItAnywayMode (rsrc s)) then 61 else if framePushed then 77 else 104
                | CallFailed => 33
                | BailedOut => 65
                end in
    let s := note callLatency (LEnd (we_callLatencyFrame e) type (we_clock e 3)) s in
    let s := note latency (LResume (we_clock e 4)) s in
    WrapEnd s e latency o framePushed tryCache obNesting.

(** [call] runs the user function on the forwarded arguments.  [None] as result: the
    engine's bailout goes on in the caller. *)
Definition txcache_wrap (call : php_state -> res (php_state * outcome)) (s : php_state) (e : wrap_env)
    (args : list zval) : res (php_state * option zval) :=
  match args with
  | rc :: explicit :: fn :: fwd =>
    if negb (resToCache rc) then Ok (s, Some ZNull)
    else
      match explicit with
      | ZBool x =>
        let explicitInvalidations := negb (x =? 0) in
        let '(callable, callback_name) := zend_is_callable fn in
        if negb callable then Ok (s, Some ZNull)
        else
          let tryCache := Client_MightCache (the_client s) in
          let latency := if tryCache then roWrap else rwWrap in
          let s := note latency (LStart (we_latencyFrame e) (we_clock e 0)) s in
          if tryCache then
            key ← WrapKey e callback_name fwd;
            match key with
            | None => WrapEnd s e latency CallFailed false false 0
            | Some k =>
              '(c, resultData) ← Client_TryEnterCacheable (the_client s) k (we_frame e) (we_lookup e);
              match resultData with
              | Some data =>
                if negb (doItAnywayMode (rsrc s)) then
                  '(v, obBuf) ← WrapHit e data;
                  let s := zend_write obBuf (put_client c s) in
                  Ok (note latency (LEnd (we_latencyFrame e) 104 (we_clock e 5)) s, Some v)
                else WrapCall call (put_client c s) e true false
              | None =>
                c ← SetWilling c (we_frame e) explicitInvalidations;
                WrapCall call (put_client c s) e true true
              end
            end
          else WrapCall call s e false false
      | _ => Ok (s, Some ZNull)
      end
  | _ => Ok (s, Some ZNull)
  end.

(** ** Queries *)

(** The connection function (whether it could be called, what it returned),
    [PQsetnonblocking], the query, and the state of the connection. *)
Record query_env : Type := QueryEnv {
  qe_called : bool;
  qe_link : zval;
  qe_blocking : bool;
  qe_exec : exec_env;
  qe_connected : bool
}.

(** The answer of [connectcb] to [Client_ConnectPG]. *)
Definition connectcb (c : cache_rsrc) (e : exec_env) : exec_env :=
  ExecEnv (cr_pg c) (xe_choose e) (xe_exec e) (xe_send e) (xe_results e) (xe_bad e) (xe_connect e) (xe_host e).

Definition QueryConnect (s : php_state) (e : query_env) : res (php_state * bool) :=
  let c := rsrc s in
  if cr_pg c then Ok (s, true)
  else
    Assert (bool_decide (pgsql c = None));;
    match pgconnect c with
    | None => Fault NullDeref
    | Some _ =>
      if negb (qe_called e) then Ok (s, false)
      else if negb (resToPGconn (qe_link e)) then Ok (s, false)
      else Ok (on_rsrc (set_link (Some (qe_link e))) s, true)
    end.

(** The result's rows, [None] for FALSE. *)
Definition txcache_query (s : php_state) (e : query_env) (sql : list Z) : res (php_state * option PGresult) :=
  '(s, ok) ← QueryConnect s e;
  if negb (ok : bool) then Ok (s, None)
  else if negb (qe_blocking e) then Ok (s, None)
  else
    let c := set_pending [] (the_client s) in
    '(c, r) ← Client_Exec c (connectcb (rsrc s) (qe_exec e)) sql;
    let s := put_client c s in
    let status := match r with
                  | Some r => r_status r
                  | None => if qe_connected e then PGRES_EMPTY_QUERY else PGRES_COMMAND_OK
                  end in
    match status with
    | PGRES_EMPTY_QUERY | PGRES_BAD_RESPONSE | PGRES_NONFATAL_ERROR | PGRES_FATAL_ERROR => Ok (s, None)
    | _ => Ok (s, r)
    end.

(** ** Transactions *)

Definition txcache_begin_ro (s : php_state) (e : begin_env) (rc : zval) : res (php_state * zval) :=
  if negb (resToCache rc) then Ok (s, ZBool 0)
  else
    '(c, ok) ← Client_BeginRO (the_client s) e;
    let s := put_client c s in
    let s := if (ok : bool) then on_rsrc (set_inXaction true) s else s in
    Ok (s, ZBool (Z.b2z ok)).

(** [pinset_text] is the text of the pin set in the page. *)
Definition txcache_commit (pinset_text : PinSet_t -> list Z) (s : php_state) (e : commit_env) (rc : zval) :
    res (php_state * zval) :=
  if negb (resToCache rc) then Ok (s, ZBool 0)
  else
    let s := zend_write (pinset_text (pinSet (the_client s))) s in
    let s := on_rsrc (set_inXaction false) s in
    '(c, ok) ← Client_Commit (the_client s) e;
    Ok (put_client c s, ZBool (Z.b2z ok)).

Definition txcache_add_explicit_invalidation_tag (s : php_state) (rc : zval) (tag : list Z) :
    res (php_state * zval) :=
  if negb (resToCache rc) then Ok (s, ZNull)
  else
    c ← Client_AddExplicitInvalTag (the_client s) (until_nul tag);
    Ok (put_client c s, ZBool 1).

(** [result] is the database's answer to the INVALIDATE command. *)
Definition txcache_explicitly_invalidate (s : php_state) (rc : zval) (tag : list Z) (result : option PGresult) :
    res (php_state * zval) :=
  if negb (resToCache rc) then Ok (s, ZNull)
  else
    c ← Client_ExplicitlyInvalidate (the_client s) (until_nul tag) (cr_pg (rsrc s)) result;
    Ok (put_client c s, ZBool 1).

(** ** Connections and requests *)

(** The persistent list, by the number in the key, and the counter of the request. *)
Record php_globals : Type := Globals {
  persistent_list : gmap Z cache_rsrc;
  pcounter : Z;
  lastStatsFlush : Z
}.

Definition PHP_RINIT (g : php_globals) : php_globals := Globals (persistent_list g) 0 (lastStatsFlush g).

(** [None] for FAILURE; the arguments are the ids of the resource types of the
    PostgreSQL extension, 0 when it is not loaded. *)
Definition PHP_MINIT (le_pgsql_link le_pgsql_plink le_pgsql_result : Z) (g : php_globals) : option php_globals :=
  if (le_pgsql_link =? 0) || (le_pgsql_plink =? 0) || (le_pgsql_result =? 0) then None
  else Some (Globals (persistent_list g) (pcounter g) 0).

Definition PHP_MSHUTDOWN (g : lat_global) (addr : Z) (opened : bool) : res lat_global :=
  Latency_Flush realloc g addr opened.

(** The destructor of a persistent resource; the object is freed. *)
Definition gc_pcache (c : option cache_rsrc) : res unit :=
  match c with
  | None => Ok tt
  | Some c => Client_Release (client c);; Ok tt
  end.

(** The modes: [None] for an illegal one. *)
Definition BypassModes (bypass : Z) (c : cache_rsrc) : option cache_rsrc :=
  let mode anyway cl := CacheRsrc (pgconnect c) (pgsql c) (cr_pg c) cl anyway (inXaction c) in
  if (bypass =? 0) || (bypass =? 1) then Some (mode false (Client_SetBypass (client c) (negb (bypass =? 0))))
  else if bypass =? 2 then Some (mode true (Client_SetBypass (client c) false))
  else if bypass =? 3 then
    Some (mode false (Client_SetMemcached (Client_SetBypass (client c) false) true))
  else None.

(** [fresh] is a new object with the outcome of [Client_Init] in it.  Returns the
    number of the object the resource stands for, [None] for NULL. *)
Definition txcache_pconnect (g : php_globals) (callback : zval) (bypass : Z) (fresh : Client_t) (init : bool) :
    res (php_globals * option Z) :=
  if negb (zend_is_callable callback).1 then Ok (g, None)
  else
    let key := pcounter g in
    '(c, ok) ← match persistent_list g !! key with
               | Some c => if bool_decide (pgconnect c = None) then Ok (client c, true) else Fault PanicCall
               | None => Ok (fresh, init)
               end;
    if negb (ok : bool) then Ok (g, None)
    else
      match BypassModes bypass (CacheRsrc (Some callback) None false c false false) with
      | None => Fault PanicCall
      | Some c => Ok (Globals (<[key := c]> (persistent_list g)) (key + 1) (lastStatsFlush g), Some key)
      end.

Definition release_pgsql (c : cache_rsrc) (e : commit_env) : res cache_rsrc :=
  c ← (if inXaction c then
         '(cl, _) ← Client_Commit (client c) e;
         Ok (set_inXaction false (set_client cl c))
       else Ok c);
  match pgconnect c with
  | None => Assert (bool_decide (pgsql c = None) && negb (cr_pg c));; Ok c
  | Some _ =>
    let c := set_pgconnect None c in
    if bool_decide (pgsql c = None) && negb (cr_pg c) then Ok c
    else
      Assert (bool_decide (is_Some (pgsql c)) && cr_pg c);;
      '(cl, ok) ← Client_ReleasePG (client c);
      if negb (ok : bool) then Fault PanicCall else Ok (set_link None (set_client cl c))
  end.

(** [zend_hash_apply] goes through the list; [env] are the answers for each object. *)
Fixpoint ReleaseAll (env : Z -> commit_env) (l : list (Z * cache_rsrc)) : res (list (Z * cache_rsrc)) :=
  match l with
  | [] => Ok []
  | (k, c) :: l =>
    c ← release_pgsql c (env k);
    l ← ReleaseAll env l;
    Ok ((k, c) :: l)
  end.

(** [now] is the second [gettimeofday] returned; flushing the statistics prints
    them. *)
Definition PHP_RSHUTDOWN (g : php_globals) (env : Z -> commit_env) (now : option Z) : res php_globals :=
  l ← ReleaseAll env (map_to_list (persistent_list g));
  let last := match now with
              | Some now => if lastStatsFlush g + 30 <? now then now else lastStatsFlush g
              | None => lastStatsFlush g
              end in
  Ok (Globals (list_to_map l) (pcounter g) last).

End Extension.
