(* ===== verification/PhpKeys.v ===== *)
(** * Keys and data of wrapped calls

    What [txcache_wrap] stores under which key: the key is the name of the function
    and its arguments, the data the return value and the output. *)

From S2P Require Import Prelude CLib Hash IOBuf Latency Client PhpMarshal Php.

Section Arguments.

Context {ZE : Zend} {ZL : ZendLaws}.

(** The arguments that count: a database link in front does not. *)
Definition without_link (args : list zval) : list zval :=
  match args with ZResource _ :: args => args | _ => args end.

Lemma keyed_ok args : Forall zval_ok (without_link args) -> keyed args = without_link args.
Proof.
  pose proof zl_codes as HN. unfold zend_codes in HN. rewrite !NoDup_cons, !not_elem_of_cons in HN. destruct_and!.
  destruct args as [|v args]; [done|]. intros Hv. unfold keyed. destruct v; cbn [without_link Z_TYPE] in *;
    try (rewrite (proj2 (Z.eqb_neq _ _)) by congruence; done); [by rewrite Z.eqb_refl|].
  apply Forall_cons in Hv as [Hv _]. cbn [zval_ok] in Hv. rewrite (proj2 (Z.eqb_neq _ _)); [done|].
  intros ->. apply Hv. unfold zend_codes. do 7 right. left.
Qed.

End Arguments.

Section Keys.

Context {ZE : Zend} {ZL : ZendLaws} (realloc : Z -> Z -> Z).

Hypothesis realloc_fits : forall p n, 0 < n <= 2 ^ 33 -> 0 < realloc p n /\ realloc p n + n < 2 ^ 63.

(** Addresses [malloc] returns. *)
Definition alloc_ok (addr : Z) : Prop := 0 < addr /\ addr + DEFAULT_SIZE < 2 ^ 63.

Definition name_ok (name : list Z) : Prop := field_ok (FStr name).

Definition key_bytes (name : list Z) (args : list zval) : list Z := enc (FStr name) ++ concat (map zenc args).

Definition data_bytes (v : zval) (out : list Z) : list Z := zenc v ++ enc (FBuf out).

Lemma PutArgs_ok args : forall b,
  Forall zval_ok args -> io_wr b -> io_len b + Z.of_nat (length (concat (map zenc args))) < 2 ^ 32 ->
  put_done b (concat (map zenc args)) (forallb plain args) (PutArgs realloc b args).
Proof using realloc_fits.
  induction args as [|v args IH]; intros b Hv Hb Hl; cbn [map concat forallb PutArgs] in *.
  { apply put_done_all. by apply extends_nil. }
  apply Forall_cons in Hv as [Hv Hvs]. rewrite length_app in Hl.
  destruct (PutZVal_ok realloc realloc_fits v b Hv Hb ltac:(lia)) as (b1 & w & -> & E & Hp & Hall).
  rewrite bind_ret_l. destruct (plain v); cbn [andb].
  - rewrite Hall in E by done. pose proof (extends_len _ _ _ E) as L.
    eapply put_done_app; [exact E|]. apply IH; [done|apply E|lia].
  - exists b1, w. split_and!; [done|done| |done]. by apply prefix_app_r.
Qed.

(** Peeking at a buffer that has been written from its beginning. *)
Lemma Peek_ok b0 b bytes :
  io_wr b0 -> unread b0 = [] -> io_pos b0 = io_buf b0 -> extends b0 bytes b ->
  IOBuf_Error b = 0 /\ unread b = bytes /\ IOBuf_PeekRest b = Ok (b, Z.of_nat (length bytes), Some (io_pos b)).
Proof using.
  intros Hw Hu Hp HE. pose proof (proj1 (proj1 HE)) as Hb.
  assert (Hub : unread b = bytes) by (rewrite (extends_unread _ _ _ (proj1 Hw) HE), Hu; done).
  split_and!; [apply Hb|done|]. unfold IOBuf_PeekRest.
  rewrite (TryGetBytes_ok b 0 Hb) by lia. rewrite bind_ret_l, advance_0.
  rewrite <- (unread_len b Hb), Hub, u64_small; [done|].
  pose proof (unread_len b Hb) as L. rewrite Hub in L. destruct Hb as (_ & ? & ? & ? & _). lia.
Qed.

Lemma WrapKey_ok e name args :
  alloc_ok (we_keyAddr e) -> name_ok name -> Forall zval_ok (without_link args) ->
  Z.of_nat (length (key_bytes name (without_link args))) < 2 ^ 32 ->
  exists addr, WrapKey realloc e name args =
    Ok (if forallb plain (without_link args)
        then Some (KeyRef addr (key_bytes name (without_link args) ++ we_after e)
                     (length (key_bytes name (without_link args))))
        else None).
Proof using ZL realloc_fits.
  intros [Ha0 Ha1] Hn Hv Hl. unfold WrapKey. rewrite (keyed_ok args Hv). set (vs := without_link args) in *.
  unfold key_bytes in *. destruct (Init_fresh _ Ha0 Ha1) as (b0 & -> & Hw & Hz & Hu & Hp). cbn [negb].
  rewrite length_app in Hl.
  destruct (put_field_ok realloc realloc_fits b0 (FStr name) Hw Hn ltac:(lia)) as (b1 & E & E1).
  cbn [put_field] in E. rewrite E, bind_ret_l. pose proof (extends_len _ _ _ E1) as L1.
  destruct (PutArgs_ok vs b1 Hv (proj1 E1) ltac:(lia)) as (b2 & w & -> & E2 & _ & Hall).
  rewrite bind_ret_l. destruct (forallb plain vs); [|by exists 0]. rewrite Hall in E2 by done. cbn [negb].
  destruct (Peek_ok b0 b2 _ Hw Hu Hp (extends_app _ _ _ _ _ E1 E2)) as (-> & Hun & ->).
  change (0 =? 0) with true. cbn [negb]. rewrite bind_ret_l, Hun, Nat2Z.id. by exists (io_pos b2).
Qed.

Lemma kbytes_key addr bytes after : kbytes (KeyRef addr (bytes ++ after) (length bytes)) = bytes.
Proof using. unfold kbytes. cbn. by rewrite take_app_length. Qed.

Lemma kbytes_Ok k addr bytes after :
  Ok (Some k) = Ok (Some (KeyRef addr (bytes ++ after) (length bytes))) -> kbytes k = bytes.
Proof using. intros E. assert (k = KeyRef addr (bytes ++ after) (length bytes)) as -> by congruence. apply kbytes_key. Qed.

Lemma WrapResult_ok e v out :
  alloc_ok (we_resultAddr e) -> zval_ok v -> Z.of_nat (length out) < 2 ^ 31 ->
  Z.of_nat (length (data_bytes v out)) < 2 ^ 32 ->
  WrapResult realloc e v out = Ok (if plain v then Some (data_bytes v out) else None).
Proof using realloc_fits.
  intros [Ha0 Ha1] Hv Ho Hl. unfold WrapResult, data_bytes in *.
  destruct (Init_fresh _ Ha0 Ha1) as (b0 & -> & Hw & Hz & Hu & Hp). cbn [negb]. rewrite length_app in Hl.
  destruct (PutZVal_ok realloc realloc_fits v b0 Hv Hw ltac:(lia)) as (b1 & w & -> & E1 & _ & Hall). rewrite bind_ret_l.
  destruct (plain v); [|done]. rewrite Hall in E1 by done. cbn [negb]. pose proof (extends_len _ _ _ E1) as L1.
  destruct (put_field_ok realloc realloc_fits b1 (FBuf out) (proj1 E1) Ho ltac:(lia)) as (b2 & E & E2).
  cbn [put_field] in E. rewrite E, bind_ret_l.
  destruct (Peek_ok b0 b2 _ Hw Hu Hp (extends_app _ _ _ _ _ E1 E2)) as (-> & Hb & ->).
  change (0 =? 0) with true. cbn [negb]. rewrite bind_ret_l. do 2 f_equal.
  pose proof (mem_from_unread b2 [] (zenc v ++ enc (FBuf out)) [] 0 (proj1 (proj1 E2))
    ltac:(rewrite Hb; by rewrite app_nil_r)) as Hm.
  rewrite advance_0 in Hm. cbn [length] in Hm. by rewrite Z.add_0_r in Hm.
Qed.

Lemma WrapHit_ok e v out data :
  0 < we_data e -> we_data e + Z.of_nat (length data) < 2 ^ 63 -> Z.of_nat (length data) < 2 ^ 32 ->
  storable v -> Z.of_nat (length out) < 2 ^ 31 -> data = data_bytes v out -> WrapHit e data = Ok (v, out).
Proof using ZL.
  intros Ha0 Ha1 Hl Hv Ho Hd. unfold WrapHit.
  destruct (InitView_ok _ _ Ha0 Ha1 Hl) as (b & -> & Hb & Hu). cbn [negb].
  rewrite Hd in Hu. unfold data_bytes in Hu. rewrite (GetZVal_next v b _ Hv Hb Hu), bind_ret_l.
  destruct (unread_next b _ _ Hb Hu) as [Hb1 Hu1]. cbn [enc] in Hu1. rewrite <- (app_nil_r (_ ++ out)), <- app_assoc in Hu1.
  rewrite (TryGetBuf_ok _ out [] Hb1 Ho Hu1), bind_ret_l. do 2 f_equal.
  pose proof (mem_from_unread _ _ _ _ (4 + Z.of_nat (length out)) Hb1 Hu1) as Hm.
  by rewrite length_le_bytes in Hm.
Qed.

Lemma key_bytes_inj name name' args args' :
  name_ok name -> name_ok name' -> Forall storable args -> Forall storable args' ->
  Z.of_nat (length (key_bytes name args)) < 2 ^ 32 -> key_bytes name args = key_bytes name' args' ->
  name = name' /\ args = args'.
Proof using ZL.
  intros Hn Hn' Ha Ha' Hl E.
  destruct (InitView_ok 1 (key_bytes name args)) as (b & _ & Hb & Hu); [lia..|].
  pose proof (get_field_ok b (FStr name) _ Hb Hn Hu) as G. rewrite E in Hu.
  pose proof (get_field_ok b (FStr name') _ Hb Hn' Hu) as G'. cbn [get_field] in G, G'. rewrite G in G'.
  injection G' as _ ->. split; [done|]. apply app_inv_head in E. unfold key_bytes in Hl. rewrite length_app in Hl.
  apply zencs_unique; [done|done|lia|done].
Qed.

Lemma storable_all (args : list zval) : Forall zval_ok args -> forallb plain args = true -> Forall storable args.
Proof using.
  intros Hv Hp. apply Forall_forall. intros v Hin. split; [exact (proj1 (Forall_forall _ _) Hv v Hin)|].
  apply (proj1 (forallb_forall _ _) Hp). by apply list_elem_of_In.
Qed.

End Keys.

(** ** Properties *)

(** C28: keys tell calls apart.  Two wrapped calls look up and store under the same key
    exactly when they call functions of the same name with the same arguments, where a
    resource in front of the arguments does not count. *)
Theorem cache_key_injective `{ZendLaws} (realloc : Z -> Z -> Z) e e' name name' args args' k k' :
  (forall p n, 0 < n <= 2 ^ 33 -> 0 < realloc p n /\ realloc p n + n < 2 ^ 63) ->
  alloc_ok (we_keyAddr e) -> alloc_ok (we_keyAddr e') -> name_ok name -> name_ok name' ->
  Forall zval_ok (without_link args) -> Forall zval_ok (without_link args') ->
  Z.of_nat (length (key_bytes name (without_link args))) < 2 ^ 32 ->
  Z.of_nat (length (key_bytes name' (without_link args'))) < 2 ^ 32 ->
  WrapKey realloc e name args = Ok (Some k) -> WrapKey realloc e' name' args' = Ok (Some k') ->
  kbytes k = kbytes k' <-> name = name' /\ without_link args = without_link args'.
Proof.
  intros Hre Ha Ha' Hn Hn' Hv Hv' Hl Hl' E E'.
  destruct (WrapKey_ok realloc Hre e name args Ha Hn Hv Hl) as (a & K). rewrite E in K.
  destruct (WrapKey_ok realloc Hre e' name' args' Ha' Hn' Hv' Hl') as (a' & K'). rewrite E' in K'.
  destruct (forallb plain (without_link args)) eqn:P; [|done]. destruct (forallb plain (without_link args')) eqn:P'; [|done].
  rewrite (kbytes_Ok _ _ _ _ K), (kbytes_Ok _ _ _ _ K'). split; [|by intros [-> ->]].
  intros Ek. apply key_bytes_inj; [done|done| | |done|done]; by apply storable_all.
Qed.

Definition ex_name : list Z := str "getItem".
Definition ex_clock (n : nat) : timespec := Timespec 0 (Z.of_nat n).
Definition ex_wenv (keyAddr frame : Z) : wrap_env :=
  WrapEnv frame (frame + 16) (frame + 32) ex_clock keyAddr [0; 0; 0] (LookupEnv true None true) 4096 true 8192 (PutEnv true true).

(** The same call with another link, or without one, has the same key; another
    argument gives another key. *)
Lemma cache_key_injective_witness :
  exists k k' k'', WrapKey ex_realloc (ex_wenv 4096 16) ex_name [ZResource 1; ZLong 7] = Ok (Some k) /\
    WrapKey ex_realloc (ex_wenv 8192 16) ex_name [ZLong 7] = Ok (Some k') /\
    WrapKey ex_realloc (ex_wenv 8192 16) ex_name [ZResource 1; ZLong 8] = Ok (Some k'') /\
    kbytes k = kbytes k' /\ kbytes k <> kbytes k''.
Proof.
  assert (E1 : exists k, WrapKey ex_realloc (ex_wenv 4096 16) ex_name [ZResource 1; ZLong 7] = Ok (Some k))
    by (eexists; by vm_compute).
  assert (E2 : exists k, WrapKey ex_realloc (ex_wenv 8192 16) ex_name [ZLong 7] = Ok (Some k))
    by (eexists; by vm_compute).
  assert (E3 : exists k, WrapKey ex_realloc (ex_wenv 8192 16) ex_name [ZResource 1; ZLong 8] = Ok (Some k))
    by (eexists; by vm_compute).
  destruct E1 as [k E1]. destruct E2 as [k' E2]. destruct E3 as [k'' E3]. exists k, k', k''.
  assert (Hn : name_ok ex_name) by (split; [by vm_compute|apply (bool_decide_unpack _); by vm_compute]).
  assert (Ha : forall a, a = 4096 \/ a = 8192 -> alloc_ok a) by (unfold alloc_ok, DEFAULT_SIZE; lia).
  assert (Hv : forall x, x = 7 \/ x = 8 -> Forall zval_ok [ZLong x]) by (intros; repeat constructor; cbn; lia).
  split_and!; [done..| |].
  - refine (proj2 (cache_key_injective ex_realloc (ex_wenv 4096 16) (ex_wenv 8192 16) ex_name ex_name
      [ZResource 1; ZLong 7] [ZLong 7] k k' ex_realloc_fits _ _ Hn Hn _ _ _ _ E1 E2) (conj eq_refl eq_refl));
      [by apply Ha; left|by apply Ha; right|by apply Hv; left|by apply Hv; left|by vm_compute|by vm_compute].
  - intros E. refine (_ (proj1 (cache_key_injective ex_realloc (ex_wenv 4096 16) (ex_wenv 8192 16) ex_name ex_name
      [ZResource 1; ZLong 7] [ZResource 1; ZLong 8] k k'' ex_realloc_fits _ _ Hn Hn _ _ _ _ E1 E3) E));
      [|by apply Ha; left|by apply Ha; right|by apply Hv; left|by apply Hv; right|by vm_compute|by vm_compute].
    intros [_ E']. discriminate E'.
Defined.
