(* ===== verification/PhpRuns.v ===== *)
(** * Programs that wrap functions

    PHP programs, as far as they use the extension, with two meanings.  [evals] is what
    a program evaluates to at one snapshot of the database when nothing is cached.
    [runs] is what happens with the extension: wrapped calls may be answered from the
    cache, and their results are put there.  The theorem at the end relates the two. *)

From S2P Require Import Prelude CLib Interval Truth PinSet Hash IOBuf Latency LatencySpec Client ClientInv ClientSteps ClientKeys ClientTrace.
From S2P Require Import PhpMarshal Php PhpKeys.

(** What a program reads of a result of a query are its rows; [None] when the query
    has failed. *)
Inductive php : Type :=
| Return (v : zval)
| Bailout
| Echo (bytes : list Z) (k : php)
| Query (sql : list Z) (k : option (list (list Z)) -> php)
| AddTag (tag : list Z) (k : php)
| Wrap (explicit : Z) (fn : zval) (args : list zval) (k : zval -> php).

Definition rows_of (r : option PGresult) : option (list (list Z)) :=
  match r with
  | Some r => if has_rows (Some r) then Some (r_rows r) else None
  | None => None
  end.

Section Programs.

Context {ZE : Zend} {ZL : ZendLaws} (realloc : Z -> Z -> Z).
Context (resToCache resToPGconn : zval -> bool) (zend_is_callable : zval -> bool * list Z).
(** The cache resource, and the bodies of the functions. *)
Context (link : zval) (user : zval -> list zval -> php).
(** [Q sql rows t]: query [sql] returns [rows] at pin [t].
    [log] is the stream of invalidation messages. *)
Context (Q : list Z -> list (list Z) -> Z -> Prop) (log : list (Z * list (list Z))).

(** ** Without the cache *)

(** [evals t p v out]: [p] returns [v] and prints [out] at pin [t]. *)
Inductive evals (t : Z) : php -> zval -> list Z -> Prop :=
| EReturn v : evals t (Return v) v []
| EEcho bytes k v out : evals t k v out -> evals t (Echo bytes k) v (bytes ++ out)
| EQuery sql k rows v out : Q sql rows t -> evals t (k (Some rows)) v out -> evals t (Query sql k) v out
| EAddTag tag k v out : evals t k v out -> evals t (AddTag tag k) v out
| EWrap x fn args k v1 out1 v out :
    evals t (user fn args) v1 out1 -> evals t (k v1) v out -> evals t (Wrap x fn args k) v (out1 ++ out).

(** What is right to find in the cache: under the key of a call, what the call
    returns and prints. *)
Definition cached (key data : list Z) (t : Z) : Prop :=
  exists fn args v out, (zend_is_callable fn).1 = true /\ Forall storable (without_link args) /\ storable v /\
    Z.of_nat (length out) < 2 ^ 31 /\ key = key_bytes (zend_is_callable fn).2 (without_link args) /\
    data = data_bytes v out /\ evals t (user fn args) v out.

(** ** Conventions programs keep *)

(** Wrapped calls are calls of functions, with arguments that can be marshalled; they
    return values that can be marshalled. *)
Fixpoint well (p : php) : Prop :=
  match p with
  | Return v => storable v
  | Bailout => True
  | Echo _ k => well k
  | Query _ k => forall r, well (k r)
  | AddTag _ k => well k
  | Wrap _ fn args k => (zend_is_callable fn).1 = true /\ Forall storable (without_link args) /\ forall v, storable v -> well (k v)
  end.

(** The name and the arguments, without the database link, determine the call. *)
Record conventions : Prop := {
  cv_link : resToCache link = true;
  cv_names fn : (zend_is_callable fn).1 = true -> name_ok (zend_is_callable fn).2;
  cv_well fn args : (zend_is_callable fn).1 = true -> Forall storable (without_link args) -> well (user fn args);
  cv_same fn fn' args args' :
    (zend_is_callable fn).2 = (zend_is_callable fn').2 -> without_link args = without_link args' -> user fn args = user fn' args'
}.

(** ** With the cache *)

(** The answer of a cache node is right about its interval and its tags. *)
Definition answer_ok (e : wrap_env) (key : list Z) : Prop :=
  forall d iv tags, le_answer (we_lookup e) = Some (d, iv, tags) ->
    promised cached Q log (SawHit key d) iv tags /\ interval_ok iv /\
    0 < we_data e /\ we_data e + Z.of_nat (length d) < 2 ^ 63 /\ Z.of_nat (length d) < 2 ^ 32.

(** [live] are the addresses of frames that are in use. *)
Record wrap_ok (live : list Z) (e : wrap_env) (key : list Z) : Prop := {
  wo_frame : we_frame e <> 0 /\ we_frame e ∉ live;
  wo_key : alloc_ok (we_keyAddr e) /\ Z.of_nat (length key) < 2 ^ 32;
  wo_result : alloc_ok (we_resultAddr e);
  wo_answer : answer_ok e key
}.

(** What a call returns and prints stays below a gigabyte. *)
Definition small (s : php_state) (o : outcome) : Prop :=
  (forall top, head (ob s) = Some top -> Z.of_nat (length top) < 2 ^ 30) /\
  (forall v, o = Returned v -> Z.of_nat (length (zenc v)) < 2 ^ 30).

Notation wrap := (txcache_wrap realloc resToCache zend_is_callable).
Notation query := (txcache_query resToPGconn).
Notation key_of fn args := (key_bytes (zend_is_callable fn).2 (without_link args)).

(** Runs in which every query returns rows: one that fails leaves nothing in the
    frames, so that what a program computes from its failure is not accounted for. *)
Inductive runs : list Z -> php_state -> php -> php_state -> outcome -> Prop :=
| RReturn live s v : runs live s (Return v) s (Returned v)
| RBailout live s : runs live s Bailout s BailedOut
| REcho live s bytes k s' o : runs live (zend_write bytes s) k s' o -> runs live s (Echo bytes k) s' o
| RQuery live s e sql k s1 r rows s' o :
    exec_ok cached Q log (the_client s) (qe_exec e) sql -> query s e sql = Ok (s1, r) -> rows_of r = Some rows ->
    runs live s1 (k (Some rows)) s' o -> runs live s (Query sql k) s' o
| RAddTag live s tag k s1 r s' o :
    txcache_add_explicit_invalidation_tag resToCache s link tag = Ok (s1, r) ->
    runs live s1 k s' o -> runs live s (AddTag tag k) s' o
| RWrap live s e call x fn args k s1 v s' o :
    wrap_ok live e (key_of fn args) ->
    (forall s1 s2 o, call s1 = Ok (s2, o) -> runs (we_frame e :: live) s1 (user fn args) s2 o) ->
    (forall s1 s2 o, call s1 = Ok (s2, o) -> small s2 o) ->
    wrap call s e (link :: ZBool x :: fn :: args) = Ok (s1, Some v) ->
    runs live s1 (k v) s' o -> runs live s (Wrap x fn args k) s' o
| RWrapBailout live s e call x fn args k s1 :
    wrap_ok live e (key_of fn args) ->
    (forall s1 s2 o, call s1 = Ok (s2, o) -> runs (we_frame e :: live) s1 (user fn args) s2 o) ->
    (forall s1 s2 o, call s1 = Ok (s2, o) -> small s2 o) ->
    wrap call s e (link :: ZBool x :: fn :: args) = Ok (s1, None) ->
    runs live s (Wrap x fn args k) s1 BailedOut.

(** ** What a run leaves *)

Notation holds := (holds cached Q).
Notation client_inv := (client_inv cached Q log).

(** From [s] to [s'], the call in the frame [a] has seen [fs1] and printed [out]. *)
Record after (live : list Z) (s s' : php_state) (a : Z) (fs : list saw) (stk : list (Z * list saw))
    (seen fs1 seen' : list saw) (top : list Z) (rest : list (list Z)) (out : list Z) : Prop := {
  af_inv : client_inv (the_client s') ((a, fs1 ++ fs) :: stk) seen';
  af_seen x : x ∈ seen -> x ∈ seen';
  af_new x : x ∈ fs1 -> x ∈ seen';
  af_keys x : x ∈ live -> fkeys (the_client s') !! x = fkeys (the_client s) !! x;
  af_ob : ob s' = (top ++ out) :: rest
}.

(** [P] follows from what was seen. *)
Definition shown (fs : list saw) (P : Z -> Prop) : Prop := forall t, (forall x, x ∈ fs -> holds x t) -> P t.

Definition outcome_ok (p : php) (o : outcome) (fs1 : list saw) (out : list Z) : Prop :=
  match o with
  | Returned v => storable v /\ shown fs1 (fun t => evals t p v out)
  | CallFailed => False
  | BailedOut => True
  end.

Definition run_ok (live : list Z) (s : php_state) (p : php) (s' : php_state) (o : outcome) : Prop :=
  forall a fs stk seen top rest,
    client_inv (the_client s) ((a, fs) :: stk) seen -> (forall x, x ∈ a :: stk.*1 -> x ∈ live) -> ob s = top :: rest ->
    exists fs1 seen' out, after live s s' a fs stk seen fs1 seen' top rest out /\ outcome_ok p o fs1 out.

Lemma after_trans live s s1 s2 a fs stk seen fsA seen1 fsB seen2 top rest out1 out2 :
  after live s s1 a fs stk seen fsA seen1 top rest out1 ->
  after live s1 s2 a (fsA ++ fs) stk seen1 fsB seen2 (top ++ out1) rest out2 ->
  after live s s2 a fs stk seen (fsB ++ fsA) seen2 top rest (out1 ++ out2).
Proof using.
  intros [I1 S1 N1 K1 O1] [I2 S2 N2 K2 O2]. split.
  - by rewrite <- app_assoc.
  - auto.
  - intros x [?|?]%elem_of_app; auto.
  - intros x Hx. by rewrite K2, K1.
  - by rewrite app_assoc.
Qed.

Lemma shown_app (fsA fsB : list saw) (P P' R : Z -> Prop) :
  shown fsA P -> shown fsB P' -> (forall t, P t -> P' t -> R t) -> shown (fsB ++ fsA) R.
Proof using.
  intros HP HP' HR t Hh. apply HR; [apply HP|apply HP']; intros x Hx; apply Hh, elem_of_app; auto.
Qed.

Lemma inv_bottom c a fs stk seen : client_inv c ((a, fs) :: stk) seen -> bottom c = a /\ a <> 0.
Proof using. intros HI. destruct (ci_stack _ _ _ _ _ _ HI) as (Hb & Hne & _). done. Qed.

(** *** Queries *)

Lemma QueryConnect_client s e s1 ok :
  QueryConnect resToPGconn s e = Ok (s1, ok) -> the_client s1 = the_client s /\ ob s1 = ob s.
Proof using.
  unfold QueryConnect. destruct (cr_pg (rsrc s)); [by intros [= <- _]|].
  intros ([] & _ & H)%bind_Ok. destruct (pgconnect (rsrc s)); [|done].
  destruct (negb (qe_called e)); [by injection H as <- _|].
  destruct (negb (resToPGconn (qe_link e))); by injection H as <- _.
Qed.

Definition rows_seen (sql : list Z) (r : option PGresult) : list saw :=
  match rows_of r with Some rows => [SawRows sql rows] | None => [] end.

Lemma after_same live s s' a fs stk seen top rest :
  client_inv (the_client s) ((a, fs) :: stk) seen -> ob s = top :: rest ->
  the_client s' = the_client s -> ob s' = ob s -> after live s s' a fs stk seen [] seen top rest [].
Proof using.
  intros HI Ho Ec Eo. split; rewrite ?Ec; [done|done|by intros x ?%elem_of_nil|done|by rewrite Eo, Ho, app_nil_r].
Qed.

Lemma query_ok live s e sql s1 r a fs stk seen top rest :
  client_inv (the_client s) ((a, fs) :: stk) seen -> ob s = top :: rest ->
  exec_ok cached Q log (the_client s) (qe_exec e) sql -> query s e sql = Ok (s1, r) ->
  after live s s1 a fs stk seen (rows_seen sql r) (rows_seen sql r ++ seen) top rest [].
Proof using.
  intros HI Ho He H. unfold txcache_query in H. apply bind_Ok in H as ([s0 ok] & HC & H).
  destruct (QueryConnect_client _ _ _ _ HC) as [Ec Eo].
  destruct (negb ok); [injection H as <- <-; by apply after_same|].
  destruct (negb (qe_blocking e)); [injection H as <- <-; by apply after_same|].
  apply bind_Ok in H as ([c r0] & HX & H). rewrite Ec in HX.
  assert (HI' : client_inv (set_pending [] (the_client s)) ((a, fs) :: stk) seen)
    by (eapply core_inv; [exact HI|apply core_pending]).
  pose proof (Exec_keys _ _ _ _ _ HX) as Hk.
  apply (Exec_ok cached Q log _ _ _ _ _ _ _ _ _ HI') in HX as [HX _]; [|exact He].
  assert (E : s1 = put_client c s0 /\ rows_seen sql r = query_seen sql r0 [] /\
              (forall l, rows_seen sql r ++ l = query_seen sql r0 l)).
  { unfold rows_seen, rows_of, query_seen, has_rows, status_is in *. destruct r0 as [[st cmd rows]|]; cbn in *.
    - destruct st; injection H as <- <-; done.
    - destruct (qe_connected e); injection H as <- <-; done. }
  destruct E as (-> & E & El). split; [by rewrite !El| | | |cbn; by rewrite Eo, Ho, app_nil_r].
  - intros x Hx. apply elem_of_app. by right.
  - intros x Hx. apply elem_of_app. by left.
  - intros x _. cbn. by rewrite Hk.
Qed.

(** *** Wrapped calls *)

Definition wrapped (p : php) (r : option zval) (fs1 : list saw) (out : list Z) : Prop :=
  match r with
  | Some v => storable v /\ shown fs1 (fun t => evals t p v out)
  | None => True
  end.

Lemma end_ob s top below rest :
  ob s = top :: below :: rest -> php_end_ob_buffer s = set_ob ((below ++ top) :: rest) s.
Proof using. unfold php_end_ob_buffer. by intros ->. Qed.

Section Calls.

Variables (live : list Z) (e : wrap_env) (p : php) (call : php_state -> res (php_state * outcome)).

Hypothesis call_ok : forall s1 s2 o, call s1 = Ok (s2, o) -> run_ok (we_frame e :: live) s1 p s2 o.

(** The call inside its own output buffer. *)
Lemma call_buffered s s2 o a fs stk seen top rest :
  client_inv (the_client s) ((a, fs) :: stk) seen -> (forall x, x ∈ a :: stk.*1 -> x ∈ we_frame e :: live) ->
  ob s = [] :: top :: rest -> call s = Ok (s2, o) ->
  exists fs1 seen' out, after (we_frame e :: live) s s2 a fs stk seen fs1 seen' [] (top :: rest) out /\
    ob s2 = out :: top :: rest /\ outcome_ok p o fs1 out.
Proof using call_ok.
  intros HI Hl Ho H. destruct (call_ok _ _ _ H a fs stk seen [] (top :: rest) HI Hl Ho) as (fs1 & seen' & out & HA & Hout).
  exists fs1, seen', out. split_and!; [done|apply HA|done].
Qed.

(** In doing it anyway no frame is pushed. *)
Lemma WrapCall_plain s s1 r a fs stk seen top rest :
  client_inv (the_client s) ((a, fs) :: stk) seen -> (forall x, x ∈ a :: stk.*1 -> x ∈ live) -> ob s = top :: rest ->
  WrapCall realloc call s e true false = Ok (s1, r) ->
  exists fs1 seen' out, after live s s1 a fs stk seen fs1 seen' top rest out /\ wrapped p r fs1 out.
Proof using call_ok.
  intros HI Hl Ho H. unfold WrapCall in H. destruct (we_startOb e); [|done]. cbn [negb andb] in H.
  apply bind_Ok in H as ([s2 o] & HC & H).
  match type of HC with call ?s0 = _ =>
    destruct (call_buffered s0 s2 o a fs stk seen top rest HI) as (fs1 & seen' & out & [I1 S1 N1 K1 _] & Ho2 & Hout)
  end; [intros x Hx; right; by apply Hl|cbn; by rewrite Ho|done|].
  unfold WrapEnd in H. rewrite bind_ret_l in H. cbv zeta in H. injection H as <- <-.
  exists fs1, seen', out. split.
  - rewrite (end_ob _ out top rest) by done. split; [done|done|done| |done]. intros x Hx. apply K1. by right.
  - destruct o; done.
Qed.

Definition ret (o : outcome) : option zval :=
  match o with Returned v => Some v | CallFailed => Some ZNull | BailedOut => None end.

(** Leaving the frame: a returned value is put, and the caller has seen what the call
    has seen; a bailout drops it. *)
Lemma WrapLeave_ok k fn args s s' st o fs1 out a fs stk seen top rest :
  (forall p n, 0 < n <= 2 ^ 33 -> 0 < realloc p n /\ realloc p n + n < 2 ^ 63) ->
  p = user fn args -> (zend_is_callable fn).1 = true -> Forall storable (without_link args) -> kbytes k = key_of fn args ->
  alloc_ok (we_resultAddr e) -> small s o -> fkeys (the_client s) !! we_frame e = Some k ->
  client_inv (the_client s) ((we_frame e, fs1) :: (a, fs) :: stk) seen -> ob s = out :: top :: rest ->
  outcome_ok p o fs1 out ->
  WrapLeave realloc s e (match o with Returned _ => true | _ => false end) (match o with Returned v => v | _ => ZNull end)
    (length (top :: rest)) = Ok (s', st) ->
  exists fs2, client_inv (the_client s') ((a, fs2 ++ fs) :: stk) seen /\ (forall x, x ∈ fs2 -> x ∈ fs1) /\
    fkeys (the_client s') = fkeys (the_client s) /\ ob s' = ob s /\ wrapped p (ret o) fs2 out.
Proof using ZL.
  intros Hre Hp Hfn Hargs Hk Hal [Hob Hv] Hkey HI Ho Hout H. unfold WrapLeave in H.
  destruct o as [v| |]; [|done|].
  - destruct Hout as [Hst Hsh]. specialize (Hv v eq_refl). specialize (Hob out ltac:(by rewrite Ho)).
    assert (En : Nat.eqb (length (top :: rest)) (ob_nesting_level s) = true).
    { apply Nat.eqb_eq. unfold ob_nesting_level. rewrite Ho. cbn. lia. }
    rewrite En, Ho in H. cbn [andb] in H.
    change (default [] (head (out :: top :: rest))) with out in H.
    rewrite (WrapResult_ok realloc Hre e v out Hal (proj1 Hst)), (proj2 Hst), bind_ret_l in H; [|lia|].
    2:{ unfold data_bytes. cbn [enc]. rewrite !length_app, length_le_bytes. lia. }
    apply bind_Ok in H as (c & HX & H). injection H as <- _. exists fs1.
    unfold fkeys in Hkey. rewrite lookup_fmap in Hkey. destruct (frames (the_client s) !! we_frame e) as [f|] eqn:Hf; [|done].
    injection Hkey as Hkey. split_and!; [|done|by eapply Exit_keys|done|done].
    eapply Exit_ok; [exact HI|exact Hf| |exact HX]. intros t Ht. rewrite Hkey, Hk.
    exists fn, args, v, out. split_and!; [done|done|done|lia|done|done|]. rewrite <- Hp. by apply Hsh.
  - cbn [andb] in H. rewrite bind_ret_l in H. apply bind_Ok in H as (c & HX & H). injection H as <- _. exists [].
    split_and!; [by eapply Abort_ok|by intros x ?%elem_of_nil|by eapply Abort_keys|done|done].
Qed.

(** A miss: the call has its own frame, and its result goes to the cache. *)
Lemma WrapCall_frame k fn args s s1 r a fs stk seen top rest :
  (forall p n, 0 < n <= 2 ^ 33 -> 0 < realloc p n /\ realloc p n + n < 2 ^ 63) ->
  p = user fn args -> (zend_is_callable fn).1 = true -> Forall storable (without_link args) -> kbytes k = key_of fn args ->
  alloc_ok (we_resultAddr e) -> (forall s1 s2 o, call s1 = Ok (s2, o) -> small s2 o) ->
  we_frame e ∉ live -> fkeys (the_client s) !! we_frame e = Some k ->
  client_inv (the_client s) ((we_frame e, []) :: (a, fs) :: stk) seen ->
  (forall x, x ∈ a :: stk.*1 -> x ∈ live) -> ob s = top :: rest ->
  WrapCall realloc call s e true true = Ok (s1, r) ->
  exists fs1 seen' out, after live s s1 a fs stk seen fs1 seen' top rest out /\ wrapped p r fs1 out.
Proof using ZL call_ok.
  intros Hre Hp Hfn Hargs Hk Hal Hsm Hfr Hkey HI Hl Ho H. unfold WrapCall in H.
  destruct (we_startOb e); [|done]. cbn [negb andb] in H. apply bind_Ok in H as ([s2 o] & HC & H).
  pose proof (Hsm _ _ _ HC) as [Hob Hv].
  match type of HC with call ?s0 = _ =>
    destruct (call_buffered s0 s2 o (we_frame e) [] ((a, fs) :: stk) seen top rest HI)
      as (fs1 & seen' & out & [I1 S1 N1 K1 _] & Ho2 & Hout)
  end.
  { cbn [fst map fmap list_fmap]. intros x [->|Hx]%elem_of_cons; [left|right; by apply Hl]. }
  { cbn. by rewrite Ho. }
  { done. }
  rewrite app_nil_r in I1. unfold WrapEnd in H. apply bind_Ok in H as ([s3 st] & HL & H).
  cbv zeta in H. injection H as <- <-.
  match type of HL with WrapLeave _ ?s4 _ _ _ _ = _ =>
    destruct (WrapLeave_ok k fn args s4 s3 st o fs1 out a fs stk seen' top rest Hre Hp Hfn Hargs Hk Hal
      (conj Hob Hv)) as (fs2 & I3 & Hs & K3 & O3 & Hw); [|exact I1|exact Ho2|exact Hout| |]
  end.
  { rewrite <- Hkey. apply (K1 (we_frame e)). by left. }
  { assert (En : ob_nesting_level (php_start_ob_buffer s) = length (top :: rest)).
    { unfold ob_nesting_level, php_start_ob_buffer. cbn. rewrite Ho. cbn. lia. }
    rewrite En in HL. exact HL. }
  exists fs2, seen', out. split.
  - rewrite (end_ob _ out top rest) by (cbn; by rewrite O3). split; [exact I3|done|auto| |done].
    intros x Hx. etrans; [exact (f_equal (fun m => m !! x) K3)|]. apply K1. by right.
  - destruct o; exact Hw.
Qed.

End Calls.

Section Main.

Hypothesis realloc_fits : forall p n, 0 < n <= 2 ^ 33 -> 0 < realloc p n /\ realloc p n + n < 2 ^ 63.
Hypothesis conv : conventions.

(** Data that is right for a key is what a call with that key evaluates to. *)
Lemma cached_decode e fn args d v out t :
  (zend_is_callable fn).1 = true -> Forall storable (without_link args) -> Z.of_nat (length (key_of fn args)) < 2 ^ 32 ->
  0 < we_data e -> we_data e + Z.of_nat (length d) < 2 ^ 63 -> Z.of_nat (length d) < 2 ^ 32 ->
  WrapHit e d = Ok (v, out) -> cached (key_of fn args) d t -> storable v /\ evals t (user fn args) v out.
Proof using ZL conv.
  intros Hfn Hargs Hl Ha0 Ha1 Hd HW (fn' & args' & v' & out' & Hfn' & Hargs' & Hv' & Ho' & Ek & Ed & He).
  destruct (key_bytes_inj _ _ _ _ (cv_names conv fn Hfn) (cv_names conv fn' Hfn') Hargs Hargs' Hl Ek) as [En Ea].
  rewrite (WrapHit_ok e v' out' d Ha0 Ha1 Hd Hv' Ho' Ed) in HW. injection HW as <- <-.
  by rewrite (cv_same conv fn fn' args args' En Ea).
Qed.

Lemma zend_write_ob s bytes top rest : ob s = top :: rest -> ob (zend_write bytes s) = (top ++ bytes) :: rest.
Proof using. unfold zend_write. by intros ->. Qed.

Lemma TryEnter_keys_live (live : list Z) c c' k e r x :
  Client_TryEnterCacheable c k (we_frame e) (we_lookup e) = Ok (c', r) -> we_frame e ∉ live -> x ∈ live ->
  fkeys c' !! x = fkeys c !! x.
Proof using.
  intros H Hf Hx. rewrite (TryEnter_keys _ _ _ _ _ _ H). destruct r; [done|].
  apply lookup_insert_ne. intros E. apply Hf. by rewrite E.
Qed.

(** A hit is an answer of a cache node. *)
Lemma TryEnter_answer c k a e c' d :
  Client_TryEnterCacheable c k a e = Ok (c', Some d) -> exists iv tags, le_answer e = Some (d, iv, tags).
Proof using.
  unfold Client_TryEnterCacheable. destruct (bottom c =? 0); [done|]. intros ([c1 r] & H1 & H)%bind_Ok.
  destruct r as [d'|]; [|done]. injection H as _ ->. unfold TryLookup in H1. destruct (negb _); [|done].
  apply bind_Ok in H1 as (n & _ & H1). apply bind_Ok in H1 as (node & _ & H1).
  destruct (NodeToHost _ _) as [n1 host]. destruct (negb host); [done|].
  apply bind_Ok in H1 as (iv & _ & H1). destruct (le_answer e) as [[[data i] tags]|]; [|done].
  apply bind_Ok in H1 as (c2 & _ & H1). apply bind_Ok in H1 as (c3 & _ & H1). injection H1 as _ ->. by exists i, tags.
Qed.

(** Inside a transaction a wrapped call looks for its key. *)
Lemma wrap_enter live s e call x fn args a fs stk seen :
  (zend_is_callable fn).1 = true -> Forall storable (without_link args) -> wrap_ok live e (key_of fn args) ->
  client_inv (the_client s) ((a, fs) :: stk) seen ->
  exists k, kbytes k = key_of fn args /\
    let s0 := note roWrap (LStart (we_latencyFrame e) (we_clock e 0)) s in
    wrap call s e (link :: ZBool x :: fn :: args) =
    ('(c, resultData) ← Client_TryEnterCacheable (the_client s) k (we_frame e) (we_lookup e);
     match resultData with
     | Some data =>
       if negb (doItAnywayMode (rsrc s)) then
         '(v, obBuf) ← WrapHit e data;
         let s := zend_write obBuf (put_client c s0) in
         Ok (note roWrap (LEnd (we_latencyFrame e) 104 (we_clock e 5)) s, Some v)
       else WrapCall realloc call (put_client c s0) e true false
     | None =>
       c ← SetWilling c (we_frame e) (negb (x =? 0));
       WrapCall realloc call (put_client c s0) e true true
     end).
Proof using ZL realloc_fits conv.
  intros Hfn Hargs [_ [Hka Hkl] _ _] HI. unfold txcache_wrap. rewrite (cv_link conv). cbn [negb].
  pose proof (cv_names conv fn) as Hn. destruct (zend_is_callable fn) as [cb name]. cbn [fst snd] in *. subst cb.
  cbn [negb]. cbv zeta. destruct (inv_bottom _ _ _ _ _ HI) as [Hb Hne].
  assert (Hmc : Client_MightCache (the_client s) = true).
  { unfold Client_MightCache. by rewrite Hb, (proj2 (Z.eqb_neq a 0)). }
  rewrite Hmc. destruct (WrapKey_ok realloc realloc_fits e name args Hka (Hn eq_refl)) as (addr & EK); [|done|].
  { eapply Forall_impl; [exact Hargs|]. by intros ? []. }
  assert (Hpl : forallb plain (without_link args) = true).
  { apply forallb_forall. intros v Hv. apply (proj1 (Forall_forall _ _) Hargs v). by apply list_elem_of_In. }
  rewrite Hpl in EK. rewrite EK, bind_ret_l. eexists. split; [apply kbytes_key|]. done.
Qed.

(** A wrapped call returns what the function evaluates to, whether or not it is found
    in the cache. *)
Lemma wrap_sound live s e call x fn args s1 r a fs stk seen top rest :
  (zend_is_callable fn).1 = true -> Forall storable (without_link args) -> wrap_ok live e (key_of fn args) ->
  (forall s1 s2 o, call s1 = Ok (s2, o) -> run_ok (we_frame e :: live) s1 (user fn args) s2 o) ->
  (forall s1 s2 o, call s1 = Ok (s2, o) -> small s2 o) ->
  client_inv (the_client s) ((a, fs) :: stk) seen -> (forall x, x ∈ a :: stk.*1 -> x ∈ live) -> ob s = top :: rest ->
  wrap call s e (link :: ZBool x :: fn :: args) = Ok (s1, r) ->
  exists fs1 seen' out, after live s s1 a fs stk seen fs1 seen' top rest out /\ wrapped (user fn args) r fs1 out.
Proof using ZL realloc_fits conv.
  intros Hfn Hargs Hw Hcall Hsm HI Hl Ho H.
  destruct (wrap_enter live s e call x fn args a fs stk seen Hfn Hargs Hw HI) as (k & Hk & E).
  cbv zeta in E. rewrite E in H. clear E. destruct Hw as [[Hf0 Hfr] [_ Hkl] Hra Hans].
  apply bind_Ok in H as ([c rd] & HT & H).
  assert (Hkeys : forall y, y ∈ live -> fkeys c !! y = fkeys (the_client s) !! y)
    by (intros y Hy; by eapply TryEnter_keys_live).
  pose proof (TryEnter_keys _ _ _ _ _ _ HT) as Hkt.
  assert (Hlk : lookup_ok cached Q log k (we_lookup e)) by (intros d iv tags E; rewrite Hk; apply (Hans d iv tags E)).
  assert (Hfr' : we_frame e ∉ a :: stk.*1) by (intros Hin; by apply Hfr, Hl).
  pose proof (TryEnter_ok cached Q log _ _ _ _ _ _ _ _ _ _ HI Hlk Hf0 Hfr' HT) as HE.
  destruct rd as [d|].
  - destruct (TryEnter_answer _ _ _ _ _ _ HT) as (iv & tags & Ha). rewrite Hk in HE.
    destruct (Hans d iv tags Ha) as (Hpr & Hiv & Hd0 & Hd1 & Hd2). destruct (negb (doItAnywayMode (rsrc s))).
    + apply bind_Ok in H as ([v out] & HW & H). injection H as <- <-.
      assert (HV : forall t, cached (key_of fn args) d t -> storable v /\ evals t (user fn args) v out)
        by (intros t; by eapply cached_decode).
      exists [SawHit (key_of fn args) d], (SawHit (key_of fn args) d :: seen), out. split.
      * split; [done|by right|by intros y ->%list_elem_of_singleton; left|done|].
        by rewrite <- (zend_write_ob s out top rest Ho).
      * split; [|intros t Ht; apply HV, (Ht (SawHit (key_of fn args) d)); by left].
        apply (HV (lower iv)). apply (proj1 (pr_valid _ _ _ _ _ _ Hpr)). unfold interval_ok in Hiv. lia.
    + match type of H with WrapCall _ _ ?s0 _ _ _ = _ =>
        assert (HA0 : after live s s0 a fs stk seen [SawHit (key_of fn args) d] (SawHit (key_of fn args) d :: seen) top rest [])
      end.
      { split; [done|by right|by intros y ->%list_elem_of_singleton; left|done|cbn; by rewrite app_nil_r]. }
      destruct (WrapCall_plain live e (user fn args) call Hcall _ s1 r a (SawHit (key_of fn args) d :: fs) stk
        (SawHit (key_of fn args) d :: seen) (top ++ []) rest (af_inv _ _ _ _ _ _ _ _ _ _ _ _ HA0) Hl
        (af_ob _ _ _ _ _ _ _ _ _ _ _ _ HA0) H) as (fs1 & seen' & out & HA & Hwr).
      exists (fs1 ++ [SawHit (key_of fn args) d]), seen', out. split; [exact (after_trans _ _ _ _ _ _ _ _ _ _ _ _ _ _ _ _ HA0 HA)|].
      destruct r as [v|]; [|done]. destruct Hwr as [Hst Hsh]. split; [done|].
      intros t Ht. apply Hsh. intros y Hy. apply Ht, elem_of_app. by left.
  - destruct HE as [HE _]. apply bind_Ok in H as (c2 & HS & H). pose proof (SetWilling_keys _ _ _ _ HS) as Hks.
    match type of H with WrapCall _ _ ?s0 _ _ _ = _ =>
      destruct (WrapCall_frame live e (user fn args) call Hcall k fn args s0 s1 r a fs stk seen top rest) as
        (fs1 & seen' & out & [I1 S1 N1 K1 O1] & Hwr); try done
    end.
    + cbn. rewrite Hks, Hkt. apply lookup_insert_eq.
    + by eapply SetWilling_ok.
    + exists fs1, seen', out. split; [|done]. split; [done..| |done]. intros y Hy. rewrite K1 by done. cbn.
      rewrite Hks. by apply Hkeys.
Qed.

(** Going on after a step that printed [out1] and saw [fsA]. *)
Lemma run_more live s s1 s' p k o a fs stk seen fsA seen1 top rest out1 :
  after live s s1 a fs stk seen fsA seen1 top rest out1 -> (forall x, x ∈ a :: stk.*1 -> x ∈ live) ->
  run_ok live s1 k s' o ->
  (forall v out, shown fsA (fun t => evals t k v out -> evals t p v (out1 ++ out))) ->
  exists fs1 seen' out, after live s s' a fs stk seen fs1 seen' top rest out /\ outcome_ok p o fs1 out.
Proof using.
  intros HA Hl Hr Hs.
  destruct (Hr a (fsA ++ fs) stk seen1 (top ++ out1) rest (af_inv _ _ _ _ _ _ _ _ _ _ _ _ HA) Hl
    (af_ob _ _ _ _ _ _ _ _ _ _ _ _ HA)) as (fsB & seen2 & out2 & HB & Ho).
  exists (fsB ++ fsA), seen2, (out1 ++ out2). split; [by eapply after_trans|].
  destruct o as [v| |]; [|done|done]. destruct Ho as [Hst Hsh]. split; [done|].
  eapply shown_app; [apply (Hs v out2)|exact Hsh|]. auto.
Qed.

Lemma runs_sound live s p s' o : runs live s p s' o -> well p -> run_ok live s p s' o.
Proof using ZL realloc_fits conv.
  induction 1 as [live s v|live s|live s bytes k s' o _ IH|live s e sql k s1 r rows s' o He Hq Hf _ IH
    |live s tag k s1 r s' o Ht _ IH|live s e call x fn args k s1 v s' o Hw _ IHc Hsm HW _ IH
    |live s e call x fn args k s1 Hw _ IHc Hsm HW]; intros Hwell a fs stk seen top rest HI Hl Ho; cbn [well] in Hwell.
  - exists [], seen, []. split; [by apply after_same|]. split; [done|]. intros t _. constructor.
  - exists [], seen, []. split; [by apply after_same|done].
  - eapply (run_more live s (zend_write bytes s) s' _ k o a fs stk seen [] seen top rest bytes); [|done|by apply IH|].
    + split; [done|done|by intros y ?%elem_of_nil|done|by apply zend_write_ob].
    + intros v out t _. apply EEcho.
  - eapply run_more; [by eapply query_ok|done|by apply IH|]. intros v out t Hh. cbn [app].
    unfold rows_seen in Hh. rewrite Hf in Hh. apply EQuery. apply (Hh (SawRows sql rows)). by left.
  - unfold txcache_add_explicit_invalidation_tag in Ht. rewrite (cv_link conv) in Ht. cbn [negb] in Ht.
    apply bind_Ok in Ht as (c & Hc & Ht). injection Ht as <- _.
    eapply (run_more live s _ s' _ k o a fs stk seen [] seen top rest []); [|done|by apply IH|].
    + split; [by eapply AddTag_ok|done|by intros y ?%elem_of_nil| |cbn; by rewrite app_nil_r].
      intros y _. cbn. by rewrite (AddTag_keys _ _ _ Hc).
    + intros v out t _. apply EAddTag.
  - destruct Hwell as (Hfn & Hargs & Hk).
    destruct (wrap_sound live s e call x fn args s1 (Some v) a fs stk seen top rest Hfn Hargs Hw) as
      (fsA & seen1 & out1 & HA & Hst & Hsh); [|done..|].
    { intros t1 t2 o' E. apply (IHc t1 t2 o' E). by apply (cv_well conv). }
    eapply run_more; [exact HA|done|by apply IH, Hk|]. intros v' out t Hh. apply EWrap. by apply Hsh.
  - destruct Hwell as (Hfn & Hargs & Hk).
    destruct (wrap_sound live s e call x fn args s1 None a fs stk seen top rest Hfn Hargs Hw) as
      (fsA & seen1 & out1 & HA & _); [|done..|by exists fsA, seen1, out1].
    intros t1 t2 o' E. apply (IHc t1 t2 o' E). by apply (cv_well conv).
Qed.

End Main.

End Programs.
