(* ===== verification/PhpTrace.v ===== *)
(** * Wrapping functions does not change what programs compute

    The theorem for whole programs, with an example that misses and hits, and the case
    in which the extension breaks it. *)

From S2P Require Import Prelude CLib Interval Truth Timeval PinSet Policy Hash IOBuf DBStatus Latency LatencySpec Client ClientParse ClientInv ClientSteps ClientKeys ClientTrace.
From S2P Require Import PhpMarshal Php PhpKeys PhpRuns.

(** ** Properties *)

(** C2: wrapping functions is transparent.  Inside a read-only transaction, whatever
    nested calls are wrapped, wherever their results come from, a program whose queries
    all return rows returns and prints what it would return and print without any cache
    at each of the snapshots that are left to the transaction; and everything it puts
    into the cache is, under the key of a call, what that call returns and prints, over
    the interval and under the tags it is put with.  What is asked of programs is
    [well] and [conventions]: wrapped functions are callable, have arguments and return
    values that can be marshalled (see [aborted_call_forgotten]), and are determined by
    their name and arguments without the database link; of the database and the cache
    nodes that what they answer is right ([exec_ok], [answer_ok]); of a call that it
    prints and returns less than a gigabyte ([small]) and that memory is found. *)
Theorem wraps_transparent `{ZendLaws} realloc resToCache resToPGconn zend_is_callable link user Q log
    live s p s' o a fs stk seen top rest :
  (forall p n, 0 < n <= 2 ^ 33 -> 0 < realloc p n /\ realloc p n + n < 2 ^ 63) ->
  conventions resToCache zend_is_callable link user -> well zend_is_callable p ->
  client_run (cached zend_is_callable user Q) Q log (TX (the_client s) ((a, fs) :: stk) seen) ->
  (forall x, x ∈ a :: stk.*1 -> x ∈ live) -> ob s = top :: rest ->
  runs realloc resToCache resToPGconn zend_is_callable link user Q log live s p s' o ->
  (forall n k iv d tags force, EPut n k iv d tags force ∈ out (the_client s') ->
     truthful (cached zend_is_callable user Q) log k iv d tags) /\
  match o with
  | Returned v => exists out, ob s' = (top ++ out) :: rest /\
      (forall x, x ∈ pin_list (pinSet (the_client s')) -> evals user Q (pin x) p v out) /\
      (andStar (pinSet (the_client s')) = true -> always (fun t => evals user Q t p v out))
  | CallFailed => False
  | BailedOut => True
  end.
Proof.
  intros Hre Hcv Hw Hrun Hl Ho Hr.
  pose proof (run_inv _ _ _ _ Hrun : client_inv _ _ _ (the_client s) ((a, fs) :: stk) seen) as HI.
  destruct (runs_sound realloc resToCache resToPGconn zend_is_callable link user Q log Hre Hcv
    live s p s' o Hr Hw a fs stk seen top rest HI Hl Ho) as (fs1 & seen' & out & [I S N _ O] & Hout).
  split.
  { intros n k iv d tags force Hin. apply (ci_puts _ _ _ _ _ _ I _ _ _ _ _ _ Hin). }
  destruct o as [v| |]; [|done|done]. destruct Hout as [_ Hsh]. exists out. split; [done|].
  destruct (inv_bottom _ _ _ _ _ _ _ _ _ I) as [Hb Hne]. rewrite <- Hb in Hne.
  pose proof (ci_pins _ _ _ _ _ _ I Hne) as [_ Hpin Hstar]. split.
  - intros x Hx. apply Hsh. intros y Hy. apply Hpin; [by apply N|done].
  - intros Hs t Ht. apply Hsh. intros y Hy. apply Hstar; [done|by apply N|done].
Qed.

(** ** A program with a miss and a hit *)

Definition ex_fn : zval := ZString ex_name.

Definition ex_callable (fn : zval) : bool * list Z :=
  match fn with ZString s => (bool_decide (s = ex_name), s) | _ => (false, []) end.

Definition ex_link (v : zval) : bool := match v with ZResource _ => true | _ => false end.

(** The function asks the database, prints a letter and returns whether there is a
    row. *)
Definition ex_answer (rows : list (list Z)) : zval := ZBool (if bool_decide (rows = []) then 0 else 1).

Definition ex_user (fn : zval) (args : list zval) : php :=
  Query ex_sql (fun r => match r with Some rows => Echo (str "x") (Return (ex_answer rows)) | None => Bailout end).

Definition ex_prog : php :=
  Wrap 1 ex_fn [ZResource 1; ZLong 7] (fun _ => Wrap 1 ex_fn [ZLong 8] (fun w => Return w)).

Lemma ex_storable_bool x : x = 0 \/ x = 1 -> storable (ZBool x).
Proof. intros H. split; [cbn; lia|done]. Qed.

Lemma ex_storable_answer rows : storable (ex_answer rows).
Proof. unfold ex_answer. case_bool_decide; apply ex_storable_bool; auto. Qed.

Lemma ex_name_ok : name_ok ex_name.
Proof. split; [by vm_compute|apply (bool_decide_unpack _); by vm_compute]. Qed.

Lemma ex_conventions : conventions ex_link ex_callable (ZResource 0) ex_user.
Proof.
  split; [done| |intros fn args _ _ r; destruct r; [apply ex_storable_answer|done]|done].
  intros [| | | |s| | | |]; cbn; try done. case_bool_decide; [|done]. intros _. subst s. apply ex_name_ok.
Qed.

Lemma ex_storable_args n : 0 <= n < 100 -> Forall storable [ZLong n].
Proof. intros Hn. apply Forall_cons_2; [|done]. split; [cbn; lia|done]. Qed.

Lemma ex_well : well ex_callable ex_prog.
Proof.
  split; [done|]. split; [exact (ex_storable_args 7 ltac:(lia))|]. intros v _. split; [done|].
  split; [exact (ex_storable_args 8 ltac:(lia))|]. by intros w Hw.
Qed.

Notation ex_cached := (cached ex_callable ex_user ex_Q).

Definition ex_key8 : list Z := key_bytes ex_name [ZLong 8].
Definition ex_data8 : list Z := data_bytes (ZBool 1) (str "x").

Lemma ex_evals t : 7 <= t -> evals ex_user ex_Q t (ex_user ex_fn [ZLong 8]) (ZBool 1) (str "x").
Proof. intros Ht. apply (EQuery _ _ _ _ _ [str "row"]); [exact Ht|]. exact (EEcho _ _ _ (str "x") _ _ [] (EReturn _ _ _ _)). Qed.

Lemma ex_cached8 t : 7 <= t -> ex_cached ex_key8 ex_data8 t.
Proof.
  intros Ht. exists ex_fn, [ZLong 8], (ZBool 1), (str "x").
  split_and!; [done|exact (ex_storable_args 8 ltac:(lia))|apply ex_storable_bool; auto|by vm_compute|done|done|by apply ex_evals].
Qed.

Lemma ex_hit_promised : promised ex_cached ex_Q [] (SawHit ex_key8 ex_data8) (Interval 7 10 true) ex_dbtags.
Proof.
  split; [by vm_compute|by vm_compute| |done]. split; [intros t Ht; apply ex_cached8; apply Ht|].
  intros _ t Ht _. apply ex_cached8. cbn in Ht. lia.
Qed.

(** The run: inside the transaction of [ex_c1], with an open connection. *)
Definition ex_s0 : php_state := Php (CacheRsrc (Some ZNull) (Some (ZResource 5)) true ex_c1 false true) [[]] [].

Definition ex_qenv : query_env := QueryEnv true ZNull true ex_exec true.

Definition any_link (v : zval) : bool := true.

(** The engine's call of the function, where the answers are those of [ex_exec]. *)
Definition ex_one_control (c : Client_t) : bool :=
  match choosePin c with
  | Some policy =>
    match Policy.fn policy (xe_choose ex_exec) (pinSet c) with
    | Ok pin => Nat.eqb (exec_controls c pin) 1
    | Fault _ => true
    end
  | None => true
  end.

Definition ex_callf (s : php_state) : res (php_state * outcome) :=
  if ex_one_control (the_client s) then
    '(s, r) ← txcache_query any_link s ex_qenv ex_sql;
    match rows_of r with
    | Some rows =>
      let s := zend_write (str "x") s in
      if Z.of_nat (length (default [] (head (ob s)))) <? 2 ^ 30 then Ok (s, Returned (ex_answer rows))
      else Fault ErrorReport
    | None => Fault ErrorReport
    end
  else Fault ErrorReport.

Notation ex_runs := (runs ex_realloc ex_link any_link ex_callable (ZResource 0) ex_user ex_Q []).

Lemma ex_callf_ok s s' o :
  ex_callf s = Ok (s', o) ->
  exists s1 r rows, exec_ok ex_cached ex_Q [] (the_client s) ex_exec ex_sql /\
    txcache_query any_link s ex_qenv ex_sql = Ok (s1, r) /\ rows_of r = Some rows /\
    s' = zend_write (str "x") s1 /\ o = Returned (ex_answer rows) /\
    Z.of_nat (length (default [] (head (ob s')))) < 2 ^ 30.
Proof.
  unfold ex_callf. destruct (ex_one_control (the_client s)) eqn:Hg; [|done].
  intros ([s1 r] & HQ & H)%bind_Ok. destruct (rows_of r) as [rows|] eqn:Hr; [|done]. cbv zeta in H.
  destruct (_ <? _) eqn:Hs; [|done]. injection H as <- <-. exists s1, r, rows. apply Z.ltb_lt in Hs. split_and!; try done.
  intros policy p Hp Hc. unfold ex_one_control in Hg. rewrite Hp, Hc in Hg. apply Nat.eqb_eq in Hg. rewrite Hg.
  apply ex_replies.
Qed.

Lemma ex_callf_runs live fn args s s' o : ex_callf s = Ok (s', o) -> ex_runs live s (ex_user fn args) s' o.
Proof.
  intros (s1 & r & rows & He & HQ & Hr & -> & -> & _)%ex_callf_ok.
  eapply RQuery with (e := ex_qenv); [exact He|exact HQ|exact Hr|]. apply REcho, RReturn.
Qed.

Lemma ex_callf_small s s' o : ex_callf s = Ok (s', o) -> small s' o.
Proof.
  intros (s1 & r & rows & _ & _ & _ & E & -> & Hl)%ex_callf_ok. split.
  - intros top Ht. by rewrite Ht in Hl.
  - intros v [= <-]. unfold ex_answer. by case_bool_decide.
Qed.

Definition ex_env1 : wrap_env := ex_wenv 4096 16.
Definition ex_env2 : wrap_env :=
  WrapEnv 16 32 48 ex_clock 4096 [0; 0; 0] (LookupEnv true (Some (ex_data8, Interval 7 10 true, ex_dbtags)) true)
    4096 true 8192 (PutEnv true true).

Notation ex_wrap := (txcache_wrap ex_realloc ex_link ex_callable).

Definition ex_s1 : php_state :=
  (get (ex_s0, None) (ex_wrap ex_callf ex_s0 ex_env1 [ZResource 0; ZBool 1; ex_fn; ZResource 1; ZLong 7])).1.
Definition ex_s2 : php_state :=
  (get (ex_s0, None) (ex_wrap ex_callf ex_s1 ex_env2 [ZResource 0; ZBool 1; ex_fn; ZLong 8])).1.

Lemma ex_step1_ok :
  ex_wrap ex_callf ex_s0 ex_env1 [ZResource 0; ZBool 1; ex_fn; ZResource 1; ZLong 7] = Ok (ex_s1, Some (ZBool 1)).
Proof. by apply get_pair; vm_compute. Qed.

Lemma ex_step2_ok : ex_wrap ex_callf ex_s1 ex_env2 [ZResource 0; ZBool 1; ex_fn; ZLong 8] = Ok (ex_s2, Some (ZBool 1)).
Proof. by apply get_pair; vm_compute. Qed.

Lemma ex_alloc : alloc_ok 4096 /\ alloc_ok 8192.
Proof. unfold alloc_ok, DEFAULT_SIZE. lia. Qed.

Lemma ex_wrap_ok1 : wrap_ok ex_callable ex_user ex_Q [] [ROOT] ex_env1 (key_bytes ex_name [ZLong 7]).
Proof.
  split; [split; [done|apply (bool_decide_unpack _); by vm_compute]|split; [apply ex_alloc|by vm_compute]|apply ex_alloc|].
  by intros d iv tags.
Qed.

Lemma ex_wrap_ok2 : wrap_ok ex_callable ex_user ex_Q [] [ROOT] ex_env2 ex_key8.
Proof.
  split; [split; [done|apply (bool_decide_unpack _); by vm_compute]|split; [apply ex_alloc|by vm_compute]|apply ex_alloc|].
  intros d iv tags [= <- <- <-]. split; [apply ex_hit_promised|]. split; [by vm_compute|]. split; [by vm_compute|].
  split; by vm_compute.
Qed.

Lemma ex_whole_run : ex_runs [ROOT] ex_s0 ex_prog ex_s2 (Returned (ZBool 1)).
Proof.
  eapply RWrap; [exact ex_wrap_ok1|intros s1 s2 o; apply ex_callf_runs|exact ex_callf_small|exact ex_step1_ok|].
  eapply RWrap; [exact ex_wrap_ok2|intros s1 s2 o; apply ex_callf_runs|exact ex_callf_small|exact ex_step2_ok|].
  apply RReturn.
Qed.

Lemma ex_php_run : client_run ex_cached ex_Q [] (TX (the_client ex_s0) [(ROOT, [])] []).
Proof.
  eapply run_step; [|apply step_local, (step_begin _ _ _ ex_c0 [] [] ex_begin ex_c1 ex_begin_ok); by apply get_pair; vm_compute].
  apply (run_init _ _ _ blank Policy_LargestBoundedPin (Node (str "pins") (str "1") false)
      [Node (str "cache") (str "2") false]). reflexivity.
Qed.

(** The program has printed the letter twice, once from the cache; the pin 9 is left,
    and without the cache the program would have done the same there. *)
Lemma wraps_transparent_witness :
  pin_list (pinSet (the_client ex_s2)) = [ex_pin 9] /\ ob ex_s2 = [str "xx"] /\
  evals ex_user ex_Q 9 ex_prog (ZBool 1) (str "xx").
Proof.
  assert (E : pin_list (pinSet (the_client ex_s2)) = [ex_pin 9]) by (by vm_compute).
  assert (Eo : ob ex_s2 = [str "xx"]) by (by vm_compute). split_and!; [done|done|].
  assert (Hl : forall x : Z, x ∈ [ROOT] -> x ∈ [ROOT]) by done.
  destruct (wraps_transparent ex_realloc ex_link any_link ex_callable (ZResource 0) ex_user ex_Q []
    [ROOT] ex_s0 ex_prog ex_s2 (Returned (ZBool 1)) ROOT [] [] [] [] [] ex_realloc_fits ex_conventions ex_well
    ex_php_run Hl eq_refl ex_whole_run) as (_ & out & Ho & Hp & _).
  rewrite Eo in Ho. injection Ho as <-. apply (Hp (ex_pin 9)). rewrite E. by left.
Defined.

(** ** A function that returns a resource *)

(** [outer] calls [inner], which returns a result of the database. *)
Definition inner_fn : zval := ZString (str "inner").
Definition outer_fn : zval := ZString (str "outer").

Definition bad_callable (fn : zval) : bool * list Z :=
  match fn with ZString s => (bool_decide (s = str "inner" \/ s = str "outer"), s) | _ => (false, []) end.

Definition has_row (n : Z) : zval := ZBool (if n =? 0 then 0 else 1).

Definition bad_user (fn : zval) (args : list zval) : php :=
  if bool_decide ((bad_callable fn).2 = str "inner") then
    Query ex_sql (fun r => match r with Some rows => Return (ZResource (Z.of_nat (length rows))) | None => Bailout end)
  else Wrap 0 inner_fn [] (fun v => match v with ZResource n => Return (has_row n) | _ => Bailout end).

(** There is a row from pin 7 on. *)
Definition bad_Q (sql : list Z) (rows : list (list Z)) (t : Z) : Prop := rows = if t <? 7 then [] else [str "row"].

(** The engine's calls of the two functions. *)
Definition call_inner (s : php_state) : res (php_state * outcome) :=
  '(s, r) ← txcache_query any_link s ex_qenv ex_sql;
  Ok (s, match rows_of r with Some rows => Returned (ZResource (Z.of_nat (length rows))) | None => BailedOut end).

Definition call_outer (s : php_state) : res (php_state * outcome) :=
  '(s, r) ← txcache_wrap ex_realloc ex_link bad_callable call_inner s (ex_wenv 8192 24) [ZResource 0; ZBool 0; inner_fn];
  Ok (s, match r with Some (ZResource n) => Returned (has_row n) | _ => BailedOut end).

Definition wrap_outer : res (php_state * option zval) :=
  txcache_wrap ex_realloc ex_link bad_callable call_outer ex_s0 (ex_wenv 4096 16) [ZResource 0; ZBool 0; outer_fn].

Definition bad_interval : interval_t := Interval PIN_NEG_INF PIN_INF false.

Lemma bad_evals t v out : t < 7 -> evals bad_user bad_Q t (bad_user outer_fn []) v out -> v = ZBool 0.
Proof.
  intros Ht HE. unfold bad_user in HE. rewrite bool_decide_eq_false_2 in HE by done.
  inversion HE as [| | | |x fn args k v1 out1 v' out' HI HK]; subst. clear HE.
  unfold bad_user in HI. rewrite bool_decide_eq_true_2 in HI by done.
  inversion HI as [| |sql k rows v' o HQ HR| |]; subst. clear HI.
  unfold bad_Q in HQ. rewrite (proj2 (Z.ltb_lt t 7) Ht) in HQ. subst rows.
  inversion HR; subst. cbn in HK. by inversion HK.
Qed.

Lemma bad_names : name_ok (str "outer") /\ name_ok (str "inner").
Proof. split; (split; [by vm_compute|apply (bool_decide_unpack _); by vm_compute]). Qed.

Lemma bad_not_truthful :
  ~ truthful (cached bad_callable bad_user bad_Q) [] (key_bytes (str "outer") []) bad_interval
      (data_bytes (ZBool 1) []) [].
Proof.
  intros [HV _]. destruct (HV 5) as (fn & args & v & out & Hfn & Hargs & Hv & Ho & Ek & Ed & HE).
  { cbn. unfold PIN_NEG_INF, PIN_INF. lia. }
  assert (Hn : name_ok (bad_callable fn).2).
  { destruct fn as [| | | |s| | | |]; try done. cbn [bad_callable fst snd] in *.
    apply bool_decide_eq_true in Hfn as [-> | ->]; apply bad_names. }
  destruct (key_bytes_inj _ _ _ _ (proj1 bad_names) Hn (Forall_nil_2 _) Hargs ltac:(by vm_compute) Ek) as [En Ea].
  assert (Hs : Z.of_nat (length (zenc (ZBool 1) ++ enc (FBuf []))) < 2 ^ 32) by (by vm_compute).
  destruct (zenc_unique (ZBool 1) v (enc (FBuf [])) (enc (FBuf out)) (ex_storable_bool 1 ltac:(auto)) Hv Hs Ed) as [<- _].
  assert (Eu : bad_user fn args = bad_user outer_fn []) by (unfold bad_user; by rewrite <- En).
  rewrite Eu in HE. apply bad_evals in HE; [done|lia].
Qed.

(** C36: an aborted call is forgotten.  When a wrapped function returns a value that
    cannot be marshalled, such as a result of the database, the extension aborts its
    frame but hands the value to the caller.  The caller's frame knows nothing of what
    the call has seen: here the outer function, whose value depends on a query that
    changes at pin 7, is put into the cache as valid at every pin, which is not true. *)
Theorem aborted_call_forgotten :
  exists s1 n, wrap_outer = Ok (s1, Some (ZBool 1)) /\
    EPut n (key_bytes (str "outer") []) bad_interval (data_bytes (ZBool 1) []) [] false ∈ out (the_client s1) /\
    ~ truthful (cached bad_callable bad_user bad_Q) [] (key_bytes (str "outer") []) bad_interval
        (data_bytes (ZBool 1) []) [].
Proof.
  exists (get (ex_s0, None) wrap_outer).1, 0%nat. split_and!.
  - by apply get_pair; vm_compute.
  - apply list_elem_of_In. vm_compute. tauto.
  - apply bad_not_truthful.
Qed.
