(* ===== verification/PhpRequests.v ===== *)
(** * Connections across requests

    The extension keeps its cache connections from one request to the next. *)

From S2P Require Import Prelude CLib Interval PinSet Hash IOBuf Latency Client PhpMarshal Php.

(** Between requests: no callback, no link, no transaction. *)
Record idle (c : cache_rsrc) : Prop := {
  id_pgconnect : pgconnect c = None;
  id_pgsql : pgsql c = None;
  id_pg : cr_pg c = false;
  id_inXaction : inXaction c = false;
  id_bottom : bottom (client c) = 0
}.

(** At the end of a request: a connection that was not used, or one that has at most
    the outermost frame of a transaction open and knows of it. *)
Record releasable (c : cache_rsrc) : Prop := {
  re_unused : pgconnect c = None -> idle c;
  re_link : cr_pg c = bool_decide (is_Some (pgsql c));
  re_open : if inXaction c then bottom (client c) = 0 \/ bottom (client c) = ROOT else bottom (client c) = 0;
  re_active : activePin (client c) <> PIN_INVALID -> pg (client c) = true;
  re_pincushion : is_Some (pincushion (client c))
}.

Lemma Commit_closes c e :
  bottom c = 0 \/ bottom c = ROOT -> (activePin c <> PIN_INVALID -> pg c = true) -> is_Some (pincushion c) ->
  exists c' ok, Client_Commit c e = Ok (c', ok) /\ bottom c' = 0.
Proof.
  intros [Hb|Hb] Hpg [node Hnode]; unfold Client_Commit; rewrite Hb.
  { exists c, false. done. }
  change (ROOT =? 0) with false. change (ROOT =? ROOT) with true. cbn [negb activePin set_bottom pg].
  destruct (Z.eqb_spec (activePin c) PIN_INVALID) as [Ea|Ea]; cbn [negb].
  - rewrite bind_ret_l. cbn [bypassMode set_bottom]. destruct (bypassMode c); cbn [negb]; [by eexists _, _|].
    cbn [pincushion set_bottom]. rewrite Hnode. cbn [deref]. rewrite bind_ret_l.
    destruct (NodeToHost _ _) as [n host]. destruct host; by eexists _, _.
  - rewrite (Hpg Ea). cbn [Assert]. rewrite !bind_ret_l. cbn [bypassMode set_activePin set_pending emit set_out set_bottom].
    destruct (bypassMode c); cbn [negb]; [by eexists _, _|].
    cbn [pincushion set_activePin set_pending emit set_out set_bottom]. rewrite Hnode. cbn [deref]. rewrite bind_ret_l.
    destruct (NodeToHost _ _) as [n host]. destruct host; by eexists _, _.
Qed.

Lemma release_ok c e : releasable c -> exists c', release_pgsql c e = Ok c' /\ idle c'.
Proof.
  intros [Hu Hl Ho Ha Hp]. unfold release_pgsql.
  assert (H1 : exists c1, (if inXaction c then
       '(cl, _) ← Client_Commit (client c) e; Ok (set_inXaction false (set_client cl c)) else Ok c) = Ok c1 /\
     pgconnect c1 = pgconnect c /\ pgsql c1 = pgsql c /\ cr_pg c1 = cr_pg c /\ inXaction c1 = false /\ bottom (client c1) = 0).
  { destruct (inXaction c) eqn:Ex; [|by exists c].
    destruct (Commit_closes (client c) e Ho Ha Hp) as (cl & ok & -> & Hb). rewrite bind_ret_l. by eexists. }
  destruct H1 as (c1 & -> & E1 & E2 & E3 & E4 & E5). rewrite bind_ret_l, E1.
  destruct (pgconnect c) as [cb|] eqn:Ec.
  - cbv zeta. cbn [pgsql cr_pg set_pgconnect client]. rewrite E2, E3, Hl. destruct (pgsql c) as [l|] eqn:El.
    + rewrite bool_decide_eq_false_2 by done. cbn [andb]. rewrite bool_decide_eq_true_2 by done. cbn [andb Assert].
      rewrite bind_ret_l. unfold Client_ReleasePG. rewrite E5. change (0 =? 0) with true. cbn [negb]. rewrite bind_ret_l.
      cbn [negb]. eexists. split; [done|]. by split.
    + rewrite bool_decide_eq_true_2, bool_decide_eq_false_2 by (done || intros []; done). cbn [andb negb].
      assert (Hpg : cr_pg c1 = false) by (rewrite E3, Hl; by apply bool_decide_eq_false_2; intros []).
      eexists. split; [done|]. split; cbn; congruence.
  - destruct (Hu eq_refl) as [H1 H2 H3 H4 H5]. rewrite E2, E3, H2, H3. rewrite bool_decide_eq_true_2 by done.
    cbn [andb negb Assert]. rewrite bind_ret_l. exists c1. split; [done|]. split; congruence.
Qed.

Lemma ReleaseAll_ok env l :
  Forall (fun kc => releasable kc.2) l ->
  exists l', ReleaseAll env l = Ok l' /\ map fst l' = map fst l /\ Forall (fun kc => idle kc.2) l'.
Proof.
  induction 1 as [|[k c] l Hc _ (l' & E & Hk & Hl)]; cbn [ReleaseAll]; [by exists []|].
  destruct (release_ok c (env k) Hc) as (c' & -> & Hi). rewrite bind_ret_l, E, bind_ret_l.
  exists ((k, c') :: l'). split_and!; [done|cbn; by rewrite Hk|by constructor].
Qed.

(** The end of a request always goes through and leaves every connection idle. *)
Lemma RSHUTDOWN_idle g env now :
  map_Forall (fun _ => releasable) (persistent_list g) ->
  exists g', PHP_RSHUTDOWN g env now = Ok g' /\ map_Forall (fun _ => idle) (persistent_list g').
Proof.
  intros Hg. unfold PHP_RSHUTDOWN.
  destruct (ReleaseAll_ok env (map_to_list (persistent_list g))) as (l & -> & Hk & Hl).
  { apply Forall_forall. intros [k c] Hin%elem_of_map_to_list. by apply (Hg k). }
  rewrite bind_ret_l. eexists. split; [done|]. cbn [persistent_list]. intros k c Hin%elem_of_list_to_map_2.
  exact (proj1 (Forall_forall _ _) Hl (k, c) Hin).
Qed.

(** Connecting in the next request then finds the connection free. *)
Lemma pconnect_ok callable g cb bypass fresh :
  map_Forall (fun _ => idle) (persistent_list g) -> (callable cb).1 = true -> 0 <= bypass <= 3 ->
  exists g' c, txcache_pconnect callable (PHP_RINIT g) cb bypass fresh true = Ok (g', Some 0) /\
    persistent_list g' !! 0 = Some c /\ pgconnect c = Some cb /\ inXaction c = false /\ pcounter g' = 1.
Proof.
  intros Hi Hcb Hb. unfold txcache_pconnect. rewrite Hcb. cbn [negb pcounter PHP_RINIT persistent_list].
  assert (E : exists cl, match persistent_list g !! 0 with
    | Some c => if bool_decide (pgconnect c = None) then Ok (client c, true) else Fault PanicCall
    | None => Ok (fresh, true) end = Ok (cl, true)).
  { destruct (persistent_list g !! 0) as [c|] eqn:Ec; [|by eexists].
    rewrite bool_decide_eq_true_2 by apply (Hi 0 c Ec). by eexists. }
  destruct E as (cl & ->). rewrite bind_ret_l. cbn [negb]. unfold BypassModes.
  assert (Hcases : bypass = 0 \/ bypass = 1 \/ bypass = 2 \/ bypass = 3) by lia.
  destruct Hcases as [->|[->|[->| ->]]]; cbn [Z.eqb orb Pos.eqb]; eexists _, _;
    (split; [done|]; cbn [persistent_list]; rewrite lookup_insert_eq; done).
Qed.

(** A request in memcached mode leaves the mode on for later requests: no mode
    switches it off, and the later requests run without consistency. *)
Lemma memcached_mode_stays callable g cb bypass fresh c :
  (callable cb).1 = true -> 0 <= bypass <= 3 -> persistent_list g !! 0 = Some c -> pgconnect c = None ->
  memcachedMode (client c) = true ->
  exists g' c', txcache_pconnect callable (PHP_RINIT g) cb bypass fresh true = Ok (g', Some 0) /\
    persistent_list g' !! 0 = Some c' /\ memcachedMode (client c') = true.
Proof.
  intros Hcb Hb Hc Hn Hm. unfold txcache_pconnect. rewrite Hcb. cbn [negb pcounter PHP_RINIT persistent_list].
  rewrite Hc, bool_decide_eq_true_2, bind_ret_l by done. cbn [negb]. unfold BypassModes.
  assert (Hcases : bypass = 0 \/ bypass = 1 \/ bypass = 2 \/ bypass = 3) by lia.
  destruct Hcases as [->|[->|[->| ->]]]; cbn [Z.eqb orb Pos.eqb]; eexists _, _;
    (split; [done|]; cbn [persistent_list]; rewrite lookup_insert_eq; by split).
Qed.
